(* ===== verification/_CoqProject ===== *)
-Q . S2P
Prelude.v
Effects.v
PyDecimal.v
PyFloat.v
PyTime.v
FloatRange.v
Models.v
Clock.v
Dedup.v
Rolling.v
Lineage.v
Symbols.v
NormBinance.v
NormOkx.v
BookBase.v
BookBinance.v
BookOkx.v
BookState.v
Health.v
MarketState.v
Availability.v
EventBus.v
Session.v
PriceCache.v
PriceQueries.v
FeatureModels.v
CrossVenue.v
CrossAlign.v
CrossSelect.v
CrossResult.v
MetricHistory.v
SingleVenue.v
SingleResult.v
SingleDemo.v
Timeline.v
TimelineExact.v
FeatureRuntime.v
RuntimeResult.v
TimelineSink.v
RuntimeDemo.v
Fingerprint.v
FeatureRows.v
FeatureTree.v
FeatureScan.v
FeatureAudit.v
FeatureDisk.v
FeatureWriter.v
FeatureStore.v
FeatureStoreResult.v
FeatureWire.v
FeatureStoreDemo.v
RawRecords.v
RawTree.v
RawWriter.v
RawAudits.v
RawStore.v
Replay.v
Journal.v
Collection.v
RawCompact.v
ReplayResult.v
EventWire.v
ReplayDemo.v
Collected.v
CollectedDemo.v
