(* ===== verification/Prelude.v ===== *)
(** * CVF-01: a verification library for the market-data and feature core

    (header completed with the components) *)

From Stdlib Require Export ZArith Lia Sorted Permutation Morphisms RelationClasses.
From stdpp Require Export base tactics strings gmap numbers option list_relations list.

#[export] Set Default Proof Using "Type".

Declare Scope cvf_scope.
Delimit Scope cvf_scope with cvf.
#[global] Open Scope Z_scope.
#[global] Open Scope list_scope.

(** ** Exceptions and results *)

(** The exception classes the modelled code raises.  [ValueError] is also the
    base of pydantic's [ValidationError], of [PayloadNormalizationError] and of
    [UnknownSymbolError]; the message is the constant part of the source's. *)
Inductive exn :=
| ValueError (msg : string)
| UnsupportedPayloadError (msg : string)
| UnknownSymbolError (msg : string)
| RuntimeError (msg : string)
| EventBusError (msg : string)
| KeyError
| IndexError
| AttributeError
| DivisionError
| OverflowError
| FeatureParquetError (msg : string)
| CollectionManifestError (msg : string)
| SessionError (msg : string)
| SessionProtocolError (msg : string)
| HeartbeatTimeout
| TypeError
| OSError (msg : string)
| ParquetWriterError (msg : string)
| CollectionError (msg : string)
| ConfigError (msg : string)
| ConnectorNotImplementedError (msg : string)
| HTTPError (msg : string)
| CancelledError.

#[export] Instance exn_eq_dec : EqDecision exn.
Proof. solve_decision. Defined.

Inductive res (A : Type) :=
| Ok (a : A)
| Err (e : exn).
Arguments Ok {A} a.
Arguments Err {A} e.

#[export] Instance res_eq_dec `{EqDecision A} : EqDecision (res A).
Proof. solve_decision. Defined.

#[export] Instance res_ret : MRet res := @Ok.
#[export] Instance res_bind : MBind res := λ A B f m,
  match m with Ok a => f a | Err e => Err e end.
#[export] Instance res_fmap : FMap res := λ A B f m,
  match m with Ok a => Ok (f a) | Err e => Err e end.

(** [x is None]. *)
Definition is_none {A} (o : option A) : bool := match o with None => true | _ => false end.

(** [require b e]: the guard [if not b: raise e]. *)
Definition require (b : bool) (e : exn) : res unit :=
  if b then Ok tt else Err e.

Definition is_ok {A} (r : res A) : bool :=
  match r with Ok _ => true | Err _ => false end.

(** [[f(x) for x in l]] where [f] may raise: left to right, first error wins. *)
Fixpoint mapR {A B} (f : A → res B) (l : list A) : res (list B) :=
  match l with
  | [] => Ok []
  | x :: l => y ← f x; ys ← mapR f l; Ok (y :: ys)
  end.

Lemma bind_Ok {A B} (f : A → res B) m b :
  m ≫= f = Ok b ↔ ∃ a, m = Ok a ∧ f a = Ok b.
Proof.
  destruct m as [a|e]; simpl.
  - split; [eauto|by intros (? & [= ->] & ?)].
  - split; [done|by intros (? & ? & ?)].
Qed.

Lemma require_Ok b e u : require b e = Ok u ↔ b = true.
Proof. destruct u, b; simpl; naive_solver. Qed.

Lemma mapR_Ok {A B} (f : A → res B) l ys :
  mapR f l = Ok ys ↔ Forall2 (λ x y, f x = Ok y) l ys.
Proof.
  revert ys. induction l as [|x l IH]; intros ys; simpl.
  - split; [intros [= <-]; constructor|inversion 1; done].
  - rewrite bind_Ok. split.
    + intros (y & Hy & (ys' & Hys & [= <-])%bind_Ok).
      constructor; [done|by apply IH].
    + intros (y & ys' & Hy & Hys & ->)%Forall2_cons_inv_l.
      exists y. split; [done|]. apply bind_Ok. exists ys'. by rewrite IH.
Qed.

Lemma mapR_length {A B} (f : A → res B) l ys :
  mapR f l = Ok ys → length ys = length l.
Proof. intros H%mapR_Ok. symmetry. by eapply Forall2_length. Qed.

Lemma mapR_total {A B} (f : A → res B) (g : A → B) l :
  (∀ x, x ∈ l → f x = Ok (g x)) → mapR f l = Ok (map g l).
Proof.
  induction l as [|x l IH]; intros H; simpl; [done|].
  rewrite (H x) by left. simpl. rewrite IH by (intros; apply H; by right). done.
Qed.

Lemma mapR_Forall {A B} (f : A → res B) (P : B → Prop) l ys :
  (∀ x y, f x = Ok y → P y) → mapR f l = Ok ys → Forall P ys.
Proof. intros Hf H%mapR_Ok. induction H; constructor; eauto. Qed.

Lemma mapR_map {A B C} (f : B → res C) (g : A → B) (xs : list A) : mapR f (map g xs) = mapR (λ x, f (g x)) xs.
Proof. induction xs as [|x xs IH]; [done|]. simpl. by rewrite IH. Qed.

Lemma mapR_ext {A B} (f g : A → res B) l : (∀ x, x ∈ l → f x = g x) → mapR f l = mapR g l.
Proof.
  induction l as [|x l IH]; intros H; [done|]. simpl. rewrite (H x) by left.
  destruct (g x); [|done]. simpl. rewrite IH; [done|]. intros y Hy. apply H. by right.
Qed.

Lemma mapR_app {A B} (f : A → res B) l1 l2 ys1 ys2 :
  mapR f l1 = Ok ys1 → mapR f l2 = Ok ys2 → mapR f (l1 ++ l2) = Ok (ys1 ++ ys2).
Proof. rewrite !mapR_Ok. apply Forall2_app. Qed.

Lemma mapR_perm {A B} (g : A → res B) l l' ys :
  mapR g l = Ok ys → l ≡ₚ l' → ∃ ys', mapR g l' = Ok ys' ∧ ys ≡ₚ ys'.
Proof.
  intros H Hp. revert ys H. induction Hp as [|x l l' Hp IH|x y l|l1 l2 l3 _ IH1 _ IH2]; intros ys H.
  - by exists ys.
  - cbn [mapR] in H |- *. apply bind_Ok in H as (z & -> & (zs & Hz & [= <-])%bind_Ok).
    destruct (IH zs Hz) as (ws & Hw & Hp2). exists (z :: ws). cbn [mbind res_bind]. by rewrite Hw, Hp2.
  - cbn [mapR] in H |- *. apply bind_Ok in H as (z & -> & (zs & Hz & [= <-])%bind_Ok).
    apply bind_Ok in Hz as (w & -> & (ws & -> & [= <-])%bind_Ok). exists (w :: z :: ws). split; [done|constructor].
  - destruct (IH1 ys H) as (zs & Hz & P1). destruct (IH2 zs Hz) as (ws & Hw & P2). exists ws. by rewrite P1.
Qed.

Lemma mapR_concat {A B} (f : A → res B) lss :
  mapR f (concat lss) = (ls ← mapR (mapR f) lss; Ok (concat ls)).
Proof.
  induction lss as [|l lss IH]; [done|]. cbn [concat mapR].
  assert (∀ l2, mapR f (l ++ l2) = (a ← mapR f l; b ← mapR f l2; Ok (a ++ b))) as ->.
  { clear IH. induction l as [|x l IH]; intros l2; simpl; [by destruct (mapR f l2)|].
    destruct (f x) as [y|e]; [|reflexivity]. cbn [mbind res_bind]. rewrite IH. destruct (mapR f l) as [ys|e]; [|reflexivity].
    simpl. by destruct (mapR f l2). }
  rewrite IH. destruct (mapR f l); [|done]. simpl. by destruct (mapR (mapR f) lss).
Qed.

Lemma mapR_then {A B C} (f : A → res C) (g : A → res B) (h : B → C) l :
  (∀ x, f x = (y ← g x; Ok (h y))) → mapR f l = (ys ← mapR g l; Ok (map h ys)).
Proof.
  intros Hf. induction l as [|x l IH]; [done|]. cbn [mapR]. rewrite IH, Hf.
  destruct (g x) as [y|e]; [|reflexivity]. cbn [mbind res_bind]. by destruct (mapR g l).
Qed.

Lemma fmap_Ok {A B} (f : A → B) r y : f <$> r = Ok y → ∃ x, r = Ok x ∧ y = f x.
Proof. destruct r as [x|]; [|done]. intros [= <-]. by exists x. Qed.

Lemma list_filter_ext {A} (P Q : A → Prop) `{∀ x, Decision (P x)} `{∀ x, Decision (Q x)} (l : list A) :
  (∀ x, x ∈ l → P x ↔ Q x) → filter P l = filter Q l.
Proof.
  induction l as [|x l IH]; intros Hl; [done|]. rewrite !filter_cons.
  rewrite IH by (intros; apply Hl; by right). pose proof (Hl x ltac:(left)). by repeat case_decide; try tauto.
Qed.

(** ** Tactics *)

(** Split the equations [_ ≫= _ = Ok _] and guards of the hypotheses. *)
Ltac inv_res :=
  repeat match goal with
  | H : _ ≫= _ = Ok _ |- _ => apply bind_Ok in H; destruct H as (? & ? & ?)
  | H : require _ _ = Ok _ |- _ => apply require_Ok in H
  | H : Ok _ = Ok _ |- _ => injection H as H
  | H : Err _ = Ok _ |- _ => discriminate H
  | H : mret _ = Ok _ |- _ => injection H as H
  end.

(** Case analysis on the boolean comparisons of the goal and hypotheses. *)
Ltac case_cmp :=
  repeat match goal with
  | H : context [Z.ltb ?a ?b] |- _ => destruct (Z.ltb_spec a b); try discriminate
  | H : context [Z.leb ?a ?b] |- _ => destruct (Z.leb_spec a b); try discriminate
  | H : context [Z.eqb ?a ?b] |- _ => destruct (Z.eqb_spec a b); try discriminate
  | |- context [Z.ltb ?a ?b] => destruct (Z.ltb_spec a b)
  | |- context [Z.leb ?a ?b] => destruct (Z.leb_spec a b)
  | |- context [Z.eqb ?a ?b] => destruct (Z.eqb_spec a b)
  end; simpl in *.

Create HintDb cvf discriminated.
Create Rewrite HintDb cvf_rw.

(** ** Equality tests of keys

    A Python [dict] compares keys with [==]; for [Decimal] that is numerical
    equality, coarser than Leibniz equality. *)
Class PyEq (K : Type) := pyeq : K → K → bool.
#[global] Hint Mode PyEq ! : typeclass_instances.

Class PyEqLaws (K : Type) `{PyEq K} := {
  pyeq_refl (x : K) : pyeq x x = true;
  pyeq_sym (x y : K) : pyeq x y = true → pyeq y x = true;
  pyeq_trans (x y z : K) : pyeq x y = true → pyeq y z = true → pyeq x z = true }.

#[export] Instance pyeq_of_eqdec `{EqDecision K} : PyEq K | 10 :=
  λ x y, bool_decide (x = y).
#[export] Instance pyeq_of_eqdec_laws `{EqDecision K} : PyEqLaws K | 10.
Proof.
  split; unfold pyeq, pyeq_of_eqdec; intros; rewrite ?bool_decide_eq_true in *;
    congruence.
Qed.

Lemma pyeq_sym_iff `{PyEqLaws K} (x y : K) : pyeq x y = pyeq y x.
Proof.
  destruct (pyeq x y) eqn:E1, (pyeq y x) eqn:E2; try done;
    [apply pyeq_sym in E1|apply pyeq_sym in E2]; congruence.
Qed.

Lemma pyeq_rewrite `{PyEqLaws K} (x y z : K) :
  pyeq x y = true → pyeq x z = pyeq y z.
Proof.
  intros E. destruct (pyeq x z) eqn:E1, (pyeq y z) eqn:E2; try done.
  - rewrite (pyeq_trans y x z) in E2; [done|by apply pyeq_sym|done].
  - rewrite (pyeq_trans x y z) in E1; done.
Qed.

(** ** Insertion-ordered dictionaries

    A [dict] keeps its keys in insertion order; assigning to a present key keeps
    both its position and the key object already stored. *)
Section dict.
Context {K V : Type} {HE : PyEq K} {HK : PyEqLaws K}.
Implicit Types (d : list (K * V)) (k : K) (v : V).

Fixpoint dict_get k d : option V :=
  match d with
  | [] => None
  | (k', v) :: d => if pyeq k k' then Some v else dict_get k d
  end.

Fixpoint dict_set k v d : list (K * V) :=
  match d with
  | [] => [(k, v)]
  | (k', v') :: d => if pyeq k k' then (k', v) :: d else (k', v') :: dict_set k v d
  end.

Fixpoint dict_pop k d : list (K * V) :=
  match d with
  | [] => []
  | (k', v') :: d => if pyeq k k' then d else (k', v') :: dict_pop k d
  end.

Fixpoint dict_wf d : Prop :=
  match d with
  | [] => True
  | (k, _) :: d => dict_get k d = None ∧ dict_wf d
  end.

Lemma dict_get_eqkey k k' d : pyeq k k' = true → dict_get k d = dict_get k' d.
Proof using HK.
  intros E. induction d as [|[k0 v0] d IH]; simpl; [done|].
  by rewrite (pyeq_rewrite k k') by done; rewrite IH.
Qed.

Lemma dict_get_set_eq k k' v d :
  pyeq k' k = true → dict_get k' (dict_set k v d) = Some v.
Proof using HK.
  intros E. induction d as [|[k0 v0] d IH]; simpl; [by rewrite E|].
  destruct (pyeq k k0) eqn:E0; simpl.
  - by rewrite (pyeq_trans k' k k0).
  - rewrite (pyeq_rewrite k' k k0) by done. by rewrite E0.
Qed.

Lemma dict_get_set_ne k k' v d :
  pyeq k' k = false → dict_get k' (dict_set k v d) = dict_get k' d.
Proof using HK.
  intros E. induction d as [|[k0 v0] d IH]; simpl; [by rewrite E|].
  destruct (pyeq k k0) eqn:E0; simpl; [|by rewrite IH].
  assert (pyeq k' k0 = false) as ->; [|done].
  rewrite <- E, (pyeq_sym_iff k' k0), (pyeq_sym_iff k' k).
  symmetry. by apply pyeq_rewrite.
Qed.

Lemma dict_get_pop_eq k k' d :
  dict_wf d → pyeq k' k = true → dict_get k' (dict_pop k d) = None.
Proof using HK.
  intros Hwf E. induction d as [|[k0 v0] d IH]; simpl in *; [done|].
  destruct Hwf as [Hk0 Hwf]. destruct (pyeq k k0) eqn:E0; simpl.
  - rewrite (dict_get_eqkey k' k0); [done|]. by apply (pyeq_trans k' k).
  - rewrite (pyeq_rewrite k' k k0) by done. rewrite E0. auto.
Qed.

Lemma dict_get_pop_ne k k' d :
  pyeq k' k = false → dict_get k' (dict_pop k d) = dict_get k' d.
Proof using HK.
  intros E. induction d as [|[k0 v0] d IH]; simpl; [done|].
  destruct (pyeq k k0) eqn:E0; simpl; [|by rewrite IH].
  assert (pyeq k' k0 = false) as ->; [|done].
  rewrite <- E, (pyeq_sym_iff k' k0), (pyeq_sym_iff k' k).
  symmetry. by apply pyeq_rewrite.
Qed.

Lemma dict_wf_set k v d : dict_wf d → dict_wf (dict_set k v d).
Proof using HK.
  induction d as [|[k0 v0] d IH]; simpl; [done|]. intros [Hk0 Hwf].
  destruct (pyeq k k0) eqn:E0; simpl; [done|]. split; [|auto].
  rewrite dict_get_set_ne; [done|]. by rewrite pyeq_sym_iff.
Qed.

Lemma dict_wf_pop k d : dict_wf d → dict_wf (dict_pop k d).
Proof using HK.
  induction d as [|[k0 v0] d IH]; simpl; [done|]. intros [Hk0 Hwf].
  destruct (pyeq k k0) eqn:E0; simpl; [done|]. split; [|auto].
  rewrite dict_get_pop_ne; [done|]. by rewrite pyeq_sym_iff.
Qed.

Lemma dict_get_elem k v d :
  dict_get k d = Some v → ∃ k', (k', v) ∈ d ∧ pyeq k k' = true.
Proof using Type.
  induction d as [|[k0 v0] d IH]; simpl; [done|].
  destruct (pyeq k k0) eqn:E0.
  - intros [= ->]. exists k0. split; [left|done].
  - intros (k' & Hin & E)%IH. exists k'. split; [by right|done].
Qed.

Lemma elem_dict_get k v d : dict_wf d → (k, v) ∈ d → dict_get k d = Some v.
Proof using HK.
  induction d as [|[k0 v0] d IH]; simpl; [by intros _ ?%elem_of_nil|].
  intros [Hk0 Hwf] [[= -> ->]|Hin]%elem_of_cons; [by rewrite pyeq_refl|].
  destruct (pyeq k k0) eqn:E0; [|auto].
  rewrite <- (dict_get_eqkey k k0), IH in Hk0 by done. done.
Qed.

Lemma dict_get_None_elem k d : dict_get k d = None ↔ ∀ k' v, (k', v) ∈ d → pyeq k k' = false.
Proof using HK.
  induction d as [|[k0 v0] d IH]; simpl; [by split; [intros _ ?? ?%elem_of_nil|]|].
  destruct (pyeq k k0) eqn:E0.
  - split; [done|]. intros H. rewrite (H k0 v0) in E0; [done|left].
  - rewrite IH. split.
    + intros H k' v [[= -> ->]|?]%elem_of_cons; eauto.
    + intros H k' v ?. apply (H k' v). by right.
Qed.

(** Dropping entries keeps the keys distinct. *)
Lemma dict_wf_sublist d1 d2 : sublist d1 d2 → dict_wf d2 → dict_wf d1.
Proof using HK.
  induction 1 as [|[k v] d1 d2 Hs IH|[k v] d1 d2 Hs IH]; simpl; [done| |intros []; auto].
  intros [Hk Hwf]. split; [|auto]. rewrite dict_get_None_elem in *.
  intros k' v' Hin. apply (Hk k' v'). by eapply elem_of_sublist.
Qed.

Lemma dict_pop_sublist k d : sublist (dict_pop k d) d.
Proof using Type.
  induction d as [|[k0 v0] d IH]; simpl; [constructor|].
  destruct (pyeq k k0); [by apply sublist_cons|by apply sublist_skip].
Qed.

Lemma dict_wf_snoc k v d : dict_wf d → dict_get k d = None → dict_wf (d ++ [(k, v)]).
Proof using HK.
  induction d as [|[k0 v0] d IH]; simpl; [by repeat split|]. intros [Hk0 Hwf].
  destruct (pyeq k k0) eqn:E0; [done|]. intros Hk. split; [|auto].
  rewrite dict_get_None_elem in *. intros k' v' [?|Hin]%elem_of_app; [eauto|].
  apply list_elem_of_singleton in Hin as [= -> ->]. by rewrite pyeq_sym_iff.
Qed.

Lemma dict_set_snoc k v d : dict_get k d = None → dict_set k v d = d ++ [(k, v)].
Proof using Type.
  induction d as [|[k0 v0] d IH]; simpl; [done|]. destruct (pyeq k k0); [done|].
  intros Hk. by rewrite IH.
Qed.

Lemma dict_wf_perm d1 d2 : d1 ≡ₚ d2 → dict_wf d1 → dict_wf d2.
Proof using HK.
  induction 1 as [|[k v] d1 d2 Hp IH|[k1 v1] [k2 v2] d|]; simpl; [done| | |auto].
  - intros [Hk Hwf]. split; [|auto]. rewrite dict_get_None_elem in *.
    intros k' v' Hin. apply (Hk k' v'). by rewrite Hp.
  - intros (H2 & H1 & Hwf). rewrite (pyeq_sym_iff k1 k2).
    by destruct (pyeq k2 k1).
Qed.

Lemma dict_pop_None k d : dict_get k d = None → dict_pop k d = d.
Proof using Type.
  induction d as [|[k0 v0] d IH]; simpl; [done|]. destruct (pyeq k k0); [done|].
  intros Hk. by rewrite IH.
Qed.

Lemma dict_pop_length k d :
  is_Some (dict_get k d) → S (length (dict_pop k d)) = length d.
Proof using Type.
  induction d as [|[k0 v0] d IH]; simpl; [by intros []|].
  destruct (pyeq k k0); simpl; [done|]. auto.
Qed.

Lemma dict_set_length_le k v d : (length (dict_set k v d) ≤ S (length d))%nat.
Proof using Type.
  induction d as [|[k0 v0] d IH]; simpl; [lia|]. destruct (pyeq k k0); simpl; lia.
Qed.

Lemma dict_set_elem_key k v d k' v' :
  (k', v') ∈ dict_set k v d → (k', v') ∈ d ∨ v' = v ∧ pyeq k k' = true.
Proof using HK.
  induction d as [|[k0 v0] d IH]; simpl.
  - intros [= -> ->]%list_elem_of_singleton. right. by rewrite pyeq_refl.
  - destruct (pyeq k k0) eqn:E; intros [[= -> ->]|Hin]%elem_of_cons;
      [by right|by left; right|by left; left|].
    destruct (IH Hin) as [?|?]; [by left; right|by right].
Qed.

(** Mapping the values keeps the keys. *)
Lemma dict_set_keys k v v' d : dict_get k d = Some v' → map fst (dict_set k v d) = map fst d.
Proof.
  induction d as [|[k0 v0] d IH]; simpl; [done|]. destruct (pyeq k k0); simpl; [done|].
  intros H. f_equal. by apply IH.
Qed.

Lemma dict_get_map (f : V → V) k d : dict_get k (map (λ x, (x.1, f x.2)) d) = f <$> dict_get k d.
Proof using Type.
  induction d as [|[k0 v0] d IH]; simpl; [done|]. by destruct (pyeq k k0).
Qed.

Lemma dict_wf_map (f : V → V) d : dict_wf d → dict_wf (map (λ x, (x.1, f x.2)) d).
Proof using Type.
  induction d as [|[k0 v0] d IH]; simpl; [done|]. intros [Hk Hwf].
  split; [by rewrite dict_get_map, Hk|auto].
Qed.

Lemma dict_pop_sub k d x : x ∈ dict_pop k d → x ∈ d.
Proof using Type.
  induction d as [|[k0 v0] d IH]; simpl; [done|]. destruct (pyeq k k0).
  - by right.
  - intros [->|?]%elem_of_cons; [left|right; auto].
Qed.

Lemma dict_set_values k v d k' v' :
  (k', v') ∈ dict_set k v d → v' = v ∨ (k', v') ∈ d.
Proof using Type.
  induction d as [|[k0 v0] d IH]; simpl.
  - intros [[= -> ->]|[]%elem_of_nil]%elem_of_cons. by left.
  - destruct (pyeq k k0).
    + intros [[= -> ->]|?]%elem_of_cons; [by left|right; by right].
    + intros [->|[?|?]%IH]%elem_of_cons; [right; left|by left|right; by right].
Qed.
Lemma dict_set_elem k v d k' v' :
  (k', v') ∈ dict_set k v d →
  (k', v') ∈ d ∨ v' = v ∧ (k' = k ∨ ∃ w, (k', w) ∈ d).
Proof using Type.
  induction d as [|[k0 v0] d IH]; simpl.
  - intros [[= -> ->]|[]%elem_of_nil]%elem_of_cons. right. auto.
  - destruct (pyeq k k0).
    + intros [[= -> ->]|?]%elem_of_cons; [|left; by right].
      right. split; [done|]. right. exists v0. left.
    + intros [->|[?|[-> [->|[w ?]]]]%IH]%elem_of_cons; [left; left|left; by right|right; auto|].
      right. split; [done|]. right. exists w. by right.
Qed.
End dict.

#[export] Hint Resolve dict_wf_set dict_wf_pop : cvf.

(** ** Grouping

    [grouped = defaultdict(list)], filled by [grouped[key(x)].append(x)]. *)
Section groups.
Context {A K : Type} `{EqDecision K} (key : A → K).

Definition group_step (d : list (K * list A)) (x : A) : list (K * list A) :=
  let k := key x in dict_set k (default [] (dict_get k d) ++ [x]) d.

(** Groups that are not empty and hold elements of their key. *)
Definition grouped (d : list (K * list A)) : Prop :=
  Forall (λ g, g.2 ≠ [] ∧ Forall (λ x, key x = g.1) g.2) d.

Lemma group_step_spec d x :
  grouped d → grouped (group_step d x) ∧ concat (map snd (group_step d x)) ≡ₚ concat (map snd d) ++ [x].
Proof using Type.
  intros Hd. unfold group_step. cbv zeta. induction d as [|[q l] d IH].
  - simpl. split; [repeat constructor; done|done].
  - apply Forall_cons in Hd as [[Hne Hq] Hd]. destruct (IH Hd) as [IH1 IH2]. simpl in Hne, Hq. cbn [dict_get dict_set].
    destruct (pyeq (key x) q) eqn:E.
    + apply bool_decide_eq_true_1 in E as <-. split.
      * constructor; [|done]. simpl. split; [by destruct l|]. apply Forall_app. split; [done|by constructor].
      * simpl. rewrite <- !app_assoc. f_equiv. apply Permutation_app_comm.
    + split; [by constructor|]. simpl. by rewrite IH2, app_assoc.
Qed.

Lemma group_fold_spec l d :
  grouped d → grouped (foldl group_step d l) ∧ concat (map snd (foldl group_step d l)) ≡ₚ concat (map snd d) ++ l.
Proof using Type.
  revert d. induction l as [|x l IH]; intros d Hd; simpl; [by rewrite app_nil_r|].
  destruct (group_step_spec d x Hd) as [Hd2 Hp]. destruct (IH _ Hd2) as [IH1 IH2].
  split; [done|]. rewrite IH2, Hp. by rewrite <- app_assoc.
Qed.
End groups.

(** ** [sorted]

    Python's sort is stable; so is insertion from the right. *)
Section py_sorted.
Context {A : Type} (leb : A → A → bool).

Fixpoint py_insert (x : A) (l : list A) : list A :=
  match l with
  | [] => [x]
  | y :: l' => if leb x y then x :: l else y :: py_insert x l'
  end.

Definition py_sorted (l : list A) : list A := foldr py_insert [] l.

Lemma py_insert_perm x l : Permutation (py_insert x l) (x :: l).
Proof.
  induction l as [|y l IH]; simpl; [done|]. destruct (leb x y); [done|].
  rewrite IH. constructor.
Qed.

Lemma py_sorted_perm l : Permutation (py_sorted l) l.
Proof.
  induction l as [|x l IH]; simpl; [done|]. by rewrite py_insert_perm, IH.
Qed.

Lemma py_sorted_elem l x : x ∈ py_sorted l ↔ x ∈ l.
Proof. by rewrite py_sorted_perm. Qed.

Hypothesis leb_total : ∀ x y, leb x y = false → leb y x = true.
Hypothesis leb_trans : ∀ x y z, leb x y = true → leb y z = true → leb x z = true.

Lemma py_insert_sorted x l :
  StronglySorted (λ a b, leb a b = true) l →
  StronglySorted (λ a b, leb a b = true) (py_insert x l).
Proof using leb_total leb_trans.
  induction 1 as [|y l Hs IH Hall]; simpl; [repeat constructor|].
  destruct (leb x y) eqn:E.
  - constructor; [by constructor|]. constructor; [done|].
    eapply Forall_impl; [exact Hall|]. intros z Hz. by apply (leb_trans x y z).
  - constructor; [done|]. rewrite (py_insert_perm x l).
    constructor; [by apply leb_total|done].
Qed.

Lemma py_sorted_sorted l : StronglySorted (λ a b, leb a b = true) (py_sorted l).
Proof using leb_total leb_trans.
  induction l as [|x l IH]; simpl; [constructor|by apply py_insert_sorted].
Qed.
End py_sorted.

Lemma py_sorted_id {A} (leb : A → A → bool) l :
  StronglySorted (λ a b, leb a b = true) l → py_sorted leb l = l.
Proof.
  induction 1 as [|x l Hs IH Hall]; simpl; [done|]. rewrite IH.
  destruct l as [|y l]; simpl; [done|]. apply Forall_cons in Hall as [Hxy _]. by rewrite Hxy.
Qed.

Lemma py_sorted_map {A B} (f : A → B) (leb : B → B → bool) l :
  py_sorted leb (map f l) = map f (py_sorted (λ x y, leb (f x) (f y)) l).
Proof.
  induction l as [|x l IH]; [done|]. simpl. rewrite IH. clear IH.
  generalize (py_sorted (λ x y, leb (f x) (f y)) l). intros m.
  induction m as [|y m IH]; [done|]. simpl. destruct (leb (f x) (f y)); [done|].
  simpl. by rewrite IH.
Qed.

Lemma py_insert_ext {A} (leb1 leb2 : A → A → bool) x l :
  (∀ y, y ∈ l → leb1 x y = leb2 x y) → py_insert leb1 x l = py_insert leb2 x l.
Proof.
  induction l as [|y l IH]; intros H; simpl; [done|].
  rewrite (H y) by left. destruct (leb2 x y); [done|]. f_equal. apply IH.
  intros z Hz. apply H. by right.
Qed.

Lemma py_sorted_ext {A} (leb1 leb2 : A → A → bool) l :
  (∀ x y, x ∈ l → y ∈ l → leb1 x y = leb2 x y) → py_sorted leb1 l = py_sorted leb2 l.
Proof.
  induction l as [|x l IH]; intros H; [done|]. simpl.
  rewrite IH by (intros; apply H; by right). apply py_insert_ext.
  intros y Hy. rewrite py_sorted_elem in Hy. apply H; [left|by right].
Qed.

Lemma list_filter_all {A} (P : A → Prop) `{∀ x, Decision (P x)} l :
  Forall P l → filter P l = l.
Proof. induction 1 as [|x l Hx Hl IH]; [done|]. by rewrite filter_cons, decide_True, IH. Qed.

Lemma list_filter_none {A} (P : A → Prop) `{∀ x, Decision (P x)} l :
  Forall (λ x, ¬ P x) l → filter P l = [].
Proof. induction 1 as [|x l Hx Hl IH]; [done|]. by rewrite filter_cons, decide_False, IH. Qed.

(** ** [bisect]

    The binary search of the standard library, over the test "the element goes
    before the insertion point". *)
Section bisect.
Context {A : Type} (before : A → bool).

Fixpoint bisect_loop (fuel : nat) (l : list A) (lo hi : nat) : nat :=
  match fuel with
  | O => lo
  | S fuel =>
    if (lo <? hi)%nat then
      let mid := Nat.div2 (lo + hi) in
      match l !! mid with
      | Some y => if before y then bisect_loop fuel l (S mid) hi
                  else bisect_loop fuel l lo mid
      | None => lo
      end
    else lo
  end.

Definition bisect (l : list A) (lo : nat) : nat :=
  bisect_loop (S (length l)) l lo (length l).

(** [n] splits [l] into elements before the point and the others. *)
Definition splits_at (l : list A) (n : nat) : Prop :=
  (n ≤ length l)%nat ∧ ∀ i y, l !! i = Some y → before y = (i <? n)%nat.

Lemma bisect_loop_correct fuel l lo hi n :
  splits_at l n → (lo ≤ n ≤ hi)%nat → (hi ≤ length l)%nat →
  (hi - lo < fuel)%nat → bisect_loop fuel l lo hi = n.
Proof.
  intros [Hn Hs]. revert lo hi. induction fuel as [|fuel IH]; intros lo hi Hlo Hhi Hf;
    [lia|]. simpl. destruct (Nat.ltb_spec lo hi) as [Hlt|]; [|lia].
  set (mid := Nat.div2 (lo + hi)).
  assert (lo ≤ mid < hi)%nat as Hmid.
  { subst mid. rewrite Nat.div2_div.
    split; [apply Nat.div_le_lower_bound; lia|apply Nat.Div0.div_lt_upper_bound; lia]. }
  destruct (lookup_lt_is_Some_2 l mid) as [y Hy]; [lia|]. rewrite Hy.
  rewrite (Hs _ _ Hy). destruct (Nat.ltb_spec mid n); apply IH; lia.
Qed.

Lemma bisect_correct l lo n :
  splits_at l n → (lo ≤ n)%nat → bisect l lo = n.
Proof. intros Hs Hlo. apply bisect_loop_correct; [done| |done|lia]. split; [done|apply Hs]. Qed.

(** Whenever the test is downward closed along the list, a split exists: the
    number of elements that pass it. *)
Lemma splits_at_count l :
  StronglySorted (λ a b, before b = true → before a = true) l →
  splits_at l (length (filter (λ y, before y = true) l)).
Proof.
  induction 1 as [|x l Hs [IHn IH] Hall]; [by split|].
  split; [apply length_filter|]. intros i y. rewrite filter_cons.
  destruct i as [|i]; simpl.
  - intros [= ->]. case_decide as E; simpl; [done|].
    rewrite Forall_forall in Hall.
    destruct (filter _ l) as [|z l'] eqn:El; simpl.
    { by apply not_true_is_false. }
    exfalso. assert (z ∈ z :: l') as Hz by left. rewrite <- El in Hz.
    apply list_elem_of_filter in Hz as [Hz1 Hz2]. apply E. eauto.
  - intros Hy. case_decide as E; simpl; [by rewrite (IH _ _ Hy)|].
    rewrite (IH _ _ Hy). destruct (filter _ l) as [|z l'] eqn:El; [done|].
    exfalso. assert (z ∈ z :: l') as Hz by left. rewrite <- El in Hz.
    apply list_elem_of_filter in Hz as [Hz1 Hz2]. apply E.
    rewrite Forall_forall in Hall. eauto.
Qed.

(** The search from a lower bound that may be past the insertion point. *)
Lemma bisect_loop_stuck fuel l lo hi n :
  splits_at l n → (n ≤ lo ≤ hi)%nat → bisect_loop fuel l lo hi = lo.
Proof.
  intros [_ Hs]. revert hi. induction fuel as [|fuel IH]; intros hi Hlo; [done|]. simpl.
  destruct (Nat.ltb_spec lo hi) as [Hlt|]; [|done]. set (mid := Nat.div2 (lo + hi)).
  assert (lo ≤ mid)%nat by (subst mid; rewrite Nat.div2_div; apply Nat.div_le_lower_bound; lia).
  destruct (l !! mid) as [y|] eqn:Hy; [|done]. rewrite (Hs _ _ Hy).
  rewrite (proj2 (Nat.ltb_ge mid n)) by lia. apply IH. lia.
Qed.

Lemma bisect_from l lo n :
  splits_at l n → (lo ≤ length l)%nat → bisect l lo = Nat.max lo n.
Proof.
  intros Hs Hlo. destruct (decide (lo ≤ n)%nat).
  - rewrite (bisect_correct _ _ n) by done. lia.
  - unfold bisect. rewrite (bisect_loop_stuck _ _ _ _ n) by (done || lia). lia.
Qed.

Lemma splits_at_drop l n a : splits_at l n → splits_at (drop a l) (n - a).
Proof.
  intros [Hn Hs]. split; [rewrite length_drop; lia|]. intros i y. rewrite lookup_drop.
  intros Hy. rewrite (Hs _ _ Hy). destruct (Nat.ltb_spec (a + i) n), (Nat.ltb_spec i (n - a)); lia || done.
Qed.

Lemma splits_at_filter l n :
  splits_at l n →
  take n l = filter (λ y, before y = true) l ∧ drop n l = filter (λ y, before y = false) l.
Proof.
  revert n. induction l as [|x l IH]; intros n [Hn Hs]; [by rewrite take_nil, drop_nil|].
  destruct n as [|n].
  - rewrite take_0, drop_0.
    assert (∀ y, y ∈ x :: l → before y = false) as Hall
      by (intros y [i Hy]%list_elem_of_lookup; by rewrite (Hs _ _ Hy)).
    rewrite list_filter_none, list_filter_all; [done|..]; apply Forall_forall; intros y Hy;
      by rewrite (Hall y Hy).
  - destruct (IH n) as [IH1 IH2].
    { split; [simpl in Hn; lia|]. intros i y Hy. by rewrite (Hs (S i) y Hy). }
    simpl. rewrite !filter_cons, (Hs 0%nat x eq_refl). simpl. by rewrite IH1, IH2.
Qed.
End bisect.

(** The same inside a slice. *)
Lemma slice_between {A} (p q : A → bool) l : ∀ n m lo hi,
  splits_at p l n → splits_at q l m →
  drop (Nat.max lo n) (take (Nat.min hi m) l) =
  filter (λ y, p y = false ∧ q y = true) (drop lo (take hi l)).
Proof.
  induction l as [|x l IH]; intros n m lo hi Hp Hq; [by rewrite !take_nil, !drop_nil|].
  assert (∀ r k, splits_at r (x :: l) k → splits_at r l (pred k) ∧ r x = (0 <? k)%nat) as Htl.
  { intros r k [Hk Hs]. split; [split|by apply (Hs 0%nat)]; [simpl in Hk; lia|].
    intros i y Hy. rewrite (Hs (S i) y Hy). destruct (Nat.ltb_spec (S i) k), (Nat.ltb_spec i (pred k)); lia || done. }
  destruct (Htl _ _ Hp) as [Hp' Epx], (Htl _ _ Hq) as [Hq' Eqx].
  destruct hi as [|hi]; [by rewrite Nat.min_0_l, !take_0, !drop_nil|].
  destruct m as [|m].
  { rewrite Nat.min_0_r, take_0, drop_nil. symmetry. apply list_filter_none, Forall_forall.
    intros y Hy. assert (y ∈ x :: l) as [j Hj]%list_elem_of_lookup
      by (eapply elem_of_sublist; [exact Hy|etransitivity; [apply sublist_drop|apply sublist_take]]).
    destruct Hq as [_ Hq]. rewrite (Hq j y Hj). by intros [_ ?]. }
  simpl Nat.min. simpl pred in *. simpl take.
  destruct lo as [|lo], n as [|n]; simpl in *.
  - specialize (IH 0%nat m 0%nat hi Hp' Hq'). rewrite !drop_0 in *. rewrite filter_cons, decide_True by done.
    by f_equal.
  - specialize (IH n m 0%nat hi Hp' Hq'). rewrite drop_0 in IH. rewrite filter_cons, decide_False by (rewrite Epx; by intros [? _]).
    by rewrite <- IH.
  - specialize (IH 0%nat m lo hi Hp' Hq'). by rewrite Nat.max_0_r in IH.
  - by apply IH.
Qed.

(** The elements between two insertion points. *)
Lemma splits_at_between {A} (p q : A → bool) l n m :
  splits_at p l n → splits_at q l m →
  drop n (take m l) = filter (λ y, p y = false ∧ q y = true) l.
Proof.
  intros Hp Hq. destruct (splits_at_filter _ _ _ Hq) as [E _].
  rewrite <- (list_filter_filter (λ y, p y = false) (λ y, q y = true)), <- E.
  assert (splits_at p (take m l) (Nat.min n m)) as Hpm.
  { destruct Hp as [Hn Hs]. split; [rewrite length_take; lia|]. intros i y [Hy Hi]%lookup_take_Some.
    rewrite (Hs _ _ Hy). destruct (Nat.ltb_spec i n), (Nat.ltb_spec i (Nat.min n m)); lia || done. }
  rewrite <- (proj2 (splits_at_filter _ _ _ Hpm)).
  destruct (decide (n ≤ m)%nat); [by rewrite Nat.min_l by lia|].
  rewrite !drop_ge by (rewrite ?length_take; lia). done.
Qed.

(** ** Lists *)

Lemma last_snoc_inv {A} (l : list A) x : last l = Some x → ∃ l', l = l' ++ [x].
Proof. intros H. by apply last_Some in H. Qed.

Lemma StronglySorted_app_inv {A} (R : A → A → Prop) l1 l2 :
  StronglySorted R (l1 ++ l2) →
  StronglySorted R l1 ∧ StronglySorted R l2 ∧ ∀ x y, x ∈ l1 → y ∈ l2 → R x y.
Proof.
  induction l1 as [|x l1 IH]; simpl.
  - intros H. split; [constructor|]. split; [done|]. by intros ?? ?%elem_of_nil.
  - inversion 1 as [|?? Hs Hall]; subst. destruct (IH Hs) as (H1 & H2 & H3).
    apply Forall_app in Hall as [Ha1 Ha2]. split; [by constructor|].
    split; [done|]. intros a b [->|Ha]%elem_of_cons Hb; [|auto].
    rewrite Forall_forall in Ha2. auto.
Qed.

Lemma StronglySorted_app {A} (R : A → A → Prop) l1 l2 :
  StronglySorted R l1 → StronglySorted R l2 →
  (∀ x y, x ∈ l1 → y ∈ l2 → R x y) → StronglySorted R (l1 ++ l2).
Proof.
  induction l1 as [|x l1 IH]; simpl; [done|]. intros Hs1 Hs2 Hc.
  inversion Hs1 as [|?? Hs Hall]; subst. constructor.
  - apply IH; [done|done|]. intros; apply Hc; [by right|done].
  - apply Forall_app. split; [done|]. apply Forall_forall. intros y Hy.
    apply Hc; [left|done].
Qed.

Lemma StronglySorted_filter {A} (R : A → A → Prop) P `{∀ x, Decision (P x)} l :
  StronglySorted R l → StronglySorted R (filter P l).
Proof.
  induction 1 as [|x l Hs IH Hall]; [constructor|]. rewrite filter_cons.
  case_decide; [|done]. constructor; [done|]. apply Forall_forall. intros y Hy.
  apply list_elem_of_filter in Hy as [_ Hy]. rewrite Forall_forall in Hall. auto.
Qed.

Lemma StronglySorted_impl {A} (R S : A → A → Prop) l :
  (∀ x y, R x y → S x y) → StronglySorted R l → StronglySorted S l.
Proof.
  intros HRS. induction 1 as [|x l Hs IH Hall]; constructor; [done|].
  eapply Forall_impl; eauto.
Qed.

(** A list sorted by an asymmetric relation is determined by its elements. *)
Lemma StronglySorted_ext {A} (R : A → A → Prop) l1 l2 :
  (∀ x y, R x y → R y x → False) →
  StronglySorted R l1 → StronglySorted R l2 → (∀ x, x ∈ l1 ↔ x ∈ l2) → l1 = l2.
Proof.
  intros Hasym. revert l2. induction l1 as [|x l1 IH]; intros [|y l2] Hs1 Hs2 Hm.
  - done.
  - exfalso. apply (not_elem_of_nil y), Hm. left.
  - exfalso. apply (not_elem_of_nil x), Hm. left.
  - inversion Hs1 as [|?? Hl1 Ha1]; subst. inversion Hs2 as [|?? Hl2 Ha2]; subst.
    rewrite Forall_forall in Ha1, Ha2.
    assert (x = y) as ->.
    { pose proof (proj1 (Hm x) ltac:(left)) as [->|Hx]%elem_of_cons; [done|].
      pose proof (proj2 (Hm y) ltac:(left)) as [->|Hy]%elem_of_cons; [done|].
      destruct (Hasym x y); auto. }
    f_equal. apply IH; [done|done|]. intros z. specialize (Hm z).
    rewrite !elem_of_cons in Hm. split; intros Hz.
    + destruct (proj1 Hm) as [->|?]; [by right| |done].
      destruct (Hasym y y); auto.
    + destruct (proj2 Hm) as [->|?]; [by right| |done].
      destruct (Hasym y y); auto.
Qed.

(** The same for a total preorder that tells the elements of the list apart. *)
Lemma StronglySorted_leb_eq {A} (leb : A → A → bool) l1 l2 :
  (∀ x y, x ∈ l1 → y ∈ l1 → leb x y = true → leb y x = true → x = y) →
  StronglySorted (λ x y, leb x y = true) l1 → StronglySorted (λ x y, leb x y = true) l2 →
  NoDup l1 → NoDup l2 → (∀ x, x ∈ l1 ↔ x ∈ l2) → l1 = l2.
Proof.
  intros Hanti H1 H2 N1 N2 Hm. revert l2 H2 N2 Hm. induction H1 as [|x l1 Hs IH Hx]; intros l2 H2 N2 Hm.
  - destruct l2 as [|y l2]; [done|]. exfalso. apply (not_elem_of_nil y), Hm. left.
  - destruct H2 as [|y l2 Hs2 Hy]; [exfalso; apply (not_elem_of_nil x), Hm; left|].
    apply NoDup_cons in N1 as [X1 N1]. apply NoDup_cons in N2 as [Y2 N2].
    rewrite Forall_forall in Hx, Hy.
    assert (x = y) as ->.
    { pose proof (proj1 (Hm x) ltac:(left)) as [->|Hx2]%elem_of_cons; [done|].
      pose proof (proj2 (Hm y) ltac:(left)) as [->|Hy1]%elem_of_cons; [done|].
      apply Hanti; [left|by right|by apply Hx|by apply Hy]. }
    f_equal. apply IH; [|done|done|done|].
    + intros a b Ha Hb. apply Hanti; by right.
    + intros z. specialize (Hm z). rewrite !elem_of_cons in Hm.
      split; intros Hz; [destruct (proj1 Hm)|destruct (proj2 Hm)]; auto; by subst.
Qed.

Lemma StronglySorted_sublist {A} (R : A → A → Prop) l1 l2 :
  sublist l1 l2 → StronglySorted R l2 → StronglySorted R l1.
Proof.
  induction 1 as [|x l1 l2 Hs IH|x l1 l2 Hs IH]; intros Hl; [done| |].
  - inversion Hl as [|?? Hl2 Ha]; subst. constructor; [auto|].
    rewrite Forall_forall in *. intros y Hy. apply Ha. by eapply elem_of_sublist.
  - inversion Hl; auto.
Qed.

(** ** The last elements of a list *)

Definition lastn {A} (n : nat) (l : list A) : list A := drop (length l - n) l.

Lemma lastn_length {A} n (l : list A) : length (lastn n l) = Nat.min n (length l).
Proof. unfold lastn. rewrite length_drop. lia. Qed.

Lemma lastn_ge {A} n (l : list A) : (length l ≤ n)%nat → lastn n l = l.
Proof. intros. unfold lastn. by replace (length l - n)%nat with 0%nat by lia. Qed.

Lemma lastn_app_split {A} n (a b : list A) :
  lastn n (a ++ b) = lastn (n - length b) a ++ lastn n b.
Proof.
  unfold lastn. rewrite length_app, drop_app. f_equal; [|f_equal; lia].
  destruct (decide (n ≤ length b)%nat); [by rewrite !drop_ge by lia|f_equal; lia].
Qed.

Lemma lastn_lastn {A} m n (l : list A) : lastn m (lastn n l) = lastn (Nat.min m n) l.
Proof. unfold lastn. rewrite drop_drop, length_drop. f_equal. lia. Qed.

Lemma lastn_sublist {A} n (l : list A) : sublist (lastn n l) l.
Proof. apply sublist_drop. Qed.

Lemma lastn_split {A} n (l : list A) :
  ∃ pre, l = pre ++ lastn n l ∧
    (length (lastn n l) = n ∨ (pre = [] ∧ (length (lastn n l) < n)%nat)).
Proof.
  exists (take (length l - n) l). unfold lastn. split; [by rewrite take_drop|].
  rewrite length_drop. destruct (decide (n ≤ length l)%nat); [left; lia|right].
  by replace (length l - n)%nat with 0%nat by lia; split; [|lia].
Qed.

Lemma lastn_app {A} n (a b : list A) :
  length b = n ∨ (a = [] ∧ (length b ≤ n)%nat) → lastn n (a ++ b) = b.
Proof.
  intros [Hb|[-> Hb]]; [|by apply lastn_ge].
  rewrite lastn_app_split, (lastn_ge n b) by lia. unfold lastn.
  by rewrite drop_ge by lia.
Qed.

(** Filtering by a test that is upward closed along the list keeps a suffix. *)
Lemma filter_lastn {A} (P : A → Prop) `{∀ x, Decision (P x)} n l :
  StronglySorted (λ x y, P x → P y) l → filter P (lastn n l) = lastn n (filter P l).
Proof.
  intros Hs. induction Hs as [|x l Hs IH Hall]; [done|].
  destruct (decide (n ≤ length l)%nat) as [Hn|Hn].
  - replace (lastn n (x :: l)) with (lastn n l).
    + rewrite IH, filter_cons. case_decide as Hx; [|done].
      assert (Forall P l) as Hl by (eapply Forall_impl; [exact Hall|auto]).
      rewrite !(list_filter_all P l) by done.
      unfold lastn. simpl. by replace (S (length l) - n)%nat with (S (length l - n)) by lia.
    + unfold lastn. simpl. by replace (S (length l) - n)%nat with (S (length l - n)) by lia.
  - pose proof (length_filter P (x :: l)). simpl in *.
    rewrite !lastn_ge; simpl; lia || done.
Qed.

(** [while test(l[0]): l.popleft()]. *)
Fixpoint drop_while {A} (p : A → bool) (l : list A) : list A :=
  match l with
  | x :: l' => if p x then drop_while p l' else l
  | [] => []
  end.

Lemma drop_while_sublist {A} (p : A → bool) l : sublist (drop_while p l) l.
Proof. induction l as [|x l IH]; simpl; [done|]. destruct (p x); [by apply sublist_cons|done]. Qed.

Lemma drop_while_filter {A} (p : A → bool) l :
  StronglySorted (λ x y, p x = false → p y = false) l →
  drop_while p l = filter (λ x, p x = false) l.
Proof.
  induction 1 as [|x l Hs IH Hall]; [done|]. simpl. rewrite filter_cons.
  destruct (p x) eqn:E; simpl; [done|]. f_equal. symmetry. apply list_filter_all.
  eapply Forall_impl; [exact Hall|auto].
Qed.

Lemma list_filter_ext_elem {A} (P Q : A → Prop) `{∀ x, Decision (P x)} `{∀ x, Decision (Q x)}
    (l : list A) :
  (∀ x, x ∈ l → P x ↔ Q x) → filter P l = filter Q l.
Proof.
  induction l as [|x l IH]; intros Hl; [done|]. rewrite !filter_cons.
  rewrite IH by (intros y Hy; apply Hl; by right).
  pose proof (Hl x ltac:(left)). destruct (decide (P x)), (decide (Q x)); tauto.
Qed.

(** A fold passes over what it ignores. *)
Lemma foldl_filter {A B} (f : A → B → A) (p : B → bool) a l :
  (∀ a x, p x = false → f a x = a) → foldl f a l = foldl f a (List.filter p l).
Proof.
  intros Hf. revert a. induction l as [|x l IH]; intros a; simpl; [done|].
  destruct (p x) eqn:E; simpl; [done|]. by rewrite Hf.
Qed.

Lemma filter_elem {A} (p : A → bool) l x : x ∈ List.filter p l ↔ x ∈ l ∧ p x = true.
Proof. by rewrite !list_elem_of_In, List.filter_In. Qed.

Lemma filter_comm {A} (p q : A → bool) l : List.filter p (List.filter q l) = List.filter q (List.filter p l).
Proof.
  induction l as [|x l IH]; [done|]. simpl.
  destruct (p x) eqn:Ep, (q x) eqn:Eq; simpl; rewrite ?Ep, ?Eq, ?IH; done.
Qed.

(** ** Folding an associative operation by groups *)
Section top.
Context {A : Type} (f : A → A → A) (x0 : A).
Hypothesis f_assoc : ∀ x y z, f (f x y) z = f x (f y z).

(** The fold of a nonempty list from its first element. *)
Definition top (l : list A) : A := match l with [] => x0 | x :: l => foldl f x l end.

Lemma top_app l1 l2 : l1 ≠ [] → l2 ≠ [] → top (l1 ++ l2) = f (top l1) (top l2).
Proof using f_assoc.
  destruct l1 as [|x l1], l2 as [|y l2]; try done. intros _ _. simpl. rewrite foldl_app. simpl.
  generalize (foldl f x l1). clear -f_assoc. revert y. induction l2 as [|z l2 IH]; intros y m; [done|].
  simpl. by rewrite f_assoc, IH.
Qed.

Lemma top_concat ls : Forall (λ l, l ≠ []) ls → top (concat ls) = top (map top ls).
Proof using f_assoc.
  induction 1 as [|l ls Hl Hls IH]; [done|]. simpl concat. simpl map.
  destruct ls as [|l' ls]; [simpl; by rewrite app_nil_r|].
  assert (concat (l' :: ls) ≠ []) as Hne by (apply Forall_cons in Hls as [Hl' _]; by destruct l').
  rewrite top_app, IH by done. change (top l :: map top (l' :: ls)) with ([top l] ++ map top (l' :: ls)).
  by rewrite top_app.
Qed.
End top.

Lemma py_insert_filter {A} (leb : A → A → bool) (P : A → Prop) `{∀ x, Decision (P x)} x l :
  (∀ x y z, leb x y = true → leb y z = true → leb x z = true) →
  StronglySorted (λ a b, leb a b = true) l →
  filter P (py_insert leb x l) = if decide (P x) then py_insert leb x (filter P l) else filter P l.
Proof.
  intros Htr. induction 1 as [|y l Hs IH Hall]; simpl.
  - rewrite filter_cons, filter_nil. by destruct (decide (P x)).
  - destruct (leb x y) eqn:Exy.
    + rewrite (filter_cons P x). destruct (decide (P x)) as [Hx|Hx]; [|done].
      rewrite filter_cons. destruct (decide (P y)); simpl; [by rewrite Exy|].
      destruct (filter P l) as [|z l'] eqn:E; [done|]. simpl.
      assert (z ∈ filter P l) as [_ Hz]%list_elem_of_filter by (rewrite E; left).
      rewrite Forall_forall in Hall. by rewrite (Htr x y z Exy (Hall z Hz)).
    + rewrite !(filter_cons P y), IH. destruct (decide (P y)), (decide (P x)); simpl; by rewrite ?Exy.
Qed.

Lemma py_sorted_filter {A} (leb : A → A → bool) (P : A → Prop) `{∀ x, Decision (P x)} l :
  (∀ x y, leb x y = false → leb y x = true) →
  (∀ x y z, leb x y = true → leb y z = true → leb x z = true) →
  filter P (py_sorted leb l) = py_sorted leb (filter P l).
Proof.
  intros Htot Htr. induction l as [|x l IH]; [done|]. cbn [py_sorted foldr]. fold (py_sorted leb l).
  rewrite py_insert_filter by (done || by apply py_sorted_sorted). rewrite filter_cons, IH.
  by destruct (decide (P x)).
Qed.

(** Sorting one more element at the end: it goes after its equals. *)
Lemma py_insert_comm {A} (leb : A → A → bool) x y l :
  (∀ x y, leb x y = false → leb y x = true) →
  (∀ x y z, leb x y = true → leb y z = true → leb x z = true) →
  py_insert leb y (py_insert (λ a b, negb (leb b a)) x l) =
  py_insert (λ a b, negb (leb b a)) x (py_insert leb y l).
Proof.
  intros Htot Htr. induction l as [|z l IH]; simpl; [by destruct (leb y x)|].
  destruct (leb y z) eqn:Eyz, (leb z x) eqn:Ezx; simpl; rewrite ?Eyz, ?Ezx; simpl.
  - by rewrite (Htr y z x Eyz Ezx).
  - by destruct (leb y x).
  - by rewrite IH.
  - destruct (leb y x) eqn:Eyx; [|done]. by rewrite (Htr y x z Eyx (Htot z x Ezx)) in Eyz.
Qed.

Lemma py_sorted_snoc {A} (leb : A → A → bool) l x :
  (∀ x y, leb x y = false → leb y x = true) →
  (∀ x y z, leb x y = true → leb y z = true → leb x z = true) →
  py_sorted leb (l ++ [x]) = py_insert (λ a b, negb (leb b a)) x (py_sorted leb l).
Proof.
  intros Htot Htr. induction l as [|y l IH]; [done|]. cbn [py_sorted app foldr].
  fold (py_sorted leb (l ++ [x])) (py_sorted leb l). by rewrite IH, py_insert_comm.
Qed.

(** ** Tuple comparison

    Total orders as boolean functions, and the lexicographic order of pairs. *)

Create HintDb cvf_order.

Record total_leb {A} (leb : A → A → bool) : Prop := {
  tl_total : ∀ x y, leb x y = false → leb y x = true;
  tl_trans : ∀ x y z, leb x y = true → leb y z = true → leb x z = true;
  tl_antisym : ∀ x y, leb x y = true → leb y x = true → x = y }.

Definition lex_leb {A B} `{EqDecision A} (la : A → A → bool) (lb : B → B → bool) (x y : A * B) : bool :=
  if decide (x.1 = y.1) then lb x.2 y.2 else la x.1 y.1.

Lemma lex_leb_total {A B} `{EqDecision A} la lb :
  total_leb la → total_leb lb → total_leb (lex_leb (A := A) (B := B) la lb).
Proof.
  intros [At Aq Aa] [Bt Bq Ba]. unfold lex_leb. split; intros [x x'] [y y']; simpl.
  - destruct (decide (x = y)) as [->|Hn].
    + rewrite decide_True by done. apply Bt.
    + rewrite decide_False by by apply not_eq_sym. apply At.
  - intros [z z']; simpl. destruct (decide (x = y)) as [->|Hn].
    + destruct (decide (y = z)); [apply Bq|done].
    + intros Hxy. destruct (decide (y = z)) as [->|Hn']; [by rewrite decide_False|].
      intros Hyz. rewrite decide_False; [by eapply Aq|]. intros ->. apply Hn. by apply Aa.
  - intros Hxy Hyx. destruct (decide (x = y)) as [->|Hn].
    + rewrite decide_True in * by done. f_equal. by apply Ba.
    + rewrite decide_False in Hyx by by apply not_eq_sym. destruct Hn. by apply Aa.
Qed.

Lemma Zleb_total : total_leb Z.leb.
Proof. split; intros; lia. Qed.

Lemma string_leb_total : total_leb String.leb.
Proof.
  split.
  - intros x y H. destruct (String.leb_total x y); congruence.
  - intros x y z Hxy Hyz. apply Is_true_eq_true.
    apply (transitivity (R := String.le) (y := y)); by apply Is_true_eq_left.
  - apply String.leb_antisym.
Qed.
#[export] Hint Resolve Zleb_total string_leb_total lex_leb_total : cvf_order.
