(* ===== verification/Effects.v ===== *)
(** * State and exceptions

    A method that mutates its object and may raise: on an exception the mutations
    made so far stay.  [M S A] takes the object to its new state and a result. *)

From S2P Require Import Prelude.

Definition M (S A : Type) : Type := S → S * res A.

#[export] Instance M_ret {S} : MRet (M S) := λ A a s, (s, Ok a).
#[export] Instance M_bind {S} : MBind (M S) := λ A B f m s,
  match m s with
  | (s', Ok a) => f a s'
  | (s', Err e) => (s', Err e)
  end.

Definition getM {S} : M S S := λ s, (s, Ok s).
Definition modifyM {S} (f : S → S) : M S unit := λ s, (f s, Ok tt).
Definition raiseM {S A} (e : exn) : M S A := λ s, (s, Err e).
(** A computation that does not touch the object. *)
Definition liftM {S A} (r : res A) : M S A := λ s, (s, r).
Definition requireM {S} (b : bool) (e : exn) : M S unit := liftM (require b e).

(** A method of a component, run on the part [get s] of the object. *)
Definition zoomM {S T A} (get : S → T) (set : T → S → S) (m : M T A) : M S A :=
  λ s, let '(t, r) := m (get s) in (set t s, r).

(** [for x in l: f(x)]. *)
Fixpoint forM {S A} (f : A → M S unit) (l : list A) : M S unit :=
  match l with
  | [] => mret tt
  | x :: l => _ ← f x; forM f l
  end.

(** [[f(x) for x in l]] over a mutable object. *)
Fixpoint mapMs {S A B} (f : A → M S B) (l : list A) : M S (list B) :=
  match l with
  | [] => mret []
  | x :: l => y ← f x; ys ← mapMs f l; mret (y :: ys)
  end.

(** The outcome of a call. *)
Definition attempt {S A} (m : M S A) : M S (res A) := λ s, let '(s, r) := m s in (s, Ok r).

(** The final state of a run that did not raise. *)
Definition execM {S A} (m : M S A) (s : S) : res S :=
  match m s with (s', Ok _) => Ok s' | (_, Err e) => Err e end.

Lemma bindM_Ok {S A B} (m : M S A) (f : A → M S B) s s' b :
  (m ≫= f) s = (s', Ok b) ↔ ∃ s1 a, m s = (s1, Ok a) ∧ f a s1 = (s', Ok b).
Proof.
  unfold mbind, M_bind. destruct (m s) as [s1 [a|e]]; split.
  - eauto.
  - by intros (? & ? & [= -> ->] & ?).
  - done.
  - by intros (? & ? & ? & ?).
Qed.

Lemma run_bind {S A B} (m : M S A) (f : A → M S B) s s' a : m s = (s', Ok a) → (m ≫= f) s = f a s'.
Proof. unfold mbind, M_bind. by intros ->. Qed.
Lemma run_bind_fail {S A B} (m : M S A) (f : A → M S B) s s' e : m s = (s', Err e) → (m ≫= f) s = (s', Err e).
Proof. unfold mbind, M_bind. by intros ->. Qed.

Lemma requireM_Ok {S} b e (s s' : S) u :
  requireM b e s = (s', Ok u) ↔ b = true ∧ s' = s.
Proof. unfold requireM, liftM. destruct b, u; simpl; split; [by intros [= ->]|by intros [_ ->]|done|by intros []]. Qed.

Lemma liftM_Ok {S A} (r : res A) (s s' : S) a : liftM r s = (s', Ok a) ↔ r = Ok a ∧ s' = s.
Proof. unfold liftM. split; [by intros [= -> ->]|by intros [-> ->]]. Qed.

Lemma execM_Ok {S A} (m : M S A) s s' : execM m s = Ok s' ↔ ∃ a, m s = (s', Ok a).
Proof. unfold execM. destruct (m s) as [s1 [a|e]]; split; [intros [= ->]; eauto|by intros (? & [= -> ->])|done|by intros []]. Qed.

Lemma execM_forM_cons {S A} (f : A → M S unit) x l s :
  execM (forM f (x :: l)) s = (s1 ← execM (f x) s; execM (forM f l) s1).
Proof. unfold execM. simpl. unfold mbind at 1, M_bind. by destruct (f x s) as [s1 [[]|e]]. Qed.

Lemma zoomM_Ok {S T A} (get : S → T) set (m : M T A) s s' a :
  zoomM get set m s = (s', Ok a) ↔ ∃ t, m (get s) = (t, Ok a) ∧ s' = set t s.
Proof.
  unfold zoomM. destruct (m (get s)) as [t r]. split.
  - intros [= <- ->]. eauto.
  - by intros (? & [= -> ->] & ->).
Qed.

(** A loop preserves what each of its rounds preserves. *)
Lemma forM_invariant {S A} (f : A → M S unit) (P : S → Prop) l s s' r :
  (∀ x s s' r, P s → f x s = (s', r) → P s') → P s → forM f l s = (s', r) → P s'.
Proof.
  intros Hf. revert s. induction l as [|x l IH]; simpl; intros s Hs H.
  - by injection H as <- <-.
  - unfold mbind, M_bind in H. destruct (f x s) as [s1 [[]|e]] eqn:E.
    + by eapply IH, H; eapply Hf.
    + injection H as <- <-. by eapply Hf.
Qed.

(** Each result of a loop comes from a run of its body. *)
Lemma mapMs_Forall2 {S A B} (f : A → M S B) l s s' ys :
  mapMs f l s = (s', Ok ys) → Forall2 (λ x y, ∃ s1 s2, f x s1 = (s2, Ok y)) l ys.
Proof.
  revert s ys. induction l as [|x l IH]; intros s ys H; simpl in H.
  - injection H as <- <-. constructor.
  - apply bindM_Ok in H as (s1 & y & Hy & H). apply bindM_Ok in H as (s2 & zs & Hzs & H).
    injection H as <- <-. constructor; [by exists s, s1|by eapply IH].
Qed.

(** Split the equations of a run that did not raise. *)
Ltac inv_M :=
  repeat match goal with
  | H : (_ ≫= _) _ = (_, Ok _) |- _ => apply bindM_Ok in H; destruct H as (? & ? & ? & ?)
  | H : requireM _ _ _ = (_, Ok _) |- _ => apply requireM_Ok in H; destruct H as [? ->]
  | H : liftM _ _ = (_, Ok _) |- _ => apply liftM_Ok in H; destruct H as [? ->]
  | H : getM _ = (_, Ok _) |- _ => injection H as <- <-
  | H : modifyM _ _ = (_, Ok _) |- _ => injection H as <-
  | H : mret _ _ = (_, Ok _) |- _ => injection H as <- <-
  | H : raiseM _ _ = (_, Ok _) |- _ => discriminate H
  end.

(** ** Invariants that survive exceptions

    [keepsM P m Q]: [m] keeps [P], whether it raises or not, and returns with [Q]. *)
Definition keepsM {S A} (P : S → Prop) (m : M S A) (Q : A → Prop) : Prop :=
  ∀ s s' r, P s → m s = (s', r) → P s' ∧ match r with Ok a => Q a | Err _ => True end.

Section keeps.
Context {S : Type} (P : S → Prop).

Lemma keeps_ret {A} (a : A) (Q : A → Prop) : Q a → keepsM P (mret a) Q.
Proof. intros Ha s s' r Hs [= <- <-]. by split. Qed.

Lemma keeps_bind {A B} (m : M S A) (f : A → M S B) Q R :
  keepsM P m Q → (∀ a, Q a → keepsM P (f a) R) → keepsM P (m ≫= f) R.
Proof.
  intros Hm Hf s s' r Hs. unfold mbind, M_bind. destruct (m s) as [s1 [a|x]] eqn:E.
  - destruct (Hm s s1 (Ok a) Hs E) as [Hs1 Ha]. by apply Hf.
  - destruct (Hm s s1 (Err x) Hs E) as [Hs1 _]. by intros [= <- <-].
Qed.

Lemma keeps_lift {A} (r : res A) (Q : A → Prop) : (∀ a, r = Ok a → Q a) → keepsM P (liftM r) Q.
Proof. intros H s s' r' Hs. unfold liftM. intros [= <- <-]. split; [done|]. destruct r; auto. Qed.

Lemma keeps_any {A} (r : res A) : keepsM P (liftM r) (λ _, True).
Proof. by apply keeps_lift. Qed.

Lemma keeps_mono {A} (m : M S A) (Q R : A → Prop) : keepsM P m Q → (∀ a, Q a → R a) → keepsM P m R.
Proof. intros Hm HQR s s' r Hs E. destruct (Hm s s' r Hs E) as [? H]. split; [done|]. destruct r; auto. Qed.

Lemma keeps_require b x : keepsM P (requireM b x) (λ _, b = true).
Proof. apply keeps_lift. intros a. by destruct b. Qed.

Lemma keeps_get : keepsM P getM P.
Proof. intros s s' r Hs [= <- <-]. by split. Qed.

Lemma keeps_modify (f : S → S) : (∀ s, P s → P (f s)) → keepsM P (modifyM f) (λ _, True).
Proof. intros Hf s s' r Hs [= <- <-]. auto. Qed.

Lemma keeps_raise {A} x (Q : A → Prop) : keepsM P (raiseM x) Q.
Proof. intros s s' r Hs [= <- <-]. by split. Qed.

Lemma keeps_zoom {T A} (get : S → T) set (m : M T A) (PT : T → Prop) (Q : A → Prop) :
  (∀ s, P s → PT (get s)) → (∀ t s, P s → PT t → P (set t s)) → keepsM PT m Q → keepsM P (zoomM get set m) Q.
Proof.
  intros Hget Hset Hm s s' r Hs. unfold zoomM. destruct (m (get s)) as [t r'] eqn:E. intros [= <- <-].
  destruct (Hm _ _ _ (Hget s Hs) E) as [Ht Hr]. split; [by apply Hset|done].
Qed.

Lemma keeps_forM {A} (f : A → M S unit) l :
  (∀ x, x ∈ l → keepsM P (f x) (λ _, True)) → keepsM P (forM f l) (λ _, True).
Proof.
  induction l as [|x l IH]; intros Hf; [by apply keeps_ret|]. simpl.
  eapply keeps_bind; [apply Hf; left|]. intros _ _. apply IH. intros y Hy. apply Hf. by right.
Qed.

Lemma keeps_mapMs {A B} (f : A → M S B) (Q : B → Prop) l :
  (∀ x, x ∈ l → keepsM P (f x) Q) → keepsM P (mapMs f l) (Forall Q).
Proof.
  induction l as [|x l IH]; intros Hf; [by apply keeps_ret|]. simpl.
  eapply keeps_bind; [apply Hf; left|]. intros y Hy.
  eapply keeps_bind; [apply IH; intros z Hz; apply Hf; by right|]. intros ys Hys.
  apply keeps_ret. by constructor.
Qed.
End keeps.

Lemma bindM_Err {S A B} (m : M S A) (f : A → M S B) s s' e :
  (m ≫= f) s = (s', Err e) →
  m s = (s', Err e) ∨ ∃ s1 a, m s = (s1, Ok a) ∧ f a s1 = (s', Err e).
Proof.
  unfold mbind, M_bind. destruct (m s) as [s1 [a|e']]; [by eauto|].
  intros [= -> ->]. by left.
Qed.

(** Follow a run that raised to the call that did. *)
Ltac inv_err :=
  repeat match goal with
  | H : (_ ≫= _) _ = (_, Err _) |- _ =>
      apply bindM_Err in H; destruct H as [H|(? & ? & ? & H)]
  | H : getM _ = (_, Err _) |- _ => discriminate H
  | H : modifyM _ _ = (_, Err _) |- _ => discriminate H
  | H : mret _ _ = (_, Err _) |- _ => discriminate H
  end; inv_M.

Lemma zoomM_Err {S T A} (get : S → T) set (m : M T A) s s' e :
  zoomM get set m s = (s', Err e) → ∃ t, m (get s) = (t, Err e).
Proof. unfold zoomM. destruct (m (get s)) as [t r]. intros [= _ ->]. eauto. Qed.

Lemma liftM_Err {S A} (r : res A) (s s' : S) e : liftM r s = (s', Err e) → r = Err e.
Proof. unfold liftM. by intros [= _ ->]. Qed.

(** ** Total correctness

    [wpM m Q s]: from [s] the run of [m] does not raise and ends with [Q]. *)
Definition wpM {S A} (m : M S A) (Q : A → S → Prop) (s : S) : Prop :=
  match m s with (s', Ok a) => Q a s' | (_, Err _) => False end.

Lemma wp_ret {S A} (a : A) Q (s : S) : Q a s → wpM (mret a) Q s.
Proof. done. Qed.
Lemma wp_get {S} Q (s : S) : Q s s → wpM getM Q s.
Proof. done. Qed.
Lemma wp_modify {S} (f : S → S) Q s : Q tt (f s) → wpM (modifyM f) Q s.
Proof. done. Qed.
Lemma wp_lift {S A} (r : res A) Q (s : S) a : r = Ok a → Q a s → wpM (liftM r) Q s.
Proof. by intros ->. Qed.
Lemma wp_bind {S A B} (m : M S A) (f : A → M S B) Q s :
  wpM m (λ a, wpM (f a) Q) s → wpM (m ≫= f) Q s.
Proof. unfold wpM, mbind, M_bind. by destruct (m s) as [s' [a|e]]. Qed.
Lemma wp_mono {S A} (m : M S A) (P Q : A → S → Prop) s :
  wpM m P s → (∀ a s', P a s' → Q a s') → wpM m Q s.
Proof. unfold wpM. destruct (m s) as [s' [a|e]]; auto. Qed.
Lemma wp_if {S A} (b : bool) (m1 m2 : M S A) Q s :
  (b = true → wpM m1 Q s) → (b = false → wpM m2 Q s) → wpM (if b then m1 else m2) Q s.
Proof. destruct b; auto. Qed.
Lemma wp_run {S A} (m : M S A) Q s : wpM m Q s → ∃ s' a, m s = (s', Ok a) ∧ Q a s'.
Proof. unfold wpM. destruct (m s) as [s' [a|e]]; [eauto|done]. Qed.

Lemma wp_mapMs {S A B} (f : A → M S B) (P : S → Prop) (R : A → Prop) l s :
  (∀ x s, R x → P s → wpM (f x) (λ _, P) s) → Forall R l → P s →
  wpM (mapMs f l) (λ ys s', length ys = length l ∧ P s') s.
Proof.
  intros Hf Hl. revert s. induction Hl as [|x l Hx Hl IH]; intros s Hs; [done|]. simpl.
  apply wp_bind. eapply wp_mono; [by apply Hf|]. intros y s1 Hs1.
  apply wp_bind. eapply wp_mono; [by apply IH|]. intros ys s2 [Hys Hs2].
  apply wp_ret. simpl. by rewrite Hys.
Qed.

(** The same with an invariant over the items handled and the results so far. *)
Lemma wp_mapMs_trace {S A B} (f : A → M S B) (P : list A → list B → S → Prop) (R : A → Prop) l s :
  (∀ x xs ys s, R x → P xs ys s → wpM (f x) (λ y s', P (xs ++ [x]) (ys ++ [y]) s') s) →
  Forall R l → P [] [] s → wpM (mapMs f l) (λ ys s', P l ys s') s.
Proof.
  intros Hf Hl Hs.
  assert (∀ l2 xs ys s, Forall R l2 → P xs ys s →
    wpM (mapMs f l2) (λ zs s', P (xs ++ l2) (ys ++ zs) s') s) as Hgen; [|by apply (Hgen l [] [])].
  clear l s Hl Hs. induction l2 as [|x l2 IH]; intros xs ys s Hl Hs; simpl.
  - apply wp_ret. by rewrite !app_nil_r.
  - inversion Hl; subst. apply wp_bind. eapply wp_mono; [by apply Hf|]. intros y s1 Hs1.
    apply wp_bind. eapply wp_mono; [apply IH; [done|exact Hs1]|].
    intros zs s2 Hs2. apply wp_ret.
    rewrite <- !app_assoc in Hs2. exact Hs2.
Qed.

Lemma wp_require {S} b e Q (s : S) : b = true → Q tt s → wpM (requireM b e) Q s.
Proof. by intros ->. Qed.

(** One step of a run. *)
Ltac wp_step :=
  lazymatch goal with
  | |- wpM (mbind _ _) _ _ => apply wp_bind
  | |- wpM getM _ _ => apply wp_get
  | |- wpM (modifyM _) _ _ => apply wp_modify
  | |- wpM (mret _) _ _ => apply wp_ret
  end.
