(* ===== verification/PyDecimal.v ===== *)
(** * Decimal numbers

    Finite [decimal.Decimal] values and the default context's arithmetic: 28
    digits, round half even.  A value is a signed coefficient and an exponent;
    two representations are equal ([≡]) when they denote the same number, which
    is Python's [==] and [hash] on [Decimal].  Not modelled: the sign of a zero
    and the context's exponent limits of ±999999. *)

From S2P Require Import Prelude.
From Stdlib Require Import Ascii.

Record decimal := Dec { dcoef : Z; dexp : Z }.

#[export] Instance decimal_eq_dec : EqDecision decimal.
Proof. solve_decision. Defined.

Definition d0 : decimal := Dec 0 0.
Definition d1 : decimal := Dec 1 0.
Definition of_int (n : Z) : decimal := Dec n 0.

(** ** Order *)

(** The value in units of [10^k], for [k] at most the exponent. *)
Definition dscale (k : Z) (x : decimal) : Z := dcoef x * 10 ^ (dexp x - k).
Definition dunit (x y : decimal) : Z := Z.min (dexp x) (dexp y).

Definition dcompare (x y : decimal) : comparison :=
  Z.compare (dscale (dunit x y) x) (dscale (dunit x y) y).
Definition deqb (x y : decimal) : bool :=
  match dcompare x y with Eq => true | _ => false end.
Definition dltb (x y : decimal) : bool :=
  match dcompare x y with Lt => true | _ => false end.
Definition dleb (x y : decimal) : bool :=
  match dcompare x y with Gt => false | _ => true end.

#[export] Instance decimal_pyeq : PyEq decimal | 0 := deqb.
#[export] Instance decimal_equiv : Equiv decimal := λ x y, deqb x y = true.

Lemma dscale_shift k m x :
  k ≤ m → m ≤ dexp x → dscale k x = dscale m x * 10 ^ (m - k).
Proof.
  intros. unfold dscale. rewrite <- Z.mul_assoc, <- Z.pow_add_r by lia.
  do 2 f_equal. lia.
Qed.

Lemma pow10_pos n : 0 ≤ n → 0 < 10 ^ n.
Proof. intros. apply Z.pow_pos_nonneg; lia. Qed.

Lemma dcompare_at k x y :
  k ≤ dexp x → k ≤ dexp y → dcompare x y = Z.compare (dscale k x) (dscale k y).
Proof.
  intros Hx Hy. unfold dcompare. set (m := dunit x y).
  assert (k ≤ m ∧ m ≤ dexp x ∧ m ≤ dexp y) as (Hk & Hmx & Hmy)
    by (subst m; unfold dunit; lia).
  rewrite (dscale_shift k m x), (dscale_shift k m y) by done.
  by rewrite <- Zmult_compare_compat_r by (apply Z.lt_gt, pow10_pos; lia).
Qed.

(** Bring the comparisons between at most three decimals to one unit. *)
Definition dunit3 (x y z : decimal) : Z := Z.min (dexp x) (Z.min (dexp y) (dexp z)).
Ltac dunit3 x y z :=
  rewrite ?(dcompare_at (dunit3 x y z) x y), ?(dcompare_at (dunit3 x y z) y x),
    ?(dcompare_at (dunit3 x y z) x z), ?(dcompare_at (dunit3 x y z) z x),
    ?(dcompare_at (dunit3 x y z) y z), ?(dcompare_at (dunit3 x y z) z y),
    ?(dcompare_at (dunit3 x y z) x x) in * by (unfold dunit3; lia).

Ltac dcmp x y z :=
  unfold equiv, decimal_equiv, pyeq, decimal_pyeq, deqb, dltb, dleb in *;
  dunit3 x y z;
  repeat match goal with
  | H : context [Z.compare ?a ?b] |- _ => destruct (Z.compare_spec a b)
  | |- context [Z.compare ?a ?b] => destruct (Z.compare_spec a b)
  end; try lia; try congruence; try done.

#[export] Instance decimal_equivalence : Equivalence (≡@{decimal}).
Proof.
  split.
  - intros x. dcmp x x x.
  - intros x y H. dcmp x y y.
  - intros x y z H1 H2. dcmp x y z.
Qed.

#[export] Instance decimal_pyeq_laws : PyEqLaws decimal.
Proof.
  split.
  - intros x. change (x ≡ x). reflexivity.
  - intros x y H. change (y ≡ x). by symmetry.
  - intros x y z H1 H2. change (x ≡ z). by transitivity y.
Qed.

#[export] Instance dcompare_proper : Proper ((≡) ==> (≡) ==> (=)) dcompare.
Proof.
  intros x x' Hx y y' Hy. transitivity (dcompare x' y).
  - dcmp x x' y.
  - dcmp x' y y'.
Qed.
#[export] Instance dltb_proper : Proper ((≡) ==> (≡) ==> (=)) dltb.
Proof. intros x x' Hx y y' Hy. unfold dltb. by rewrite Hx, Hy. Qed.
#[export] Instance dleb_proper : Proper ((≡) ==> (≡) ==> (=)) dleb.
Proof. intros x x' Hx y y' Hy. unfold dleb. by rewrite Hx, Hy. Qed.
#[export] Instance deqb_proper : Proper ((≡) ==> (≡) ==> (=)) deqb.
Proof. intros x x' Hx y y' Hy. unfold deqb. by rewrite Hx, Hy. Qed.

Lemma dltb_trans x y z : dltb x y = true → dltb y z = true → dltb x z = true.
Proof. intros H1 H2. dcmp x y z. Qed.
Lemma dltb_irrefl x : dltb x x = false.
Proof. dcmp x x x. Qed.
Lemma dleb_trans x y z : dleb x y = true → dleb y z = true → dleb x z = true.
Proof. intros H1 H2. dcmp x y z. Qed.
Lemma dleb_total x y : dleb x y = false → dleb y x = true.
Proof. intros H. dcmp x y y. Qed.
Lemma dleb_ltb x y : dleb x y = negb (dltb y x).
Proof. dcmp x y y. Qed.
Lemma dltb_leb x y : dltb x y = true → dleb x y = true.
Proof. intros H. dcmp x y y. Qed.
Lemma dleb_neq_ltb x y : dleb x y = true → deqb x y = false → dltb x y = true.
Proof. intros H1 H2. dcmp x y y. Qed.
Lemma dltb_neq x y : dltb x y = true → deqb x y = false.
Proof. intros H. dcmp x y y. Qed.

(** Comparison with zero only reads the sign of the coefficient. *)
Lemma dscale_sgn k x : k ≤ dexp x → Z.sgn (dscale k x) = Z.sgn (dcoef x).
Proof.
  intros. unfold dscale. rewrite Z.sgn_mul.
  rewrite (Z.sgn_pos (10 ^ _)) by (apply pow10_pos; lia). lia.
Qed.

Lemma dcompare_0_r x : dcompare x d0 = Z.compare (dcoef x) 0.
Proof.
  unfold dcompare. change (dscale _ d0) with 0.
  pose proof (dscale_sgn (dunit x d0) x) as H. unfold dunit in *. simpl in *.
  specialize (H ltac:(lia)).
  destruct (Z.compare_spec (dscale (Z.min (dexp x) 0) x) 0),
    (Z.compare_spec (dcoef x) 0); try done; exfalso; lia.
Qed.

Lemma dcompare_antisym x y : dcompare y x = CompOpp (dcompare x y).
Proof. dcmp x y y. Qed.

Lemma deqb_0_r x : deqb x d0 = (dcoef x =? 0).
Proof. unfold deqb. rewrite dcompare_0_r. by destruct (dcoef x). Qed.
Lemma dltb_0_l x : dltb d0 x = (0 <? dcoef x).
Proof.
  unfold dltb. rewrite dcompare_antisym, dcompare_0_r. by destruct (dcoef x).
Qed.
Lemma dltb_0_r x : dltb x d0 = (dcoef x <? 0).
Proof. unfold dltb. rewrite dcompare_0_r. by destruct (dcoef x). Qed.

(** ** Rounding to the context precision *)

Definition prec : Z := 28.

Fixpoint ndigits_aux (fuel : nat) (n : Z) : Z :=
  match fuel with
  | O => 0
  | S fuel => if n <? 1 then 0 else 1 + ndigits_aux fuel (n / 10)
  end.
(** [len(str(n))] for [n > 0]. *)
Definition ndigits (n : Z) : Z := ndigits_aux (Z.to_nat (Z.log2 n + 1)) n.

(** [n / 10^k] rounded half to even. *)
Definition round_half_even (n k : Z) : Z :=
  let q := n / 10 ^ k in
  match Z.compare (2 * (n mod 10 ^ k)) (10 ^ k) with
  | Lt => q
  | Gt => q + 1
  | Eq => if Z.even q then q else q + 1
  end.

(** [Decimal._fix]: round the coefficient to 28 digits. *)
Definition dfix (x : decimal) : decimal :=
  let a := Z.abs (dcoef x) in
  let k := ndigits a - prec in
  if k <=? 0 then x
  else
    let q := round_half_even a k in
    if q =? 10 ^ prec then Dec (Z.sgn (dcoef x) * 10 ^ (prec - 1)) (dexp x + k + 1)
    else Dec (Z.sgn (dcoef x) * q) (dexp x + k).

Lemma ndigits_aux_spec fuel n :
  0 < n < 2 ^ Z.of_nat fuel →
  10 ^ (ndigits_aux fuel n - 1) ≤ n < 10 ^ ndigits_aux fuel n ∧ 1 ≤ ndigits_aux fuel n.
Proof.
  revert n. induction fuel as [|fuel IH]; intros n Hn; [simpl in *; lia|].
  cbn [ndigits_aux]. destruct (Z.ltb_spec n 1); [lia|].
  destruct (Z.lt_ge_cases n 10) as [Hlt|Hge].
  { rewrite Z.div_small by lia.
    assert (ndigits_aux fuel 0 = 0) as -> by (by destruct fuel). simpl. lia. }
  assert (0 < n / 10) by (apply Z.div_str_pos; lia).
  assert (n / 10 < 2 ^ Z.of_nat fuel).
  { apply Z.div_lt_upper_bound; [lia|].
    rewrite Nat2Z.inj_succ, Z.pow_succ_r in Hn by lia. lia. }
  destruct (IH (n / 10)) as [IH1 IH2]; [lia|].
  set (d := ndigits_aux fuel (n / 10)) in *.
  replace (1 + d - 1) with ((d - 1) + 1) by lia.
  rewrite Z.pow_add_r, (Z.add_comm 1 d), Z.pow_add_r by lia.
  pose proof (Z.div_mod n 10 ltac:(lia)). pose proof (Z.mod_pos_bound n 10 ltac:(lia)).
  lia.
Qed.

Lemma ndigits_spec n :
  0 < n → 10 ^ (ndigits n - 1) ≤ n < 10 ^ ndigits n ∧ 1 ≤ ndigits n.
Proof.
  intros Hn. apply ndigits_aux_spec. pose proof (Z.log2_spec n Hn).
  pose proof (Z.log2_nonneg n). rewrite Z2Nat.id by lia.
  rewrite Z.add_1_r. lia.
Qed.

Lemma ndigits_le n p : 0 ≤ p → 0 ≤ n < 10 ^ p → ndigits n ≤ p.
Proof.
  intros Hp Hn. destruct (Z.eq_dec n 0) as [->|]; [done|].
  destruct (ndigits_spec n) as [H1 H2]; [lia|].
  destruct (Z.le_gt_cases (ndigits n) p); [done|].
  assert (10 ^ p ≤ 10 ^ (ndigits n - 1)) by (apply Z.pow_le_mono_r; lia). lia.
Qed.

Lemma round_half_even_bounds n k :
  0 ≤ k → 0 ≤ n → n / 10 ^ k ≤ round_half_even n k ≤ n / 10 ^ k + 1.
Proof.
  intros. unfold round_half_even. destruct (Z.compare_spec (2 * (n mod 10 ^ k)) (10 ^ k));
    [destruct (Z.even _)| |]; lia.
Qed.

(** The rounded quotient is within half a unit of the exact one. *)
Lemma round_half_even_error n k :
  0 ≤ k → 0 ≤ n → 2 * Z.abs (n - round_half_even n k * 10 ^ k) ≤ 10 ^ k.
Proof.
  intros Hk Hn. pose proof (pow10_pos k Hk).
  pose proof (Z.div_mod n (10 ^ k) ltac:(lia)).
  pose proof (Z.mod_pos_bound n (10 ^ k) ltac:(lia)).
  unfold round_half_even. set (q := n / 10 ^ k) in *. set (r := n mod 10 ^ k) in *.
  destruct (Z.compare_spec (2 * r) (10 ^ k)); [destruct (Z.even q)| |]; nia.
Qed.

Lemma dfix_exact x : Z.abs (dcoef x) < 10 ^ prec → dfix x = x.
Proof.
  intros H. unfold dfix. destruct (Z.leb_spec (ndigits (Z.abs (dcoef x)) - prec) 0) as [|Hk];
    [done|].
  assert (ndigits (Z.abs (dcoef x)) ≤ prec) by (apply ndigits_le; [done|lia]). lia.
Qed.

Section dfix.
Context (a : Z) (Ha0 : 0 ≤ a) (Hx : 0 < ndigits a - prec).

Lemma dfix_quotient :
  10 ^ (prec - 1) ≤ round_half_even a (ndigits a - prec) ≤ 10 ^ prec.
Proof using All.
  assert (0 < a) as Ha.
  { destruct (Z.eq_dec a 0) as [->|]; [by vm_compute in Hx|lia]. }
  set (k := ndigits a - prec) in *.
  destruct (ndigits_spec a Ha) as [[H1 H2] _].
  pose proof (round_half_even_bounds a k ltac:(lia) ltac:(lia)).
  assert (10 ^ (prec - 1) ≤ a / 10 ^ k).
  { apply Z.div_le_lower_bound; [apply pow10_pos; lia|].
    rewrite Z.mul_comm, <- Z.pow_add_r by (unfold prec; lia).
    replace (prec - 1 + k) with (ndigits a - 1) by lia. done. }
  assert (a / 10 ^ k < 10 ^ prec).
  { apply Z.div_lt_upper_bound; [apply pow10_pos; lia|].
    rewrite <- Z.pow_add_r by (unfold prec; lia).
    replace (k + prec) with (ndigits a) by lia. done. }
  lia.
Qed.
End dfix.

(** The result fits the precision, and rounding never changes the sign: a
    nonzero value does not round to zero. *)
Lemma dfix_spec x :
  Z.abs (dcoef (dfix x)) < 10 ^ prec ∧ Z.sgn (dcoef (dfix x)) = Z.sgn (dcoef x).
Proof.
  unfold dfix. destruct (Z.leb_spec (ndigits (Z.abs (dcoef x)) - prec) 0) as [Hk|Hk].
  - split; [|done]. destruct (Z.eq_dec (dcoef x) 0) as [->|]; [done|].
    destruct (ndigits_spec (Z.abs (dcoef x))) as [[_ H] _]; [lia|].
    eapply Z.lt_le_trans; [exact H|]. apply Z.pow_le_mono_r; lia.
  - pose proof (dfix_quotient _ (Z.abs_nonneg (dcoef x)) ltac:(lia)) as Hq.
    set (q := round_half_even _ _) in *.
    assert (0 < 10 ^ (prec - 1) < 10 ^ prec) by done.
    destruct (Z.eqb_spec q (10 ^ prec)); cbn [dcoef].
    + rewrite Z.sgn_mul, Z.abs_mul, (Z.sgn_pos (10 ^ _)), Z.sgn_sgn, Z.mul_1_r by lia.
      split; [|done]. destruct (dcoef x); simpl Z.sgn; lia.
    + rewrite Z.sgn_mul, Z.abs_mul, (Z.sgn_pos q), Z.sgn_sgn, Z.mul_1_r by lia.
      split; [|done]. destruct (dcoef x); simpl Z.sgn; lia.
Qed.

(** ** Arithmetic *)

Definition dadd (x y : decimal) : decimal :=
  let m := dunit x y in dfix (Dec (dscale m x + dscale m y) m).
Definition dsub (x y : decimal) : decimal :=
  let m := dunit x y in dfix (Dec (dscale m x - dscale m y) m).
Definition dneg (x : decimal) : decimal := dfix (Dec (- dcoef x) (dexp x)).
Definition dabs (x : decimal) : decimal := dfix (Dec (Z.abs (dcoef x)) (dexp x)).
Definition dmul (x y : decimal) : decimal :=
  dfix (Dec (dcoef x * dcoef y) (dexp x + dexp y)).

Fixpoint strip_zeros (fuel : nat) (c e : Z) : Z * Z :=
  match fuel with
  | O => (c, e)
  | S fuel => if c mod 10 =? 0 then strip_zeros fuel (c / 10) (e + 1) else (c, e)
  end.

(** [Decimal.__truediv__]: 28 digits and a sticky digit, or the exact quotient
    at the exponent nearest the ideal one. *)
Definition ddiv (x y : decimal) : res decimal :=
  if dcoef y =? 0 then Err DivisionError
  else if dcoef x =? 0 then Ok (Dec 0 (dexp x - dexp y))
  else
    let a := Z.abs (dcoef x) in
    let b := Z.abs (dcoef y) in
    let shift := ndigits b - ndigits a + prec + 1 in
    let e := dexp x - dexp y - shift in
    let '(n, d) := if 0 <=? shift then (a * 10 ^ shift, b) else (a, b * 10 ^ (- shift)) in
    let q := n / d in
    let s := Z.sgn (dcoef x) * Z.sgn (dcoef y) in
    let '(c, e') := if n mod d =? 0 then strip_zeros (Z.to_nat shift) q e
                    else (if q mod 5 =? 0 then q + 1 else q, e) in
    Ok (dfix (Dec (s * c) e')).

(** [sum(values, Decimal(0))]. *)
Definition dsum (l : list decimal) : decimal := foldl dadd d0 l.

(** [max] and [min] return the first of equal arguments. *)
Definition dmax (x y : decimal) : decimal := if dltb x y then y else x.
Definition dmin (x y : decimal) : decimal := if dltb y x then y else x.

(** The first of the greatest, or least, values, whatever the grouping. *)
Lemma dmax_assoc x y z : dmax (dmax x y) z = dmax x (dmax y z).
Proof. unfold dmax. destruct (dltb x y) eqn:E1, (dltb y z) eqn:E2; rewrite ?E1, ?E2; try done; dcmp x y z. Qed.
Lemma dmin_assoc x y z : dmin (dmin x y) z = dmin x (dmin y z).
Proof. unfold dmin. destruct (dltb y x) eqn:E1, (dltb z y) eqn:E2; rewrite ?E1, ?E2; try done; dcmp x y z. Qed.

Lemma dadd_exact x y :
  Z.abs (dscale (dunit x y) x + dscale (dunit x y) y) < 10 ^ prec →
  dadd x y = Dec (dscale (dunit x y) x + dscale (dunit x y) y) (dunit x y).
Proof. intros H. unfold dadd. by rewrite dfix_exact. Qed.

Lemma dmul_sgn x y : Z.sgn (dcoef (dmul x y)) = Z.sgn (dcoef x) * Z.sgn (dcoef y).
Proof. unfold dmul. rewrite (proj2 (dfix_spec _)). apply Z.sgn_mul. Qed.

Lemma dmul_pos x y :
  dltb d0 x = true → dltb d0 y = true → dltb d0 (dmul x y) = true.
Proof.
  rewrite !dltb_0_l, !Z.ltb_lt. intros Hx Hy.
  pose proof (dmul_sgn x y) as H. rewrite (Z.sgn_pos (dcoef x)), (Z.sgn_pos (dcoef y)) in H by done. lia.
Qed.

Lemma dmul_nonneg x y :
  dltb x d0 = false → dltb y d0 = false → dltb (dmul x y) d0 = false.
Proof.
  rewrite !dltb_0_r, !Z.ltb_ge. intros Hx Hy. pose proof (dmul_sgn x y) as H.
  pose proof (Z.sgn_nonneg (dcoef x)). pose proof (Z.sgn_nonneg (dcoef y)).
  apply Z.sgn_nonneg. rewrite H. apply Z.mul_nonneg_nonneg; lia.
Qed.

(** The sign of a sum or difference is the sign of the exact one: rounding does
    not make a positive delta vanish. *)
Lemma dsub_sgn x y : dltb d0 (dsub x y) = dltb y x.
Proof.
  rewrite dltb_0_l. unfold dsub.
  pose proof (proj2 (dfix_spec (Dec (dscale (dunit x y) x - dscale (dunit x y) y) (dunit x y)))) as H.
  unfold dltb. rewrite (dcompare_at (dunit x y) y x) by (unfold dunit; lia).
  cbn [dcoef] in H.
  destruct (Z.compare_spec (dscale (dunit x y) y) (dscale (dunit x y) x)); lia.
Qed.

Lemma dadd_nonneg x y :
  dltb x d0 = false → dltb y d0 = false → dltb (dadd x y) d0 = false.
Proof.
  rewrite !dltb_0_r, !Z.ltb_ge. intros Hx Hy. unfold dadd. apply Z.sgn_nonneg.
  rewrite (proj2 (dfix_spec _)). cbn [dcoef]. apply Z.sgn_nonneg.
  pose proof (dscale_sgn (dunit x y) x ltac:(unfold dunit; lia)).
  pose proof (dscale_sgn (dunit x y) y ltac:(unfold dunit; lia)). lia.
Qed.

Lemma dsum_nonneg l : Forall (λ x, dltb x d0 = false) l → dltb (dsum l) d0 = false.
Proof.
  intros Hl. unfold dsum. assert (dltb d0 d0 = false) as H0 by done.
  revert H0. generalize d0 at 1 3. induction Hl as [|x l Hx Hl IH]; simpl; [done|].
  intros acc Hacc. apply IH. by apply dadd_nonneg.
Qed.

(** ** Text *)

Definition is_digit (c : ascii) : bool :=
  let n := N_of_ascii c in (48 <=? n)%N && (n <=? 57)%N.
Definition digit_val (c : ascii) : Z := Z.of_N (N_of_ascii c) - 48.

(** [str.isspace] on an ASCII character. *)
Definition is_space (c : ascii) : bool :=
  let n := N_of_ascii c in
  ((9 <=? n) && (n <=? 13) || (28 <=? n) && (n <=? 32))%N.

Definition upper_char (c : ascii) : ascii :=
  let n := N_of_ascii c in
  if ((97 <=? n) && (n <=? 122))%N then ascii_of_N (n - 32) else c.

Fixpoint drop_spaces (l : list ascii) : list ascii :=
  match l with c :: l' => if is_space c then drop_spaces l' else l | [] => [] end.
(** [str.strip()]. *)
Definition strip_spaces (l : list ascii) : list ascii :=
  rev (drop_spaces (rev (drop_spaces l))).

Fixpoint span_digits (l : list ascii) : list ascii * list ascii :=
  match l with
  | c :: l' => if is_digit c then let '(d, r) := span_digits l' in (c :: d, r) else ([], l)
  | [] => ([], [])
  end.

Definition digits_val (l : list ascii) : Z :=
  foldl (λ n c, 10 * n + digit_val c) 0 l.

Definition chars (s : string) : list ascii := String.list_ascii_of_string s.

(** A [-+]? prefix: is it negative, and the rest. *)
Definition parse_sign (l : list ascii) : bool * list ascii :=
  match l with
  | c :: l' => if Ascii.eqb c "-" then (true, l')
               else if Ascii.eqb c "+" then (false, l') else (false, l)
  | [] => (false, [])
  end.

(** What [Decimal(text)] builds. *)
Inductive pydec := Finite (d : decimal) | Infinite | NotANumber.

(** The exponent part: [E], an optional sign, at least one digit, the end. *)
Definition parse_exponent (l : list ascii) : option Z :=
  match l with
  | [] => Some 0
  | c :: l' =>
    if Ascii.eqb c "E" then
      let '(neg, l'') := parse_sign l' in
      match span_digits l'' with
      | (d :: ds, []) => Some ((if neg : bool then -1 else 1) * digits_val (d :: ds))
      | _ => None
      end
    else None
  end.

Definition parse_number (neg : bool) (l : list ascii) : option decimal :=
  let '(ip, r) := span_digits l in
  let '(fp, r') :=
    match r with
    | c :: r' => if Ascii.eqb c "." then span_digits r' else ([], r)
    | [] => ([], r)
    end in
  match ip ++ fp with
  | [] => None
  | ds =>
    match parse_exponent r' with
    | Some e => Some (Dec ((if neg then -1 else 1) * digits_val ds)
                       (e - Z.of_nat (length fp)))
    | None => None
    end
  end.

Definition parse_special (l : list ascii) : option pydec :=
  if decide (l = chars "INF") then Some Infinite
  else if decide (l = chars "INFINITY") then Some Infinite
  else
    let l := match l with c :: l' => if Ascii.eqb c "S" then l' else l | [] => [] end in
    match l with
    | n1 :: a :: n2 :: diag =>
      if decide ([n1; a; n2] = chars "NAN") then
        match span_digits diag with (_, []) => Some NotANumber | _ => None end
      else None
    | _ => None
    end.

(** [Decimal(text)]: [None] is [InvalidOperation]. *)
Definition decimal_of_text (s : string) : option pydec :=
  let l := filter (λ c, Ascii.eqb c "_" = false) (strip_spaces (chars s)) in
  let '(neg, l) := parse_sign (map upper_char l) in
  match parse_number neg l with
  | Some d => Some (Finite d)
  | None => parse_special l
  end.

(** [normalization/common.py: decimal_from_text]. *)
Definition decimal_from_text (value : string) : res decimal :=
  match decimal_of_text value with
  | None => Err (ValueError "is not a decimal")
  | Some (Finite d) => Ok d
  | Some _ => Err (ValueError "must be finite")
  end.

Example decimal_from_text_ex :
  decimal_from_text " -1_0.50e-1" = Ok (Dec (-1050) (-3)) ∧
  decimal_from_text "sNaN12" = Err (ValueError "must be finite") ∧
  decimal_from_text "1.5.2" = Err (ValueError "is not a decimal") ∧
  dadd (Dec (10 ^ 28 - 1) 0) (Dec 6 (-1)) = Dec (10 ^ 27) 1 ∧
  ddiv (Dec 1 0) (Dec 3 0) = Ok (Dec (10 ^ 28 `div` 3) (-28)) ∧
  ddiv (Dec 600 0) (Dec 4 0) = Ok (Dec 150 0).
Proof. by vm_compute. Qed.
