(* ===== verification/PyFloat.v ===== *)
(** * Binary64 floating point

    Python's [float] on the executable IEEE-754 specification of the Standard
    Library (53-bit mantissa, exponent bound 1024, round to nearest even), and
    the functions of [statistics] and [datetime] the features use.  Sums and
    variances of [statistics] are exact rationals rounded once, as in the
    library.  [math.log] has no portable definition and stays a parameter of
    the components that call it. *)

From S2P Require Import Prelude PyDecimal.
From Corelib Require Export SpecFloat.

Abbreviation float := spec_float.

#[export] Instance float_eq_dec : EqDecision float.
Proof. solve_decision. Defined.

Definition fprec : Z := 53.
Definition femax : Z := 1024.

Definition fadd : float → float → float := SFadd fprec femax.
Definition fsub : float → float → float := SFsub fprec femax.
Definition fmul : float → float → float := SFmul fprec femax.
Definition fdiv_ieee : float → float → float := SFdiv fprec femax.
Definition fsqrt : float → float := SFsqrt fprec femax.
Definition fneg : float → float := SFopp.
Definition fabs : float → float := SFabs.
Definition fltb : float → float → bool := SFltb.
Definition fleb : float → float → bool := SFleb.
Definition feqb : float → float → bool := SFeqb.

(** [float(n)]. *)
Definition float_of_int (n : Z) : float := binary_normalize fprec femax n 0 false.

(** [n / d] on integers, [d > 0]: the correctly rounded quotient. *)
Definition float_of_ratio (n d : Z) : float :=
  if n =? 0 then S754_zero false
  else
    let '(q, e, l) := SFdiv_core_binary fprec femax (Z.abs n) 0 d 0 in
    binary_round_aux fprec femax (n <? 0) q e l.

(** [float(d)] on a [Decimal]. *)
Definition float_of_decimal (x : decimal) : float :=
  if 0 <=? dexp x then float_of_int (dcoef x * 10 ^ dexp x)
  else float_of_ratio (dcoef x) (10 ^ (- dexp x)).

Definition f0 : float := S754_zero false.
Definition f1 : float := float_of_int 1.

Definition is_finite (f : float) : bool :=
  match f with S754_zero _ | S754_finite _ _ _ => true | _ => false end.

(** Python's [/] raises on a zero divisor. *)
Definition fdiv (x y : float) : res float :=
  match y with S754_zero _ => Err DivisionError | _ => Ok (fdiv_ieee x y) end.

(** The exact value of a finite float in units of [2^k], for small enough [k]. *)
Definition fscale (k : Z) (f : float) : Z :=
  match f with
  | S754_finite s m e => (if s then -1 else 1) * Z.pos m * 2 ^ (e - k)
  | _ => 0
  end.
Definition fexponent (f : float) : Z :=
  match f with S754_finite _ _ e => e | _ => 0 end.

(** Comparison with an integer, which Python does exactly. *)
Definition fcompare_int (f : float) (n : Z) : option comparison :=
  match f with
  | S754_nan => None
  | S754_infinity s => Some (if s then Lt else Gt)
  | S754_zero _ => Some (Z.compare 0 n)
  | S754_finite _ _ e =>
    let k := Z.min e 0 in Some (Z.compare (fscale k f) (n * 2 ^ (- k)))
  end.
(** [f > n]. *)
Definition fgt_int (f : float) (n : Z) : bool :=
  match fcompare_int f n with Some Gt => true | _ => false end.

(** [max(x, y)] and [min(x, y)] on floats. *)
Definition fmax (x y : float) : float := if fltb x y then y else x.
Definition fmin (x y : float) : float := if fltb y x then y else x.

(** ** [statistics.fmean] and [statistics.pstdev] on finite floats *)

Definition common_exponent (l : list float) : Z :=
  foldr (λ f k, Z.min (fexponent f) k) 0 l.
Definition scaled (l : list float) : list Z := map (fscale (common_exponent l)) l.
Definition zsum (l : list Z) : Z := foldr Z.add 0 l.

(** [math.fsum]: the exact sum, rounded once. *)
Definition fsum (l : list float) : float :=
  binary_normalize fprec femax (zsum (scaled l)) (common_exponent l) false.

Definition fmean (l : list float) : res float :=
  fdiv (fsum l) (float_of_int (Z.of_nat (length l))).

Definition bit_length (n : Z) : Z := if n =? 0 then 0 else Z.log2 (Z.abs n) + 1.

(** [_integer_sqrt_of_frac_rto]: round to odd. *)
Definition isqrt_frac_rto (n m : Z) : Z :=
  let a := Z.sqrt (n / m) in
  Z.lor a (if a * a * m =? n then 0 else 1).

(** [_float_sqrt_of_frac]: the correctly rounded root of [n / m]. *)
Definition float_sqrt_of_frac (n m : Z) : float :=
  let q := (bit_length n - bit_length m - 109) / 2 in
  if 0 <=? q then float_of_int (isqrt_frac_rto n (Z.shiftl m (2 * q)) * 2 ^ q)
  else float_of_ratio (isqrt_frac_rto (Z.shiftl n (-2 * q)) m) (2 ^ (- q)).

(** The numerator of the population variance over [count^2], in squared units of
    the common exponent. *)
Definition variance_num (l : list Z) : Z :=
  Z.of_nat (length l) * zsum (map (λ n, n * n) l) - zsum l * zsum l.

Definition pstdev (l : list float) : float :=
  let k := common_exponent l in
  let num := variance_num (scaled l) in
  let den := Z.of_nat (length l) * Z.of_nat (length l) * 2 ^ (-2 * k) in
  let g := Z.gcd num den in
  if num =? 0 then f0 else float_sqrt_of_frac (num / g) (den / g).

(** ** Signs *)

(** Zero, positive, or positive infinity: what [>= 0] holds of. *)
Definition fnonneg (f : float) : bool :=
  match f with
  | S754_zero _ => true
  | S754_finite s _ _ | S754_infinity s => negb s
  | S754_nan => false
  end.

Lemma fnonneg_leb f : fnonneg f = fleb f0 f.
Proof. by destruct f as [|[]| |[]]. Qed.

Lemma shr_1_nonneg mrs : 0 ≤ shr_m mrs → 0 ≤ shr_m (shr_1 mrs).
Proof. destruct mrs as [[|[]|[]] r s]; simpl; lia. Qed.

Lemma iter_shr_nonneg p mrs : 0 ≤ shr_m mrs → 0 ≤ shr_m (iter_pos shr_1 p mrs).
Proof.
  revert mrs. induction p as [p IH|p IH|]; simpl; intros mrs H;
    auto using shr_1_nonneg.
Qed.

Lemma shr_fexp_nonneg m e l :
  0 ≤ m → 0 ≤ shr_m (shr_fexp fprec femax m e l).1.
Proof.
  intros Hm. unfold shr_fexp, shr.
  assert (0 ≤ shr_m (shr_record_of_loc m l)) by (by destruct l as [|[]]).
  destruct (_ - e); simpl; [done| |done]. by apply iter_shr_nonneg.
Qed.

Lemma round_aux_nonneg m e l :
  0 ≤ m → fnonneg (binary_round_aux fprec femax false m e l) = true.
Proof.
  intros Hm. unfold binary_round_aux.
  pose proof (shr_fexp_nonneg m e l Hm) as H1.
  destruct (shr_fexp fprec femax m e l) as [mrs' e'] eqn:E1. simpl in H1.
  assert (0 ≤ round_nearest_even (shr_m mrs') (loc_of_shr_record mrs')) as H2.
  { unfold round_nearest_even. destruct (loc_of_shr_record mrs') as [|[]];
      [| destruct (Z.even _)| |]; lia. }
  pose proof (shr_fexp_nonneg _ e' loc_Exact H2) as H3.
  destruct (shr_fexp fprec femax _ e' loc_Exact) as [mrs'' e'']. simpl in H3.
  destruct (shr_m mrs''); [done| |done]. by destruct (Z.leb e'' _).
Qed.

Lemma float_of_ratio_nonneg n d :
  0 ≤ n → 0 < d → fnonneg (float_of_ratio n d) = true.
Proof.
  intros Hn Hd. unfold float_of_ratio. destruct (Z.eqb_spec n 0); [done|].
  rewrite (proj2 (Z.ltb_ge n 0)) by done. unfold SFdiv_core_binary.
  set (m' := match _ with 0 => _ | Z.pos _ => _ | Z.neg _ => _ end).
  assert (0 ≤ m') as Hm'.
  { subst m'. destruct (_ - _ - _); [lia| |done]. apply Z.shiftl_nonneg. lia. }
  pose proof (Z_div_mod m' d ltac:(lia)) as Hdm.
  destruct (Z.div_eucl m' d) as [q r]. apply round_aux_nonneg. nia.
Qed.

Lemma fmul_nonneg x y :
  is_finite x = true → is_finite y = true → fnonneg x = true → fnonneg y = true →
  fnonneg (fmul x y) = true.
Proof.
  destruct x as [|?| |[] mx ex], y as [|?| |[] my ey]; try done. intros _ _ _ _.
  unfold fmul, SFmul. simpl xorb. apply round_aux_nonneg. lia.
Qed.

Lemma fmax_0_nonneg x : fnonneg (fmax f0 x) = true.
Proof. unfold fmax. by destruct x as [|[]| |[]]. Qed.

(** ** Rounding to 53 bits *)

Lemma Zdigits2_bounds n : 0 < n → 2 ^ (Zdigits2 n - 1) ≤ n < 2 ^ Zdigits2 n ∧ 1 ≤ Zdigits2 n.
Proof.
  destruct n as [|p|p]; [done| |done]. intros _. simpl.
  induction p as [p IH|p IH|]; [..|done]; cbn [digits2_pos];
    rewrite Pos2Z.inj_succ; destruct IH as [[H1 H2] H3];
    (split; [|lia]);
    replace (Z.succ (Z.pos (digits2_pos p)) - 1) with (Z.succ (Z.pos (digits2_pos p) - 1)) by lia;
    rewrite !Z.pow_succ_r by lia; lia.
Qed.

Lemma Zdigits2_unique n k : 0 ≤ k → 2 ^ k ≤ n < 2 ^ (k + 1) → Zdigits2 n = k + 1.
Proof.
  intros Hk Hn. assert (0 < 2 ^ k) by by apply Z.pow_pos_nonneg.
  destruct (Zdigits2_bounds n) as [[H1 H2] H3]; [lia|].
  assert (k < Zdigits2 n) by (apply (Z.pow_lt_mono_r_iff 2); lia).
  assert (Zdigits2 n - 1 < k + 1) by (apply (Z.pow_lt_mono_r_iff 2); lia). lia.
Qed.

Lemma fexp_digits q e k : -1000 ≤ e → 53 ≤ k → 2 ^ (k - 1) ≤ q < 2 ^ k → fexp fprec femax (Zdigits2 q + e) - e = k - 53.
Proof.
  intros He Hk Hq. rewrite (Zdigits2_unique q (k - 1)); [|lia|by replace (k - 1 + 1) with k by lia].
  unfold fexp, emin, fprec, femax. lia.
Qed.

Lemma shr_1_pos m r s :
  0 < m → shr_1 (Build_shr_record m r s) = Build_shr_record (m / 2) (Z.odd m) (r || s).
Proof.
  intros Hm. destruct m as [|[p|p|]|]; try done; unfold shr_1.
  - by rewrite <- (Z.div_unique (Z.pos p~1) 2 (Z.pos p) 1) by lia.
  - by rewrite <- (Z.div_unique (Z.pos p~0) 2 (Z.pos p) 0) by lia.
Qed.

(** A mantissa that already has its digits, or one too many. *)
Lemma shr_fexp_53 q e l :
  2 ^ 52 ≤ q < 2 ^ 53 → -1000 ≤ e → shr_fexp fprec femax q e l = (shr_record_of_loc q l, e).
Proof. intros Hq He. unfold shr_fexp. by rewrite (fexp_digits q e 53) by (lia || done). Qed.

Lemma shr_fexp_54 q e l :
  2 ^ 53 ≤ q < 2 ^ 54 → -1000 ≤ e →
  ∃ s, shr_fexp fprec femax q e l = (Build_shr_record (q / 2) (Z.odd q) s, e + 1).
Proof.
  intros Hq He. unfold shr_fexp. rewrite (fexp_digits q e 54) by (lia || done). simpl.
  assert (∃ r s, shr_record_of_loc q l = Build_shr_record q r s) as (r & s & ->)
    by (destruct l as [|[]]; simpl; eauto).
  rewrite shr_1_pos by lia. eauto.
Qed.

(** A mantissa of 53 or 54 bits with a location below it, rounded: off by at most one,
    and down only from an odd one. *)
Lemma round_53 q e l :
  2 ^ 52 ≤ q < 2 ^ 54 → -1000 ≤ e ≤ -20 →
  ∃ m e', binary_round_aux fprec femax false q e l = S754_finite false m e' ∧ e ≤ e' ≤ e + 2 ∧
    let v := Z.pos m * 2 ^ (e' - e) in v = q ∨ v = q + 1 ∨ v = q - 1 ∧ Z.odd q = true.
Proof.
  intros Hq He. unfold binary_round_aux.
  assert (∃ n e1, (let '(mrs', e') := shr_fexp fprec femax q e l in
    (round_nearest_even (shr_m mrs') (loc_of_shr_record mrs'), e')) = (n, e1) ∧ e ≤ e1 ≤ e + 1 ∧
    2 ^ 52 ≤ n ≤ 2 ^ 53 ∧
    let v := n * 2 ^ (e1 - e) in v = q ∨ v = q + 1 ∨ v = q - 1 ∧ Z.odd q = true)
    as (n & e1 & E & He1 & Hn & Hv).
  { destruct (Z.lt_ge_cases q (2 ^ 53)) as [Hlt|Hge].
    - rewrite shr_fexp_53 by lia. do 2 eexists. split; [reflexivity|]. rewrite Z.sub_diag.
      destruct l as [|[]]; simpl; try destruct (Z.even q); lia.
    - destruct (shr_fexp_54 q e l) as [s ->]; [lia..|]. do 2 eexists. split; [reflexivity|].
      replace (e + 1 - e) with 1 by lia. pose proof (Z.div_mod q 2 ltac:(lia)) as Hd.
      rewrite (Zmod_odd q) in Hd.
      simpl. destruct (Z.odd q), s; simpl; try destruct (Z.even (q / 2)); lia. }
  destruct (shr_fexp fprec femax q e l) as [mrs' e'']. injection E as -> ->.
  destruct (Z.eq_dec n (2 ^ 53)) as [->|Hne].
  - destruct (shr_fexp_54 (2 ^ 53) e1 loc_Exact) as [s ->]; [lia..|].
    change (shr_m _) with (2 ^ 53 / 2). change (2 ^ 53 / 2) with 4503599627370496.
    cbn iota. rewrite (proj2 (Z.leb_le _ _)) by (unfold femax, fprec; lia).
    do 2 eexists. split; [reflexivity|]. split; [lia|]. cbn zeta in *.
    replace (e1 + 1 - e) with (e1 - e + 1) by lia. rewrite Z.pow_add_r by lia.
    change (2 ^ 53) with 9007199254740992 in Hv. change (2 ^ 1) with 2.
    assert (4503599627370496 * (2 ^ (e1 - e) * 2) = 9007199254740992 * 2 ^ (e1 - e)) as -> by ring. done.
  - rewrite shr_fexp_53 by lia. change (shr_m _) with n. destruct n as [|p|]; [lia| |lia].
    rewrite (proj2 (Z.leb_le _ _)) by (unfold femax, fprec; lia).
    do 2 eexists. split; [reflexivity|]. split; [lia|done].
Qed.

Example pstdev_ex :
  let l := map float_of_int [2; 4; 4; 4; 5; 5; 7; 9] in
  pstdev l = float_of_int 2 ∧ fmean l = Ok (float_of_int 5) ∧
  float_of_decimal (Dec 1 (-1)) = S754_finite false 7205759403792794 (-56) ∧
  fgt_int (float_of_decimal (Dec 15 (-1))) 1 = true ∧
  fsum (map float_of_decimal (replicate 10 (Dec 1 (-1)))) = f1.
Proof. by vm_compute. Qed.
