(* ===== verification/PyTime.v ===== *)
(** * Time

    Aware UTC instants are integers: microseconds since 1970-01-01T00:00:00Z.
    A [datetime] argument may still be naive; every public entry point of the
    code starts by rejecting it and converting to UTC ([as_utc]).  The year
    bounds of [datetime] are checked where the code builds one from an exchange
    timestamp. *)

From S2P Require Import Prelude PyDecimal PyFloat.
From Stdlib Require Import Ascii.

(** Wall-clock microseconds, and [utcoffset()] if the value has one. *)
Record datetime := { wall_us : Z; utc_offset : option Z }.

(** The guard [value.tzinfo is None or value.utcoffset() is None: raise
    ValueError(msg)] followed by [value.astimezone(UTC)]. *)
Definition as_utc (msg : string) (d : datetime) : res Z :=
  match utc_offset d with
  | None => Err (ValueError msg)
  | Some off => Ok (wall_us d - off)
  end.

Definition utc (us : Z) : datetime := {| wall_us := us; utc_offset := Some 0 |}.

Lemma as_utc_utc msg us : as_utc msg (utc us) = Ok us.
Proof. unfold as_utc; simpl. f_equal. lia. Qed.
#[export] Hint Rewrite as_utc_utc : cvf_rw.

Definition as_utc_opt (msg : string) (d : option datetime) : res (option Z) :=
  match d with None => Ok None | Some d => Some <$> as_utc msg d end.

Definition seconds (n : Z) : Z := n * 1000000.
Definition milliseconds (n : Z) : Z := n * 1000.

(** [timedelta.total_seconds()] and [... * 1000.0]. *)
Definition total_seconds (us : Z) : float := float_of_ratio us 1000000.
Definition total_ms (us : Z) : float := fmul (total_seconds us) (float_of_int 1000).

(** [timestamp()] truncated by [int(...)]: [int(datetime.timestamp())] of the
    float seconds. *)
Definition ftrunc (f : float) : Z :=
  match f with
  | S754_finite s m e =>
    (if s then -1 else 1) * (if 0 <=? e then Z.pos m * 2 ^ e else Z.pos m / 2 ^ (- e))
  | _ => 0
  end.
Definition ffrac (f : float) : float :=
  match f with
  | S754_finite s m e =>
    if 0 <=? e then S754_zero s
    else binary_normalize fprec femax
           ((if s then -1 else 1) * (Z.pos m mod 2 ^ (- e))) e s
  | _ => f
  end.

(** [datetime.timestamp()]: whole and fractional seconds of an aware instant. *)
Definition timestamp (us : Z) : float := float_of_ratio us 1000000.
Definition int_timestamp (us : Z) : Z := ftrunc (timestamp us).

(** Round a finite float to the nearest integer, ties to even. *)
Definition fround (f : float) : Z :=
  match f with
  | S754_finite s m e =>
    (if s then -1 else 1) *
    (if 0 <=? e then Z.pos m * 2 ^ e
     else
       let q := Z.pos m / 2 ^ (- e) in
       match Z.compare (2 * (Z.pos m mod 2 ^ (- e))) (2 ^ (- e)) with
       | Lt => q | Gt => q + 1 | Eq => if Z.even q then q else q + 1
       end)
  | _ => 0
  end.

Definition min_datetime : Z := seconds (-62135596800).
Definition max_datetime : Z := seconds 253402300800 - 1.

(** [datetime.fromtimestamp(t, tz=UTC)] on a float. *)
Definition from_timestamp (t : float) : res Z :=
  if negb (is_finite t) then Err (ValueError "cannot convert float to datetime")
  else
    let us := seconds (ftrunc t) + fround (fmul (ffrac t) (float_of_int 1000000)) in
    _ ← require ((min_datetime <=? us) && (us <=? max_datetime))
                (ValueError "year is out of range");
    Ok us.

(** [int(text)]: an optional sign and digits, single underscores between digits,
    surrounding white space. *)
Fixpoint int_digits (l : list ascii) (after_digit : bool) (n : Z) : option Z :=
  match l with
  | [] => if after_digit then Some n else None
  | c :: l' =>
    if is_digit c then int_digits l' true (10 * n + digit_val c)
    else if Ascii.eqb c "_" && after_digit then int_digits l' false n
    else None
  end.
Definition parse_int (s : string) : option Z :=
  let '(neg, l) := parse_sign (strip_spaces (chars s)) in
  (λ n, if neg : bool then - n else n) <$> int_digits l false 0.

(** [normalization/common.py: timestamp_from_milliseconds]; the argument is an
    [int] or a [str]. *)
Definition timestamp_from_milliseconds (value : Z + string) : res Z :=
  ms ← match value with
       | inl n => Ok n
       | inr s => match parse_int s with
                  | Some n => Ok n
                  | None => Err (ValueError "invalid millisecond timestamp")
                  end
       end;
  from_timestamp (float_of_ratio ms 1000).

(** [int(t.timestamp())] is the whole second, for instants since 1970 that fit the 53
    bits of a float (until the year 2255). *)
Lemma int_timestamp_second t : 0 ≤ t < 2 ^ 53 → int_timestamp t = t / 1000000.
Proof.
  intros Ht. destruct (Z.eq_dec t 0) as [->|Hne]; [done|].
  unfold int_timestamp, timestamp, float_of_ratio. rewrite (proj2 (Z.eqb_neq t 0)) by done.
  rewrite (proj2 (Z.ltb_ge t 0)) by lia. rewrite Z.abs_eq by lia. unfold SFdiv_core_binary.
  set (D := Zdigits2 t). assert (1 ≤ D ≤ 53 ∧ 2 ^ (D - 1) ≤ t < 2 ^ D) as [HD Htd].
  { destruct (Zdigits2_bounds t) as [H1 H2]; [lia|]. subst D. split; [|done]. split; [done|].
    assert (Zdigits2 t - 1 < 53); [|lia]. apply (Z.pow_lt_mono_r_iff 2); lia. }
  change (Zdigits2 1000000) with 20.
  replace (Z.min (fexp fprec femax (D + 0 - (20 + 0))) (0 - 0)) with (- (73 - D))
    by (unfold fexp, emin, fprec, femax; lia).
  set (s := 73 - D). replace (0 - 0 - - s) with s by lia.
  replace (match s with 0 => t | Z.pos _ => Z.shiftl t s | Z.neg _ => 0 end) with (t * 2 ^ s).
  2: { rewrite <- Z.shiftl_mul_pow2 by lia. destruct s eqn:E; [lia|done|lia]. }
  pose proof (Z_div_mod (t * 2 ^ s) 1000000 ltac:(lia)) as Hdm.
  destruct (Z.div_eucl (t * 2 ^ s) 1000000) as [q r]. destruct Hdm as [Hq Hr].
  assert (2 ^ 20 ≤ 2 ^ s) as Hs by (apply Z.pow_le_mono_r; lia).
  assert (2 ^ 72 ≤ t * 2 ^ s < 2 ^ 73) as Hts.
  { replace 72 with (D - 1 + s) by lia. replace 73 with (D + s) by lia.
    rewrite !Z.pow_add_r by lia. nia. }
  destruct (round_53 q (- s) (new_location 1000000 r)) as (m & e' & -> & He' & Hv); [lia..|].
  simpl ftrunc. rewrite (proj2 (Z.leb_gt 0 e')) by lia.
  (* the float is [v] in units of [2^-s] *)
  set (u := 2 ^ (e' - - s)) in *. assert (0 < u) by (apply Z.pow_pos_nonneg; lia).
  assert (2 ^ s = u * 2 ^ (- e')) as Eu by (subst u; rewrite <- Z.pow_add_r by lia; f_equal; lia).
  assert (0 < 2 ^ (- e')) by (apply Z.pow_pos_nonneg; lia).
  pose proof (Z.div_mod t 1000000 ltac:(lia)) as Hk. pose proof (Z.mod_pos_bound t 1000000 ltac:(lia)) as Hkm.
  set (k := t / 1000000) in *. set (x := t mod 1000000) in *.
  set (p := 2 ^ s) in *.
  assert (t * p = 1000000 * (k * p) + x * p) as Etp by (rewrite Hk; ring).
  assert (0 ≤ x * p ≤ 999999 * p) as Hxp
    by (split; [apply Z.mul_nonneg_nonneg; lia|apply Z.mul_le_mono_nonneg_r; lia]).
  assert (k * p ≤ q ∧ q + 1 < k * p + p) as [Hlo Hhi] by lia.
  cbn zeta in Hv.
  assert (k * p ≤ Z.pos m * u < k * p + p) as [Hb1 Hb2].
  { destruct Hv as [->|[->|[-> Hodd]]]; try lia.
    assert (q ≠ k * p); [|lia]. intros ->. subst p.
    replace s with (Z.succ (s - 1)) in Hodd by lia. rewrite Z.pow_succ_r in Hodd by lia.
    by rewrite Z.odd_mul, Z.odd_mul, andb_false_r in Hodd. }
  cut (Z.pos m / 2 ^ (- e') = k); [lia|]. symmetry.
  apply Z.div_unique with (Z.pos m - k * 2 ^ (- e')); [|lia]. left.
  set (y := 2 ^ (- e')) in *. clearbody y k u. rewrite Eu in *. split.
  - apply Z.le_0_sub, (Z.mul_le_mono_pos_r _ _ u); lia.
  - apply (Z.mul_lt_mono_pos_r u); lia.
Qed.

Example timestamp_ex :
  timestamp_from_milliseconds (inr "1785456000123") = Ok 1785456000123000 ∧
  timestamp_from_milliseconds (inl (-1)) = Ok (-1000) ∧
  timestamp_from_milliseconds (inr "12_3 ") = Ok 123000 ∧
  timestamp_from_milliseconds (inr "1.5") = Err (ValueError "invalid millisecond timestamp") ∧
  total_ms 1234567 = float_of_decimal (Dec 1234567 (-3)).
Proof. by vm_compute. Qed.
