(* ===== verification/FloatRange.v ===== *)
(** * Floats away from overflow and underflow

    [nrm k f]: [f] is zero or a normal number of exponent between [-k] and [k].
    The operations stay in such a range, which grows by a constant: what shows
    that a computed float is finite, and where a rounded quotient lies. *)

From S2P Require Import Prelude PyDecimal PyFloat PyTime.

Definition nrm (k : Z) (f : float) : Prop :=
  match f with
  | S754_zero _ => True
  | S754_finite _ m e => 2 ^ 52 ≤ Z.pos m < 2 ^ 53 ∧ - k ≤ e ≤ k
  | _ => False
  end.

Lemma nrm_finite k f : nrm k f → is_finite f = true.
Proof. by destruct f. Qed.
Lemma nrm_mono j k f : j ≤ k → nrm j f → nrm k f.
Proof. destruct f; simpl; try done. lia. Qed.
Lemma nrm_abs k f : nrm k f → nrm k (fabs f).
Proof. by destruct f. Qed.
Lemma nrm_max k x y : nrm k x → nrm k y → nrm k (fmax x y).
Proof. unfold fmax. by destruct (fltb x y). Qed.
Lemma fabs_nonneg f : is_finite f = true → fnonneg (fabs f) = true.
Proof. by destruct f. Qed.

(** ** Rounding *)

Lemma div2_pow m n : 0 ≤ n → m / 2 / 2 ^ n = m / 2 ^ Z.succ n.
Proof.
  intros Hn. rewrite Z.pow_succ_r by done. rewrite Z.div_div by (try apply Z.pow_pos_nonneg; lia). done.
Qed.

Lemma shr_1_m mrs : 0 ≤ shr_m mrs → shr_m (shr_1 mrs) = shr_m mrs / 2.
Proof.
  intros H. destruct (Z.eq_dec (shr_m mrs) 0) as [E|E].
  - destruct mrs as [m r s]. simpl in *. by subst.
  - destruct mrs as [m r s]. simpl in H, E. by rewrite shr_1_pos by lia.
Qed.

Lemma iter_shr_m p mrs :
  0 ≤ shr_m mrs → shr_m (iter_pos shr_1 p mrs) = shr_m mrs / 2 ^ Z.pos p.
Proof.
  revert mrs. induction p as [p IH|p IH|]; intros mrs H; cbn [iter_pos].
  - rewrite !IH, shr_1_m; auto using shr_1_nonneg, iter_shr_nonneg.
    rewrite div2_pow, Z.div_div by (try apply Z.pow_nonzero; try apply Z.pow_pos_nonneg; lia).
    rewrite <- Z.pow_add_r by lia. f_equal. f_equal. lia.
  - rewrite !IH; auto using iter_shr_nonneg.
    rewrite Z.div_div by (try apply Z.pow_nonzero; try apply Z.pow_pos_nonneg; lia).
    rewrite <- Z.pow_add_r by lia. f_equal. f_equal. lia.
  - by rewrite shr_1_m.
Qed.

Lemma shr_record_m q l : shr_m (shr_record_of_loc q l) = q.
Proof. by destruct l as [|[]]. Qed.

(** A mantissa of at least 53 digits is cut to 53. *)
Lemma shr_fexp_cut q e l :
  0 < q → e ≤ Zdigits2 q + e - 53 → -900 ≤ Zdigits2 q + e →
  ∃ mrs, shr_fexp fprec femax q e l = (mrs, Zdigits2 q + e - 53) ∧ 2 ^ 52 ≤ shr_m mrs < 2 ^ 53.
Proof.
  intros Hq He Hd. destruct (Zdigits2_bounds q Hq) as [[H1 H2] _].
  unfold shr_fexp, shr. set (n := fexp fprec femax _ - e).
  assert (n = Zdigits2 q - 53) as -> by (unfold n, fexp, emin, fprec, femax; lia).
  destruct (Zdigits2 q - 53) as [|p|p] eqn:E; [| |lia].
  - eexists. split; [f_equal; lia|]. rewrite shr_record_m.
    by replace (Zdigits2 q) with 53 in * by lia.
  - eexists. split; [f_equal; lia|]. rewrite iter_shr_m; rewrite shr_record_m; [|lia].
    rewrite <- E. set (d := Zdigits2 q) in *.
    assert (0 < 2 ^ (d - 53)) by (apply Z.pow_pos_nonneg; lia). split.
    + apply Z.div_le_lower_bound; [done|]. rewrite Z.mul_comm, <- Z.pow_add_r by lia.
      by replace (52 + (d - 53)) with (d - 1) by lia.
    + apply Z.div_lt_upper_bound; [done|]. rewrite <- Z.pow_add_r by lia.
      by replace (d - 53 + 53) with d by lia.
Qed.

Lemma round_cut sx q e l :
  let d := Zdigits2 q + e in
  0 < q → e ≤ d - 53 → -900 ≤ d →
  ∃ m e', binary_round_aux fprec femax sx q e l =
      (if e' <=? femax - fprec then S754_finite sx m e' else S754_infinity sx) ∧ 2 ^ 52 ≤ Z.pos m < 2 ^ 53 ∧
    (e' = d - 53 ∨ e' = d - 52 ∧ Z.pos m = 2 ^ 52).
Proof.
  intros d Hq He Hd. destruct (shr_fexp_cut q e l) as (mrs & E & Hm); [lia..|].
  unfold binary_round_aux. rewrite E. fold d.
  assert (2 ^ 52 ≤ round_nearest_even (shr_m mrs) (loc_of_shr_record mrs) ≤ 2 ^ 53) as Hn.
  { unfold round_nearest_even. destruct (loc_of_shr_record mrs) as [|[]];
      try destruct (Z.even _); lia. }
  set (n := round_nearest_even _ _) in *. clearbody n. clear E Hm.
  destruct (Z.eq_dec n (2 ^ 53)) as [->|Hne].
  - destruct (shr_fexp_54 (2 ^ 53) (d - 53) loc_Exact) as [s ->]; [lia..|].
    change (shr_m _) with (2 ^ 53 / 2). change (2 ^ 53 / 2) with 4503599627370496.
    cbn iota.
    do 2 eexists. split; [reflexivity|]. split; [done|]. right. split; [lia|done].
  - destruct (shr_fexp_cut n (d - 53) loc_Exact) as (mrs' & E & Hm).
    + lia.
    + rewrite (Zdigits2_unique n 52); lia.
    + rewrite (Zdigits2_unique n 52); lia.
    + rewrite E. rewrite (Zdigits2_unique n 52) by lia.
      destruct (shr_m mrs') as [|p|p]; [lia| |lia].
      do 2 eexists. split; [reflexivity|]. split; [done|]. left. lia.
Qed.

Lemma round_normal sx q e l :
  let d := Zdigits2 q + e in
  0 < q → e ≤ d - 53 → -900 ≤ d ≤ 1000 →
  ∃ m e', binary_round_aux fprec femax sx q e l = S754_finite sx m e' ∧ 2 ^ 52 ≤ Z.pos m < 2 ^ 53 ∧
    (e' = d - 53 ∨ e' = d - 52 ∧ Z.pos m = 2 ^ 52).
Proof.
  intros d Hq He Hd. destruct (round_cut sx q e l) as (m & e' & -> & Hm & He'); [lia..|].
  exists m, e'. rewrite (proj2 (Z.leb_le _ _)) by (unfold femax, fprec; lia). done.
Qed.

Lemma round_nrm sx q e l k :
  0 < q → e ≤ Zdigits2 q + e - 53 → -900 ≤ Zdigits2 q + e ≤ 1000 →
  - k ≤ Zdigits2 q + e - 53 → Zdigits2 q + e - 52 ≤ k →
  nrm k (binary_round_aux fprec femax sx q e l).
Proof.
  intros Hq He Hd H1 H2. destruct (round_normal sx q e l) as (m & e' & -> & Hm & He'); [lia..|].
  split; [done|]. lia.
Qed.

Lemma iter_xO m d : Z.pos (Pos.iter xO m d) = Z.pos m * 2 ^ Z.pos d.
Proof.
  revert m. induction d as [|d IH] using Pos.peano_ind; intros m; [simpl; lia|].
  rewrite Pos.iter_succ. rewrite Pos2Z.inj_xO, IH, Pos2Z.inj_succ, Z.pow_succ_r by lia. lia.
Qed.

Lemma shl_align_spec m e e' :
  ∃ m', shl_align m e e' = (m', Z.min e e') ∧ Z.pos m' = Z.pos m * 2 ^ (e - Z.min e e').
Proof.
  unfold shl_align. destruct (e' - e) as [|p|p] eqn:E.
  - exists m. split; [f_equal; lia|]. replace (e - Z.min e e') with 0 by lia. lia.
  - exists m. split; [f_equal; lia|]. replace (e - Z.min e e') with 0 by lia. lia.
  - eexists. split; [f_equal; lia|]. rewrite iter_xO. do 2 f_equal. lia.
Qed.

Lemma Zdigits2_mul_pow q n : 0 < q → 0 ≤ n → Zdigits2 (q * 2 ^ n) = Zdigits2 q + n.
Proof.
  intros Hq Hn. destruct (Zdigits2_bounds q Hq) as [[H1 H2] H3].
  replace (Zdigits2 q + n) with (Zdigits2 q + n - 1 + 1) by lia.
  assert (0 < 2 ^ n) by by apply Z.pow_pos_nonneg.
  apply Zdigits2_unique; [lia|].
  replace (Zdigits2 q + n - 1) with (Zdigits2 q - 1 + n) by lia.
  replace (Zdigits2 q - 1 + n + 1) with (Zdigits2 q + n) by lia.
  rewrite !Z.pow_add_r by lia. nia.
Qed.

(** [binary_normalize]: at least as many digits, then rounding. *)
Lemma normalize_cut q e b :
  let d := Zdigits2 (Z.abs q) + e in
  q ≠ 0 → -900 ≤ d →
  ∃ m e', binary_normalize fprec femax q e b =
      (if e' <=? femax - fprec then S754_finite (q <? 0) m e' else S754_infinity (q <? 0)) ∧
    2 ^ 52 ≤ Z.pos m < 2 ^ 53 ∧ (e' = d - 53 ∨ e' = d - 52 ∧ Z.pos m = 2 ^ 52).
Proof.
  intros d Hq Hd.
  assert (∀ sx p, Z.abs q = Z.pos p → ∃ m e', binary_round fprec femax sx p e =
      (if e' <=? femax - fprec then S754_finite sx m e' else S754_infinity sx) ∧
    2 ^ 52 ≤ Z.pos m < 2 ^ 53 ∧ (e' = d - 53 ∨ e' = d - 52 ∧ Z.pos m = 2 ^ 52)) as Hp.
  { intros sx p Ep. unfold binary_round. change (Z.pos (digits2_pos p)) with (Zdigits2 (Z.pos p)).
    assert (d = Zdigits2 (Z.pos p) + e) as Hdp by by rewrite <- Ep.
    rewrite <- Hdp. assert (fexp fprec femax d = d - 53) as -> by (unfold fexp, emin, fprec, femax; lia).
    destruct (shl_align_spec p e (d - 53)) as (p' & -> & Hp').
    assert (Zdigits2 (Z.pos p') + Z.min e (d - 53) = d) as Hd'.
    { rewrite Hp', Zdigits2_mul_pow by lia. lia. }
    destruct (round_cut sx (Z.pos p') (Z.min e (d - 53)) loc_Exact) as (m & e' & ? & ? & ?); [lia..|].
    exists m, e'. by rewrite Hd' in *. }
  destruct q as [|p|p]; [done| |]; simpl; by apply Hp.
Qed.

Lemma normalize_normal q e b :
  let d := Zdigits2 (Z.abs q) + e in
  q ≠ 0 → -900 ≤ d ≤ 1000 →
  ∃ m e', binary_normalize fprec femax q e b = S754_finite (q <? 0) m e' ∧
    2 ^ 52 ≤ Z.pos m < 2 ^ 53 ∧ (e' = d - 53 ∨ e' = d - 52 ∧ Z.pos m = 2 ^ 52).
Proof.
  intros d Hq Hd. destruct (normalize_cut q e b) as (m & e' & -> & Hm & He'); [lia..|].
  exists m, e'. rewrite (proj2 (Z.leb_le _ _)) by (unfold femax, fprec; lia). done.
Qed.

(** No integer but zero is a float zero, so a mean divides. *)
Lemma fdiv_int_ok x n : n ≠ 0 → ∃ r, fdiv x (float_of_int n) = Ok r.
Proof.
  intros Hn. destruct (Zdigits2_bounds (Z.abs n)) as [_ ?]; [lia|]. unfold float_of_int.
  destruct (normalize_cut n 0 false) as (m & e' & -> & _); [done|lia|].
  destruct (e' <=? _); by eexists.
Qed.

Lemma normalize_nrm q e b k :
  -900 ≤ e → Zdigits2 (Z.abs q) + e ≤ 1000 → - k ≤ e - 52 → Zdigits2 (Z.abs q) + e - 52 ≤ k →
  nrm k (binary_normalize fprec femax q e b).
Proof.
  intros He Hd H1 H2. destruct (Z.eq_dec q 0) as [->|Hq]; [done|].
  destruct (Zdigits2_bounds (Z.abs q)) as [_ H3]; [lia|].
  destruct (normalize_normal q e b) as (m & e' & -> & Hm & He'); [lia..|]. split; [done|]. lia.
Qed.

(** ** Operations *)

Lemma Zdigits2_le q j : 0 < q < 2 ^ j → 0 ≤ j → Zdigits2 q ≤ j.
Proof.
  intros Hq Hj. destruct (Zdigits2_bounds q) as [[H1 H2] H3]; [lia|].
  assert (Zdigits2 q - 1 < j); [|lia]. apply (Z.pow_lt_mono_r_iff 2); lia.
Qed.

Lemma Zdigits2_ge q j : 2 ^ j ≤ q → 0 ≤ j → j + 1 ≤ Zdigits2 q.
Proof.
  intros Hq Hj. assert (0 < 2 ^ j) by by apply Z.pow_pos_nonneg.
  destruct (Zdigits2_bounds q) as [[H1 H2] H3]; [lia|].
  assert (j < Zdigits2 q); [|lia]. apply (Z.pow_lt_mono_r_iff 2); lia.
Qed.

Lemma digits_53 m : 2 ^ 52 ≤ Z.pos m < 2 ^ 53 → Z.pos (digits2_pos m) = 53.
Proof. intros Hm. exact (Zdigits2_unique (Z.pos m) 52 ltac:(lia) Hm). Qed.

Lemma float_of_int_nrm n j : Z.abs n < 2 ^ j → 0 ≤ j ≤ 900 → nrm (Z.max 52 j) (float_of_int n).
Proof.
  intros Hn Hj. unfold float_of_int. destruct (Z.eq_dec n 0) as [->|Hne]; [done|].
  pose proof (Zdigits2_le (Z.abs n) j ltac:(lia) ltac:(lia)). apply normalize_nrm; lia.
Qed.

Lemma fmul_nrm j k x y :
  nrm j x → nrm k y → 0 ≤ j → 0 ≤ k → j + k ≤ 800 → nrm (j + k + 54) (fmul x y).
Proof.
  destruct x as [|?| |sx mx ex], y as [|?| |sy my ey]; try done. intros [Hx Hex] [Hy Hey] Hj Hk Hjk.
  unfold fmul, SFmul. set (q := Z.pos (mx * my)). assert (q = Z.pos mx * Z.pos my) as Hq by done.
  assert (2 ^ 104 ≤ q < 2 ^ 106) as Hb by (rewrite Hq; nia). clearbody q.
  pose proof (Zdigits2_le q 106 ltac:(lia) ltac:(lia)).
  pose proof (Zdigits2_ge q 104 ltac:(lia) ltac:(lia)). apply round_nrm; lia.
Qed.

(** The aligned mantissas of a sum. *)
Lemma aligned m e ez k :
  2 ^ 52 ≤ Z.pos m < 2 ^ 53 → ez ≤ e ≤ k →
  (shl_align m e ez).1 = Z.to_pos (Z.pos m * 2 ^ (e - ez)) ∧
  2 ^ (52 + (e - ez)) ≤ Z.pos m * 2 ^ (e - ez) < 2 ^ (53 + (k - ez)).
Proof.
  intros Hm He. destruct (shl_align_spec m e ez) as (m' & -> & Hm'). simpl.
  replace (Z.min e ez) with ez in * by lia. split; [by rewrite <- Hm'|].
  assert (0 < 2 ^ (e - ez)) by (apply Z.pow_pos_nonneg; lia).
  assert (2 ^ (e - ez) ≤ 2 ^ (k - ez)) by (apply Z.pow_le_mono_r; lia).
  rewrite !Z.pow_add_r by lia. nia.
Qed.

Lemma fsub_nrm k x y : nrm k x → nrm k y → 0 ≤ k ≤ 400 → nrm (k + 60) (fsub x y).
Proof.
  destruct x as [[]|?| |sx mx ex], y as [[]|?| |sy my ey]; try done; intros Hx Hy Hk;
    try (by eapply nrm_mono; [|exact Hx]; lia);
    try (destruct Hy as [Hy Hey]; split; [done|lia]).
  destruct Hx as [Hx Hex], Hy as [Hy Hey]. unfold fsub, SFsub.
  set (ez := Z.min ex ey). cbn zeta. cbn [fst].
  destruct (aligned mx ex ez k) as [Ex Bx]; [done|lia|].
  destruct (aligned my ey ez k) as [Ey By]; [done|lia|].
  assert (0 < 2 ^ (52 + (ex - ez))) by (apply Z.pow_pos_nonneg; lia).
  assert (0 < 2 ^ (52 + (ey - ez))) by (apply Z.pow_pos_nonneg; lia).
  rewrite Ex, Ey, !Z2Pos.id by lia.
  set (q := _ - _). assert (Z.abs q < 2 ^ (54 + (k - ez))) as Hq.
  { replace (54 + (k - ez)) with (1 + (53 + (k - ez))) by lia. rewrite Z.pow_add_r by lia.
    subst q. destruct sx, sy; simpl cond_Zopp; lia. }
  clearbody q. destruct (Z.eq_dec q 0) as [->|Hne]; [done|].
  pose proof (Zdigits2_le (Z.abs q) (54 + (k - ez)) ltac:(lia) ltac:(lia)).
  apply normalize_nrm; lia.
Qed.

(** The quotient of two mantissas before rounding: 53 digits or more, and its size. *)
Lemma div_core m1 e1 m2 e2 :
  let D := Zdigits2 m1 + e1 - (Zdigits2 m2 + e2) in
  0 < m1 → 0 < m2 → -900 ≤ D →
  ∃ q e l, SFdiv_core_binary fprec femax m1 e1 m2 e2 = (q, e, l) ∧ 0 < q ∧
    e ≤ Zdigits2 q + e - 53 ∧ D ≤ Zdigits2 q + e ≤ D + 1 ∧
    e = Z.min (D - 53) (e1 - e2) ∧ q = m1 * 2 ^ (e1 - e2 - e) / m2.
Proof.
  intros D H1 H2 HD. unfold SFdiv_core_binary.
  replace (Zdigits2 m1 + e1 - (Zdigits2 m2 + e2)) with D by done.
  assert (fexp fprec femax D = D - 53) as -> by (unfold fexp, emin, fprec, femax; lia).
  set (e := Z.min (D - 53) (e1 - e2)).
  set (m' := match e1 - e2 - e with 0 => _ | Z.pos _ => _ | Z.neg _ => _ end).
  assert (m' = m1 * 2 ^ (e1 - e2 - e)) as Hm'.
  { subst m'. destruct (e1 - e2 - e) eqn:E; [lia| |lia]. by rewrite Z.shiftl_mul_pow2 by lia. }
  clearbody m'. subst m'. rewrite (surjective_pairing (Z.div_eucl _ _)).
  change (Z.div_eucl (m1 * 2 ^ (e1 - e2 - e)) m2).1 with (m1 * 2 ^ (e1 - e2 - e) / m2).
  set (s := e1 - e2 - e). set (q := _ / _).
  destruct (Zdigits2_bounds m1 H1) as [B1 P1]. destruct (Zdigits2_bounds m2 H2) as [B2 P2].
  assert (0 < 2 ^ s) by (apply Z.pow_pos_nonneg; lia).
  assert (2 ^ (D - e - 1) ≤ q < 2 ^ (D - e + 1)) as Hq.
  { unfold q. split.
    - apply Z.div_le_lower_bound; [done|].
      assert (2 ^ (Zdigits2 m1 - 1 + s) = 2 ^ Zdigits2 m2 * 2 ^ (D - e - 1)) as Hp
        by (rewrite <- Z.pow_add_r by lia; f_equal; lia).
      rewrite Z.pow_add_r in Hp by lia. assert (0 < 2 ^ (D - e - 1)) by (apply Z.pow_pos_nonneg; lia).
      nia.
    - apply Z.div_lt_upper_bound; [done|].
      assert (2 ^ (Zdigits2 m1 + s) = 2 ^ (Zdigits2 m2 - 1) * 2 ^ (D - e + 1)) as Hp
        by (rewrite <- Z.pow_add_r by lia; f_equal; lia).
      rewrite Z.pow_add_r in Hp by lia. assert (0 < 2 ^ (D - e + 1)) by (apply Z.pow_pos_nonneg; lia).
      nia. }
  assert (0 < 2 ^ (D - e - 1)) by (apply Z.pow_pos_nonneg; lia).
  pose proof (Zdigits2_ge q (D - e - 1) ltac:(lia) ltac:(lia)).
  pose proof (Zdigits2_le q (D - e + 1) ltac:(lia) ltac:(lia)).
  do 3 eexists. split; [reflexivity|]. repeat split; lia.
Qed.

Lemma float_of_ratio_nrm n d j :
  Z.abs n < 2 ^ j → 0 < d < 2 ^ j → 0 ≤ j ≤ 800 → nrm (j + 54) (float_of_ratio n d).
Proof.
  intros Hn Hd Hj. unfold float_of_ratio. destruct (Z.eqb_spec n 0) as [->|Hne]; [done|].
  pose proof (Zdigits2_le (Z.abs n) j ltac:(lia) ltac:(lia)).
  pose proof (Zdigits2_le d j ltac:(lia) ltac:(lia)).
  destruct (Zdigits2_bounds (Z.abs n)) as [_ ?]; [lia|]. destruct (Zdigits2_bounds d) as [_ ?]; [lia|].
  destruct (div_core (Z.abs n) 0 d 0) as (q & e & l & -> & Hq & He & HD & _); [lia..|].
  apply round_nrm; lia.
Qed.

Lemma fdiv_nrm j k x s m e :
  nrm j x → nrm k (S754_finite s m e) → 0 ≤ j → 0 ≤ k → j + k ≤ 700 →
  nrm (j + k + 60) (fdiv_ieee x (S754_finite s m e)).
Proof.
  destruct x as [|?| |sx mx ex]; try done. intros [Hx Hex] [Hm He] Hj Hk Hjk. unfold fdiv_ieee, SFdiv.
  pose proof (digits_53 mx Hx) as D1. pose proof (digits_53 m Hm) as D2.
  destruct (div_core (Z.pos mx) ex (Z.pos m) e) as (q & e' & l & -> & Hq & He' & HD & _);
    simpl Zdigits2 in *; [lia..|].
  apply round_nrm; lia.
Qed.

Lemma fdiv_nonneg x m e :
  is_finite x = true → fnonneg x = true → fnonneg (fdiv_ieee x (S754_finite false m e)) = true.
Proof.
  destruct x as [|?| |[] mx ex]; try done. intros _ _. unfold fdiv_ieee, SFdiv, SFdiv_core_binary.
  simpl xorb. set (m' := match _ with 0 => _ | Z.pos _ => _ | Z.neg _ => _ end).
  assert (0 ≤ m') as Hm'.
  { subst m'. destruct (_ - _ - _); [lia| |done]. apply Z.shiftl_nonneg. lia. }
  pose proof (Z_div_mod m' (Z.pos m) ltac:(lia)) as Hdm.
  destruct (Z.div_eucl m' (Z.pos m)) as [q r]. apply round_aux_nonneg. nia.
Qed.

Lemma float_of_int_pos n j :
  0 < n < 2 ^ j → 0 ≤ j ≤ 900 →
  ∃ m e, float_of_int n = S754_finite false m e ∧ nrm (Z.max 52 j) (S754_finite false m e).
Proof.
  intros Hn Hj. pose proof (float_of_int_nrm n j ltac:(lia) Hj) as Hr.
  pose proof (Zdigits2_le n j ltac:(lia) ltac:(lia)). destruct (Zdigits2_bounds n) as [_ ?]; [lia|].
  unfold float_of_int in *. destruct (normalize_normal n 0 false) as (m & e & E & _);
    rewrite ?Z.abs_eq in * by lia; [lia..|].
  rewrite (proj2 (Z.ltb_ge n 0)) in E by lia. rewrite E in *. eauto.
Qed.

(** Milliseconds of a time span of less than a hundred thousand years. *)
Lemma total_ms_nrm us : Z.abs us < 2 ^ 62 → nrm 222 (total_ms us).
Proof.
  intros Hus. unfold total_ms, total_seconds.
  pose proof (float_of_ratio_nrm us 1000000 62 Hus ltac:(lia) ltac:(lia)) as H1.
  pose proof (float_of_int_nrm 1000 10 ltac:(lia) ltac:(lia)) as H2.
  eapply nrm_mono; [|apply (fmul_nrm 116 52); [exact H1|exact H2|lia..]]. lia.
Qed.

(** ** [1 / (1 + w)] *)

Definition fbetween (lo hi f : float) : Prop :=
  is_finite f = true ∧ fleb lo f = true ∧ fleb f hi = true.

(** What rounding gives for a positive value below a power of two. *)
Lemma round_below_1 q e l :
  0 < q → e ≤ Zdigits2 q + e - 53 → -900 ≤ Zdigits2 q + e ≤ 0 →
  fbetween f0 f1 (binary_round_aux fprec femax false q e l).
Proof.
  intros Hq He Hd. destruct (round_normal false q e l) as (m & e' & -> & Hm & He'); [lia..|].
  split; [done|]. split; [done|]. change f1 with (S754_finite false 4503599627370496 (-52)).
  unfold fleb, SFleb, SFcompare. destruct (Z.compare_spec e' (-52)); [|done|lia].
  destruct He' as [?|[_ E]]; [lia|]. by injection E as ->.
Qed.

Lemma inv_le_1 k m e :
  nrm k (S754_finite false m e) → -52 ≤ e → k ≤ 700 →
  fbetween f0 f1 (fdiv_ieee f1 (S754_finite false m e)).
Proof.
  intros [Hm He] H52 Hk. change f1 with (S754_finite false 4503599627370496 (-52)) at 2.
  unfold fdiv_ieee, SFdiv. simpl xorb. pose proof (digits_53 m Hm) as Dm.
  change (Z.pos 4503599627370496) with (2 ^ 52). assert (Zdigits2 (2 ^ 52) = 53) as D1 by done.
  destruct (div_core (2 ^ 52) (-52) (Z.pos m) e) as (q & e' & l & Ec & Hq & He' & HD & Ee & Eq);
    simpl Zdigits2 in *; [lia..|].
  destruct (Z.eq_dec e (-52)) as [->|Hne]; [|rewrite Ec; apply round_below_1; lia].
  destruct (Z.eq_dec (Z.pos m) (2 ^ 52)) as [Em|Hne]; [by injection Em as ->|].
  rewrite Ec. apply round_below_1; [lia..|]. split; [lia|].
  assert (Zdigits2 q ≤ 53); [|lia]. apply Zdigits2_le; [|lia]. split; [lia|].
  rewrite Eq. replace (-52 - -52 - e') with 53 by lia. rewrite <- Z.pow_add_r by lia.
  apply Z.div_lt_upper_bound; lia.
Qed.

Lemma one_plus_ge_1 k w :
  nrm k w → fnonneg w = true → 0 ≤ k ≤ 400 →
  ∃ m e, fadd f1 w = S754_finite false m e ∧ nrm (k + 120) (S754_finite false m e) ∧ -52 ≤ e.
Proof.
  intros Hw Hs Hk. change f1 with (S754_finite false 4503599627370496 (-52)).
  destruct w as [sw|?| |sw m e]; try done.
  - exists 4503599627370496%positive, (-52). split; [done|]. split; [|done]. split; [done|lia].
  - destruct sw; [done|]. destruct Hw as [Hm He]. unfold fadd, SFadd. set (ez := Z.min (-52) e).
    cbn zeta. cbn [fst cond_Zopp]. set (top := Z.max (-52) e).
    destruct (aligned 4503599627370496 (-52) ez top) as [E1 B1]; [lia..|].
    destruct (aligned m e ez top) as [E2 B2]; [lia..|].
    assert (0 < 2 ^ (52 + (e - ez))) by (apply Z.pow_pos_nonneg; lia).
    assert (0 < 2 ^ (52 + (-52 - ez))) by (apply Z.pow_pos_nonneg; lia).
    rewrite E1, E2, !Z2Pos.id by lia.
    set (q := 4503599627370496 * 2 ^ (-52 - ez) + Z.pos m * 2 ^ (e - ez)).
    assert (2 ^ (52 + (-52 - ez)) ≤ q < 2 ^ (54 + (top - ez))) as Hq.
    { replace (54 + (top - ez)) with (1 + (53 + (top - ez))) by lia.
      rewrite (Z.pow_add_r 2 1 (53 + (top - ez))) by lia. subst q. lia. }
    clearbody q. pose proof (Zdigits2_le q (54 + (top - ez)) ltac:(lia) ltac:(lia)).
    pose proof (Zdigits2_ge q (52 + (-52 - ez)) ltac:(lia) ltac:(lia)).
    destruct (normalize_normal q ez false) as (m' & e' & -> & Hm' & He'); rewrite ?Z.abs_eq in * by lia;
      [lia..|].
    rewrite (proj2 (Z.ltb_ge q 0)) by lia. exists m', e'. split; [done|]. split; [split; [done|]|]; lia.
Qed.

Lemma inv_one_plus k w :
  nrm k w → fnonneg w = true → 0 ≤ k ≤ 400 →
  ∃ q, fdiv f1 (fadd f1 w) = Ok q ∧ fbetween f0 f1 q.
Proof.
  intros Hw Hs Hk. destruct (one_plus_ge_1 k w) as (m & e & -> & Hn & He); [done..|].
  eexists. split; [reflexivity|]. eapply inv_le_1; [exact Hn|done|lia].
Qed.
