(* ===== verification/Models.v ===== *)
(** * Normalized events

    The enumerations of [models/enums.py], the validated event models of
    [models/common.py] and [models/market.py], and the canonical symbol check of
    [utils/validation.py].  A model instance is what its validators accept: the
    [mk_*] functions are the constructors, and raise pydantic's
    [ValidationError] (a [ValueError]) where the source does. *)

From S2P Require Import Prelude PyDecimal PyFloat PyTime.
From Stdlib Require Import Ascii.

(** ** Enumerations *)

Inductive Exchange := BINANCE | OKX | CROSS_VENUE | SIMULATED.
Inductive EventType :=
| TRADE | ORDER_BOOK_SNAPSHOT | ORDER_BOOK_UPDATE | BEST_BID_ASK | OPEN_INTEREST
| FUNDING_RATE | MARK_PRICE | INDEX_PRICE | LIQUIDATION | EXCHANGE_HEALTH
| MARKET_FEATURE | TRADING_SIGNAL | SIMULATED_ORDER | SIMULATED_POSITION
| SIMULATED_TRADE.
Inductive AggressorSide := BUY | SELL.
Inductive LiquidatedPositionSide := LONG | SHORT.
Inductive HealthStatus := CONNECTED | DEGRADED | STALE | RESYNCING | DISCONNECTED.

#[export] Instance Exchange_eq_dec : EqDecision Exchange.
Proof. solve_decision. Defined.
#[export] Instance EventType_eq_dec : EqDecision EventType.
Proof. solve_decision. Defined.
#[export] Instance AggressorSide_eq_dec : EqDecision AggressorSide.
Proof. solve_decision. Defined.
#[export] Instance LiquidatedPositionSide_eq_dec : EqDecision LiquidatedPositionSide.
Proof. solve_decision. Defined.
#[export] Instance HealthStatus_eq_dec : EqDecision HealthStatus.
Proof. solve_decision. Defined.

Definition exchange_value (e : Exchange) : string :=
  match e with
  | BINANCE => "BINANCE" | OKX => "OKX"
  | CROSS_VENUE => "CROSS_VENUE" | SIMULATED => "SIMULATED"
  end.

Definition event_type_value (t : EventType) : string :=
  match t with
  | TRADE => "TRADE" | ORDER_BOOK_SNAPSHOT => "ORDER_BOOK_SNAPSHOT"
  | ORDER_BOOK_UPDATE => "ORDER_BOOK_UPDATE" | BEST_BID_ASK => "BEST_BID_ASK"
  | OPEN_INTEREST => "OPEN_INTEREST" | FUNDING_RATE => "FUNDING_RATE"
  | MARK_PRICE => "MARK_PRICE" | INDEX_PRICE => "INDEX_PRICE"
  | LIQUIDATION => "LIQUIDATION" | EXCHANGE_HEALTH => "EXCHANGE_HEALTH"
  | MARKET_FEATURE => "MARKET_FEATURE" | TRADING_SIGNAL => "TRADING_SIGNAL"
  | SIMULATED_ORDER => "SIMULATED_ORDER" | SIMULATED_POSITION => "SIMULATED_POSITION"
  | SIMULATED_TRADE => "SIMULATED_TRADE"
  end.

(** ** Canonical symbols *)

Definition of_chars (l : list ascii) : string := String.string_of_list_ascii l.
Definition str_strip (s : string) : string := of_chars (strip_spaces (chars s)).
Definition str_upper (s : string) : string := of_chars (map upper_char (chars s)).

(** [str.split(sep)] for a one-character separator. *)
Fixpoint split_chars (sep : ascii) (l : list ascii) : list (list ascii) :=
  match l with
  | [] => [[]]
  | c :: l' =>
    if Ascii.eqb c sep then [] :: split_chars sep l'
    else match split_chars sep l' with
         | [] => [[c]]
         | w :: ws => (c :: w) :: ws
         end
  end.

(** The class [[A-Z0-9]+]. *)
Definition is_code_char (c : ascii) : bool :=
  let n := N_of_ascii c in
  is_digit c || ((65 <=? n) && (n <=? 90))%N.
Definition is_code (l : list ascii) : bool :=
  negb (bool_decide (l = [])) && forallb is_code_char l.

(** [^[A-Z0-9]+-[A-Z0-9]+-PERP$] matched against the whole text. *)
Definition canonical_perpetual (s : string) : bool :=
  match split_chars "-" (chars s) with
  | [base; quote; perp] => is_code base && is_code quote && bool_decide (perp = chars "PERP")
  | _ => false
  end.

Definition validate_canonical_symbol (value : string) (allow_wildcard : bool) : res string :=
  let normalized := str_upper (str_strip value) in
  if allow_wildcard && bool_decide (normalized = "*"%string) then Ok normalized
  else
    _ ← require (canonical_perpetual normalized)
                (ValueError "invalid canonical perpetual symbol");
    Ok normalized.

(** ** Event metadata *)

Inductive seq_id := SeqInt (n : Z) | SeqStr (s : string).
#[export] Instance seq_id_eq_dec : EqDecision seq_id.
Proof. solve_decision. Defined.

Record metadata := {
  exchange : Exchange;
  symbol : string;
  exchange_timestamp : Z;
  local_receive_timestamp : Z;
  normalization_timestamp : Z;
  sequence_id : option seq_id;
  raw_payload_reference : option string }.

(** [EventBase]: symbol and timestamp validators, then the wildcard rule. *)
Definition mk_metadata (type : EventType) (exch : Exchange) (sym : string)
    (exchange_ts local_ts norm_ts : datetime) (seq : option seq_id)
    (ref : option string) : res metadata :=
  let msg := "timestamps must be timezone-aware"%string in
  sym ← validate_canonical_symbol sym true;
  e ← as_utc msg exchange_ts; l ← as_utc msg local_ts; n ← as_utc msg norm_ts;
  _ ← require (negb (bool_decide (sym = "*"%string)) || bool_decide (type = EXCHANGE_HEALTH))
              (ValueError "symbol='*' is reserved for exchange-wide health events");
  Ok {| exchange := exch; symbol := sym; exchange_timestamp := e;
        local_receive_timestamp := l; normalization_timestamp := n;
        sequence_id := seq; raw_payload_reference := ref |}.

Definition receive_latency_ms (m : metadata) : float :=
  total_ms (local_receive_timestamp m - exchange_timestamp m).
Definition normalization_latency_ms (m : metadata) : float :=
  total_ms (normalization_timestamp m - local_receive_timestamp m).

(** [PositiveDecimal] and [NonNegativeDecimal]. *)
Definition positive (d : decimal) : res unit :=
  require (dltb d0 d) (ValueError "greater than 0").
Definition non_negative (d : decimal) : res unit :=
  require (dleb d0 d) (ValueError "greater than or equal to 0").
Definition positive_opt (d : option decimal) : res unit :=
  match d with None => Ok tt | Some d => positive d end.
Definition non_negative_opt (d : option decimal) : res unit :=
  match d with None => Ok tt | Some d => non_negative d end.

(** ** Market events *)

Record OrderBookLevel := { level_price : decimal; level_quantity : decimal }.

Definition mk_level (p q : decimal) : res OrderBookLevel :=
  _ ← positive p; _ ← non_negative q; Ok {| level_price := p; level_quantity := q |}.

Record Trade := {
  trade_meta : metadata; trade_id : string; trade_price : decimal;
  trade_quantity : decimal; trade_contract_quantity : option decimal;
  aggressor_side : AggressorSide }.

Definition mk_trade (m : metadata) (id : string) (p q : decimal)
    (cq : option decimal) (side : AggressorSide) : res Trade :=
  _ ← positive p; _ ← positive q; _ ← positive_opt cq;
  Ok {| trade_meta := m; trade_id := id; trade_price := p; trade_quantity := q;
        trade_contract_quantity := cq; aggressor_side := side |}.

Definition trade_notional (t : Trade) : decimal := dmul (trade_price t) (trade_quantity t).

Record OrderBookSnapshot := {
  snapshot_meta : metadata; snapshot_bids : list OrderBookLevel;
  snapshot_asks : list OrderBookLevel; snapshot_depth : Z;
  snapshot_checksum : option string; snapshot_generation : Z }.

(** [any(f(left, right) for left, right in zip(l, l[1:]))]. *)
Fixpoint any_adjacent {A} (f : A → A → bool) (l : list A) : bool :=
  match l with
  | x :: (y :: _) as l' => f x y || any_adjacent f l'
  | _ => false
  end.

Definition price_leb (a b : OrderBookLevel) : bool := dleb (level_price a) (level_price b).
Definition price_geb (a b : OrderBookLevel) : bool := dleb (level_price b) (level_price a).

Definition mk_snapshot (m : metadata) (bids asks : list OrderBookLevel) (depth : Z)
    (checksum : option string) (generation : Z) : res OrderBookSnapshot :=
  match bids, asks with
  | b0 :: _, a0 :: _ =>
    _ ← require (1 <=? depth) (ValueError "depth");
    _ ← require (0 <=? generation) (ValueError "generation");
    _ ← require ((Z.of_nat (length bids) <=? depth) && (Z.of_nat (length asks) <=? depth))
          (ValueError "book sides cannot contain more levels than depth");
    _ ← require (negb (any_adjacent price_leb bids))
          (ValueError "bids must be strictly descending by price");
    _ ← require (negb (any_adjacent price_geb asks))
          (ValueError "asks must be strictly ascending by price");
    _ ← require (dltb (level_price b0) (level_price a0))
          (ValueError "order book is crossed or locked");
    Ok {| snapshot_meta := m; snapshot_bids := bids; snapshot_asks := asks;
          snapshot_depth := depth; snapshot_checksum := checksum;
          snapshot_generation := generation |}
  | _, _ => Err (ValueError "at least 1 item")
  end.

Record OrderBookUpdate := {
  update_meta : metadata; update_bids : list OrderBookLevel;
  update_asks : list OrderBookLevel; previous_sequence_id : option seq_id;
  update_checksum : option string; update_generation : Z }.

Definition mk_update (m : metadata) (bids asks : list OrderBookLevel)
    (prev : option seq_id) (checksum : option string) (generation : Z)
    : res OrderBookUpdate :=
  _ ← require (0 <=? generation) (ValueError "generation");
  _ ← require (negb (bool_decide (length bids = 0%nat) && bool_decide (length asks = 0%nat)))
        (ValueError "an order-book update must change at least one level");
  Ok {| update_meta := m; update_bids := bids; update_asks := asks;
        previous_sequence_id := prev; update_checksum := checksum;
        update_generation := generation |}.

Record BestBidAsk := {
  bba_meta : metadata; bid_price : decimal; bid_quantity : decimal;
  ask_price : decimal; ask_quantity : decimal }.

Definition mk_best_bid_ask (m : metadata) (bp bq ap aq : decimal) : res BestBidAsk :=
  _ ← positive bp; _ ← non_negative bq; _ ← positive ap; _ ← non_negative aq;
  _ ← require (dltb bp ap) (ValueError "best bid must be below best ask");
  Ok {| bba_meta := m; bid_price := bp; bid_quantity := bq; ask_price := ap;
        ask_quantity := aq |}.

(** [(bid + ask) / Decimal(2)]; the divisor is never zero. *)
Definition dhalf (x : decimal) : decimal :=
  match ddiv x (of_int 2) with Ok y => y | Err _ => d0 end.
Definition mid_price (q : BestBidAsk) : decimal := dhalf (dadd (bid_price q) (ask_price q)).

Record OpenInterest := {
  oi_meta : metadata; open_interest_contracts : decimal;
  open_interest_base : option decimal; open_interest_quote : option decimal }.

Definition mk_open_interest (m : metadata) (c : decimal) (b q : option decimal)
    : res OpenInterest :=
  _ ← non_negative c; _ ← non_negative_opt b; _ ← non_negative_opt q;
  Ok {| oi_meta := m; open_interest_contracts := c; open_interest_base := b;
        open_interest_quote := q |}.

Record FundingRate := {
  funding_meta : metadata; funding_rate : decimal; next_funding_timestamp : option Z }.

Definition mk_funding_rate (m : metadata) (r : decimal) (next : option datetime)
    : res FundingRate :=
  n ← as_utc_opt "timestamps must be timezone-aware" next;
  Ok {| funding_meta := m; funding_rate := r; next_funding_timestamp := n |}.

Record MarkPrice := { mark_meta : metadata; mark_price : decimal }.
Definition mk_mark_price (m : metadata) (p : decimal) : res MarkPrice :=
  _ ← positive p; Ok {| mark_meta := m; mark_price := p |}.

Record IndexPrice := { index_meta : metadata; index_price : decimal }.
Definition mk_index_price (m : metadata) (p : decimal) : res IndexPrice :=
  _ ← positive p; Ok {| index_meta := m; index_price := p |}.

Record LiquidationEvent := {
  liquidation_meta : metadata; liquidation_id : option string;
  position_side : LiquidatedPositionSide; liquidation_price : decimal;
  liquidation_quantity : decimal; liquidation_contract_quantity : option decimal }.

Definition mk_liquidation (m : metadata) (id : option string)
    (side : LiquidatedPositionSide) (p q : decimal) (cq : option decimal)
    : res LiquidationEvent :=
  _ ← positive p; _ ← positive q; _ ← positive_opt cq;
  Ok {| liquidation_meta := m; liquidation_id := id; position_side := side;
        liquidation_price := p; liquidation_quantity := q;
        liquidation_contract_quantity := cq |}.

Definition liquidation_notional (l : LiquidationEvent) : decimal :=
  dmul (liquidation_price l) (liquidation_quantity l).

Record ExchangeHealth := {
  health_meta : metadata; health_channel : string; health_status : HealthStatus;
  health_is_connected : bool; health_last_event_timestamp : option Z;
  health_last_latency_ms : option float; health_average_latency_ms : option float;
  health_maximum_latency_ms : option float;
  health_last_normalization_latency_ms : option float;
  health_clock_skew_ms : option float; health_messages_received : Z;
  health_duplicate_events : Z; health_sequence_gaps : Z;
  health_checksum_failures : Z; health_reconnects : Z; health_resubscriptions : Z;
  health_parse_errors : Z; health_dropped_events : Z; health_backpressure_events : Z;
  health_sequence_gap_detected : bool; health_resyncing : bool;
  health_book_generation : Z; health_rest_healthy : bool;
  health_open_interest_stale : bool; health_last_error : option string }.

(** Empty or white space only: [not value or value.isspace()]. *)
Definition blank (s : string) : bool := forallb is_space (chars s).

(** The field bounds and the model validator [state_fields_are_consistent]. *)
Definition validate_health (h : ExchangeHealth) : res ExchangeHealth :=
  _ ← require (negb (blank (health_channel h))) (ValueError "channel cannot be empty");
  _ ← require (forallb (Z.leb 0)
        [health_messages_received h; health_duplicate_events h; health_sequence_gaps h;
         health_checksum_failures h; health_reconnects h; health_resubscriptions h;
         health_parse_errors h; health_dropped_events h; health_backpressure_events h;
         health_book_generation h]) (ValueError "greater than or equal to 0");
  _ ← require (negb (bool_decide (health_status h = DISCONNECTED) && health_is_connected h))
        (ValueError "DISCONNECTED health cannot report an active connection");
  _ ← require (bool_decide (health_status h = DISCONNECTED) || health_is_connected h)
        (ValueError "health requires an active transport connection");
  _ ← require (Bool.eqb (health_resyncing h) (bool_decide (health_status h = RESYNCING)))
        (ValueError "resyncing must be true exactly when status is RESYNCING");
  Ok h.

(** [NormalizedMarketEvent]. *)
Inductive event :=
| ETrade (e : Trade)
| EBookSnapshot (e : OrderBookSnapshot)
| EBookUpdate (e : OrderBookUpdate)
| EBestBidAsk (e : BestBidAsk)
| EOpenInterest (e : OpenInterest)
| EFundingRate (e : FundingRate)
| EMarkPrice (e : MarkPrice)
| EIndexPrice (e : IndexPrice)
| ELiquidation (e : LiquidationEvent)
| EHealth (e : ExchangeHealth).

Definition event_meta (e : event) : metadata :=
  match e with
  | ETrade e => trade_meta e | EBookSnapshot e => snapshot_meta e
  | EBookUpdate e => update_meta e | EBestBidAsk e => bba_meta e
  | EOpenInterest e => oi_meta e | EFundingRate e => funding_meta e
  | EMarkPrice e => mark_meta e | EIndexPrice e => index_meta e
  | ELiquidation e => liquidation_meta e | EHealth e => health_meta e
  end.

Definition event_type (e : event) : EventType :=
  match e with
  | ETrade _ => TRADE | EBookSnapshot _ => ORDER_BOOK_SNAPSHOT
  | EBookUpdate _ => ORDER_BOOK_UPDATE | EBestBidAsk _ => BEST_BID_ASK
  | EOpenInterest _ => OPEN_INTEREST | EFundingRate _ => FUNDING_RATE
  | EMarkPrice _ => MARK_PRICE | EIndexPrice _ => INDEX_PRICE
  | ELiquidation _ => LIQUIDATION | EHealth _ => EXCHANGE_HEALTH
  end.

(** ** What the validators establish *)

Definition price_gt (a b : OrderBookLevel) : Prop := dltb (level_price b) (level_price a) = true.
Definition price_lt (a b : OrderBookLevel) : Prop := dltb (level_price a) (level_price b) = true.

Lemma any_adjacent_sorted {A} (f : A → A → bool) (R : A → A → Prop) l :
  (∀ x y, f x y = false → R x y) → (∀ x y z, R x y → R y z → R x z) →
  any_adjacent f l = false → StronglySorted R l.
Proof.
  intros Hf Ht H. apply Sorted_StronglySorted; [exact Ht|].
  induction l as [|x [|y l] IH]; [constructor|repeat constructor|].
  simpl in H. apply orb_false_iff in H as [H1 H2].
  constructor; [by apply IH|]. constructor. by apply Hf.
Qed.

Lemma price_leb_gt a b : price_leb a b = false → price_gt a b.
Proof. unfold price_leb, price_gt. rewrite dleb_ltb. by destruct (dltb _ _). Qed.
Lemma price_geb_lt a b : price_geb a b = false → price_lt a b.
Proof. unfold price_geb, price_lt. rewrite dleb_ltb. by destruct (dltb _ _). Qed.
Lemma price_gt_trans a b c : price_gt a b → price_gt b c → price_gt a c.
Proof. unfold price_gt. intros. by apply (dltb_trans _ (level_price b)). Qed.
Lemma price_lt_trans a b c : price_lt a b → price_lt b c → price_lt a c.
Proof. unfold price_lt. intros. by apply (dltb_trans _ (level_price b)). Qed.

(** A sorted nonempty side is bounded by its first level. *)
Lemma sorted_head_bound {A} (R : A → A → Prop) x l y :
  StronglySorted R (x :: l) → y ∈ x :: l → y = x ∨ R x y.
Proof.
  inversion 1 as [|?? _ Hall]; subst. intros [->|Hy]%elem_of_cons; [by left|].
  right. rewrite Forall_forall in Hall. auto.
Qed.

(** What a snapshot promises to the books and the features. *)
Definition snapshot_book (s : OrderBookSnapshot) : Prop :=
  StronglySorted price_gt (snapshot_bids s) ∧
  StronglySorted price_lt (snapshot_asks s) ∧
  (∀ b a, b ∈ snapshot_bids s → a ∈ snapshot_asks s → price_lt b a) ∧
  1 ≤ Z.of_nat (length (snapshot_bids s)) ≤ snapshot_depth s ∧
  1 ≤ Z.of_nat (length (snapshot_asks s)) ≤ snapshot_depth s.

Lemma mk_snapshot_book m bids asks depth ck gen s :
  mk_snapshot m bids asks depth ck gen = Ok s → snapshot_book s.
Proof.
  unfold mk_snapshot. destruct bids as [|b0 bids]; [done|]. destruct asks as [|a0 asks]; [done|].
  intros H. inv_res. subst s.
  unfold snapshot_book. cbn [snapshot_bids snapshot_asks snapshot_depth].
  repeat match goal with
  | H : negb _ = true |- _ => apply negb_true_iff in H
  | H : _ && _ = true |- _ => apply andb_true_iff in H as [?%Z.leb_le ?%Z.leb_le]
  end.
  assert (StronglySorted price_gt (b0 :: bids)) as Hb
    by (eapply any_adjacent_sorted; [exact price_leb_gt|exact price_gt_trans|done]).
  assert (StronglySorted price_lt (a0 :: asks)) as Ha
    by (eapply any_adjacent_sorted; [exact price_geb_lt|exact price_lt_trans|done]).
  split; [exact Hb|]. split; [exact Ha|].
  split; [|simpl length in *; split; lia].
  intros b a Hin1 Hin2. apply (sorted_head_bound _ _ _ _ Hb) in Hin1.
  apply (sorted_head_bound _ _ _ _ Ha) in Hin2.
  assert (price_lt b0 a0) as Hba by done.
  assert (price_lt b a0) as Hb0
    by (destruct Hin1 as [->|Hlt]; [exact Hba|apply (price_lt_trans b b0 a0 Hlt Hba)]).
  destruct Hin2 as [->|Hlt]; [exact Hb0|apply (price_lt_trans b a0 a Hb0 Hlt)].
Qed.

(**  A snapshot that pydantic accepted is a book: bids strictly descending,
    asks strictly ascending over all pairs of levels (the code compares only
    neighbours), and every bid strictly below every ask (the code compares only
    the best prices); each side has between one and [depth] levels. *)
Theorem mk_snapshot_valid m bids asks depth ck gen s :
  mk_snapshot m bids asks depth ck gen = Ok s →
  StronglySorted price_gt (snapshot_bids s) ∧
  StronglySorted price_lt (snapshot_asks s) ∧
  (∀ b a, b ∈ snapshot_bids s → a ∈ snapshot_asks s → price_lt b a) ∧
  1 ≤ Z.of_nat (length (snapshot_bids s)) ≤ snapshot_depth s ∧
  1 ≤ Z.of_nat (length (snapshot_asks s)) ≤ snapshot_depth s.
Proof. apply mk_snapshot_book. Qed.

(** ** Valid events

    The value constraints of each event model, as its consumers rely on them. *)
Definition level_valid (l : OrderBookLevel) : Prop :=
  dltb d0 (level_price l) = true ∧ dleb d0 (level_quantity l) = true.

Definition event_valid (e : event) : Prop :=
  match e with
  | ETrade t => dltb d0 (trade_price t) = true ∧ dltb d0 (trade_quantity t) = true
  | EBookSnapshot s =>
    snapshot_book s ∧ Forall level_valid (snapshot_bids s) ∧ Forall level_valid (snapshot_asks s)
  | EBookUpdate u =>
    (update_bids u ≠ [] ∨ update_asks u ≠ []) ∧
    Forall level_valid (update_bids u) ∧ Forall level_valid (update_asks u)
  | EBestBidAsk q =>
    dltb d0 (bid_price q) = true ∧ dltb (bid_price q) (ask_price q) = true ∧
    dleb d0 (bid_quantity q) = true ∧ dleb d0 (ask_quantity q) = true
  | EOpenInterest o => dleb d0 (open_interest_contracts o) = true
  | EFundingRate _ => True
  | EMarkPrice p => dltb d0 (mark_price p) = true
  | EIndexPrice p => dltb d0 (index_price p) = true
  | ELiquidation l =>
    dltb d0 (liquidation_price l) = true ∧ dltb d0 (liquidation_quantity l) = true
  | EHealth h =>
    (health_is_connected h = false ↔ health_status h = DISCONNECTED) ∧
    (health_resyncing h = true ↔ health_status h = RESYNCING)
  end.

Lemma mk_trade_event m id p q cq side t :
  mk_trade m id p q cq side = Ok t → event_valid (ETrade t) ∧ trade_meta t = m.
Proof. unfold mk_trade, positive. intros H. inv_res. by subst. Qed.

Lemma mk_level_valid p q l : mk_level p q = Ok l → level_valid l.
Proof. unfold mk_level, positive, non_negative. intros H. inv_res. by subst. Qed.

Lemma mk_snapshot_event m bids asks depth ck gen s :
  mk_snapshot m bids asks depth ck gen = Ok s →
  Forall level_valid bids → Forall level_valid asks →
  event_valid (EBookSnapshot s) ∧ snapshot_meta s = m.
Proof.
  intros H Hb Ha. pose proof (mk_snapshot_book _ _ _ _ _ _ _ H) as Hbook.
  unfold mk_snapshot in H. destruct bids, asks; try done. inv_res. by subst s.
Qed.

Lemma mk_update_event m bids asks prev ck gen u :
  mk_update m bids asks prev ck gen = Ok u →
  Forall level_valid bids → Forall level_valid asks →
  event_valid (EBookUpdate u) ∧ update_meta u = m.
Proof.
  unfold mk_update. intros H Hb Ha. inv_res. subst u. simpl. split; [|done]. split; [|done].
  destruct bids; [|by left]. destruct asks; [done|by right].
Qed.

Lemma mk_best_bid_ask_event m bp bq ap aq q :
  mk_best_bid_ask m bp bq ap aq = Ok q → event_valid (EBestBidAsk q) ∧ bba_meta q = m.
Proof. unfold mk_best_bid_ask, positive, non_negative. intros H. inv_res. by subst. Qed.

Lemma mk_open_interest_event m c b q o :
  mk_open_interest m c b q = Ok o → event_valid (EOpenInterest o) ∧ oi_meta o = m.
Proof. unfold mk_open_interest, non_negative. intros H. inv_res. by subst. Qed.

Lemma mk_funding_rate_event m r n f :
  mk_funding_rate m r n = Ok f → event_valid (EFundingRate f) ∧ funding_meta f = m.
Proof. unfold mk_funding_rate. intros H. inv_res. by subst. Qed.

Lemma mk_mark_price_event m p x :
  mk_mark_price m p = Ok x → event_valid (EMarkPrice x) ∧ mark_meta x = m.
Proof. unfold mk_mark_price, positive. intros H. inv_res. by subst. Qed.

Lemma mk_index_price_event m p x :
  mk_index_price m p = Ok x → event_valid (EIndexPrice x) ∧ index_meta x = m.
Proof. unfold mk_index_price, positive. intros H. inv_res. by subst. Qed.

Lemma mk_liquidation_event m id side p q cq l :
  mk_liquidation m id side p q cq = Ok l →
  event_valid (ELiquidation l) ∧ liquidation_meta l = m.
Proof. unfold mk_liquidation, positive. intros H. inv_res. by subst. Qed.

Lemma validate_health_event h h' :
  validate_health h = Ok h' → event_valid (EHealth h') ∧ h' = h.
Proof.
  unfold validate_health. intros H. inv_res. subst h'. split; [|done]. simpl.
  destruct (health_is_connected h), (health_resyncing h), (health_status h); simpl in *;
    intuition congruence.
Qed.

Definition example_meta : metadata :=
  {| exchange := OKX; symbol := "BTC-USDT-PERP"; exchange_timestamp := 0;
     local_receive_timestamp := 0; normalization_timestamp := 0;
     sequence_id := None; raw_payload_reference := None |}.
Definition lvl (p q : Z) : OrderBookLevel :=
  {| level_price := of_int p; level_quantity := of_int q |}.

Lemma mk_snapshot_valid_witness :
  ∃ s, mk_snapshot example_meta [lvl 10 1; lvl 9 2] [lvl 11 1] 2 None 0 = Ok s ∧
       StronglySorted price_gt (snapshot_bids s) ∧
       StronglySorted price_lt (snapshot_asks s) ∧
       (∀ b a, b ∈ snapshot_bids s → a ∈ snapshot_asks s → price_lt b a) ∧
       1 ≤ Z.of_nat (length (snapshot_bids s)) ≤ snapshot_depth s ∧
       1 ≤ Z.of_nat (length (snapshot_asks s)) ≤ snapshot_depth s.
Proof.
  eexists. split; [vm_compute; reflexivity|].
  apply (mk_snapshot_valid example_meta [lvl 10 1; lvl 9 2] [lvl 11 1] 2 None 0).
  vm_compute. reflexivity.
Defined.

(** ** Canonical symbols are fixed points *)

Lemma of_chars_chars s : of_chars (chars s) = s.
Proof. apply String.string_of_list_ascii_of_string. Qed.
Lemma chars_of_chars l : chars (of_chars l) = l.
Proof. apply String.list_ascii_of_string_of_list_ascii. Qed.

Lemma split_chars_forall sep P l :
  P sep → Forall (Forall P) (split_chars sep l) → Forall P l.
Proof.
  intros Hsep. induction l as [|c l IH]; simpl; [done|].
  destruct (Ascii.eqb_spec c sep) as [->|].
  - inversion 1; subst. constructor; auto.
  - destruct (split_chars sep l) as [|w ws]; inversion 1 as [|?? H1 H2]; subst;
      inversion H1; subst; constructor; auto.
Qed.

Definition symbol_char (c : ascii) : bool := is_code_char c || Ascii.eqb c "-".

Lemma is_code_forall l : is_code l = true → Forall (λ c, symbol_char c = true) l.
Proof.
  unfold is_code. intros [_ H]%andb_true_iff. rewrite forallb_forall in H.
  apply Forall_forall. intros c Hc%list_elem_of_In. unfold symbol_char. by rewrite H.
Qed.

Lemma canonical_chars s :
  canonical_perpetual s = true → Forall (λ c, symbol_char c = true) (chars s).
Proof.
  unfold canonical_perpetual. intros H. apply (split_chars_forall "-"); [done|].
  destruct (split_chars "-" (chars s)) as [|b [|q [|p [|]]]]; try done.
  apply andb_true_iff in H as [[Hb Hq]%andb_true_iff Hp%bool_decide_eq_true]. subst p.
  repeat constructor; by apply is_code_forall.
Qed.

(** No symbol character is white space or lower case: a check over the 256
    characters. *)
Lemma symbol_char_inert c :
  symbol_char c = true → is_space c = false ∧ upper_char c = c.
Proof. by destruct c as [[] [] [] [] [] [] [] []]; vm_compute. Qed.

Lemma drop_spaces_inert l : Forall (λ c, is_space c = false) l → drop_spaces l = l.
Proof. by destruct 1 as [|c l Hc]; simpl; [|rewrite Hc]. Qed.

Lemma strip_inert l : Forall (λ c, is_space c = false) l → strip_spaces l = l.
Proof.
  intros H. unfold strip_spaces. rewrite (drop_spaces_inert l), drop_spaces_inert by
    (try apply Forall_rev; done). apply rev_involutive.
Qed.

Lemma canonical_inert s : canonical_perpetual s = true → str_upper (str_strip s) = s.
Proof.
  intros H%canonical_chars.
  assert (Forall (λ c, is_space c = false) (chars s)) as Hs
    by (eapply Forall_impl; [exact H|]; intros c; apply symbol_char_inert).
  unfold str_upper, str_strip. rewrite chars_of_chars, strip_inert by done.
  assert (map upper_char (chars s) = chars s) as ->; [|apply of_chars_chars].
  clear Hs. induction H as [|c l Hc Hl IH]; simpl; [done|].
  f_equal; [by apply symbol_char_inert|done].
Qed.

Lemma validated_symbol_fixed value w sym :
  validate_canonical_symbol value w = Ok sym →
  (canonical_perpetual sym = true ∨ w = true ∧ sym = "*"%string) ∧
  validate_canonical_symbol sym w = Ok sym.
Proof.
  unfold validate_canonical_symbol.
  destruct (w && bool_decide (str_upper (str_strip value) = "*"%string)) eqn:E.
  - apply andb_true_iff in E as [-> E%bool_decide_eq_true]. intros [= <-]. rewrite E.
    split; [by right|]. done.
  - intros H. inv_res. subst sym. set (s := str_upper (str_strip value)) in *.
    split; [by left|]. by rewrite !canonical_inert, E, H.
Qed.

(** [validate_canonical_symbol] returns a symbol of the canonical form and
    is a projection: validating its result again returns it unchanged, so a
    normalized symbol survives every later model it is put in. *)
Theorem validate_canonical_symbol_idempotent value w sym :
  validate_canonical_symbol value w = Ok sym →
  (canonical_perpetual sym = true ∨ w = true ∧ sym = "*"%string) ∧
  validate_canonical_symbol sym w = Ok sym.
Proof. apply validated_symbol_fixed. Qed.

Lemma validate_canonical_symbol_idempotent_witness :
  validate_canonical_symbol " btc-usdt-perp " true = Ok "BTC-USDT-PERP"%string ∧
  validate_canonical_symbol "BTC-USDT-PERP" true = Ok "BTC-USDT-PERP"%string.
Proof.
  split; [vm_compute; reflexivity|].
  apply (validate_canonical_symbol_idempotent " btc-usdt-perp " true "BTC-USDT-PERP").
  vm_compute. reflexivity.
Defined.
