(* ===== verification/Clock.v ===== *)
(** * Deterministic clocks

    [clock/replay.py] (an event-time clock that never moves backwards) and
    [clock/scheduler.py] (the feature and signal boundaries).  A [timedelta] is
    its number of microseconds. *)

From S2P Require Import Prelude PyTime.

(** ** [ReplayClock] *)
Module ReplayClock.
Definition validated (d : datetime) : res Z :=
  as_utc "replay clock timestamps must be timezone-aware" d.

(** The state is [_current]. *)
Definition init (start : datetime) : res Z := validated start.
Definition now (current : Z) : Z := current.
Definition advance_to (current : Z) (target : datetime) : res Z :=
  normalized ← validated target;
  _ ← require (negb (normalized <? current))
        (ValueError "replay clock cannot move backwards");
  Ok normalized.
Definition sleep_until := advance_to.
End ReplayClock.

(** ** [DecisionScheduler] *)

Inductive TickKind := FEATURE | SIGNAL.
#[export] Instance TickKind_eq_dec : EqDecision TickKind.
Proof. solve_decision. Defined.

Record DecisionTick := { tick_timestamp : Z; tick_kind : TickKind }.
#[export] Instance DecisionTick_eq_dec : EqDecision DecisionTick.
Proof. solve_decision. Defined.

Record DecisionScheduler := {
  cursor : Z;
  feature_interval : Z;
  signal_interval : Z;
  next_feature : Z;
  next_signal : Z }.

Definition scheduler_utc (d : datetime) : res Z :=
  as_utc "scheduler timestamps must be timezone-aware" d.

Definition next_boundary (after interval : Z) : res Z :=
  _ ← require (1 <=? interval)
        (ValueError "scheduler intervals must be at least one microsecond");
  Ok ((after / interval + 1) * interval).

Definition scheduler_init (start : datetime) (fi si : Z) : res DecisionScheduler :=
  c ← scheduler_utc start;
  _ ← require (negb ((fi <=? 0) || (si <=? 0)))
        (ValueError "scheduler intervals must be positive");
  nf ← next_boundary c fi;
  ns ← next_boundary c si;
  Ok {| cursor := c; feature_interval := fi; signal_interval := si;
        next_feature := nf; next_signal := ns |}.

Definition has_due_tick (s : DecisionScheduler) (target : datetime) : res bool :=
  e ← scheduler_utc target;
  _ ← require (negb (e <? cursor s))
        (ValueError "decision scheduler cannot move backwards");
  Ok (Z.min (next_feature s) (next_signal s) <=? e).

(** The body of the [while] loop at one due boundary. *)
Definition emit_boundary (s : DecisionScheduler) : DecisionScheduler * list DecisionTick :=
  let boundary := Z.min (next_feature s) (next_signal s) in
  let due_f := next_feature s =? boundary in
  let due_s := next_signal s =? boundary in
  ({| cursor := cursor s; feature_interval := feature_interval s;
      signal_interval := signal_interval s;
      next_feature := if due_f then next_feature s + feature_interval s else next_feature s;
      next_signal := if due_s then next_signal s + signal_interval s else next_signal s |},
   (if due_f then [{| tick_timestamp := boundary; tick_kind := FEATURE |}] else []) ++
   (if due_s then [{| tick_timestamp := boundary; tick_kind := SIGNAL |}] else [])).

Fixpoint advance_loop (fuel : nat) (s : DecisionScheduler) (e : Z)
    : DecisionScheduler * list DecisionTick :=
  match fuel with
  | O => (s, [])
  | S fuel =>
    if e <? Z.min (next_feature s) (next_signal s) then (s, [])
    else
      let '(s1, t1) := emit_boundary s in
      let '(s2, t2) := advance_loop fuel s1 e in
      (s2, t1 ++ t2)
  end.

(** How many boundaries of one kind are due. *)
Definition due_count (next interval e : Z) : Z :=
  if e <? next then 0 else (e - next) / interval + 1.

Definition advance_fuel (s : DecisionScheduler) (e : Z) : nat :=
  Z.to_nat (due_count (next_feature s) (feature_interval s) e +
            due_count (next_signal s) (signal_interval s) e).

Definition scheduler_advance_to (s : DecisionScheduler) (target : datetime)
    : res (DecisionScheduler * list DecisionTick) :=
  e ← scheduler_utc target;
  _ ← require (negb (e <? cursor s))
        (ValueError "decision scheduler cannot move backwards");
  let '(s', ticks) := advance_loop (S (advance_fuel s e)) s e in
  Ok ({| cursor := e; feature_interval := feature_interval s';
         signal_interval := signal_interval s';
         next_feature := next_feature s'; next_signal := next_signal s' |}, ticks).

(** ** Specification *)

(** Feature and signal ticks of one timestamp: feature first. *)
Definition tick_before (a b : DecisionTick) : Prop :=
  tick_timestamp a < tick_timestamp b ∨
  tick_timestamp a = tick_timestamp b ∧ tick_kind a = FEATURE ∧ tick_kind b = SIGNAL.

Definition interval_of (s : DecisionScheduler) (k : TickKind) : Z :=
  match k with FEATURE => feature_interval s | SIGNAL => signal_interval s end.
Definition next_of (s : DecisionScheduler) (k : TickKind) : Z :=
  match k with FEATURE => next_feature s | SIGNAL => next_signal s end.

(** [n] is the first multiple of [i] after [c]. *)
Definition first_after (c i n : Z) : Prop := (i | n) ∧ c < n ≤ c + i.

Definition scheduler_wf (s : DecisionScheduler) : Prop :=
  ∀ k, 0 < interval_of s k ∧ first_after (cursor s) (interval_of s k) (next_of s k).

(** The ticks a half-open span of time must produce. *)
Definition due_tick (s : DecisionScheduler) (a b : Z) (t : DecisionTick) : Prop :=
  a < tick_timestamp t ≤ b ∧ (interval_of s (tick_kind t) | tick_timestamp t).

Lemma first_after_unique c i n m : 0 < i → first_after c i n → first_after c i m → n = m.
Proof.
  intros Hi [[p ->] Hp] [[q ->] Hq].
  assert (p = q); [|by subst]. assert (¬ p < q) by nia. assert (¬ q < p) by nia. lia.
Qed.

Lemma next_boundary_first c i n : next_boundary c i = Ok n → 0 < i ∧ first_after c i n.
Proof.
  unfold next_boundary. intros H. inv_res. subst n. case_cmp. split; [lia|].
  split; [by exists (c / i + 1)|].
  pose proof (Z.div_mod c i ltac:(lia)). pose proof (Z.mod_pos_bound c i ltac:(lia)). lia.
Qed.

Lemma scheduler_init_wf start fi si s : scheduler_init start fi si = Ok s → scheduler_wf s.
Proof.
  unfold scheduler_init. intros H. inv_res. subst s.
  intros []; simpl; by eapply next_boundary_first.
Qed.

Lemma due_count_nonneg n i e : 0 < i → 0 ≤ due_count n i e.
Proof.
  intros. unfold due_count. case_cmp; [lia|].
  assert (0 ≤ (e - n) / i) by (apply Z.div_pos; lia). lia.
Qed.

Lemma due_count_step n i e : 0 < i → n ≤ e → due_count (n + i) i e = due_count n i e - 1.
Proof.
  intros. unfold due_count. rewrite (proj2 (Z.ltb_ge e n)) by lia.
  destruct (Z.ltb_spec e (n + i)).
  - rewrite Z.div_small by lia. lia.
  - replace (e - (n + i)) with (e - n + (-1) * i) by lia. rewrite Z.div_add by lia. lia.
Qed.

Lemma divide_between i n t : 0 < i → (i | n) → (i | t) → n ≤ t → t = n ∨ n + i ≤ t.
Proof. intros Hi [p ->] [q ->] H. assert (p = q ∨ p < q) as [->|] by nia; [by left|right; nia]. Qed.

Section loop.
Context (e : Z).

Definition loop_inv (s : DecisionScheduler) : Prop :=
  ∀ k, 0 < interval_of s k ∧ (interval_of s k | next_of s k).

(** What the loop emits and where it stops. *)
Definition loop_post (s s' : DecisionScheduler) (ticks : list DecisionTick) : Prop :=
  StronglySorted tick_before ticks ∧
  (∀ t, t ∈ ticks ↔ (interval_of s (tick_kind t) | tick_timestamp t) ∧
                    next_of s (tick_kind t) ≤ tick_timestamp t ≤ e) ∧
  (∀ k, interval_of s' k = interval_of s k ∧ (interval_of s k | next_of s' k) ∧
        e < next_of s' k ∧
        (next_of s' k = next_of s k ∨ next_of s' k ≤ e + interval_of s k)).

Lemma emit_boundary_spec s s1 t1 :
  loop_inv s → Z.min (next_feature s) (next_signal s) ≤ e →
  emit_boundary s = (s1, t1) →
  loop_inv s1 ∧ (advance_fuel s1 e < advance_fuel s e)%nat ∧
  StronglySorted tick_before t1 ∧
  (∀ t, t ∈ t1 → tick_timestamp t = Z.min (next_feature s) (next_signal s)) ∧
  (∀ t, t ∈ t1 ↔ tick_timestamp t = next_of s (tick_kind t) ∧
                 next_of s (tick_kind t) = Z.min (next_feature s) (next_signal s)) ∧
  (∀ k, interval_of s1 k = interval_of s k ∧
        (next_of s k = Z.min (next_feature s) (next_signal s) ∧
           next_of s1 k = next_of s k + interval_of s k ∨
         Z.min (next_feature s) (next_signal s) < next_of s k ∧
           next_of s1 k = next_of s k)).
Proof.
  intros Hinv Hdue [= <- <-].
  destruct (Hinv FEATURE) as [Hfi Hfd], (Hinv SIGNAL) as [Hsi Hsd]. simpl in Hfi, Hfd, Hsi, Hsd.
  set (b := Z.min (next_feature s) (next_signal s)) in *.
  pose proof (due_count_nonneg (next_feature s) _ e Hfi).
  pose proof (due_count_nonneg (next_signal s) _ e Hsi).
  assert (∀ k, k = FEATURE ∨ k = SIGNAL) as Hk by (intros []; auto).
  split_and!.
  - intros []; simpl; (split; [done|]); destruct (_ =? b); try done;
      (apply Z.divide_add_r; [done|apply Z.divide_refl]).
  - unfold advance_fuel. simpl.
    destruct (Z.eqb_spec (next_feature s) b) as [Hf|Hf],
      (Z.eqb_spec (next_signal s) b) as [Hs|Hs]; rewrite ?due_count_step by lia;
      try (exfalso; lia); apply Z2Nat.inj_lt; try lia;
      pose proof (due_count_nonneg (next_feature s + feature_interval s) _ e Hfi) as H1;
      pose proof (due_count_nonneg (next_signal s + signal_interval s) _ e Hsi) as H2;
      rewrite ?due_count_step in H1 by lia; rewrite ?due_count_step in H2 by lia; lia.
  - destruct (_ =? b), (_ =? b); simpl; [|repeat constructor..].
    constructor; [repeat constructor|]. constructor; [by right|constructor].
  - intros t. destruct (_ =? b), (_ =? b); simpl; rewrite ?elem_of_cons, elem_of_nil;
      intros; destruct_or?; by simplify_eq.
  - intros [t []]; destruct (Z.eqb_spec (next_feature s) b), (Z.eqb_spec (next_signal s) b);
      simpl; rewrite ?elem_of_cons, elem_of_nil; simpl;
      (split; [intros; destruct_or?; simplify_eq; split; congruence|intros [-> ?]]);
      first [left; congruence|right; left; congruence|congruence].
  - intros []; simpl; (split; [done|]).
    + destruct (Z.eqb_spec (next_feature s) b); [by left|right; lia].
    + destruct (Z.eqb_spec (next_signal s) b); [by left|right; lia].
Qed.

Lemma advance_loop_spec fuel s s' ticks :
  loop_inv s → (advance_fuel s e < fuel)%nat →
  advance_loop fuel s e = (s', ticks) → loop_post s s' ticks.
Proof.
  revert s s' ticks. induction fuel as [|fuel IH]; intros s s' ticks Hinv Hfuel; [lia|].
  cbn [advance_loop].
  destruct (Z.ltb_spec e (Z.min (next_feature s) (next_signal s))) as [Hlt|Hge].
  - intros [= <- <-]. split_and!; [constructor| |].
    + intros t. rewrite elem_of_nil. split; [done|]. intros [_ ?].
      destruct (tick_kind t); simpl in *; lia.
    + intros []; destruct (Hinv FEATURE), (Hinv SIGNAL); simpl in *;
        split_and!; auto; lia.
  - destruct (emit_boundary s) as [s1 t1] eqn:E1.
    destruct (emit_boundary_spec s s1 t1 Hinv Hge E1)
      as (Hinv1 & Hf & Hs1 & Hb1 & Hmem1 & Hnext).
    destruct (advance_loop fuel s1 e) as [s2 t2] eqn:E2. intros [= <- <-].
    destruct (IH s1 s2 t2 Hinv1 ltac:(lia) E2) as (Hs2 & Hmem2 & Hpost2).
    split_and!.
    + apply StronglySorted_app; [done|done|]. intros x y Hx Hy. left.
      apply Hb1 in Hx. apply Hmem2 in Hy as [_ [Hy _]].
      destruct (Hnext (tick_kind y)) as [_ Hn], (Hinv (tick_kind y)). lia.
    + intros t. rewrite elem_of_app, Hmem1, Hmem2.
      destruct (Hnext (tick_kind t)) as [-> Hn], (Hinv (tick_kind t)) as [Hi Hd].
      split.
      * intros [[-> ?]|[? ?]]; (split; [done|lia]).
      * intros [Hd2 Hr].
        destruct (divide_between _ _ _ Hi Hd Hd2) as [Heq|]; [lia| |]; [|right; split; [done|lia]].
        destruct Hn as [[Hn _]|[_ ->]]; [left; by split|right; split; [done|lia]].
    + intros k. destruct (Hpost2 k) as (H1 & H2 & H3 & H4).
      destruct (Hnext k) as [Hi Hn]. rewrite Hi in *. split_and!; [done|done|done|lia].
Qed.

(** More fuel changes nothing: the loop ends by its own test. *)
Lemma advance_loop_more fuel fuel' s :
  loop_inv s → (advance_fuel s e < fuel ≤ fuel')%nat → advance_loop fuel' s e = advance_loop fuel s e.
Proof.
  revert fuel' s. induction fuel as [|fuel IH]; intros [|fuel'] s Hinv Hf; [lia|lia|lia|].
  cbn [advance_loop]. destruct (Z.ltb_spec e (Z.min (next_feature s) (next_signal s))) as [Hlt|Hge]; [done|].
  destruct (emit_boundary s) as [s1 t1] eqn:E1.
  destruct (emit_boundary_spec s s1 t1 Hinv Hge E1) as (Hinv1 & Hf1 & _).
  by rewrite (IH fuel' s1) by (done || lia).
Qed.
End loop.

Lemma scheduler_utc_utc us : scheduler_utc (utc us) = Ok us.
Proof. apply as_utc_utc. Qed.

Lemma tick_before_asym x y : tick_before x y → tick_before y x → False.
Proof. unfold tick_before. intros [|(? & ? & ?)] [|(? & ? & ?)]; try lia; congruence. Qed.

Lemma scheduler_advance_facts s target e s' ticks :
  scheduler_wf s → scheduler_utc target = Ok e →
  scheduler_advance_to s target = Ok (s', ticks) →
  cursor s ≤ e ∧ cursor s' = e ∧ scheduler_wf s' ∧
  StronglySorted tick_before ticks ∧
  (∀ t, t ∈ ticks ↔ due_tick s (cursor s) e t).
Proof.
  intros Hwf He. unfold scheduler_advance_to. rewrite He. cbn [mbind res_bind]. intros H.
  inv_res. match goal with H : negb _ = true |- _ => apply negb_true_iff, Z.ltb_ge in H end.
  destruct (advance_loop _ s e) as [s1 ticks1] eqn:E.
  assert (loop_inv s) as Hinv by (intros k; destruct (Hwf k) as (? & ? & ?); done).
  apply (advance_loop_spec e) in E as (Hsorted & Hmem & Hpost); [|done|lia].
  inv_res. simplify_eq. simpl. split_and!; [done|done| |done|].
  - intros k. destruct (Hwf k) as (Hi & _ & Hn), (Hpost k) as (Hi' & Hd & Hlt & Hle).
    assert (interval_of s1 k = interval_of {| cursor := e;
      feature_interval := feature_interval s1; signal_interval := signal_interval s1;
      next_feature := next_feature s1; next_signal := next_signal s1 |} k) as <- by (by destruct k).
    assert (next_of s1 k = next_of {| cursor := e;
      feature_interval := feature_interval s1; signal_interval := signal_interval s1;
      next_feature := next_feature s1; next_signal := next_signal s1 |} k) as <- by (by destruct k).
    rewrite Hi'. split; [done|]. split; [done|]. simpl. lia.
  - intros t. rewrite Hmem. unfold due_tick. destruct (Hwf (tick_kind t)) as (Hi & Hd & Hn).
    split; [intros [? ?]; split; [lia|done]|]. intros [Hr Hd2]. split; [done|].
    split; [|lia]. destruct Hd as [p Hp], Hd2 as [q Hq]. rewrite Hp, Hq in *.
    assert (¬ q < p) by nia. nia.
Qed.

Lemma advance_loop_intervals fuel s e s' ticks k :
  advance_loop fuel s e = (s', ticks) → interval_of s' k = interval_of s k.
Proof.
  revert s s' ticks. induction fuel as [|fuel IH]; intros s s' ticks; [by intros [= <- <-]|].
  cbn [advance_loop]. destruct (e <? _); [by intros [= <- <-]|].
  destruct (emit_boundary s) as [s1 t1] eqn:E1. destruct (advance_loop fuel s1 e) as [s2 t2] eqn:E2.
  intros [= <- <-]. rewrite (IH _ _ _ E2). injection E1 as <- <-. by destruct k.
Qed.

Lemma scheduler_advance_intervals s target s' ticks :
  scheduler_advance_to s target = Ok (s', ticks) →
  ∀ k, interval_of s' k = interval_of s k.
Proof.
  unfold scheduler_advance_to. intros H k. inv_res.
  destruct (advance_loop _ s _) as [s1 ticks1] eqn:E. inv_res. simplify_eq.
  rewrite <- (advance_loop_intervals _ _ _ _ _ k E). by destruct k.
Qed.

Lemma scheduler_ext s s' :
  cursor s = cursor s' → (∀ k, interval_of s k = interval_of s' k) →
  scheduler_wf s → scheduler_wf s' → s = s'.
Proof.
  intros Hc Hi Hw Hw'.
  assert (∀ k, next_of s k = next_of s' k) as Hn.
  { intros k. destruct (Hw k) as [Hp H1], (Hw' k) as [_ H2].
    rewrite <- Hc, <- Hi in H2. by apply (first_after_unique _ _ _ _ Hp H1). }
  pose proof (Hi FEATURE). pose proof (Hi SIGNAL). pose proof (Hn FEATURE).
  pose proof (Hn SIGNAL). destruct s, s'; simpl in *; congruence.
Qed.

Lemma scheduler_advance_total s target e :
  scheduler_wf s → scheduler_utc target = Ok e → cursor s ≤ e →
  ∃ s' ticks, scheduler_advance_to s target = Ok (s', ticks).
Proof.
  intros Hwf He Hle. unfold scheduler_advance_to. rewrite He. cbn [mbind res_bind].
  rewrite (proj2 (Z.ltb_ge e (cursor s))) by done. cbn [negb require mbind res_bind].
  destruct (advance_loop (S (advance_fuel s e)) s e). eauto.
Qed.

(** C38.  [DecisionScheduler.advance_to] raises exactly for a target before the cursor.
    Otherwise it returns: the loop ends by its own test, within one round per due
    boundary, so that any more fuel changes nothing. It then has emitted, in strict
    timestamp order and feature before signal at equal times, exactly the boundaries in
    [(cursor, target]]: the multiples, counted from the epoch, of each interval; it
    leaves the cursor at the target and its next boundaries the first ones after it. *)
Theorem scheduler_advance_exact s target e :
  scheduler_wf s → scheduler_utc target = Ok e →
  if e <? cursor s then
    scheduler_advance_to s target = Err (ValueError "decision scheduler cannot move backwards")
  else
    ∃ s' ticks, scheduler_advance_to s target = Ok (s', ticks) ∧
      (∀ fuel, (advance_fuel s e < fuel)%nat → (advance_loop fuel s e).2 = ticks) ∧
      cursor s' = e ∧ scheduler_wf s' ∧ StronglySorted tick_before ticks ∧
      (∀ t, t ∈ ticks ↔ due_tick s (cursor s) e t).
Proof.
  intros Hwf He. destruct (Z.ltb_spec e (cursor s)) as [Hlt|Hle].
  - unfold scheduler_advance_to. rewrite He. cbn [mbind res_bind]. by rewrite (proj2 (Z.ltb_lt e (cursor s))).
  - destruct (scheduler_advance_total s target e Hwf He Hle) as (s' & ticks & E).
    exists s', ticks. destruct (scheduler_advance_facts s target e s' ticks Hwf He E) as (_ & ? & ? & ? & ?).
    split; [done|]. split; [|done]. intros fuel Hf.
    rewrite (advance_loop_more e (S (advance_fuel s e)) fuel) by (lia || by intros k; destruct (Hwf k) as (? & ? & ?)).
    unfold scheduler_advance_to in E. rewrite He in E. cbn [mbind res_bind] in E. inv_res.
    destruct (advance_loop (S (advance_fuel s e)) s e). inv_res. by simplify_eq.
Qed.

Definition example_scheduler : DecisionScheduler :=
  {| cursor := 0; feature_interval := 2; signal_interval := 5;
     next_feature := 2; next_signal := 5 |}.

Lemma example_scheduler_wf : scheduler_wf example_scheduler.
Proof. by apply (scheduler_init_wf (utc 0) 2 5). Qed.

Lemma scheduler_advance_exact_witness :
  ∃ s' ticks, scheduler_advance_to example_scheduler (utc 11) = Ok (s', ticks) ∧
    map tick_timestamp ticks = [2; 4; 5; 6; 8; 10; 10] ∧ cursor s' = 11 ∧ scheduler_wf s' ∧
    StronglySorted tick_before ticks ∧
    (∀ t, t ∈ ticks ↔ due_tick example_scheduler (cursor example_scheduler) 11 t).
Proof.
  destruct (scheduler_advance_exact example_scheduler (utc 11) 11 example_scheduler_wf eq_refl)
    as (s' & ticks & E & Hfuel & Hrest).
  exists s', ticks. split; [exact E|]. split; [|exact Hrest].
  specialize (Hfuel 20%nat ltac:(vm_compute; lia)). by subst ticks.
Defined.

(**  Catching up in two steps or in one is the same: the ticks of
    [advance_to a] followed by those of [advance_to b] are those of a single
    [advance_to b], and the scheduler ends in the same state.  This is what
    makes the decision boundaries independent of how live and replay batch their
    calls. *)
Theorem scheduler_advance_compose s a b s1 t1 s2 t2 :
  scheduler_wf s →
  scheduler_advance_to s (utc a) = Ok (s1, t1) →
  scheduler_advance_to s1 (utc b) = Ok (s2, t2) →
  scheduler_advance_to s (utc b) = Ok (s2, t1 ++ t2).
Proof.
  intros Hwf E1 E2.
  pose proof (scheduler_advance_intervals _ _ _ _ E1) as Hi1.
  pose proof (scheduler_advance_intervals _ _ _ _ E2) as Hi2.
  destruct (scheduler_advance_facts s (utc a) a s1 t1 Hwf (scheduler_utc_utc a) E1)
    as (Hle1 & Hc1 & Hwf1 & Hs1 & Hm1).
  destruct (scheduler_advance_facts s1 (utc b) b s2 t2 Hwf1 (scheduler_utc_utc b) E2)
    as (Hle2 & Hc2 & Hwf2 & Hs2 & Hm2).
  destruct (scheduler_advance_to s (utc b)) as [[s3 t3]|] eqn:E3.
  2: { unfold scheduler_advance_to in E3. rewrite scheduler_utc_utc in E3.
       cbn [mbind res_bind] in E3. rewrite (proj2 (Z.ltb_ge b (cursor s))) in E3 by lia.
       cbn [negb require mbind res_bind] in E3. by destruct (advance_loop _ s b). }
  pose proof (scheduler_advance_intervals _ _ _ _ E3) as Hi3.
  destruct (scheduler_advance_facts s (utc b) b s3 t3 Hwf (scheduler_utc_utc b) E3)
    as (Hle3 & Hc3 & Hwf3 & Hs3 & Hm3).
  f_equal. f_equal.
  - apply scheduler_ext; [congruence|intros k; by rewrite Hi3, Hi2, Hi1|done|done].
  - apply (StronglySorted_ext tick_before); [exact tick_before_asym|done| |].
    + apply StronglySorted_app; [done|done|]. intros x y Hx Hy. left.
      apply Hm1 in Hx as [Hx _]. apply Hm2 in Hy as [Hy _]. lia.
    + intros t. rewrite elem_of_app, Hm1, Hm2, Hm3. unfold due_tick. rewrite Hi1, Hc1.
      clear - Hle1 Hle2 Hc1. destruct (Z.le_gt_cases (tick_timestamp t) a); intuition lia.
Qed.

Lemma scheduler_advance_compose_witness :
  ∃ s1 t1 s2 t2, scheduler_advance_to example_scheduler (utc 5) = Ok (s1, t1) ∧
    scheduler_advance_to s1 (utc 11) = Ok (s2, t2) ∧
    scheduler_advance_to example_scheduler (utc 11) = Ok (s2, t1 ++ t2).
Proof.
  do 4 eexists. split; [vm_compute; reflexivity|]. split; [vm_compute; reflexivity|].
  eapply (scheduler_advance_compose example_scheduler 5 11);
    [exact example_scheduler_wf|vm_compute; reflexivity|vm_compute; reflexivity].
Defined.
