(* ===== verification/Dedup.v ===== *)
(** * Bounded time-to-live deduplication

    [exchanges/deduplication.py].  The state is an [OrderedDict] from identities
    to the time they were last seen, oldest first, and the last clock reading.
    Times are exact numbers here; the code's are floats on which it only takes
    one subtraction. *)

From S2P Require Import Prelude.

Section dedup.
Context {I : Type} `{EqDecision I}.

Record deduplicator := {
  capacity : Z;
  ttl : Z;
  entries : list (I * Z);
  last_now : option Z }.

Definition dedup_init (cap ttl_seconds : Z) : res deduplicator :=
  _ ← require (negb (cap <? 1)) (ValueError "capacity must be positive");
  _ ← require (negb (ttl_seconds <=? 0)) (ValueError "ttl_seconds must be positive");
  Ok {| capacity := cap; ttl := ttl_seconds; entries := []; last_now := None |}.

Definition set_entries (s : deduplicator) (e : list (I * Z)) : deduplicator :=
  {| capacity := capacity s; ttl := ttl s; entries := e; last_now := last_now s |}.

Definition dedup_clear (s : deduplicator) : deduplicator :=
  {| capacity := capacity s; ttl := ttl s; entries := []; last_now := None |}.

Definition dedup_size (s : deduplicator) : nat := length (entries s).

(** [_validated_now], with the reading of the clock as argument. *)
Definition validated_now (s : deduplicator) (now : Z) : res (deduplicator * Z) :=
  _ ← require (match last_now s with None => true | Some l => negb (now <? l) end)
        (ValueError "monotonic time cannot move backwards");
  Ok ({| capacity := capacity s; ttl := ttl s; entries := entries s;
         last_now := Some now |}, now).

(** [_expire]: [popitem(last=False)] while the oldest entry is out of date. *)
Fixpoint expire (ttl now : Z) (e : list (I * Z)) : list (I * Z) :=
  match e with
  | (i, seen) :: e' => if now - seen <? ttl then e else expire ttl now e'
  | [] => []
  end.

(** [entries[i] = now; entries.move_to_end(i)]. *)
Definition refresh (i : I) (now : Z) (e : list (I * Z)) : list (I * Z) :=
  dict_pop i e ++ [(i, now)].

Definition seen_or_add (s : deduplicator) (i : I) (now : Z) : res (bool * deduplicator) :=
  '(s, current) ← validated_now s now;
  let e := expire (ttl s) current (entries s) in
  match dict_get i e with
  | Some _ => Ok (true, set_entries s (refresh i current e))
  | None =>
    let e := dict_set i current e in
    let e := if capacity s <? Z.of_nat (length e) then tail e else e in
    Ok (false, set_entries s e)
  end.

(** A session: one answer per call, each with its reading of the clock. *)
Fixpoint seen_run (s : deduplicator) (calls : list (I * Z)) : res (list bool * deduplicator) :=
  match calls with
  | [] => Ok ([], s)
  | (i, now) :: calls =>
    '(b, s) ← seen_or_add s i now;
    '(bs, s) ← seen_run s calls;
    Ok (b :: bs, s)
  end.

(** ** Specification

    The unbounded history: every identity ever seen, once, in the order of its
    last sight.  The deduplicator promises to answer from the [capacity] most
    recent identities of it, those out of date forgotten. *)
Definition fresh (ttl now : Z) (x : I * Z) : Prop := now - x.2 < ttl.
#[local] Instance fresh_dec ttl now x : Decision (fresh ttl now x).
Proof. unfold fresh. apply _. Defined.

Definition remembered (cap : nat) (ttl now : Z) (history : list (I * Z)) : list (I * Z) :=
  filter (fresh ttl now) (lastn cap history).

Definition spec_seen (cap : nat) (ttl : Z) (history : list (I * Z)) (i : I) (now : Z) : bool :=
  bool_decide (is_Some (dict_get i (remembered cap ttl now history))).

Fixpoint spec_run (cap : nat) (ttl : Z) (history calls : list (I * Z)) : list bool :=
  match calls with
  | [] => []
  | (i, now) :: calls =>
    spec_seen cap ttl history i now :: spec_run cap ttl (refresh i now history) calls
  end.

Definition seen_order (a b : I * Z) : Prop := a.2 ≤ b.2.

(** The state holds what the history says it must. *)
Record dedup_refines (s : deduplicator) (history : list (I * Z)) : Prop := {
  ref_capacity : 1 ≤ capacity s;
  ref_ttl : 0 < ttl s;
  ref_keys : dict_wf history;
  ref_sorted : StronglySorted seen_order history;
  ref_past : ∀ x, x ∈ history → ∃ l, last_now s = Some l ∧ x.2 ≤ l;
  ref_entries : ∀ now, (∀ l, last_now s = Some l → l ≤ now) →
    expire (ttl s) now (entries s) =
    remembered (Z.to_nat (capacity s)) (ttl s) now history;
  ref_size : Z.of_nat (length (entries s)) ≤ capacity s }.

Lemma expire_filter ttl now e :
  StronglySorted seen_order e → expire ttl now e = filter (fresh ttl now) e.
Proof.
  induction 1 as [|[i t] e Hs IH Hall]; [done|]. simpl. rewrite filter_cons.
  destruct (Z.ltb_spec (now - t) ttl) as [Hlt|Hge].
  - rewrite decide_True by done. f_equal. symmetry. apply list_filter_all.
    rewrite Forall_forall in *. intros x Hx%Hall. unfold fresh, seen_order in *. simpl in *. lia.
  - by rewrite decide_False by (unfold fresh; simpl; lia).
Qed.

Lemma refresh_wf i now e :
  dict_wf e → StronglySorted seen_order e → (∀ x, x ∈ e → x.2 ≤ now) →
  dict_wf (refresh i now e) ∧ StronglySorted seen_order (refresh i now e).
Proof.
  intros Hk Hs Hp. unfold refresh.
  pose proof (dict_pop_sublist i e) as Hsub. split.
  - apply dict_wf_snoc; [by apply dict_wf_pop|].
    by rewrite dict_get_pop_eq by (done || apply pyeq_refl).
  - apply StronglySorted_app; [by eapply StronglySorted_sublist|repeat constructor|].
    intros x y Hx ->%list_elem_of_singleton. apply Hp. by eapply elem_of_sublist.
Qed.

Lemma dict_pop_app i (a b : list (I * Z)) :
  dict_pop i (a ++ b) =
  if dict_get i a is Some _ then dict_pop i a ++ b else a ++ dict_pop i b.
Proof.
  induction a as [|[k v] a IH]; simpl; [done|]. destruct (pyeq i k); [done|].
  rewrite IH. by destruct (dict_get i a).
Qed.

Lemma dict_wf_app_None i (a b : list (I * Z)) :
  dict_wf (a ++ b) → is_Some (dict_get i b) → dict_get i a = None.
Proof.
  intros Hwf [u (k' & Hin & E')%dict_get_elem].
  induction a as [|[k v] a IH]; [done|]. simpl in *. destruct Hwf as [Hk Hwf].
  destruct (pyeq i k) eqn:E; [|by apply IH]. exfalso.
  rewrite <- (dict_get_eqkey i k), dict_get_None_elem in Hk by done.
  rewrite (Hk k' u) in E'; [done|]. apply elem_of_app. by right.
Qed.

Lemma filter_pop_None P `{∀ x, Decision (P x)} i (e : list (I * Z)) :
  dict_get i (filter P e) = None → filter P (dict_pop i e) = filter P e.
Proof.
  induction e as [|[k v] e IH]; simpl; [done|]. rewrite !filter_cons.
  case_decide as E; simpl; destruct (pyeq i k) eqn:Ek; try done;
    rewrite ?filter_cons, ?decide_True, ?decide_False by done; [|auto].
  intros. f_equal; auto.
Qed.

Lemma filter_pop P `{∀ x, Decision (P x)} i (e : list (I * Z)) :
  dict_wf e → is_Some (dict_get i (filter P e)) →
  dict_pop i (filter P e) = filter P (dict_pop i e).
Proof.
  induction e as [|[k v] e IH]; simpl; [done|]. intros [Hk Hwf]. rewrite filter_cons.
  case_decide as E; simpl; destruct (pyeq i k) eqn:Ek; simpl; rewrite ?filter_cons;
    [done|rewrite decide_True by done; intros; f_equal; auto| |
     rewrite decide_False by done; auto].
  intros [t (k' & Hin & E')%dict_get_elem]. apply list_elem_of_filter in Hin as [_ Hin].
  rewrite dict_get_None_elem in Hk. rewrite (pyeq_rewrite i k) in E' by done.
  by rewrite (Hk _ _ Hin) in E'.
Qed.

(** The identities recent enough to matter are a suffix of the history, and
    those of them still fresh are a suffix of that. *)
Lemma remembered_hit cap ttl now i t h :
  dict_wf h → StronglySorted seen_order h → 0 < ttl →
  dict_get i (remembered cap ttl now h) = Some t →
  refresh i now (remembered cap ttl now h) = remembered cap ttl now (refresh i now h).
Proof.
  intros Hwf Hs Httl Hget. unfold remembered in *.
  destruct (lastn_split cap h) as (pre & Hh & Hlen).
  set (suf := lastn cap h) in *. clearbody suf. subst h.
  assert (is_Some (dict_get i suf)) as [u Hu].
  { apply dict_get_elem in Hget as (k & Hk & E).
    apply list_elem_of_filter in Hk as [_ Hk].
    destruct (dict_get i suf) eqn:En; [done|].
    rewrite dict_get_None_elem in En. rewrite (En _ _ Hk) in E. done. }
  pose proof (dict_wf_app_None i pre suf Hwf ltac:(eauto)) as Hpre.
  unfold refresh. rewrite dict_pop_app, Hpre, <- app_assoc.
  pose proof (dict_pop_length i suf ltac:(eauto)) as Hpl.
  rewrite lastn_app by (rewrite length_app; simpl; destruct Hlen as [|[-> ?]]; [left; lia|right; split; [done|lia]]).
  rewrite filter_app. f_equal.
  - apply filter_pop; [|by eauto]. eapply dict_wf_sublist, Hwf. by apply sublist_inserts_l.
  - symmetry. apply list_filter_all. repeat constructor. unfold fresh. simpl. lia.
Qed.

Lemma remembered_miss cap ttl now i h :
  dict_wf h → StronglySorted seen_order h → 0 < ttl → (1 ≤ cap)%nat →
  dict_get i (remembered cap ttl now h) = None →
  let e := remembered cap ttl now h ++ [(i, now)] in
  (if (cap <? length e)%nat then tail e else e) = remembered cap ttl now (refresh i now h).
Proof.
  intros Hwf Hs Httl Hcap Hget. unfold remembered in *.
  destruct (lastn_split cap h) as (pre & Hh & Hlen).
  set (suf := lastn cap h) in *. clearbody suf. subst h. cbn zeta.
  apply StronglySorted_app_inv in Hs as (_ & Hs & _).
  assert (filter (fresh ttl now) [(i, now)] = [(i, now)]) as Hx.
  { apply list_filter_all. repeat constructor. unfold fresh. simpl. lia. }
  pose proof (length_filter (fresh ttl now) suf) as Hf.
  rewrite length_app. cbn [length]. unfold refresh. rewrite dict_pop_app.
  destruct (dict_get i suf) as [u|] eqn:Hu.
  - rewrite (dict_wf_app_None i pre suf Hwf), <- app_assoc by eauto.
    pose proof (dict_pop_length i suf ltac:(eauto)) as Hpl.
    rewrite lastn_app by (rewrite length_app; simpl; destruct Hlen as [|[-> ?]];
      [left; lia|right; split; [done|lia]]).
    pose proof (length_filter (fresh ttl now) (dict_pop i suf)) as Hf'.
    rewrite filter_app, Hx. rewrite filter_pop_None in * by done.
    destruct (Nat.ltb_spec cap (length (filter (fresh ttl now) suf) + 1)); [lia|done].
  - set (pre' := if dict_get i pre is Some _ then _ else _).
    assert (∃ p, pre' ++ [(i, now)] = p ++ suf ++ [(i, now)] ∧
      (pre = [] → p = [])) as (p & -> & Hp).
    { subst pre'. destruct (dict_get i pre) eqn:E; [exists (dict_pop i pre)|exists pre];
        rewrite <- app_assoc; (split; [|by intros ->]); [done|].
      by rewrite (dict_pop_None i suf). }
    destruct Hlen as [Hlen|[-> Hlen]].
    + destruct suf as [|y suf]; simpl in Hlen; [lia|].
      replace (p ++ (y :: suf) ++ [(i, now)]) with ((p ++ [y]) ++ suf ++ [(i, now)])
        by by rewrite <- app_assoc.
      rewrite lastn_app by (left; rewrite length_app; simpl; lia).
      rewrite filter_app, Hx. inversion Hs as [|?? Hs' Hall]; subst.
      destruct (decide (fresh ttl now y)) as [Hy|Hy].
      * assert (Forall (fresh ttl now) suf).
        { rewrite Forall_forall in *. intros z Hz%Hall. unfold fresh, seen_order in *. lia. }
        rewrite (list_filter_all _ (y :: suf)), (list_filter_all _ suf) by auto. simpl.
        by destruct (Nat.ltb_spec (S (length suf)) (S (length suf + 1))); [|lia].
      * rewrite filter_cons_False in * by done.
        pose proof (length_filter (fresh ttl now) suf).
        by destruct (Nat.ltb_spec (S (length suf)) (length (filter (fresh ttl now) suf) + 1)); [lia|].
    + rewrite Hp, lastn_app, filter_app, Hx
        by (done || (right; rewrite length_app; simpl; split; [done|lia])).
      by destruct (Nat.ltb_spec cap (length (filter (fresh ttl now) suf) + 1)); [lia|].
Qed.

Lemma remembered_later cap ttl now now' h :
  StronglySorted seen_order h → now ≤ now' →
  expire ttl now' (remembered cap ttl now h) = remembered cap ttl now' h.
Proof.
  intros Hs Hle. unfold remembered.
  assert (StronglySorted seen_order (lastn cap h)) as Hl
    by (eapply StronglySorted_sublist, Hs; apply sublist_drop).
  rewrite expire_filter by by apply StronglySorted_filter.
  rewrite list_filter_filter. apply list_filter_iff. intros x. unfold fresh. lia.
Qed.

Lemma seen_or_add_refines s h i now :
  dedup_refines s h → (∀ l, last_now s = Some l → l ≤ now) →
  ∃ s', seen_or_add s i now =
    Ok (spec_seen (Z.to_nat (capacity s)) (ttl s) h i now, s') ∧
    dedup_refines s' (refresh i now h) ∧
    capacity s' = capacity s ∧ ttl s' = ttl s ∧ last_now s' = Some now.
Proof.
  intros [Hc Ht Hk Hs Hp He Hz] Hnow. unfold seen_or_add, validated_now.
  replace (require _ _) with (Ok tt) by (destruct (last_now s) as [l|]; simpl;
    [specialize (Hnow l eq_refl); destruct (Z.ltb_spec now l); [lia|done]|done]).
  simpl. rewrite He by done. unfold spec_seen.
  assert (∀ x, x ∈ h → x.2 ≤ now) as Hle.
  { intros x (l & Hl & ?)%Hp. specialize (Hnow l Hl). lia. }
  destruct (refresh_wf i now h Hk Hs Hle) as [Hk' Hs'].
  assert (∀ e, e = remembered (Z.to_nat (capacity s)) (ttl s) now (refresh i now h) →
    dedup_refines {| capacity := capacity s; ttl := ttl s; entries := e;
      last_now := Some now |} (refresh i now h)) as Hnew.
  { intros e ->. constructor; simpl; try done.
    - intros x [Hx| ->%list_elem_of_singleton]%elem_of_app; exists now; split; try done.
      apply Hle. by eapply elem_of_sublist, dict_pop_sublist.
    - intros now' Hn. apply remembered_later; [done|by apply Hn].
    - unfold remembered. pose proof (length_filter (fresh (ttl s) now)
        (lastn (Z.to_nat (capacity s)) (refresh i now h))) as Hl.
      unfold lastn in *. rewrite length_drop in Hl. lia. }
  set (c := Z.to_nat (capacity s)) in *.
  destruct (dict_get i (remembered c (ttl s) now h)) as [t|] eqn:E.
  - rewrite bool_decide_true by eauto. eexists. split; [reflexivity|].
    split; [|done]. apply Hnew. by eapply remembered_hit.
  - rewrite bool_decide_false by by intros []. eexists. split; [reflexivity|].
    split; [|done]. apply Hnew. rewrite dict_set_snoc by done.
    rewrite <- remembered_miss by (done || lia). cbn zeta.
    set (e := _ ++ _). destruct (Z.ltb_spec (capacity s) (Z.of_nat (length e))),
      (Nat.ltb_spec c (length e)); try done; lia.
Qed.

Lemma seen_run_refines calls s h :
  dedup_refines s h → StronglySorted seen_order calls →
  (∀ l x, last_now s = Some l → x ∈ calls → l ≤ x.2) →
  ∃ s', seen_run s calls = Ok (spec_run (Z.to_nat (capacity s)) (ttl s) h calls, s') ∧
    Z.of_nat (dedup_size s') ≤ capacity s.
Proof.
  revert s h. induction calls as [|[i now] calls IH]; intros s h Hr Hs Hl; simpl.
  { exists s. split; [done|]. apply Hr. }
  inversion Hs as [|?? Hs' Hall]; subst.
  destruct (seen_or_add_refines s h i now) as (s1 & -> & Hr1 & Hc & Ht & Hn); [done| |].
  { intros l Hsl. by apply (Hl l (i, now)); [|left]. }
  simpl. destruct (IH s1 (refresh i now h)) as (s2 & -> & Hz); [done|done| |].
  { intros l x Hsl Hx. rewrite Hn in Hsl. injection Hsl as <-.
    rewrite Forall_forall in Hall. by apply (Hall x). }
  exists s2. simpl. rewrite Hc, Ht in *. split; [done|lia].
Qed.

Lemma dedup_init_refines cap t s :
  dedup_init cap t = Ok s →
  dedup_refines s [] ∧ capacity s = cap ∧ ttl s = t ∧ last_now s = None.
Proof.
  unfold dedup_init. intros H. inv_res. subst s. case_cmp.
  split; [|done]. constructor; simpl;
    [lia|lia|done|constructor|by intros ? ?%elem_of_nil|done|lia].
Qed.

(** C34. Whatever the calls, as long as the clock does not go backwards, the
    deduplicator answers each of them as the unbounded history would, looking
    only at its [capacity] most recent identities seen less than [ttl] ago; it
    never raises and never holds more than [capacity] entries. *)
Theorem deduplicator_refines_history cap ttl s calls :
  dedup_init cap ttl = Ok s → StronglySorted seen_order calls →
  ∃ s', seen_run s calls = Ok (spec_run (Z.to_nat cap) ttl [] calls, s') ∧
    Z.of_nat (dedup_size s') ≤ cap.
Proof.
  intros (Hr & Hc & Ht & Hn)%dedup_init_refines Hs. rewrite <- Hc, <- Ht.
  apply seen_run_refines; [done|done|]. by rewrite Hn.
Qed.

(** A clock that goes backwards raises. *)
Lemma seen_or_add_backwards s i now l :
  last_now s = Some l → now < l →
  seen_or_add s i now = Err (ValueError "monotonic time cannot move backwards").
Proof.
  intros Hl Hlt. unfold seen_or_add, validated_now. rewrite Hl.
  by destruct (Z.ltb_spec now l); [|lia].
Qed.
End dedup.

(** Capacity 2, ten seconds: 1 is remembered at 5, evicted by 2 and 3, so its next
    sight is new; 3 seen at 7 is out of date at 20. *)
Lemma deduplicator_refines_history_witness :
  ∃ s, dedup_init (I := Z) 2 10 = Ok s ∧
  ∃ s', seen_run s [(1, 0); (1, 5); (2, 6); (3, 7); (1, 8); (3, 9); (3, 20)] =
    Ok ([false; true; false; false; false; true; false], s') ∧
    Z.of_nat (dedup_size s') ≤ 2.
Proof.
  eexists. split; [reflexivity|].
  assert (StronglySorted seen_order [(1, 0); (1, 5); (2, 6); (3, 7); (1, 8); (3, 9); (3, 20)])
    as Hs by (repeat constructor; unfold seen_order; simpl; lia).
  exact (deduplicator_refines_history (I := Z) 2 10 _ _ eq_refl Hs).
Defined.
