(* ===== verification/Rolling.v ===== *)
(** * Bounded event-time windows

    [features/rolling.py]: a window keeps the events of
    [(watermark - retention, watermark]] with a hard cap on their number.  A
    [timedelta] is its number of microseconds. *)

From S2P Require Import Prelude PyTime.

Inductive LateEventPolicy := DROP | INSERT.
#[export] Instance LateEventPolicy_eq_dec : EqDecision LateEventPolicy.
Proof. solve_decision. Defined.

Inductive AppendStatus := ACCEPTED | LATE_DROPPED | EXPIRED_DROPPED.
#[export] Instance AppendStatus_eq_dec : EqDecision AppendStatus.
Proof. solve_decision. Defined.

Record TimedValue (T : Type) := {
  tv_timestamp : Z;
  tv_value : T;
  tv_ordinal : Z }.
Arguments Build_TimedValue {T} _ _ _.
Arguments tv_timestamp {T} _.
Arguments tv_value {T} _.
Arguments tv_ordinal {T} _.

Record WindowStats := {
  stats_size : Z;
  stats_accepted : Z;
  stats_late_dropped : Z;
  stats_expired_dropped : Z;
  stats_capacity_evictions : Z;
  stats_watermark : option Z }.

Record BoundedTimeWindow (T : Type) := {
  retention : Z;
  maximum_items : Z;
  late_event_policy : LateEventPolicy;
  maximum_lateness : Z;
  w_items : list (TimedValue T);
  watermark : option Z;
  w_ordinal : Z;
  accepted : Z;
  late_dropped : Z;
  expired_dropped : Z;
  capacity_evictions : Z }.
Arguments retention {T} _.
Arguments maximum_items {T} _.
Arguments late_event_policy {T} _.
Arguments maximum_lateness {T} _.
Arguments w_items {T} _.
Arguments watermark {T} _.
Arguments w_ordinal {T} _.
Arguments accepted {T} _.
Arguments late_dropped {T} _.
Arguments expired_dropped {T} _.
Arguments capacity_evictions {T} _.

Section rolling.
Context {T : Type}.
Implicit Types (w : BoundedTimeWindow T) (x y : TimedValue T) (l : list (TimedValue T)).

Definition window_utc (d : datetime) : res Z :=
  as_utc "window timestamps must be timezone-aware" d.

Definition window_init (ret maxi : Z) (policy : LateEventPolicy) (late : Z)
    : res (BoundedTimeWindow T) :=
  _ ← require (negb (ret <=? 0)) (ValueError "retention must be positive");
  _ ← require (negb (maxi <? 1)) (ValueError "maximum_items must be positive");
  _ ← require (negb (late <? 0)) (ValueError "maximum_lateness cannot be negative");
  Ok {| retention := ret; maximum_items := maxi; late_event_policy := policy;
        maximum_lateness := late; w_items := []; watermark := None; w_ordinal := 0;
        accepted := 0; late_dropped := 0; expired_dropped := 0; capacity_evictions := 0 |}.

Definition window_len w : Z := Z.of_nat (length (w_items w)).
Definition earliest w : option (TimedValue T) := head (w_items w).
Definition latest w : option (TimedValue T) := last (w_items w).
Definition latest_ordinal w : Z := w_ordinal w.

Definition window_stats w : WindowStats :=
  {| stats_size := window_len w; stats_accepted := accepted w;
     stats_late_dropped := late_dropped w; stats_expired_dropped := expired_dropped w;
     stats_capacity_evictions := capacity_evictions w; stats_watermark := watermark w |}.

Definition with_items w l : BoundedTimeWindow T :=
  {| retention := retention w; maximum_items := maximum_items w;
     late_event_policy := late_event_policy w; maximum_lateness := maximum_lateness w;
     w_items := l; watermark := watermark w; w_ordinal := w_ordinal w;
     accepted := accepted w; late_dropped := late_dropped w;
     expired_dropped := expired_dropped w; capacity_evictions := capacity_evictions w |}.

(** The second loop of [_prune]: the number of evictions with what is left. *)
Fixpoint evict_over (maxi : Z) l : Z * list (TimedValue T) :=
  match l with
  | [] => (0, [])
  | _ :: l' =>
    if maxi <? Z.of_nat (length l)
    then let '(n, r) := evict_over maxi l' in (n + 1, r)
    else (0, l)
  end.

Definition prune w : BoundedTimeWindow T :=
  match watermark w with
  | None => w
  | Some wm =>
    let cutoff := wm - retention w in
    let kept := drop_while (λ x, tv_timestamp x <=? cutoff) (w_items w) in
    let '(n, kept) := evict_over (maximum_items w) kept in
    {| retention := retention w; maximum_items := maximum_items w;
       late_event_policy := late_event_policy w; maximum_lateness := maximum_lateness w;
       w_items := kept; watermark := Some wm; w_ordinal := w_ordinal w;
       accepted := accepted w; late_dropped := late_dropped w;
       expired_dropped := expired_dropped w;
       capacity_evictions := capacity_evictions w + n |}
  end.

Definition admissibility_at w (event_at : Z) : AppendStatus :=
  match watermark w with
  | Some wm =>
    if event_at <? wm then
      if event_at <=? wm - retention w then EXPIRED_DROPPED
      else if bool_decide (late_event_policy w = DROP) ||
              (maximum_lateness w <? wm - event_at) then LATE_DROPPED
      else ACCEPTED
    else ACCEPTED
  | None => ACCEPTED
  end.

Definition admissibility w (d : datetime) : res AppendStatus :=
  event_at ← window_utc d; Ok (admissibility_at w event_at).

Definition key_of x : Z * Z := (tv_timestamp x, tv_ordinal x).
(** [y < x] of the key tuples, and [bisect_right]'s test [not x < y]. *)
Definition key_ltb (a b : Z * Z) : bool :=
  (a.1 <? b.1) || ((a.1 =? b.1) && (a.2 <? b.2)).

(** [append] after [_utc]. *)
Definition append_at w (event_at : Z) (v : T) : BoundedTimeWindow T * AppendStatus :=
  match admissibility_at w event_at with
  | EXPIRED_DROPPED =>
    ({| retention := retention w; maximum_items := maximum_items w;
        late_event_policy := late_event_policy w; maximum_lateness := maximum_lateness w;
        w_items := w_items w; watermark := watermark w; w_ordinal := w_ordinal w;
        accepted := accepted w; late_dropped := late_dropped w;
        expired_dropped := expired_dropped w + 1;
        capacity_evictions := capacity_evictions w |}, EXPIRED_DROPPED)
  | LATE_DROPPED =>
    ({| retention := retention w; maximum_items := maximum_items w;
        late_event_policy := late_event_policy w; maximum_lateness := maximum_lateness w;
        w_items := w_items w; watermark := watermark w; w_ordinal := w_ordinal w;
        accepted := accepted w; late_dropped := late_dropped w + 1;
        expired_dropped := expired_dropped w;
        capacity_evictions := capacity_evictions w |}, LATE_DROPPED)
  | ACCEPTED =>
    let ord := w_ordinal w + 1 in
    let item := Build_TimedValue event_at v ord in
    let newest := match watermark w with None => true | Some wm => wm <=? event_at end in
    let l :=
      if newest then w_items w ++ [item]
      else
        let n := bisect (λ x, negb (key_ltb (event_at, ord) (key_of x))) (w_items w) 0 in
        take n (w_items w) ++ item :: drop n (w_items w) in
    (prune
      {| retention := retention w; maximum_items := maximum_items w;
         late_event_policy := late_event_policy w; maximum_lateness := maximum_lateness w;
         w_items := l; watermark := if newest then Some event_at else watermark w;
         w_ordinal := ord; accepted := accepted w + 1; late_dropped := late_dropped w;
         expired_dropped := expired_dropped w;
         capacity_evictions := capacity_evictions w |}, ACCEPTED)
  end.

Definition append w (d : datetime) (v : T) : res (BoundedTimeWindow T * AppendStatus) :=
  event_at ← window_utc d; Ok (append_at w event_at v).

(** The loop over [reversed(items)], which stops at the start of the range. *)
Fixpoint scan_between (start stop : Z) (rl : list (TimedValue T)) : list (TimedValue T) :=
  match rl with
  | [] => []
  | x :: rl =>
    if stop <? tv_timestamp x then scan_between start stop rl
    else if tv_timestamp x <=? start then []
    else x :: scan_between start stop rl
  end.

Definition items_between w (start_exclusive end_inclusive : datetime)
    : res (list (TimedValue T)) :=
  start ← window_utc start_exclusive;
  stop ← window_utc end_inclusive;
  _ ← require (negb (stop <? start)) (ValueError "window end cannot precede start");
  Ok (rev (scan_between start stop (rev (w_items w)))).

Definition values_between w (start_exclusive end_inclusive : datetime) : res (list T) :=
  l ← items_between w start_exclusive end_inclusive; Ok (map tv_value l).

Definition latest_at_or_before w (boundary : datetime) : res (option (TimedValue T)) :=
  stop ← window_utc boundary;
  Ok (List.find (λ x, tv_timestamp x <=? stop) (rev (w_items w))).

Fixpoint scan_appended (ordinal : Z) (rl : list (TimedValue T)) : list (TimedValue T) :=
  match rl with
  | [] => []
  | x :: rl => if tv_ordinal x <=? ordinal then [] else x :: scan_appended ordinal rl
  end.

Definition items_appended_after w (ordinal : Z) : res (list (TimedValue T)) :=
  _ ← require (negb (ordinal <? 0)) (ValueError "window ordinal cannot be negative");
  if w_ordinal w <=? ordinal then Ok []
  else match late_event_policy w with
  | DROP => Ok (rev (scan_appended ordinal (rev (w_items w))))
  | INSERT => Ok (py_sorted (λ a b, tv_ordinal a <=? tv_ordinal b)
                    (filter (λ x, ordinal < tv_ordinal x) (w_items w)))
  end.

Definition window_clear w : BoundedTimeWindow T :=
  {| retention := retention w; maximum_items := maximum_items w;
     late_event_policy := late_event_policy w; maximum_lateness := maximum_lateness w;
     w_items := []; watermark := None; w_ordinal := w_ordinal w;
     accepted := accepted w; late_dropped := late_dropped w;
     expired_dropped := expired_dropped w; capacity_evictions := capacity_evictions w |}.

(** ** Operations of a trace *)

Inductive window_op := OpAppend (event_at : Z) (v : T) | OpClear.

Definition window_step w (op : window_op) : BoundedTimeWindow T * option AppendStatus :=
  match op with
  | OpAppend t v => let '(w, s) := append_at w t v in (w, Some s)
  | OpClear => (window_clear w, None)
  end.

Fixpoint window_run w (ops : list window_op)
    : BoundedTimeWindow T * list (option AppendStatus) :=
  match ops with
  | [] => (w, [])
  | op :: ops =>
    let '(w, s) := window_step w op in
    let '(w, ss) := window_run w ops in (w, s :: ss)
  end.

(** ** Specification

    The whole history of accepted events since the last [clear], in order of
    event time and, for equal times, of arrival.  A window promises the
    [maximum_items] last of those that are newer than the retention. *)
Definition spec_insert x l : list (TimedValue T) :=
  filter (λ y, tv_timestamp y ≤ tv_timestamp x) l ++ [x] ++
  filter (λ y, tv_timestamp x < tv_timestamp y) l.

Definition spec_status (policy : LateEventPolicy) (ret late : Z) (wm : option Z) (t : Z)
    : AppendStatus :=
  match wm with
  | None => ACCEPTED
  | Some wm =>
    if wm <=? t then ACCEPTED
    else if t <=? wm - ret then EXPIRED_DROPPED
    else match policy with
         | INSERT => if wm - t <=? late then ACCEPTED else LATE_DROPPED
         | DROP => LATE_DROPPED
         end
  end.

Definition retained (ret : Z) (wm : option Z) x : Prop :=
  match wm with None => True | Some wm => wm - ret < tv_timestamp x end.
#[local] Instance retained_dec ret wm x : Decision (retained ret wm x).
Proof. unfold retained. destruct wm; apply _. Defined.

Record history := { h_events : list (TimedValue T); h_newest : option Z; h_count : Z }.

Definition spec_step (policy : LateEventPolicy) (ret late : Z) (h : history)
    (op : window_op) : history * option AppendStatus :=
  match op with
  | OpAppend t v =>
    match spec_status policy ret late (h_newest h) t with
    | ACCEPTED =>
      ({| h_events := spec_insert (Build_TimedValue t v (h_count h + 1)) (h_events h);
          h_newest := Some (match h_newest h with None => t | Some wm => Z.max wm t end);
          h_count := h_count h + 1 |}, Some ACCEPTED)
    | s => (h, Some s)
    end
  | OpClear => ({| h_events := []; h_newest := None; h_count := h_count h |}, None)
  end.

Fixpoint spec_window_run policy ret late (h : history) (ops : list window_op)
    : history * list (option AppendStatus) :=
  match ops with
  | [] => (h, [])
  | op :: ops =>
    let '(h, s) := spec_step policy ret late h op in
    let '(h, ss) := spec_window_run policy ret late h ops in (h, s :: ss)
  end.

Definition empty_history : history := {| h_events := []; h_newest := None; h_count := 0 |}.

(** What a window holds of a history. *)
Definition window_contents (maxi ret : Z) (h : history) : list (TimedValue T) :=
  lastn (Z.to_nat maxi) (filter (retained ret (h_newest h)) (h_events h)).

Definition time_le x y : Prop := tv_timestamp x ≤ tv_timestamp y.
Definition key_lt x y : Prop :=
  tv_timestamp x < tv_timestamp y ∨
  tv_timestamp x = tv_timestamp y ∧ tv_ordinal x < tv_ordinal y.

Record history_wf (policy : LateEventPolicy) (h : history) : Prop := {
  hw_sorted : StronglySorted key_lt (h_events h);
  hw_ordinals : ∀ x, x ∈ h_events h → 1 ≤ tv_ordinal x ≤ h_count h;
  hw_newest : ∀ x, x ∈ h_events h →
    ∃ wm, h_newest h = Some wm ∧ tv_timestamp x ≤ wm;
  hw_count : 0 ≤ h_count h;
  hw_nodup : NoDup (tv_ordinal <$> h_events h);
  hw_drop : policy = DROP →
    StronglySorted (λ x y, tv_ordinal x < tv_ordinal y) (h_events h) }.

Record window_refines w (h : history) : Prop := {
  wr_retention : 0 < retention w;
  wr_maximum : 1 ≤ maximum_items w;
  wr_watermark : watermark w = h_newest h;
  wr_ordinal : w_ordinal w = h_count h;
  wr_items : w_items w = window_contents (maximum_items w) (retention w) h;
  wr_history : history_wf (late_event_policy w) h }.

Lemma key_lt_time_le l : StronglySorted key_lt l → StronglySorted time_le l.
Proof. apply StronglySorted_impl. unfold key_lt, time_le. lia. Qed.

(** A time-sorted list splits around an instant. *)
Lemma time_split t l :
  StronglySorted time_le l →
  l = filter (λ y, tv_timestamp y ≤ t) l ++ filter (λ y, t < tv_timestamp y) l.
Proof.
  induction 1 as [|x l Hs IH Hall]; [done|]. rewrite !filter_cons.
  destruct (decide (tv_timestamp x ≤ t)).
  - rewrite (decide_False (P := t < tv_timestamp x)) by lia. simpl. by f_equal.
  - rewrite decide_True by lia.
    assert (filter (λ y, tv_timestamp y ≤ t) l = []) as E.
    { apply list_filter_none. eapply Forall_impl; [exact Hall|]. unfold time_le. intros y ?. lia. }
    rewrite E in *. simpl in *. by f_equal.
Qed.

Lemma spec_insert_append x l :
  (∀ y, y ∈ l → tv_timestamp y ≤ tv_timestamp x) → spec_insert x l = l ++ [x].
Proof.
  intros Hl. unfold spec_insert.
  rewrite list_filter_all, (list_filter_none (λ y, tv_timestamp x < tv_timestamp y));
    [done|..]; apply Forall_forall; intros y Hy%Hl; lia.
Qed.

Lemma spec_insert_elem x l y : y ∈ spec_insert x l ↔ y = x ∨ y ∈ l.
Proof.
  unfold spec_insert. rewrite !elem_of_app, list_elem_of_singleton, !list_elem_of_filter.
  destruct (decide (tv_timestamp y ≤ tv_timestamp x)); intuition lia.
Qed.

(** ** The operations implement the specification *)

Lemma evict_over_lastn m l :
  0 ≤ m → evict_over m l =
    (Z.of_nat (length l) - Z.of_nat (length (lastn (Z.to_nat m) l)), lastn (Z.to_nat m) l).
Proof.
  intros Hm. induction l as [|x l IH]; [done|]. cbn [evict_over].
  destruct (Z.ltb_spec m (Z.of_nat (length (x :: l)))) as [Hlt|Hge]; cbn [length] in *.
  - rewrite IH. change (x :: l) with ([x] ++ l). rewrite lastn_app_split.
    replace (Z.to_nat m - length l)%nat with 0%nat by lia.
    change (lastn 0 [x]) with (@nil (TimedValue T)). simpl. f_equal. lia.
  - rewrite lastn_ge by (simpl; lia). f_equal. simpl. lia.
Qed.

(** [_prune] keeps the last [maximum_items] items inside the retention. *)
Lemma prune_items w :
  1 ≤ maximum_items w → StronglySorted time_le (w_items w) →
  w_items (prune w) = match watermark w with
    | None => w_items w
    | Some _ => lastn (Z.to_nat (maximum_items w))
                  (filter (retained (retention w) (watermark w)) (w_items w)) end.
Proof.
  intros Hm Hs. unfold prune. destruct (watermark w) as [wm|] eqn:E; [|done].
  rewrite drop_while_filter, evict_over_lastn by (lia || (eapply StronglySorted_impl, Hs;
    unfold time_le; intros x y Hle; case_cmp; lia || done)).
  simpl. f_equal. apply list_filter_iff. intros x. simpl.
  destruct (Z.leb_spec (tv_timestamp x) (wm - retention w)); intuition (lia || done).
Qed.

Lemma insert_at_bisect t ord v l :
  StronglySorted time_le l → (∀ x, x ∈ l → tv_ordinal x < ord) →
  let n := bisect (λ x, negb (key_ltb (t, ord) (key_of x))) l 0 in
  take n l ++ Build_TimedValue t v ord :: drop n l = spec_insert (Build_TimedValue t v ord) l.
Proof.
  intros Hs Hord. cbn zeta. pose proof (time_split t l Hs) as Hl.
  unfold spec_insert; simpl.
  set (a := filter (λ y, tv_timestamp y ≤ t) l) in *.
  set (b := filter (λ y, t < tv_timestamp y) l) in *.
  rewrite (bisect_correct _ l 0 (length a)); [|split; [rewrite Hl, length_app; lia|]|lia].
  - rewrite Hl. by rewrite take_app_length, drop_app_length.
  - intros i y Hi. pose proof (Hord y ltac:(by eapply list_elem_of_lookup_2)) as Hy.
    unfold key_ltb; simpl. rewrite Hl in Hi. apply lookup_app_Some in Hi as [Hi|[Hle Hi]].
    + rewrite (proj2 (Nat.ltb_lt _ _)) by by eapply lookup_lt_Some.
      apply list_elem_of_lookup_2, list_elem_of_filter in Hi as [Hi _]. case_cmp; lia || done.
    + rewrite (proj2 (Nat.ltb_ge _ _)) by done.
      apply list_elem_of_lookup_2, list_elem_of_filter in Hi as [Hi _]. case_cmp; lia || done.
Qed.

Lemma spec_insert_filter P `{∀ x, Decision (P x)} x l :
  P x → filter P (spec_insert x l) = spec_insert x (filter P l).
Proof.
  intros Hx. unfold spec_insert. rewrite !filter_app.
  rewrite (list_filter_all P [x]) by by repeat constructor.
  rewrite !list_filter_filter. f_equal; [|f_equal]; apply list_filter_iff; intros; intuition.
Qed.

Lemma spec_insert_lastn n x l :
  StronglySorted time_le l →
  lastn n (spec_insert x (lastn n l)) = lastn n (spec_insert x l).
Proof.
  intros Hs. pose proof (time_split (tv_timestamp x) l Hs) as Hl.
  unfold spec_insert.
  rewrite (filter_lastn (λ y, tv_timestamp x < tv_timestamp y))
    by (eapply StronglySorted_impl, Hs; unfold time_le; intros; lia).
  set (a := filter (λ y, tv_timestamp y ≤ tv_timestamp x) l) in *.
  set (b := filter (λ y, tv_timestamp x < tv_timestamp y) l) in *.
  assert (filter (λ y, tv_timestamp y ≤ tv_timestamp x) (lastn n l) =
    lastn (n - length b) a) as ->.
  { rewrite Hl, lastn_app_split, filter_app, list_filter_all, list_filter_none, app_nil_r.
    - done.
    - apply Forall_forall. intros y Hy. eapply elem_of_sublist in Hy; [|apply lastn_sublist].
      apply list_elem_of_filter in Hy as [? _]. lia.
    - apply Forall_forall. intros y Hy. eapply elem_of_sublist in Hy; [|apply lastn_sublist].
      by apply list_elem_of_filter in Hy as [? _]. }
  rewrite !lastn_app_split, !length_app, !lastn_lastn, lastn_length. simpl.
  destruct (decide (n ≤ length b)%nat).
  - replace (n - S (Nat.min n (length b)))%nat with 0%nat by lia.
    replace (n - S (length b))%nat with 0%nat by lia.
    replace (n - Nat.min n (length b))%nat with 0%nat by lia.
    replace (n - length b)%nat with 0%nat by lia.
    by rewrite !Nat.min_id.
  - rewrite !(Nat.min_r n (length b)) by lia. rewrite Nat.min_id, Nat.min_l by lia. done.
Qed.

Lemma admissibility_spec w h t :
  window_refines w h →
  admissibility_at w t =
    spec_status (late_event_policy w) (retention w) (maximum_lateness w) (h_newest h) t.
Proof.
  intros Hr. unfold admissibility_at, spec_status. rewrite (wr_watermark _ _ Hr).
  destruct (h_newest h) as [wm|]; [|done].
  destruct (late_event_policy w); case_bool_decide; try done; simpl; case_cmp; lia || done.
Qed.

Lemma spec_insert_sorted x l :
  StronglySorted key_lt l → (∀ y, y ∈ l → tv_ordinal y < tv_ordinal x) →
  StronglySorted key_lt (spec_insert x l).
Proof.
  intros Hs Ho. unfold spec_insert.
  apply StronglySorted_app; [by apply StronglySorted_filter|
    apply StronglySorted_app; [repeat constructor|by apply StronglySorted_filter|]|].
  - intros a b ->%list_elem_of_singleton [Hb _]%list_elem_of_filter. by left.
  - intros a b [Ha1 Ha2]%list_elem_of_filter. unfold key_lt.
    intros [->%list_elem_of_singleton|[Hb _]%list_elem_of_filter]%elem_of_app; [|lia].
    specialize (Ho a Ha2). lia.
Qed.

Lemma spec_insert_perm x l : StronglySorted time_le l → spec_insert x l ≡ₚ x :: l.
Proof.
  intros Hs. rewrite (time_split (tv_timestamp x) l Hs) at 2. unfold spec_insert.
  simpl. by rewrite Permutation_middle.
Qed.

Lemma spec_step_accept_wf policy h t v :
  history_wf policy h → (policy = DROP → ∀ wm, h_newest h = Some wm → wm ≤ t) →
  history_wf policy
    {| h_events := spec_insert (Build_TimedValue t v (h_count h + 1)) (h_events h);
       h_newest := Some (match h_newest h with None => t | Some wm => Z.max wm t end);
       h_count := h_count h + 1 |}.
Proof.
  intros [Hs Ho Hn Hc Hd Hdrop] Hpol. set (x := Build_TimedValue t v (h_count h + 1)).
  assert (∀ y, y ∈ h_events h → tv_ordinal y < tv_ordinal x) as Hlt
    by (intros y Hy%Ho; simpl; lia).
  constructor; simpl.
  - by apply spec_insert_sorted.
  - intros y [->|Hy%Ho]%spec_insert_elem; simpl; lia.
  - intros y [->|(wm & -> & ?)%Hn]%spec_insert_elem; eexists; (split; [done|]); [|lia].
    simpl. destruct (h_newest h); lia.
  - lia.
  - rewrite spec_insert_perm by by apply key_lt_time_le. constructor; [|done].
    intros (y & Hy & Hin%Ho)%list_elem_of_fmap. simpl in Hy. lia.
  - intros Hp. rewrite spec_insert_append.
    + apply StronglySorted_app; [auto|repeat constructor|].
      intros a b Ha ->%list_elem_of_singleton. auto.
    + intros y (wm & Hwm & ?)%Hn. specialize (Hpol Hp wm Hwm). simpl. lia.
Qed.

(** What a window retains of the history it retained before is what it retains
    of the whole history. *)
Lemma window_contents_insert maxi ret h x wm wm' :
  StronglySorted time_le (h_events h) → h_newest h = wm →
  (∀ y, retained ret (Some wm') y → retained ret wm y) → retained ret (Some wm') x →
  lastn (Z.to_nat maxi) (filter (retained ret (Some wm'))
    (spec_insert x (window_contents maxi ret h))) =
  lastn (Z.to_nat maxi) (filter (retained ret (Some wm')) (spec_insert x (h_events h))).
Proof.
  intros Hs Hwm Himp Hx. unfold window_contents. rewrite Hwm.
  rewrite !spec_insert_filter by done.
  assert (∀ wm l, StronglySorted time_le l →
    StronglySorted (λ x y, retained ret (Some wm) x → retained ret (Some wm) y) l) as Hup.
  { intros wm0 l. apply StronglySorted_impl. unfold time_le, retained. intros; lia. }
  rewrite filter_lastn by by apply Hup, StronglySorted_filter.
  rewrite spec_insert_lastn by by do 2 apply StronglySorted_filter.
  do 2 f_equal. rewrite list_filter_filter. apply list_filter_iff. intros y. split; [tauto|eauto].
Qed.

Lemma empty_history_wf policy n :
  0 ≤ n → history_wf policy {| h_events := []; h_newest := None; h_count := n |}.
Proof.
  intros Hn. constructor; simpl; [apply SSorted_nil|by intros ? ?%elem_of_nil|
    by intros ? ?%elem_of_nil|done|by apply NoDup_nil|intros; apply SSorted_nil].
Qed.

Lemma prune_fields w :
  retention (prune w) = retention w ∧ maximum_items (prune w) = maximum_items w ∧
  late_event_policy (prune w) = late_event_policy w ∧
  maximum_lateness (prune w) = maximum_lateness w ∧
  watermark (prune w) = watermark w ∧ w_ordinal (prune w) = w_ordinal w.
Proof.
  unfold prune. destruct (watermark w) eqn:E; [|by rewrite E].
  destruct (evict_over _ _). by repeat split.
Qed.

Lemma window_contents_elem maxi ret h x : x ∈ window_contents maxi ret h → x ∈ h_events h.
Proof.
  intros Hx. eapply elem_of_sublist in Hx; [|apply lastn_sublist].
  by apply list_elem_of_filter in Hx as [_ ?].
Qed.

Lemma window_contents_sorted maxi ret h :
  StronglySorted key_lt (h_events h) → StronglySorted key_lt (window_contents maxi ret h).
Proof.
  intros Hs. eapply StronglySorted_sublist; [apply lastn_sublist|].
  by apply StronglySorted_filter.
Qed.

(** Both ways [append] places the item put it in key order. *)
Lemma append_position w h t v :
  window_refines w h →
  let item := Build_TimedValue t v (w_ordinal w + 1) in
  (if match watermark w with None => true | Some wm => wm <=? t end
   then w_items w ++ [item]
   else let n := bisect (λ x, negb (key_ltb (t, w_ordinal w + 1) (key_of x))) (w_items w) 0 in
        take n (w_items w) ++ item :: drop n (w_items w)) =
  spec_insert item (w_items w).
Proof.
  intros [Hret Hm Hw Ho Hi Hh] item.
  assert (∀ x, x ∈ w_items w → x ∈ h_events h) as Hsub
    by (intros x; rewrite Hi; apply window_contents_elem).
  destruct (match watermark w with None => true | Some wm => wm <=? t end) eqn:En.
  - symmetry. apply spec_insert_append. intros y (wm & Hwm & Hy)%Hsub%(hw_newest _ _ Hh).
    rewrite Hw, Hwm in En. simpl. case_cmp; lia.
  - apply insert_at_bisect.
    + apply key_lt_time_le. rewrite Hi. apply window_contents_sorted, Hh.
    + intros x Hx%Hsub%(hw_ordinals _ _ Hh). lia.
Qed.

Lemma spec_status_accept policy ret late wm t :
  spec_status policy ret late wm t = ACCEPTED → 0 < ret →
  let wm' := match wm with None => t | Some wm => Z.max wm t end in
  (if match wm with None => true | Some wm => wm <=? t end then Some t else wm) = Some wm' ∧
  wm' - ret < t ∧ (policy = DROP → wm' = t).
Proof.
  unfold spec_status. destruct wm as [wm|]; simpl; [|intros; split; [done|lia]].
  intros Hs Hret. destruct (Z.leb_spec wm t); [rewrite Z.max_r by lia; split; [done|lia]|].
  destruct (Z.leb_spec t (wm - ret)); [done|].
  rewrite Z.max_l by lia. split; [done|]. split; [lia|]. by intros ->.
Qed.

Lemma window_step_refines w h op :
  window_refines w h →
  let '(w', s) := window_step w op in
  let '(h', s') := spec_step (late_event_policy w) (retention w) (maximum_lateness w) h op in
  s = s' ∧ window_refines w' h' ∧ late_event_policy w' = late_event_policy w ∧
  retention w' = retention w ∧ maximum_items w' = maximum_items w ∧
  maximum_lateness w' = maximum_lateness w.
Proof.
  intros Hr. pose proof Hr as [Hret Hm Hw Ho Hi Hh]. destruct op as [t v|]; simpl.
  2: { split; [done|]. split; [|done]. constructor; try done. by apply empty_history_wf, Hh. }
  unfold append_at. rewrite (admissibility_spec w h t Hr).
  destruct (spec_status _ _ _ _ t) eqn:Est;
    [|by split; [done|split; [by constructor|done]]..].
  destruct (spec_status_accept _ _ _ _ _ Est Hret) as (Hwm & Hlt & Hdrop).
  pose proof (append_position w h t v Hr) as Hpos. cbn zeta in *.
  rewrite Hpos, !Hw, Hwm.
  set (wm' := match h_newest h with None => t | Some wm => Z.max wm t end) in *.
  set (w1 := {| retention := _ |}).
  destruct (prune_fields w1) as (F1 & F2 & F3 & F4 & F5 & F6).
  split; [done|]. rewrite F1, F2, F3, F4. split; [|done].
  constructor; rewrite ?F1, ?F2, ?F3, ?F5, ?F6; simpl; try done; [by rewrite Ho| |].
  - assert (StronglySorted key_lt (w_items w1)) as Hs1.
    { simpl. apply spec_insert_sorted.
      - rewrite Hi. apply window_contents_sorted, Hh.
      - intros y Hy. rewrite Hi in Hy.
        apply window_contents_elem, (hw_ordinals _ _ Hh) in Hy. simpl. lia. }
    rewrite prune_items by (done || by apply key_lt_time_le). simpl. rewrite Hi, Ho.
    apply (window_contents_insert _ _ h _ (h_newest h));
      [by apply key_lt_time_le, Hh|done| |done].
    intros y. unfold retained. subst wm'. destruct (h_newest h); [lia|done].
  - rewrite Ho in *. apply spec_step_accept_wf; [done|]. intros Hp wm Hn.
    specialize (Hdrop Hp). subst wm'. rewrite Hn in Hdrop. lia.
Qed.

Lemma window_run_spec ops w h :
  window_refines w h →
  let '(w', ss) := window_run w ops in
  let '(h', ss') := spec_window_run (late_event_policy w) (retention w) (maximum_lateness w) h ops in
  ss = ss' ∧ window_refines w' h' ∧ retention w' = retention w ∧
  maximum_items w' = maximum_items w.
Proof.
  revert w h. induction ops as [|op ops IH]; intros w h Hr; cbn [window_run spec_window_run];
    [done|].
  pose proof (window_step_refines w h op Hr) as Hstep.
  destruct (window_step w op) as [w1 s1], (spec_step _ _ _ h op) as [h1 s1'].
  destruct Hstep as (-> & Hr1 & E1 & E2 & E3 & E4).
  specialize (IH w1 h1 Hr1). rewrite E1, E2, E3, E4 in IH.
  destruct (window_run w1 ops) as [w2 ss], (spec_window_run _ _ _ h1 ops) as [h2 ss'].
  by destruct IH as (-> & ? & ? & ?).
Qed.

Lemma window_init_refines ret maxi policy late w :
  window_init ret maxi policy late = Ok w →
  window_refines w empty_history ∧ retention w = ret ∧ maximum_items w = maxi ∧
  late_event_policy w = policy ∧ maximum_lateness w = late.
Proof.
  unfold window_init. intros H. inv_res. subst w. case_cmp. split; [|done].
  constructor; try done; [simpl; lia..|by apply empty_history_wf].
Qed.

(** C28. Whatever the appends (in any order of event time) and clears, every
    append is answered as the specification says, and the window holds exactly
    the [maximum_items] newest, by event time and then arrival, of the accepted
    events of [(watermark - retention, watermark]]. *)
Theorem window_holds_newest ret maxi policy late w ops :
  window_init ret maxi policy late = Ok w →
  let '(w', ss) := window_run w ops in
  let '(h, ss') := spec_window_run policy ret late empty_history ops in
  ss = ss' ∧ w_items w' = window_contents maxi ret h ∧ watermark w' = h_newest h ∧
  window_len w' ≤ maxi.
Proof.
  intros (Hr & <- & <- & <- & <-)%window_init_refines.
  pose proof (window_run_spec ops w empty_history Hr) as Hrun.
  destruct (window_run w ops) as [w' ss], (spec_window_run _ _ _ _ ops) as [h ss'].
  destruct Hrun as (-> & [Hret Hm Hw Ho Hi Hh] & E1 & E2). rewrite E1, E2 in *.
  repeat split; try done. unfold window_len, window_contents in *. rewrite Hi, lastn_length. lia.
Qed.

Definition reachable_window w : Prop :=
  ∃ ret maxi policy late w0 ops,
    window_init ret maxi policy late = Ok w0 ∧ (window_run w0 ops).1 = w.

Lemma reachable_window_refines w : reachable_window w → ∃ h, window_refines w h.
Proof.
  intros (ret & maxi & policy & late & w0 & ops & Hinit & <-).
  apply window_init_refines in Hinit as [Hr _].
  pose proof (window_run_spec ops w0 empty_history Hr) as Hrun.
  destruct (window_run w0 ops) as [w' ss], (spec_window_run _ _ _ _ ops) as [h ss'].
  exists h. apply Hrun.
Qed.

Lemma reachable_window_sorted w : reachable_window w → StronglySorted time_le (w_items w).
Proof.
  intros [h [_ _ _ _ -> Hh]]%reachable_window_refines.
  apply key_lt_time_le, window_contents_sorted, Hh.
Qed.

(** The reversed scans, in forward order. *)
Lemma scan_between_filter start stop l :
  StronglySorted time_le l →
  rev (scan_between start stop (rev l)) =
  filter (λ x, start < tv_timestamp x ≤ stop) l.
Proof.
  induction l as [|x l IH] using rev_ind; [done|]. intros Hs.
  apply StronglySorted_app_inv in Hs as (Hs & _ & Hlast).
  rewrite rev_app_distr, filter_app, filter_cons, filter_nil. cbn [rev app scan_between].
  destruct (Z.ltb_spec stop (tv_timestamp x)).
  - rewrite decide_False, app_nil_r by lia. auto.
  - destruct (Z.leb_spec (tv_timestamp x) start).
    + rewrite decide_False, app_nil_r by lia. symmetry. apply list_filter_none.
      apply Forall_forall. intros y Hy. specialize (Hlast y x Hy ltac:(left)).
      unfold time_le in Hlast. lia.
    + rewrite decide_True by lia. cbn [rev]. by rewrite IH.
Qed.

Lemma find_last_filter stop l :
  List.find (λ x, tv_timestamp x <=? stop) (rev l) =
  last (filter (λ x, tv_timestamp x ≤ stop) l).
Proof.
  induction l as [|x l IH] using rev_ind; [done|].
  rewrite rev_app_distr, filter_app, filter_cons, filter_nil. simpl.
  destruct (Z.leb_spec (tv_timestamp x) stop).
  - by rewrite decide_True, last_snoc by lia.
  - by rewrite decide_False, app_nil_r by lia.
Qed.

Lemma scan_appended_filter n l :
  StronglySorted (λ x y, tv_ordinal x < tv_ordinal y) l →
  rev (scan_appended n (rev l)) = filter (λ x, n < tv_ordinal x) l.
Proof.
  induction l as [|x l IH] using rev_ind; [done|]. intros Hs.
  apply StronglySorted_app_inv in Hs as (Hs & _ & Hlast).
  rewrite rev_app_distr, filter_app, filter_cons, filter_nil. simpl.
  destruct (Z.leb_spec (tv_ordinal x) n).
  - rewrite decide_False, app_nil_r by lia. symmetry. apply list_filter_none.
    apply Forall_forall. intros y Hy. specialize (Hlast y x Hy ltac:(left)). simpl in *. lia.
  - rewrite decide_True by lia. simpl. by rewrite IH.
Qed.

Lemma sorted_le_lt l :
  StronglySorted (λ x y, (tv_ordinal x <=? tv_ordinal y) = true) l →
  NoDup (tv_ordinal <$> l) → StronglySorted (λ x y, tv_ordinal x < tv_ordinal y) l.
Proof.
  induction 1 as [|x l Hs IH Hall]; [constructor|].
  simpl. intros [Hx Hnd]%NoDup_cons. constructor; [auto|].
  rewrite Forall_forall in *. intros y Hy. pose proof (Hall y Hy) as Hle. simpl in Hle.
  assert (tv_ordinal x ≠ tv_ordinal y); [|case_cmp; lia].
  intros E. apply Hx, list_elem_of_fmap. by exists y.
Qed.

Lemma window_queries_spec w start stop :
  reachable_window w → start ≤ stop →
  items_between w (utc start) (utc stop) =
    Ok (filter (λ x, start < tv_timestamp x ≤ stop) (w_items w)) ∧
  latest_at_or_before w (utc stop) =
    Ok (last (filter (λ x, tv_timestamp x ≤ stop) (w_items w))).
Proof.
  intros Hr%reachable_window_sorted Hle.
  unfold items_between, latest_at_or_before, window_utc. autorewrite with cvf_rw. simpl.
  destruct (Z.ltb_spec stop start); [lia|]. simpl.
  by rewrite scan_between_filter, find_last_filter.
Qed.

Lemma items_appended_after_spec w n :
  reachable_window w → 0 ≤ n →
  ∃ l, items_appended_after w n = Ok l ∧
    l ≡ₚ filter (λ x, n < tv_ordinal x) (w_items w) ∧
    StronglySorted (λ x y, tv_ordinal x < tv_ordinal y) l.
Proof.
  intros [h [_ _ _ Ho Hi Hh]]%reachable_window_refines Hn. unfold items_appended_after.
  destruct (Z.ltb_spec n 0); [lia|]. simpl. destruct (Z.leb_spec (w_ordinal w) n).
  { exists []. split; [done|]. split; [|constructor].
    rewrite list_filter_none; [done|]. apply Forall_forall. intros x Hx.
    rewrite Hi in Hx. apply window_contents_elem, (hw_ordinals _ _ Hh) in Hx. lia. }
  destruct (late_event_policy w) eqn:Ep; eexists; (split; [reflexivity|]).
  - assert (StronglySorted (λ x y, tv_ordinal x < tv_ordinal y) (w_items w)) as Hs.
    { rewrite Hi. eapply StronglySorted_sublist; [apply lastn_sublist|].
      apply StronglySorted_filter. by apply Hh. }
    rewrite scan_appended_filter by done. split; [done|by apply StronglySorted_filter].
  - split; [apply py_sorted_perm|]. apply sorted_le_lt.
    + apply py_sorted_sorted; intros; case_cmp; lia || done.
    + rewrite py_sorted_perm. eapply sublist_NoDup; [apply (hw_nodup _ _ Hh)|].
      rewrite Hi. apply fmap_sublist. eapply transitivity; [apply sublist_filter|].
      eapply transitivity; [apply lastn_sublist|apply sublist_filter].
Qed.

Lemma reachable_window_facts w :
  reachable_window w →
  StronglySorted key_lt (w_items w) ∧ 0 ≤ w_ordinal w ∧
  ∀ x, x ∈ w_items w → 1 ≤ tv_ordinal x ≤ w_ordinal w.
Proof.
  intros [h [_ _ _ -> -> Hh]]%reachable_window_refines. split; [|split; [apply Hh|]].
  - apply window_contents_sorted, Hh.
  - intros x Hx%window_contents_elem. by apply (hw_ordinals _ _ Hh).
Qed.

Lemma window_run_app w ops1 ops2 :
  (window_run w (ops1 ++ ops2)).1 = (window_run (window_run w ops1).1 ops2).1.
Proof.
  revert w. induction ops1 as [|op ops1 IH]; intros w; [done|]. simpl.
  destruct (window_step w op) as [w1 s1]. specialize (IH w1).
  destruct (window_run w1 (ops1 ++ ops2)), (window_run w1 ops1). simpl in *. done.
Qed.

Lemma reachable_window_step w op : reachable_window w → reachable_window (window_step w op).1.
Proof.
  intros (ret & maxi & policy & late & w0 & ops & Hi & <-).
  exists ret, maxi, policy, late, w0, (ops ++ [op]). split; [done|]. rewrite window_run_app.
  simpl. by destruct (window_step _ op).
Qed.

(** A step keeps a suffix of the items, with the appended one in its place. *)
Lemma window_step_items w op :
  reachable_window w →
  ∃ pre, pre ++ w_items (window_step w op).1 =
    match op with
    | OpAppend t v =>
      if bool_decide ((window_step w op).2 = Some ACCEPTED)
      then spec_insert (Build_TimedValue t v (w_ordinal w + 1)) (w_items w) else w_items w
    | OpClear => w_items w
    end.
Proof.
  intros Hr. pose proof Hr as [h Href]%reachable_window_refines. destruct op as [t v|]; simpl.
  2: { exists (w_items w). by rewrite app_nil_r. }
  unfold append_at. destruct (admissibility_at w t); simpl; [|by exists []..].
  pose proof (append_position w h t v Href) as Hpos. cbn zeta in *. rewrite Hpos.
  match goal with |- context [prune ?s] => set (w1 := s) end.
  unfold prune. destruct (watermark w1) as [wm|]; [|by exists []].
  rewrite evict_over_lastn by (pose proof (wr_maximum _ _ Href); simpl; lia).
  change (retention w1) with (retention w). set (l := drop_while _ (w_items w1)). cbn [fst snd w_items].
  destruct (lastn_split (Z.to_nat (maximum_items w1)) l) as (p1 & E1 & _).
  assert (∃ p2, p2 ++ l = w_items w1) as [p2 E2].
  { subst l. generalize (λ x : TimedValue T, tv_timestamp x <=? wm - retention w).
    generalize (w_items w1). clear. intros l p. induction l as [|x l [p2 IH]]; [by exists []|]. simpl.
    destruct (p x); [exists (x :: p2); simpl; by rewrite IH|by exists []]. }
  exists (p2 ++ p1). rewrite <- app_assoc, <- E1, E2. done.
Qed.

(** On a window reached by any appends and clears the range query returns
    the items of [(start, end]] in window order, although it scans from the end
    and stops early, and [latest_at_or_before] returns the last item not newer
    than the boundary. *)
Theorem window_queries_exact w start stop :
  reachable_window w → start ≤ stop →
  items_between w (utc start) (utc stop) =
    Ok (filter (λ x, start < tv_timestamp x ≤ stop) (w_items w)) ∧
  latest_at_or_before w (utc stop) =
    Ok (last (filter (λ x, tv_timestamp x ≤ stop) (w_items w))).
Proof. apply window_queries_spec. Qed.

(** [items_appended_after] returns each retained item appended after the
    ordinal, once, in append order, under either late-event policy. *)
Theorem items_appended_after_exact w n :
  reachable_window w → 0 ≤ n →
  ∃ l, items_appended_after w n = Ok l ∧
    l ≡ₚ filter (λ x, n < tv_ordinal x) (w_items w) ∧
    StronglySorted (λ x y, tv_ordinal x < tv_ordinal y) l.
Proof. apply items_appended_after_spec. Qed.
End rolling.

(** Three appends, one of them late, in a window of ten seconds and two items. *)
Definition demo_ops : list (window_op (T := Z)) :=
  [OpAppend 1000 7; OpAppend 5000 8; OpAppend 3000 9; OpAppend 2000 10; OpAppend 20000 11;
   OpAppend 19000 12].

Definition demo_window : BoundedTimeWindow Z :=
  {| retention := 10000; maximum_items := 2; late_event_policy := INSERT;
     maximum_lateness := 2500; w_items := []; watermark := None; w_ordinal := 0;
     accepted := 0; late_dropped := 0; expired_dropped := 0; capacity_evictions := 0 |}.

Lemma demo_reachable : reachable_window (window_run demo_window demo_ops).1.
Proof. by exists 10000, 2, INSERT, 2500, demo_window, demo_ops. Defined.

Lemma window_holds_newest_witness :
  (let '(w', ss) := window_run demo_window demo_ops in
   let '(h, ss') := spec_window_run INSERT 10000 2500 empty_history demo_ops in
   ss = ss' ∧ w_items w' = window_contents 2 10000 h ∧ watermark w' = h_newest h ∧
   window_len w' ≤ 2) ∧
  tv_value <$> w_items (window_run demo_window demo_ops).1 = [12; 11].
Proof.
  split; [|vm_compute; reflexivity].
  exact (window_holds_newest (T := Z) 10000 2 INSERT 2500 demo_window demo_ops eq_refl).
Defined.

Lemma window_queries_exact_witness :
  let w := (window_run demo_window demo_ops).1 in
  items_between w (utc 18000) (utc 19500) =
    Ok (filter (λ x, 18000 < tv_timestamp x ≤ 19500) (w_items w)) ∧
  latest_at_or_before w (utc 19500) =
    Ok (last (filter (λ x, tv_timestamp x ≤ 19500) (w_items w))) ∧
  tv_timestamp <$> filter (λ x, 18000 < tv_timestamp x ≤ 19500) (w_items w) = [19000].
Proof.
  cbn zeta.
  destruct (window_queries_exact _ 18000 19500 demo_reachable) as [H1 H2]; [lia|].
  split; [exact H1|]. split; [exact H2|]. vm_compute. reflexivity.
Defined.

Lemma items_appended_after_exact_witness :
  let w := (window_run demo_window demo_ops).1 in
  (∃ l, items_appended_after w 3 = Ok l ∧
    l ≡ₚ filter (λ x, 3 < tv_ordinal x) (w_items w) ∧
    StronglySorted (λ x y, tv_ordinal x < tv_ordinal y) l) ∧
  tv_value <$> filter (λ x, 3 < tv_ordinal x) (w_items w) = [12; 11].
Proof.
  cbn zeta. split; [|vm_compute; reflexivity].
  apply (items_appended_after_exact _ 3 demo_reachable). lia.
Defined.
