(* ===== verification/Lineage.v ===== *)
(** * Source lineage commitments

    [features/lineage.py]: a mergeable commitment (count, modular sum and xor of
    item digests, time extent) to a multiset of source items. *)

From S2P Require Import Prelude PyDecimal PyTime Models.
From Stdlib Require Import Ascii.

Definition digest_modulus : Z := Z.shiftl 1 256.

Record SourceLineage := {
  sl_count : Z;
  digest_sum : Z;
  digest_xor : Z;
  oldest_timestamp : option Z;
  newest_timestamp : option Z }.

#[export] Instance SourceLineage_eq_dec : EqDecision SourceLineage.
Proof. solve_decision. Defined.

Definition lineage_utc (d : datetime) : res Z :=
  as_utc "source-lineage timestamps must be timezone-aware" d.


(** The dataclass constructor with its [__post_init__]. *)
Definition mk_lineage (count sum xor : Z) (oldest newest : option datetime)
    : res SourceLineage :=
  _ ← require (negb (count <? 0)) (ValueError "source-lineage count cannot be negative");
  _ ← require ((0 <=? sum) && (sum <? digest_modulus))
        (ValueError "source-lineage digest sum is outside uint256");
  _ ← require ((0 <=? xor) && (xor <? digest_modulus))
        (ValueError "source-lineage digest xor is outside uint256");
  if count =? 0 then
    _ ← require (negb (negb (sum =? 0) || negb (xor =? 0) ||
                       negb (is_none oldest) || negb (is_none newest)))
          (ValueError "empty source lineage cannot contain metadata");
    Ok {| sl_count := 0; digest_sum := 0; digest_xor := 0;
          oldest_timestamp := None; newest_timestamp := None |}
  else
    match oldest, newest with
    | Some oldest, Some newest =>
      oldest ← lineage_utc oldest;
      newest ← lineage_utc newest;
      _ ← require (negb (newest <? oldest)) (ValueError "source-lineage timestamps are reversed");
      Ok {| sl_count := count; digest_sum := sum; digest_xor := xor;
            oldest_timestamp := Some oldest; newest_timestamp := Some newest |}
    | _, _ => Err (ValueError "nonempty source lineage requires timestamp bounds")
    end.

Definition empty_lineage : SourceLineage :=
  {| sl_count := 0; digest_sum := 0; digest_xor := 0;
     oldest_timestamp := None; newest_timestamp := None |}.

(** [int(digest, 16)]: optional sign, optional [0x], digits with single
    underscores between them. *)
Definition hex_digit (c : ascii) : option Z :=
  let n := Z.of_N (N_of_ascii c) in
  if is_digit c then Some (n - 48)
  else if (97 <=? n) && (n <=? 102) then Some (n - 87)
  else if (65 <=? n) && (n <=? 70) then Some (n - 55)
  else None.

Fixpoint hex_digits (l : list ascii) (after_digit : bool) (acc : Z) : option Z :=
  match l with
  | [] => if after_digit then Some acc else None
  | c :: l =>
    match hex_digit c with
    | Some d => hex_digits l true (16 * acc + d)
    | None => if Ascii.eqb c "_" && after_digit then hex_digits l false acc else None
    end
  end.

Definition hex_prefix (l : list ascii) : list ascii :=
  match l with
  | z :: x :: rest =>
    if Ascii.eqb z "0" && Ascii.eqb (upper_char x) "X" then
      match rest with
      | c :: rest' => if Ascii.eqb c "_" then rest' else rest
      | [] => []
      end
    else l
  | _ => l
  end.

Definition int16 (s : string) : option Z :=
  let '(neg, l) := parse_sign (strip_spaces (chars s)) in
  (λ n, if neg : bool then - n else n) <$> hex_digits (hex_prefix l) false 0.

Definition from_digest (ts : datetime) (digest : string) : res SourceLineage :=
  _ ← require (Nat.eqb (String.length digest) 64)
        (ValueError "source-lineage item digest must be SHA-256");
  match int16 digest with
  | None => Err (ValueError "source-lineage item digest must be hexadecimal")
  | Some value =>
    at_ ← lineage_utc ts;
    mk_lineage 1 value value (Some (utc at_)) (Some (utc at_))
  end.

(** [min] and [max] of a list of instants. *)
Definition list_min (l : list Z) : option Z :=
  match l with [] => None | x :: l => Some (foldl Z.min x l) end.
Definition list_max (l : list Z) : option Z :=
  match l with [] => None | x :: l => Some (foldl Z.max x l) end.

Definition bounds (s : SourceLineage) : list Z :=
  omap id [oldest_timestamp s; newest_timestamp s].

(** The accumulators of the loop of [combine]: count, sum, xor, timestamps. *)
Definition combine_step (acc : Z * Z * Z * list Z) (other : SourceLineage)
    : Z * Z * Z * list Z :=
  let '(count, sum, xor, ts) := acc in
  (count + sl_count other, (sum + digest_sum other) mod digest_modulus,
   Z.lxor xor (digest_xor other), ts ++ bounds other).

Definition combine (self : SourceLineage) (others : list SourceLineage) : res SourceLineage :=
  let '(count, sum, xor, ts) :=
    foldl combine_step (sl_count self, digest_sum self, digest_xor self, bounds self) others in
  if count =? 0 then Ok empty_lineage
  else mk_lineage count sum xor (utc <$> list_min ts) (utc <$> list_max ts).

(** [semantic_source_digest] hashes JSON with SHA-256, outside this model. *)
Section leaf.
Context {V : Type} (semantic_source_digest : Z → V → string).
Definition from_source (ts : datetime) (v : V) : res SourceLineage :=
  at_ ← lineage_utc ts; from_digest ts (semantic_source_digest at_ v).
End leaf.

(** ** Invariant *)

Record lineage_wf (s : SourceLineage) : Prop := {
  lw_count : 0 ≤ sl_count s;
  lw_sum : 0 ≤ digest_sum s < digest_modulus;
  lw_xor : 0 ≤ digest_xor s < digest_modulus;
  lw_empty : sl_count s = 0 → s = empty_lineage;
  lw_bounds : sl_count s ≠ 0 → ∃ o n,
    oldest_timestamp s = Some o ∧ newest_timestamp s = Some n ∧ o ≤ n }.

Lemma empty_lineage_wf : lineage_wf empty_lineage.
Proof. constructor; simpl; done. Qed.

Lemma mk_lineage_wf count sum xor o n s : mk_lineage count sum xor o n = Ok s → lineage_wf s.
Proof.
  unfold mk_lineage. intros H. inv_res. destruct (Z.eqb_spec count 0) as [->|Hc].
  - inv_res. subst s. apply empty_lineage_wf.
  - destruct o as [o|], n as [n|]; try done. inv_res. subst s. 
    apply andb_true_iff in H0 as [? ?], H1 as [? ?]. 
    constructor; simpl; case_cmp; try done; try lia. intros _. eauto.
Qed.

(** A well-formed lineage passes its own validation unchanged. *)
Lemma mk_lineage_self s :
  lineage_wf s → sl_count s ≠ 0 →
  mk_lineage (sl_count s) (digest_sum s) (digest_xor s)
    (utc <$> oldest_timestamp s) (utc <$> newest_timestamp s) = Ok s.
Proof.
  intros [Hc Hs Hx _ Hb] Hn. destruct (Hb Hn) as (o & n & Ho & Hne & Hle).
  unfold mk_lineage, lineage_utc. rewrite Ho, Hne. simpl.
  destruct (Z.ltb_spec (sl_count s) 0); [lia|]. simpl.
  rewrite (proj2 (Z.leb_le 0 (digest_sum s))), (proj2 (Z.ltb_lt (digest_sum s) _)) by apply Hs.
  rewrite (proj2 (Z.leb_le 0 (digest_xor s))), (proj2 (Z.ltb_lt (digest_xor s) _)) by apply Hx.
  simpl.
  destruct (Z.eqb_spec (sl_count s) 0); [done|]. rewrite !Z.sub_0_r.
  destruct (Z.ltb_spec n o); [lia|]. simpl. destruct s; simpl in *. congruence.
Qed.

(** ** Specification: the commutative monoid of commitments *)

Definition merge_opt (f : Z → Z → Z) : option Z → option Z → option Z :=
  union_with (λ x y, Some (f x y)).

Definition merge (a b : SourceLineage) : SourceLineage :=
  {| sl_count := sl_count a + sl_count b;
     digest_sum := (digest_sum a + digest_sum b) mod digest_modulus;
     digest_xor := Z.lxor (digest_xor a) (digest_xor b);
     oldest_timestamp := merge_opt Z.min (oldest_timestamp a) (oldest_timestamp b);
     newest_timestamp := merge_opt Z.max (newest_timestamp a) (newest_timestamp b) |}.

Definition merge_all (l : list SourceLineage) : SourceLineage := foldr merge empty_lineage l.

Lemma digest_modulus_pos : 0 < digest_modulus.
Proof. done. Qed.

Lemma lxor_bounds a b :
  0 ≤ a < digest_modulus → 0 ≤ b < digest_modulus → 0 ≤ Z.lxor a b < digest_modulus.
Proof.
  change digest_modulus with (2 ^ 256). intros Ha Hb. split.
  - apply Z.lxor_nonneg. lia.
  - destruct (Z.eq_dec (Z.lxor a b) 0) as [->|Hn]; [done|].
    assert (0 ≤ Z.lxor a b) by (apply Z.lxor_nonneg; lia).
    apply Z.log2_lt_pow2; [lia|]. pose proof (Z.log2_lxor a b) as Hl.
    assert (∀ x, 0 ≤ x < 2 ^ 256 → Z.log2 x < 256) as Hlog.
    { intros x Hx. destruct (Z.eq_dec x 0) as [->|]; [done|]. apply Z.log2_lt_pow2; lia. }
    specialize (Hl ltac:(lia) ltac:(lia)). pose proof (Hlog a Ha). pose proof (Hlog b Hb). lia.
Qed.

Lemma merge_opt_assoc f a b c :
  (∀ x y z, f x (f y z) = f (f x y) z) →
  merge_opt f a (merge_opt f b c) = merge_opt f (merge_opt f a b) c.
Proof. intros Hf. destruct a, b, c; simpl; try done. by rewrite Hf. Qed.

Lemma merge_opt_comm f a b : (∀ x y, f x y = f y x) → merge_opt f a b = merge_opt f b a.
Proof. intros Hf. destruct a, b; simpl; try done. by rewrite Hf. Qed.

Lemma merge_wf a b : lineage_wf a → lineage_wf b → lineage_wf (merge a b).
Proof.
  intros [Ca Sa Xa Ea Ba] [Cb Sb Xb Eb Bb]. constructor; simpl.
  - lia.
  - by apply Z.mod_pos_bound.
  - by apply lxor_bounds.
  - intros E. rewrite Ea, Eb by lia. done.
  - intros E. destruct (Z.eq_dec (sl_count a) 0) as [Ha|Ha], (Z.eq_dec (sl_count b) 0) as [Hb|Hb].
    + lia.
    + rewrite (Ea Ha). destruct (Bb Hb) as (o & n & -> & -> & ?). simpl. eauto.
    + rewrite (Eb Hb). destruct (Ba Ha) as (o & n & -> & -> & ?). simpl. eauto.
    + destruct (Ba Ha) as (o & n & -> & -> & ?), (Bb Hb) as (o' & n' & -> & -> & ?). simpl.
      do 2 eexists. repeat split; try done. lia.
Qed.

Lemma merge_comm a b : merge a b = merge b a.
Proof.
  unfold merge. f_equal; [lia|f_equal; lia|apply Z.lxor_comm|apply merge_opt_comm, Z.min_comm|
    apply merge_opt_comm, Z.max_comm].
Qed.

Lemma merge_assoc a b c : merge a (merge b c) = merge (merge a b) c.
Proof.
  unfold merge. simpl. f_equal; [lia| | |apply merge_opt_assoc, Z.min_assoc|
    apply merge_opt_assoc, Z.max_assoc].
  - rewrite Zplus_mod_idemp_r, Zplus_mod_idemp_l. f_equal. lia.
  - symmetry. apply Z.lxor_assoc.
Qed.

Lemma merge_empty_l a : lineage_wf a → merge empty_lineage a = a.
Proof.
  intros [_ Hs _ _ _]. destruct a; unfold merge; simpl in *.
  f_equal; [by apply Z.mod_small|destruct oldest_timestamp0; done|destruct newest_timestamp0; done].
Qed.

Lemma merge_all_wf l : Forall lineage_wf l → lineage_wf (merge_all l).
Proof. induction 1; simpl; [apply empty_lineage_wf|by apply merge_wf]. Qed.

Lemma merge_all_app l1 l2 :
  Forall lineage_wf l2 →
  merge_all (l1 ++ l2) = merge (merge_all l1) (merge_all l2).
Proof.
  intros Hl2. induction l1 as [|x l1 IH]; simpl.
  - by rewrite merge_empty_l by by apply merge_all_wf.
  - by rewrite IH, merge_assoc.
Qed.

Lemma merge_all_perm l1 l2 : l1 ≡ₚ l2 → merge_all l1 = merge_all l2.
Proof.
  induction 1 as [|x l1 l2 _ IH|x y l|]; simpl; [done|by rewrite IH| |congruence].
  by rewrite !merge_assoc, (merge_comm y x).
Qed.

(** ** [combine] is the monoid *)

Lemma foldl_min_acc x l : ∀ y, foldl Z.min (Z.min x y) l = Z.min x (foldl Z.min y l).
Proof. induction l as [|z l IH]; intros y; simpl; [done|]. by rewrite <- Z.min_assoc, IH. Qed.
Lemma foldl_max_acc x l : ∀ y, foldl Z.max (Z.max x y) l = Z.max x (foldl Z.max y l).
Proof. induction l as [|z l IH]; intros y; simpl; [done|]. by rewrite <- Z.max_assoc, IH. Qed.

Lemma list_min_app a b : list_min (a ++ b) = merge_opt Z.min (list_min a) (list_min b).
Proof.
  destruct a as [|x a], b as [|y b]; simpl; try done; [by rewrite app_nil_r|].
  rewrite foldl_app. simpl. by rewrite foldl_min_acc.
Qed.
Lemma list_max_app a b : list_max (a ++ b) = merge_opt Z.max (list_max a) (list_max b).
Proof.
  destruct a as [|x a], b as [|y b]; simpl; try done; [by rewrite app_nil_r|].
  rewrite foldl_app. simpl. by rewrite foldl_max_acc.
Qed.

Lemma bounds_wf s :
  lineage_wf s →
  list_min (bounds s) = oldest_timestamp s ∧ list_max (bounds s) = newest_timestamp s.
Proof.
  intros [_ _ _ He Hb]. destruct (Z.eq_dec (sl_count s) 0) as [E|E].
  - by rewrite (He E).
  - destruct (Hb E) as (o & n & Ho & Hn & Hle). unfold bounds. rewrite Ho, Hn. simpl.
    split; f_equal; lia.
Qed.

Lemma combine_fold others : ∀ m ts,
  Forall lineage_wf others → list_min ts = oldest_timestamp m → list_max ts = newest_timestamp m →
  ∃ ts', foldl combine_step (sl_count m, digest_sum m, digest_xor m, ts) others =
    (let m' := foldl merge m others in (sl_count m', digest_sum m', digest_xor m', ts')) ∧
    list_min ts' = oldest_timestamp (foldl merge m others) ∧
    list_max ts' = newest_timestamp (foldl merge m others).
Proof.
  induction others as [|o others IH]; intros m ts Hwf Hmin Hmax; [by exists ts|].
  inversion Hwf as [|?? Ho Hrest]; subst. apply bounds_wf in Ho as [Hbmin Hbmax].
  cbn [foldl combine_step]. apply (IH (merge m o)); [done|..].
  - by rewrite list_min_app, Hmin, Hbmin.
  - by rewrite list_max_app, Hmax, Hbmax.
Qed.

Lemma foldl_merge m l : lineage_wf m → Forall lineage_wf l → foldl merge m l = merge m (merge_all l).
Proof.
  intros Hm Hl. revert m Hm. induction Hl as [|x l Hx Hl IH]; intros m Hm; simpl.
  - by rewrite merge_comm, merge_empty_l.
  - rewrite IH by by apply merge_wf. by rewrite merge_assoc.
Qed.

Lemma combine_merge self others :
  lineage_wf self → Forall lineage_wf others →
  combine self others = Ok (merge self (merge_all others)).
Proof.
  intros Hs Ho. unfold combine. destruct (bounds_wf self Hs) as [Hmin Hmax].
  destruct (combine_fold others self (bounds self) Ho Hmin Hmax) as (ts & -> & Hmin' & Hmax').
  cbn zeta. rewrite foldl_merge in * by done.
  assert (lineage_wf (merge self (merge_all others))) as Hwf by by apply merge_wf, merge_all_wf.
  destruct (Z.eqb_spec (sl_count (merge self (merge_all others))) 0) as [E|E].
  - by rewrite (lw_empty _ Hwf E).
  - rewrite Hmin', Hmax'. by apply mk_lineage_self.
Qed.


Definition leaf_demo (ts n : Z) : SourceLineage :=
  {| sl_count := 1; digest_sum := n; digest_xor := n;
     oldest_timestamp := Some ts; newest_timestamp := Some ts |}.

Example from_digest_ex :
  from_digest (utc 7) "00000000000000000000000000000000000000000000000000000000000000fF" =
    Ok (leaf_demo 7 255) ∧
  from_digest (utc 7) "ff" = Err (ValueError "source-lineage item digest must be SHA-256") ∧
  from_digest (utc 7) "-000000000000000000000000000000000000000000000000000000000000001" =
    Err (ValueError "source-lineage digest sum is outside uint256").
Proof. by vm_compute. Qed.


(** ** Hexadecimal digests

    [hashlib.sha256(...).hexdigest()] is 64 hexadecimal digits; such a digest is
    always accepted. *)
Definition hex_text (s : string) : Prop :=
  String.length s = 64%nat ∧ Forall (λ c, is_Some (hex_digit c)) (chars s).

Lemma hex_char_inert c :
  is_Some (hex_digit c) →
  is_space c = false ∧ Ascii.eqb c "-" = false ∧ Ascii.eqb c "+" = false ∧
  Ascii.eqb (upper_char c) "X" = false ∧ ∃ d, hex_digit c = Some d ∧ 0 ≤ d < 16.
Proof.
  destruct c as [[] [] [] [] [] [] [] []]; vm_compute; intros [d Hd]; try discriminate Hd;
    repeat split; eexists; (split; [reflexivity|]); split; congruence.
Qed.

Lemma hex_digits_bound l : ∀ b acc,
  Forall (λ c, is_Some (hex_digit c)) l → l ≠ [] ∨ b = true → 0 ≤ acc →
  ∃ n, hex_digits l b acc = Some n ∧ 0 ≤ n < (acc + 1) * 16 ^ Z.of_nat (length l).
Proof.
  induction l as [|c l IH]; intros b acc Hl Hb Hacc.
  - destruct Hb as [| ->]; [done|]. exists acc. split; [done|].
    change (16 ^ Z.of_nat (length (@nil ascii))) with 1. lia.
  - inversion Hl as [|?? Hc Hl']; subst.
    apply hex_char_inert in Hc as (_ & _ & _ & _ & d & Hd & Hdb). simpl. rewrite Hd.
    destruct (IH true (16 * acc + d) Hl') as (n & Hn & Hn'); [by right|lia|].
    exists n. split; [done|].
    replace (Z.of_nat (S (length l))) with (Z.succ (Z.of_nat (length l))) by lia.
    rewrite Z.pow_succ_r by lia. nia.
Qed.

Lemma chars_length s : length (chars s) = String.length s.
Proof. unfold chars. induction s as [|c s IH]; simpl; [done|by rewrite IH]. Qed.

Lemma int16_hex s : hex_text s → ∃ n, int16 s = Some n ∧ 0 ≤ n < digest_modulus.
Proof.
  intros [Hlen Hall]. unfold int16. rewrite <- chars_length in Hlen.
  destruct (chars s) as [|c1 [|c2 l]] eqn:E; [done|done|].
  rewrite strip_inert by (eapply Forall_impl; [exact Hall|]; intros c Hc;
    by apply hex_char_inert in Hc as [? _]).
  destruct (hex_digits_bound (c1 :: c2 :: l) false 0 Hall) as (n & Hn & Hb); [by left|lia|].
  inversion Hall as [|?? H1 Hrest]; subst. inversion Hrest as [|?? H2 _]; subst.
  apply hex_char_inert in H1 as (_ & M1 & P1 & _). apply hex_char_inert in H2 as (_ & _ & _ & X2 & _).
  unfold parse_sign. rewrite M1, P1. unfold hex_prefix. rewrite X2, andb_false_r, Hn.
  exists n. split; [done|]. rewrite Hlen in Hb. exact Hb.
Qed.

Lemma from_digest_hex ts digest :
  hex_text digest → ∃ l, from_digest (utc ts) digest = Ok l ∧ lineage_wf l ∧ sl_count l = 1.
Proof.
  intros Hd. pose proof Hd as [Hlen _]. destruct (int16_hex _ Hd) as (n & Hn & Hb).
  unfold from_digest. rewrite Hlen, Hn. unfold lineage_utc. simpl. rewrite Z.sub_0_r.
  set (l := {| sl_count := 1; digest_sum := n; digest_xor := n;
               oldest_timestamp := Some ts; newest_timestamp := Some ts |}).
  assert (lineage_wf l) as Hwf.
  { constructor; simpl; try done. intros _. exists ts, ts. by repeat split. }
  exists l. split; [|done]. apply (mk_lineage_self l Hwf). done.
Qed.
