(* ===== verification/Symbols.v ===== *)
(** * Symbols and contract metadata

    [exchanges/symbols.py] (canonical and venue symbols), the symbol map
    validator of [config.py] and [normalization/instruments.py] (contract
    specifications).  A [dict] is a list of its items in insertion order. *)

From S2P Require Import Prelude PyDecimal PyTime Models.
From Stdlib Require Import Ascii.

(** ** Symbol maps *)

Definition symbol_map : Type := list (Exchange * list (string * string)).

Definition DEFAULT_SYMBOL_MAP : symbol_map :=
  [(BINANCE, [("BTC-USDT-PERP", "BTCUSDT"); ("ETH-USDT-PERP", "ETHUSDT")]%string);
   (OKX, [("BTC-USDT-PERP", "BTC-USDT-SWAP"); ("ETH-USDT-PERP", "ETH-USDT-SWAP")]%string)].

Definition supported_exchange (e : Exchange) : res Exchange :=
  match e with
  | BINANCE | OKX => Ok e
  | _ => Err (UnknownSymbolError "no market-data symbol map for exchange")
  end.

Definition to_exchange_symbol (e : Exchange) (canonical_symbol : string) (m : symbol_map)
    : res string :=
  venue ← supported_exchange e;
  canonical ← validate_canonical_symbol canonical_symbol false;
  match dict_get venue m ≫= dict_get canonical with
  | Some v => Ok v
  | None => Err (UnknownSymbolError "is not configured for")
  end.

(** [{raw.upper(): canonical for canonical, raw in symbols.items()}]: a later item
    overwrites an earlier one. *)
Definition reverse_symbols (symbols : list (string * string)) : list (string * string) :=
  foldl (λ acc '(canonical, raw), dict_set (str_upper raw) canonical acc) [] symbols.

Definition to_canonical_symbol (e : Exchange) (venue_symbol : string) (m : symbol_map)
    : res string :=
  venue ← supported_exchange e;
  let normalized := str_upper (str_strip venue_symbol) in
  match dict_get venue m with
  | None => Err KeyError
  | Some symbols =>
    match dict_get normalized (reverse_symbols symbols) with
    | Some canonical => Ok canonical
    | None => Err (UnknownSymbolError "is not configured for")
    end
  end.

(** [config.py: ExchangeConnectionConfig.validate_symbol_map]. *)
Fixpoint normalize_symbols (value acc : list (string * string)) : res (list (string * string)) :=
  match value with
  | [] => Ok acc
  | (key, venue) :: value =>
    k ← validate_canonical_symbol key false;
    normalize_symbols value (dict_set k (str_upper venue) acc)
  end.

Definition validate_symbol_map (value : list (string * string)) : res (list (string * string)) :=
  normalized ← normalize_symbols value [];
  _ ← require (bool_decide (NoDup (map snd normalized)))
        (ValueError "venue symbols must be unique within an exchange");
  Ok normalized.

(** ** Contract specifications *)

Record ContractSpecification := {
  spec_exchange : Exchange;
  spec_canonical_symbol : string;
  spec_venue_symbol : string;
  contract_value : decimal;
  contract_multiplier : decimal;
  contract_value_currency : string }.

(** The field types and [validate_linear_value_currency]. *)
Definition mk_specification (e : Exchange) (canonical venue : string) (value mult : decimal)
    (currency : string) : res ContractSpecification :=
  _ ← positive value;
  _ ← positive mult;
  c ← validate_canonical_symbol canonical false;
  _ ← require (bool_decide (str_upper currency = of_chars (hd [] (split_chars "-" (chars c)))))
        (ValueError "linear contract value currency must match the canonical base currency");
  Ok {| spec_exchange := e; spec_canonical_symbol := canonical; spec_venue_symbol := venue;
        contract_value := value; contract_multiplier := mult;
        contract_value_currency := currency |}.

Definition base_units_per_contract (s : ContractSpecification) : decimal :=
  dmul (contract_value s) (contract_multiplier s).

Definition contracts_to_base (s : ContractSpecification) (contracts : decimal) : decimal :=
  dmul contracts (base_units_per_contract s).

(** ** Case folding *)

Lemma upper_char_idemp c : upper_char (upper_char c) = upper_char c.
Proof. by destruct c as [[] [] [] [] [] [] [] []]. Qed.

Lemma str_upper_idemp s : str_upper (str_upper s) = str_upper s.
Proof.
  unfold str_upper. rewrite chars_of_chars, List.map_map. f_equal.
  apply List.map_ext, upper_char_idemp.
Qed.

(** ** The symbol maps are mutually inverse *)

Lemma reverse_symbols_get symbols canonical raw :
  NoDup (map (str_upper ∘ snd) symbols) → (canonical, raw) ∈ symbols →
  dict_get (str_upper raw) (reverse_symbols symbols) = Some canonical.
Proof.
  unfold reverse_symbols. revert canonical raw.
  induction symbols as [|[c r] symbols IH] using rev_ind; intros canonical raw Hnd Hin.
  { by apply elem_of_nil in Hin. }
  rewrite foldl_app. simpl. rewrite map_app in Hnd. simpl in Hnd.
  apply NoDup_app in Hnd as (Hnd & Hdis & _).
  apply elem_of_app in Hin as [Hin|Hin].
  - rewrite dict_get_set_ne; [by apply IH|]. apply bool_decide_eq_false.
    intros E. apply (Hdis (str_upper raw)).
    + change (str_upper raw) with ((str_upper ∘ snd) (canonical, raw)).
      by apply (list_elem_of_fmap_2 (str_upper ∘ snd)).
    + rewrite E. left.
  - apply list_elem_of_singleton in Hin as [= -> ->]. by rewrite dict_get_set_eq by apply pyeq_refl.
Qed.

Lemma reverse_symbols_elem symbols k canonical :
  dict_get k (reverse_symbols symbols) = Some canonical →
  ∃ raw, (canonical, raw) ∈ symbols ∧ str_upper raw = k.
Proof.
  unfold reverse_symbols. induction symbols as [|[c r] symbols IH] using rev_ind; [done|].
  rewrite foldl_app. simpl. destruct (pyeq k (str_upper r)) eqn:E.
  - rewrite dict_get_set_eq by done. intros [= ->]. exists r.
    split; [apply elem_of_app; right; left|]. symmetry. by apply bool_decide_eq_true in E.
  - rewrite dict_get_set_ne by done. intros (raw & Hin & Hr)%IH. exists raw.
    split; [apply elem_of_app; by left|done].
Qed.

#[local] Arguments validate_canonical_symbol : simpl never.

(** What the round trips need of the map of one venue: canonical keys, once each,
    and venue symbols that differ even after upper-casing and carry no spaces. *)
Record venue_map_wf (symbols : list (string * string)) : Prop := {
  vm_keys : dict_wf symbols;
  vm_canonical : ∀ c r, (c, r) ∈ symbols → validate_canonical_symbol c false = Ok c;
  vm_distinct : NoDup (map (str_upper ∘ snd) symbols);
  vm_stripped : ∀ c r, (c, r) ∈ symbols → str_strip r = r }.

(** C40. For a supported exchange with a well-formed map the two translations are
    inverse: a canonical symbol survives the trip to the venue and back, and a
    venue symbol in any case and with any surrounding spaces comes back
    upper-case equal. *)
Theorem symbol_round_trip e m symbols :
  supported_exchange e = Ok e → dict_get e m = Some symbols → venue_map_wf symbols →
  (∀ c v, to_exchange_symbol e c m = Ok v →
     ∃ c', validate_canonical_symbol c false = Ok c' ∧ to_canonical_symbol e v m = Ok c') ∧
  (∀ v c, to_canonical_symbol e v m = Ok c →
     ∃ v', to_exchange_symbol e c m = Ok v' ∧ str_upper v' = str_upper (str_strip v)).
Proof.
  intros He Hm [Hk Hc Hd Hs]. split.
  - intros c v. unfold to_exchange_symbol. rewrite He. intros H. cbn in H. inv_res.
    rename x into c'. rewrite Hm in H0. simpl in H0.
    destruct (dict_get c' symbols) as [v'|] eqn:E; [|done]. injection H0 as ->.
    apply dict_get_elem in E as (k & Hin & Ek). apply bool_decide_eq_true in Ek as <-.
    exists c'. split; [done|]. unfold to_canonical_symbol. rewrite He. cbn.
    by rewrite Hm, (Hs _ _ Hin), (reverse_symbols_get _ _ _ Hd Hin).
  - intros v c. unfold to_canonical_symbol. rewrite He. cbn. rewrite Hm.
    destruct (dict_get _ (reverse_symbols symbols)) as [c'|] eqn:E; [|done].
    intros [= ->]. apply reverse_symbols_elem in E as (raw & Hin & Hr).
    exists raw. split; [|done]. unfold to_exchange_symbol. rewrite He. cbn.
    rewrite (Hc _ _ Hin). cbn. rewrite Hm. simpl. by rewrite (elem_dict_get c raw).
Qed.

(** The same conditions as a test, for concrete maps. *)
Definition venue_map_check (symbols : list (string * string)) : bool :=
  bool_decide (NoDup (map fst symbols)) &&
  bool_decide (NoDup (map (str_upper ∘ snd) symbols)) &&
  forallb (λ '(c, r), bool_decide (validate_canonical_symbol c false = Ok c) &&
                      bool_decide (str_strip r = r)) symbols.

Lemma dict_wf_fst {K V} `{EqDecision K} (d : list (K * V)) : NoDup (map fst d) → dict_wf d.
Proof.
  induction d as [|[k v] d IH]; simpl; [done|]. intros [Hk Hnd]%NoDup_cons.
  split; [|auto]. apply dict_get_None_elem. intros k' v' Hin. apply bool_decide_eq_false.
  intros <-. apply Hk. by apply (list_elem_of_fmap_2 fst _ (k, v')).
Qed.

Lemma venue_map_check_wf symbols : venue_map_check symbols = true → venue_map_wf symbols.
Proof.
  intros [[H1%bool_decide_eq_true H2%bool_decide_eq_true]%andb_true_iff H3]%andb_true_iff.
  rewrite forallb_forall in H3.
  assert (∀ c r, (c, r) ∈ symbols →
    validate_canonical_symbol c false = Ok c ∧ str_strip r = r) as Hin.
  { intros c r [Hc%bool_decide_eq_true Hr%bool_decide_eq_true]%list_elem_of_In%H3%andb_true_iff.
    done. }
  constructor; [by apply dict_wf_fst| |done|]; intros c r H%Hin; apply H.
Qed.

Lemma default_map_wf e symbols : dict_get e DEFAULT_SYMBOL_MAP = Some symbols → venue_map_wf symbols.
Proof.
  intros H. apply venue_map_check_wf. destruct e; vm_compute in H; try discriminate H;
    injection H as <-; vm_compute; reflexivity.
Qed.

Lemma symbol_round_trip_witness :
  to_exchange_symbol OKX " eth-usdt-perp" DEFAULT_SYMBOL_MAP = Ok "ETH-USDT-SWAP"%string ∧
  (∃ c', validate_canonical_symbol " eth-usdt-perp" false = Ok c' ∧
     to_canonical_symbol OKX "ETH-USDT-SWAP" DEFAULT_SYMBOL_MAP = Ok c').
Proof.
  split; [vm_compute; reflexivity|].
  destruct (symbol_round_trip OKX DEFAULT_SYMBOL_MAP
    [("BTC-USDT-PERP", "BTC-USDT-SWAP"); ("ETH-USDT-PERP", "ETH-USDT-SWAP")]%string
    eq_refl eq_refl (default_map_wf OKX _ eq_refl)) as [H _].
  apply H. vm_compute. reflexivity.
Defined.

(** The validator of a configured map makes its venue symbols distinct. *)
Lemma normalize_symbols_wf value : ∀ acc out,
  normalize_symbols value acc = Ok out → dict_wf acc →
  (∀ c r, (c, r) ∈ acc → str_upper r = r) →
  dict_wf out ∧ (∀ c r, (c, r) ∈ out → str_upper r = r).
Proof.
  induction value as [|[key venue] value IH]; simpl; intros acc out H Hwf Hup.
  - by injection H as <-.
  - inv_res. eapply IH; [done|by apply dict_wf_set|].
    intros c r Hin. destruct (dict_set_values _ _ _ _ _ Hin) as [->|Hin']; [|eauto].
    apply str_upper_idemp.
Qed.

(** A symbol map accepted by the configuration validator has each canonical
    key once, and venue symbols that are upper case and pairwise distinct even
    after upper-casing, so no venue message can be attributed to two symbols. *)
Theorem validate_symbol_map_injective value out :
  validate_symbol_map value = Ok out →
  dict_wf out ∧ NoDup (map (str_upper ∘ snd) out) ∧
  (∀ c r, (c, r) ∈ out → dict_get (str_upper r) (reverse_symbols out) = Some c).
Proof.
  unfold validate_symbol_map. intros H. inv_res. subst x.
  apply bool_decide_eq_true in H0.
  apply normalize_symbols_wf in H as [Hwf Hup]; [|done|by intros ?? ?%elem_of_nil].
  assert (map (str_upper ∘ snd) out = map snd out) as Hmap.
  { apply List.map_ext_in. intros [c r] Hin%list_elem_of_In. by apply (Hup c r). }
  assert (NoDup (map (str_upper ∘ snd) out)) as Hnd by by rewrite Hmap.
  split; [done|]. split; [done|]. intros c r. by apply reverse_symbols_get.
Qed.

Lemma validate_symbol_map_injective_witness :
  ∃ out, validate_symbol_map [("btc-usdt-perp", "btcusdt"); ("ETH-USDT-PERP", "ETHUSDT")]%string =
    Ok out ∧ NoDup (map (str_upper ∘ snd) out) ∧
  validate_symbol_map [("BTC-USDT-PERP", "x"); ("ETH-USDT-PERP", "X")]%string =
    Err (ValueError "venue symbols must be unique within an exchange").
Proof.
  eexists. split; [vm_compute; reflexivity|]. split; [|vm_compute; reflexivity].
  apply (validate_symbol_map_injective [("btc-usdt-perp", "btcusdt"); ("ETH-USDT-PERP", "ETHUSDT")]%string).
  vm_compute. reflexivity.
Defined.

(** ** Exact conversion to base units *)

(** Positive contract metadata: the conversion keeps the sign, and is the exact
    product as long as it needs at most 28 digits. *)
Lemma contracts_to_base_exact s c :
  Z.abs (dcoef (contract_value s) * dcoef (contract_multiplier s)) < 10 ^ prec →
  Z.abs (dcoef c * (dcoef (contract_value s) * dcoef (contract_multiplier s))) < 10 ^ prec →
  contracts_to_base s c =
    Dec (dcoef c * (dcoef (contract_value s) * dcoef (contract_multiplier s)))
        (dexp c + (dexp (contract_value s) + dexp (contract_multiplier s))).
Proof.
  intros H1 H2. unfold contracts_to_base, base_units_per_contract, dmul.
  rewrite (dfix_exact (Dec (_ * _) (dexp (contract_value s) + _))) by done. simpl.
  by rewrite dfix_exact.
Qed.
