(* ===== verification/NormBinance.v ===== *)
(** * Binance normalization

    [normalization/common.py] (the context and timing of a normalization) and
    [normalization/binance.py] (typed payloads and their normalization).  The
    validation of one raw JSON object against a payload model is pydantic's; it
    is a parameter of the parser, which is modelled down to its dispatch. *)

From stdpp Require Import pretty.
From S2P Require Import Prelude PyDecimal PyFloat PyTime Models Symbols.

(** ** JSON and the normalization context *)

#[warnings="-register-all"]
Inductive json :=
| JNull
| JBool (b : bool)
| JInt (n : Z)
| JFloat (f : float)
| JStr (s : string)
| JList (l : list json)
| JObj (o : list (string * json)).

Definition jget (k : string) (o : list (string * json)) : option json := dict_get k o.
Definition jhas (k : string) (o : list (string * json)) : bool := match jget k o with Some _ => true | None => false end.

Record NormalizationContext := {
  ctx_receive : Z;
  ctx_normalization : Z;
  ctx_reference : option string;
  ctx_canonical_symbol : option string }.

Definition mk_context (receive normalization : datetime) (ref sym : option string)
    : res NormalizationContext :=
  r ← as_utc "local_receive_timestamp must be timezone-aware" receive;
  n ← as_utc "normalization_timestamp must be timezone-aware" normalization;
  Ok {| ctx_receive := r; ctx_normalization := n; ctx_reference := ref;
        ctx_canonical_symbol := sym |}.

(** [EventMetadata]: the keyword arguments shared by the event constructors. *)
Record EventMetadata := {
  em_exchange : Exchange;
  em_symbol : string;
  em_exchange_timestamp : Z;
  em_receive : Z;
  em_normalization : Z;
  em_sequence_id : option seq_id;
  em_reference : option string }.

(** An event constructor validates its metadata first. *)
Definition event_base (t : EventType) (m : EventMetadata) : res metadata :=
  mk_metadata t (em_exchange m) (em_symbol m) (utc (em_exchange_timestamp m))
    (utc (em_receive m)) (utc (em_normalization m)) (em_sequence_id m) (em_reference m).

(** [_metadata] of both venues. *)
Definition venue_metadata (venue : Exchange) (ts : Z + string) (ctx : NormalizationContext)
    (venue_symbol : string) (seq : option Z) : res EventMetadata :=
  sym ← to_canonical_symbol venue venue_symbol DEFAULT_SYMBOL_MAP;
  t ← timestamp_from_milliseconds ts;
  Ok {| em_exchange := venue; em_symbol := sym; em_exchange_timestamp := t;
        em_receive := ctx_receive ctx; em_normalization := ctx_normalization ctx;
        em_sequence_id := SeqInt <$> seq; em_reference := ctx_reference ctx |}.

(** [a or b] on an optional integer: zero is false too. *)
Definition int_or (a : option Z) (b : Z) : Z :=
  match a with Some n => if n =? 0 then b else n | None => b end.

(** ** What normalization promises *)

(** Metadata of an event of [venue] normalized in [ctx]. *)
Definition meta_of (venue : Exchange) (ctx : NormalizationContext) (m : metadata) : Prop :=
  exchange m = venue ∧ canonical_perpetual (symbol m) = true ∧
  local_receive_timestamp m = ctx_receive ctx ∧
  normalization_timestamp m = ctx_normalization ctx ∧
  raw_payload_reference m = ctx_reference ctx.

Definition event_of (venue : Exchange) (ctx : NormalizationContext) (e : event) : Prop :=
  event_valid e ∧ meta_of venue ctx (event_meta e).

Lemma mk_metadata_Ok t e sym ets lts nts seq ref m :
  mk_metadata t e sym (utc ets) (utc lts) (utc nts) seq ref = Ok m → t ≠ EXCHANGE_HEALTH →
  exchange m = e ∧ canonical_perpetual (symbol m) = true ∧ exchange_timestamp m = ets ∧
  local_receive_timestamp m = lts ∧ normalization_timestamp m = nts ∧
  sequence_id m = seq ∧ raw_payload_reference m = ref ∧
  validate_canonical_symbol sym true = Ok (symbol m).
Proof.
  unfold mk_metadata. intros H Ht. inv_res. rewrite as_utc_utc in *. inv_res. subst.
  simpl. repeat split; try done.
  apply orb_true_iff in H3 as [H3|H3%bool_decide_eq_true]; [|done].
  apply negb_true_iff, bool_decide_eq_false in H3.
  unfold validate_canonical_symbol in H. simpl in H.
  case_bool_decide; simpl in H; inv_res; congruence.
Qed.

Lemma venue_metadata_of venue ts ctx vs seq md t m :
  venue_metadata venue ts ctx vs seq = Ok md → event_base t md = Ok m →
  t ≠ EXCHANGE_HEALTH → meta_of venue ctx m.
Proof.
  unfold venue_metadata, event_base. intros H Hm Ht. inv_res. subst md. simpl in Hm.
  apply mk_metadata_Ok in Hm as (? & ? & ? & ? & ? & ? & ? & ?); [|done]. done.
Qed.

(** Split the events of a normalization and apply the lemmas of their models. *)
Ltac solve_events :=
  intros; inv_res; subst;
  repeat match goal with
  | H : mk_trade _ _ _ _ _ _ = Ok _ |- _ => apply mk_trade_event in H as [? ?]
  | H : mk_update _ _ _ _ _ _ = Ok _ |- _ => apply mk_update_event in H as [? ?]; [|by eauto..]
  | H : mk_snapshot _ _ _ _ _ _ = Ok _ |- _ =>
      apply mk_snapshot_event in H as [? ?]; [|by eauto..]
  | H : mk_best_bid_ask _ _ _ _ _ = Ok _ |- _ => apply mk_best_bid_ask_event in H as [? ?]
  | H : mk_open_interest _ _ _ _ = Ok _ |- _ => apply mk_open_interest_event in H as [? ?]
  | H : mk_funding_rate _ _ _ = Ok _ |- _ => apply mk_funding_rate_event in H as [? ?]
  | H : mk_mark_price _ _ = Ok _ |- _ => apply mk_mark_price_event in H as [? ?]
  | H : mk_index_price _ _ = Ok _ |- _ => apply mk_index_price_event in H as [? ?]
  | H : mk_liquidation _ _ _ _ _ _ = Ok _ |- _ => apply mk_liquidation_event in H as [? ?]
  end; subst;
  repeat (apply List.Forall_cons; [split; [assumption|try by eapply venue_metadata_of]|]);
  try apply List.Forall_nil.

(** ** Payload models *)

Module Binance.
Definition book_level_text : Type := string * string.

Record AggTrade := {
  agg_event_time_ms : Z; aggregate_trade_id : Z; agg_symbol : string;
  agg_price : string; agg_quantity : string; first_trade_id : Z; last_trade_id : Z;
  agg_trade_time_ms : Z; buyer_is_maker : bool }.

Record DepthUpdate := {
  du_event_time_ms : Z; du_transaction_time_ms : option Z; du_symbol : string;
  first_update_id : Z; final_update_id : Z; previous_final_update_id : Z;
  du_bids : list book_level_text; du_asks : list book_level_text }.

Record BookTicker := {
  bt_event_time_ms : Z; bt_transaction_time_ms : Z; bt_symbol : string; bt_update_id : Z;
  bt_bid_price : string; bt_bid_quantity : string; bt_ask_price : string;
  bt_ask_quantity : string }.

Record DepthSnapshot := {
  last_update_id : Z; ds_event_time_ms : option Z; ds_transaction_time_ms : option Z;
  ds_bids : list book_level_text; ds_asks : list book_level_text }.

Record MarkPricePayload := {
  mp_event_time_ms : Z; mp_symbol : string; mp_mark_price : string;
  mp_index_price : string; mp_funding_rate : string; next_funding_time_ms : Z }.

Record ForceOrderDetail := {
  fo_symbol : string; fo_side : AggressorSide; original_quantity : string;
  order_price : string; average_price : string; accumulated_filled_quantity : string;
  fo_trade_time_ms : Z }.

Record ForceOrder := { fo_event_time_ms : Z; fo_order : ForceOrderDetail }.

Record OpenInterestPayload := {
  oip_open_interest : string; oip_symbol : string; oip_event_time_ms : Z }.

Inductive payload :=
| PAggTrade (p : AggTrade)
| PDepthUpdate (p : DepthUpdate)
| PBookTicker (p : BookTicker)
| PDepthSnapshot (p : DepthSnapshot)
| PMarkPrice (p : MarkPricePayload)
| PForceOrder (p : ForceOrder)
| POpenInterest (p : OpenInterestPayload).

(** ** Parsing *)

Definition unwrap_payload (p : json) : json :=
  match p with
  | JObj o => match jget "data" o with Some (JObj d) => JObj d | _ => p end
  | _ => p
  end.

(** The payload models the parser selects. *)
Inductive model_name :=
| MAggTrade | MDepthUpdate | MBookTicker | MMarkPrice | MForceOrder | MDepthSnapshot
| MOpenInterest.

Section parse.
(** pydantic's [model_validate]. *)
Context (model_validate : model_name → list (string * json) → res payload).

Definition select_model (raw : list (string * json)) : res model_name :=
  match jget "e" raw with
  | Some (JStr "aggTrade") => Ok MAggTrade
  | Some (JStr "depthUpdate") => Ok MDepthUpdate
  | Some (JStr "bookTicker") => Ok MBookTicker
  | Some (JStr "markPriceUpdate") => Ok MMarkPrice
  | Some (JStr "forceOrder") => Ok MForceOrder
  | _ =>
    if jhas "lastUpdateId" raw && jhas "bids" raw && jhas "asks" raw then Ok MDepthSnapshot
    else if jhas "openInterest" raw && jhas "symbol" raw then Ok MOpenInterest
    else Err (UnsupportedPayloadError "unsupported Binance payload event type")
  end.

Definition parse_payload (p : json) : res payload :=
  match unwrap_payload p with
  | JObj raw => name ← select_model raw; model_validate name raw
  | _ => Err (UnsupportedPayloadError "Binance payload must be a JSON object")
  end.
End parse.

(** ** Normalization *)

Definition levels (l : list book_level_text) : res (list OrderBookLevel) :=
  mapR (λ '(price, quantity),
    p ← decimal_from_text price; q ← decimal_from_text quantity; mk_level p q) l.

Definition normalize_agg_trade (ctx : NormalizationContext) (p : AggTrade) : res (list event) :=
  md ← venue_metadata BINANCE (inl (agg_trade_time_ms p)) ctx (agg_symbol p)
         (Some (aggregate_trade_id p));
  price ← decimal_from_text (agg_price p);
  quantity ← decimal_from_text (agg_quantity p);
  b ← event_base TRADE md;
  t ← mk_trade b (pretty (aggregate_trade_id p)) price quantity None
        (if buyer_is_maker p then SELL else BUY);
  Ok [ETrade t].

Definition normalize_depth_update (ctx : NormalizationContext) (p : DepthUpdate)
    : res (list event) :=
  let timestamp_ms := int_or (du_transaction_time_ms p) (du_event_time_ms p) in
  md ← venue_metadata BINANCE (inl timestamp_ms) ctx (du_symbol p) (Some (final_update_id p));
  bids ← levels (du_bids p);
  asks ← levels (du_asks p);
  b ← event_base ORDER_BOOK_UPDATE md;
  u ← mk_update b bids asks (Some (SeqInt (previous_final_update_id p))) None 0;
  Ok [EBookUpdate u].

Definition normalize_book_ticker (ctx : NormalizationContext) (p : BookTicker)
    : res (list event) :=
  md ← venue_metadata BINANCE (inl (bt_transaction_time_ms p)) ctx (bt_symbol p)
         (Some (bt_update_id p));
  bp ← decimal_from_text (bt_bid_price p);
  bq ← decimal_from_text (bt_bid_quantity p);
  ap ← decimal_from_text (bt_ask_price p);
  aq ← decimal_from_text (bt_ask_quantity p);
  b ← event_base BEST_BID_ASK md;
  q ← mk_best_bid_ask b bp bq ap aq;
  Ok [EBestBidAsk q].

(** [int(receive.timestamp() * 1000)]. *)
Definition receive_ms (ctx : NormalizationContext) : Z :=
  ftrunc (fmul (timestamp (ctx_receive ctx)) (float_of_int 1000)).

Definition normalize_depth_snapshot (ctx : NormalizationContext) (p : DepthSnapshot)
    : res (list event) :=
  match ctx_canonical_symbol ctx with
  | None => Err (UnsupportedPayloadError
      "Binance REST depth snapshot requires context.canonical_symbol")
  | Some sym =>
    let timestamp_ms :=
      int_or (ds_transaction_time_ms p) (int_or (ds_event_time_ms p) (receive_ms ctx)) in
    t ← timestamp_from_milliseconds (inl timestamp_ms);
    bids ← levels (ds_bids p);
    asks ← levels (ds_asks p);
    b ← mk_metadata ORDER_BOOK_SNAPSHOT BINANCE sym (utc t) (utc (ctx_receive ctx))
          (utc (ctx_normalization ctx)) (Some (SeqInt (last_update_id p))) (ctx_reference ctx);
    s ← mk_snapshot b bids asks
          (Z.max (Z.of_nat (length (ds_bids p))) (Z.of_nat (length (ds_asks p)))) None 0;
    Ok [EBookSnapshot s]
  end.

Definition normalize_mark_price (ctx : NormalizationContext) (p : MarkPricePayload)
    : res (list event) :=
  md ← venue_metadata BINANCE (inl (mp_event_time_ms p)) ctx (mp_symbol p) None;
  mark ← decimal_from_text (mp_mark_price p);
  mb ← event_base MARK_PRICE md;
  m ← mk_mark_price mb mark;
  index ← decimal_from_text (mp_index_price p);
  ib ← event_base INDEX_PRICE md;
  i ← mk_index_price ib index;
  rate ← decimal_from_text (mp_funding_rate p);
  next ← timestamp_from_milliseconds (inl (next_funding_time_ms p));
  fb ← event_base FUNDING_RATE md;
  f ← mk_funding_rate fb rate (Some (utc next));
  Ok [EMarkPrice m; EIndexPrice i; EFundingRate f].

(** A forced SELL closes a long position. *)
Definition normalize_force_order (ctx : NormalizationContext) (p : ForceOrder)
    : res (list event) :=
  let order := fo_order p in
  md ← venue_metadata BINANCE (inl (fo_trade_time_ms order)) ctx (fo_symbol order) None;
  filled ← decimal_from_text (accumulated_filled_quantity order);
  quantity ← (if dltb d0 filled then Ok filled
              else decimal_from_text (original_quantity order));
  average ← decimal_from_text (average_price order);
  price ← (if dltb d0 average then Ok average else decimal_from_text (order_price order));
  b ← event_base LIQUIDATION md;
  l ← mk_liquidation b None (match fo_side order with SELL => LONG | BUY => SHORT end)
        price quantity None;
  Ok [ELiquidation l].

Definition normalize_open_interest (ctx : NormalizationContext) (p : OpenInterestPayload)
    : res (list event) :=
  md ← venue_metadata BINANCE (inl (oip_event_time_ms p)) ctx (oip_symbol p) None;
  contracts ← decimal_from_text (oip_open_interest p);
  b ← event_base OPEN_INTEREST md;
  o ← mk_open_interest b contracts None None;
  Ok [EOpenInterest o].

Definition normalize_parsed (ctx : NormalizationContext) (p : payload) : res (list event) :=
  match p with
  | PAggTrade p => normalize_agg_trade ctx p
  | PDepthUpdate p => normalize_depth_update ctx p
  | PBookTicker p => normalize_book_ticker ctx p
  | PDepthSnapshot p => normalize_depth_snapshot ctx p
  | PMarkPrice p => normalize_mark_price ctx p
  | PForceOrder p => normalize_force_order ctx p
  | POpenInterest p => normalize_open_interest ctx p
  end.

Definition normalize (model_validate : model_name → list (string * json) → res payload)
    (ctx : NormalizationContext) (p : json) : res (list event) :=
  parsed ← parse_payload model_validate p; normalize_parsed ctx parsed.

Definition quantity_and_notional (price quantity : string) : res (decimal * decimal) :=
  p ← decimal_from_text price;
  q ← decimal_from_text quantity;
  Ok (q, dmul p q).

(** ** Soundness *)

Lemma binance_levels_valid l ls : levels l = Ok ls → Forall level_valid ls.
Proof.
  unfold levels. rewrite mapR_Ok. induction 1 as [|[p q] x l ls Hx _ IH]; constructor; [|done].
  inv_res. by eapply mk_level_valid.
Qed.
#[local] Hint Resolve binance_levels_valid : core.

Lemma binance_parsed_sound ctx p evs :
  normalize_parsed ctx p = Ok evs → evs ≠ [] ∧ Forall (event_of BINANCE ctx) evs.
Proof.
  destruct p as [p|p|p|p|p|p|p]; cbn [normalize_parsed].
  - unfold normalize_agg_trade. intros; split; [intros ->; by inv_res|]. solve_events.
  - unfold normalize_depth_update. intros; split; [intros ->; by inv_res|]. solve_events.
  - unfold normalize_book_ticker. intros; split; [intros ->; by inv_res|]. solve_events.
  - unfold normalize_depth_snapshot. destruct (ctx_canonical_symbol ctx); [|done].
    intros. inv_res. apply mk_metadata_Ok in H2 as (? & ? & ? & ? & ? & ? & ? & ?); [|done].
    split; [intros ->; by inv_res|]. solve_events. by repeat split.
  - unfold normalize_mark_price. intros; split; [intros ->; by inv_res|]. solve_events.
  - unfold normalize_force_order. intros; split; [intros ->; by inv_res|]. solve_events.
  - unfold normalize_open_interest. intros; split; [intros ->; by inv_res|]. solve_events.
Qed.

(** C30. Whatever the raw message and whatever pydantic makes of it, a successful
    Binance normalization yields at least one event, and every event satisfies
    the constraints of its model, is attributed to BINANCE and a canonical
    symbol, and carries the receive and normalization times and the raw payload
    reference of the caller. *)
Theorem binance_normalize_sound model_validate ctx p evs :
  normalize model_validate ctx p = Ok evs →
  evs ≠ [] ∧ Forall (event_of BINANCE ctx) evs.
Proof. unfold normalize. intros H. inv_res. by eapply binance_parsed_sound. Qed.

Definition demo_ctx : NormalizationContext :=
  {| ctx_receive := 1785456000200000; ctx_normalization := 1785456000300000;
     ctx_reference := None; ctx_canonical_symbol := None |}.

Definition demo_payload : payload :=
  PForceOrder {| fo_event_time_ms := 1785456000100;
    fo_order := {| fo_symbol := "BTCUSDT"; fo_side := SELL; original_quantity := "0.5";
      order_price := "100.0"; average_price := "0"; accumulated_filled_quantity := "0.25";
      fo_trade_time_ms := 1785456000000 |} |}.

Lemma binance_normalize_sound_witness :
  let raw := JObj [("e", JStr "forceOrder")]%string in
  ∃ evs, normalize (λ _ _, Ok demo_payload) demo_ctx raw = Ok evs ∧
    evs ≠ [] ∧ Forall (event_of BINANCE demo_ctx) evs.
Proof.
  cbn zeta. eexists. split; [vm_compute; reflexivity|].
  apply (binance_normalize_sound (λ _ _, Ok demo_payload) demo_ctx
    (JObj [("e", JStr "forceOrder")]%string)).
  vm_compute. reflexivity.
Defined.

(** A message that is no JSON object, or of no supported type, is rejected before
    any payload model sees it. *)
Lemma parse_payload_unsupported model_validate p :
  (∀ raw, unwrap_payload p = JObj raw → ∃ e, select_model raw = Err e) →
  is_ok (parse_payload model_validate p) = false.
Proof.
  intros H. unfold parse_payload. destruct (unwrap_payload p) as [| | | | | |raw]; try done.
  destruct (H raw eq_refl) as [e ->]. done.
Qed.

(** The notional is the exact product of the parsed price and quantity as
    long as that product has at most 28 digits. *)
Theorem quantity_and_notional_exact price quantity p q :
  decimal_from_text price = Ok p → decimal_from_text quantity = Ok q →
  Z.abs (dcoef p * dcoef q) < 10 ^ prec →
  quantity_and_notional price quantity =
    Ok (q, Dec (dcoef p * dcoef q) (dexp p + dexp q)).
Proof.
  intros Hp Hq Hlt. unfold quantity_and_notional. rewrite Hp, Hq. simpl.
  unfold dmul. by rewrite dfix_exact.
Qed.

Lemma quantity_and_notional_exact_witness :
  quantity_and_notional "65000.10" "0.015" = Ok (Dec 15 (-3), Dec 97500150 (-5)).
Proof.
  apply (quantity_and_notional_exact "65000.10" "0.015" (Dec 6500010 (-2)) (Dec 15 (-3)));
    vm_compute; reflexivity.
Defined.

(** Beyond 28 digits the context rounds, although the docstring says "exactly". *)
Lemma quantity_and_notional_rounds :
  ∃ price quantity p q n, decimal_from_text price = Ok p ∧ decimal_from_text quantity = Ok q ∧
    quantity_and_notional price quantity = Ok (q, n) ∧
    deqb n (Dec (dcoef p * dcoef q) (dexp p + dexp q)) = false.
Proof.
  exists "1234567890.123456789"%string, "0.1234567890123456789"%string. do 3 eexists.
  split; [vm_compute; reflexivity|]. split; [vm_compute; reflexivity|].
  split; vm_compute; reflexivity.
Qed.
End Binance.
