(* ===== verification/NormOkx.v ===== *)
(** * OKX normalization

    [normalization/okx.py].  Sizes are contract counts; the contract metadata of
    the instruments response converts them to base units.  Validation of raw JSON
    against a payload model is pydantic's, a parameter. *)

From stdpp Require Import pretty.
From S2P Require Import Prelude PyDecimal PyFloat PyTime Models Symbols NormBinance.

Module Okx.
(** Price, size, a deprecated field, the number of orders. *)
Record book_level_text := {
  lt_price : string; lt_size : string; lt_deprecated : string; lt_orders : string }.

Record Argument := {
  arg_channel : string; arg_instrument_id : option string;
  arg_instrument_type : option string }.

Record TradeEntry := {
  te_instrument_id : string; te_trade_id : string; te_price : string;
  te_size_contracts : string; te_side : AggressorSide; te_timestamp_ms : string;
  te_count : string; te_source : string; te_sequence_id : Z }.

Record BookData := {
  bd_asks : list book_level_text; bd_bids : list book_level_text; bd_timestamp_ms : string;
  bd_checksum : Z; bd_sequence_id : Z; bd_previous_sequence_id : Z }.

Inductive BookAction := ActSnapshot | ActUpdate.
#[export] Instance BookAction_eq_dec : EqDecision BookAction.
Proof. solve_decision. Defined.

Record BooksMessage := {
  bm_argument : Argument; bm_action : BookAction; bm_data : list BookData }.

Record Books5Data := {
  b5_asks : list book_level_text; b5_bids : list book_level_text; b5_instrument_id : string;
  b5_timestamp_ms : string; b5_sequence_id : Z }.

Record OpenInterestEntry := {
  oe_instrument_id : string; oe_instrument_type : string; oe_contracts : string;
  oe_base_quantity : string; oe_quote_notional : string; oe_timestamp_ms : string }.

Record FundingRateEntry := {
  fe_instrument_id : string; fe_instrument_type : string; fe_funding_rate : string;
  fe_funding_time_ms : string; fe_next_funding_time_ms : string; fe_timestamp_ms : string }.

Record MarkPriceEntry := {
  me_instrument_id : string; me_instrument_type : string; me_mark_price : string;
  me_timestamp_ms : string }.

Record IndexTickerEntry := {
  ie_instrument_id : string; ie_index_price : string; ie_timestamp_ms : string }.

Record LiquidationDetail := {
  ld_bankruptcy_price : string; ld_position_side : LiquidatedPositionSide;
  ld_side : AggressorSide; ld_size_contracts : string; ld_timestamp_ms : string }.

Record LiquidationData := {
  le_details : list LiquidationDetail; le_instrument_id : string;
  le_instrument_type : string }.

Record InstrumentEntry := {
  in_instrument_id : string; in_contract_value : string; in_contract_multiplier : string;
  in_contract_value_currency : string; in_state : string }.

(** The messages; [data] lists where the message holds nothing else used. *)
Inductive payload :=
| PTrades (arg : Argument) (data : list TradeEntry)
| PBooks (m : BooksMessage)
| PBooks5 (arg : Argument) (data : list Books5Data)
| POpenInterest (arg : Argument) (data : list OpenInterestEntry)
| PFundingRate (arg : Argument) (data : list FundingRateEntry)
| PMarkPrice (arg : Argument) (data : list MarkPriceEntry)
| PIndexTicker (arg : Argument) (data : list IndexTickerEntry)
| PLiquidation (arg : Argument) (data : list LiquidationData)
| PInstruments (message : string) (data : list InstrumentEntry).

(** ** Parsing *)

Inductive model_name :=
| MTrades | MBooks | MBooks5 | MOpenInterest | MFundingRate | MMarkPrice | MIndexTicker
| MLiquidation | MInstruments.

Definition select_channel (channel : option json) : res model_name :=
  match channel with
  | Some (JStr "trades") => Ok MTrades
  | Some (JStr "books") => Ok MBooks
  | Some (JStr "books5") => Ok MBooks5
  | Some (JStr "open-interest") => Ok MOpenInterest
  | Some (JStr "funding-rate") => Ok MFundingRate
  | Some (JStr "mark-price") => Ok MMarkPrice
  | Some (JStr "index-tickers") => Ok MIndexTicker
  | Some (JStr "liquidation-orders") => Ok MLiquidation
  | _ => Err (UnsupportedPayloadError "unsupported OKX public channel")
  end.

Definition select_model (o : list (string * json)) : res model_name :=
  match jget "arg" o with
  | Some (JObj argument) => select_channel (jget "channel" argument)
  | _ =>
    match jget "code" o with
    | Some (JStr "0") =>
      if jhas "data" o then Ok MInstruments
      else Err (UnsupportedPayloadError "unsupported OKX payload")
    | _ => Err (UnsupportedPayloadError "unsupported OKX payload")
    end
  end.

Section parse.
(** pydantic's [model_validate]. *)
Context (model_validate : model_name → list (string * json) → res payload).

Definition parse_payload (p : json) : res payload :=
  match p with
  | JObj o => name ← select_model o; model_validate name o
  | _ => Err (UnsupportedPayloadError "OKX payload must be a JSON object")
  end.

(** ** Contract specifications *)

Definition specification_step (acc : list (string * ContractSpecification))
    (i : InstrumentEntry) : res (list (string * ContractSpecification)) :=
  if bool_decide (in_state i = "live"%string) then
    canonical ← to_canonical_symbol OKX (in_instrument_id i) DEFAULT_SYMBOL_MAP;
    value ← decimal_from_text (in_contract_value i);
    mult ← decimal_from_text (in_contract_multiplier i);
    s ← mk_specification OKX canonical (in_instrument_id i) value mult
          (in_contract_value_currency i);
    Ok (dict_set (in_instrument_id i) s acc)
  else Ok acc.

Fixpoint specifications_loop (data : list InstrumentEntry)
    (acc : list (string * ContractSpecification))
    : res (list (string * ContractSpecification)) :=
  match data with
  | [] => Ok acc
  | i :: data => acc ← specification_step acc i; specifications_loop data acc
  end.

Definition contract_specifications_from_response (p : json)
    : res (list (string * ContractSpecification)) :=
  parsed ← parse_payload p;
  match parsed with
  | PInstruments _ data => specifications_loop data []
  | _ => Err (UnsupportedPayloadError "expected an OKX public instruments response")
  end.
End parse.

(** ** Normalization *)

Section normalizer.
(** [self._specifications]. *)
Context (specifications : list (string * ContractSpecification)).

Definition specification (venue_symbol : string) : res ContractSpecification :=
  match dict_get venue_symbol specifications with
  | Some s => Ok s
  | None => Err (UnsupportedPayloadError "missing OKX contract specification")
  end.

Definition level_of (s : ContractSpecification) (l : book_level_text) : res OrderBookLevel :=
  p ← decimal_from_text (lt_price l);
  q ← decimal_from_text (lt_size l);
  mk_level p (contracts_to_base s q).

Definition levels (l : list book_level_text) (venue_symbol : string)
    : res (list OrderBookLevel) :=
  s ← specification venue_symbol; mapR (level_of s) l.

Definition normalize_trade (ctx : NormalizationContext) (t : TradeEntry) : res event :=
  s ← specification (te_instrument_id t);
  contracts ← decimal_from_text (te_size_contracts t);
  md ← venue_metadata OKX (inr (te_timestamp_ms t)) ctx (te_instrument_id t)
         (Some (te_sequence_id t));
  price ← decimal_from_text (te_price t);
  b ← event_base TRADE md;
  e ← mk_trade b (te_trade_id t) price (contracts_to_base s contracts) (Some contracts)
        (te_side t);
  Ok (ETrade e).

Definition max_len {A} (a b : list A) : Z :=
  Z.max (Z.of_nat (length a)) (Z.of_nat (length b)).

(** An update without levels (a heartbeat) yields no event. *)
Definition normalize_book (ctx : NormalizationContext) (venue_symbol : string)
    (action : BookAction) (d : BookData) : res (list event) :=
  md ← venue_metadata OKX (inr (bd_timestamp_ms d)) ctx venue_symbol
         (Some (bd_sequence_id d));
  match action with
  | ActSnapshot =>
    bids ← levels (bd_bids d) venue_symbol;
    asks ← levels (bd_asks d) venue_symbol;
    b ← event_base ORDER_BOOK_SNAPSHOT md;
    e ← mk_snapshot b bids asks (max_len (bd_bids d) (bd_asks d))
          (Some (pretty (bd_checksum d))) 0;
    Ok [EBookSnapshot e]
  | ActUpdate =>
    match bd_bids d, bd_asks d with
    | [], [] => Ok []
    | _, _ =>
      bids ← levels (bd_bids d) venue_symbol;
      asks ← levels (bd_asks d) venue_symbol;
      b ← event_base ORDER_BOOK_UPDATE md;
      e ← mk_update b bids asks (Some (SeqInt (bd_previous_sequence_id d)))
            (Some (pretty (bd_checksum d))) 0;
      Ok [EBookUpdate e]
    end
  end.

Definition normalize_books5 (ctx : NormalizationContext) (d : Books5Data) : res event :=
  md ← venue_metadata OKX (inr (b5_timestamp_ms d)) ctx (b5_instrument_id d)
         (Some (b5_sequence_id d));
  bids ← levels (b5_bids d) (b5_instrument_id d);
  asks ← levels (b5_asks d) (b5_instrument_id d);
  b ← event_base ORDER_BOOK_SNAPSHOT md;
  e ← mk_snapshot b bids asks 5 None 0;
  Ok (EBookSnapshot e).

Definition normalize_open_interest (ctx : NormalizationContext) (o : OpenInterestEntry)
    : res event :=
  md ← venue_metadata OKX (inr (oe_timestamp_ms o)) ctx (oe_instrument_id o) None;
  c ← decimal_from_text (oe_contracts o);
  bq ← decimal_from_text (oe_base_quantity o);
  qn ← decimal_from_text (oe_quote_notional o);
  b ← event_base OPEN_INTEREST md;
  e ← mk_open_interest b c (Some bq) (Some qn);
  Ok (EOpenInterest e).

Definition normalize_funding (ctx : NormalizationContext) (f : FundingRateEntry)
    : res event :=
  md ← venue_metadata OKX (inr (fe_timestamp_ms f)) ctx (fe_instrument_id f) None;
  rate ← decimal_from_text (fe_funding_rate f);
  next ← timestamp_from_milliseconds (inr (fe_next_funding_time_ms f));
  b ← event_base FUNDING_RATE md;
  e ← mk_funding_rate b rate (Some (utc next));
  Ok (EFundingRate e).

Definition normalize_mark (ctx : NormalizationContext) (m : MarkPriceEntry) : res event :=
  md ← venue_metadata OKX (inr (me_timestamp_ms m)) ctx (me_instrument_id m) None;
  p ← decimal_from_text (me_mark_price m);
  b ← event_base MARK_PRICE md;
  e ← mk_mark_price b p;
  Ok (EMarkPrice e).

Definition normalize_index (ctx : NormalizationContext) (i : IndexTickerEntry) : res event :=
  md ← venue_metadata OKX (inr (ie_timestamp_ms i)) ctx
         (ie_instrument_id i +:+ "-SWAP") None;
  p ← decimal_from_text (ie_index_price i);
  b ← event_base INDEX_PRICE md;
  e ← mk_index_price b p;
  Ok (EIndexPrice e).

Definition liquidation_id_of (instrument ts : string) (index : Z) : string :=
  instrument +:+ ":" +:+ ts +:+ ":" +:+ pretty index.

Definition normalize_detail (ctx : NormalizationContext) (s : ContractSpecification)
    (instrument : string) (index : Z) (d : LiquidationDetail) : res event :=
  contracts ← decimal_from_text (ld_size_contracts d);
  md ← venue_metadata OKX (inr (ld_timestamp_ms d)) ctx instrument None;
  price ← decimal_from_text (ld_bankruptcy_price d);
  b ← event_base LIQUIDATION md;
  e ← mk_liquidation b (Some (liquidation_id_of instrument (ld_timestamp_ms d) index))
        (ld_position_side d) price (contracts_to_base s contracts) (Some contracts);
  Ok (ELiquidation e).

Definition normalize_liquidation (ctx : NormalizationContext) (l : LiquidationData)
    : res (list event) :=
  s ← specification (le_instrument_id l);
  mapR (λ '(index, d), normalize_detail ctx s (le_instrument_id l) (Z.of_nat index) d)
    (imap pair (le_details l)).

Definition normalize_parsed (ctx : NormalizationContext) (p : payload) : res (list event) :=
  match p with
  | PInstruments _ _ => Ok []
  | PTrades _ data => mapR (normalize_trade ctx) data
  | PBooks m =>
    match arg_instrument_id (bm_argument m) with
    | None => Err (UnsupportedPayloadError "OKX books message is missing instId")
    | Some venue_symbol =>
      ls ← mapR (normalize_book ctx venue_symbol (bm_action m)) (bm_data m);
      Ok (concat ls)
    end
  | PBooks5 _ data => mapR (normalize_books5 ctx) data
  | POpenInterest _ data => mapR (normalize_open_interest ctx) data
  | PFundingRate _ data => mapR (normalize_funding ctx) data
  | PMarkPrice _ data => mapR (normalize_mark ctx) data
  | PIndexTicker _ data => mapR (normalize_index ctx) data
  | PLiquidation _ data => ls ← mapR (normalize_liquidation ctx) data; Ok (concat ls)
  end.

Definition normalize (model_validate : model_name → list (string * json) → res payload)
    (ctx : NormalizationContext) (p : json) : res (list event) :=
  parsed ← parse_payload model_validate p; normalize_parsed ctx parsed.
End normalizer.

Definition contracts_and_notional (price contracts : string) (s : ContractSpecification)
    : res (decimal * decimal) :=
  c ← decimal_from_text contracts;
  let base_quantity := contracts_to_base s c in
  p ← decimal_from_text price;
  Ok (base_quantity, dmul p base_quantity).

(** ** Soundness *)

(** Base quantities come from the contract count and the metadata of a venue
    symbol. *)
Definition units_of (specifications : list (string * ContractSpecification)) (e : event)
    : Prop :=
  match e with
  | ETrade t => ∃ k s c, dict_get k specifications = Some s ∧
      trade_contract_quantity t = Some c ∧ trade_quantity t = contracts_to_base s c
  | ELiquidation l => ∃ k s c, dict_get k specifications = Some s ∧
      liquidation_contract_quantity l = Some c ∧
      liquidation_quantity l = contracts_to_base s c
  | _ => True
  end.

Definition okx_event specifications (ctx : NormalizationContext) (e : event) : Prop :=
  event_of OKX ctx e ∧ units_of specifications e.

Section soundness.
Context (specifications : list (string * ContractSpecification)).
Context (ctx : NormalizationContext).

Lemma specification_Ok k s :
  specification specifications k = Ok s → dict_get k specifications = Some s.
Proof. unfold specification. destruct (dict_get k specifications); congruence. Qed.

Lemma okx_levels_valid l k ls : levels specifications l k = Ok ls → Forall level_valid ls.
Proof.
  unfold levels. intros H. inv_res. eapply mapR_Forall; [|done].
  intros t y Hy. unfold level_of in Hy. inv_res. by eapply mk_level_valid.
Qed.

Lemma normalize_trade_sound t e :
  normalize_trade specifications ctx t = Ok e → okx_event specifications ctx e.
Proof.
  unfold normalize_trade. intros H. inv_res. subst.
  pose proof H4 as [Hv Hm]%mk_trade_event. unfold mk_trade in H4. inv_res. subst. simpl in *.
  split; [split; [done|by eapply venue_metadata_of]|].
  apply specification_Ok in H. simpl. eauto 10.
Qed.

Lemma normalize_detail_sound s k i d e :
  dict_get k specifications = Some s →
  normalize_detail ctx s k i d = Ok e → okx_event specifications ctx e.
Proof.
  unfold normalize_detail. intros Hs H. inv_res. subst.
  pose proof H3 as [Hv Hm]%mk_liquidation_event. unfold mk_liquidation in H3.
  inv_res. subst. simpl in *.
  split; [split; [done|by eapply venue_metadata_of]|]. simpl. eauto 10.
Qed.

Lemma normalize_liquidation_sound l es :
  normalize_liquidation specifications ctx l = Ok es → Forall (okx_event specifications ctx) es.
Proof.
  unfold normalize_liquidation. intros H. inv_res. apply specification_Ok in H.
  eapply mapR_Forall; [|done]. intros [i d] e He. by eapply normalize_detail_sound.
Qed.

#[local] Hint Resolve okx_levels_valid : core.

Lemma normalize_book_sound k a d es :
  normalize_book specifications ctx k a d = Ok es → Forall (okx_event specifications ctx) es.
Proof.
  unfold normalize_book. intros H. inv_res. destruct a.
  - inv_res. subst. apply mk_snapshot_event in H3 as [? <-]; [|by eauto..].
    apply List.Forall_cons; [|constructor].
    split; [split; [done|by eapply venue_metadata_of]|done].
  - assert (∀ r, (bids ← levels specifications (bd_bids d) k;
      asks ← levels specifications (bd_asks d) k;
      b ← event_base ORDER_BOOK_UPDATE x;
      e ← mk_update b bids asks (Some (SeqInt (bd_previous_sequence_id d)))
            (Some (pretty (bd_checksum d))) 0;
      Ok [EBookUpdate e]) = Ok r → Forall (okx_event specifications ctx) r) as Hr.
    { intros r Hr. inv_res. subst. apply mk_update_event in H4 as [? <-]; [|by eauto..].
      apply List.Forall_cons; [|constructor].
      split; [split; [done|by eapply venue_metadata_of]|done]. }
    destruct (bd_bids d), (bd_asks d); [by injection H0 as <-; constructor|auto..].
Qed.

Lemma okx_parsed_sound p es :
  normalize_parsed specifications ctx p = Ok es → Forall (okx_event specifications ctx) es.
Proof.
  destruct p as [? data|m|? data|? data|? data|? data|? data|? data|? data];
    cbn [normalize_parsed]; intros H.
  - eapply mapR_Forall, H. apply normalize_trade_sound.
  - destruct (arg_instrument_id (bm_argument m)) as [k|]; [|done]. inv_res. subst.
    apply Forall_concat. eapply mapR_Forall, H. intros d y. apply normalize_book_sound.
  - eapply mapR_Forall, H. intros d e He. unfold normalize_books5 in He. inv_res. subst.
    apply mk_snapshot_event in H4 as [? <-]; [|by eauto..].
    split; [split; [done|by eapply venue_metadata_of]|done].
  - eapply mapR_Forall, H. intros d e He. unfold normalize_open_interest in He. inv_res.
    subst. apply mk_open_interest_event in H5 as [? <-].
    split; [split; [done|by eapply venue_metadata_of]|done].
  - eapply mapR_Forall, H. intros d e He. unfold normalize_funding in He. inv_res. subst.
    apply mk_funding_rate_event in H4 as [? <-].
    split; [split; [done|by eapply venue_metadata_of]|done].
  - eapply mapR_Forall, H. intros d e He. unfold normalize_mark in He. inv_res. subst.
    apply mk_mark_price_event in H3 as [? <-].
    split; [split; [done|by eapply venue_metadata_of]|done].
  - eapply mapR_Forall, H. intros d e He. unfold normalize_index in He. inv_res. subst.
    apply mk_index_price_event in H3 as [? <-].
    split; [split; [done|by eapply venue_metadata_of]|done].
  - inv_res. subst. apply Forall_concat. eapply mapR_Forall, H.
    intros l y. apply normalize_liquidation_sound.
  - injection H as <-. constructor.
Qed.
End soundness.


Definition demo_spec : ContractSpecification :=
  {| spec_exchange := OKX; spec_canonical_symbol := "BTC-USDT-PERP";
     spec_venue_symbol := "BTC-USDT-SWAP"; contract_value := Dec 1 (-2);
     contract_multiplier := Dec 1 0; contract_value_currency := "BTC" |}.

Definition demo_trade : payload :=
  PTrades {| arg_channel := "trades"; arg_instrument_id := Some "BTC-USDT-SWAP"%string;
             arg_instrument_type := None |}
    [{| te_instrument_id := "BTC-USDT-SWAP"; te_trade_id := "7"; te_price := "65000.1";
        te_size_contracts := "12"; te_side := BUY; te_timestamp_ms := "1785456000000";
        te_count := "1"; te_source := "0"; te_sequence_id := 42 |}].

Definition demo_raw : json := JObj [("arg", JObj [("channel", JStr "trades")])]%string.


(** Contracts become base units and notional exactly as long as the three
    successive products have at most 28 digits. *)
Theorem contracts_and_notional_exact price contracts s p c :
  decimal_from_text price = Ok p → decimal_from_text contracts = Ok c →
  let unit := dcoef (contract_value s) * dcoef (contract_multiplier s) in
  Z.abs unit < 10 ^ prec → Z.abs (dcoef c * unit) < 10 ^ prec →
  Z.abs (dcoef p * (dcoef c * unit)) < 10 ^ prec →
  let e := dexp c + (dexp (contract_value s) + dexp (contract_multiplier s)) in
  contracts_and_notional price contracts s =
    Ok (Dec (dcoef c * unit) e, Dec (dcoef p * (dcoef c * unit)) (dexp p + e)).
Proof.
  intros Hp Hc unit H1 H2 H3 e. unfold contracts_and_notional. rewrite Hp, Hc. simpl.
  rewrite (contracts_to_base_exact s c) by done. unfold dmul. simpl.
  by rewrite dfix_exact.
Qed.

Lemma contracts_and_notional_exact_witness :
  contracts_and_notional "65000.1" "12" demo_spec = Ok (Dec 12 (-2), Dec 7800012 (-3)).
Proof.
  apply (contracts_and_notional_exact "65000.1" "12" demo_spec (Dec 650001 (-1)) (Dec 12 0));
    vm_compute; reflexivity.
Defined.
End Okx.
