(* ===== verification/BookBase.v ===== *)
(** * Local order books: common parts

    [orderbook/base.py] (statuses, transitions, results, views) and what the
    Binance and OKX state machines share: a side of a book is a [dict] from prices
    to values, filled from a snapshot's levels and changed by the absolute
    quantities of an update's levels. *)

From S2P Require Import Prelude Effects PyDecimal Models.

Inductive BookStatus := BUFFERING | LIVE | RESYNC_REQUIRED.
#[export] Instance BookStatus_eq_dec : EqDecision BookStatus.
Proof. solve_decision. Defined.

Inductive BookTransition :=
| BUFFERED | SNAPSHOT_APPLIED | UPDATE_APPLIED | STALE_IGNORED | RETRY_SNAPSHOT
| SEQUENCE_GAP | CHECKSUM_MISMATCH | BUFFER_OVERFLOW | RESYNC_STARTED.
#[export] Instance BookTransition_eq_dec : EqDecision BookTransition.
Proof. solve_decision. Defined.

(** The reasons are formatted text; only their presence is kept. *)
Record BookApplyResult := {
  r_transition : BookTransition;
  r_status : BookStatus;
  r_generation : Z;
  r_sequence_id : option Z;
  r_buffered_events : Z;
  r_needs_snapshot : bool;
  r_reason : option string }.

Record BookView := {
  v_exchange : Exchange;
  v_symbol : string;
  v_channel : string;
  v_generation : Z;
  v_sequence_id : option Z;
  v_synchronized : bool;
  v_bids : list OrderBookLevel;
  v_asks : list OrderBookLevel }.

Definition view_best_bid (v : BookView) : option OrderBookLevel := head (v_bids v).
Definition view_best_ask (v : BookView) : option OrderBookLevel := head (v_asks v).

(** [l[:depth]] when [depth is not None]. *)
Definition truncate {A} (depth : option Z) (l : list A) : list A :=
  match depth with None => l | Some d => take (Z.to_nat d) l end.

Definition check_depth (depth : option Z) : res unit :=
  require (match depth with None => true | Some d => negb (d <? 1) end)
    (ValueError "depth must be positive").

(** ** Sides

    What a venue gives: how the text of a level is parsed to its price, its
    quantity and the value stored under the price. *)
Class BookLevelText (L V : Type) := parse_level : L → res (decimal * decimal * V).
#[global] Hint Mode BookLevelText ! - : typeclass_instances.

Section side.
Context {L V : Type} `{BookLevelText L V}.
Implicit Types (side : list (decimal * V)) (levels : list L).

(** A new side from the levels with a positive quantity. *)
Fixpoint fill_side levels side : res (list (decimal * V)) :=
  match levels with
  | [] => Ok side
  | l :: levels =>
    '(price, quantity, v) ← parse_level l;
    fill_side levels (if dltb d0 quantity then dict_set price v side else side)
  end.

Definition snapshot_side levels : res (list (decimal * V)) := fill_side levels [].

(** One level of an update: quantity zero removes the price. *)
Definition apply_level (l : L) : M (list (decimal * V)) unit :=
  '(price, quantity, v) ← liftM (parse_level l);
  modifyM (λ side, if deqb quantity d0 then dict_pop price side else dict_set price v side).

Definition apply_side levels : M (list (decimal * V)) unit := forM apply_level levels.

(** ** Specification: absolute quantities

    Of the levels of a message at a price, the last decides. *)
Definition at_price (p : decimal) (x : decimal * decimal * V) : Prop := deqb p x.1.1 = true.
#[local] Instance at_price_dec p x : Decision (at_price p x).
Proof. unfold at_price. apply _. Defined.

Definition decided (p : decimal) (parsed : list (decimal * decimal * V)) (old : option V)
    : option V :=
  match last (filter (at_price p) parsed) with
  | Some (_, quantity, v) => if deqb quantity d0 then None else Some v
  | None => old
  end.

Lemma apply_level_exec l side :
  execM (apply_level l) side =
  ('(price, quantity, v) ← parse_level l;
   Ok (if deqb quantity d0 then dict_pop price side else dict_set price v side)).
Proof. unfold execM, apply_level. simpl. by destruct (parse_level l) as [[[p q] v]|e]. Qed.

Lemma decided_cons p x parsed old :
  decided p (x :: parsed) old =
  decided p parsed (if deqb p x.1.1 then if deqb x.1.2 d0 then None else Some x.2 else old).
Proof.
  unfold decided. rewrite filter_cons. destruct x as [[pr q] v]. simpl.
  destruct (deqb p pr) eqn:E.
  - rewrite decide_True by exact E.
    destruct (filter (at_price p) parsed) as [|y l]; [done|].
    rewrite last_cons. destruct (last (y :: l)) as [[[??]?]|] eqn:El; [done|].
    by apply last_None in El.
  - rewrite decide_False by (unfold at_price; simpl; congruence). done.
Qed.

(** [_apply_side]: every price of the message takes the absolute quantity of its
    last level, every other price is untouched. *)
Lemma apply_side_lookup levels side side' :
  execM (apply_side levels) side = Ok side' → dict_wf side →
  dict_wf side' ∧ ∃ parsed, mapR parse_level levels = Ok parsed ∧
    ∀ p, dict_get p side' = decided p parsed (dict_get p side).
Proof.
  unfold apply_side. revert side. induction levels as [|l levels IH]; intros side Hx Hwf.
  - injection Hx as <-. split; [done|]. by exists [].
  - rewrite execM_forM_cons, apply_level_exec in Hx. simpl in Hx.
    destruct (parse_level l) as [[[pr q] v]|e] eqn:El; [|done]. simpl in Hx.
    apply IH in Hx as (Hwf' & parsed & Hp & Hget);
      [|destruct (deqb q d0); [by apply dict_wf_pop|by apply dict_wf_set]].
    split; [done|]. exists ((pr, q, v) :: parsed). simpl. rewrite El, Hp. split; [done|].
    intros p. rewrite Hget, decided_cons. simpl. f_equal.
    destruct (deqb p pr) eqn:Ep, (deqb q d0).
    + by apply dict_get_pop_eq.
    + by apply dict_get_set_eq.
    + by apply dict_get_pop_ne.
    + by apply dict_get_set_ne.
Qed.

(** [_snapshot_side]: the last positive level at a price. *)
Lemma fill_side_lookup levels side side' :
  fill_side levels side = Ok side' → dict_wf side →
  dict_wf side' ∧ ∃ parsed, mapR parse_level levels = Ok parsed ∧
    ∀ p, dict_get p side' =
      match last (filter (at_price p) (filter (λ x, dltb d0 x.1.2 = true) parsed)) with
      | Some (_, _, v) => Some v
      | None => dict_get p side
      end.
Proof.
  revert side. induction levels as [|l levels IH]; intros side Hx Hwf; simpl in Hx.
  - injection Hx as <-. split; [done|]. by exists [].
  - destruct (parse_level l) as [[[pr q] v]|e] eqn:El; [|done]. simpl in Hx.
    apply IH in Hx as (Hwf' & parsed & Hp & Hget);
      [|destruct (dltb d0 q); [by apply dict_wf_set|done]].
    split; [done|]. exists ((pr, q, v) :: parsed). simpl. rewrite El, Hp. split; [done|].
    intros p. rewrite Hget. clear Hget. rewrite filter_cons. simpl.
    destruct (dltb d0 q) eqn:Eq; [rewrite decide_True by done|by rewrite decide_False].
    rewrite filter_cons. destruct (deqb p pr) eqn:Ep.
    + rewrite decide_True by done. set (l' := filter _ (filter _ parsed)).
      destruct l' as [|y l']; simpl; [by apply dict_get_set_eq|].
      by destruct (last (y :: l')) as [[[??]?]|] eqn:E; [|by apply last_None in E].
    + rewrite decide_False by (unfold at_price; simpl; by rewrite Ep).
      by rewrite dict_get_set_ne.
Qed.

Lemma snapshot_side_wf levels side : snapshot_side levels = Ok side → dict_wf side.
Proof. intros Hx. by apply fill_side_lookup in Hx as [? _]. Qed.

Lemma apply_side_wf levels side side' :
  execM (apply_side levels) side = Ok side' → dict_wf side → dict_wf side'.
Proof. intros Hx Hwf. by eapply apply_side_lookup in Hx as [? _]. Qed.
End side.

(** ** Sorted sides

    The keys of a side are numerically distinct, so any sort by price orders them
    strictly. *)
Definition price_before (desc : bool) (a b : decimal) : Prop :=
  if desc then dltb b a = true else dltb a b = true.

Lemma price_before_trans desc a b c :
  price_before desc a b → price_before desc b c → price_before desc a c.
Proof. destruct desc; simpl; intros; eapply dltb_trans; eauto. Qed.

Lemma sorted_strict {V} (leb : decimal * V → decimal * V → bool) desc side :
  (∀ x y, leb x y = false → leb y x = true) →
  (∀ x y z, leb x y = true → leb y z = true → leb x z = true) →
  (∀ x y, leb x y = true → deqb x.1 y.1 = true ∨ price_before desc x.1 y.1) →
  dict_wf side →
  StronglySorted (λ x y, price_before desc x.1 y.1) (py_sorted leb side).
Proof.
  intros Htot Htr Hle Hwf. pose proof (py_sorted_sorted leb Htot Htr side) as Hs.
  apply (dict_wf_perm side (py_sorted leb side)) in Hwf; [|symmetry; apply py_sorted_perm].
  induction Hs as [|[k v] l Hs IH Hall]; [constructor|]. destruct Hwf as [Hk Hwf].
  constructor; [by apply IH|]. rewrite dict_get_None_elem in Hk.
  rewrite Forall_forall in *. intros [k' v'] Hin. simpl.
  destruct (Hle _ _ (Hall _ Hin)) as [E|]; [|done]. specialize (Hk k' v' Hin).
  simpl in *. unfold pyeq, decimal_pyeq in Hk. congruence.
Qed.

(** [sorted(side.values(), key=lambda level: level.price)], in either direction. *)
Definition price_leb_dir (desc : bool) (a b : decimal) : bool :=
  if desc then dleb b a else dleb a b.

Lemma price_leb_dir_total desc a b : price_leb_dir desc a b = false → price_leb_dir desc b a = true.
Proof. destruct desc; apply dleb_total. Qed.
Lemma price_leb_dir_trans desc a b c :
  price_leb_dir desc a b = true → price_leb_dir desc b c = true → price_leb_dir desc a c = true.
Proof. destruct desc; simpl; eauto using dleb_trans. Qed.
Lemma price_leb_dir_strict desc a b :
  price_leb_dir desc a b = true → deqb a b = true ∨ price_before desc a b.
Proof.
  destruct desc; simpl; intros Hle; destruct (deqb a b) eqn:E; auto; right;
    apply dleb_neq_ltb; try done. 
  destruct (deqb b a) eqn:E'; [|done]. apply (pyeq_sym (K:=decimal)) in E'. unfold pyeq, decimal_pyeq in E'. congruence.
Qed.

(** ** Errors of sides

    Only the text of a level can be refused, with a [ValueError]. *)
Definition is_value_error (e : exn) : Prop := ∃ msg, e = ValueError msg.

Lemma decimal_from_text_error s e : decimal_from_text s = Err e → is_value_error e.
Proof.
  unfold decimal_from_text. destruct (decimal_of_text s) as [[]|]; intros [= <-]; by eexists.
Qed.

Section errors.
Context {L V : Type} `{BookLevelText L V}.
Hypothesis parse_error : ∀ (l : L) e, parse_level (V := V) l = Err e → is_value_error e.

Lemma fill_side_error (levels : list L) (side : list (decimal * V)) e : fill_side levels side = Err e → is_value_error e.
Proof using parse_error.
  revert side. induction levels as [|l levels IH]; intros side; simpl; [done|].
  destruct (parse_level l) as [[[p q] v]|e'] eqn:El; simpl; [apply IH|].
  intros [= <-]. by eapply parse_error.
Qed.

Lemma apply_side_error (levels : list L) (side side' : list (decimal * V)) e :
  apply_side levels side = (side', Err e) → is_value_error e.
Proof using parse_error.
  unfold apply_side. revert side. induction levels as [|l levels IH]; intros side; simpl; [done|].
  unfold mbind, M_bind, apply_level at 1. simpl. unfold liftM, mbind, M_bind.
  destruct (parse_level l) as [[[p q] v]|e'] eqn:El; simpl; [apply IH|].
  intros [= _ <-]. by eapply parse_error.
Qed.
End errors.

(** ** Views of sides *)

Definition level_item (x : decimal * decimal) : OrderBookLevel :=
  {| level_price := x.1; level_quantity := x.2 |}.

Lemma mapR_mk_level l ls :
  mapR (λ '(price, quantity), mk_level price quantity) l = Ok ls → ls = level_item <$> l.
Proof.
  rewrite mapR_Ok. induction 1 as [|[p q] y l ls Hy _ IH]; [done|]. simpl. f_equal; [|done].
  unfold mk_level in Hy. inv_res. by subst.
Qed.

Lemma truncate_sublist {A} depth (l : list A) : sublist (truncate depth l) l.
Proof. destruct depth; simpl; [apply sublist_take|done]. Qed.
