(* ===== verification/BookBinance.v ===== *)
(** * The Binance local order book

    [orderbook/binance.py].  A REST snapshot is bridged to the stream of diffs: the
    first diff must overlap [lastUpdateId], each later one must name its
    predecessor.  An exception leaves the mutations made before it. *)

From S2P Require Import Prelude Effects PyDecimal PyTime Models Symbols NormBinance BookBase.
Import Binance.

#[export] Instance binance_level_text : BookLevelText book_level_text decimal :=
  λ '(price_text, quantity_text),
    price ← decimal_from_text price_text;
    quantity ← decimal_from_text quantity_text;
    Ok (price, quantity, quantity).

Record BinanceLocalOrderBook := {
  bb_venue_symbol : string;
  bb_canonical_symbol : string;
  bb_max_buffer_events : Z;
  bb_status : BookStatus;
  bb_generation : Z;
  bb_sequence_id : option Z;
  bb_bids : list (decimal * decimal);
  bb_asks : list (decimal * decimal);
  bb_buffer : list DepthUpdate;
  bb_pending : option DepthSnapshot }.

Definition binance_book_init (venue_symbol : string) (max_buffer_events : Z)
    : res BinanceLocalOrderBook :=
  _ ← require (negb (max_buffer_events <? 1)) (ValueError "max_buffer_events must be positive");
  let vs := str_upper venue_symbol in
  canonical ← to_canonical_symbol BINANCE vs DEFAULT_SYMBOL_MAP;
  Ok {| bb_venue_symbol := vs; bb_canonical_symbol := canonical;
        bb_max_buffer_events := max_buffer_events; bb_status := BUFFERING; bb_generation := 0;
        bb_sequence_id := None; bb_bids := []; bb_asks := []; bb_buffer := [];
        bb_pending := None |}.

(** ** Assignments to the fields *)

Definition set_sync (st : BookStatus) (gen : Z) (seq : option Z)
    (bids asks : list (decimal * decimal)) (buffer : list DepthUpdate)
    (pending : option DepthSnapshot) (b : BinanceLocalOrderBook) : BinanceLocalOrderBook :=
  {| bb_venue_symbol := bb_venue_symbol b; bb_canonical_symbol := bb_canonical_symbol b;
     bb_max_buffer_events := bb_max_buffer_events b; bb_status := st; bb_generation := gen;
     bb_sequence_id := seq; bb_bids := bids; bb_asks := asks; bb_buffer := buffer;
     bb_pending := pending |}.

Definition set_status st (b : BinanceLocalOrderBook) :=
  set_sync st (bb_generation b) (bb_sequence_id b) (bb_bids b) (bb_asks b) (bb_buffer b)
    (bb_pending b) b.
Definition set_sequence seq (b : BinanceLocalOrderBook) :=
  set_sync (bb_status b) (bb_generation b) seq (bb_bids b) (bb_asks b) (bb_buffer b)
    (bb_pending b) b.
Definition set_bids bids (b : BinanceLocalOrderBook) :=
  set_sync (bb_status b) (bb_generation b) (bb_sequence_id b) bids (bb_asks b) (bb_buffer b)
    (bb_pending b) b.
Definition set_asks asks (b : BinanceLocalOrderBook) :=
  set_sync (bb_status b) (bb_generation b) (bb_sequence_id b) (bb_bids b) asks (bb_buffer b)
    (bb_pending b) b.
Definition set_buffer buffer (b : BinanceLocalOrderBook) :=
  set_sync (bb_status b) (bb_generation b) (bb_sequence_id b) (bb_bids b) (bb_asks b) buffer
    (bb_pending b) b.
Definition set_pending pending (b : BinanceLocalOrderBook) :=
  set_sync (bb_status b) (bb_generation b) (bb_sequence_id b) (bb_bids b) (bb_asks b)
    (bb_buffer b) pending b.

Abbreviation BM := (M BinanceLocalOrderBook).

(** [_result]. *)
Definition binance_result (transition : BookTransition) (needs_snapshot : bool)
    (reason : option string) : BM BookApplyResult :=
  b ← getM;
  mret {| r_transition := transition; r_status := bb_status b;
          r_generation := bb_generation b; r_sequence_id := bb_sequence_id b;
          r_buffered_events := Z.of_nat (length (bb_buffer b));
          r_needs_snapshot := needs_snapshot; r_reason := reason |}.

(** The invalidation shared by resync, overflow and gaps: a new generation without
    sequence, sides and pending snapshot, whose buffer is [buffer]. *)
Definition invalidate (buffer : list DepthUpdate) : BM unit :=
  modifyM (λ b, set_sync RESYNC_REQUIRED (bb_generation b + 1) None [] [] buffer None b).

Definition binance_begin_resync (reason : string) : BM BookApplyResult :=
  _ ← invalidate [];
  binance_result RESYNC_STARTED true (Some reason).

Definition overflow (update : DepthUpdate) : BM BookApplyResult :=
  _ ← invalidate [update];
  binance_result BUFFER_OVERFLOW true (Some "buffer exceeded events"%string).

Definition apply_update (update : DepthUpdate) : BM unit :=
  _ ← zoomM bb_bids set_bids (apply_side (du_bids update));
  _ ← zoomM bb_asks set_asks (apply_side (du_asks update));
  modifyM (set_sequence (Some (final_update_id update))).

(** The test "this diff overlaps [lastUpdateId]". *)
Definition overlaps (last_id : Z) (u : DepthUpdate) : bool :=
  (first_update_id u <=? last_id) && (last_id <=? final_update_id u).

Fixpoint find_index {A} (p : A → bool) (l : list A) : option nat :=
  match l with
  | [] => None
  | x :: l => if p x then Some O else S <$> find_index p l
  end.

(** The [while self._buffer] loop of the activation: each round pops the oldest
    diff, so the buffer bounds the number of rounds. *)
Fixpoint replay_buffer (fuel : nat) : BM (option BookApplyResult) :=
  b ← getM;
  match fuel, bb_buffer b with
  | S fuel, update :: rest =>
    _ ← modifyM (set_buffer rest);
    match bb_sequence_id b with
    | None => raiseM (RuntimeError "snapshot activation lost its sequence id")
    | Some seq =>
      if final_update_id update <=? seq then replay_buffer fuel
      else if negb (previous_final_update_id update =? seq) then
        _ ← invalidate (update :: rest);
        r ← binance_result SEQUENCE_GAP true (Some "buffered chain expected pu"%string);
        mret (Some r)
      else
        _ ← apply_update update;
        replay_buffer fuel
    end
  | _, _ => mret None
  end.

Definition try_activate_snapshot : BM (option BookApplyResult) :=
  b ← getM;
  match bb_pending b with
  | None => mret None
  | Some snapshot =>
    let last_id := last_update_id snapshot in
    _ ← modifyM (set_buffer (drop_while (λ u, final_update_id u <? last_id) (bb_buffer b)));
    b ← getM;
    match bb_buffer b with
    | [] => mret None
    | first :: _ =>
      match find_index (overlaps last_id) (bb_buffer b) with
      | None =>
        if last_id <? first_update_id first then
          _ ← modifyM (set_status RESYNC_REQUIRED);
          r ← binance_result RETRY_SNAPSHOT true (Some "snapshot precedes buffered U"%string);
          mret (Some r)
        else mret None
      | Some first_index =>
        match drop first_index (bb_buffer b) with
        | [] => mret None
        | first :: rest =>
          _ ← modifyM (set_buffer rest);
          _ ← apply_update first;
          gap ← replay_buffer (length rest);
          match gap with
          | Some r => mret (Some r)
          | None =>
            _ ← modifyM (λ b, set_status LIVE (set_pending None b));
            r ← binance_result SNAPSHOT_APPLIED false None;
            mret (Some r)
          end
        end
      end
    end
  end.

Definition buffer_update (update : DepthUpdate) : BM BookApplyResult :=
  b ← getM;
  if bb_max_buffer_events b <=? Z.of_nat (length (bb_buffer b)) then overflow update
  else
    _ ← modifyM (set_buffer (bb_buffer b ++ [update]));
    match bb_pending b with
    | Some _ =>
      activation ← try_activate_snapshot;
      match activation with
      | Some r => mret r
      | None =>
        b ← getM;
        binance_result BUFFERED (match bb_pending b with None => true | Some _ => false end) None
      end
    | None => binance_result BUFFERED true None
    end.

Definition binance_ingest (update : DepthUpdate) : BM BookApplyResult :=
  b ← getM;
  _ ← requireM (bool_decide (str_upper (du_symbol update) = bb_venue_symbol b))
        (ValueError "book cannot ingest");
  if negb (bool_decide (bb_status b = LIVE)) then buffer_update update
  else match bb_sequence_id b with
  | None => raiseM (RuntimeError "LIVE Binance book is missing its sequence id")
  | Some seq =>
    if final_update_id update <=? seq then binance_result STALE_IGNORED false None
    else if negb (previous_final_update_id update =? seq) then
      _ ← invalidate [update];
      binance_result SEQUENCE_GAP true (Some "expected pu"%string)
    else
      _ ← apply_update update;
      binance_result UPDATE_APPLIED false None
  end.

Definition binance_install_snapshot (snapshot : DepthSnapshot) : BM BookApplyResult :=
  _ ← modifyM (set_pending (Some snapshot));
  _ ← modifyM (set_sequence (Some (last_update_id snapshot)));
  bids ← liftM (snapshot_side (ds_bids snapshot));
  _ ← modifyM (set_bids bids);
  asks ← liftM (snapshot_side (ds_asks snapshot));
  _ ← modifyM (set_asks asks);
  _ ← modifyM (set_status BUFFERING);
  activation ← try_activate_snapshot;
  match activation with
  | Some r => mret r
  | None => binance_result BUFFERED false
      (Some "waiting for a diff event that overlaps lastUpdateId"%string)
  end.

(** [sorted(side.items())] compares price first, then quantity. *)
Definition item_leb (a b : decimal * decimal) : bool :=
  if deqb a.1 b.1 then dleb a.2 b.2 else dleb a.1 b.1.

Definition binance_view (b : BinanceLocalOrderBook) (depth : option Z) : res BookView :=
  _ ← check_depth depth;
  let bids := truncate depth (py_sorted (λ x y, item_leb y x) (bb_bids b)) in
  let asks := truncate depth (py_sorted item_leb (bb_asks b)) in
  bids ← mapR (λ '(price, quantity), mk_level price quantity) bids;
  asks ← mapR (λ '(price, quantity), mk_level price quantity) asks;
  Ok {| v_exchange := BINANCE; v_symbol := bb_canonical_symbol b; v_channel := "depth";
        v_generation := bb_generation b; v_sequence_id := bb_sequence_id b;
        v_synchronized := bool_decide (bb_status b = LIVE); v_bids := bids; v_asks := asks |}.

(** ** [BinanceOrderBookManager] *)

Record BinanceManager := {
  bm_max_buffer_events : Z;
  bm_books : list (string * BinanceLocalOrderBook) }.

(** The book of a symbol, created on first use, and the operation on it. *)
Definition with_book {A} (venue_symbol : string) (op : BM A) : M BinanceManager A :=
  λ m,
    let normalized := str_upper venue_symbol in
    match
      match dict_get normalized (bm_books m) with
      | Some b => Ok b
      | None => binance_book_init normalized (bm_max_buffer_events m)
      end
    with
    | Err e => (m, Err e)
    | Ok b =>
      let '(b', r) := op b in
      ({| bm_max_buffer_events := bm_max_buffer_events m;
          bm_books := dict_set normalized b' (bm_books m) |}, r)
    end.

Definition binance_manager_ingest (update : DepthUpdate) : M BinanceManager BookApplyResult :=
  with_book (du_symbol update) (binance_ingest update).

Definition binance_manager_install (venue_symbol : string) (snapshot : DepthSnapshot)
    : M BinanceManager BookApplyResult :=
  with_book venue_symbol (binance_install_snapshot snapshot).

Definition binance_manager_views (m : BinanceManager) (depth : option Z)
    : res (list (string * BookView)) :=
  mapR (λ '(k, b), v ← binance_view b depth; Ok (k, v)) (bm_books m).

(** ** Specification

    A live book is a snapshot with a chain of diffs applied: the first overlaps the
    snapshot's [lastUpdateId], each later one continues its predecessor. *)

Fixpoint chained (seq : Z) (us : list DepthUpdate) : Prop :=
  match us with
  | [] => True
  | u :: us => previous_final_update_id u = seq ∧ seq < final_update_id u ∧
               chained (final_update_id u) us
  end.

Definition bridged (s : DepthSnapshot) (us : list DepthUpdate) : Prop :=
  match us with
  | [] => False
  | u :: us => first_update_id u ≤ last_update_id s ≤ final_update_id u ∧
               chained (final_update_id u) us
  end.

Fixpoint apply_updates (us : list DepthUpdate) (bids asks : list (decimal * decimal))
    : res (list (decimal * decimal) * list (decimal * decimal)) :=
  match us with
  | [] => Ok (bids, asks)
  | u :: us =>
    bids ← execM (apply_side (du_bids u)) bids;
    asks ← execM (apply_side (du_asks u)) asks;
    apply_updates us bids asks
  end.

(** The sides of the book that the snapshot and the diffs describe. *)
Definition reconstruct (s : DepthSnapshot) (us : list DepthUpdate)
    : res (list (decimal * decimal) * list (decimal * decimal)) :=
  bids ← snapshot_side (ds_bids s);
  asks ← snapshot_side (ds_asks s);
  apply_updates us bids asks.

Inductive binance_op :=
| OpIngest (u : DepthUpdate)
| OpInstall (s : DepthSnapshot)
| OpResync (reason : string).

Definition binance_step (op : binance_op) : BM BookApplyResult :=
  match op with
  | OpIngest u => binance_ingest u
  | OpInstall s => binance_install_snapshot s
  | OpResync reason => binance_begin_resync reason
  end.

Definition updates_of (ops : list binance_op) : list DepthUpdate :=
  omap (λ op, match op with OpIngest u => Some u | _ => None end) ops.
Definition snapshots_of (ops : list binance_op) : list DepthSnapshot :=
  omap (λ op, match op with OpInstall s => Some s | _ => None end) ops.

(** The states reached from a new book by operations that did not raise. *)
Inductive binance_trace : list binance_op → BinanceLocalOrderBook → Prop :=
| trace_init venue maxi b : binance_book_init venue maxi = Ok b → binance_trace [] b
| trace_step ops b op b' r :
    binance_trace ops b → binance_step op b = (b', Ok r) → binance_trace (ops ++ [op]) b'.

(** The sides, the sequence and the diffs [us] they come from. *)
Definition synced (s : DepthSnapshot) (us : list DepthUpdate) (b : BinanceLocalOrderBook)
    : Prop :=
  bridged s us ∧ reconstruct s us = Ok (bb_bids b, bb_asks b) ∧
  bb_sequence_id b = final_update_id <$> last us.

Definition unsynced (b : BinanceLocalOrderBook) : Prop :=
  bb_sequence_id b = None ∧ bb_bids b = [] ∧ bb_asks b = [] ∧ bb_pending b = None.

Definition primed (s : DepthSnapshot) (b : BinanceLocalOrderBook) : Prop :=
  bb_pending b = Some s ∧ bb_sequence_id b = Some (last_update_id s) ∧
  snapshot_side (ds_bids s) = Ok (bb_bids b) ∧ snapshot_side (ds_asks s) = Ok (bb_asks b).

Record binance_inv (ops : list binance_op) (b : BinanceLocalOrderBook) : Prop := {
  bi_bound : 1 ≤ bb_max_buffer_events b ∧
             Z.of_nat (length (bb_buffer b)) ≤ bb_max_buffer_events b;
  bi_buffer : sublist (bb_buffer b) (updates_of ops);
  bi_generation : 0 ≤ bb_generation b;
  bi_live : bb_status b = LIVE →
    bb_buffer b = [] ∧ bb_pending b = None ∧
    ∃ s us, s ∈ snapshots_of ops ∧ sublist us (updates_of ops) ∧ synced s us b;
  bi_other : bb_status b ≠ LIVE →
    unsynced b ∨ ∃ s, s ∈ snapshots_of ops ∧ primed s b }.

(** ** Chains *)

Lemma chained_snoc seq us w u :
  chained seq us → last us = Some w →
  previous_final_update_id u = final_update_id w → final_update_id w < final_update_id u →
  chained seq (us ++ [u]).
Proof.
  revert seq. induction us as [|x us IH]; intros seq; [done|]. simpl.
  intros (Hp & Hlt & Hc) Hl Hu Hltu. split; [done|]. split; [done|].
  destruct us as [|y us]; [injection Hl as ->; simpl; done|]. by apply IH.
Qed.

Lemma bridged_snoc s us w u :
  bridged s us → last us = Some w →
  previous_final_update_id u = final_update_id w → final_update_id w < final_update_id u →
  bridged s (us ++ [u]).
Proof.
  destruct us as [|x us]; [done|]. simpl. intros (Ho & Hc) Hl Hu Hlt. split; [done|].
  destruct us as [|y us]; [by injection Hl as ->|]. by eapply chained_snoc.
Qed.

Lemma apply_updates_app us1 us2 bids asks :
  apply_updates (us1 ++ us2) bids asks =
  ('(bids, asks) ← apply_updates us1 bids asks; apply_updates us2 bids asks).
Proof.
  revert bids asks. induction us1 as [|u us1 IH]; intros bids asks; simpl; [done|].
  destruct (execM _ bids) as [b|e]; simpl; [|done].
  destruct (execM _ asks) as [a|e]; simpl; [|done]. apply IH.
Qed.

Lemma reconstruct_snoc s us u bids asks bids' asks' :
  reconstruct s us = Ok (bids, asks) →
  execM (apply_side (du_bids u)) bids = Ok bids' →
  execM (apply_side (du_asks u)) asks = Ok asks' →
  reconstruct s (us ++ [u]) = Ok (bids', asks').
Proof.
  unfold reconstruct. intros H Hb Ha. inv_res. rewrite H, H0. simpl.
  rewrite apply_updates_app, H1. simpl. by rewrite Hb, Ha.
Qed.

(** ** The steps *)

Lemma apply_update_Ok u b b' r :
  apply_update u b = (b', Ok r) →
  ∃ bids asks, execM (apply_side (du_bids u)) (bb_bids b) = Ok bids ∧
    execM (apply_side (du_asks u)) (bb_asks b) = Ok asks ∧
    b' = set_sync (bb_status b) (bb_generation b) (Some (final_update_id u)) bids asks
           (bb_buffer b) (bb_pending b) b.
Proof.
  unfold apply_update. intros H. inv_M.
  apply zoomM_Ok in H as (bids & Hb & ->). apply zoomM_Ok in H0 as (asks & Ha & ->).
  exists bids, asks. split; [apply execM_Ok; eauto|]. split; [apply execM_Ok; eauto|].
  by destruct b.
Qed.

Lemma apply_update_synced u s us b b' r :
  apply_update u b = (b', Ok r) → synced s us b →
  (∀ seq, bb_sequence_id b = Some seq →
     previous_final_update_id u = seq ∧ seq < final_update_id u) →
  synced s (us ++ [u]) b'.
Proof.
  intros (bids & asks & Hb & Ha & ->)%apply_update_Ok (Hbr & Hrec & Hseq) Hu.
  destruct us as [|x us] using rev_ind; [done|]. rewrite last_snoc in Hseq. simpl in Hseq.
  destruct (Hu _ Hseq) as [Hp Hlt].
  split; [|split].
  - eapply bridged_snoc; [done|apply last_snoc|done|done].
  - simpl. by eapply reconstruct_snoc.
  - simpl. by rewrite last_snoc.
Qed.

(** What no step changes. *)
Definition same_config (b b' : BinanceLocalOrderBook) : Prop :=
  bb_venue_symbol b' = bb_venue_symbol b ∧ bb_canonical_symbol b' = bb_canonical_symbol b ∧
  bb_max_buffer_events b' = bb_max_buffer_events b ∧ bb_generation b ≤ bb_generation b'.

Definition gapped (bufb : list DepthUpdate) (b' : BinanceLocalOrderBook) : Prop :=
  bb_status b' = RESYNC_REQUIRED ∧ unsynced b' ∧ sublist (bb_buffer b') bufb.

(** The replay consumes the whole buffer or stops at a gap. *)
Lemma replay_buffer_Ok fuel : ∀ b b' r s us,
  (length (bb_buffer b) ≤ fuel)%nat → synced s us b →
  replay_buffer fuel b = (b', Ok r) →
  same_config b b' ∧
  match r with
  | Some _ => gapped (bb_buffer b) b'
  | None => bb_buffer b' = [] ∧ ∃ us', sublist us' (bb_buffer b) ∧ synced s (us ++ us') b'
  end.
Proof.
  induction fuel as [|fuel IH]; intros b b' r s us Hlen Hs H; cbn [replay_buffer] in H.
  { inv_M. destruct (bb_buffer b) eqn:Eb; [|simpl in Hlen; lia].
    split; [by repeat split|]. split; [done|]. exists []. by rewrite app_nil_r. }
  inv_M. destruct (bb_buffer b) as [|u rest] eqn:Eb.
  { inv_M. split; [by repeat split|]. split; [done|]. exists []. by rewrite app_nil_r. }
  inv_M. clear H. rename H0 into H.
  pose proof Hs as (Hbr & Hrec & Hseq).
  destruct (bb_sequence_id b) as [seq|] eqn:Es; [|by inv_M].
  destruct (Z.leb_spec (final_update_id u) seq) as [Hle|Hlt].
  - eapply (IH _ _ _ s us) in H; [|simpl in *; lia|done].
    destruct H as [Hc Hr]. split; [exact Hc|]. destruct r.
    + destruct Hr as (? & ? & Hsub). split; [done|]. split; [done|]. by apply sublist_cons.
    + destruct Hr as (? & us' & Hsub & ?). split; [done|]. exists us'.
      split; [by apply sublist_cons|done].
  - destruct (Z.eqb_spec (previous_final_update_id u) seq) as [Heq|Hne]; simpl in H.
    + apply bindM_Ok in H as (b1 & [] & H1 & H). 
      pose proof (apply_update_Ok _ _ _ _ H1) as (bids & asks & _ & _ & ->).
      eapply (apply_update_synced _ s us) in H1; [|done|].
      2:{ simpl. rewrite Es. by intros ? [= <-]. }
      eapply IH in H; [|simpl in *; lia|done]. simpl in H.
      destruct H as [Hc Hr]. split; [exact Hc|]. destruct r.
      * destruct Hr as (? & ? & Hsub). split; [done|]. split; [done|]. by apply sublist_cons.
      * destruct Hr as (? & us' & Hsub & Hsy). split; [done|]. exists (u :: us').
        split; [by apply sublist_skip|]. by rewrite <- app_assoc in Hsy.
    + injection H as <- <-. split; [repeat split; simpl; lia|]. done.
Qed.

Lemma find_index_drop {A} (p : A → bool) l i :
  find_index p l = Some i → ∃ x rest, drop i l = x :: rest ∧ p x = true.
Proof.
  revert i. induction l as [|y l IH]; intros i; simpl; [done|].
  destruct (p y) eqn:E; [intros [= <-]; eauto|].
  destruct (find_index p l) as [j|]; [|done]. intros [= <-]. simpl. by apply IH.
Qed.

(** The first diff applied to a primed book starts the chain. *)
Lemma primed_first s u b b' r :
  snapshot_side (ds_bids s) = Ok (bb_bids b) → snapshot_side (ds_asks s) = Ok (bb_asks b) →
  overlaps (last_update_id s) u = true → apply_update u b = (b', Ok r) → synced s [u] b'.
Proof.
  intros Hb Ha Ho (bids & asks & Hb' & Ha' & ->)%apply_update_Ok.
  apply andb_true_iff in Ho as [?%Z.leb_le ?%Z.leb_le].
  split; [simpl; lia|]. split; [|done]. unfold reconstruct. rewrite Hb, Ha. simpl.
  by rewrite Hb', Ha'.
Qed.

(** An activation that ends with a result makes the book live or leaves it waiting
    for another snapshot; one without a result only drops outdated diffs. *)
Lemma try_activate_Ok b b' r s :
  primed s b → bb_status b ≠ LIVE → try_activate_snapshot b = (b', Ok r) →
  same_config b b' ∧ sublist (bb_buffer b') (bb_buffer b) ∧
  match r with
  | None => bb_status b' ≠ LIVE ∧ primed s b'
  | Some _ =>
    (bb_status b' = LIVE ∧ bb_buffer b' = [] ∧ bb_pending b' = None ∧
       ∃ us, sublist us (bb_buffer b) ∧ synced s us b') ∨
    (bb_status b' ≠ LIVE ∧ (unsynced b' ∨ primed s b'))
  end.
Proof.
  intros Hp Hst H. pose proof Hp as (Hpend & Hseq & Hbids & Hasks).
  unfold try_activate_snapshot in H. inv_M. rewrite Hpend in H0. inv_M.
  set (buf := drop_while (λ u, final_update_id u <? last_update_id s) (bb_buffer b)) in *.
  assert (sublist buf (bb_buffer b)) as Hsub by apply drop_while_sublist.
  cbn [bb_buffer set_buffer set_sync] in *.
  destruct buf as [|first buf'] eqn:Ebuf.
  { inv_M. split; [by repeat split|]. split; [done|]. by split. }
  destruct (find_index (overlaps (last_update_id s)) (first :: buf')) as [i|] eqn:Ei.
  - apply find_index_drop in Ei as (u & rest & Ed & Hov). rewrite Ed in H1.
    assert (sublist (u :: rest) (bb_buffer b)) as Hsub'.
    { rewrite <- Ed. etransitivity; [apply sublist_drop|done]. }
    apply bindM_Ok in H1 as (b1 & [] & Hb1 & H1). injection Hb1 as <-.
    apply bindM_Ok in H1 as (b2 & [] & Hap & H1).
    pose proof (apply_update_Ok _ _ _ _ Hap) as (bids & asks & _ & _ & E2).
    apply (primed_first s) in Hap; [|done|done|done].
    apply bindM_Ok in H1 as (b3 & gap & Hrep & H1).
    assert (bb_buffer b2 = rest) as Eb2 by by rewrite E2.
    apply (replay_buffer_Ok _ _ _ _ s [u]) in Hrep; [|by rewrite Eb2|done].
    rewrite Eb2 in Hrep. destruct Hrep as [Hc Hr].
    assert (same_config b b3) as Hc'.
    { destruct Hc as (? & ? & ? & ?). rewrite E2 in *. done. }
    destruct gap as [g|]; unfold binance_result in *; inv_M.
    + destruct Hr as (Hs3 & Hun & Hs). split; [done|].
      split; [etransitivity; [exact Hs|]; etransitivity; [|exact Hsub']; by apply sublist_cons|].
      right. split; [by rewrite Hs3|by left].
    + destruct Hr as (Hb3 & us' & Hs3 & Hsy). split; [exact Hc'|].
      split; [simpl; rewrite Hb3; apply sublist_nil_l|]. left. split; [done|]. split; [done|].
      split; [done|]. exists (u :: us'). split; [|done].
      etransitivity; [|exact Hsub']. by apply sublist_skip.
  - unfold binance_result in *. destruct (last_update_id s <? first_update_id first); inv_M;
      (split; [by repeat split|]; split; [done|]); [|by split].
    right. split; [done|]. by right.
Qed.

Lemma updates_of_snoc ops op :
  updates_of (ops ++ [op]) =
  updates_of ops ++ match op with OpIngest u => [u] | _ => [] end.
Proof. unfold updates_of. rewrite omap_app. by destruct op. Qed.

Lemma snapshots_of_snoc ops op :
  snapshots_of (ops ++ [op]) =
  snapshots_of ops ++ match op with OpInstall s => [s] | _ => [] end.
Proof. unfold snapshots_of. rewrite omap_app. by destruct op. Qed.

(** Whatever an activation does to a primed book keeps the invariant. *)
Lemma try_activate_inv ops b b' r s :
  1 ≤ bb_max_buffer_events b → Z.of_nat (length (bb_buffer b)) ≤ bb_max_buffer_events b →
  sublist (bb_buffer b) (updates_of ops) → 0 ≤ bb_generation b → s ∈ snapshots_of ops →
  primed s b → bb_status b ≠ LIVE → try_activate_snapshot b = (b', Ok r) →
  binance_inv ops b' ∧ (r = None → bb_status b' ≠ LIVE).
Proof.
  intros Hmax Hlen Hsub Hgen Hin Hp Hst H.
  apply (try_activate_Ok _ _ _ s) in H as ((_ & _ & Em & Hg) & Hs & Hr); [|done|done].
  assert (bb_status b' ≠ LIVE → unsynced b' ∨ primed s b' →
    binance_inv ops b') as Hother.
  { intros Hn Hor. constructor; [|by etransitivity|lia|done|].
    - rewrite Em. apply sublist_length in Hs. lia.
    - intros _. destruct Hor; eauto. }
  destruct r as [r|].
  - split; [|done]. destruct Hr as [(Hl & Hb & Hpe & us & Hus & Hsy)|[Hn Hor]]; [|by apply Hother].
    constructor; [|by etransitivity|lia| |done].
    + rewrite Em, Hb. simpl. lia.
    + intros _. split; [done|]. split; [done|]. exists s, us. split; [done|].
      split; [by etransitivity|done].
  - destruct Hr as [Hn Hp']. split; [|done]. by apply Hother; [|right].
Qed.

Lemma invalidate_inv ops b buffer :
  0 ≤ bb_generation b → 1 ≤ bb_max_buffer_events b →
  (length buffer ≤ 1)%nat → sublist buffer (updates_of ops) →
  binance_inv ops (set_sync RESYNC_REQUIRED (bb_generation b + 1) None [] [] buffer None b).
Proof.
  intros Hg Hm Hl Hs. constructor; simpl; [lia|done|lia|done|]. intros _. by left.
Qed.

Lemma binance_resync_inv ops reason b b' r :
  binance_inv ops b → binance_begin_resync reason b = (b', Ok r) →
  binance_inv (ops ++ [OpResync reason]) b'.
Proof.
  intros [[Hm Hl] Hb Hg _ _] H. unfold binance_begin_resync, invalidate, binance_result in H.
  inv_M. apply invalidate_inv; [done|done|simpl; lia|apply sublist_nil_l].
Qed.

Lemma binance_install_inv ops s b b' r :
  binance_inv ops b → binance_install_snapshot s b = (b', Ok r) →
  binance_inv (ops ++ [OpInstall s]) b'.
Proof.
  intros [[Hm Hl] Hb Hg _ _] H. unfold binance_install_snapshot in H. inv_M.
  set (b1 := set_status BUFFERING _) in *.
  match goal with H : try_activate_snapshot b1 = _ |- _ =>
    apply (try_activate_inv (ops ++ [OpInstall s]) b1 _ _ s) in H as [Hinv Hn]; try done end.
  - match goal with H : context [match ?o with Some _ => mret _ | None => _ end] |- _ =>
      destruct o; unfold binance_result in *; by inv_M end.
  - rewrite updates_of_snoc, app_nil_r. done.
  - rewrite snapshots_of_snoc. apply elem_of_app. right. left.
Qed.

Lemma sublist_snoc {A} (l1 l2 : list A) x : sublist l1 l2 → sublist (l1 ++ [x]) (l2 ++ [x]).
Proof. intros. by apply sublist_app. Qed.

Lemma buffer_update_inv ops u b b' r :
  binance_inv ops b → bb_status b ≠ LIVE → buffer_update u b = (b', Ok r) →
  binance_inv (ops ++ [OpIngest u]) b'.
Proof.
  intros [[Hm Hl] Hb Hg _ Ho] Hst H. specialize (Ho Hst). unfold buffer_update in H. inv_M.
  pose proof (updates_of_snoc ops (OpIngest u)) as Eu. simpl in Eu.
  destruct (Z.leb_spec (bb_max_buffer_events b) (Z.of_nat (length (bb_buffer b)))) as [Hle|Hlt].
  { unfold overflow, invalidate, binance_result in *. inv_M.
    apply invalidate_inv; [done|done|simpl; lia|]. rewrite Eu. by apply sublist_inserts_l. }
  inv_M. set (b1 := set_buffer _ b) in *.
  assert (sublist (bb_buffer b1) (updates_of (ops ++ [OpIngest u]))) as Hb1
    by (rewrite Eu; by apply sublist_snoc).
  assert (Z.of_nat (length (bb_buffer b1)) ≤ bb_max_buffer_events b1) as Hl1
    by (simpl; rewrite length_app; simpl; lia).
  assert (∀ s, s ∈ snapshots_of ops → s ∈ snapshots_of (ops ++ [OpIngest u])) as Hin
    by (intros s; rewrite snapshots_of_snoc, app_nil_r; done).
  destruct (bb_pending b) as [s|] eqn:Ep.
  - destruct Ho as [(_ & _ & _ & Hp)|(s' & Hs' & Hp)]; [congruence|].
    assert (s' = s) as -> by (destruct Hp; congruence).
    inv_M.
    match goal with H : try_activate_snapshot b1 = _ |- _ =>
      apply (try_activate_inv (ops ++ [OpIngest u]) b1 _ _ s) in H as [Hinv Hn]; auto end.
    match goal with H : context [match ?o with Some _ => mret _ | None => _ end] |- _ =>
      destruct o; unfold binance_result in *; by inv_M end.
  - unfold binance_result in *. inv_M. constructor; [done|done|done|done|]. intros _.
    destruct Ho as [Hun|(s' & _ & Hp)]; [|destruct Hp; congruence]. left. exact Hun.
Qed.

Lemma binance_ingest_inv ops u b b' r :
  binance_inv ops b → binance_ingest u b = (b', Ok r) → binance_inv (ops ++ [OpIngest u]) b'.
Proof.
  intros Hi H. pose proof Hi as [[Hm Hl] Hb Hg Hlive _]. unfold binance_ingest in H. inv_M.
  destruct (bool_decide (bb_status b = LIVE)) eqn:Est; simpl in *;
    [apply bool_decide_eq_true in Est|apply bool_decide_eq_false in Est;
     by eapply buffer_update_inv].
  destruct (Hlive Est) as (Hbuf & Hpend & s & us & Hin & Hus & Hsy).
  pose proof (updates_of_snoc ops (OpIngest u)) as Eu. simpl in Eu.
  assert (∀ us' b1, bb_status b1 = LIVE → bb_max_buffer_events b1 = bb_max_buffer_events b →
    bb_generation b1 = bb_generation b → bb_buffer b1 = [] → bb_pending b1 = None →
    sublist us' (updates_of (ops ++ [OpIngest u])) → synced s us' b1 →
    binance_inv (ops ++ [OpIngest u]) b1) as Hmk.
  { intros us' b1 E1 E2 E3 E4 E5 Hsub Hs1.
    constructor; [rewrite E2, E4; simpl; lia|rewrite E4; apply sublist_nil_l|lia| |done].
    intros _. split; [done|]. split; [done|]. exists s, us'. split; [|done].
    rewrite snapshots_of_snoc, app_nil_r. done. }
  destruct (bb_sequence_id b) as [seq|] eqn:Es; [|by inv_M].
  destruct (Z.leb_spec (final_update_id u) seq) as [Hle|Hlt].
  { unfold binance_result in *. inv_M. apply (Hmk us); try done. rewrite Eu. by apply sublist_inserts_r. }
  destruct (Z.eqb_spec (previous_final_update_id u) seq) as [Heq|Hne]; simpl in *.
  - unfold binance_result in *. inv_M.
    match goal with H : apply_update u b = _ |- _ =>
      pose proof (apply_update_Ok _ _ _ _ H) as (bids & asks & _ & _ & E);
      apply (apply_update_synced _ s us) in H; [|done|]
    end.
    + apply (Hmk (us ++ [u])); rewrite ?E in *; try done. rewrite Eu. by apply sublist_snoc.
    + rewrite Es. by intros ? [= <-].
  - unfold invalidate, binance_result in *. inv_M.
    apply invalidate_inv; [done|done|simpl; lia|]. rewrite Eu. by apply sublist_inserts_l.
Qed.

Lemma binance_trace_inv ops b : binance_trace ops b → binance_inv ops b.
Proof.
  induction 1 as [venue maxi b Hi|ops b op b' r _ IH Hstep].
  - unfold binance_book_init in Hi. inv_res. subst b. case_cmp.
    constructor; simpl; [lia|done|lia|done|]. intros _. by left.
  - destruct op; [by eapply binance_ingest_inv|by eapply binance_install_inv|
      by eapply binance_resync_inv].
Qed.


(** A chain two diffs long over a snapshot, the second diff removing a bid. *)
Definition demo_snapshot : DepthSnapshot :=
  {| last_update_id := 10; ds_event_time_ms := None; ds_transaction_time_ms := None;
     ds_bids := [("100", "1"); ("99", "2")]%string; ds_asks := [("101", "1")]%string |}.
Definition demo_update (first final prev : Z) (bids : list book_level_text) : DepthUpdate :=
  {| du_event_time_ms := 1; du_transaction_time_ms := None; du_symbol := "BTCUSDT";
     first_update_id := first; final_update_id := final; previous_final_update_id := prev;
     du_bids := bids; du_asks := [] |}.
Definition demo_first := demo_update 8 12 7 [("98", "3")]%string.
Definition demo_second := demo_update 13 14 12 [("100.0", "0")]%string.
Definition demo_book_ops : list binance_op :=
  [OpIngest demo_first; OpInstall demo_snapshot; OpIngest demo_second].

Fixpoint run_ops (ops : list binance_op) (b : BinanceLocalOrderBook)
    : res BinanceLocalOrderBook :=
  match ops with
  | [] => Ok b
  | op :: ops => b ← execM (binance_step op) b; run_ops ops b
  end.

Lemma run_ops_trace ops : ∀ done b b',
  binance_trace done b → run_ops ops b = Ok b' → binance_trace (done ++ ops) b'.
Proof.
  induction ops as [|op ops IH]; intros done b b' Ht H; simpl in H.
  - injection H as <-. by rewrite app_nil_r.
  - apply bind_Ok in H as (b1 & (r & Hr)%execM_Ok & H).
    replace (done ++ op :: ops) with ((done ++ [op]) ++ ops) by by rewrite <- app_assoc.
    eapply IH, H. by eapply trace_step.
Defined.

Definition demo_start : BinanceLocalOrderBook :=
  {| bb_venue_symbol := "BTCUSDT"; bb_canonical_symbol := "BTC-USDT-PERP";
     bb_max_buffer_events := 5; bb_status := BUFFERING; bb_generation := 0;
     bb_sequence_id := None; bb_bids := []; bb_asks := []; bb_buffer := [];
     bb_pending := None |}.

Definition demo_book : BinanceLocalOrderBook :=
  match run_ops demo_book_ops demo_start with Ok b => b | Err _ => demo_start end.

Lemma demo_trace : binance_trace demo_book_ops demo_book.
Proof.
  apply (run_ops_trace demo_book_ops [] demo_start demo_book); [|vm_compute; reflexivity].
  apply (trace_init "btcusdt" 5). vm_compute. reflexivity.
Defined.


(** ** Sides and views of reachable books *)

Lemma apply_updates_wf us bids asks bids' asks' :
  apply_updates us bids asks = Ok (bids', asks') → dict_wf bids → dict_wf asks →
  dict_wf bids' ∧ dict_wf asks'.
Proof.
  revert bids asks. induction us as [|u us IH]; intros bids asks H Hb Ha; simpl in H.
  - by injection H as <- <-.
  - inv_res. eapply IH; [done|by eapply apply_side_wf|by eapply apply_side_wf].
Qed.

Lemma binance_sides_wf ops b : binance_trace ops b → dict_wf (bb_bids b) ∧ dict_wf (bb_asks b).
Proof.
  intros Ht%binance_trace_inv. destruct Ht as [_ _ _ Hl Ho]. destruct (decide (bb_status b = LIVE)) as [E|E].
  - destruct (Hl E) as (_ & _ & s & us & _ & _ & (_ & Hrec & _)). unfold reconstruct in Hrec.
    inv_res. eapply apply_updates_wf; [done|by eapply snapshot_side_wf|by eapply snapshot_side_wf].
  - destruct (Ho E) as [(_ & -> & -> & _)|(s & _ & _ & _ & Hb & Ha)]; [done|].
    split; by eapply snapshot_side_wf.
Qed.

Lemma item_leb_total x y : item_leb x y = false → item_leb y x = true.
Proof.
  unfold item_leb. rewrite (pyeq_sym_iff (K := decimal) y.1 x.1 : deqb y.1 x.1 = deqb x.1 y.1).
  destruct (deqb x.1 y.1); apply dleb_total.
Qed.

Lemma deqb_leb x y : deqb x y = true → dleb x y = true.
Proof. intros E. rewrite dleb_ltb. apply (pyeq_sym (K := decimal)) in E.
  destruct (dltb y x) eqn:El; [|done]. apply dltb_neq in El.
  unfold pyeq, decimal_pyeq in E. congruence. Qed.

Lemma item_leb_price x y : item_leb x y = true → dleb x.1 y.1 = true.
Proof. unfold item_leb. destruct (deqb x.1 y.1) eqn:E; [by intros; apply deqb_leb|done]. Qed.

Lemma item_leb_trans x y z : item_leb x y = true → item_leb y z = true → item_leb x z = true.
Proof.
  intros Hxy Hyz. pose proof (item_leb_price _ _ Hxy) as P1. pose proof (item_leb_price _ _ Hyz) as P2.
  unfold item_leb in *.
  destruct (deqb x.1 z.1) eqn:Exz; [|by eapply dleb_trans].
  assert (deqb x.1 y.1 = true) as E1.
  { destruct (deqb x.1 y.1) eqn:E; [done|]. apply (dleb_neq_ltb _ _ P1) in E.
    rewrite (Exz : x.1 ≡ z.1), dleb_ltb in *. by rewrite E in P2. }
  assert (deqb y.1 z.1 = true) as E2
    by (apply (pyeq_trans (K := decimal) _ x.1); [by apply (pyeq_sym (K := decimal))|done]).
  rewrite E1 in Hxy. rewrite E2 in Hyz. by eapply dleb_trans.
Qed.

Lemma binance_sorted_side desc side :
  dict_wf side →
  StronglySorted (λ x y, price_before desc x.1 y.1)
    (py_sorted (if desc then λ x y, item_leb y x else item_leb) side).
Proof.
  intros Hwf. apply sorted_strict; [| | |done].
  - destruct desc; intros x y; apply item_leb_total.
  - destruct desc; intros x y z; eauto using item_leb_trans.
  - destruct desc; intros x y Hle%item_leb_price; by apply price_leb_dir_strict.
Qed.

(** The view of a reachable book lists the [depth] best entries of each side and
    no others: bids by strictly falling, asks by strictly rising price; it is
    marked synchronized exactly while the book is live. *)
Theorem binance_view_sorted ops b depth v :
  binance_trace ops b → binance_view b depth = Ok v →
  (∃ bids, bids ≡ₚ bb_bids b ∧ v_bids v = level_item <$> truncate depth bids ∧
     StronglySorted price_gt (level_item <$> bids)) ∧
  (∃ asks, asks ≡ₚ bb_asks b ∧ v_asks v = level_item <$> truncate depth asks ∧
     StronglySorted price_lt (level_item <$> asks)) ∧
  (v_synchronized v = true ↔ bb_status b = LIVE) ∧ v_sequence_id v = bb_sequence_id b.
Proof.
  intros [Hb Ha]%binance_sides_wf H. unfold binance_view in H. inv_res. subst v. simpl.
  apply mapR_mk_level in H0, H1. subst.
  assert (∀ (R : OrderBookLevel → OrderBookLevel → Prop) l, StronglySorted (λ x y : decimal * decimal, R (level_item x) (level_item y)) l →
    StronglySorted R (level_item <$> l)) as Hmap.
  { clear. intros R l. induction 1 as [|x l Hs IH Hall]; simpl; constructor; [done|].
    apply Forall_fmap. exact Hall. }
  split; [|split; [|split; [|done]]].
  - eexists. split; [apply py_sorted_perm|]. split; [done|].
    apply Hmap, (binance_sorted_side true), Hb.
  - eexists. split; [apply py_sorted_perm|]. split; [done|].
    apply Hmap, (binance_sorted_side false), Ha.
  - apply bool_decide_eq_true.
Qed.

Lemma binance_view_sorted_witness :
  ∃ v, binance_view demo_book (Some 1) = Ok v ∧ v_bids v = [level_item (Dec 99 0, Dec 2 0)] ∧
  (v_synchronized v = true ↔ bb_status demo_book = LIVE).
Proof.
  eexists. split; [vm_compute; reflexivity|]. split; [vm_compute; reflexivity|].
  apply (binance_view_sorted demo_book_ops demo_book (Some 1) _ demo_trace).
  vm_compute. reflexivity.
Defined.

(** ** Errors *)

Lemma binance_parse_error (l : book_level_text) e :
  parse_level (V := decimal) l = Err e → is_value_error e.
Proof.
  destruct l as [p q]. unfold parse_level, binance_level_text.
  destruct (decimal_from_text p) as [|] eqn:Ep; simpl; [|intros [= <-]; by eapply decimal_from_text_error].
  destruct (decimal_from_text q) as [|] eqn:Eq; simpl; [done|intros [= <-]; by eapply decimal_from_text_error].
Qed.

Lemma apply_update_error u b b' e : apply_update u b = (b', Err e) → is_value_error e.
Proof.
  unfold apply_update. intros H. inv_err;
    apply zoomM_Err in H as [t H]; eapply (apply_side_error binance_parse_error), H.
Qed.

Lemma apply_update_sequence u b b' r :
  apply_update u b = (b', Ok r) → is_Some (bb_sequence_id b').
Proof. intros (? & ? & _ & _ & ->)%apply_update_Ok. by eexists. Qed.

Lemma replay_buffer_error fuel b b' e :
  is_Some (bb_sequence_id b) → replay_buffer fuel b = (b', Err e) → is_value_error e.
Proof.
  revert b. induction fuel as [|fuel IH]; intros b [seq Hseq] H; cbn [replay_buffer] in H.
  { by inv_err. }
  inv_err. destruct (bb_buffer b) as [|u rest]; [done|]. inv_err. rewrite Hseq in *.
  destruct (final_update_id u <=? seq); [eapply IH, H; by exists seq|].
  destruct (negb _); [unfold invalidate, binance_result in *; by inv_err|].
  inv_err; [by eapply apply_update_error|].
  eapply IH, H. by eapply apply_update_sequence.
Qed.

Lemma try_activate_error b b' e :
  try_activate_snapshot b = (b', Err e) → is_value_error e.
Proof.
  unfold try_activate_snapshot. intros H. inv_err.
  destruct (bb_pending b) as [s|]; [|done]. inv_err.
  cbn [bb_buffer set_buffer set_sync] in *.
  destruct (drop_while _ _) as [|first buf] eqn:Ed; [done|].
  destruct (find_index _ _) as [i|].
  - destruct (drop i _) as [|u rest]; [done|]. inv_err; [by eapply apply_update_error|..].
    + eapply replay_buffer_error, H. by eapply apply_update_sequence.
    + match goal with H : match ?o with Some _ => _ | None => _ end _ = _ |- _ =>
        destruct o; unfold binance_result in *; by inv_err end.
  - destruct (_ <? _); [|done]. unfold binance_result in *. by inv_err.
Qed.

(** C39. On a book reached by operations that did not raise, an operation raises
    nothing but a [ValueError] (a foreign symbol or the text of a level): the two
    internal [RuntimeError]s are unreachable. *)
Theorem binance_no_runtime_error ops b op b' e :
  binance_trace ops b → binance_step op b = (b', Err e) → is_value_error e.
Proof.
  intros Ht%binance_trace_inv H.
  destruct op as [u|s|reason]; cbn [binance_step] in H.
  - unfold binance_ingest in H. inv_err.
    { apply liftM_Err in H. unfold require in H. destruct (bool_decide _); [done|].
      injection H as <-. by eexists. }
    destruct (bool_decide (bb_status b = LIVE)) eqn:Est; simpl in *.
    + apply bool_decide_eq_true in Est.
      destruct (bi_live _ _ Ht Est) as (_ & _ & s & us & _ & _ & (Hb & _ & Hseq)).
      destruct us as [|w us] using rev_ind; [done|]. rewrite last_snoc in Hseq. simpl in Hseq.
      rewrite Hseq in H. destruct (_ <=? _); [done|].
      destruct (negb _); unfold invalidate, binance_result in *; inv_err; try done.
      by eapply apply_update_error.
    + unfold buffer_update in H. inv_err.
      destruct (_ <=? _); [unfold overflow, invalidate, binance_result in *; by inv_err|].
      inv_err. destruct (bb_pending b); [|unfold binance_result in *; by inv_err].
      inv_err; [by eapply try_activate_error|].
      match goal with H : match ?o with Some _ => _ | None => _ end _ = _ |- _ =>
        destruct o; unfold binance_result in *; by inv_err end.
  - unfold binance_install_snapshot in H. inv_err.
    + apply liftM_Err in H. by eapply (fill_side_error binance_parse_error).
    + apply liftM_Err in H. by eapply (fill_side_error binance_parse_error).
    + by eapply try_activate_error.
    + match goal with H : match ?o with Some _ => _ | None => _ end _ = _ |- _ =>
        destruct o; unfold binance_result in *; by inv_err end.
  - unfold binance_begin_resync, invalidate, binance_result in H. by inv_err.
Qed.

Lemma binance_no_runtime_error_witness :
  ∃ b' e, binance_step (OpIngest (demo_update 15 16 14 [("x", "1")]%string)) demo_book =
    (b', Err e) ∧ is_value_error e.
Proof.
  do 2 eexists. split; [vm_compute; reflexivity|].
  eapply (binance_no_runtime_error demo_book_ops demo_book
    (OpIngest (demo_update 15 16 14 [("x", "1")]%string)) _ _ demo_trace).
  vm_compute. reflexivity.
Defined.

(** On a reachable book, applying a diff sets every price it names, on its own
    side, to the absolute quantity of the last level naming it numerically (zero
    removes the price), and leaves every other price of both sides alone. *)
Theorem apply_update_absolute ops b u b' :
  binance_trace ops b → execM (apply_update u) b = Ok b' →
  ∃ bids asks, mapR parse_level (du_bids u) = Ok bids ∧ mapR parse_level (du_asks u) = Ok asks ∧
    ∀ p, dict_get p (bb_bids b') = decided p bids (dict_get p (bb_bids b)) ∧
         dict_get p (bb_asks b') = decided p asks (dict_get p (bb_asks b)).
Proof.
  intros [Hb Ha]%binance_sides_wf [r H]%execM_Ok.
  apply apply_update_Ok in H as (bids & asks & Hb' & Ha' & ->).
  apply apply_side_lookup in Hb' as (_ & pb & Hpb & Hgb); [|done].
  apply apply_side_lookup in Ha' as (_ & pa & Hpa & Hga); [|done].
  exists pb, pa. split; [done|]. split; [done|]. intros p. split; [apply Hgb|apply Hga].
Qed.

Lemma apply_update_absolute_witness :
  ∃ b', execM (apply_update (demo_update 15 16 14 [("99.0", "0"); ("98", "4")]%string)) demo_book =
    Ok b' ∧ (∃ bids asks,
      mapR parse_level [("99.0", "0"); ("98", "4")]%string = Ok bids ∧
      mapR parse_level ([] : list book_level_text) = Ok asks ∧
      ∀ p, dict_get p (bb_bids b') = decided p bids (dict_get p (bb_bids demo_book)) ∧
           dict_get p (bb_asks b') = decided p asks (dict_get p (bb_asks demo_book))) ∧
    bb_bids b' = [(Dec 98 0, Dec 4 0)].
Proof.
  eexists. split; [vm_compute; reflexivity|]. split; [|vm_compute; reflexivity].
  eapply (apply_update_absolute demo_book_ops demo_book
    (demo_update 15 16 14 [("99.0", "0"); ("98", "4")]%string) _ demo_trace).
  vm_compute. reflexivity.
Defined.

(** ** The manager keeps the books apart *)

Lemma with_book_isolated {A} venue (op : BM A) m m' r k :
  with_book venue op m = (m', r) → k ≠ str_upper venue →
  dict_get k (bm_books m') = dict_get k (bm_books m) ∧
  bm_max_buffer_events m' = bm_max_buffer_events m.
Proof.
  unfold with_book. intros H Hk.
  destruct (match dict_get (str_upper venue) (bm_books m) with
    | Some b => Ok b | None => _ end) as [b|e]; [|by injection H as <- _].
  destruct (op b) as [b' r']. injection H as <- _. simpl. split; [|done].
  apply dict_get_set_ne. by apply bool_decide_eq_false.
Qed.

(** An exception in the middle of a snapshot leaves a book that no successful
    operation reaches: live, with the new bids and the old asks. *)
Definition torn_snapshot : DepthSnapshot :=
  {| last_update_id := 20; ds_event_time_ms := None; ds_transaction_time_ms := None;
     ds_bids := [("90", "5")]%string; ds_asks := [("oops", "1")]%string |}.

(** Installing a snapshot is not atomic: when the text of an ask is not a
    number, the exception leaves the book LIVE with the new snapshot's bids and
    sequence next to the old asks. *)
Theorem install_snapshot_not_atomic :
  ∃ ops b b' e, binance_trace ops b ∧ bb_status b = LIVE ∧
    binance_step (OpInstall torn_snapshot) b = (b', Err e) ∧ bb_status b' = LIVE ∧
    bb_sequence_id b' = Some 20 ∧ bb_bids b' = [(Dec 90 0, Dec 5 0)] ∧ bb_asks b' = bb_asks b.
Proof.
  exists demo_book_ops, demo_book. do 2 eexists. split; [exact demo_trace|].
  split; [vm_compute; reflexivity|]. split; [vm_compute; reflexivity|].
  repeat split; vm_compute; reflexivity.
Qed.
