(* ===== verification/BookOkx.v ===== *)
(** * The OKX local order books

    [orderbook/okx.py]: the incremental [books] state machine with its CRC-32
    checksum, the full-snapshot [books5] book, and their manager. *)

From Stdlib Require Import Ascii.
From S2P Require Import Prelude Effects PyDecimal PyTime Models Symbols NormBinance NormOkx.
From S2P Require Import BookBase.
Import Okx.

Record RawLevel := {
  rl_price : decimal;
  rl_quantity_contracts : decimal;
  rl_price_text : string;
  rl_quantity_text : string }.

#[export] Instance okx_level_text : BookLevelText book_level_text RawLevel := λ l,
  price ← decimal_from_text (lt_price l);
  quantity ← decimal_from_text (lt_size l);
  Ok (price, quantity,
      {| rl_price := price; rl_quantity_contracts := quantity;
         rl_price_text := lt_price l; rl_quantity_text := lt_size l |}).

Definition raw_sides : Type := list (decimal * RawLevel).
Definition raw_side (levels : list book_level_text) : res raw_sides := snapshot_side levels.
Definition apply_raw_side (levels : list book_level_text) : M raw_sides unit := apply_side levels.

(** ** CRC-32

    [zlib.crc32]: the reflected polynomial 0xEDB88320, bit by bit. *)

Definition crc_bit (c : Z) : Z :=
  if Z.testbit c 0 then Z.lxor (Z.shiftr c 1) 0xEDB88320 else Z.shiftr c 1.
Definition crc_byte (c : Z) (a : ascii) : Z :=
  Nat.iter 8 crc_bit (Z.lxor c (Z.of_N (N_of_ascii a))).
Definition crc32 (s : string) : Z :=
  Z.lxor (foldl crc_byte 0xFFFFFFFF (chars s)) 0xFFFFFFFF.

Definition signed_crc32 (payload : string) : Z :=
  let checksum := crc32 payload in
  if checksum <? 2 ^ 31 then checksum else checksum - 2 ^ 32.

(** [sorted(side.values(), key=lambda level: level.price)], best first. *)
Definition sort_levels (desc : bool) (side : raw_sides) : list RawLevel :=
  py_sorted (λ x y, price_leb_dir desc (rl_price x) (rl_price y)) (map snd side).

(** The loop over [range(max(len(bids), len(asks)))]. *)
Fixpoint interleave (n : nat) (bids asks : list RawLevel) : list string :=
  match n with
  | O => []
  | S n =>
    (match bids with b :: _ => [rl_price_text b; rl_quantity_text b] | [] => [] end) ++
    (match asks with a :: _ => [rl_price_text a; rl_quantity_text a] | [] => [] end) ++
    interleave n (tail bids) (tail asks)
  end.

(** [":".join(values)]. *)
Fixpoint join_colon (l : list string) : string :=
  match l with
  | [] => ""
  | [x] => x
  | x :: l => x +:+ ":" +:+ join_colon l
  end.

Definition checksum_from_sides (bids asks : raw_sides) : Z :=
  let bids := take 25 (sort_levels true bids) in
  let asks := take 25 (sort_levels false asks) in
  signed_crc32 (join_colon (interleave (Nat.max (length bids) (length asks)) bids asks)).

Definition calculate_okx_checksum (bids asks : list book_level_text) : res Z :=
  b ← raw_side bids; a ← raw_side asks; Ok (checksum_from_sides b a).

(** ** [OkxLocalOrderBook] *)

Record OkxLocalOrderBook := {
  ob_specification : ContractSpecification;
  ob_validate_checksum : bool;
  ob_status : BookStatus;
  ob_generation : Z;
  ob_sequence_id : option Z;
  ob_bids : raw_sides;
  ob_asks : raw_sides }.

Definition okx_book_init (s : ContractSpecification) (validate_nonzero_checksum : bool)
    : res OkxLocalOrderBook :=
  _ ← require (bool_decide (spec_exchange s = OKX))
        (ValueError "OKX book requires an OKX contract specification");
  Ok {| ob_specification := s; ob_validate_checksum := validate_nonzero_checksum;
        ob_status := BUFFERING; ob_generation := 0; ob_sequence_id := None;
        ob_bids := []; ob_asks := [] |}.

Definition ob_set (st : BookStatus) (gen : Z) (seq : option Z) (bids asks : raw_sides)
    (b : OkxLocalOrderBook) : OkxLocalOrderBook :=
  {| ob_specification := ob_specification b; ob_validate_checksum := ob_validate_checksum b;
     ob_status := st; ob_generation := gen; ob_sequence_id := seq; ob_bids := bids;
     ob_asks := asks |}.
Definition ob_set_status st (b : OkxLocalOrderBook) :=
  ob_set st (ob_generation b) (ob_sequence_id b) (ob_bids b) (ob_asks b) b.
Definition ob_set_sequence seq (b : OkxLocalOrderBook) :=
  ob_set (ob_status b) (ob_generation b) seq (ob_bids b) (ob_asks b) b.
Definition ob_set_bids bids (b : OkxLocalOrderBook) :=
  ob_set (ob_status b) (ob_generation b) (ob_sequence_id b) bids (ob_asks b) b.
Definition ob_set_asks asks (b : OkxLocalOrderBook) :=
  ob_set (ob_status b) (ob_generation b) (ob_sequence_id b) (ob_bids b) asks b.

Abbreviation OM := (M OkxLocalOrderBook).

Definition okx_result (transition : BookTransition) (needs_snapshot : bool)
    (reason : option string) : OM BookApplyResult :=
  b ← getM;
  mret {| r_transition := transition; r_status := ob_status b;
          r_generation := ob_generation b; r_sequence_id := ob_sequence_id b;
          r_buffered_events := 0; r_needs_snapshot := needs_snapshot; r_reason := reason |}.

Definition okx_invalidate : OM unit :=
  modifyM (λ b, ob_set RESYNC_REQUIRED (ob_generation b + 1) None [] [] b).

Definition okx_begin_resync (reason : string) : OM BookApplyResult :=
  _ ← okx_invalidate; okx_result RESYNC_STARTED true (Some reason).

Definition checksum_valid (b : OkxLocalOrderBook) (checksum : Z) : bool :=
  if checksum =? 0 then true
  else if negb (ob_validate_checksum b) then true
  else checksum_from_sides (ob_bids b) (ob_asks b) =? checksum.

Definition checksum_failure (checksum : Z) : OM BookApplyResult :=
  _ ← okx_invalidate;
  okx_result CHECKSUM_MISMATCH true (Some "expected historical checksum"%string).

Definition okx_ingest (action : BookAction) (data : BookData) : OM BookApplyResult :=
  match action with
  | ActSnapshot =>
    bids ← liftM (raw_side (bd_bids data));
    _ ← modifyM (ob_set_bids bids);
    asks ← liftM (raw_side (bd_asks data));
    _ ← modifyM (ob_set_asks asks);
    _ ← modifyM (ob_set_sequence (Some (bd_sequence_id data)));
    b ← getM;
    if negb (checksum_valid b (bd_checksum data)) then checksum_failure (bd_checksum data)
    else
      _ ← modifyM (ob_set_status LIVE);
      okx_result SNAPSHOT_APPLIED false None
  | ActUpdate =>
    b ← getM;
    match ob_sequence_id b with
    | Some seq =>
      if negb (bool_decide (ob_status b = LIVE)) then
        _ ← modifyM (ob_set_status RESYNC_REQUIRED);
        okx_result SEQUENCE_GAP true
          (Some "received incremental books data before a valid snapshot"%string)
      else if negb (bd_previous_sequence_id data =? seq) then
        _ ← okx_invalidate;
        okx_result SEQUENCE_GAP true (Some "expected prevSeqId"%string)
      else
        _ ← zoomM ob_bids ob_set_bids (apply_raw_side (bd_bids data));
        _ ← zoomM ob_asks ob_set_asks (apply_raw_side (bd_asks data));
        _ ← modifyM (ob_set_sequence (Some (bd_sequence_id data)));
        b ← getM;
        if negb (checksum_valid b (bd_checksum data)) then checksum_failure (bd_checksum data)
        else okx_result UPDATE_APPLIED false None
    | None =>
      _ ← modifyM (ob_set_status RESYNC_REQUIRED);
      okx_result SEQUENCE_GAP true
        (Some "received incremental books data before a valid snapshot"%string)
    end
  end.

Definition normalized_level (s : ContractSpecification) (l : RawLevel) : res OrderBookLevel :=
  mk_level (rl_price l) (contracts_to_base s (rl_quantity_contracts l)).

Definition okx_view_of (s : ContractSpecification) (channel : string) (gen : Z)
    (seq : option Z) (st : BookStatus) (bids asks : raw_sides) (depth : option Z)
    : res BookView :=
  _ ← check_depth depth;
  b ← mapR (normalized_level s) (truncate depth (sort_levels true bids));
  a ← mapR (normalized_level s) (truncate depth (sort_levels false asks));
  Ok {| v_exchange := OKX; v_symbol := spec_canonical_symbol s; v_channel := channel;
        v_generation := gen; v_sequence_id := seq;
        v_synchronized := bool_decide (st = LIVE); v_bids := b; v_asks := a |}.

Definition okx_view (b : OkxLocalOrderBook) (depth : option Z) : res BookView :=
  okx_view_of (ob_specification b) "books" (ob_generation b) (ob_sequence_id b) (ob_status b)
    (ob_bids b) (ob_asks b) depth.

(** ** [OkxBooks5OrderBook] *)

Record OkxBooks5OrderBook := {
  o5_specification : ContractSpecification;
  o5_status : BookStatus;
  o5_generation : Z;
  o5_sequence_id : option Z;
  o5_bids : raw_sides;
  o5_asks : raw_sides }.

Definition okx_books5_init (s : ContractSpecification) : res OkxBooks5OrderBook :=
  _ ← require (bool_decide (spec_exchange s = OKX))
        (ValueError "OKX books5 requires an OKX contract specification");
  Ok {| o5_specification := s; o5_status := BUFFERING; o5_generation := 0;
        o5_sequence_id := None; o5_bids := []; o5_asks := [] |}.

Definition o5_set (st : BookStatus) (gen : Z) (seq : option Z) (bids asks : raw_sides)
    (b : OkxBooks5OrderBook) : OkxBooks5OrderBook :=
  {| o5_specification := o5_specification b; o5_status := st; o5_generation := gen;
     o5_sequence_id := seq; o5_bids := bids; o5_asks := asks |}.

Definition okx_books5_begin_resync (reason : string) : M OkxBooks5OrderBook BookApplyResult :=
  _ ← modifyM (λ b, o5_set RESYNC_REQUIRED (o5_generation b + 1) None [] [] b);
  b ← getM;
  mret {| r_transition := RESYNC_STARTED; r_status := o5_status b;
          r_generation := o5_generation b; r_sequence_id := None; r_buffered_events := 0;
          r_needs_snapshot := true; r_reason := Some reason |}.

Definition okx_books5_ingest (data : Books5Data) : M OkxBooks5OrderBook BookApplyResult :=
  b ← getM;
  _ ← requireM (bool_decide (b5_instrument_id data = spec_venue_symbol (o5_specification b)))
        (ValueError "books5 cannot ingest");
  bids ← liftM (raw_side (b5_bids data));
  _ ← modifyM (λ b, o5_set (o5_status b) (o5_generation b) (o5_sequence_id b) bids (o5_asks b) b);
  asks ← liftM (raw_side (b5_asks data));
  _ ← modifyM (λ b, o5_set LIVE (o5_generation b) (Some (b5_sequence_id data)) (o5_bids b) asks b);
  b ← getM;
  mret {| r_transition := SNAPSHOT_APPLIED; r_status := o5_status b;
          r_generation := o5_generation b; r_sequence_id := o5_sequence_id b;
          r_buffered_events := 0; r_needs_snapshot := false; r_reason := None |}.

Definition okx_books5_view (b : OkxBooks5OrderBook) (depth : option Z) : res BookView :=
  okx_view_of (o5_specification b) "books5" (o5_generation b) (o5_sequence_id b) (o5_status b)
    (o5_bids b) (o5_asks b) depth.

(** ** [OkxOrderBookManager] *)

Record OkxManager := {
  om_books : list (string * OkxLocalOrderBook);
  om_books5 : list (string * OkxBooks5OrderBook) }.

Definition okx_manager_init (specifications : list (string * ContractSpecification))
    (validate_nonzero_checksum : bool) : res OkxManager :=
  books ← mapR (λ '(k, s), b ← okx_book_init s validate_nonzero_checksum; Ok (k, b))
            specifications;
  books5 ← mapR (λ '(k, s), b ← okx_books5_init s; Ok (k, b)) specifications;
  Ok {| om_books := books; om_books5 := books5 |}.

Definition okx_ingest_books (m : BooksMessage) : M OkxManager (list BookApplyResult) := λ st,
  match arg_instrument_id (bm_argument m) with
  | None => (st, Err (ValueError "OKX books message is missing instId"))
  | Some k =>
    match dict_get k (om_books st) with
    | None => (st, Err (ValueError "no OKX books state"))
    | Some b =>
      let '(b', r) := mapMs (okx_ingest (bm_action m)) (bm_data m) b in
      ({| om_books := dict_set k b' (om_books st); om_books5 := om_books5 st |}, r)
    end
  end.

Definition okx_ingest_books5_one (d : Books5Data) : M OkxManager BookApplyResult := λ st,
  match dict_get (b5_instrument_id d) (om_books5 st) with
  | None => (st, Err (ValueError "no OKX books5 state"))
  | Some b =>
    let '(b', r) := okx_books5_ingest d b in
    ({| om_books := om_books st;
        om_books5 := dict_set (b5_instrument_id d) b' (om_books5 st) |}, r)
  end.

Definition okx_ingest_books5 (data : list Books5Data) : M OkxManager (list BookApplyResult) :=
  mapMs okx_ingest_books5_one data.

Example crc32_ex :
  crc32 "123456789" = 0xCBF43926 ∧ crc32 "" = 0 ∧ signed_crc32 "123456789" = -873187034.
Proof. by vm_compute. Qed.

(** ** Specification *)

Inductive okx_op := OkSnapshot (d : BookData) | OkUpdate (d : BookData) | OkResync (reason : string).

Definition okx_step (op : okx_op) : OM BookApplyResult :=
  match op with
  | OkSnapshot d => okx_ingest ActSnapshot d
  | OkUpdate d => okx_ingest ActUpdate d
  | OkResync reason => okx_begin_resync reason
  end.

Inductive okx_trace (s : ContractSpecification) (validate : bool)
    : list okx_op → OkxLocalOrderBook → Prop :=
| okx_trace_init b : okx_book_init s validate = Ok b → okx_trace s validate [] b
| okx_trace_step ops b op b' r :
    okx_trace s validate ops b → okx_step op b = (b', Ok r) →
    okx_trace s validate (ops ++ [op]) b'.

(** Each update names the sequence of the message before it. *)
Fixpoint okx_chained (seq : Z) (us : list BookData) : Prop :=
  match us with
  | [] => True
  | u :: us => bd_previous_sequence_id u = seq ∧ okx_chained (bd_sequence_id u) us
  end.

Fixpoint okx_apply (us : list BookData) (bids asks : raw_sides) : res (raw_sides * raw_sides) :=
  match us with
  | [] => Ok (bids, asks)
  | u :: us =>
    bids ← execM (apply_raw_side (bd_bids u)) bids;
    asks ← execM (apply_raw_side (bd_asks u)) asks;
    okx_apply us bids asks
  end.

Definition okx_reconstruct (d : BookData) (us : list BookData) : res (raw_sides * raw_sides) :=
  bids ← raw_side (bd_bids d); asks ← raw_side (bd_asks d); okx_apply us bids asks.

(** The last message of a snapshot and its updates. *)
Definition okx_last (d : BookData) (us : list BookData) : BookData := default d (last us).

Definition checksum_agrees (validate : bool) (m : BookData) (bids asks : raw_sides) : Prop :=
  validate = true → bd_checksum m ≠ 0 → checksum_from_sides bids asks = bd_checksum m.

Record okx_live (validate : bool) (ops : list okx_op) (b : OkxLocalOrderBook)
    (pre : list okx_op) (d : BookData) (us : list BookData) : Prop := {
  ol_ops : ops = pre ++ OkSnapshot d :: (OkUpdate <$> us);
  ol_chain : okx_chained (bd_sequence_id d) us;
  ol_sides : okx_reconstruct d us = Ok (ob_bids b, ob_asks b);
  ol_sequence : ob_sequence_id b = Some (bd_sequence_id (okx_last d us));
  ol_checksum : checksum_agrees validate (okx_last d us) (ob_bids b) (ob_asks b) }.

Lemma okx_chained_snoc seq d us u :
  okx_chained seq us → seq = bd_sequence_id d →
  bd_previous_sequence_id u = bd_sequence_id (okx_last d us) → okx_chained seq (us ++ [u]).
Proof.
  unfold okx_last. revert seq d. induction us as [|x us IH]; intros seq d; simpl.
  - by intros _ -> ->.
  - intros [Hp Hc] _ Hu. split; [done|]. apply (IH _ x); [done|done|].
    rewrite last_cons in Hu. destruct (last us); done.
Qed.

Lemma okx_apply_app us1 us2 bids asks :
  okx_apply (us1 ++ us2) bids asks =
  ('(bids, asks) ← okx_apply us1 bids asks; okx_apply us2 bids asks).
Proof.
  revert bids asks. induction us1 as [|u us1 IH]; intros bids asks; simpl; [done|].
  destruct (execM _ bids) as [b|e]; simpl; [|done].
  destruct (execM _ asks) as [a|e]; simpl; [|done]. apply IH.
Qed.

Lemma okx_reconstruct_snoc d us u bids asks bids' asks' :
  okx_reconstruct d us = Ok (bids, asks) →
  execM (apply_raw_side (bd_bids u)) bids = Ok bids' →
  execM (apply_raw_side (bd_asks u)) asks = Ok asks' →
  okx_reconstruct d (us ++ [u]) = Ok (bids', asks').
Proof.
  unfold okx_reconstruct. intros H Hb Ha. inv_res. rewrite H, H0. simpl.
  rewrite okx_apply_app, H1. simpl. by rewrite Hb, Ha.
Qed.

Lemma checksum_valid_agrees validate d b :
  ob_validate_checksum b = validate → checksum_valid b (bd_checksum d) = true →
  checksum_agrees validate d (ob_bids b) (ob_asks b).
Proof.
  unfold checksum_valid, checksum_agrees. intros E H Hv Hn. rewrite E, Hv in H.
  destruct (Z.eqb_spec (bd_checksum d) 0); [done|]. simpl in H. by apply Z.eqb_eq.
Qed.

Record okx_inv (s : ContractSpecification) (validate : bool) (ops : list okx_op)
    (b : OkxLocalOrderBook) : Prop := {
  oi_specification : ob_specification b = s;
  oi_validate : ob_validate_checksum b = validate;
  oi_generation : 0 ≤ ob_generation b;
  oi_live : ob_status b = LIVE → ∃ pre d us, okx_live validate ops b pre d us;
  oi_wf : dict_wf (ob_bids b) ∧ dict_wf (ob_asks b) }.

Lemma okx_invalidate_inv s validate ops ops' b :
  okx_inv s validate ops b →
  okx_inv s validate ops' (ob_set RESYNC_REQUIRED (ob_generation b + 1) None [] [] b).
Proof. intros [Hs Hv Hg _ _]. by constructor; simpl; [done|done|lia|done|done]. Qed.

Lemma okx_snapshot_inv s validate ops b b' r d :
  okx_inv s validate ops b → okx_ingest ActSnapshot d b = (b', Ok r) →
  okx_inv s validate (ops ++ [OkSnapshot d]) b'.
Proof.
  intros Hi H. pose proof Hi as [Hs Hv Hg _ _]. unfold okx_ingest in H. inv_M.
  match goal with H : (if negb (checksum_valid ?b1 _) then _ else _) _ = _ |- _ =>
    set (b1' := b1) in *; destruct (checksum_valid b1' (bd_checksum d)) eqn:Ec; simpl in H end.
  - unfold okx_result in *. inv_M. constructor; simpl; [done|done|done| |].
    + intros _. exists ops, d, []. constructor; simpl; [done|done| |done|].
      * unfold okx_reconstruct. by rewrite H, H1.
      * unfold okx_last. simpl. by apply (checksum_valid_agrees validate d b1').
    + split; by eapply snapshot_side_wf.
  - unfold checksum_failure, okx_invalidate, okx_result in *. inv_M.
    by constructor; simpl; [done|done|lia|done|done].
Qed.

Lemma okx_update_inv s validate ops b b' r u :
  okx_inv s validate ops b → okx_ingest ActUpdate u b = (b', Ok r) →
  okx_inv s validate (ops ++ [OkUpdate u]) b'.
Proof.
  intros Hi H. pose proof Hi as [Hs Hv Hg Hl [Hwb Hwa]]. unfold okx_ingest in H. inv_M.
  assert (okx_inv s validate (ops ++ [OkUpdate u]) (ob_set_status RESYNC_REQUIRED b)) as Hr
    by (by constructor; simpl; [done|done|done|done|done]).
  destruct (ob_sequence_id b) as [seq|] eqn:Es.
  2:{ unfold okx_result in *. inv_M. exact Hr. }
  destruct (bool_decide (ob_status b = LIVE)) eqn:Est; simpl in *.
  2:{ unfold okx_result in *. inv_M. exact Hr. }
  apply bool_decide_eq_true in Est.
  destruct (Z.eqb_spec (bd_previous_sequence_id u) seq) as [Eq|Ne]; simpl in *.
  2:{ unfold okx_invalidate, okx_result in *. inv_M. by eapply okx_invalidate_inv. }
  destruct (Hl Est) as (pre & d & us & [Hops Hch Hrec Hseq Hck]).
  inv_M. apply zoomM_Ok in H as (bids & Hb & ->).
  match goal with H : zoomM _ _ _ _ = _ |- _ => apply zoomM_Ok in H as (asks & Ha & ->) end.
  match goal with H : (if negb (checksum_valid ?b1 _) then _ else _) _ = _ |- _ =>
    set (b1' := b1) in *; destruct (checksum_valid b1' (bd_checksum u)) eqn:Ec; simpl in H end.
  - unfold okx_result in *. inv_M.
    assert (execM (apply_raw_side (bd_bids u)) (ob_bids b) = Ok bids) as Hb'
      by (apply execM_Ok; eauto).
    assert (execM (apply_raw_side (bd_asks u)) (ob_asks b) = Ok asks) as Ha'
      by (apply execM_Ok; eauto).
    constructor; simpl; [done|done|done| |].
    + intros _. exists pre, d, (us ++ [u]).
      assert (okx_last d (us ++ [u]) = u) as El by (unfold okx_last; by rewrite last_snoc).
      constructor; simpl; rewrite ?El.
      * rewrite fmap_app, Hops, <- app_assoc. done.
      * eapply okx_chained_snoc; [done|done|]. rewrite Hseq in Es. by injection Es as ->.
      * by eapply okx_reconstruct_snoc.
      * done.
      * by apply (checksum_valid_agrees validate u b1').
    + split; by eapply apply_side_wf.
  - unfold checksum_failure, okx_invalidate, okx_result in *. inv_M.
    by constructor; simpl; [done|done|lia|done|done].
Qed.

Lemma okx_trace_inv s validate ops b : okx_trace s validate ops b → okx_inv s validate ops b.
Proof.
  induction 1 as [b Hb|ops b op b' r _ IH Hstep].
  - unfold okx_book_init in Hb. inv_res. subst b. by constructor.
  - destruct op as [d|d|reason]; cbn [okx_step] in Hstep.
    + by eapply okx_snapshot_inv.
    + by eapply okx_update_inv.
    + unfold okx_begin_resync, okx_invalidate, okx_result in Hstep. inv_M.
      by eapply okx_invalidate_inv.
Qed.


Definition demo_level (p q : string) : book_level_text :=
  {| lt_price := p; lt_size := q; lt_deprecated := "0"; lt_orders := "1" |}.
Definition demo_data (seq prev ck : Z) (bids asks : list book_level_text) : BookData :=
  {| bd_asks := asks; bd_bids := bids; bd_timestamp_ms := "1"; bd_checksum := ck;
     bd_sequence_id := seq; bd_previous_sequence_id := prev |}.
Definition demo_okx_snapshot : BookData :=
  demo_data 5 (-1) 0 [demo_level "100" "7"; demo_level "99.5" "1"] [demo_level "101" "2"].
Definition demo_okx_update : BookData :=
  demo_data 6 5 (-1355024374) [demo_level "99.50" "0"; demo_level "99" "4"] [].
Definition demo_okx_start : OkxLocalOrderBook :=
  {| ob_specification := demo_spec; ob_validate_checksum := true; ob_status := BUFFERING;
     ob_generation := 0; ob_sequence_id := None; ob_bids := []; ob_asks := [] |}.
Definition demo_okx_middle : OkxLocalOrderBook :=
  match execM (okx_step (OkSnapshot demo_okx_snapshot)) demo_okx_start with
  | Ok b => b | Err _ => demo_okx_start end.
Definition demo_okx_book : OkxLocalOrderBook :=
  match execM (okx_step (OkUpdate demo_okx_update)) demo_okx_middle with
  | Ok b => b | Err _ => demo_okx_start end.

Lemma demo_okx_trace :
  okx_trace demo_spec true [OkSnapshot demo_okx_snapshot; OkUpdate demo_okx_update] demo_okx_book.
Proof.
  apply (okx_trace_step _ _ [OkSnapshot demo_okx_snapshot] demo_okx_middle _ _
    {| r_transition := UPDATE_APPLIED; r_status := LIVE; r_generation := 0;
       r_sequence_id := Some 6; r_buffered_events := 0; r_needs_snapshot := false;
       r_reason := None |}); [|vm_compute; reflexivity].
  apply (okx_trace_step _ _ [] demo_okx_start _ _
    {| r_transition := SNAPSHOT_APPLIED; r_status := LIVE; r_generation := 0;
       r_sequence_id := Some 5; r_buffered_events := 0; r_needs_snapshot := false;
       r_reason := None |}); [|vm_compute; reflexivity].
  apply okx_trace_init. vm_compute. reflexivity.
Defined.


(** ** Views

    The value stored under a price carries that price. *)
Definition prices_ok (side : raw_sides) : Prop :=
  ∀ k v, dict_get k side = Some v → deqb k (rl_price v) = true.

Lemma parsed_price (levels : list book_level_text) parsed x :
  mapR parse_level levels = Ok parsed → x ∈ parsed → rl_price x.2 = x.1.1.
Proof.
  intros Hp%mapR_Ok Hx. induction Hp as [|l y levels parsed Hy _ IH]; [by apply elem_of_nil in Hx|].
  apply elem_of_cons in Hx as [->|Hx]; [|auto].
  unfold parse_level, okx_level_text in Hy. inv_res. by subst.
Qed.

Lemma last_filter_elem {A} (P : A → Prop) `{∀ x, Decision (P x)} l x :
  last (filter P l) = Some x → P x ∧ x ∈ l.
Proof.
  intros E. apply last_Some in E as [l' E].
  assert (x ∈ filter P l) as Hx by (rewrite E; apply elem_of_app; right; left).
  by apply list_elem_of_filter in Hx.
Qed.

Lemma snapshot_side_prices levels side : raw_side levels = Ok side → prices_ok side.
Proof.
  intros H. apply fill_side_lookup in H as (_ & parsed & Hp & Hget); [|done].
  intros k v Hk. rewrite Hget in Hk. clear Hget.
  destruct (last _) as [[[p q] w]|] eqn:E; [|done]. injection Hk as ->.
  apply last_filter_elem in E as [Hat [_ Hin]%list_elem_of_filter].
  pose proof (parsed_price _ _ _ Hp Hin) as Hpr. simpl in Hpr. rewrite Hpr. exact Hat.
Qed.

Lemma apply_side_prices levels side side' :
  execM (apply_raw_side levels) side = Ok side' → dict_wf side → prices_ok side → prices_ok side'.
Proof.
  intros H Hwf Hok. apply apply_side_lookup in H as (_ & parsed & Hp & Hget); [|done].
  intros k v Hk. rewrite Hget in Hk. unfold decided in Hk.
  destruct (last _) as [[[p q] w]|] eqn:E; [|by apply Hok].
  destruct (deqb q d0); [done|]. injection Hk as ->.
  apply last_filter_elem in E as [Hat Hin].
  pose proof (parsed_price _ _ _ Hp Hin) as Hpr. simpl in Hpr. rewrite Hpr. exact Hat.
Qed.

Lemma okx_apply_prices us bids asks bids' asks' :
  okx_apply us bids asks = Ok (bids', asks') → dict_wf bids → dict_wf asks →
  prices_ok bids → prices_ok asks → prices_ok bids' ∧ prices_ok asks'.
Proof.
  revert bids asks. induction us as [|u us IH]; intros bids asks H Hb Ha Pb Pa; simpl in H.
  - by injection H as <- <-.
  - inv_res. eapply IH; [done|by eapply apply_side_wf|by eapply apply_side_wf|
      by eapply apply_side_prices|by eapply apply_side_prices].
Qed.

Lemma okx_live_prices s validate ops b :
  okx_trace s validate ops b → ob_status b = LIVE → prices_ok (ob_bids b) ∧ prices_ok (ob_asks b).
Proof.
  intros Ht%okx_trace_inv Hl. destruct (oi_live _ _ _ _ Ht Hl) as (pre & d & us & [_ _ H _ _]).
  unfold okx_reconstruct in H. inv_res.
  eapply okx_apply_prices; [done|by eapply snapshot_side_wf|by eapply snapshot_side_wf|
    by eapply snapshot_side_prices|by eapply snapshot_side_prices].
Qed.

Lemma sort_levels_strict desc side :
  dict_wf side → prices_ok side →
  StronglySorted (λ x y, price_before desc (rl_price x) (rl_price y)) (sort_levels desc side).
Proof.
  intros Hwf Hok. unfold sort_levels. rewrite py_sorted_map.
  assert (∀ x, x ∈ side → x.1 ≡ rl_price x.2) as Hx
    by (intros [k v] Hin; by apply Hok, elem_dict_get).
  rewrite (py_sorted_ext _ (λ x y, price_leb_dir desc x.1 y.1)).
  2:{ intros x y Hin1%Hx Hin2%Hx. destruct desc; simpl; by rewrite Hin1, Hin2. }
  assert (StronglySorted (λ x y, price_before desc x.1 y.1)
    (py_sorted (λ x y, price_leb_dir desc x.1 y.1) side)) as Hs.
  { apply sorted_strict; [intros ??; apply price_leb_dir_total|intros ???; apply price_leb_dir_trans|
      intros ??; apply price_leb_dir_strict|done]. }
  assert (∀ x, x ∈ py_sorted (λ x y, price_leb_dir desc x.1 y.1) side → x.1 ≡ rl_price x.2) as Hx'
    by (intros x; rewrite py_sorted_elem; apply Hx).
  clear Hx. induction Hs as [|x l Hs IH Hall]; simpl; constructor.
  - apply IH. intros y Hy. apply Hx'. by right.
  - apply Forall_fmap. rewrite Forall_forall in *. intros y Hy. simpl.
    specialize (Hall y Hy). assert (x.1 ≡ rl_price x.2) as E1 by (apply Hx'; left).
    assert (y.1 ≡ rl_price y.2) as E2 by (apply Hx'; by right).
    destruct desc; simpl in *; by rewrite <- E1, <- E2.
Qed.

Lemma normalized_side_strict s desc ls out :
  StronglySorted (λ x y, price_before desc (rl_price x) (rl_price y)) ls →
  mapR (normalized_level s) ls = Ok out →
  StronglySorted (λ x y, price_before desc (level_price x) (level_price y)) out ∧
  level_price <$> out = rl_price <$> ls ∧
  level_quantity <$> out = (λ l, contracts_to_base s (rl_quantity_contracts l)) <$> ls.
Proof.
  intros Hs H%mapR_Ok.
  assert (Forall2 (λ l o, level_price o = rl_price l ∧
    level_quantity o = contracts_to_base s (rl_quantity_contracts l)) ls out) as Hf.
  { eapply Forall2_impl; [exact H|]. intros l o Ho. unfold normalized_level, mk_level in Ho.
    inv_res. by subst. }
  clear H. revert Hs. induction Hf as [|l o ls out [Hp Hq] Hf IH]; intros Hs;
    [repeat split; constructor|].
  inversion Hs as [|?? Hs' Hall]; subst. destruct (IH Hs') as (H1 & H2 & H3).
  split; [constructor; [done|]|simpl; split; f_equal; done].
  rewrite Hp. clear -Hall H2. revert ls H2 Hall. induction out as [|o out IH]; intros [|x ls]; try done.
  simpl. intros [= E1 E2] Hall. inversion Hall; subst. constructor; [by rewrite E1|eauto].
Qed.

(** The view of a live OKX book lists, by strictly falling bid and strictly
    rising ask price, the [depth] best levels of each side with the contract counts
    converted by the specification. *)
Theorem okx_view_sorted s validate ops b depth v :
  okx_trace s validate ops b → ob_status b = LIVE → okx_view b depth = Ok v →
  v_synchronized v = true ∧
  (level_price <$> v_bids v = rl_price <$> truncate depth (sort_levels true (ob_bids b)) ∧
   StronglySorted price_gt (v_bids v)) ∧
  (level_price <$> v_asks v = rl_price <$> truncate depth (sort_levels false (ob_asks b)) ∧
   StronglySorted price_lt (v_asks v)) ∧
  level_quantity <$> v_bids v =
    (λ l, contracts_to_base s (rl_quantity_contracts l)) <$>
      truncate depth (sort_levels true (ob_bids b)) ∧
  sort_levels true (ob_bids b) ≡ₚ map snd (ob_bids b) ∧
  sort_levels false (ob_asks b) ≡ₚ map snd (ob_asks b).
Proof.
  intros Ht Hl H. destruct (okx_live_prices _ _ _ _ Ht Hl) as [Pb Pa].
  apply okx_trace_inv in Ht as [Hs _ _ _ [Wb Wa]].
  unfold okx_view, okx_view_of in H. inv_res. subst v. simpl. rewrite Hs in *.
  pose proof (sort_levels_strict true _ Wb Pb) as Sb.
  pose proof (sort_levels_strict false _ Wa Pa) as Sa.
  apply (StronglySorted_sublist _ _ _ (truncate_sublist depth _)) in Sb.
  apply (StronglySorted_sublist _ _ _ (truncate_sublist depth _)) in Sa.
  eapply normalized_side_strict in H0 as (B1 & B2 & B3); [|exact Sb].
  eapply normalized_side_strict in H1 as (A1 & A2 & A3); [|exact Sa].
  split; [by apply bool_decide_eq_true|]. split; [done|]. split; [done|]. split; [done|].
  split; apply py_sorted_perm.
Qed.

Lemma okx_view_sorted_witness :
  ∃ v, okx_view demo_okx_book (Some 2) = Ok v ∧ v_synchronized v = true ∧
    StronglySorted price_gt (v_bids v) ∧
    level_quantity <$> v_bids v = [Dec 7 (-2); Dec 4 (-2)].
Proof.
  assert (∃ v, okx_view demo_okx_book (Some 2) = Ok v) as [v Hv]
    by (eexists; vm_compute; reflexivity).
  exists v. split; [exact Hv|].
  destruct (okx_view_sorted demo_spec true _ demo_okx_book (Some 2) v demo_okx_trace)
    as (H1 & (_ & H2) & _ & H3 & _); [vm_compute; reflexivity|exact Hv|].
  split; [exact H1|]. split; [exact H2|]. rewrite H3. vm_compute. reflexivity.
Defined.

(** ** The checksum is a signed 32-bit integer *)

Lemma lxor_lt n a b : 0 ≤ n → 0 ≤ a < 2 ^ n → 0 ≤ b < 2 ^ n → 0 ≤ Z.lxor a b < 2 ^ n.
Proof.
  intros Hn Ha Hb. split; [apply Z.lxor_nonneg; lia|].
  destruct (Z.eq_dec (Z.lxor a b) 0) as [->|E]; [lia|].
  assert (0 ≤ Z.lxor a b) by (apply Z.lxor_nonneg; lia).
  apply Z.log2_lt_pow2; [lia|]. pose proof (Z.log2_lxor a b ltac:(lia) ltac:(lia)).
  assert (∀ x, 0 ≤ x < 2 ^ n → Z.log2 x < n ∨ x = 0) as Hlog.
  { intros x Hx. destruct (Z.eq_dec x 0); [by right|left; apply Z.log2_lt_pow2; lia]. }
  destruct (Hlog a Ha) as [|Ea], (Hlog b Hb) as [|Eb]; subst; rewrite ?Z.lxor_0_l, ?Z.lxor_0_r in *;
    simpl in *; lia.
Qed.

Lemma crc_bit_bounds c : 0 ≤ c < 2 ^ 32 → 0 ≤ crc_bit c < 2 ^ 32.
Proof.
  intros Hc. assert (0 ≤ Z.shiftr c 1 < 2 ^ 32) as Hs.
  { rewrite Z.shiftr_div_pow2 by lia. change (2 ^ 1) with 2.
    pose proof (Z.div_pos c 2 ltac:(lia) ltac:(lia)).
    pose proof (Z.div_le_upper_bound c 2 (2 ^ 31) ltac:(lia) ltac:(lia)). lia. }
  unfold crc_bit. destruct (Z.testbit c 0); [|done]. apply (lxor_lt 32); lia.
Qed.

Lemma crc_byte_bounds c a : 0 ≤ c < 2 ^ 32 → 0 ≤ crc_byte c a < 2 ^ 32.
Proof.
  intros Hc. unfold crc_byte. apply (Nat.iter_invariant 8 Z crc_bit (λ c, 0 ≤ c < 2 ^ 32));
    [apply crc_bit_bounds|].
  apply (lxor_lt 32); [lia|done|]. split; [lia|].
  destruct a as [[] [] [] [] [] [] [] []]; vm_compute; reflexivity.
Qed.

(** [zlib.crc32] is an unsigned, the book checksum a signed 32-bit integer, and
    the two agree modulo 2^32: the checksum of any sides can be compared with the
    venue's without overflow. *)
Theorem checksum_signed_32bit payload :
  0 ≤ crc32 payload < 2 ^ 32 ∧ - 2 ^ 31 ≤ signed_crc32 payload < 2 ^ 31 ∧
  (signed_crc32 payload) mod 2 ^ 32 = crc32 payload.
Proof.
  assert (0 ≤ crc32 payload < 2 ^ 32) as Hc.
  { unfold crc32. apply (lxor_lt 32); [lia| |lia].
    assert (∀ c, 0 ≤ c < 2 ^ 32 → 0 ≤ foldl crc_byte c (chars payload) < 2 ^ 32) as H.
    { induction (chars payload) as [|a l IH]; simpl; [done|]. intros c Hc.
      by apply IH, crc_byte_bounds. }
    apply H. lia. }
  split; [done|]. unfold signed_crc32.
  destruct (Z.ltb_spec (crc32 payload) (2 ^ 31)) as [Hlt|Hge].
  - split; [lia|]. by apply Z.mod_small.
  - split; [lia|]. rewrite <- (Z_mod_plus_full _ 1). replace (_ - _ + _) with (crc32 payload) by lia.
    by apply Z.mod_small.
Qed.
