(* ===== verification/BookState.v ===== *)
(** * The feature order book

    [features/state.py: FeatureOrderBookState]: absolute normalized levels per book
    generation, with updates buffered while no snapshot synchronizes the book.  The
    digest of an event (SHA-256 of its JSON, [lineage.semantic_source_digest]) is a
    parameter. *)

From S2P Require Import Prelude Effects PyDecimal PyTime Models Lineage BookBase.

Inductive StateUpdateStatus :=
| SU_ACCEPTED | SU_LATE_DROPPED | SU_EXPIRED_DROPPED | SU_STALE_GENERATION
| SU_STALE_SEQUENCE | SU_BUFFERED_FOR_SNAPSHOT | SU_BOOK_INVALIDATED.
#[export] Instance StateUpdateStatus_eq_dec : EqDecision StateUpdateStatus.
Proof. solve_decision. Defined.

Record BookChange := {
  bid_quantity_delta : decimal;
  ask_quantity_delta : decimal;
  added_bid_quantity : decimal;
  added_ask_quantity : decimal;
  removed_bid_quantity : decimal;
  removed_ask_quantity : decimal;
  order_flow_imbalance : decimal }.

Record FeatureBookView := {
  fv_generation : Z;
  fv_epoch : Z;
  fv_sequence_id : option Z;
  fv_synchronized : bool;
  fv_synchronized_since : option Z;
  fv_bids : list OrderBookLevel;
  fv_asks : list OrderBookLevel;
  fv_pending_updates : Z;
  fv_last_error : option string;
  fv_lineage : SourceLineage }.

Record FeatureBookCheckpoint := {
  cp_view : FeatureBookView;
  cp_source_event : option event;
  cp_change : option BookChange }.

(** [_sequence]. *)
Definition sequence_of (v : option seq_id) : option Z :=
  match v with
  | None => None
  | Some (SeqInt n) => Some n
  | Some (SeqStr s) => parse_int s
  end.

(** [a or b] on optional integers. *)
Definition opt_or (a b : option Z) : option Z :=
  match a with Some n => if n =? 0 then b else Some n | None => b end.

Definition side : Type := list (decimal * decimal).

Record FeatureBook := {
  fb_capacity : Z;
  fb_pending : list OrderBookUpdate;
  fb_bids : side;
  fb_asks : side;
  fb_generation : Z;
  fb_epoch : Z;
  fb_sequence_id : option Z;
  fb_synchronized : bool;
  fb_synchronized_since : option Z;
  fb_last_error : option string;
  fb_last_change : option BookChange;
  fb_lineage : SourceLineage }.

Definition feature_book_init (pending_capacity : Z) : res FeatureBook :=
  _ ← require (negb (pending_capacity <? 1)) (ValueError "pending_capacity must be positive");
  Ok {| fb_capacity := pending_capacity; fb_pending := []; fb_bids := []; fb_asks := [];
        fb_generation := 0; fb_epoch := 0; fb_sequence_id := None; fb_synchronized := false;
        fb_synchronized_since := None; fb_last_error := None; fb_last_change := None;
        fb_lineage := empty_lineage |}.

(** ** Pure parts *)

(** [_apply_side] on normalized levels. *)
Fixpoint set_levels (s : side) (levels : list OrderBookLevel) : side :=
  match levels with
  | [] => s
  | l :: levels =>
    set_levels
      (if deqb (level_quantity l) d0 then dict_pop (level_price l) s
       else dict_set (level_price l) (level_quantity l) s) levels
  end.

(** [{level.price: level.quantity for level in levels}]. *)
Definition side_of (levels : list OrderBookLevel) : side :=
  foldl (λ s l, dict_set (level_price l) (level_quantity l) s) [] levels.

Definition max_key (s : side) : option decimal :=
  match map fst s with [] => None | k :: ks => Some (foldl dmax k ks) end.
Definition min_key (s : side) : option decimal :=
  match map fst s with [] => None | k :: ks => Some (foldl dmin k ks) end.

(** [max(bids) >= min(asks)] of nonempty sides. *)
Definition crossed (bids asks : side) : bool :=
  match max_key bids, min_key asks with
  | Some b, Some a => dleb a b
  | _, _ => false
  end.

Definition nonempty {A} (l : list A) : bool := match l with [] => false | _ => true end.

Definition deltas (s : side) (levels : list OrderBookLevel) : list decimal :=
  map (λ l, dsub (level_quantity l) (default d0 (dict_get (level_price l) s))) levels.
Definition dpositive (d : decimal) : bool := dltb d0 d.
Definition dnegative (d : decimal) : bool := dltb d d0.

Definition measure_change (bids asks : side) (u : OrderBookUpdate) : BookChange :=
  let bd := deltas bids (update_bids u) in
  let ad := deltas asks (update_asks u) in
  {| bid_quantity_delta := dsum bd;
     ask_quantity_delta := dsum ad;
     added_bid_quantity := dsum (List.filter dpositive bd);
     added_ask_quantity := dsum (List.filter dpositive ad);
     removed_bid_quantity := dsum (map dneg (List.filter dnegative bd));
     removed_ask_quantity := dsum (map dneg (List.filter dnegative ad));
     order_flow_imbalance := dsub (dsum bd) (dsum ad) |}.

(** ** Assignments *)

Definition fb_set_sync (sync : bool) (since : option Z) (err : option string) (b : FeatureBook)
    : FeatureBook :=
  {| fb_capacity := fb_capacity b; fb_pending := fb_pending b; fb_bids := fb_bids b;
     fb_asks := fb_asks b; fb_generation := fb_generation b; fb_epoch := fb_epoch b;
     fb_sequence_id := fb_sequence_id b; fb_synchronized := sync;
     fb_synchronized_since := since; fb_last_error := err; fb_last_change := fb_last_change b;
     fb_lineage := fb_lineage b |}.
Definition fb_set_pending (p : list OrderBookUpdate) (b : FeatureBook) : FeatureBook :=
  {| fb_capacity := fb_capacity b; fb_pending := p; fb_bids := fb_bids b;
     fb_asks := fb_asks b; fb_generation := fb_generation b; fb_epoch := fb_epoch b;
     fb_sequence_id := fb_sequence_id b; fb_synchronized := fb_synchronized b;
     fb_synchronized_since := fb_synchronized_since b; fb_last_error := fb_last_error b;
     fb_last_change := fb_last_change b; fb_lineage := fb_lineage b |}.
Definition fb_set_sides (bids asks : side) (b : FeatureBook) : FeatureBook :=
  {| fb_capacity := fb_capacity b; fb_pending := fb_pending b; fb_bids := bids;
     fb_asks := asks; fb_generation := fb_generation b; fb_epoch := fb_epoch b;
     fb_sequence_id := fb_sequence_id b; fb_synchronized := fb_synchronized b;
     fb_synchronized_since := fb_synchronized_since b; fb_last_error := fb_last_error b;
     fb_last_change := fb_last_change b; fb_lineage := fb_lineage b |}.
Definition fb_set_change (seq : option Z) (c : option BookChange) (b : FeatureBook)
    : FeatureBook :=
  {| fb_capacity := fb_capacity b; fb_pending := fb_pending b; fb_bids := fb_bids b;
     fb_asks := fb_asks b; fb_generation := fb_generation b; fb_epoch := fb_epoch b;
     fb_sequence_id := seq; fb_synchronized := fb_synchronized b;
     fb_synchronized_since := fb_synchronized_since b; fb_last_error := fb_last_error b;
     fb_last_change := c; fb_lineage := fb_lineage b |}.
Definition fb_set_lineage (l : SourceLineage) (b : FeatureBook) : FeatureBook :=
  {| fb_capacity := fb_capacity b; fb_pending := fb_pending b; fb_bids := fb_bids b;
     fb_asks := fb_asks b; fb_generation := fb_generation b; fb_epoch := fb_epoch b;
     fb_sequence_id := fb_sequence_id b; fb_synchronized := fb_synchronized b;
     fb_synchronized_since := fb_synchronized_since b; fb_last_error := fb_last_error b;
     fb_last_change := fb_last_change b; fb_lineage := l |}.

(** [_reset]. *)
Definition fb_reset (generation : Z) (reason : option string) (advance_epoch : bool)
    (b : FeatureBook) : FeatureBook :=
  {| fb_capacity := fb_capacity b; fb_pending := []; fb_bids := []; fb_asks := [];
     fb_generation := generation;
     fb_epoch := if advance_epoch then fb_epoch b + 1 else fb_epoch b;
     fb_sequence_id := None; fb_synchronized := false; fb_synchronized_since := None;
     fb_last_error := reason; fb_last_change := None; fb_lineage := empty_lineage |}.

(** ** Operations *)

Section book.
(** [semantic_source_digest(timestamp, event)]. *)
Context (digest : Z → event → string).

Abbreviation FM := (M FeatureBook).

Definition record_lineage (ts : Z) (e : event) : FM unit :=
  b ← getM;
  leaf ← liftM (from_source digest (utc ts) e);
  lineage ← liftM (combine (fb_lineage b) [leaf]);
  modifyM (fb_set_lineage lineage).

Definition record_update (u : OrderBookUpdate) : FM unit :=
  record_lineage (exchange_timestamp (update_meta u)) (EBookUpdate u).

(** [_apply_levels]. *)
Definition apply_levels (bids asks : list OrderBookLevel) : FM bool :=
  _ ← modifyM (λ b, fb_set_sides (set_levels (fb_bids b) bids) (set_levels (fb_asks b) asks) b);
  b ← getM;
  if negb (nonempty (fb_bids b)) || negb (nonempty (fb_asks b)) then
    _ ← modifyM (fb_set_sync false None (Some "order book side became empty"%string));
    mret false
  else if crossed (fb_bids b) (fb_asks b) then
    _ ← modifyM (fb_set_sync false None (Some "order book became crossed or locked"%string));
    mret false
  else mret true.

(** [_buffer]. *)
Definition buffer (u : OrderBookUpdate) : FM StateUpdateStatus :=
  b ← getM;
  if fb_capacity b <=? Z.of_nat (length (fb_pending b)) then
    let previous_lineage := fb_lineage b in
    _ ← modifyM (fb_reset (update_generation u)
          (Some "pending order-book update capacity exceeded"%string) true);
    _ ← modifyM (fb_set_lineage previous_lineage);
    _ ← record_update u;
    mret SU_BOOK_INVALIDATED
  else
    _ ← modifyM (fb_set_pending (fb_pending b ++ [u]));
    _ ← record_update u;
    mret SU_BUFFERED_FOR_SNAPSHOT.

(** The loop over the pending updates of a snapshot's generation. *)
Fixpoint replay_pending (pending : list OrderBookUpdate) : FM (option StateUpdateStatus) :=
  match pending with
  | [] => mret None
  | u :: pending =>
    b ← getM;
    let sequence := sequence_of (sequence_id (update_meta u)) in
    let previous := sequence_of (previous_sequence_id u) in
    let skip := match sequence, fb_sequence_id b with
                | Some s, Some c => s <=? c | _, _ => false end in
    let gap := match sequence, fb_sequence_id b, previous with
               | Some _, Some c, Some p => c <? p | _, _, _ => false end in
    if skip then replay_pending pending
    else if gap then
      _ ← modifyM (fb_set_sync false None (Some "pending update has a sequence gap"%string));
      mret (Some SU_BOOK_INVALIDATED)
    else
      let change := measure_change (fb_bids b) (fb_asks b) u in
      ok ← apply_levels (update_bids u) (update_asks u);
      if negb ok then mret (Some SU_BOOK_INVALIDATED)
      else
        _ ← modifyM (λ b, fb_set_change (opt_or sequence (fb_sequence_id b)) (Some change) b);
        replay_pending pending
  end.

(** The sort key [_sequence(event.sequence_id) or -1]. *)
Definition pending_key (u : OrderBookUpdate) : Z :=
  default (-1) (opt_or (sequence_of (sequence_id (update_meta u))) (Some (-1))).

Definition apply_snapshot (s : OrderBookSnapshot) : FM StateUpdateStatus :=
  b ← getM;
  if snapshot_generation s <? fb_generation b then mret SU_STALE_GENERATION
  else
    let snapshot_sequence := sequence_of (sequence_id (snapshot_meta s)) in
    let same_generation := snapshot_generation s =? fb_generation b in
    if same_generation && fb_synchronized b &&
       match snapshot_sequence, fb_sequence_id b with
       | Some n, Some c => n <=? c | _, _ => false end
    then mret SU_STALE_SEQUENCE
    else
      let pending := if same_generation then fb_pending b else [] in
      let previous_lineage := fb_lineage b in
      let continuing := same_generation && fb_synchronized b in
      let since := fb_synchronized_since b in
      _ ← modifyM (fb_reset (snapshot_generation s) None (negb continuing));
      _ ← (if same_generation then modifyM (fb_set_lineage previous_lineage) else mret tt);
      _ ← record_lineage (exchange_timestamp (snapshot_meta s)) (EBookSnapshot s);
      let bids := side_of (snapshot_bids s) in
      let asks := side_of (snapshot_asks s) in
      let sync := nonempty bids && nonempty asks in
      _ ← modifyM (λ b, fb_set_change snapshot_sequence (fb_last_change b)
            (fb_set_sides bids asks b));
      _ ← modifyM (λ b, fb_set_sync sync
            (if sync then
               if continuing then since else Some (exchange_timestamp (snapshot_meta s))
             else None) (fb_last_error b) b);
      if sync && crossed bids asks then
        _ ← modifyM (fb_set_sync false None (Some "snapshot is crossed or locked"%string));
        mret SU_BOOK_INVALIDATED
      else
        failed ← replay_pending (py_sorted (λ x y, pending_key x <=? pending_key y) pending);
        match failed with
        | Some status => mret status
        | None =>
          b ← getM;
          mret (if fb_synchronized b then SU_ACCEPTED else SU_BOOK_INVALIDATED)
        end.

Definition apply_book_update (u : OrderBookUpdate) : FM StateUpdateStatus :=
  b ← getM;
  if update_generation u <? fb_generation b then mret SU_STALE_GENERATION
  else if fb_generation b <? update_generation u then
    _ ← modifyM (fb_reset (update_generation u)
          (Some "book generation changed before snapshot"%string) true);
    buffer u
  else if negb (fb_synchronized b) then buffer u
  else
    let sequence := sequence_of (sequence_id (update_meta u)) in
    let previous := sequence_of (previous_sequence_id u) in
    let stale := match sequence, fb_sequence_id b with
                 | Some s, Some c => s <=? c | _, _ => false end in
    let gap := match sequence, fb_sequence_id b, previous with
               | Some _, Some c, Some p => negb (p =? c) | _, _, _ => false end in
    if stale then mret SU_STALE_SEQUENCE
    else if gap then
      _ ← modifyM (fb_set_sync false None (Some "order-book update sequence gap"%string));
      _ ← modifyM (fb_set_pending []);
      buffer u
    else
      let change := measure_change (fb_bids b) (fb_asks b) u in
      _ ← record_update u;
      ok ← apply_levels (update_bids u) (update_asks u);
      if negb ok then mret SU_BOOK_INVALIDATED
      else
        _ ← modifyM (λ b, fb_set_change (opt_or sequence (fb_sequence_id b)) (Some change) b);
        mret SU_ACCEPTED.

(** [view]; the quantities of the state satisfy the level model. *)
Definition feature_view (depth : Z) (b : FeatureBook) : res FeatureBookView :=
  _ ← require (negb (depth <? 1)) (ValueError "depth must be positive");
  bids ← mapR (λ '(p, q), mk_level p q)
    (take (Z.to_nat depth) (py_sorted (λ x y, dleb y.1 x.1) (fb_bids b)));
  asks ← mapR (λ '(p, q), mk_level p q)
    (take (Z.to_nat depth) (py_sorted (λ x y, dleb x.1 y.1) (fb_asks b)));
  Ok {| fv_generation := fb_generation b; fv_epoch := fb_epoch b;
        fv_sequence_id := fb_sequence_id b; fv_synchronized := fb_synchronized b;
        fv_synchronized_since := fb_synchronized_since b; fv_bids := bids; fv_asks := asks;
        fv_pending_updates := Z.of_nat (length (fb_pending b));
        fv_last_error := fb_last_error b; fv_lineage := fb_lineage b |}.
End book.

(** ** Invariant *)

Definition side_ok (s : side) : Prop :=
  dict_wf s ∧ ∀ k q, (k, q) ∈ s → dltb d0 k = true ∧ dleb d0 q = true.

Record fb_inv (b : FeatureBook) : Prop := {
  fi_capacity : 1 ≤ fb_capacity b ∧ Z.of_nat (length (fb_pending b)) ≤ fb_capacity b;
  fi_bids : side_ok (fb_bids b);
  fi_asks : side_ok (fb_asks b);
  fi_pending : Forall (λ u, event_valid (EBookUpdate u)) (fb_pending b);
  fi_generation : 0 ≤ fb_generation b;
  fi_lineage : lineage_wf (fb_lineage b);
  fi_sync : fb_synchronized b = true →
    nonempty (fb_bids b) = true ∧ nonempty (fb_asks b) = true ∧
    crossed (fb_bids b) (fb_asks b) = false ∧ is_Some (fb_synchronized_since b) ∧
    fb_pending b = [];
  fi_unsync : fb_synchronized b = false → fb_synchronized_since b = None }.

(** Nothing goes backwards. *)
Definition fb_after (b b' : FeatureBook) : Prop :=
  fb_capacity b' = fb_capacity b ∧ fb_generation b ≤ fb_generation b' ∧
  fb_epoch b ≤ fb_epoch b'.

#[export] Instance fb_after_preorder : PreOrder fb_after.
Proof.
  split; unfold fb_after; [intros x; repeat split; lia|].
  intros x y z (E1 & ? & ?) (E2 & ? & ?). rewrite E2, E1. repeat split; lia.
Qed.

Lemma fb_after_refl b : fb_after b b.
Proof. reflexivity. Qed.

Lemma side_ok_set s l : side_ok s → level_valid l → side_ok (dict_set (level_price l) (level_quantity l) s).
Proof.
  intros [Hwf Hs] [Hp Hq]. split; [by apply dict_wf_set|].
  intros k q [?|[-> [->|[w Hw]]]]%dict_set_elem; [by apply Hs|done|].
  split; [by eapply Hs|done].
Qed.

Lemma set_levels_ok levels : ∀ s, side_ok s → Forall level_valid levels → side_ok (set_levels s levels).
Proof.
  induction levels as [|l levels IH]; intros s Hs Hl; simpl; [done|].
  inversion Hl as [|?? Hx Hrest]; subst. apply IH; [|done].
  destruct (deqb (level_quantity l) d0); [|by apply side_ok_set].
  destruct Hs as [Hwf Hs]. split; [by apply dict_wf_pop|].
  intros k q ?%dict_pop_sub. by apply Hs.
Qed.

Lemma side_of_ok levels : Forall level_valid levels → side_ok (side_of levels).
Proof.
  unfold side_of. assert (side_ok []) as Hnil by by split; [|intros ?? ?%elem_of_nil].
  revert Hnil. generalize (@nil (decimal * decimal)). induction levels as [|l levels IH];
    intros s Hs Hl; simpl; [done|].
  inversion Hl as [|?? Hx Hrest]; subst. apply IH; [by apply side_ok_set|done].
Qed.

Lemma side_of_nonempty levels : levels ≠ [] → nonempty (side_of levels) = true.
Proof.
  assert (∀ s l, dict_set (level_price l) (level_quantity l) s ≠ []) as Hset.
  { intros [|[k v] s] l; simpl; [done|]. by destruct (pyeq _ k). }
  assert (∀ s, s ≠ [] → foldl (λ s l, dict_set (level_price l) (level_quantity l) s) s levels ≠ [])
    as Hfold by (induction levels as [|l levels IH]; intros s Hs; simpl; [done|auto]).
  destruct levels as [|l levels]; [done|]. intros _. unfold side_of. simpl.
  assert (foldl (λ s l, dict_set (level_price l) (level_quantity l) s)
    (dict_set (level_price l) (level_quantity l) []) levels ≠ []) as H.
  { clear Hfold. generalize (Hset [] l). generalize (dict_set (level_price l) (level_quantity l) []).
    induction levels as [|l' levels IH]; intros s Hs; simpl; [done|]. apply IH, Hset. }
  by destruct (foldl _ _ levels).
Qed.

Lemma fb_reset_inv gen reason adv b :
  fb_inv b → 0 ≤ gen → fb_inv (fb_reset gen reason adv b).
Proof.
  intros [[Hc _] _ _ _ _ _ _ _] Hg. constructor; simpl; try done; [lia|..];
    (split; [done|by intros ?? ?%elem_of_nil]).
Qed.

Lemma fb_desync_inv err b : fb_inv b → fb_inv (fb_set_sync false None err b).
Proof. intros []. by constructor. Qed.

Section invariant.
Context (digest : Z → event → string).
Hypothesis digest_hex : ∀ ts e, hex_text (digest ts e).

Lemma wp_record ts e Q b :
  lineage_wf (fb_lineage b) → (∀ l, lineage_wf l → Q tt (fb_set_lineage l b)) →
  wpM (record_lineage digest ts e) Q b.
Proof using digest_hex.
  intros Hl HQ. destruct (from_digest_hex ts (digest ts e) (digest_hex ts e)) as (leaf & Hleaf & Hwf & _).
  unfold record_lineage. repeat wp_step.
  apply (wp_lift _ _ _ leaf).
  { unfold from_source, lineage_utc. simpl. rewrite Z.sub_0_r. exact Hleaf. }
  wp_step. eapply wp_lift; [apply combine_merge; [done|by apply Forall_singleton]|].
  wp_step. apply HQ. apply merge_wf; [done|]. apply merge_wf; [done|apply empty_lineage_wf].
Qed.

Definition fb_post (b0 : FeatureBook) (b : FeatureBook) : Prop := fb_inv b ∧ fb_after b0 b.

Lemma set_lineage_inv l b : fb_inv b → lineage_wf l → fb_inv (fb_set_lineage l b).
Proof. intros [] ?. by constructor. Qed.

Lemma wp_buffer u b :
  fb_inv b → event_valid (EBookUpdate u) → fb_synchronized b = false →
  fb_generation b ≤ update_generation u →
  wpM (buffer digest u) (λ _ b', fb_post b b') b.
Proof using digest_hex.
  intros Hi Hu Hs Hg. unfold buffer. repeat wp_step. apply wp_if; intros Hlen; case_cmp.
  - repeat wp_step. apply wp_record; [apply Hi|]. intros l Hl. wp_step.
    split; [|split; [done|simpl; lia]].
    apply set_lineage_inv; [|done]. apply set_lineage_inv; [|apply Hi].
    apply fb_reset_inv; [done|]. pose proof (fi_generation _ Hi). lia.
  - repeat wp_step. apply wp_record; [apply Hi|]. intros l Hl. wp_step.
    split; [|split; [done|simpl; lia]]. apply set_lineage_inv; [|done].
    destruct Hi as [[Hc Hp] Hb Ha Hpe Hge Hli Hsy Hun].
    constructor; simpl; try done; [|by apply Forall_app; split; [|apply Forall_singleton]|].
    + split; [done|]. rewrite length_app. simpl. lia.
    + congruence.
Qed.

Lemma wp_apply_levels bids asks b :
  fb_inv b → Forall level_valid bids → Forall level_valid asks → fb_synchronized b = true →
  wpM (apply_levels bids asks)
    (λ ok b', fb_post b b' ∧ fb_synchronized b' = ok ∧ fb_pending b' = fb_pending b) b.
Proof.
  intros Hi Hb Ha Hs. pose proof Hi as [Hc Hbi Hai Hpe Hge Hli Hsy Hun].
  destruct (Hsy Hs) as (_ & _ & _ & Hsince & Hpend).
  assert (side_ok (set_levels (fb_bids b) bids)) as Hb' by by apply set_levels_ok.
  assert (side_ok (set_levels (fb_asks b) asks)) as Ha' by by apply set_levels_ok.
  unfold apply_levels. repeat wp_step. cbn [fb_bids fb_asks fb_set_sides].
  assert (fb_after b b) as Hrefl by reflexivity.
  apply wp_if; intros Hne; [|apply wp_if; intros Hcr]; repeat wp_step.
  - split; [split; [by constructor|exact Hrefl]|done].
  - split; [split; [by constructor|exact Hrefl]|done].
  - apply orb_false_iff in Hne as [H1%negb_false_iff H2%negb_false_iff].
    split; [split; [|exact Hrefl]|done].
    by constructor.
Qed.

Lemma fb_after_trans a b c : fb_after a b → fb_after b c → fb_after a c.
Proof. apply transitivity. Qed.

Lemma set_change_inv seq c b : fb_inv b → fb_inv (fb_set_change seq c b).
Proof. intros []. by constructor. Qed.

Lemma wp_replay_pending pending : ∀ b,
  fb_inv b → fb_synchronized b = true → Forall (λ u, event_valid (EBookUpdate u)) pending →
  wpM (replay_pending pending)
    (λ r b', fb_post b b' ∧ (r = None → fb_synchronized b' = true)) b.
Proof.
  induction pending as [|u pending IH]; intros b Hi Hs Hp; cbn [replay_pending]; repeat wp_step.
  { by split; [split; [|reflexivity]|]. }
  inversion Hp as [|?? (_ & Hb & Ha) Hrest]; subst. cbn zeta.
  apply wp_if; intros Hskip; [by apply IH|].
  apply wp_if; intros Hgap; repeat wp_step.
  { split; [split; [by apply fb_desync_inv|exact (fb_after_refl b)]|done]. }
  eapply wp_mono; [by apply wp_apply_levels|]. intros ok b1 ([Hi1 Ha1] & Hs1 & Hp1).
  destruct ok; simpl; repeat wp_step; [|by split].
  eapply wp_mono; [apply IH; [by apply set_change_inv|done|done]|].
  intros r b2 [[Hi2 Ha2] Hr]. split; [|done]. split; [done|].
  eapply fb_after_trans, Ha2. exact Ha1.
Qed.

Lemma wp_apply_book_update u b :
  fb_inv b → event_valid (EBookUpdate u) →
  wpM (apply_book_update digest u) (λ _ b', fb_post b b') b.
Proof using digest_hex.
  intros Hi Hu. pose proof Hu as (_ & Hb & Ha). unfold apply_book_update. repeat wp_step.
  apply wp_if; intros Hg; repeat wp_step; [by split|]. apply Z.ltb_ge in Hg.
  apply wp_if; intros Hg2; repeat wp_step; [apply Z.ltb_lt in Hg2|apply Z.ltb_ge in Hg2].
  { pose proof (fi_generation _ Hi).
    eapply wp_mono; [apply wp_buffer; [apply fb_reset_inv; [done|lia]|done|done|simpl; lia]|].
    intros _ b' [Hi' Ha']. split; [done|]. eapply fb_after_trans, Ha'.
    split; [done|simpl; lia]. }
  apply wp_if; intros Hs; repeat wp_step.
  { apply negb_true_iff in Hs. apply wp_buffer; [done|done|done|lia]. }
  apply negb_false_iff in Hs. cbn zeta. apply wp_if; intros Hst; repeat wp_step; [by split|].
  apply wp_if; intros Hgap; repeat wp_step.
  - eapply wp_mono; [apply wp_buffer; [|done|done|simpl; lia]|].
    + apply (fb_desync_inv (Some "order-book update sequence gap"%string)) in Hi.
      destruct Hi as [[? ?] ? ? ? ? ? ? ?]. constructor; simpl; try done. simpl in *. lia.
    + intros _ b' [Hi' Ha']. by split.
  - apply wp_record; [apply Hi|]. intros l Hl. repeat wp_step.
    eapply wp_mono; [apply wp_apply_levels; [by apply set_lineage_inv|done|done|done]|].
    intros ok b1 ([Hi1 Ha1] & Hs1 & _). destruct ok; simpl; repeat wp_step; [|by split].
    split; [by apply set_change_inv|exact Ha1].
Qed.

Lemma wp_apply_snapshot s b :
  fb_inv b → event_valid (EBookSnapshot s) →
  wpM (apply_snapshot digest s) (λ _ b', fb_post b b') b.
Proof using digest_hex.
  intros Hi Hv. pose proof Hv as (Hbook & Hvb & Hva). unfold apply_snapshot. repeat wp_step.
  apply wp_if; intros Hg; repeat wp_step; [by split|]. apply Z.ltb_ge in Hg. cbn zeta.
  apply wp_if; intros Hst; repeat wp_step; [by split|].
  pose proof (fi_generation _ Hi) as Hgen.
  set (b1 := fb_reset _ _ _ b).
  assert (fb_inv b1) as Hi1 by (apply fb_reset_inv; [done|lia]).
  assert (fb_after b b1) as Ha1 by (split; [done|simpl; destruct (negb _); lia]).
  set (b2 := if snapshot_generation s =? fb_generation b then fb_set_lineage (fb_lineage b) b1 else b1).
  assert (fb_inv b2 ∧ fb_after b b2) as [Hi2 Ha2].
  { subst b2. destruct (_ =? _); [|done]. split; [by apply set_lineage_inv; [|apply Hi]|done]. }
  assert (∀ Q, Q tt b2 → wpM (if snapshot_generation s =? fb_generation b
    then modifyM (fb_set_lineage (fb_lineage b)) else mret tt) Q b1) as Hset
    by (intros Q; subst b2; by destruct (_ =? _)).
  apply Hset. wp_step. apply wp_record; [apply Hi2|]. intros l Hl. repeat wp_step.
  assert (nonempty (side_of (snapshot_bids s)) = true) as Hnb
    by (apply side_of_nonempty; destruct Hbook as (_ & _ & _ & Hl1 & _); destruct (snapshot_bids s); simpl in *; [lia|done]).
  assert (nonempty (side_of (snapshot_asks s)) = true) as Hna
    by (apply side_of_nonempty; destruct Hbook as (_ & _ & _ & _ & Hl1); destruct (snapshot_asks s); simpl in *; [lia|done]).
  rewrite Hnb, Hna. cbn [andb].
  set (b3 := fb_set_change _ _ (fb_set_sides _ _ (fb_set_lineage l b2))).
  assert (fb_synchronized b2 = false) as Hs2 by (subst b2; by destruct (_ =? _)).
  assert (fb_pending b2 = []) as Hp2 by (subst b2; by destruct (_ =? _)).
  assert (fb_inv b3) as Hi3.
  { destruct Hi2 as [? ? ? ? ? ? ? ?]. subst b3. constructor; cbn -[side_of]; try done;
      [by apply side_of_ok|by apply side_of_ok|congruence]. }
  assert (fb_after b b3) as Ha3 by exact Ha2.
  set (since := if _ && _ then fb_synchronized_since b else _).
  assert (is_Some since) as Hsince.
  { subst since. destruct ((_ =? _) && fb_synchronized b) eqn:E; [|by eexists].
    apply andb_true_iff in E as [_ E]. by apply (fi_sync _ Hi E). }
  apply wp_if; intros Hc; repeat wp_step.
  { split; [exact (fb_desync_inv _ _ Hi3)|exact Ha3]. }
  eapply wp_mono; [apply wp_replay_pending; [|done|]|].
  - destruct Hi3 as [? ? ? ? ? ? ? ?]. by constructor.
  - rewrite py_sorted_perm. destruct (_ =? _); [apply Hi|apply Forall_nil_2].
  - intros r b4 [[Hi4 Ha4] Hr].
    assert (fb_post b b4) by (split; [done|by eapply fb_after_trans; [exact Ha3|exact Ha4]]).
    destruct r; repeat wp_step; done.
Qed.
End invariant.

(** ** Best prices *)

Lemma dmax_ge x y : dleb x (dmax x y) = true ∧ dleb y (dmax x y) = true.
Proof.
  unfold dmax. destruct (dltb x y) eqn:E.
  - split; [by apply dltb_leb|]. by rewrite dleb_ltb, dltb_irrefl.
  - split; [by rewrite dleb_ltb, dltb_irrefl|]. by rewrite dleb_ltb, E.
Qed.

Lemma dmin_le x y : dleb (dmin x y) x = true ∧ dleb (dmin x y) y = true.
Proof.
  unfold dmin. destruct (dltb y x) eqn:E.
  - split; [by apply dltb_leb|]. by rewrite dleb_ltb, dltb_irrefl.
  - split; [by rewrite dleb_ltb, dltb_irrefl|]. by rewrite dleb_ltb, E.
Qed.

Lemma foldl_dmax_ge ks : ∀ k x, x = k ∨ x ∈ ks → dleb x (foldl dmax k ks) = true.
Proof.
  assert (∀ ks k, dleb k (foldl dmax k ks) = true) as Hacc.
  { clear. induction ks as [|y ks IH]; intros k; simpl; [by rewrite dleb_ltb, dltb_irrefl|].
    eapply dleb_trans, IH. apply dmax_ge. }
  induction ks as [|y ks IH]; intros k x [->|Hx]; simpl; [apply (Hacc [])|by apply elem_of_nil in Hx|..].
  - eapply dleb_trans, Hacc. apply dmax_ge.
  - apply elem_of_cons in Hx as [->|Hx]; [|by apply IH; right].
    eapply dleb_trans, Hacc. apply dmax_ge.
Qed.

Lemma foldl_dmin_le ks : ∀ k x, x = k ∨ x ∈ ks → dleb (foldl dmin k ks) x = true.
Proof.
  assert (∀ ks k, dleb (foldl dmin k ks) k = true) as Hacc.
  { clear. induction ks as [|y ks IH]; intros k; simpl; [by rewrite dleb_ltb, dltb_irrefl|].
    eapply dleb_trans; [apply IH|]. apply dmin_le. }
  induction ks as [|y ks IH]; intros k x [->|Hx]; simpl; [apply (Hacc [])|by apply elem_of_nil in Hx|..].
  - eapply dleb_trans; [apply Hacc|]. apply dmin_le.
  - apply elem_of_cons in Hx as [->|Hx]; [|by apply IH; right].
    eapply dleb_trans; [apply Hacc|]. apply dmin_le.
Qed.

Lemma dleb_ltb_trans x y z : dleb x y = true → dltb y z = true → dltb x z = true.
Proof.
  intros Hxy Hyz. destruct (dltb x z) eqn:E; [done|].
  assert (dleb z x = true) as Hzx by by rewrite dleb_ltb, E.
  pose proof (dleb_trans z x y Hzx Hxy) as Hzy. rewrite dleb_ltb, Hyz in Hzy. done.
Qed.

Lemma dltb_leb_trans x y z : dltb x y = true → dleb y z = true → dltb x z = true.
Proof.
  intros Hxy Hyz. destruct (dltb x z) eqn:E; [done|].
  assert (dleb z x = true) as Hzx by by rewrite dleb_ltb, E.
  pose proof (dleb_trans y z x Hyz Hzx) as Hyx. rewrite dleb_ltb, Hxy in Hyx. done.
Qed.

(** Comparing the best prices is comparing all of them. *)
Lemma crossed_false bids asks :
  crossed bids asks = false →
  ∀ k q k' q', (k, q) ∈ bids → (k', q') ∈ asks → dltb k k' = true.
Proof.
  unfold crossed, max_key, min_key. intros H k q k' q' Hb Ha.
  destruct bids as [|[b qb] bids]; [by apply elem_of_nil in Hb|].
  destruct asks as [|[a qa] asks]; [by apply elem_of_nil in Ha|]. simpl in H.
  assert (dltb (foldl dmax b (map fst bids)) (foldl dmin a (map fst asks)) = true) as Hlt.
  { rewrite dleb_ltb in H. by apply negb_false_iff in H. }
  assert (∀ (k : decimal) (q : decimal) p x s, (k, q) ∈ (p, x) :: s → k = p ∨ k ∈ map fst s) as Hk.
  { clear. intros k q p x s [[= -> ->]|Hin]%elem_of_cons; [by left|right].
    by apply (list_elem_of_fmap_2 fst _ (k, q)). }
  eapply dleb_ltb_trans; [apply foldl_dmax_ge, (Hk k q b qb), Hb|].
  eapply dltb_leb_trans; [exact Hlt|]. apply foldl_dmin_le, (Hk k' q' a qa), Ha.
Qed.

(** ** The book over any sequence of events *)

Inductive book_event := BSnapshot (s : OrderBookSnapshot) | BUpdate (u : OrderBookUpdate).

Definition book_event_valid (e : book_event) : Prop :=
  match e with
  | BSnapshot s => event_valid (EBookSnapshot s)
  | BUpdate u => event_valid (EBookUpdate u)
  end.

Definition book_step (digest : Z → event → string) (e : book_event)
    : M FeatureBook StateUpdateStatus :=
  match e with
  | BSnapshot s => apply_snapshot digest s
  | BUpdate u => apply_book_update digest u
  end.

Lemma feature_book_init_inv cap b :
  feature_book_init cap = Ok b → fb_inv b ∧ fb_capacity b = cap.
Proof.
  unfold feature_book_init. intros H. inv_res. subst b. case_cmp. split; [|done].
  constructor; simpl; try done; try apply empty_lineage_wf; try lia;
    (split; [done|by intros ?? ?%elem_of_nil]).
Qed.

Lemma mapR_level_ok l :
  (∀ k q, (k, q) ∈ l → dltb d0 k = true ∧ dleb d0 q = true) →
  mapR (λ '(p, q), mk_level p q) l = Ok (level_item <$> l).
Proof.
  induction l as [|[k q] l IH]; intros H; [done|]. simpl.
  destruct (H k q ltac:(left)) as [Hk Hq].
  rewrite IH by (intros; apply H; by right). unfold mk_level, positive, non_negative.
  by rewrite Hk, Hq.
Qed.

Lemma level_item_sorted (R : OrderBookLevel → OrderBookLevel → Prop) l :
  StronglySorted (λ x y, R (level_item x) (level_item y)) l → StronglySorted R (level_item <$> l).
Proof. induction 1; simpl; constructor; [done|]. by apply Forall_fmap. Qed.

Lemma side_view desc s depth :
  side_ok s →
  let l := take (Z.to_nat depth)
    (py_sorted (λ x y, if desc : bool then dleb y.1 x.1 else dleb x.1 y.1) s) in
  mapR (λ '(p, q), mk_level p q) l = Ok (level_item <$> l) ∧
  StronglySorted (λ x y, price_before desc (level_price x) (level_price y)) (level_item <$> l) ∧
  (∀ x, x ∈ l → x ∈ s).
Proof.
  intros [Hwf Hs] l.
  assert (∀ x, x ∈ l → x ∈ s) as Hin.
  { intros x Hx. eapply elem_of_sublist in Hx; [|apply sublist_take]. by rewrite py_sorted_elem in Hx. }
  split; [|split; [|exact Hin]].
  - apply mapR_level_ok. intros k q ?%Hin. by apply Hs.
  - apply level_item_sorted. eapply StronglySorted_sublist; [apply sublist_take|].
    apply (sorted_strict _ desc); [| | |done].
    + intros x y. destruct desc; apply dleb_total.
    + intros x y z. destruct desc; eauto using dleb_trans.
    + intros x y. apply (price_leb_dir_strict desc).
Qed.

Lemma take_py_sorted_nonempty {A} (leb : A → A → bool) depth l :
  1 ≤ depth → nonempty l = true → take (Z.to_nat depth) (py_sorted leb l) ≠ [].
Proof.
  intros Hd Hl. pose proof (py_sorted_perm leb l) as Hp.
  destruct (py_sorted leb l) as [|x l'] eqn:E.
  - apply Permutation_nil_l in Hp. by subst.
  - destruct (Z.to_nat depth) eqn:En; [lia|done].
Qed.

Lemma items_nonempty (l : side) : l ≠ [] → level_item <$> l ≠ [].
Proof. by destruct l. Qed.

(** C3. Over any sequence of valid snapshots and updates the feature book never
    raises; at the end its buffer is within its capacity, its view is strictly
    sorted on both sides, and while it claims to be synchronized the view has both
    sides, every bid is below every ask, and nothing waits in the buffer. *)
Theorem feature_book_view_sound digest cap b events depth :
  (∀ ts e, hex_text (digest ts e)) → feature_book_init cap = Ok b →
  Forall book_event_valid events → 1 ≤ depth →
  ∃ b' sts v, mapMs (book_step digest) events b = (b', Ok sts) ∧ length sts = length events ∧
    feature_view depth b' = Ok v ∧
    StronglySorted price_gt (fv_bids v) ∧ StronglySorted price_lt (fv_asks v) ∧
    0 ≤ fv_pending_updates v ≤ cap ∧
    (fv_synchronized v = true →
       fv_bids v ≠ [] ∧ fv_asks v ≠ [] ∧ fv_pending_updates v = 0 ∧
       is_Some (fv_synchronized_since v) ∧
       ∀ x y, x ∈ fv_bids v → y ∈ fv_asks v → price_lt x y).
Proof.
  intros Hd [Hi Hcap]%feature_book_init_inv Hev Hdep.
  destruct (wp_run (mapMs (book_step digest) events)
    (λ sts b', length sts = length events ∧ fb_post b b') b) as (b' & sts & Hrun & Hlen & [Hi' Ha']).
  { apply (wp_mapMs _ (fb_post b) book_event_valid); [|done|by split].
    intros [s|u] b1 Hv [Hi1 Ha1]; cbn [book_step];
      (eapply wp_mono; [first [by apply wp_apply_snapshot|by apply wp_apply_book_update]|]);
      intros _ b2 [Hi2 Ha2]; (split; [done|by eapply fb_after_trans]). }
  exists b', sts.
  destruct (side_view true (fb_bids b') depth (fi_bids _ Hi')) as (Eb & Sb & Hb).
  destruct (side_view false (fb_asks b') depth (fi_asks _ Hi')) as (Ea & Sa & Ha).
  unfold feature_view. destruct (Z.ltb_spec depth 1); [lia|]. simpl.
  cbn zeta in *. rewrite Eb. simpl. rewrite Ea. simpl. eexists. split; [done|]. split; [done|].
  split; [reflexivity|]. simpl. split; [exact Sb|]. split; [exact Sa|].
  pose proof (fi_capacity _ Hi') as [_ Hpend]. destruct Ha' as (Hc' & _ & _).
  split; [lia|]. intros Hsync. destruct (fi_sync _ Hi' Hsync) as (Nb & Na & Hcr & Hsince & ->).
  split; [|split; [|split; [done|split; [done|]]]].
  - by apply items_nonempty, take_py_sorted_nonempty.
  - by apply items_nonempty, take_py_sorted_nonempty.
  - intros x y ([k q] & -> & Hx%Hb)%list_elem_of_fmap ([k' q'] & -> & Hy%Ha)%list_elem_of_fmap.
    by eapply crossed_false.
Qed.

Definition demo_digest (ts : Z) (e : event) : string :=
  of_chars (replicate 64 (Ascii.ascii_of_nat 97)).
Definition demo_snapshot : OrderBookSnapshot :=
  {| snapshot_meta := example_meta; snapshot_bids := [lvl 100 1; lvl 99 2];
     snapshot_asks := [lvl 101 1; lvl 102 3]; snapshot_depth := 2; snapshot_checksum := None;
     snapshot_generation := 1 |}.
Definition demo_update (bid : Z) : OrderBookUpdate :=
  {| update_meta := example_meta; update_bids := [lvl bid 5]; update_asks := [];
     previous_sequence_id := None; update_checksum := None; update_generation := 1 |}.
Definition demo_events : list book_event :=
  [BUpdate (demo_update 98); BSnapshot demo_snapshot; BUpdate (demo_update 97)].
Definition demo_book : FeatureBook :=
  {| fb_capacity := 10; fb_pending := []; fb_bids := []; fb_asks := [];
     fb_generation := 0; fb_epoch := 0; fb_sequence_id := None; fb_synchronized := false;
     fb_synchronized_since := None; fb_last_error := None; fb_last_change := None;
     fb_lineage := empty_lineage |}.

Lemma demo_digest_hex ts e : hex_text (demo_digest ts e).
Proof.
  split; [done|]. unfold demo_digest. rewrite chars_of_chars.
  apply Forall_replicate. by eexists.
Qed.

Lemma demo_levels_sorted :
  StronglySorted price_gt (snapshot_bids demo_snapshot) ∧
  StronglySorted price_lt (snapshot_asks demo_snapshot).
Proof. split; repeat constructor. Qed.

Lemma demo_events_valid : Forall book_event_valid demo_events.
Proof.
  assert (∀ bid, 0 < bid → book_event_valid (BUpdate (demo_update bid))) as Hu.
  { intros bid Hb. split; [by left|]. split; [|apply Forall_nil_2]. apply Forall_singleton.
    split; [|done]. simpl. rewrite dltb_0_l. simpl. by apply Z.ltb_lt. }
  unfold demo_events. repeat apply Forall_cons_2; [by apply Hu| |by apply Hu|apply Forall_nil_2].
  destruct demo_levels_sorted as [Hb Ha]. split; [|split; repeat constructor].
  split; [done|]. split; [done|]. split; [|done].
  intros b a. simpl. rewrite !elem_of_cons, !elem_of_nil. intros [->|[->|[]]] [->|[->|[]]]; done.
Qed.

Lemma feature_book_view_sound_witness :
  ∃ b' sts v, mapMs (book_step demo_digest) demo_events demo_book = (b', Ok sts) ∧
    length sts = 3%nat ∧ feature_view 2 b' = Ok v ∧
    StronglySorted price_gt (fv_bids v) ∧ StronglySorted price_lt (fv_asks v) ∧
    0 ≤ fv_pending_updates v ≤ 10 ∧
    (fv_synchronized v = true →
       fv_bids v ≠ [] ∧ fv_asks v ≠ [] ∧ fv_pending_updates v = 0 ∧
       is_Some (fv_synchronized_since v) ∧
       ∀ x y, x ∈ fv_bids v → y ∈ fv_asks v → price_lt x y).
Proof.
  apply (feature_book_view_sound demo_digest 10 demo_book demo_events 2).
  - apply demo_digest_hex.
  - reflexivity.
  - apply demo_events_valid.
  - lia.
Defined.

(** The demonstration ends synchronized, with both updates applied. *)
Example demo_book_end :
  let '(b, r) := mapMs (book_step demo_digest) demo_events demo_book in
  r = Ok [SU_BUFFERED_FOR_SNAPSHOT; SU_ACCEPTED; SU_ACCEPTED] ∧
  fb_synchronized b = true ∧ length (fb_bids b) = 4%nat.
Proof. vm_compute. by repeat split. Qed.
