(* ===== verification/Health.v ===== *)
(** * Stream health

    [monitoring/health.py]: lifetime counters and current state of every data
    stream, the status derived from them, and the [ExchangeHealth] event the
    collector publishes.  The registry's [dict] of mutable states is an
    insertion-ordered dictionary in a state monad; a method that raises keeps the
    assignments it made before. *)

From S2P Require Import Prelude Effects PyDecimal PyFloat PyTime Models.

Definition aware_utc (d : datetime) : res Z :=
  as_utc "health timestamps must be timezone-aware" d.

(** [timedelta / 2]: half of a number of microseconds, ties to even. *)
Definition half_delta (us : Z) : Z :=
  let q := us / 2 in if Z.even us then q else if Z.even q then q else q + 1.

Definition estimate_clock_skew_ms (request_sent_at response_received_at exchange_ts : datetime)
    : res float :=
  sent_at ← aware_utc request_sent_at;
  received_at ← aware_utc response_received_at;
  exchange_at ← aware_utc exchange_ts;
  _ ← require (negb (received_at <? sent_at))
        (ValueError "response timestamp cannot precede request timestamp");
  let midpoint := sent_at + half_delta (received_at - sent_at) in
  Ok (total_ms (midpoint - exchange_at)).

Record StreamKey := { sk_exchange : Exchange; sk_symbol : string; sk_channel : string }.
#[export] Instance StreamKey_eq_dec : EqDecision StreamKey.
Proof. solve_decision. Defined.

Definition mk_stream_key (e : Exchange) (symbol channel : string) : res StreamKey :=
  symbol ← validate_canonical_symbol symbol true;
  _ ← require (negb (blank channel)) (ValueError "channel cannot be empty");
  Ok {| sk_exchange := e; sk_symbol := symbol; sk_channel := channel |}.

(** [_StreamState]. *)
Record StreamState := {
  is_connected : bool;
  connected_at : option Z;
  last_event_timestamp : option Z;
  last_receive_timestamp : option Z;
  last_latency_ms : option float;
  latency_sum_ms : float;
  maximum_latency_ms : option float;
  last_normalization_latency_ms : option float;
  clock_skew_ms : option float;
  message_count : Z;
  duplicate_count : Z;
  sequence_gap_count : Z;
  checksum_failure_count : Z;
  reconnect_count : Z;
  resubscribe_count : Z;
  parse_error_count : Z;
  dropped_event_count : Z;
  backpressure_count : Z;
  sequence_gap_detected : bool;
  resyncing : bool;
  book_generation : Z;
  rest_healthy : bool;
  last_open_interest_receive_timestamp : option Z;
  last_error : option string }.

Definition fresh_stream : StreamState :=
  {| is_connected := false; connected_at := None; last_event_timestamp := None;
     last_receive_timestamp := None; last_latency_ms := None; latency_sum_ms := f0;
     maximum_latency_ms := None; last_normalization_latency_ms := None; clock_skew_ms := None;
     message_count := 0; duplicate_count := 0; sequence_gap_count := 0;
     checksum_failure_count := 0; reconnect_count := 0; resubscribe_count := 0;
     parse_error_count := 0; dropped_event_count := 0; backpressure_count := 0;
     sequence_gap_detected := false; resyncing := false; book_generation := 0;
     rest_healthy := true; last_open_interest_receive_timestamp := None; last_error := None |}.

(** [StreamHealthSnapshot]: the state's fields, with the derived ones. *)
Record StreamHealthSnapshot := {
  shs_key : StreamKey;
  shs_status : HealthStatus;
  shs_average_latency_ms : option float;
  shs_open_interest_stale : bool;
  shs_state : StreamState }.

Record StreamHealthRegistry := {
  stale_after_ms : Z;
  maximum_core_latency_ms : Z;
  clock_skew_warning_ms : Z;
  open_interest_stale_after_ms : Z;
  channel_stale_after_ms : list (string * option Z);
  streams : list (StreamKey * StreamState) }.

(** The constructor with [__post_init__], which fills in the open-interest threshold. *)
Definition health_registry_init (stale latency skew : Z) (oi : option Z)
    (channels : list (string * option Z)) : res StreamHealthRegistry :=
  _ ← require (negb (stale <=? 0)) (ValueError "stale_after_ms must be positive");
  _ ← require (negb (latency <=? 0)) (ValueError "maximum_core_latency_ms must be positive");
  _ ← require (negb (skew <=? 0)) (ValueError "clock_skew_warning_ms must be positive");
  oi ← match oi with
       | None => Ok stale
       | Some n =>
         _ ← require (negb (n <=? 0)) (ValueError "open_interest_stale_after_ms must be positive");
         Ok n
       end;
  _ ← mapR (λ '(channel, threshold),
        _ ← require (negb (blank channel)) (ValueError "health channel names cannot be empty");
        require (match threshold with Some n => negb (n <=? 0) | None => true end)
          (ValueError "channel stale thresholds must be positive or null")) channels;
  Ok {| stale_after_ms := stale; maximum_core_latency_ms := latency;
        clock_skew_warning_ms := skew; open_interest_stale_after_ms := oi;
        channel_stale_after_ms := channels; streams := [] |}.

(** ** Operations *)

Abbreviation HM := (M StreamHealthRegistry).
Abbreviation SM := (M StreamState).

Definition stream_of (r : StreamHealthRegistry) (key : StreamKey) : StreamState :=
  default fresh_stream (dict_get key (streams r)).

(** [state = self._state(key)], and what the method does to [state]. *)
Definition on_state {A} (key : StreamKey) (m : SM A) : HM A :=
  zoomM (λ r, stream_of r key) (λ s r, {| r with streams := dict_set key s (streams r) |}) m.

Definition health_keys (r : StreamHealthRegistry) : list StreamKey := map fst (streams r).

Definition mark_connected (key : StreamKey) (at_ : datetime) : HM unit :=
  on_state key
    (_ ← modifyM (λ s, {| s with is_connected := true |});
     t ← liftM (aware_utc at_);
     modifyM (λ s, {| s with connected_at := Some t; last_error := None |})).

Definition mark_disconnected (key : StreamKey) (error : option string) : HM unit :=
  on_state key
    (modifyM (λ s, {| s with is_connected := false; resyncing := false; last_error := error |})).

Definition record_reconnect (key : StreamKey) (error : option string) : HM unit :=
  on_state key
    (modifyM (λ s, {| s with reconnect_count := reconnect_count s + 1; last_error := error |})).

Definition record_resubscribe (key : StreamKey) : HM unit :=
  on_state key (modifyM (λ s, {| s with resubscribe_count := resubscribe_count s + 1 |})).

Definition record_message (key : StreamKey) (exchange_ts receive_ts normalization_ts : datetime)
    (skew : option float) (is_open_interest : bool) : HM unit :=
  on_state key
    (exchange_at ← liftM (aware_utc exchange_ts);
     received_at ← liftM (aware_utc receive_ts);
     normalized_at ← liftM (aware_utc normalization_ts);
     _ ← requireM (negb (normalized_at <? received_at))
           (ValueError "normalization timestamp cannot precede receipt");
     let observed := total_ms (received_at - exchange_at) in
     let adjusted := match skew with Some k => fsub observed k | None => observed end in
     modifyM (λ s,
       {| s with
          clock_skew_ms := match skew with Some k => Some k | None => clock_skew_ms s end;
          last_event_timestamp := Some exchange_at;
          last_receive_timestamp := Some received_at;
          last_latency_ms := Some adjusted;
          latency_sum_ms := fadd (latency_sum_ms s) adjusted;
          maximum_latency_ms := Some (match maximum_latency_ms s with
                                      | None => adjusted | Some x => fmax x adjusted end);
          last_normalization_latency_ms := Some (total_ms (normalized_at - received_at));
          message_count := message_count s + 1;
          last_open_interest_receive_timestamp :=
            if is_open_interest then Some received_at
            else last_open_interest_receive_timestamp s |})).

Definition record_duplicate (key : StreamKey) : HM unit :=
  on_state key (modifyM (λ s, {| s with duplicate_count := duplicate_count s + 1 |})).

Definition check_generation (generation : Z) : HM unit :=
  requireM (negb (generation <? 0)) (ValueError "book_generation cannot be negative").

Definition mark_resyncing (key : StreamKey) (generation : Z) (reason : string) : HM unit :=
  _ ← check_generation generation;
  on_state key
    (modifyM (λ s, {| s with resyncing := true; book_generation := generation;
                             last_error := Some reason |})).

Definition record_sequence_gap (key : StreamKey) (generation : Z) : HM unit :=
  _ ← on_state key
        (modifyM (λ s, {| s with sequence_gap_count := sequence_gap_count s + 1;
                                 sequence_gap_detected := true |}));
  mark_resyncing key generation "order-book sequence gap".

Definition record_checksum_failure (key : StreamKey) (generation : Z) : HM unit :=
  _ ← on_state key
        (modifyM (λ s, {| s with checksum_failure_count := checksum_failure_count s + 1 |}));
  mark_resyncing key generation "order-book checksum mismatch".

Definition mark_book_live (key : StreamKey) (generation : Z) : HM unit :=
  _ ← check_generation generation;
  on_state key
    (modifyM (λ s, {| s with resyncing := false; sequence_gap_detected := false;
                             book_generation := generation; last_error := None |})).

Definition record_parse_error (key : StreamKey) (error : string) : HM unit :=
  on_state key
    (modifyM (λ s, {| s with parse_error_count := parse_error_count s + 1;
                             last_error := Some error |})).

Definition record_drop (key : StreamKey) (backpressure : bool) : HM unit :=
  on_state key
    (modifyM (λ s,
       {| s with
          dropped_event_count := dropped_event_count s + 1;
          backpressure_count :=
            if backpressure then backpressure_count s + 1 else backpressure_count s;
          last_error := Some (if backpressure then "event dropped by backpressure"
                              else "event dropped")%string |})).

Definition rest_failed : string := "REST health check failed".

(** [error or "..."]: [None] and the empty string are falsy. *)
Definition str_or (s : option string) (d : string) : string :=
  match s with Some x => if bool_decide (x = ""%string) then d else x | None => d end.

Definition record_rest_result (key : StreamKey) (healthy : bool) (error : option string) : HM unit :=
  on_state key
    (modifyM (λ s,
       {| s with
          rest_healthy := healthy;
          last_error :=
            if negb healthy then Some (str_or error rest_failed)
            else if bool_decide (last_error s = Some rest_failed) then None
            else last_error s |})).

(** ** Status *)

Definition is_open_interest_channel (key : StreamKey) : bool :=
  bool_decide (sk_channel key = "open_interest"%string) ||
  bool_decide (sk_channel key = "open-interest"%string).

Definition stale_threshold (r : StreamHealthRegistry) (key : StreamKey) : option Z :=
  match dict_get (sk_channel key) (channel_stale_after_ms r) with
  | Some threshold => threshold
  | None => Some (if is_open_interest_channel key then open_interest_stale_after_ms r
                  else stale_after_ms r)
  end.

(** [a or b] on timestamps, which are never falsy. *)
Definition ts_or (a b : option Z) : option Z := match a with Some t => Some t | None => b end.

(** More than [n] milliseconds, by the float the code compares. *)
Definition older_than (now t n : Z) : bool := fgt_int (total_ms (now - t)) n.

Definition is_stale (r : StreamHealthRegistry) (key : StreamKey) (now : Z) (s : StreamState) : bool :=
  is_connected s &&
  match ts_or (last_receive_timestamp s) (connected_at s), stale_threshold r key with
  | Some t, Some n => older_than now t n
  | _, _ => false
  end.

Definition open_interest_stale (r : StreamHealthRegistry) (key : StreamKey) (now : Z)
    (s : StreamState) : bool :=
  is_open_interest_channel key &&
  match last_open_interest_receive_timestamp s with
  | None => true
  | Some t => older_than now t (open_interest_stale_after_ms r)
  end.

Definition latency_degraded (r : StreamHealthRegistry) (s : StreamState) : bool :=
  match last_latency_ms s with Some x => fgt_int x (maximum_core_latency_ms r) | None => false end.
Definition skew_degraded (r : StreamHealthRegistry) (s : StreamState) : bool :=
  match clock_skew_ms s with Some x => fgt_int (fabs x) (clock_skew_warning_ms r) | None => false end.

Definition stream_status (r : StreamHealthRegistry) (key : StreamKey) (now : Z) (s : StreamState)
    : HealthStatus :=
  if negb (is_connected s) then DISCONNECTED
  else if resyncing s then RESYNCING
  else if is_stale r key now s || open_interest_stale r key now s then STALE
  else if latency_degraded r s || skew_degraded r s || negb (rest_healthy s) then DEGRADED
  else CONNECTED.

Definition health_snapshot (key : StreamKey) (now : datetime) : HM StreamHealthSnapshot :=
  checked_at ← liftM (aware_utc now);
  s ← on_state key getM;
  r ← getM;
  let average := if message_count s =? 0 then None
                 else Some (fdiv_ieee (latency_sum_ms s) (float_of_int (message_count s))) in
  mret {| shs_key := key; shs_status := stream_status r key checked_at s;
          shs_average_latency_ms := average;
          shs_open_interest_stale := open_interest_stale r key checked_at s; shs_state := s |}.

(** [clock] is [datetime.now(UTC)] where pydantic fills in the normalization time. *)
Definition exchange_health (key : StreamKey) (now : datetime) (reference : option string)
    (clock : Z) : HM ExchangeHealth :=
  snapshot ← health_snapshot key now;
  timestamp ← liftM (aware_utc now);
  let s := shs_state snapshot in
  meta ← liftM (mk_metadata EXCHANGE_HEALTH (sk_exchange key) (sk_symbol key)
          (utc (default timestamp (last_event_timestamp s))) (utc timestamp) (utc clock)
          None reference);
  liftM (validate_health
    {| health_meta := meta; health_channel := sk_channel key;
       health_status := shs_status snapshot; health_is_connected := is_connected s;
       health_last_event_timestamp := last_event_timestamp s;
       health_last_latency_ms := last_latency_ms s;
       health_average_latency_ms := shs_average_latency_ms snapshot;
       health_maximum_latency_ms := maximum_latency_ms s;
       health_last_normalization_latency_ms := last_normalization_latency_ms s;
       health_clock_skew_ms := clock_skew_ms s; health_messages_received := message_count s;
       health_duplicate_events := duplicate_count s; health_sequence_gaps := sequence_gap_count s;
       health_checksum_failures := checksum_failure_count s;
       health_reconnects := reconnect_count s; health_resubscriptions := resubscribe_count s;
       health_parse_errors := parse_error_count s; health_dropped_events := dropped_event_count s;
       health_backpressure_events := backpressure_count s;
       health_sequence_gap_detected := sequence_gap_detected s; health_resyncing := resyncing s;
       health_book_generation := book_generation s; health_rest_healthy := rest_healthy s;
       health_open_interest_stale := shs_open_interest_stale snapshot;
       health_last_error := last_error s |}).

(** The float comparison is not the comparison of the durations: a delay of exactly
    16.1 s is read as more than 16100 ms. *)
Example older_than_boundary : older_than 16100000 0 16100 = true.
Proof. by vm_compute. Qed.

(** ** Traces *)

Inductive health_op :=
| OpConnected (at_ : datetime)
| OpDisconnected (error : option string)
| OpReconnect (error : option string)
| OpResubscribe
| OpMessage (exchange_ts receive_ts normalization_ts : datetime) (skew : option float) (oi : bool)
| OpDuplicate
| OpResyncing (generation : Z) (reason : string)
| OpGap (generation : Z)
| OpChecksum (generation : Z)
| OpLive (generation : Z)
| OpParseError (error : string)
| OpDrop (backpressure : bool)
| OpRest (healthy : bool) (error : option string).

Definition health_step (key : StreamKey) (op : health_op) : HM unit :=
  match op with
  | OpConnected t => mark_connected key t
  | OpDisconnected err => mark_disconnected key err
  | OpReconnect err => record_reconnect key err
  | OpResubscribe => record_resubscribe key
  | OpMessage e r n skew oi => record_message key e r n skew oi
  | OpDuplicate => record_duplicate key
  | OpResyncing g reason => mark_resyncing key g reason
  | OpGap g => record_sequence_gap key g
  | OpChecksum g => record_checksum_failure key g
  | OpLive g => mark_book_live key g
  | OpParseError err => record_parse_error key err
  | OpDrop b => record_drop key b
  | OpRest ok err => record_rest_result key ok err
  end.

(** The callers handle exceptions: a run goes on after one. *)
Fixpoint health_run (ops : list (StreamKey * health_op)) (r : StreamHealthRegistry)
    : StreamHealthRegistry * list (res unit) :=
  match ops with
  | [] => (r, [])
  | (key, op) :: ops =>
    let '(r, x) := health_step key op r in
    let '(r, xs) := health_run ops r in (r, x :: xs)
  end.

(** ** Specification: one independent machine per stream

    Counters are counts of calls; the connection, resynchronization, generation and
    REST flags are what the last call about them said. *)
Definition counted (f : health_op → bool) (ops : list health_op) : Z :=
  Z.of_nat (length (List.filter f ops)).

Definition message_ok (e r n : datetime) : bool :=
  match aware_utc e, aware_utc r, aware_utc n with
  | Ok _, Ok r, Ok n => r <=? n
  | _, _, _ => false
  end.

Definition is_message op :=
  match op with OpMessage e r n _ _ => message_ok e r n | _ => false end.
Definition is_duplicate op := match op with OpDuplicate => true | _ => false end.
Definition is_gap op := match op with OpGap _ => true | _ => false end.
Definition is_checksum op := match op with OpChecksum _ => true | _ => false end.
Definition is_reconnect op := match op with OpReconnect _ => true | _ => false end.
Definition is_resubscribe op := match op with OpResubscribe => true | _ => false end.
Definition is_parse_error op := match op with OpParseError _ => true | _ => false end.
Definition is_drop op := match op with OpDrop _ => true | _ => false end.
Definition is_backpressure op := match op with OpDrop b => b | _ => false end.

(** The calls that decide whether the stream counts as connected, and as resyncing;
    a negative generation is refused before it does. *)
Definition connects op : option bool :=
  match op with OpConnected _ => Some true | OpDisconnected _ => Some false | _ => None end.
Definition resyncs op : option bool :=
  match op with
  | OpDisconnected _ => Some false
  | OpResyncing g _ | OpGap g | OpChecksum g => if g <? 0 then None else Some true
  | OpLive g => if g <? 0 then None else Some false
  | _ => None
  end.

(** The last decision, [d] without one. *)
Definition last_decision {A} (f : health_op → option A) (d : A) (ops : list health_op) : A :=
  foldl (λ d op, default d (f op)) d ops.

Definition ops_of (key : StreamKey) (ops : list (StreamKey * health_op)) : list health_op :=
  map snd (List.filter (λ x, bool_decide (x.1 = key)) ops).

(** Same configuration. *)
Definition same_config (r r' : StreamHealthRegistry) : Prop :=
  stale_after_ms r' = stale_after_ms r ∧
  maximum_core_latency_ms r' = maximum_core_latency_ms r ∧
  clock_skew_warning_ms r' = clock_skew_warning_ms r ∧
  open_interest_stale_after_ms r' = open_interest_stale_after_ms r ∧
  channel_stale_after_ms r' = channel_stale_after_ms r.

#[export] Instance same_config_preorder : PreOrder same_config.
Proof. split; [by intros r|]. unfold same_config. intros x y z. intuition congruence. Qed.

(** ** One call *)

(** What a call on [key] leaves alone. *)
Definition only_stream (key : StreamKey) (r r' : StreamHealthRegistry) : Prop :=
  same_config r r' ∧ ∀ k, k ≠ key → dict_get k (streams r') = dict_get k (streams r).

#[export] Instance only_stream_preorder key : PreOrder (only_stream key).
Proof.
  split; [by intros r; split|]. intros x y z [C1 H1] [C2 H2].
  split; [by etrans|]. intros k Hk. by rewrite H2, H1.
Qed.

Lemma on_state_run {A} key (m : SM A) r :
  on_state key m r =
    ({| r with streams := dict_set key (m (stream_of r key)).1 (streams r) |},
     (m (stream_of r key)).2).
Proof. unfold on_state, zoomM. by destruct (m (stream_of r key)). Qed.

Lemma on_state_effect {A} key (m : SM A) r r' x :
  on_state key m r = (r', x) →
  only_stream key r r' ∧ m (stream_of r key) = (stream_of r' key, x).
Proof.
  rewrite on_state_run. intros [= <- <-]. split; [split; [done|]|].
  - intros k Hk. simpl. apply dict_get_set_ne. by apply bool_decide_eq_false.
  - unfold stream_of at 2. simpl. rewrite dict_get_set_eq by by apply pyeq_refl.
    simpl. by destruct (m (stream_of r key)).
Qed.

Definition counters (s : StreamState) : list Z :=
  [message_count s; duplicate_count s; sequence_gap_count s; checksum_failure_count s;
   reconnect_count s; resubscribe_count s; parse_error_count s; dropped_event_count s;
   backpressure_count s].
Definition counter_tests : list (health_op → bool) :=
  [is_message; is_duplicate; is_gap; is_checksum; is_reconnect; is_resubscribe;
   is_parse_error; is_drop; is_backpressure].

(** What one call does to the state of its stream. *)
Record stream_effect (op : health_op) (s s' : StreamState) : Prop := {
  se_counters : counters s' = zip_with (λ n f, n + Z.b2z (f op)) (counters s) counter_tests;
  se_connected : is_connected s' = default (is_connected s) (connects op);
  se_resyncing : resyncing s' = default (resyncing s) (resyncs op);
  se_generation : 0 ≤ book_generation s → 0 ≤ book_generation s' }.

Ltac solve_counters :=
  unfold counters, counter_tests; simpl; rewrite ?Z.add_0_r; done.
Ltac solve_effect :=
  constructor; unfold counters, counter_tests; simpl; rewrite ?Z.add_0_r; case_cmp;
  first [done|lia|repeat f_equal; lia].

Lemma mark_resyncing_effect key g reason r r' x :
  mark_resyncing key g reason r = (r', x) →
  only_stream key r r' ∧ stream_effect (OpResyncing g reason) (stream_of r key) (stream_of r' key).
Proof.
  unfold mark_resyncing, check_generation, requireM, liftM, mbind at 1, M_bind.
  destruct (Z.ltb_spec g 0) as [Hg|Hg]; simpl.
  - intros [= <- <-]. split; [reflexivity|]. solve_effect.
  - intros [Ho [= <- <-]]%on_state_effect. split; [done|]. solve_effect.
Qed.

(** A counter, then [mark_resyncing]. *)
Lemma count_then_resync key f g reason op r r' x :
  (_ ← on_state key (modifyM f); mark_resyncing key g reason) r = (r', x) →
  (∀ s, is_connected (f s) = is_connected s ∧ resyncing (f s) = resyncing s ∧
        book_generation (f s) = book_generation s ∧
        counters (f s) = zip_with (λ n t, n + Z.b2z (t op)) (counters s) counter_tests) →
  connects op = None → resyncs op = resyncs (OpResyncing g reason) →
  only_stream key r r' ∧ stream_effect op (stream_of r key) (stream_of r' key).
Proof.
  intros H Hf Hcon Hres. unfold mbind, M_bind in H.
  destruct (on_state key (modifyM f) r) as [r1 x1] eqn:E1.
  apply on_state_effect in E1 as [Ho [= Hs1 Hx1]]. subst x1.
  apply mark_resyncing_effect in H as [Ho2 [Hc Hcn Hr Hg]].
  split; [by etrans|]. rewrite <- Hs1 in Hc, Hcn, Hr, Hg.
  destruct (Hf (stream_of r key)) as (F1 & F2 & F3 & F4).
  constructor; rewrite ?Hcon, ?Hres, ?Hcn, ?Hr; try congruence.
  - rewrite Hc, F4. unfold counters, counter_tests. simpl. by rewrite !Z.add_0_r.
  - simpl. exact F1.
  - rewrite F3 in Hg. done.
Qed.

Lemma health_step_effect key op r r' x :
  health_step key op r = (r', x) →
  only_stream key r r' ∧ stream_effect op (stream_of r key) (stream_of r' key).
Proof.
  destruct op as [t|err|err| |e rc n skew oi| |g reason|g|g|g|err|b|ok err]; cbn [health_step].
  all: try (intros [Ho [= <- <-]]%on_state_effect; split; [done|];
            try destruct b; solve_effect).
  - unfold mark_connected. intros [Ho Hm]%on_state_effect. split; [done|].
    unfold aware_utc, as_utc in Hm. destruct (utc_offset t); injection Hm as <- <-; solve_effect.
  - unfold record_message. intros [Ho Hm]%on_state_effect. split; [done|].
    unfold requireM, liftM, mbind, M_bind in Hm.
    assert (message_ok e rc n = true ∨ stream_of r' key = stream_of r key ∧ message_ok e rc n = false)
      as Hcase.
    { unfold message_ok.
      destruct (aware_utc e), (aware_utc rc) as [rc'|], (aware_utc n) as [n'|];
        try (by injection Hm as <- <-; right).
      destruct (Z.leb_spec rc' n'); [by left|right]. split; [|done].
      destruct (Z.ltb_spec n' rc'); [by injection Hm|lia]. }
    destruct Hcase as [Hx|[-> Hx]]; [|constructor; simpl; rewrite ?Hx; try done; solve_counters].
    pose proof Hx as Hx'. unfold message_ok in Hx'.
    destruct (aware_utc e), (aware_utc rc) as [rc'|], (aware_utc n) as [n'|]; try done.
    destruct (Z.ltb_spec n' rc') as [|_]; [case_cmp; lia|]. injection Hm as <- <-.
    constructor; simpl; rewrite ?Hx; try done; solve_counters.
  - apply mark_resyncing_effect.
  - unfold record_sequence_gap. intros H. eapply count_then_resync; [exact H| |done|done].
    intros s. repeat split. unfold counters, counter_tests. simpl. by rewrite !Z.add_0_r.
  - unfold record_checksum_failure. intros H. eapply count_then_resync; [exact H| |done|done].
    intros s. repeat split. unfold counters, counter_tests. simpl. by rewrite !Z.add_0_r.
  - unfold mark_book_live, check_generation, requireM, liftM, mbind at 1, M_bind.
    destruct (Z.ltb_spec g 0) as [Hg|Hg]; simpl.
    + intros [= <- <-]. split; [reflexivity|]. solve_effect.
    + intros [Ho [= <- <-]]%on_state_effect. split; [done|]. solve_effect.
Qed.

(** ** Runs *)

Lemma ops_of_cons k op key ops :
  ops_of key ((k, op) :: ops) = if bool_decide (k = key) then op :: ops_of key ops else ops_of key ops.
Proof. unfold ops_of. simpl. by case_bool_decide. Qed.

Lemma zip_add_counted op ops cs :
  length cs = length counter_tests →
  zip_with (λ n f, n + counted f ops)
    (zip_with (λ n f, n + Z.b2z (f op)) cs counter_tests) counter_tests =
  zip_with (λ n f, n + counted f (op :: ops)) cs counter_tests.
Proof.
  generalize counter_tests. induction cs as [|c cs IH]; intros [|f fs]; simpl; try done.
  intros [= H]. f_equal; [|by apply IH].
  unfold counted. simpl. destruct (f op); simpl; lia.
Qed.

(** The state of a stream after a run, from its state before. *)
Lemma health_run_stream key ops r :
  let s := stream_of r key in
  let s' := stream_of (health_run ops r).1 key in
  counters s' = zip_with (λ n f, n + counted f (ops_of key ops)) (counters s) counter_tests ∧
  is_connected s' = last_decision connects (is_connected s) (ops_of key ops) ∧
  resyncing s' = last_decision resyncs (resyncing s) (ops_of key ops) ∧
  (0 ≤ book_generation s → 0 ≤ book_generation s') ∧
  same_config r (health_run ops r).1.
Proof.
  revert r. induction ops as [|[k op] ops IH]; intros r; cbn zeta.
  { simpl. refine (conj _ (conj _ (conj _ (conj _ _)))); try done. unfold counters, counted, counter_tests. simpl. by rewrite !Z.add_0_r. }
  simpl. destruct (health_step k op r) as [r1 x] eqn:E.
  apply health_step_effect in E as [[Hcfg Hother] Heff].
  specialize (IH r1). cbn zeta in IH. destruct (health_run ops r1) as [r2 xs].
  cbn [fst snd] in *. destruct IH as (Hc & Hcn & Hr & Hg & Hcfg2). rewrite ops_of_cons.
  refine (conj _ (conj _ (conj _ (conj _ _)))); [| | | |by etrans];
    destruct (decide (k = key)) as [Hk|Hk];
    rewrite ?(bool_decide_eq_true_2 _ Hk), ?(bool_decide_eq_false_2 _ Hk).
  - subst k. rewrite Hc, (se_counters _ _ _ Heff). by apply zip_add_counted.
  - rewrite Hc. unfold stream_of. by rewrite Hother by congruence.
  - subst k. by rewrite Hcn, (se_connected _ _ _ Heff).
  - rewrite Hcn. unfold stream_of. by rewrite Hother by congruence.
  - subst k. by rewrite Hr, (se_resyncing _ _ _ Heff).
  - rewrite Hr. unfold stream_of. by rewrite Hother by congruence.
  - subst k. intros H. by apply Hg, (se_generation _ _ _ Heff).
  - unfold stream_of in *. by rewrite Hother in Hg by congruence.
Qed.

Lemma health_init_streams stale latency skew oi channels r :
  health_registry_init stale latency skew oi channels = Ok r → streams r = [].
Proof. unfold health_registry_init. intros H. inv_res. by subst. Qed.

(** After any sequence of calls on any streams, exceptions included, each
    counter of a stream is the number of calls of its kind made for that stream (a
    message counts when its timestamps were accepted), and the stream is connected
    and resyncing as the last call about it decided. *)
Theorem health_registry_counts stale latency skew oi channels r ops key :
  health_registry_init stale latency skew oi channels = Ok r →
  let s := stream_of (health_run ops r).1 key in
  counters s = map (λ f, counted f (ops_of key ops)) counter_tests ∧
  is_connected s = last_decision connects false (ops_of key ops) ∧
  resyncing s = last_decision resyncs false (ops_of key ops).
Proof.
  intros Hr%health_init_streams s. subst s. destruct (health_run_stream key ops r) as (Hc & Hcn & Hre & _).
  unfold stream_of at 2 in Hc. unfold stream_of at 2 in Hcn. unfold stream_of at 2 in Hre.
  rewrite Hr in Hc, Hcn, Hre. simpl in Hc, Hcn, Hre. rewrite Hc, Hcn, Hre. done.
Qed.

(** *** Isolation *)

(** A call that reads and writes one stream only. *)
Definition local_to {A} (key : StreamKey) (m : HM A) : Prop := ∀ r1 r2,
  dict_get key (streams r1) = dict_get key (streams r2) →
  (m r1).2 = (m r2).2 ∧
  dict_get key (streams (m r1).1) = dict_get key (streams (m r2).1).

Lemma local_on_state {A} key (m : SM A) : local_to key (on_state key m).
Proof.
  intros r1 r2 H. rewrite !on_state_run. unfold stream_of. rewrite H. simpl.
  by rewrite !dict_get_set_eq by apply pyeq_refl.
Qed.

Lemma local_bind {A B} key (m : HM A) (f : A → HM B) :
  local_to key m → (∀ a, local_to key (f a)) → local_to key (m ≫= f).
Proof.
  intros Hm Hf r1 r2 H. destruct (Hm r1 r2 H) as [H1 H2]. unfold mbind, M_bind.
  destruct (m r1) as [s1 [a|e]], (m r2) as [s2 [b|e']]; simpl in *; simplify_eq/=; [|done].
  by apply Hf.
Qed.

Lemma local_check key g : local_to key (check_generation g).
Proof. by intros r1 r2 H. Qed.

#[export] Hint Resolve local_on_state local_bind local_check : cvf.

Lemma health_step_local key op : local_to key (health_step key op).
Proof.
  destruct op; simpl; unfold mark_connected, mark_disconnected, record_reconnect,
    record_resubscribe, record_message, record_duplicate, record_parse_error, record_drop,
    record_rest_result, record_sequence_gap, record_checksum_failure, mark_book_live,
    mark_resyncing; auto 10 with cvf.
Qed.

Lemma health_run_local key ops : ∀ r1 r2,
  dict_get key (streams r1) = dict_get key (streams r2) →
  dict_get key (streams (health_run ops r1).1) =
    dict_get key (streams (health_run (List.filter (λ x, bool_decide (x.1 = key)) ops) r2).1) ∧
  map snd (List.filter (λ x, bool_decide (x.1.1 = key)) (combine ops (health_run ops r1).2)) =
    (health_run (List.filter (λ x, bool_decide (x.1 = key)) ops) r2).2.
Proof.
  induction ops as [|[k op] ops IH]; intros r1 r2 H; [done|]. simpl.
  destruct (health_step k op r1) as [r1' x1] eqn:E1.
  pose proof (health_step_effect _ _ _ _ _ E1) as [[_ Hother] _].
  case_bool_decide as Hk; simpl.
  - subst k. pose proof (health_step_local key op r1 r2 H) as [Hx Hs]. rewrite E1 in Hx, Hs.
    destruct (health_step key op r2) as [r2' x2]. simpl in Hx, Hs. subst x2.
    destruct (IH r1' r2' Hs) as [IH1 IH2].
    destruct (health_run ops r1') as [r1'' xs1], (health_run _ r2') as [r2'' xs2]. simpl in *.
    rewrite bool_decide_eq_true_2 by done. simpl. by rewrite IH2.
  - assert (dict_get key (streams r1') = dict_get key (streams r2)) as Hs
      by by rewrite Hother by congruence.
    destruct (IH r1' r2 Hs) as [IH1 IH2].
    destruct (health_run ops r1') as [r1'' xs1]. simpl in *.
    by rewrite bool_decide_eq_false_2 by done.
Qed.

(** Streams are isolated: the state a stream ends in, and the result of every
    call made for it, are those of a run in which only its own calls happen. *)
Theorem health_streams_isolated r ops key :
  let own := List.filter (λ x, bool_decide (x.1 = key)) ops in
  dict_get key (streams (health_run ops r).1) = dict_get key (streams (health_run own r).1) ∧
  map snd (List.filter (λ x, bool_decide (x.1.1 = key)) (combine ops (health_run ops r).2)) =
    (health_run own r).2.
Proof. by apply health_run_local. Qed.

(** ** Published health events *)

Lemma on_state_get key r :
  on_state key getM r =
    ({| r with streams := dict_set key (stream_of r key) (streams r) |}, Ok (stream_of r key)).
Proof. by rewrite on_state_run. Qed.

(** What the registry must hold for pydantic to accept the numbers of an event. *)
Definition stream_numbers_ok (s : StreamState) : bool :=
  forallb (Z.leb 0) (counters s ++ [book_generation s]).

Lemma stream_status_rules r key now s :
  (stream_status r key now s = DISCONNECTED ↔ is_connected s = false) ∧
  (is_connected s = true → (stream_status r key now s = RESYNCING ↔ resyncing s = true)).
Proof.
  unfold stream_status. destruct (is_connected s), (resyncing s); simpl;
    repeat match goal with |- context [if ?b then _ else _] => destruct b end; naive_solver.
Qed.

Lemma validate_health_cases h :
  blank (health_channel h) = false →
  forallb (Z.leb 0)
    [health_messages_received h; health_duplicate_events h; health_sequence_gaps h;
     health_checksum_failures h; health_reconnects h; health_resubscriptions h;
     health_parse_errors h; health_dropped_events h; health_backpressure_events h;
     health_book_generation h] = true →
  (health_status h = DISCONNECTED ↔ health_is_connected h = false) →
  (health_is_connected h = true → (health_status h = RESYNCING ↔ health_resyncing h = true)) →
  if health_is_connected h || negb (health_resyncing h) then validate_health h = Ok h
  else ∃ msg, validate_health h = Err (ValueError msg).
Proof.
  unfold validate_health. intros -> -> Hd Hr. simpl mbind.
  destruct (health_is_connected h), (health_resyncing h), (health_status h); simpl;
    try (by eexists); try done; intuition congruence.
Qed.

Lemma exchange_health_run key now t ref clock r :
  aware_utc now = Ok t →
  (validate_canonical_symbol (sk_symbol key) true = Ok (sk_symbol key)) →
  blank (sk_channel key) = false →
  let s := stream_of r key in
  stream_numbers_ok s = true →
  exists r', if is_connected s || negb (resyncing s) then
    ∃ h, exchange_health key now ref clock r = (r', Ok h) ∧ event_valid (EHealth h) ∧
      health_status h = stream_status r key t s
  else ∃ msg, exchange_health key now ref clock r = (r', Err (ValueError msg)).
Proof.
  intros Ht Hsym Hch s Hnum.
  exists {| r with streams := dict_set key s (streams r) |}.
  unfold exchange_health, health_snapshot. rewrite !Ht.
  unfold liftM, getM, mret, M_ret, mbind, M_bind. rewrite on_state_get. fold s.
  cbn -[mk_metadata validate_health stream_status utc].
  unfold mk_metadata. rewrite Hsym, !as_utc_utc. simpl mbind.
  rewrite orb_true_r. simpl mbind. cbn iota beta.
  match goal with |- context [validate_health ?h0] => set (h := h0) end.
  assert (health_status h = stream_status r key t s) as Hst by done.
  destruct (stream_status_rules r key t s) as [Hd Hr]. rewrite <- Hst in Hd, Hr.
  pose proof (validate_health_cases h Hch Hnum Hd Hr) as Hv. cbn [health_is_connected health_resyncing h] in Hv.
  destruct (is_connected s || negb (resyncing s)).
  - exists h. rewrite Hv. split; [done|]. split; [by apply validate_health_event in Hv as []|done].
  - destruct Hv as [msg ->]. by exists msg.
Qed.

(** C35. The collector's health event of a stream can be built exactly when the
    stream is not resyncing while disconnected; the event is then consistent and
    carries the status of the stream.  Otherwise pydantic refuses it and
    [exchange_health] raises: a [mark_resyncing] (a REST snapshot that must be
    retried, say) after [mark_disconnected] does that. *)
Theorem exchange_health_defined stale latency skew oi channels r ops e sym ch key now t ref clock :
  health_registry_init stale latency skew oi channels = Ok r →
  mk_stream_key e sym ch = Ok key → aware_utc now = Ok t →
  let own := ops_of key ops in
  let r1 := (health_run ops r).1 in
  if last_decision connects false own || negb (last_decision resyncs false own) then
    ∃ r2 h, exchange_health key now ref clock r1 = (r2, Ok h) ∧ event_valid (EHealth h) ∧
      health_status h = stream_status r1 key t (stream_of r1 key)
  else ∃ r2 msg, exchange_health key now ref clock r1 = (r2, Err (ValueError msg)).
Proof.
  intros Hr%health_init_streams Hk Ht own r1.
  destruct (health_run_stream key ops r) as (Hc & Hcn & Hre & Hg & _).
  unfold stream_of at 2 in Hc. unfold stream_of at 2 in Hcn. unfold stream_of at 2 in Hre.
  unfold stream_of at 1 in Hg. rewrite Hr in Hc, Hcn, Hre, Hg. cbn [dict_get default] in *.
  fold r1 in Hc, Hcn, Hre, Hg. cbn [is_connected resyncing fresh_stream book_generation] in *.
  unfold mk_stream_key in Hk. inv_res. subst key.
  subst own. rewrite <- Hcn, <- Hre.
  edestruct (exchange_health_run {| sk_exchange := e; sk_symbol := x; sk_channel := ch |} now t ref clock r1)
    as [r2 Hrun]; [done| | | |].
  - by eapply validated_symbol_fixed.
  - by apply negb_true_iff.
  - unfold stream_numbers_ok. rewrite Hc, forallb_app. apply andb_true_iff. split.
    + unfold counted, counter_tests. simpl. rewrite !andb_true_iff. rewrite !Z.leb_le. lia.
    + simpl. rewrite andb_true_r. apply Z.leb_le, Hg. done.
  - destruct (_ || _); [|by exists r2].
    exists r2. exact Hrun.
Qed.

Definition demo_registry : StreamHealthRegistry :=
  {| stale_after_ms := 2000; maximum_core_latency_ms := 500; clock_skew_warning_ms := 250;
     open_interest_stale_after_ms := 15000; channel_stale_after_ms := []; streams := [] |}.
Definition demo_key (ch : string) : StreamKey :=
  {| sk_exchange := BINANCE; sk_symbol := "BTC-USDT-PERP"; sk_channel := ch |}.
Definition demo_health_ops : list (StreamKey * health_op) :=
  [(demo_key "depth", OpConnected (utc 0)); (demo_key "trade", OpConnected (utc 0));
   (demo_key "depth", OpMessage (utc 10) (utc 20) (utc 30) None false);
   (demo_key "depth", OpMessage (utc 10) (utc 20) (utc 5) None false);
   (demo_key "depth", OpGap 1); (demo_key "depth", OpLive 2); (demo_key "depth", OpGap (-1));
   (demo_key "depth", OpDisconnected None); (demo_key "depth", OpResyncing 3 "retry")].

Lemma health_registry_counts_witness :
  let s := stream_of (health_run demo_health_ops demo_registry).1 (demo_key "depth") in
  counters s = [1; 0; 2; 0; 0; 0; 0; 0; 0] ∧ is_connected s = false ∧ resyncing s = true.
Proof.
  exact (health_registry_counts 2000 500 250 (Some 15000) [] demo_registry demo_health_ops
    (demo_key "depth") eq_refl).
Defined.

(** A snapshot retry after the connection was lost: no health event can be built. *)
Lemma exchange_health_defined_witness :
  ∃ r2 msg, exchange_health (demo_key "depth") (utc 40) None 40
    (health_run demo_health_ops demo_registry).1 = (r2, Err (ValueError msg)).
Proof.
  exact (exchange_health_defined 2000 500 250 (Some 15000) [] demo_registry demo_health_ops
    BINANCE "BTC-USDT-PERP" "depth" (demo_key "depth") (utc 40) 40 None 40
    eq_refl eq_refl eq_refl).
Defined.

Example exchange_health_connected :
  is_ok (exchange_health (demo_key "trade") (utc 40) None 40
    (health_run demo_health_ops demo_registry).1).2 = true.
Proof. by vm_compute. Qed.
