(* ===== verification/MarketState.v ===== *)
(** * The market state store

    [features/state.py: VenueSymbolState, MarketStateStore]: normalized events
    routed to one bounded state per venue and symbol.  The exchange-wide health
    window of a venue is one object shared by all its states: it stays in the store,
    and what reads it through a state takes it as an argument. *)

From S2P Require Import Prelude Effects PyDecimal PyTime Models Lineage Rolling BookState Health.

(** The fields of [FeaturesConfig] the store reads. *)
Record StoreConfig := {
  order_book_depth : Z;
  state_retention_seconds : Z;
  maximum_events_per_stream : Z;
  cfg_late_policy : LateEventPolicy;
  maximum_lateness_ms : Z;
  book_pending_updates : Z }.

(** The bounds pydantic enforces on them. *)
Definition store_config_valid (c : StoreConfig) : Prop :=
  1 ≤ order_book_depth c ≤ 20 ∧ 0 < state_retention_seconds c ∧
  0 < maximum_events_per_stream c ∧ 0 ≤ maximum_lateness_ms c ∧ 0 < book_pending_updates c.

Record StateUpdateResult := {
  sr_status : StateUpdateStatus;
  sr_exchange : Exchange;
  sr_symbol : string;
  sr_event_type : EventType;
  sr_reason : option string }.

(** The unions [Trade | BestBidAsk | MarkPrice] and
    [OrderBookSnapshot | OrderBookUpdate] are [event]s. *)
Record VenueSymbolState := {
  vs_exchange : Exchange;
  vs_symbol : string;
  trades : BoundedTimeWindow Trade;
  prices : BoundedTimeWindow event;
  open_interest : BoundedTimeWindow OpenInterest;
  funding_rates : BoundedTimeWindow FundingRate;
  mark_prices : BoundedTimeWindow MarkPrice;
  index_prices : BoundedTimeWindow IndexPrice;
  liquidations : BoundedTimeWindow LiquidationEvent;
  book_updates : BoundedTimeWindow event;
  book_changes : BoundedTimeWindow BookChange;
  book_history : BoundedTimeWindow FeatureBookCheckpoint;
  health_events : BoundedTimeWindow ExchangeHealth;
  order_book : FeatureBook;
  latest_by_type : list (EventType * event);
  health_by_channel : list (string * HealthStatus);
  accepted_events : Z;
  rejected_events : Z }.

Definition total_items (s : VenueSymbolState) : Z :=
  window_len (trades s) + window_len (prices s) + window_len (open_interest s) +
  window_len (funding_rates s) + window_len (mark_prices s) + window_len (index_prices s) +
  window_len (liquidations s) + window_len (book_updates s) + window_len (book_changes s) +
  window_len (book_history s) + window_len (health_events s).

(** ** Health of a decision *)

(** Tuples [(timestamp, scope, ordinal, item)] compared up to the ordinal, which no
    two items of a window share. *)
Definition candidate : Type := Z * Z * Z * TimedValue ExchangeHealth.
Definition candidate_leb (a b : candidate) : bool :=
  let '(t1, s1, o1, _) := a in let '(t2, s2, o2, _) := b in
  if t1 =? t2 then if s1 =? s2 then o1 <=? o2 else s1 <? s2 else t1 <? t2.

Definition candidates (scope : Z) (w : BoundedTimeWindow ExchangeHealth) (decision : Z)
    : list candidate :=
  map (λ x, (tv_timestamp x, scope, tv_ordinal x, x))
    (List.filter (λ x, tv_timestamp x <=? decision) (w_items w)).

Definition latest_channels (l : list (TimedValue ExchangeHealth))
    : list (string * TimedValue ExchangeHealth) :=
  foldl (λ d x, dict_set (health_channel (tv_value x)) x d) [] l.

Definition health_sources_at_or_before (exchange_health_events : BoundedTimeWindow ExchangeHealth)
    (s : VenueSymbolState) (boundary : datetime) : res (list (TimedValue ExchangeHealth)) :=
  decision ← as_utc "health decision boundary must be timezone-aware" boundary;
  let all := candidates 0 exchange_health_events decision ++ candidates 1 (health_events s) decision in
  let latest := latest_channels (map snd (py_sorted candidate_leb all)) in
  mapR (λ channel, match dict_get channel latest with Some x => Ok x | None => Err KeyError end)
    (py_sorted String.leb (map fst latest)).

(** ** The store *)

Record MarketStateStore := {
  st_config : StoreConfig;
  st_states : list ((Exchange * string) * VenueSymbolState);
  st_exchange_health_events : list (Exchange * BoundedTimeWindow ExchangeHealth) }.

(** [_window], [_health_window]. *)
Definition new_window {T} (c : StoreConfig) : res (BoundedTimeWindow T) :=
  window_init (seconds (state_retention_seconds c)) (maximum_events_per_stream c)
    (cfg_late_policy c) (milliseconds (maximum_lateness_ms c)).
(** [_book_event_window]. *)
Definition new_book_event_window (c : StoreConfig) : res (BoundedTimeWindow event) :=
  window_init (seconds (state_retention_seconds c)) (maximum_events_per_stream c) DROP 0.
(** [_book_history_window]. *)
Definition new_book_history_window (c : StoreConfig) : res (BoundedTimeWindow FeatureBookCheckpoint) :=
  window_init (seconds (state_retention_seconds c)) (maximum_events_per_stream c) INSERT
    (seconds (state_retention_seconds c)).

Definition store_init (c : StoreConfig) : res MarketStateStore :=
  b ← new_window c; o ← new_window c;
  Ok {| st_config := c; st_states := [];
        st_exchange_health_events := [(BINANCE, b); (OKX, o)] |}.

Definition create_state (c : StoreConfig) (e : Exchange) (sym : string) : res VenueSymbolState :=
  trades ← new_window c; prices ← new_window c; oi ← new_window c; funding ← new_window c;
  mark ← new_window c; index ← new_window c; liq ← new_window c;
  updates ← new_book_event_window c; changes ← new_window c;
  history ← new_book_history_window c; health ← new_window c;
  book ← feature_book_init (book_pending_updates c);
  Ok {| vs_exchange := e; vs_symbol := sym; trades := trades; prices := prices;
        open_interest := oi; funding_rates := funding; mark_prices := mark;
        index_prices := index; liquidations := liq; book_updates := updates;
        book_changes := changes; book_history := history; health_events := health;
        order_book := book; latest_by_type := []; health_by_channel := [];
        accepted_events := 0; rejected_events := 0 |}.

Definition window_status (s : AppendStatus) : StateUpdateStatus :=
  match s with
  | LATE_DROPPED => SU_LATE_DROPPED
  | EXPIRED_DROPPED => SU_EXPIRED_DROPPED
  | ACCEPTED => SU_ACCEPTED
  end.

(** ** Events of one state *)

Section ingest.
Context (digest : Z → event → string) (c : StoreConfig).

Abbreviation VM := (M VenueSymbolState).

(** [self._window_status(state.<window>.append(event_at, value))]. *)
Definition append_to {T} (get : VenueSymbolState → BoundedTimeWindow T)
    (set : BoundedTimeWindow T → VenueSymbolState → VenueSymbolState) (t : Z) (v : T)
    : VM StateUpdateStatus :=
  s ← getM;
  let '(w, status) := append_at (get s) t v in
  _ ← modifyM (set w);
  mret (window_status status).

Definition append_trade := append_to trades (λ w s, {| s with trades := w |}).
Definition append_price := append_to prices (λ w s, {| s with prices := w |}).
Definition append_open_interest := append_to open_interest (λ w s, {| s with open_interest := w |}).
Definition append_funding := append_to funding_rates (λ w s, {| s with funding_rates := w |}).
Definition append_mark := append_to mark_prices (λ w s, {| s with mark_prices := w |}).
Definition append_index := append_to index_prices (λ w s, {| s with index_prices := w |}).
Definition append_liquidation := append_to liquidations (λ w s, {| s with liquidations := w |}).
Definition append_book_update := append_to book_updates (λ w s, {| s with book_updates := w |}).
Definition append_book_change := append_to book_changes (λ w s, {| s with book_changes := w |}).
Definition append_history := append_to book_history (λ w s, {| s with book_history := w |}).
Definition append_health := append_to health_events (λ w s, {| s with health_events := w |}).

Definition on_book {A} (m : M FeatureBook A) : VM A :=
  zoomM order_book (λ b s, {| s with order_book := b |}) m.

Definition update_result (e : event) (status : StateUpdateStatus) (reason : option string)
    : StateUpdateResult :=
  {| sr_status := status; sr_exchange := exchange (event_meta e);
     sr_symbol := symbol (event_meta e); sr_event_type := event_type e; sr_reason := reason |}.

Definition reject : VM unit :=
  modifyM (λ s, {| s with rejected_events := rejected_events s + 1 |}).

(** The start of both book branches: the admissibility test, the book's own
    handler, and the two windows cleared when the generation changed. *)
Definition book_handler (t : Z) (apply : M FeatureBook StateUpdateStatus)
    : VM (StateUpdateStatus + StateUpdateStatus) :=
  s ← getM;
  let admissible := window_status (admissibility_at (book_updates s) t) in
  if negb (bool_decide (admissible = SU_ACCEPTED)) then mret (inl admissible)
  else
    let previous_generation := fb_generation (order_book s) in
    status ← on_book apply;
    s ← getM;
    _ ← (if negb (fb_generation (order_book s) =? previous_generation) then
           modifyM (λ s, {| s with book_updates := window_clear (book_updates s);
                                   book_changes := window_clear (book_changes s) |})
         else mret tt);
    mret (inr status).

(** The branch of an event: the early return of an inadmissible book event, or the
    status with the book change. *)
Definition dispatch (e : event)
    : VM (StateUpdateStatus + StateUpdateStatus * option BookChange) :=
  let t := exchange_timestamp (event_meta e) in
  let plain (m : VM StateUpdateStatus) := status ← m; mret (inr (status, None)) in
  match e with
  | EBookSnapshot snapshot =>
    handled ← book_handler t (apply_snapshot digest snapshot);
    match handled with
    | inl status => mret (inl status)
    | inr SU_ACCEPTED =>
      _ ← modifyM (λ s, {| s with book_updates := window_clear (book_updates s) |});
      plain (append_book_update t e)
    | inr status => mret (inr (status, None))
    end
  | EBookUpdate update =>
    handled ← book_handler t (apply_book_update digest update);
    match handled with
    | inl status => mret (inl status)
    | inr SU_ACCEPTED =>
      status ← append_book_update t e;
      s ← getM;
      match fb_last_change (order_book s), bool_decide (status = SU_ACCEPTED) with
      | Some change, true =>
        status ← append_book_change t change;
        mret (inr (status, Some change))
      | _, _ => mret (inr (status, None))
      end
    | inr status => mret (inr (status, None))
    end
  | ETrade trade =>
    plain (status ← append_trade t trade;
           if bool_decide (status = SU_ACCEPTED) then append_price t e else mret status)
  | EBestBidAsk _ => plain (append_price t e)
  | EOpenInterest x => plain (append_open_interest t x)
  | EFundingRate x => plain (append_funding t x)
  | EMarkPrice x =>
    plain (status ← append_mark t x;
           if bool_decide (status = SU_ACCEPTED) then append_price t e else mret status)
  | EIndexPrice x => plain (append_index t x)
  | ELiquidation x => plain (append_liquidation t x)
  | EHealth _ => mret (inr (SU_ACCEPTED, None))
  end.

Definition is_book_event (e : event) : bool :=
  match e with EBookSnapshot _ | EBookUpdate _ => true | _ => false end.

Definition stale (status : StateUpdateStatus) : bool :=
  match status with SU_STALE_GENERATION | SU_STALE_SEQUENCE => true | _ => false end.
Definition dropped (status : StateUpdateStatus) : bool :=
  match status with SU_LATE_DROPPED | SU_EXPIRED_DROPPED => true | _ => false end.

(** The checkpoint every handled book event leaves in the history. *)
Definition record_history (e : event) (status : StateUpdateStatus) (change : option BookChange)
    : VM StateUpdateStatus :=
  s ← getM;
  view ← liftM (feature_view (order_book_depth c) (order_book s));
  history_status ← append_history (exchange_timestamp (event_meta e))
    {| cp_view := view;
       cp_source_event := if dropped status then None else Some e;
       cp_change := if bool_decide (status = SU_ACCEPTED) then change else None |};
  mret (if bool_decide (status = SU_ACCEPTED) then history_status else status).

(** [ingest] of an event that is not a health event, on its state. *)
Definition ingest_event (e : event) : VM StateUpdateResult :=
  handled ← dispatch e;
  match handled with
  | inl status =>
    _ ← reject;
    mret (update_result e status
      (Some "order-book event is outside the admissible event-time bound"%string))
  | inr (status, change) =>
    if stale status then
      _ ← reject;
      mret (update_result e status
        (Some (if bool_decide (status = SU_STALE_GENERATION) then "order-book generation is stale"
               else "order-book sequence does not advance current state")%string))
    else
      status ← (if is_book_event e then record_history e status change else mret status);
      _ ← (if bool_decide (status = SU_ACCEPTED) then
             modifyM (λ s, {| s with
               accepted_events := accepted_events s + 1;
               latest_by_type :=
                 if is_book_event e then latest_by_type s
                 else dict_set (event_type e) e (latest_by_type s) |})
           else reject);
      s ← getM;
      mret (update_result e status
        (if bool_decide (status = SU_ACCEPTED) then None else fb_last_error (order_book s)))
  end.
End ingest.

(** ** Operations of the store *)

Abbreviation StoreM := (M MarketStateStore).

Definition concrete (e : Exchange) : bool := bool_decide (e = BINANCE) || bool_decide (e = OKX).

(** The state of a key: the one stored, or a new one. *)
Definition current_state (st : MarketStateStore) (key : Exchange * string) : res VenueSymbolState :=
  match dict_get key (st_states st) with
  | Some s => Ok s
  | None => create_state (st_config st) key.1 key.2
  end.

(** [state = self.state(exchange, symbol)], which creates the state of a new key, then
    what the method does with [state]. *)
Definition with_state {A} (e : Exchange) (sym : string) (m : M VenueSymbolState A) : StoreM A :=
  _ ← requireM (concrete e)
        (ValueError "feature market state requires a concrete exchange");
  st ← getM;
  s ← liftM (current_state st (e, sym));
  zoomM (λ _, s) (λ s' st, {| st with st_states := dict_set (e, sym) s' (st_states st) |}) m.

Definition store_states (st : MarketStateStore) : list VenueSymbolState := map snd (st_states st).

Definition zsum (l : list Z) : Z := foldr Z.add 0 l.

Definition retained_items (st : MarketStateStore) : Z :=
  zsum (map total_items (store_states st)) +
  zsum (map (λ x, window_len x.2) (st_exchange_health_events st)).

Definition set_channel (channel : string) (status : HealthStatus) (s : VenueSymbolState)
    : VenueSymbolState :=
  {| s with health_by_channel := dict_set channel status (health_by_channel s) |}.

Definition set_channel_of (e : Exchange) (channel : string) (status : HealthStatus)
    (s : VenueSymbolState) : VenueSymbolState :=
  if bool_decide (vs_exchange s = e) then set_channel channel status s else s.

(** [for state in self._states.values(): if state.exchange is exchange: ...]. *)
Definition set_channel_everywhere (e : Exchange) (channel : string) (status : HealthStatus)
    (st : MarketStateStore) : MarketStateStore :=
  {| st with st_states :=
       map (λ x, (x.1, set_channel_of e channel status x.2)) (st_states st) |}.

Definition update_health (h : ExchangeHealth) : StoreM StateUpdateStatus :=
  let e := exchange (health_meta h) in
  let event_at := exchange_timestamp (health_meta h) in
  st ← getM;
  match dict_get e (st_exchange_health_events st) with
  | None => raiseM (ValueError "feature health requires a concrete market-data exchange")
  | Some w =>
    if bool_decide (symbol (health_meta h) = "*"%string) then
      let '(w, status) := append_at w event_at h in
      _ ← modifyM (λ st, {| st with st_exchange_health_events :=
            dict_set e w (st_exchange_health_events st) |});
      if bool_decide (window_status status = SU_ACCEPTED) then
        _ ← modifyM (set_channel_everywhere e (health_channel h) (health_status h));
        mret (window_status status)
      else mret (window_status status)
    else
      with_state e (symbol (health_meta h))
        (status ← append_health event_at h;
         _ ← (if bool_decide (status = SU_ACCEPTED) then
                modifyM (set_channel (health_channel h) (health_status h))
              else mret tt);
         mret status)
  end.

Definition update_stream_health (h : StreamHealthSnapshot) : StoreM unit :=
  let key := shs_key h in
  if bool_decide (sk_symbol key = "*"%string) then
    modifyM (set_channel_everywhere (sk_exchange key) (sk_channel key) (shs_status h))
  else
    with_state (sk_exchange key) (sk_symbol key)
      (modifyM (set_channel (sk_channel key) (shs_status h))).

Definition ingest (digest : Z → event → string) (e : event) : StoreM StateUpdateResult :=
  match e with
  | EHealth h =>
    status ← update_health h;
    mret (update_result e status None)
  | _ =>
    st ← getM;
    with_state (exchange (event_meta e)) (symbol (event_meta e))
      (ingest_event digest (st_config st) e)
  end.

(** ** Invariant *)

(** A window of the store: it holds what its history of appends says, within the
    configured number of items. *)
Record store_window {T} (c : StoreConfig) (w : BoundedTimeWindow T) : Prop := {
  sw_history : ∃ h, window_refines w h;
  sw_maximum : maximum_items w = maximum_events_per_stream c }.

Record state_inv (c : StoreConfig) (key : Exchange * string) (s : VenueSymbolState) : Prop := {
  si_key : (vs_exchange s, vs_symbol s) = key;
  si_trades : store_window c (trades s);
  si_prices : store_window c (prices s);
  si_open_interest : store_window c (open_interest s);
  si_funding : store_window c (funding_rates s);
  si_marks : store_window c (mark_prices s);
  si_indexes : store_window c (index_prices s);
  si_liquidations : store_window c (liquidations s);
  si_updates : store_window c (book_updates s);
  si_changes : store_window c (book_changes s);
  si_history : store_window c (book_history s);
  si_health : store_window c (health_events s);
  si_book : fb_inv (order_book s) ∧ fb_capacity (order_book s) = book_pending_updates c }.

Lemma window_init_store {T} c ret maxi policy late (w : BoundedTimeWindow T) :
  window_init ret maxi policy late = Ok w → maxi = maximum_events_per_stream c → store_window c w.
Proof. intros (Hr & _ & Hm & _)%window_init_refines E. split; [by eexists|congruence]. Qed.

Lemma append_store {T} c (w : BoundedTimeWindow T) t v w' x :
  store_window c w → append_at w t v = (w', x) → store_window c w'.
Proof.
  intros [[h Hh] Hm] E. pose proof (window_step_refines w h (OpAppend t v) Hh) as Hs. simpl in Hs.
  rewrite E in Hs. destruct (spec_status _ _ _ _ _); simpl in Hs;
    destruct Hs as (_ & Hr & _ & _ & Hm' & _); (split; [by eexists|congruence]).
Qed.

Lemma clear_store {T} c (w : BoundedTimeWindow T) : store_window c w → store_window c (window_clear w).
Proof.
  intros [[h Hh] Hm]. pose proof (window_step_refines w h OpClear Hh) as Hs. simpl in Hs.
  destruct Hs as (_ & Hr & _ & _ & Hm' & _). split; [by eexists|done].
Qed.

Lemma store_window_len {T} c (w : BoundedTimeWindow T) :
  store_window c w → 0 ≤ window_len w ≤ maximum_events_per_stream c.
Proof.
  intros [[h [? ? ? ? Hi ?]] Hm]. unfold window_len. rewrite Hi. unfold window_contents.
  rewrite lastn_length. lia.
Qed.

Lemma window_init_ok {T} ret maxi policy late :
  0 < ret → 1 ≤ maxi → 0 ≤ late → ∃ w : BoundedTimeWindow T, window_init ret maxi policy late = Ok w.
Proof.
  intros. unfold window_init. destruct (Z.leb_spec ret 0), (Z.ltb_spec maxi 1), (Z.ltb_spec late 0);
    try lia. by eexists.
Qed.

Section windows.
Context (c : StoreConfig) (Hc : store_config_valid c).

Lemma new_window_ok T : ∃ w : BoundedTimeWindow T, new_window c = Ok w ∧ store_window c w.
Proof using Hc.
  destruct Hc as (_ & ? & ? & ? & _).
  destruct (window_init_ok (T := T) (seconds (state_retention_seconds c))
    (maximum_events_per_stream c) (cfg_late_policy c) (milliseconds (maximum_lateness_ms c)))
    as [w Hw]; [unfold seconds, milliseconds; lia..|].
  exists w. split; [done|]. by eapply window_init_store.
Qed.

Lemma create_state_ok e sym : ∃ s, create_state c e sym = Ok s ∧ state_inv c (e, sym) s ∧
  accepted_events s = 0 ∧ rejected_events s = 0.
Proof using Hc.
  pose proof Hc as (_ & Hret & Hmax & _ & Hpend).
  assert (∀ T policy late, 0 ≤ late → ∃ w : BoundedTimeWindow T,
    window_init (seconds (state_retention_seconds c)) (maximum_events_per_stream c) policy late = Ok w ∧
    store_window c w) as Hinit.
  { intros T policy late Hl. destruct (window_init_ok (T := T) (seconds (state_retention_seconds c))
      (maximum_events_per_stream c) policy late) as [w Hw]; [unfold seconds; lia..|].
    exists w. split; [done|]. by eapply window_init_store. }
  unfold create_state, new_book_event_window, new_book_history_window.
  repeat match goal with
  | |- context [@new_window ?T c] =>
    let w := fresh "w" in let E := fresh "E" in let H := fresh "Hw" in
    destruct (new_window_ok T) as (w & E & H); rewrite E; clear E; simpl
  end.
  destruct (Hinit event DROP 0) as (wu & -> & Hwu); [lia|]. simpl.
  destruct (Hinit FeatureBookCheckpoint INSERT (seconds (state_retention_seconds c)))
    as (wh & -> & Hwh); [unfold seconds; lia|]. simpl.
  destruct (feature_book_init (book_pending_updates c)) as [b|] eqn:Eb.
  2: { unfold feature_book_init in Eb. case_cmp; try done; lia. }
  apply feature_book_init_inv in Eb as [Hb Hcap].
  simpl. eexists. split; [reflexivity|]. split; [|done]. by constructor.
Qed.
End windows.

(** ** An event on its state *)

(** What the branches of an event leave to its end. *)
Definition keeps_counts (s s' : VenueSymbolState) : Prop :=
  accepted_events s' = accepted_events s ∧ rejected_events s' = rejected_events s.

Section events.
Context (digest : Z → event → string) (digest_hex : ∀ ts e, hex_text (digest ts e)).
Context (c : StoreConfig) (Hc : store_config_valid c) (key : Exchange * string).
Implicit Types (s : VenueSymbolState).

Definition branch_post s0 s : Prop := state_inv c key s ∧ keeps_counts s0 s.

Lemma wp_append_to {T} get set t (v : T) Q s :
  (∀ w x, append_at (get s) t v = (w, x) → Q (window_status x) (set w s)) →
  wpM (append_to get set t v) Q s.
Proof.
  intros HQ. unfold append_to. repeat wp_step. destruct (append_at (get s) t v) as [w x].
  repeat wp_step. by apply HQ.
Qed.

Ltac append_tac :=
  intros [Hi Hk]; apply wp_append_to; intros w x E; split; [|exact Hk];
  destruct Hi; constructor; simpl; try done;
  (eapply append_store; [|exact E]; done).

Lemma wp_append_trade t v s0 s : branch_post s0 s → wpM (append_trade t v) (λ _, branch_post s0) s.
Proof. append_tac. Qed.
Lemma wp_append_price t v s0 s : branch_post s0 s → wpM (append_price t v) (λ _, branch_post s0) s.
Proof. append_tac. Qed.
Lemma wp_append_oi t v s0 s : branch_post s0 s → wpM (append_open_interest t v) (λ _, branch_post s0) s.
Proof. append_tac. Qed.
Lemma wp_append_funding t v s0 s : branch_post s0 s → wpM (append_funding t v) (λ _, branch_post s0) s.
Proof. append_tac. Qed.
Lemma wp_append_mark t v s0 s : branch_post s0 s → wpM (append_mark t v) (λ _, branch_post s0) s.
Proof. append_tac. Qed.
Lemma wp_append_index t v s0 s : branch_post s0 s → wpM (append_index t v) (λ _, branch_post s0) s.
Proof. append_tac. Qed.
Lemma wp_append_liquidation t v s0 s :
  branch_post s0 s → wpM (append_liquidation t v) (λ _, branch_post s0) s.
Proof. append_tac. Qed.
Lemma wp_append_update t v s0 s : branch_post s0 s → wpM (append_book_update t v) (λ _, branch_post s0) s.
Proof. append_tac. Qed.
Lemma wp_append_change t v s0 s : branch_post s0 s → wpM (append_book_change t v) (λ _, branch_post s0) s.
Proof. append_tac. Qed.
Lemma wp_append_history t v s0 s : branch_post s0 s → wpM (append_history t v) (λ _, branch_post s0) s.
Proof. append_tac. Qed.
Lemma wp_append_health t v s0 s : branch_post s0 s → wpM (append_health t v) (λ _, branch_post s0) s.
Proof. append_tac. Qed.

Hint Resolve wp_append_trade wp_append_price wp_append_oi wp_append_funding wp_append_mark
  wp_append_index wp_append_liquidation wp_append_update wp_append_change wp_append_history
  wp_append_health : cvf.

Lemma wp_on_book {A} (m : M FeatureBook A) Q s :
  wpM m (λ a b, Q a {| s with order_book := b |}) (order_book s) → wpM (on_book m) Q s.
Proof. unfold wpM, on_book, zoomM. by destruct (m (order_book s)) as [b [a|e]]. Qed.

Lemma set_book_post s0 s b :
  branch_post s0 s → fb_post (order_book s) b → branch_post s0 {| s with order_book := b |}.
Proof.
  intros [Hi Hk] [Hb (Hcap & _)]. split; [|exact Hk]. destruct Hi as [].
  constructor; simpl; try done. destruct si_book0. split; [done|congruence].
Qed.

(** An early return never reports an accepted event. *)
Definition handled_post {A} s0 (r : StateUpdateStatus + A) s : Prop :=
  branch_post s0 s ∧ match r with inl status => status ≠ SU_ACCEPTED | inr _ => True end.

Lemma wp_book_handler t m s0 s :
  branch_post s0 s → wpM m (λ _, fb_post (order_book s)) (order_book s) →
  wpM (book_handler t m) (handled_post s0) s.
Proof using Type.
  intros Hs Hm. unfold book_handler. repeat wp_step.
  apply wp_if; intros Hadm; [wp_step; split; [done|by apply negb_true_iff, bool_decide_eq_false in Hadm]|].
  wp_step. apply wp_on_book. eapply wp_mono; [exact Hm|]. intros x b Hb.
  pose proof (set_book_post _ _ _ Hs Hb) as Hs1. repeat wp_step.
  apply wp_if; intros _; repeat wp_step; (split; [|done]); [|done].
  destruct Hs1 as [Hi Hk]. split; [|exact Hk]. destruct Hi; constructor; simpl in *; try done;
    by apply clear_store.
Qed.

Lemma wp_handled {A} (m : M VenueSymbolState A) (f : A → StateUpdateStatus + StateUpdateStatus * option BookChange) s0 s :
  wpM m (λ _, branch_post s0) s → (∀ a, is_Some (match f a with inr x => Some x | inl _ => None end)) →
  wpM (x ← m; mret (f x)) (handled_post s0) s.
Proof using Type.
  intros Hm Hf. wp_step. eapply wp_mono; [exact Hm|]. intros a s1 Hs1. wp_step.
  split; [done|]. specialize (Hf a). destruct (f a); [by destruct Hf|done].
Qed.

Lemma wp_then_price status t e s0 s :
  branch_post s0 s →
  wpM (if bool_decide (status = SU_ACCEPTED) then append_price t e else mret status)
    (λ _, branch_post s0) s.
Proof using Type. intros Hs. apply wp_if; intros _; [auto with cvf|by wp_step]. Qed.

Lemma wp_dispatch e s0 s :
  event_valid e → branch_post s0 s → wpM (dispatch digest e) (handled_post s0) s.
Proof using digest_hex.
  intros Hv Hs. pose proof Hs as [Hi _]. destruct (si_book _ _ _ Hi) as [Hb _].
  destruct e as [x|x|x|x|x|x|x|x|x|x]; cbn [dispatch]; cbn zeta;
    try (apply wp_handled; [solve [auto with cvf]|by eexists]).
  - apply wp_handled; [|by eexists]. wp_step. eapply wp_mono; [by apply wp_append_trade|].
    intros status s1 Hs1. by apply wp_then_price.
  - wp_step. eapply wp_mono.
    { apply wp_book_handler; [exact Hs|]. eapply wp_mono; [by apply wp_apply_snapshot|done]. }
    intros [status|[]] s1 [Hs1 Hx]; try (by wp_step; split).
    wp_step. wp_step. apply wp_handled; [|by eexists]. apply wp_append_update.
    destruct Hs1 as [Hi1 Hk1]. split; [|exact Hk1]. destruct Hi1; constructor; simpl in *; try done;
      by apply clear_store.
  - wp_step. eapply wp_mono.
    { apply wp_book_handler; [exact Hs|]. eapply wp_mono; [by apply wp_apply_book_update|done]. }
    intros [status|[]] s1 [Hs1 Hx]; try (by wp_step; split).
    wp_step. eapply wp_mono; [by apply wp_append_update|]. intros status s2 Hs2. wp_step. wp_step.
    destruct (fb_last_change (order_book s2)); [|by wp_step].
    case_bool_decide; [|by wp_step]. by apply wp_handled; [apply wp_append_change|eexists].
  - apply wp_handled; [|by eexists]. wp_step. eapply wp_mono; [by apply wp_append_mark|].
    intros status s1 Hs1. by apply wp_then_price.
  - by wp_step.
Qed.

Lemma feature_view_ok b depth : fb_inv b → 1 ≤ depth → ∃ v, feature_view depth b = Ok v.
Proof using Type.
  intros Hb Hd. unfold feature_view. destruct (Z.ltb_spec depth 1); [lia|]. simpl.
  destruct (side_view true (fb_bids b) depth (fi_bids _ Hb)) as (Eb & _).
  destruct (side_view false (fb_asks b) depth (fi_asks _ Hb)) as (Ea & _).
  cbn zeta iota in *. rewrite Eb. simpl. rewrite Ea. by eexists.
Qed.

Lemma wp_record_history e status change s0 s :
  branch_post s0 s → wpM (record_history c e status change) (λ _, branch_post s0) s.
Proof using Hc.
  intros Hs. pose proof Hs as [Hi _]. destruct (si_book _ _ _ Hi) as [Hb _]. destruct Hc as [[Hd _] _].
  unfold record_history. wp_step. wp_step. wp_step.
  destruct (feature_view_ok _ _ Hb Hd) as [v Hv]. eapply wp_lift; [exact Hv|].
  wp_step. eapply wp_mono; [by apply wp_append_history|]. intros x s1 Hs1. by wp_step.
Qed.

(** One event: no exception, the invariant, and exactly one counter moves. *)
Definition event_post s0 (r : StateUpdateResult) s : Prop :=
  state_inv c key s ∧
  accepted_events s = accepted_events s0 + Z.b2z (bool_decide (sr_status r = SU_ACCEPTED)) ∧
  rejected_events s = rejected_events s0 + Z.b2z (negb (bool_decide (sr_status r = SU_ACCEPTED))).

Lemma wp_reject e status reason s0 s :
  branch_post s0 s → status ≠ SU_ACCEPTED →
  wpM (_ ← reject; mret (update_result e status reason)) (event_post s0) s.
Proof using Type.
  intros [Hi [Ha Hr]] Hst. unfold reject. repeat wp_step. unfold event_post. cbn [sr_status update_result].
  rewrite bool_decide_eq_false_2 by done. simpl. split; [by destruct Hi; constructor|lia].
Qed.

Lemma wp_ingest_event e s :
  event_valid e → state_inv c key s → wpM (ingest_event digest c e) (event_post s) s.
Proof using digest_hex Hc.
  intros Hv Hi. unfold ingest_event. wp_step.
  eapply wp_mono; [by apply (wp_dispatch e s)|]. intros [status|[status change]] s1 [Hs1 Hx].
  { by apply wp_reject. }
  apply wp_if; intros Hst; [by apply wp_reject; [|intros ->]|]. wp_step.
  eapply (wp_mono _ (λ _, branch_post s)).
  { apply wp_if; intros _; [by apply wp_record_history|by wp_step]. }
  intros status2 s2 Hs2. wp_step. case_bool_decide as Hacc.
  - destruct Hs2 as [Hi2 [Ha Hr]]. repeat wp_step. unfold event_post. cbn [sr_status update_result].
    rewrite bool_decide_eq_true_2 by done. simpl. split; [by destruct Hi2; constructor|lia].
  - destruct Hs2 as [Hi2 [Ha Hr]]. unfold reject. repeat wp_step. unfold event_post. cbn [sr_status update_result].
    rewrite bool_decide_eq_false_2 by done. simpl. split; [by destruct Hi2; constructor|lia].
Qed.
End events.

(** ** The store *)

Definition event_key (e : event) : Exchange * string :=
  (exchange (event_meta e), symbol (event_meta e)).
Definition is_health (e : event) : bool := match e with EHealth _ => true | _ => false end.

Definition count_at (f : VenueSymbolState → Z) (st : MarketStateStore) (key : Exchange * string) : Z :=
  match dict_get key (st_states st) with Some s => f s | None => 0 end.

Record store_inv (c : StoreConfig) (st : MarketStateStore) : Prop := {
  sti_config : st_config st = c;
  sti_states : ∀ k s, (k, s) ∈ st_states st → state_inv c k s;
  sti_keys : dict_wf (st_states st);
  sti_health : ∃ b o, st_exchange_health_events st = [(BINANCE, b); (OKX, o)] ∧
    store_window c b ∧ store_window c o }.

Lemma store_init_ok c : store_config_valid c → ∃ st, store_init c = Ok st ∧ store_inv c st ∧
  st_states st = [].
Proof.
  intros Hc. unfold store_init. destruct (new_window_ok c Hc ExchangeHealth) as (w & -> & Hw). simpl.
  eexists. split; [done|]. split; [|done]. constructor; simpl; try done.
  - by intros ?? ?%elem_of_nil.
  - by exists w, w.
Qed.

Lemma store_init_inv c st : store_config_valid c → store_init c = Ok st → store_inv c st ∧ st_states st = [].
Proof. intros Hc H. destruct (store_init_ok c Hc) as (st' & H' & Hi). rewrite H in H'. by injection H' as ->. Qed.

Section store.
Context (digest : Z → event → string) (digest_hex : ∀ ts e, hex_text (digest ts e)).
Context (c : StoreConfig) (Hc : store_config_valid c).
Implicit Types (st : MarketStateStore).

Lemma current_state_ok st key :
  store_inv c st → ∃ s, current_state st key = Ok s ∧ state_inv c key s ∧
    accepted_events s = count_at accepted_events st key ∧
    rejected_events s = count_at rejected_events st key.
Proof using Hc.
  intros [Hcf Hs _ _]. unfold current_state, count_at.
  destruct (dict_get key (st_states st)) as [s|] eqn:E.
  - exists s. split; [done|]. split; [|done].
    apply dict_get_elem in E as (k & Hin & Hk). apply bool_decide_eq_true in Hk as ->. by apply Hs.
  - rewrite Hcf. destruct key as [e sym]. by apply create_state_ok.
Qed.

Definition set_state (key : Exchange * string) s st : MarketStateStore :=
  {| st with st_states := dict_set key s (st_states st) |}.

Lemma count_at_set f key s st k :
  count_at f (set_state key s st) k = if bool_decide (k = key) then f s else count_at f st k.
Proof using Type.
  unfold count_at, set_state. simpl. case_bool_decide as Hk.
  - by rewrite dict_get_set_eq by by apply bool_decide_eq_true.
  - by rewrite dict_get_set_ne by by apply bool_decide_eq_false.
Qed.

Lemma set_state_inv key s st : store_inv c st → state_inv c key s → store_inv c (set_state key s st).
Proof using Type.
  intros [Hcf Hs Hk Hh] Hi. constructor; simpl; try done; [|by apply dict_wf_set].
  intros k s' [?|(-> & <-%bool_decide_eq_true)]%dict_set_elem_key; [by apply Hs|done].
Qed.

(** What a run on the state of [key] does to the store. *)
Lemma wp_with_state {A} e sym (m : M VenueSymbolState A) (R : VenueSymbolState → A → VenueSymbolState → Prop) st :
  store_inv c st → concrete e = true →
  (∀ s, state_inv c (e, sym) s → wpM m (λ a s', state_inv c (e, sym) s' ∧ R s a s') s) →
  wpM (with_state e sym m)
    (λ a st', store_inv c st' ∧ ∃ s s', accepted_events s = count_at accepted_events st (e, sym) ∧
       rejected_events s = count_at rejected_events st (e, sym) ∧ R s a s' ∧
       st' = set_state (e, sym) s' st) st.
Proof using Hc.
  intros Hst He Hm. unfold with_state. wp_step. apply wp_require; [done|]. wp_step. wp_step. wp_step.
  destruct (current_state_ok st (e, sym) Hst) as (s & Hs & Hi & Ha & Hr).
  eapply wp_lift; [exact Hs|]. specialize (Hm s Hi). unfold wpM, zoomM in *.
  destruct (m s) as [s' [a|ex]]; [|done]. destruct Hm as [Hi' HR].
  split; [by apply (set_state_inv (e, sym) s' st)|]. by exists s, s'.
Qed.

(** The counters of every state. *)
Definition same_counts st st' : Prop := ∀ key,
  count_at accepted_events st' key = count_at accepted_events st key ∧
  count_at rejected_events st' key = count_at rejected_events st key.

Lemma set_channel_everywhere_inv e ch status st :
  store_inv c st → store_inv c (set_channel_everywhere e ch status st) ∧
  same_counts st (set_channel_everywhere e ch status st).
Proof using Type.
  intros [Hcf Hs Hk Hh]. split.
  - constructor; simpl; try done.
    + intros k s ([k0 s0] & [= -> ->] & Hin)%list_elem_of_fmap. simpl. specialize (Hs _ _ Hin).
      unfold set_channel_of. case_bool_decide; [|done]. by destruct Hs; constructor.
    + by apply (dict_wf_map (set_channel_of e ch status)).
  - intros key. unfold count_at, set_channel_everywhere. simpl.
    rewrite !(dict_get_map (set_channel_of e ch status)).
    destruct (dict_get key (st_states st)) as [s|]; simpl; [|done].
    unfold set_channel_of. by case_bool_decide.
Qed.

Lemma concrete_window st e : store_inv c st → concrete e = true →
  ∃ w, dict_get e (st_exchange_health_events st) = Some w ∧ store_window c w.
Proof using Type.
  intros [_ _ _ (b & o & -> & Hb & Ho)] He. destruct e; try done; simpl; eauto.
Qed.

Lemma wp_update_health h st :
  store_inv c st → concrete (exchange (health_meta h)) = true →
  wpM (update_health h) (λ _ st', store_inv c st' ∧ same_counts st st') st.
Proof using Hc.
  intros Hst He. destruct (concrete_window st _ Hst He) as (w & Hw & Hwin).
  unfold update_health. wp_step. wp_step. cbn beta. rewrite Hw. apply wp_if; intros _.
  - destruct (append_at w _ h) as [w' x] eqn:E. wp_step. wp_step.
    set (st1 := {| st_config := _; st_states := st_states st |}).
    assert (store_inv c st1) as Hst1.
    { destruct Hst as [Hcf Hs Hk (b & o & Hex & Hb & Ho)]. constructor; simpl; try done.
      pose proof (append_store _ _ _ _ _ _ Hwin E) as Hw'. rewrite Hex in *.
      destruct (exchange (health_meta h)); try done; simpl; eauto. }
    apply wp_if; intros _; repeat wp_step; [|by split].
    by apply (set_channel_everywhere_inv _ _ _ st1).
  - eapply wp_mono.
    { apply (wp_with_state _ _ _ (λ s _ s', keeps_counts s s') _ Hst He). intros s Hi.
      wp_step. eapply wp_mono; [apply (wp_append_health c _ _ h s s (conj Hi (conj eq_refl eq_refl)))|].
      intros status s1 [Hi1 Hk1]. wp_step. apply wp_if; intros _; repeat wp_step; [|by split].
      split; [by destruct Hi1; constructor|done]. }
    intros x st' (Hst' & s & s' & Ha & Hr & [Ha' Hr'] & ->). split; [done|]. intros k.
    rewrite !count_at_set. case_bool_decide; [subst k; by rewrite Ha', Hr'|done].
Qed.

Definition event_ok (e : event) : Prop :=
  event_valid e ∧ concrete (exchange (event_meta e)) = true.

(** One ingest: the counters of the event's key move, and no others. *)
Lemma wp_ingest e st :
  event_ok e → store_inv c st →
  wpM (ingest digest e)
    (λ r st', store_inv c st' ∧ ∀ key,
       let mine := negb (is_health e) && bool_decide (event_key e = key) in
       count_at accepted_events st' key = count_at accepted_events st key +
         Z.b2z (mine && bool_decide (sr_status r = SU_ACCEPTED)) ∧
       count_at rejected_events st' key = count_at rejected_events st key +
         Z.b2z (mine && negb (bool_decide (sr_status r = SU_ACCEPTED)))) st.
Proof using digest_hex Hc.
  intros [Hv He] Hst.
  destruct (is_health e) eqn:Eh.
  { destruct e as [| | | | | | | | |h]; try done. simpl. wp_step.
    eapply wp_mono; [by apply wp_update_health|]. intros x st' [Hst' Hsame]. wp_step.
    split; [done|]. intros key. destruct (Hsame key) as [-> ->]. simpl. lia. }
  assert (ingest digest e = (st ← getM; with_state (exchange (event_meta e)) (symbol (event_meta e))
    (ingest_event digest (st_config st) e))) as -> by by destruct e.
  wp_step. wp_step. cbn beta. rewrite (sti_config _ _ Hst). eapply wp_mono.
  { apply (wp_with_state _ _ _ (λ s r s', event_post c (event_key e) s r s') _ Hst He).
    intros s Hi. eapply wp_mono; [by apply (wp_ingest_event digest digest_hex c Hc)|].
    intros r s' Hp. split; [by destruct Hp|done]. }
  intros r st' (Hst' & s & s' & Ha & Hr & (_ & Ha' & Hr') & ->). split; [done|]. intros key. cbn zeta.
  rewrite !count_at_set. rewrite (bool_decide_ext (key = _) (event_key e = key)) by done.
  destruct (decide (event_key e = key)) as [<-|Hk].
  - rewrite bool_decide_eq_true_2 by done. simpl. unfold event_key. lia.
  - rewrite bool_decide_eq_false_2 by done. simpl. lia.
Qed.
End store.

(** ** Runs *)

(** The results of the market-data events of [key] that were accepted, or not. *)
Definition tally (key : Exchange * string) (ok : bool) (xs : list event)
    (ys : list StateUpdateResult) : Z :=
  Z.of_nat (length (List.filter
    (λ x, negb (is_health x.1) && bool_decide (event_key x.1 = key) &&
          Bool.eqb (bool_decide (sr_status x.2 = SU_ACCEPTED)) ok) (zip xs ys))).

Lemma tally_snoc key ok xs ys e r :
  length ys = length xs →
  tally key ok (xs ++ [e]) (ys ++ [r]) = tally key ok xs ys +
    Z.b2z (negb (is_health e) && bool_decide (event_key e = key) &&
           Bool.eqb (bool_decide (sr_status r = SU_ACCEPTED)) ok).
Proof.
  intros Hlen. unfold tally. rewrite zip_with_app by done. rewrite List.filter_app, length_app. simpl.
  destruct (_ && _); simpl; lia.
Qed.

Lemma store_run_trace digest c events st :
  (∀ ts e, hex_text (digest ts e)) → store_config_valid c → store_inv c st → st_states st = [] →
  Forall event_ok events →
  wpM (mapMs (ingest digest) events)
    (λ rs st', store_inv c st' ∧ length rs = length events ∧ ∀ key,
       count_at accepted_events st' key = tally key true events rs ∧
       count_at rejected_events st' key = tally key false events rs) st.
Proof.
  intros Hd Hc Hst Hnil Hev. apply (wp_mapMs_trace _ (λ xs rs st', store_inv c st' ∧
    length rs = length xs ∧ ∀ key,
       count_at accepted_events st' key = tally key true xs rs ∧
       count_at rejected_events st' key = tally key false xs rs) event_ok); [|done|].
  - intros e xs rs s He (Hs & Hlen & Hcount). eapply wp_mono; [by apply (wp_ingest digest Hd c Hc)|].
    intros r s' [Hs' Hcount']. split; [done|]. split; [rewrite !length_app; simpl; lia|].
    intros key. destruct (Hcount key) as [Ha Hr], (Hcount' key) as [-> ->].
    rewrite !tally_snoc, Ha, Hr by done.
    by destruct (bool_decide (sr_status r = SU_ACCEPTED)), (bool_decide (event_key e = key)), (is_health e).
  - split; [done|]. split; [done|]. intros key. unfold count_at. by rewrite Hnil.
Qed.

(** C4. Ingesting any sequence of valid events of concrete exchanges never raises,
    and accounts for every event: for each venue and symbol the state's accepted and
    rejected counters are the numbers of its market-data events that were answered
    ACCEPTED and anything else; health events count in neither. *)
Theorem ingest_accounts_every_event digest c st events :
  (∀ ts e, hex_text (digest ts e)) → store_config_valid c → store_init c = Ok st →
  Forall event_ok events →
  ∃ st' rs, mapMs (ingest digest) events st = (st', Ok rs) ∧ length rs = length events ∧
    ∀ key, count_at accepted_events st' key = tally key true events rs ∧
           count_at rejected_events st' key = tally key false events rs.
Proof.
  intros Hd Hc Hinit Hev. destruct (store_init_inv c st Hc Hinit) as [Hst Hnil].
  destruct (wp_run _ _ _ (store_run_trace digest c events st Hd Hc Hst Hnil Hev))
    as (st' & rs & Hrun & _ & Hlen & Hcount). by exists st', rs.
Qed.

(** Memory is bounded: after any sequence of valid events the retained items
    are at most [maximum_events_per_stream] for each of the eleven windows of a
    state and for the two exchange-wide ones, and every state's order book buffers
    at most [book_pending_updates] updates. *)
Theorem store_is_bounded digest c st events :
  (∀ ts e, hex_text (digest ts e)) → store_config_valid c → store_init c = Ok st →
  Forall event_ok events →
  ∃ st' rs, mapMs (ingest digest) events st = (st', Ok rs) ∧
    retained_items st' ≤
      (11 * Z.of_nat (length (store_states st')) + 2) * maximum_events_per_stream c ∧
    Forall (λ s, Z.of_nat (length (fb_pending (order_book s))) ≤ book_pending_updates c)
      (store_states st').
Proof.
  intros Hd Hc Hinit Hev. destruct (store_init_inv c st Hc Hinit) as [Hst Hnil].
  destruct (wp_run _ _ _ (store_run_trace digest c events st Hd Hc Hst Hnil Hev))
    as (st' & rs & Hrun & Hinv & _). exists st', rs. split; [done|].
  destruct Hinv as [_ Hs _ (b & o & Hex & Hb & Ho)].
  assert (∀ s, s ∈ store_states st' → ∃ k, state_inv c k s) as Hall.
  { intros s ([k s'] & -> & Hin)%list_elem_of_fmap. exists k. by apply Hs. }
  split.
  - unfold retained_items. rewrite Hex. simpl. pose proof (store_window_len c b Hb).
    pose proof (store_window_len c o Ho).
    assert (zsum (map total_items (store_states st')) ≤
      11 * Z.of_nat (length (store_states st')) * maximum_events_per_stream c); [|lia].
    clear Hs. induction (store_states st') as [|s l IH]; simpl; [lia|].
    destruct (Hall s ltac:(left)) as [k Hk].
    assert (total_items s ≤ 11 * maximum_events_per_stream c).
    { destruct Hk. unfold total_items.
      repeat match goal with H : store_window _ _ |- _ => apply store_window_len in H end. lia. }
    specialize (IH (λ s' H', Hall s' (list_elem_of_further _ _ _ H'))). lia.
  - apply Forall_forall. intros s (k & [])%Hall. destruct si_book0 as [[] <-]. lia.
Qed.

(** ** Isolation of keys *)

Definition without_health (s : VenueSymbolState) : VenueSymbolState :=
  {| s with health_by_channel := [] |}.

Definition is_wildcard_health (e : event) : bool :=
  is_health e && bool_decide (symbol (event_meta e) = "*"%string).

Lemma with_state_other {A} e sym (m : M VenueSymbolState A) st st' r k :
  with_state e sym m st = (st', r) → k ≠ (e, sym) →
  dict_get k (st_states st') = dict_get k (st_states st).
Proof.
  unfold with_state, requireM, liftM, getM, zoomM, mbind, M_bind. intros H Hk.
  destruct (require (concrete e) _) as [u|]; [|by injection H as <- <-].
  destruct (current_state st (e, sym)) as [s|]; [|by injection H as <- <-].
  destruct (m s) as [s' x]. injection H as <- <-. simpl.
  apply dict_get_set_ne. by apply bool_decide_eq_false.
Qed.

Lemma set_channel_everywhere_get e ch status st k :
  without_health <$> dict_get k (st_states (set_channel_everywhere e ch status st)) =
  without_health <$> dict_get k (st_states st).
Proof.
  unfold set_channel_everywhere. simpl. rewrite (dict_get_map (set_channel_of e ch status)).
  destruct (dict_get k (st_states st)) as [s|]; simpl; [|done].
  unfold set_channel_of. by case_bool_decide.
Qed.

(** An event touches the state of its own venue and symbol only, whatever it is
    answered and even when it raises; the exception is an exchange-wide health event,
    which changes nothing of the other states but their health by channel. *)
Theorem ingest_isolates_keys digest e st st' r k :
  ingest digest e st = (st', r) → k ≠ event_key e →
  (is_wildcard_health e = false → dict_get k (st_states st') = dict_get k (st_states st)) ∧
  without_health <$> dict_get k (st_states st') = without_health <$> dict_get k (st_states st).
Proof.
  intros H Hk.
  assert (dict_get k (st_states st') = dict_get k (st_states st) →
    (is_wildcard_health e = false → dict_get k (st_states st') = dict_get k (st_states st)) ∧
    without_health <$> dict_get k (st_states st') = without_health <$> dict_get k (st_states st))
    as Hsame by by intros ->.
  destruct e; try (apply Hsame; eapply with_state_other; [exact H|done]).
  unfold ingest, update_health in H. unfold mbind, M_bind, getM, raiseM in H.
  destruct (dict_get _ (st_exchange_health_events st)) as [w|]; [|apply Hsame; by injection H as <- <-].
  case_bool_decide as Hsym.
  - split; [unfold is_wildcard_health; by rewrite bool_decide_eq_true_2|]. destruct (append_at w _ e) as [w' x]. unfold modifyM in H.
    case_bool_decide; injection H as <- <-; [|done].
    etrans; [apply set_channel_everywhere_get|done].
  - apply Hsame. destruct (with_state _ _ _ st) as [st1 [x|ex]] eqn:E; injection H as <- <-;
      by eapply with_state_other.
Qed.

(** ** Health at a decision *)

(** The health events known at [t], with the scope of their window. *)
Definition known_health (w : BoundedTimeWindow ExchangeHealth) (s : VenueSymbolState) (t scope : Z)
    (x : TimedValue ExchangeHealth) : Prop :=
  (scope = 0 ∧ x ∈ w_items w ∨ scope = 1 ∧ x ∈ w_items (health_events s)) ∧ tv_timestamp x ≤ t.

(** Event time, then the symbol's own events after the exchange-wide ones, then
    order of arrival. *)
Definition not_after (scope1 : Z) (x1 : TimedValue ExchangeHealth) (scope2 : Z)
    (x2 : TimedValue ExchangeHealth) : Prop :=
  tv_timestamp x1 < tv_timestamp x2 ∨
  tv_timestamp x1 = tv_timestamp x2 ∧
    (scope1 < scope2 ∨ scope1 = scope2 ∧ tv_ordinal x1 ≤ tv_ordinal x2).

Definition tv_channel (x : TimedValue ExchangeHealth) : string := health_channel (tv_value x).

Lemma candidates_elem scope w t a :
  a ∈ candidates scope w t ↔ ∃ x, a = (tv_timestamp x, scope, tv_ordinal x, x) ∧ x ∈ w_items w ∧
    tv_timestamp x ≤ t.
Proof.
  unfold candidates. rewrite list_elem_of_fmap. setoid_rewrite list_elem_of_In.
  setoid_rewrite List.filter_In. setoid_rewrite Z.leb_le. naive_solver.
Qed.

Lemma all_candidates w s t a :
  a ∈ candidates 0 w t ++ candidates 1 (health_events s) t ↔
  ∃ scope x, a = (tv_timestamp x, scope, tv_ordinal x, x) ∧ known_health w s t scope x.
Proof.
  rewrite elem_of_app, !candidates_elem. unfold known_health. split.
  - intros [(x & -> & ? & ?)|(x & -> & ? & ?)]; [exists 0, x|exists 1, x]; split; auto.
  - intros (scope & x & -> & [[[-> ?]|[-> ?]] ?]); [left|right]; by exists x.
Qed.

Lemma candidate_leb_not_after s1 x1 s2 x2 :
  candidate_leb (tv_timestamp x1, s1, tv_ordinal x1, x1) (tv_timestamp x2, s2, tv_ordinal x2, x2) = true →
  not_after s1 x1 s2 x2.
Proof. unfold candidate_leb, not_after. case_cmp; intros; case_cmp; try done; lia. Qed.

Lemma candidate_leb_total a b : candidate_leb a b = false → candidate_leb b a = true.
Proof.
  destruct a as [[[t1 s1] o1] x1], b as [[[t2 s2] o2] x2]. simpl. intros H.
  destruct (Z.eqb_spec t1 t2), (Z.eqb_spec s1 s2), (Z.eqb_spec t2 t1), (Z.eqb_spec s2 s1);
    try lia; rewrite ?Z.ltb_ge, ?Z.leb_gt in H; rewrite ?Z.ltb_lt, ?Z.leb_le; lia.
Qed.

Lemma candidate_leb_trans a b c :
  candidate_leb a b = true → candidate_leb b c = true → candidate_leb a c = true.
Proof.
  destruct a as [[[t1 s1] o1] x1], b as [[[t2 s2] o2] x2], c as [[[t3 s3] o3] x3]. simpl.
  destruct (Z.eqb_spec t1 t2), (Z.eqb_spec t2 t3), (Z.eqb_spec t1 t3), (Z.eqb_spec s1 s2),
    (Z.eqb_spec s2 s3), (Z.eqb_spec s1 s3); rewrite ?Z.ltb_lt, ?Z.leb_le; lia.
Qed.

(** The last event of each channel wins. *)
Lemma latest_channels_get l ch :
  dict_get ch (latest_channels l) = last (filter (λ x, tv_channel x = ch) l).
Proof.
  induction l as [|x l IH] using rev_ind; [done|].
  unfold latest_channels in *. rewrite foldl_app, filter_app, filter_cons, filter_nil. simpl.
  case_decide as Hx.
  - rewrite last_snoc. apply dict_get_set_eq. by apply bool_decide_eq_true.
  - rewrite app_nil_r, dict_get_set_ne; [done|]. by apply bool_decide_eq_false, not_eq_sym.
Qed.

Lemma latest_channels_wf l : dict_wf (latest_channels l).
Proof.
  induction l as [|x l IH] using rev_ind; [done|].
  unfold latest_channels in *. rewrite foldl_app. simpl. by apply dict_wf_set.
Qed.

Lemma dict_wf_NoDup {V} (d : list (string * V)) : dict_wf d → NoDup (map fst d).
Proof.
  induction d as [|[k v] d IH]; simpl; [constructor|]. intros [Hk Hwf]. constructor; [|auto].
  intros ([k' v'] & -> & Hin)%list_elem_of_fmap. rewrite dict_get_None_elem in Hk.
  specialize (Hk _ _ Hin). by rewrite pyeq_refl in Hk.
Qed.

Definition string_lt (a b : string) : Prop := String.leb a b = true ∧ a ≠ b.

Lemma sorted_strings_strict l : NoDup l → StronglySorted string_lt (py_sorted String.leb l).
Proof.
  intros Hnd. assert (StronglySorted (λ a b, String.leb a b = true) (py_sorted String.leb l)) as Hs.
  { apply py_sorted_sorted.
    - intros x y H. destruct (String.leb_total x y); congruence.
    - intros x y z Hxy Hyz. apply Is_true_eq_true.
      apply (transitivity (R := String.le) (y := y)); by apply Is_true_eq_left. }
  assert (NoDup (py_sorted String.leb l)) as Hnd' by by rewrite py_sorted_perm.
  induction Hs as [|x m Hs IH Hall]; [constructor|]. apply NoDup_cons in Hnd' as [Hx Hnd'].
  constructor; [auto|]. rewrite Forall_forall in *. intros y Hy. split; [by apply Hall|].
  by intros ->.
Qed.

Lemma mapR_lookup {V} (d : list (string * V)) K :
  (∀ k, k ∈ K → is_Some (dict_get k d)) →
  ∃ l, mapR (λ k, match dict_get k d with Some x => Ok x | None => Err KeyError end) K = Ok l ∧
    Forall2 (λ k x, dict_get k d = Some x) K l.
Proof.
  induction K as [|k K IH]; intros H; simpl; [exists []; split; [done|constructor]|].
  destruct (H k ltac:(left)) as [x Hx]. destruct IH as (l & Hl & HF); [intros; apply H; by right|].
  exists (x :: l). rewrite Hx. simpl. rewrite Hl. split; [done|by constructor].
Qed.

Lemma last_filter_max (L : list candidate) ch x :
  StronglySorted (λ a b, candidate_leb a b = true) L →
  last (filter (λ x, tv_channel x = ch) (map snd L)) = Some x →
  ∃ a, a ∈ L ∧ a.2 = x ∧ tv_channel x = ch ∧
    ∀ b, b ∈ L → tv_channel b.2 = ch → candidate_leb b a = true.
Proof.
  induction L as [|a L IH] using rev_ind; [done|]. intros (Hs & _ & Hlast)%StronglySorted_app_inv.
  rewrite map_app, filter_app. simpl. rewrite filter_cons, filter_nil. case_decide as Ha.
  - rewrite last_snoc. intros [= <-]. exists a. split; [by apply elem_of_app; right; left|].
    split; [done|]. split; [done|]. intros b [Hb|Hb]%elem_of_app Hch.
    + apply Hlast; [done|left].
    + apply list_elem_of_singleton in Hb as ->. destruct (candidate_leb a a) eqn:E; [done|].
      pose proof (candidate_leb_total _ _ E). congruence.
  - rewrite app_nil_r. intros Hl. destruct (IH Hs Hl) as (b & Hb & Hx & Hch & Hmax). exists b.
    split; [by apply elem_of_app; left|]. split; [done|]. split; [done|].
    intros b' [Hb'|Hb']%elem_of_app; [by apply Hmax|].
    by apply list_elem_of_singleton in Hb' as ->.
Qed.

Lemma health_sources_spec w s t :
  ∃ l, health_sources_at_or_before w s (utc t) = Ok l ∧
    StronglySorted string_lt (map tv_channel l) ∧
    (∀ scope x, known_health w s t scope x → tv_channel x ∈ map tv_channel l) ∧
    (∀ x, x ∈ l → ∃ scope, known_health w s t scope x ∧
       ∀ scope' y, known_health w s t scope' y → tv_channel y = tv_channel x →
         not_after scope' y scope x).
Proof.
  unfold health_sources_at_or_before. rewrite as_utc_utc. simpl mbind. cbv zeta.
  set (all := candidates 0 w t ++ candidates 1 (health_events s) t).
  pose proof (py_sorted_sorted candidate_leb candidate_leb_total candidate_leb_trans all) as HL.
  assert (∀ a, a ∈ py_sorted candidate_leb all ↔ a ∈ all) as Hperm by apply py_sorted_elem.
  set (L := py_sorted candidate_leb all) in *. set (d := latest_channels (map snd L)).
  assert (dict_wf d) as Hwf by apply latest_channels_wf.
  assert (∀ k, k ∈ map fst d ↔ is_Some (dict_get k d)) as Hkeys.
  { intros k. rewrite list_elem_of_fmap. split.
    - intros ([k' x] & -> & Hin). eexists. by eapply elem_dict_get.
    - intros [x (k' & Hin & Hk%bool_decide_eq_true)%dict_get_elem]. subst k'. by exists (k, x). }
  destruct (mapR_lookup d (py_sorted String.leb (map fst d))) as (l & Hl & HF).
  { intros k Hk%py_sorted_elem. by apply Hkeys. }
  exists l. split; [exact Hl|].
  assert (∀ k x, dict_get k d = Some x → tv_channel x = k) as Hch.
  { intros k x. unfold d. rewrite latest_channels_get.
    intros (a & _ & _ & Hc & _)%last_filter_max; [exact Hc|exact HL]. }
  assert (map tv_channel l = py_sorted String.leb (map fst d)) as ->.
  { clear -HF Hch. induction HF as [|k x K l Hk HF IH]; simpl; [done|]. by rewrite IH, (Hch k x). }
  split; [by apply sorted_strings_strict, dict_wf_NoDup|]. split.
  - intros scope x Hx. apply py_sorted_elem, Hkeys. unfold d. rewrite latest_channels_get.
    apply last_is_Some. intros Hnil.
    assert (x ∈ filter (λ y, tv_channel y = tv_channel x) (map snd L)) as Hin; [|by rewrite Hnil in Hin; apply elem_of_nil in Hin].
    apply list_elem_of_filter. split; [done|]. apply list_elem_of_fmap.
    exists (tv_timestamp x, scope, tv_ordinal x, x). split; [done|].
    apply Hperm, all_candidates. by exists scope, x.
  - intros x Hx. apply list_elem_of_lookup in Hx as [i Hi].
    destruct (Forall2_lookup_r _ _ _ _ _ HF Hi) as (k & _ & Hk).
    unfold d in Hk. rewrite latest_channels_get in Hk.
    apply last_filter_max in Hk as (a & Ha & <- & Hck & Hmax); [|exact HL].
    apply Hperm, all_candidates in Ha as (scope & y & -> & Hy). exists scope. split; [done|].
    simpl. intros scope' z Hz Hcz. apply candidate_leb_not_after.
    apply (Hmax (tv_timestamp z, scope', tv_ordinal z, z)); [|simpl in *; congruence].
    apply Hperm, all_candidates. by exists scope', z.
Qed.

(** The health of a decision has one event per channel, in order of channel:
    for every channel some health event is known of at the boundary, the last one by
    event time, with the symbol's own event after an exchange-wide one of the same
    time. *)
Theorem health_sources_latest w s t :
  ∃ l, health_sources_at_or_before w s (utc t) = Ok l ∧
    StronglySorted string_lt (map tv_channel l) ∧
    (∀ scope x, known_health w s t scope x → tv_channel x ∈ map tv_channel l) ∧
    (∀ x, x ∈ l → ∃ scope, known_health w s t scope x ∧
       ∀ scope' y, known_health w s t scope' y → tv_channel y = tv_channel x →
         not_after scope' y scope x).
Proof. apply health_sources_spec. Qed.

(** ** Demonstration *)

Definition demo_config : StoreConfig :=
  {| order_book_depth := 5; state_retention_seconds := 60; maximum_events_per_stream := 100;
     cfg_late_policy := DROP; maximum_lateness_ms := 250; book_pending_updates := 10 |}.
Definition demo_health_window : BoundedTimeWindow ExchangeHealth :=
  {| retention := 60000000; maximum_items := 100; late_event_policy := DROP;
     maximum_lateness := 250000; w_items := []; watermark := None; w_ordinal := 0; accepted := 0;
     late_dropped := 0; expired_dropped := 0; capacity_evictions := 0 |}.
Definition demo_store : MarketStateStore :=
  {| st_config := demo_config; st_states := [];
     st_exchange_health_events := [(BINANCE, demo_health_window); (OKX, demo_health_window)] |}.
Definition demo_trade (t : Z) : event :=
  ETrade {| trade_meta := {| example_meta with exchange_timestamp := t |}; trade_id := "1";
            trade_price := of_int 100; trade_quantity := of_int 2;
            trade_contract_quantity := None; aggressor_side := BUY |}.
Definition demo_wildcard : event :=
  EHealth {| health_meta := {| example_meta with symbol := "*"%string |}; health_channel := "trades";
     health_status := CONNECTED; health_is_connected := true; health_last_event_timestamp := None;
     health_last_latency_ms := None; health_average_latency_ms := None;
     health_maximum_latency_ms := None; health_last_normalization_latency_ms := None;
     health_clock_skew_ms := None; health_messages_received := 0; health_duplicate_events := 0;
     health_sequence_gaps := 0; health_checksum_failures := 0; health_reconnects := 0;
     health_resubscriptions := 0; health_parse_errors := 0; health_dropped_events := 0;
     health_backpressure_events := 0; health_sequence_gap_detected := false;
     health_resyncing := false; health_book_generation := 0; health_rest_healthy := true;
     health_open_interest_stale := false; health_last_error := None |}.
Definition demo_store_events : list event :=
  [EBookUpdate (demo_update 98); EBookSnapshot demo_snapshot; demo_trade 5; demo_trade 3; demo_wildcard].

Lemma demo_store_events_ok : Forall event_ok demo_store_events.
Proof.
  pose proof demo_events_valid as [Hu [Hs _]%Forall_cons]%Forall_cons.
  unfold demo_store_events. apply Forall_cons_2; [by split|]. apply Forall_cons_2; [by split|].
  repeat (apply Forall_cons_2; [by repeat split|]). apply Forall_nil_2.
Qed.

Lemma demo_config_valid : store_config_valid demo_config.
Proof. repeat split; done. Qed.

Lemma ingest_accounts_every_event_witness :
  ∃ st' rs, mapMs (ingest demo_digest) demo_store_events demo_store = (st', Ok rs) ∧ length rs = 5%nat ∧
    ∀ key, count_at accepted_events st' key = tally key true demo_store_events rs ∧
           count_at rejected_events st' key = tally key false demo_store_events rs.
Proof.
  exact (ingest_accounts_every_event demo_digest demo_config demo_store demo_store_events
    demo_digest_hex demo_config_valid eq_refl demo_store_events_ok).
Defined.

Lemma store_is_bounded_witness :
  ∃ st' rs, mapMs (ingest demo_digest) demo_store_events demo_store = (st', Ok rs) ∧
    retained_items st' ≤ (11 * Z.of_nat (length (store_states st')) + 2) * 100 ∧
    Forall (λ s, Z.of_nat (length (fb_pending (order_book s))) ≤ 10) (store_states st').
Proof.
  exact (store_is_bounded demo_digest demo_config demo_store demo_store_events
    demo_digest_hex demo_config_valid eq_refl demo_store_events_ok).
Defined.

(** The buffered update is answered BUFFERED, the late trade LATE_DROPPED; the
    snapshot replays the update. *)
Example demo_store_answers :
  let '(st, r) := mapMs (ingest demo_digest) demo_store_events demo_store in
  (map sr_status <$> r) =
    Ok [SU_BUFFERED_FOR_SNAPSHOT; SU_ACCEPTED; SU_ACCEPTED; SU_LATE_DROPPED; SU_ACCEPTED] ∧
  count_at accepted_events st (OKX, "BTC-USDT-PERP"%string) = 2 ∧
  count_at rejected_events st (OKX, "BTC-USDT-PERP"%string) = 2 ∧ retained_items st = 6.
Proof. vm_compute. by repeat split. Qed.

Definition demo_store_end : MarketStateStore :=
  (mapMs (ingest demo_digest) demo_store_events demo_store).1.

Lemma ingest_isolates_keys_witness :
  dict_get (OKX, "BTC-USDT-PERP"%string) (st_states (ingest demo_digest demo_wildcard demo_store_end).1) <> None ∧
  without_health <$> dict_get (OKX, "BTC-USDT-PERP"%string)
    (st_states (ingest demo_digest demo_wildcard demo_store_end).1) =
  without_health <$> dict_get (OKX, "BTC-USDT-PERP"%string) (st_states demo_store_end).
Proof.
  split; [vm_compute; discriminate|].
  apply (ingest_isolates_keys demo_digest demo_wildcard demo_store_end _
    (ingest demo_digest demo_wildcard demo_store_end).2 (OKX, "BTC-USDT-PERP"%string)).
  - apply surjective_pairing.
  - discriminate.
Defined.

Lemma demo_store_end_inv : store_inv demo_config demo_store_end.
Proof.
  destruct (store_init_inv demo_config demo_store demo_config_valid eq_refl) as [Hst Hnil].
  destruct (wp_run _ _ _ (store_run_trace demo_digest demo_config demo_store_events demo_store
    demo_digest_hex demo_config_valid Hst Hnil demo_store_events_ok)) as (st' & rs & Hrun & Hinv & _).
  unfold demo_store_end. by rewrite Hrun.
Qed.
