(* ===== verification/Availability.v ===== *)
(** * Warm-up and health gates

    [features/availability.py: evaluate_availability], and how the single-venue
    engine uses it with the order book as of the decision
    ([features/single_venue.py: _book_view_as_of, _availability_as_of]). *)

From S2P Require Import Prelude PyTime Models Lineage Rolling BookState MarketState.

Inductive FeatureUnavailableCode :=
| NOT_WARM | NO_TRADES | BOOK_UNSYNCHRONIZED | BOOK_GENERATION_WARMUP | OPEN_INTEREST_MISSING
| OPEN_INTEREST_STALE | HEALTH_BLOCKED | PIPELINE_BACKLOG | EVENT_GAP | TIME_ALIGNMENT
| MISSING_BINANCE_SNAPSHOT | MISSING_OKX_SNAPSHOT | FUTURE_BINANCE_SNAPSHOT
| FUTURE_OKX_SNAPSHOT | STALE_BINANCE_SNAPSHOT | STALE_OKX_SNAPSHOT | BINANCE_UNHEALTHY
| OKX_UNHEALTHY | BINANCE_NOT_WARM | OKX_NOT_WARM | FEATURE_INPUT_MISSING | ZERO_DENOMINATOR
| INSUFFICIENT_HISTORY | LEAD_LAG_INSUFFICIENT.
#[export] Instance FeatureUnavailableCode_eq_dec : EqDecision FeatureUnavailableCode.
Proof. solve_decision. Defined.

Record FeatureUnavailableReason := {
  reason_code : FeatureUnavailableCode;
  reason_detail : string;
  reason_channel : option string }.
#[export] Instance FeatureUnavailableReason_eq_dec : EqDecision FeatureUnavailableReason.
Proof. solve_decision. Defined.

Record FeatureAvailability := {
  is_warm : bool;
  is_healthy : bool;
  reasons : list FeatureUnavailableReason }.

Definition health_status_value (s : HealthStatus) : string :=
  match s with
  | CONNECTED => "CONNECTED" | DEGRADED => "DEGRADED" | STALE => "STALE"
  | RESYNCING => "RESYNCING" | DISCONNECTED => "DISCONNECTED"
  end.

Definition warm_codes : list FeatureUnavailableCode :=
  [NO_TRADES; BOOK_GENERATION_WARMUP; OPEN_INTEREST_MISSING].
Definition health_codes : list FeatureUnavailableCode :=
  [BOOK_UNSYNCHRONIZED; OPEN_INTEREST_STALE; HEALTH_BLOCKED; PIPELINE_BACKLOG].

(** [not any(reason.code in codes for reason in reasons)]. *)
Definition none_of (codes : list FeatureUnavailableCode) (l : list FeatureUnavailableReason) : bool :=
  negb (existsb (λ r, bool_decide (reason_code r ∈ codes)) l).

Definition reason (code : FeatureUnavailableCode) (detail : string) (channel : option string)
    : FeatureUnavailableReason :=
  {| reason_code := code; reason_detail := detail; reason_channel := channel |}.

(** [error or detail]. *)
Definition error_or (error : option string) (detail : string) : string :=
  match error with
  | Some e => if bool_decide (e = ""%string) then detail else e
  | None => detail
  end.

Definition no_snapshot : string := "local feature book has no valid snapshot".

Definition unsynchronized_reason (error : option string) : FeatureUnavailableReason :=
  reason BOOK_UNSYNCHRONIZED (error_or error no_snapshot) (Some "order_book"%string).
Definition warmup_reason : FeatureUnavailableReason :=
  reason BOOK_GENERATION_WARMUP "current book generation has not covered the required warmup"
    (Some "order_book"%string).

(** [{item.value.channel: item.value.status for item in health_sources}], or the
    live map while no health event was ever retained. *)
Definition health_statuses (w : BoundedTimeWindow ExchangeHealth) (s : VenueSymbolState)
    (sources : list (TimedValue ExchangeHealth)) : list (string * HealthStatus) :=
  if negb (window_len w =? 0) || negb (window_len (health_events s) =? 0) then
    foldl (λ d x, dict_set (health_channel (tv_value x)) (health_status (tv_value x)) d) [] sources
  else health_by_channel s.

Definition blocked_reason (s : VenueSymbolState) (x : string * HealthStatus)
    : FeatureUnavailableReason :=
  reason HEALTH_BLOCKED
    (exchange_value (vs_exchange s) +:+ " " +:+ x.1 +:+ " is " +:+ health_status_value x.2)
    (Some x.1).

Section availability.
(** The exchange-wide health window the state shares with its venue. *)
Context (w : BoundedTimeWindow ExchangeHealth).

Definition evaluate_availability (s : VenueSymbolState) (decision_timestamp : datetime)
    (warmup open_interest_stale_after : Z) (blocked : list HealthStatus) (backlogged : bool)
    : res FeatureAvailability :=
  decision ← as_utc "decision timestamp must be timezone-aware" decision_timestamp;
  _ ← require (negb (warmup <=? 0)) (ValueError "warmup must be positive");
  _ ← require (negb (open_interest_stale_after <=? 0))
        (ValueError "open_interest_stale_after must be positive");
  trade ← latest_at_or_before (trades s) (utc decision);
  book ← feature_view 1 (order_book s);
  oi ← latest_at_or_before (open_interest s) (utc decision);
  sources ← health_sources_at_or_before w s (utc decision);
  let rs :=
    (if is_none trade then [reason NO_TRADES "no accepted trades are available" None] else []) ++
    (if negb (fv_synchronized book) then [unsynchronized_reason (fv_last_error book)] else []) ++
    match earliest (book_updates s) with
    | Some x => if decision - warmup <? tv_timestamp x then [warmup_reason] else []
    | None => [warmup_reason]
    end ++
    match oi with
    | None => [reason OPEN_INTEREST_MISSING "open interest has not been observed"
                 (Some "open_interest"%string)]
    | Some x =>
      if open_interest_stale_after <? decision - exchange_timestamp (oi_meta (tv_value x)) then
        [reason OPEN_INTEREST_STALE "latest open interest exceeds the configured freshness limit"
           (Some "open_interest"%string)]
      else []
    end ++
    map (blocked_reason s)
      (List.filter (λ x, bool_decide (x.2 ∈ blocked)) (health_statuses w s sources)) ++
    (if backlogged then
       [reason PIPELINE_BACKLOG "feature consumer backlog makes the snapshot stale" None] else []) in
  Ok {| is_warm := none_of warm_codes rs; is_healthy := none_of health_codes rs; reasons := rs |}.

Definition missing_view : FeatureBookView :=
  {| fv_generation := 0; fv_epoch := 0; fv_sequence_id := None; fv_synchronized := false;
     fv_synchronized_since := None; fv_bids := []; fv_asks := []; fv_pending_updates := 0;
     fv_last_error := Some no_snapshot; fv_lineage := empty_lineage |}.

Definition book_view_as_of (s : VenueSymbolState) (depth : Z) (decision : datetime)
    : res FeatureBookView :=
  checkpoint ← latest_at_or_before (book_history s) decision;
  match checkpoint with
  | None => Ok missing_view
  | Some x =>
    let v := cp_view (tv_value x) in
    Ok {| v with fv_bids := take (Z.to_nat depth) (fv_bids v);
                 fv_asks := take (Z.to_nat depth) (fv_asks v) |}
  end.

(** [tuple(dict.fromkeys(l))]. *)
Definition unique {A} `{EqDecision A} (l : list A) : list A :=
  map fst (foldl (λ d x, dict_set x tt d) [] l).

Definition book_code (c : FeatureUnavailableCode) : bool :=
  bool_decide (c = BOOK_UNSYNCHRONIZED) || bool_decide (c = BOOK_GENERATION_WARMUP).

Definition availability_as_of (s : VenueSymbolState) (decision warmup open_interest_stale_after : Z)
    (blocked : list HealthStatus) (view : FeatureBookView) : res FeatureAvailability :=
  current ← evaluate_availability s (utc decision) warmup open_interest_stale_after blocked false;
  let rs := unique
    (List.filter (λ r, negb (book_code (reason_code r))) (reasons current) ++
     (if negb (fv_synchronized view) then [unsynchronized_reason (fv_last_error view)] else []) ++
     match fv_synchronized_since view with
     | Some since => if decision - warmup <? since then [warmup_reason] else []
     | None => [warmup_reason]
     end) in
  Ok {| is_warm := none_of warm_codes rs; is_healthy := none_of health_codes rs; reasons := rs |}.
End availability.

(** ** The gates as boolean conditions *)

Lemma none_of_spec codes l : none_of codes l = true ↔ ∀ r, r ∈ l → reason_code r ∉ codes.
Proof.
  unfold none_of. rewrite negb_true_iff. induction l as [|r l IH]; simpl.
  - split; [by intros _ ? ?%elem_of_nil|done].
  - rewrite orb_false_iff, bool_decide_eq_false, IH. split.
    + intros [Hr Hl] x [->|Hx]%elem_of_cons; auto.
    + intros H. split; [apply H; left|]. intros x Hx. apply H. by right.
Qed.

Lemma none_of_app codes l1 l2 : none_of codes (l1 ++ l2) = none_of codes l1 && none_of codes l2.
Proof. unfold none_of. by rewrite existsb_app, negb_orb. Qed.

Lemma unique_elem {A} `{EqDecision A} (l : list A) x : x ∈ unique l ↔ x ∈ l.
Proof.
  unfold unique. induction l as [|y l IH] using rev_ind; [by simpl|].
  rewrite foldl_app. simpl. rewrite elem_of_app, list_elem_of_singleton.
  set (d := foldl _ _ l) in *. rewrite list_elem_of_fmap. rewrite <- IH, list_elem_of_fmap. split.
  - intros ([k u] & -> & Hin). apply dict_set_elem_key in Hin as [Hin|[-> E]].
    + left. by exists (k, u).
    + right. symmetry. by apply bool_decide_eq_true in E.
  - assert (∀ k, is_Some (dict_get k (dict_set y tt d)) →
      ∃ y0, k = y0.1 ∧ y0 ∈ dict_set y tt d) as Hget.
    { intros k [u Hu]. apply dict_get_elem in Hu as (k' & Hin & E).
      apply bool_decide_eq_true in E. exists (k', u). by subst. }
    intros [([k u] & -> & Hin)| ->]; apply Hget.
    + destruct (decide (k = y)) as [->|Hne].
      * rewrite dict_get_set_eq; [done|by apply bool_decide_eq_true].
      * rewrite dict_get_set_ne by by apply bool_decide_eq_false. simpl.
        destruct (dict_get k d) as [u'|] eqn:E; [done|]. rewrite dict_get_None_elem in E.
        specialize (E _ _ Hin). by rewrite pyeq_refl in E.
    + rewrite dict_get_set_eq; [done|by apply bool_decide_eq_true].
Qed.

Lemma none_of_unique codes l : none_of codes (unique l) = none_of codes l.
Proof. apply eq_bool_prop_intro. rewrite !Is_true_true, !none_of_spec. by setoid_rewrite unique_elem. Qed.

(** The reasons of blocked channels. *)
Lemma blocked_parts w s (blocked : list HealthStatus) sources :
  let rs := map (blocked_reason s)
    (List.filter (λ x, bool_decide (x.2 ∈ blocked)) (health_statuses w s sources)) in
  List.filter (λ r, negb (book_code (reason_code r))) rs = rs ∧ none_of warm_codes rs = true ∧
  none_of health_codes rs =
    negb (existsb (λ x, bool_decide (x.2 ∈ blocked)) (health_statuses w s sources)).
Proof.
  intros rs. subst rs. induction (health_statuses w s sources) as [|[ch st] l IH]; [done|].
  destruct IH as (IH1 & IH2 & IH3). simpl. case_bool_decide; simpl; [|done].
  split; [by rewrite IH1|]. by split.
Qed.

Lemma availability_as_of_run w s c key t warmup limit blocked view :
  state_inv c key s → 0 < warmup → 0 < limit →
  ∃ sources a, health_sources_at_or_before w s (utc t) = Ok sources ∧
    availability_as_of w s t warmup limit blocked view = Ok a ∧
    is_warm a =
      negb (is_none (List.find (λ x, tv_timestamp x <=? t) (rev (w_items (trades s))))) &&
      negb (is_none (List.find (λ x, tv_timestamp x <=? t) (rev (w_items (open_interest s))))) &&
      match fv_synchronized_since view with Some x => negb (t - warmup <? x) | None => false end ∧
    is_healthy a =
      match List.find (λ x, tv_timestamp x <=? t) (rev (w_items (open_interest s))) with
      | Some x => negb (limit <? t - exchange_timestamp (oi_meta (tv_value x))) | None => true end &&
      negb (existsb (λ x, bool_decide (x.2 ∈ blocked)) (health_statuses w s sources)) &&
      fv_synchronized view.
Proof.
  intros Hs Hw Hl. destruct (health_sources_spec w s t) as (sources & Hsrc & _).
  destruct (feature_view_ok (order_book s) 1) as [v Hv]; [apply Hs|lia|].
  exists sources. unfold availability_as_of, evaluate_availability, latest_at_or_before, window_utc.
  rewrite ?as_utc_utc. simpl mbind. rewrite ?as_utc_utc. simpl mbind.
  destruct (Z.leb_spec warmup 0), (Z.leb_spec limit 0); try lia. simpl negb. simpl mbind.
  rewrite Hv, Hsrc. cbn [mbind res_bind].
  destruct (blocked_parts w s blocked sources) as (B1 & B2 & B3).
  eexists. split; [done|]. split; [reflexivity|]. cbn [is_warm is_healthy reasons].
  rewrite !none_of_unique. rewrite !List.filter_app, B1, !none_of_app, B2, B3.
  rewrite ?Z.sub_0_r.
  destruct (List.find _ (rev (w_items (trades s)))), (fv_synchronized v), (earliest (book_updates s)),
    (fv_synchronized view), (fv_synchronized_since view),
    (List.find _ (rev (w_items (open_interest s)))); simpl;
    repeat match goal with |- context [if ?x <? ?y then _ else _] => destruct (x <? y) end; simpl;
    rewrite ?andb_true_r, ?andb_false_r; done.
Qed.

(** ** The gates as statements about the events *)

Lemma find_some {T} (w : BoundedTimeWindow T) t :
  negb (is_none (List.find (λ x, tv_timestamp x <=? t) (rev (w_items w)))) = true ↔
  ∃ x, x ∈ w_items w ∧ tv_timestamp x ≤ t.
Proof.
  rewrite find_last_filter. destruct (last _) as [x|] eqn:E; simpl.
  - split; [intros _|done]. apply last_Some_elem_of, list_elem_of_filter in E as [H1 H2]. by exists x.
  - split; [done|]. intros (x & Hx & Ht). apply last_None in E.
    assert (x ∈ filter (λ x, tv_timestamp x ≤ t) (w_items w)) as Hin by by apply list_elem_of_filter.
    rewrite E in Hin. by apply elem_of_nil in Hin.
Qed.

(** The ordinals of a window's items are distinct. *)
Lemma window_ordinal_inj {T} c (w : BoundedTimeWindow T) x y :
  store_window c w → x ∈ w_items w → y ∈ w_items w → tv_ordinal x = tv_ordinal y → x = y.
Proof.
  intros [[h [_ _ _ _ Hi Hh]] _] Hx Hy Ho.
  assert (NoDup (tv_ordinal <$> w_items w)) as Hnd.
  { rewrite Hi. eapply sublist_NoDup; [apply (hw_nodup _ _ Hh)|]. apply fmap_sublist.
    eapply transitivity; [apply lastn_sublist|apply sublist_filter]. }
  apply list_elem_of_lookup in Hx as [i Hx], Hy as [j Hy].
  assert (i = j) as <-; [|congruence].
  eapply (NoDup_lookup _ _ _ (tv_ordinal x) Hnd); rewrite list_lookup_fmap.
  - by rewrite Hx.
  - by rewrite Hy, Ho.
Qed.

(** The health event that counts for its channel at [t]. *)
Definition newest_known (w : BoundedTimeWindow ExchangeHealth) (s : VenueSymbolState) (t scope : Z)
    (x : TimedValue ExchangeHealth) : Prop :=
  known_health w s t scope x ∧
  ∀ scope' y, known_health w s t scope' y → tv_channel y = tv_channel x → not_after scope' y scope x.

Lemma sources_newest w s c key t sources :
  store_window c w → state_inv c key s → health_sources_at_or_before w s (utc t) = Ok sources →
  ∀ x, x ∈ sources ↔ ∃ scope, newest_known w s t scope x.
Proof.
  intros Hw Hs Hsrc. destruct (health_sources_spec w s t) as (l & Hl & _ & Hall & Hmax).
  assert (l = sources) as -> by congruence. intros x. split; [apply Hmax|].
  intros (scope & Hk & Hnew). pose proof (Hall scope x Hk) as Hch.
  apply list_elem_of_fmap in Hch as (y & Hc & Hy). destruct (Hmax y Hy) as (scope' & Hky & Hnewy).
  pose proof (Hnew scope' y Hky (eq_sym Hc)) as H1. pose proof (Hnewy scope x Hk Hc) as H2.
  assert (scope = scope' ∧ tv_ordinal x = tv_ordinal y) as [<- Ho] by (unfold not_after in *; lia).
  assert (x = y) as ->; [|done]. pose proof (si_health _ _ _ Hs) as Hsh.
  destruct Hk as [[[-> Hx]|[-> Hx]] _], Hky as [[[? Hy']|[? Hy']] _]; try lia;
    [by apply (window_ordinal_inj c w)|by apply (window_ordinal_inj c (health_events s))].
Qed.

(** A dictionary filled from items with distinct keys is the list of the items. *)
Lemma dict_of_distinct {A V} (key : A → string) (val : A → V) l d :
  NoDup (map fst d ++ map key l) →
  foldl (λ d x, dict_set (key x) (val x) d) d l = d ++ map (λ x, (key x, val x)) l.
Proof.
  revert d. induction l as [|x l IH]; intros d Hnd; simpl; [by rewrite app_nil_r|].
  assert (dict_set (key x) (val x) d = d ++ [(key x, val x)]) as ->.
  { apply dict_set_snoc. apply dict_get_None_elem. intros k v Hin. apply bool_decide_eq_false.
    intros E. apply NoDup_app in Hnd as (_ & Hd & _). apply (Hd (key x)); [|left].
    apply list_elem_of_fmap. exists (k, v). by rewrite E. }
  rewrite IH; [by rewrite <- app_assoc|]. rewrite map_app, <- app_assoc. done.
Qed.

Lemma string_lt_NoDup l : StronglySorted string_lt l → NoDup l.
Proof.
  induction 1 as [|x l Hs IH Hall]; [constructor|]. constructor; [|done].
  intros Hx. rewrite Forall_forall in Hall. by destruct (Hall x Hx).
Qed.

Lemma no_blocked w s t (blocked : list HealthStatus) sources :
  health_sources_at_or_before w s (utc t) = Ok sources →
  negb (existsb (λ x, bool_decide (x.2 ∈ blocked)) (health_statuses w s sources)) = true ↔
  if negb (window_len w =? 0) || negb (window_len (health_events s) =? 0) then
    ∀ x, x ∈ sources → health_status (tv_value x) ∉ blocked
  else ∀ channel status, (channel, status) ∈ health_by_channel s → status ∉ blocked.
Proof.
  intros Hsrc. destruct (health_sources_spec w s t) as (l & Hl & Hsort & _).
  assert (l = sources) as -> by congruence.
  assert (∀ d : list (string * HealthStatus),
    negb (existsb (λ x, bool_decide (x.2 ∈ blocked)) d) = true ↔ ∀ x, x ∈ d → x.2 ∉ blocked) as Hex.
  { intros d. rewrite negb_true_iff. induction d as [|x d IH]; simpl.
    - split; [by intros _ ? ?%elem_of_nil|done].
    - rewrite orb_false_iff, bool_decide_eq_false, IH. split.
      + intros [H1 H2] y [->|Hy]%elem_of_cons; auto.
      + intros H. split; [apply H; left|]. intros y Hy. apply H. by right. }
  rewrite Hex. unfold health_statuses. destruct (_ || _).
  - rewrite (dict_of_distinct (λ x, health_channel (tv_value x)) (λ x, health_status (tv_value x)));
      [|by apply string_lt_NoDup]. simpl. split.
    + intros H x Hx. apply (H (health_channel (tv_value x), health_status (tv_value x))).
      apply list_elem_of_fmap. by exists x.
    + intros H x (y & -> & Hy)%list_elem_of_fmap. by apply H.
  - split; [intros H ch st Hin; by apply (H (ch, st))|intros H [ch st] Hin; by apply (H ch)].
Qed.

(** The engine's gates: a decision is warm exactly when a trade and an open
    interest are known by then and the book has been synchronized for the warm-up; it
    is healthy exactly when the book is synchronized, the newest known open interest (if
    any) is fresh, and no channel's newest known health event (before any was
    retained, no channel's live status) is blocked. *)
Theorem availability_gates w s c key t warmup limit blocked view :
  store_window c w → state_inv c key s → 0 < warmup → 0 < limit →
  ∃ a, availability_as_of w s t warmup limit blocked view = Ok a ∧
    (is_warm a = true ↔
       (∃ x, x ∈ w_items (trades s) ∧ tv_timestamp x ≤ t) ∧
       (∃ x, x ∈ w_items (open_interest s) ∧ tv_timestamp x ≤ t) ∧
       ∃ since, fv_synchronized_since view = Some since ∧ since ≤ t - warmup) ∧
    (is_healthy a = true ↔
       fv_synchronized view = true ∧
       (∀ x, last (filter (λ x, tv_timestamp x ≤ t) (w_items (open_interest s))) = Some x →
          t - exchange_timestamp (oi_meta (tv_value x)) ≤ limit) ∧
       if negb (window_len w =? 0) || negb (window_len (health_events s) =? 0) then
         ∀ scope x, newest_known w s t scope x → health_status (tv_value x) ∉ blocked
       else ∀ channel status, (channel, status) ∈ health_by_channel s → status ∉ blocked).
Proof.
  intros Hw Hs Hwarm Hlim.
  destruct (availability_as_of_run w s c key t warmup limit blocked view Hs Hwarm Hlim)
    as (sources & a & Hsrc & Ha & Ew & Eh).
  exists a. split; [done|]. rewrite Ew, Eh. split.
  - rewrite !andb_true_iff, !find_some. destruct (fv_synchronized_since view) as [since|].
    + rewrite negb_true_iff, Z.ltb_ge. split; [intros [[? ?] ?]; eauto|].
      intros (? & ? & ? & [= <-] & ?). auto.
    + split; [by intros [_ ?]|]. by intros (_ & _ & ? & ? & _).
  - rewrite !andb_true_iff, (no_blocked w s t blocked sources Hsrc), find_last_filter.
    assert ((∀ x, x ∈ sources → health_status (tv_value x) ∉ blocked) ↔
      (∀ scope x, newest_known w s t scope x → health_status (tv_value x) ∉ blocked)) as Hiff.
    { pose proof (sources_newest w s c key t sources Hw Hs Hsrc) as Hnew. split.
      - intros H scope x Hx. apply H, Hnew. by exists scope.
      - intros H x [scope Hx]%Hnew. by apply (H scope). }
    assert (∀ o : option (TimedValue OpenInterest),
      match o with Some x => negb (limit <? t - exchange_timestamp (oi_meta (tv_value x))) | None => true end = true ↔
      ∀ x, o = Some x → t - exchange_timestamp (oi_meta (tv_value x)) ≤ limit) as Hoi.
    { intros [x|]; [|by split]. rewrite negb_true_iff, Z.ltb_ge.
      split; [by intros ? ? [= <-]|auto]. }
    rewrite Hoi. destruct (_ || _); [rewrite Hiff|]; tauto.
Qed.

(** On the state the store's demonstration ends in: a trade, no open interest, a
    CONNECTED exchange-wide health event. *)
Lemma availability_gates_witness :
  ∃ w s a, current_state demo_store_end (OKX, "BTC-USDT-PERP"%string) = Ok s ∧
    availability_as_of w s 10 2 1000 [DISCONNECTED] missing_view = Ok a ∧
    (is_warm a = true ↔
       (∃ x, x ∈ w_items (trades s) ∧ tv_timestamp x ≤ 10) ∧
       (∃ x, x ∈ w_items (open_interest s) ∧ tv_timestamp x ≤ 10) ∧
       ∃ since, fv_synchronized_since missing_view = Some since ∧ since ≤ 10 - 2).
Proof.
  pose proof demo_store_end_inv as Hinv.
  destruct (concrete_window demo_config demo_store_end OKX Hinv eq_refl) as (w & _ & Hw).
  destruct (current_state_ok demo_config demo_config_valid demo_store_end
    (OKX, "BTC-USDT-PERP"%string) Hinv) as (s & Hcur & Hs & _).
  destruct (availability_gates w s demo_config (OKX, "BTC-USDT-PERP"%string) 10 2 1000
    [DISCONNECTED] missing_view Hw Hs eq_refl eq_refl) as (a & Ha & Hwarm & _).
  exists w, s, a. split; [exact Hcur|]. split; [exact Ha|exact Hwarm].
Defined.
