(* ===== verification/EventBus.v ===== *)
(** * The event bus

    [pipeline/event_bus.py]: ordered fan-out to consumers with bounded queues.  The
    coroutines interleave at their awaits only, so the bus is a labelled step
    relation: a step is what one task does between two awaits.  [drain] is not
    modelled. *)

From S2P Require Import Prelude PyDecimal Models.

Inductive bus_item := Event (e : event) | Stop.

(** The task of a consumer: not created, waiting on its queue, inside its handler,
    returned after the stop item, or dead of its handler's exception. *)
Inductive task := NoTask | Idle | Handling (e : event) | Stopped | Failed.
Definition is_failed (t : task) : bool := match t with Failed => true | _ => false end.

(** [_ConsumerRuntime], with the handler's calls in [handled]. *)
Record ConsumerRuntime := {
  capacity : Z;
  queue : list bus_item;
  c_task : task;
  handled : list event;
  published_events : Z;
  processed_events : Z;
  backpressure_events : Z;
  maximum_queue_depth : Z }.

(** Where a [publish] (or the stop loop of [close]) stands at its current consumer:
    about to put, waiting for room, or resumed after its put. *)
Inductive put_state := Ready | Waiting | PutDone.

(** A running [publish] call, or the stop loop of [close], with the consumers left. *)
Record publication := {
  p_id : nat;
  p_item : bus_item;
  p_todo : list string;
  p_state : put_state }.

Record EventBus := {
  default_queue_capacity : Z;
  consumers : list (string * ConsumerRuntime);
  started : bool;
  closed : bool;
  closing : bool;
  publications : list publication;
  next_id : nat }.

Definition bus_init (default_capacity : Z) : res EventBus :=
  _ ← require (negb (default_capacity <? 1))
        (ValueError "default_queue_capacity must be positive");
  Ok {| default_queue_capacity := default_capacity; consumers := []; started := false;
        closed := false; closing := false; publications := []; next_id := 0 |}.

Definition new_consumer (cap : Z) : ConsumerRuntime :=
  {| capacity := cap; queue := []; c_task := NoTask; handled := []; published_events := 0;
     processed_events := 0; backpressure_events := 0; maximum_queue_depth := 0 |}.

Definition register (name : string) (queue_capacity : option Z) (b : EventBus) : res EventBus :=
  _ ← require (negb (started b || closed b || closing b))
        (EventBusError "consumers can only be registered before the bus starts");
  _ ← require (negb (blank name)) (ValueError "consumer name cannot be empty");
  _ ← require (match dict_get name (consumers b) with None => true | Some _ => false end)
        (ValueError "duplicate consumer name");
  let cap := match queue_capacity with
             | Some n => if n =? 0 then default_queue_capacity b else n
             | None => default_queue_capacity b end in
  _ ← require (negb (cap <? 1)) (ValueError "queue_capacity must be positive");
  Ok {| b with consumers := dict_set name (new_consumer cap) (consumers b) |}.

Definition create_task (c : ConsumerRuntime) : ConsumerRuntime := {| c with c_task := Idle |}.

Definition start (b : EventBus) : res EventBus :=
  _ ← require (negb (closed b)) (EventBusError "cannot restart a closed event bus");
  _ ← require (negb (closing b)) (EventBusError "cannot start a closing event bus");
  if started b then Ok b
  else Ok {| b with started := true;
                    consumers := map (λ x, (x.1, create_task x.2)) (consumers b) |}.

(** [_raise_consumer_failure]. *)
Definition raise_consumer_failure (b : EventBus) : res unit :=
  require (negb (existsb (λ x, is_failed (c_task x.2)) (consumers b)))
    (EventBusError "normalized event consumer failed").

Definition add_publication (item : bus_item) (b : EventBus) : EventBus :=
  {| b with publications := publications b ++
              [{| p_id := next_id b; p_item := item; p_todo := map fst (consumers b);
                  p_state := Ready |}];
            next_id := S (next_id b) |}.

(** [publish] up to its first put. *)
Definition publish_begin (e : event) (b : EventBus) : res EventBus :=
  _ ← require (started b) (EventBusError "start the event bus before publishing");
  _ ← require (negb (closed b || closing b))
        (EventBusError "cannot publish after event bus close");
  _ ← raise_consumer_failure b;
  Ok (add_publication (Event e) b).

(** [close]: the stop loop, unless the bus never started or is closing already. *)
Definition close_begin (b : EventBus) : EventBus :=
  if closing b then b
  else if negb (started b) then {| b with closing := true; closed := true |}
  else let b := add_publication Stop b in {| b with closing := true |}.

(** ** Queues *)

Definition full (c : ConsumerRuntime) : bool := capacity c <=? Z.of_nat (length (queue c)).
Definition task_done (c : ConsumerRuntime) : bool :=
  match c_task c with Stopped | Failed => true | _ => false end.

Definition put (item : bus_item) (c : ConsumerRuntime) : ConsumerRuntime :=
  {| c with queue := queue c ++ [item] |}.
(** The end of a round of [publish]; [close] does not count. *)
Definition count_put (item : bus_item) (c : ConsumerRuntime) : ConsumerRuntime :=
  match item with
  | Event _ =>
    {| c with published_events := published_events c + 1;
              maximum_queue_depth := Z.max (maximum_queue_depth c) (Z.of_nat (length (queue c))) |}
  | Stop => c
  end.
Definition press (c : ConsumerRuntime) : ConsumerRuntime :=
  {| c with backpressure_events := backpressure_events c + 1 |}.
Definition take (c : ConsumerRuntime) : ConsumerRuntime :=
  match queue c with
  | Event e :: q => {| c with queue := q; c_task := Handling e; handled := handled c ++ [e] |}
  | Stop :: q => {| c with queue := q; c_task := Stopped |}
  | [] => c
  end.
Definition finish (c : ConsumerRuntime) : ConsumerRuntime :=
  {| c with c_task := Idle; processed_events := processed_events c + 1 |}.
Definition fail (c : ConsumerRuntime) : ConsumerRuntime := {| c with c_task := Failed |}.

(** ** Steps *)

Inductive label :=
| LPut (id : nat) (name : string) (item : bus_item)
| LTake (name : string) (item : bus_item)
| LPublish (id : nat) (item : bus_item)
| LDone (id : nat)
| LOther.

Definition set_consumer (name : string) (c : ConsumerRuntime) (b : EventBus) : EventBus :=
  {| b with consumers := dict_set name c (consumers b) |}.
Definition set_publications (ps : list publication) (b : EventBus) : EventBus :=
  {| b with publications := ps |}.

(** The publication goes on to its next consumer. *)
Definition next_consumer (p : publication) : publication :=
  {| p with p_todo := tail (p_todo p); p_state := Ready |}.
Definition at_state (s : put_state) (p : publication) : publication := {| p with p_state := s |}.

(** One round of a publication at the consumer [c] named [name]: the label, the
    consumer and the publication after the step, or [None] when the exception ends
    [publish] ([close] notes the exception and goes on). *)
Inductive round (name : string) (c : ConsumerRuntime) (p : publication)
    : label → ConsumerRuntime → option publication → Prop :=
| round_put :
    p_state p = Ready → c_task c ≠ NoTask → full c = false → (p_item p = Stop → task_done c = false) →
    round name c p (LPut (p_id p) name (p_item p)) (count_put (p_item p) (put (p_item p) c))
      (Some (next_consumer p))
| round_no_task :
    p_state p = Ready → c_task c = NoTask →
    round name c p LOther c (match p_item p with Stop => Some (next_consumer p) | _ => None end)
| round_skip :
    (* the stop loop passes over consumers that are done *)
    p_state p = Ready → p_item p = Stop → task_done c = true →
    round name c p LOther c (Some (next_consumer p))
| round_block :
    p_state p = Ready → c_task c ≠ NoTask → full c = true → (p_item p = Stop → task_done c = false) →
    round name c p LOther (press c) (Some (at_state Waiting p))
| round_unblock :
    p_state p = Waiting → full c = false →
    round name c p (LPut (p_id p) name (p_item p)) (put (p_item p) c) (Some (at_state PutDone p))
| round_resume :
    p_state p = PutDone → task_done c = false →
    round name c p LOther (count_put (p_item p) c) (Some (next_consumer p))
| round_fail :
    (* the consumer ended first, or with the put: [asyncio.wait] reports its task *)
    p_state p = Waiting ∨ p_state p = PutDone → task_done c = true →
    round name c p LOther c (match p_item p with Stop => Some (next_consumer p) | _ => None end)
| round_cancel e :
    (* the publisher is cancelled while it waits, before or after the put *)
    p_item p = Event e → p_state p = Waiting ∨ p_state p = PutDone →
    round name c p LOther c None.

Inductive bus_step : EventBus → label → EventBus → Prop :=
| step_register name cap b b' : register name cap b = Ok b' → bus_step b LOther b'
| step_start b b' : start b = Ok b' → bus_step b LOther b'
| step_publish e b b' :
    publish_begin e b = Ok b' → bus_step b (LPublish (next_id b) (Event e)) b'
| step_close b :
    bus_step b (if negb (closing b) && started b then LPublish (next_id b) Stop else LOther)
      (close_begin b)
| step_round ps1 p ps2 name names c l c' o b :
    publications b = ps1 ++ p :: ps2 → p_todo p = name :: names →
    dict_get name (consumers b) = Some c → round name c p l c' o →
    bus_step b l (set_publications
      (ps1 ++ match o with Some p' => [p'] | None => [] end ++ ps2) (set_consumer name c' b))
| step_done ps1 p ps2 b :
    publications b = ps1 ++ p :: ps2 → p_todo p = [] →
    bus_step b (LDone (p_id p))
      (set_publications (ps1 ++ ps2) b)
| step_closed b :
    (* [gather] of the consumers' tasks *)
    closing b = true → (∀ p, p ∈ publications b → p_item p ≠ Stop) →
    forallb (λ x, task_done x.2) (consumers b) = true →
    bus_step b LOther {| b with closed := true |}
| step_take name c item q b :
    dict_get name (consumers b) = Some c → c_task c = Idle → queue c = item :: q →
    bus_step b (LTake name item) (set_consumer name (take c) b)
| step_finish name c e b :
    dict_get name (consumers b) = Some c → c_task c = Handling e →
    bus_step b LOther (set_consumer name (finish c) b)
| step_fail name c e b :
    dict_get name (consumers b) = Some c → c_task c = Handling e →
    bus_step b LOther (set_consumer name (fail c) b).

(** Runs from a new bus, latest label last. *)
Inductive bus_run (cap : Z) : list label → EventBus → Prop :=
| run_init b : bus_init cap = Ok b → bus_run cap [] b
| run_step tr b l b' : bus_run cap tr b → bus_step b l b' → bus_run cap (tr ++ [l]) b'.

(** ** Logs *)

Definition puts (name : string) (tr : list label) : list bus_item :=
  omap (λ l, match l with
             | LPut _ n i => if bool_decide (n = name) then Some i else None
             | _ => None end) tr.
Definition takes (name : string) (tr : list label) : list bus_item :=
  omap (λ l, match l with
             | LTake n i => if bool_decide (n = name) then Some i else None
             | _ => None end) tr.
(** The puts of one publication. *)
Definition puts_of (id : nat) (tr : list label) : list (string * bus_item) :=
  omap (λ l, match l with
             | LPut k n i => if bool_decide (k = id) then Some (n, i) else None
             | _ => None end) tr.
Definition events (l : list bus_item) : list event :=
  omap (λ i, match i with Event e => Some e | Stop => None end) l.

Definition busy (t : task) : Z := match t with Handling _ | Failed => 1 | _ => 0 end.

Record consumer_inv (tr : list label) (name : string) (c : ConsumerRuntime) : Prop := {
  ci_fifo : puts name tr = takes name tr ++ queue c;
  ci_handled : handled c = events (takes name tr);
  ci_capacity : 1 ≤ capacity c ∧ Z.of_nat (length (queue c)) ≤ capacity c;
  ci_processed : Z.of_nat (length (handled c)) = processed_events c + busy (c_task c);
  ci_depth : maximum_queue_depth c ≤ capacity c }.

Record bus_inv (tr : list label) (b : EventBus) : Prop := {
  bi_consumers : ∀ name, match dict_get name (consumers b) with
    | Some c => consumer_inv tr name c
    | None => puts name tr = [] ∧ takes name tr = []
    end;
  bi_default : 1 ≤ default_queue_capacity b;
  bi_started : started b = false → ∀ name c, dict_get name (consumers b) = Some c → c_task c = NoTask }.

Lemma puts_snoc name tr l : puts name (tr ++ [l]) = puts name tr ++ puts name [l].
Proof. apply omap_app. Qed.
Lemma takes_snoc name tr l : takes name (tr ++ [l]) = takes name tr ++ takes name [l].
Proof. apply omap_app. Qed.
Lemma events_app l1 l2 : events (l1 ++ l2) = events l1 ++ events l2.
Proof. apply omap_app. Qed.

(** A label about [name] only. *)
Definition label_of (name : string) (l : label) : Prop :=
  match l with LPut _ n _ | LTake n _ => n = name | _ => True end.

Lemma label_other name name' l : label_of name l → name' ≠ name → puts name' [l] = [] ∧ takes name' [l] = [].
Proof.
  intros Hl Hn. destruct l as [k n i|n i| | |]; simpl in *; try done; subst n; unfold puts, takes; simpl;
    by rewrite bool_decide_eq_false_2 by congruence.
Qed.

(** A step of one consumer. *)
Lemma bus_inv_set tr b l name c c' :
  bus_inv tr b → dict_get name (consumers b) = Some c → label_of name l →
  (consumer_inv tr name c → consumer_inv (tr ++ [l]) name c') → (c_task c = NoTask → c_task c' = NoTask) →
  bus_inv (tr ++ [l]) (set_consumer name c' b).
Proof.
  intros [Hc Hd Hs] Hget Hl Hc' Hn. constructor; simpl; [|done|].
  - intros name'. destruct (decide (name' = name)) as [->|Hne].
    + rewrite dict_get_set_eq by by apply bool_decide_eq_true. apply Hc'.
      specialize (Hc name). by rewrite Hget in Hc.
    + rewrite dict_get_set_ne by by apply bool_decide_eq_false.
      destruct (label_other name name' l Hl Hne) as [H1 H2]. specialize (Hc name').
      destruct (dict_get name' (consumers b)) as [c0|].
      * destruct Hc as [F1 F2 F3 F4 F5]. constructor; try done;
          rewrite ?puts_snoc, ?takes_snoc, ?H1, ?H2, ?app_nil_r; done.
      * by rewrite puts_snoc, takes_snoc, H1, H2, !app_nil_r.
  - intros Hst name' c0. destruct (decide (name' = name)) as [->|Hne].
    + rewrite dict_get_set_eq by by apply bool_decide_eq_true. intros [= <-]. eauto.
    + rewrite dict_get_set_ne by by apply bool_decide_eq_false. eauto.
Qed.

(** A step no consumer notices. *)
Lemma bus_inv_silent tr b b' l :
  bus_inv tr b → (∀ name, puts name [l] = [] ∧ takes name [l] = []) →
  consumers b' = consumers b → default_queue_capacity b' = default_queue_capacity b →
  (started b' = false → started b = false) → bus_inv (tr ++ [l]) b'.
Proof.
  intros [Hc Hd Hs] Hl Ec Ed Es. constructor; rewrite ?Ec, ?Ed; [|done|by intros H; apply Hs, Es].
  intros name. specialize (Hc name). destruct (Hl name) as [H1 H2].
  destruct (dict_get name (consumers b)) as [c|].
  - destruct Hc as [F1 F2 F3 F4 F5]. constructor; try done;
      rewrite ?puts_snoc, ?takes_snoc, ?H1, ?H2, ?app_nil_r; done.
  - by rewrite puts_snoc, takes_snoc, H1, H2, !app_nil_r.
Qed.

Lemma consumer_inv_other tr name c c' l :
  consumer_inv tr name c → puts name [l] = [] → takes name [l] = [] → queue c' = queue c →
  handled c' = handled c → capacity c' = capacity c →
  processed_events c' + busy (c_task c') = processed_events c + busy (c_task c) →
  maximum_queue_depth c' ≤ capacity c → consumer_inv (tr ++ [l]) name c'.
Proof.
  intros [F1 F2 F3 F4 F5] H1 H2 Eq Eh Ec Ep Ed.
  constructor; rewrite ?puts_snoc, ?takes_snoc, ?H1, ?H2, ?app_nil_r, ?Eq, ?Eh, ?Ec; try done; lia.
Qed.

Lemma consumer_inv_put tr name c id item :
  consumer_inv tr name c → full c = false → consumer_inv (tr ++ [LPut id name item]) name (put item c).
Proof.
  intros [F1 F2 [F3 F3'] F4 F5] Hf. unfold full in Hf. apply Z.leb_gt in Hf.
  assert (puts name [LPut id name item] = [item] ∧ takes name [LPut id name item] = []) as [H1 H2].
  { unfold puts, takes. simpl. by rewrite bool_decide_eq_true_2. }
  constructor; rewrite ?puts_snoc, ?takes_snoc, ?H1, ?H2, ?app_nil_r; simpl; try done.
  - by rewrite F1, app_assoc.
  - rewrite length_app. simpl. lia.
Qed.

Lemma consumer_inv_count tr name c item : consumer_inv tr name c → consumer_inv tr name (count_put item c).
Proof. intros [F1 F2 [F3 F3'] F4 F5]. destruct item; constructor; simpl; try done; lia. Qed.

Lemma consumer_inv_take tr name c item q :
  consumer_inv tr name c → c_task c = Idle → queue c = item :: q →
  consumer_inv (tr ++ [LTake name item]) name (take c).
Proof.
  intros [F1 F2 [F3 F3'] F4 F5] Ht Hq. unfold take. rewrite Hq in *. rewrite Ht in F4.
  assert (puts name [LTake name item] = [] ∧ takes name [LTake name item] = [item]) as [H1 H2].
  { unfold puts, takes. simpl. by rewrite bool_decide_eq_true_2. }
  destruct item as [e|]; constructor; rewrite ?puts_snoc, ?takes_snoc, ?H1, ?H2, ?events_app; simpl in *;
    rewrite ?app_nil_r, ?length_app; simpl; try done; try lia; try by rewrite F2.
  - by rewrite F1, <- app_assoc.
  - by rewrite F1, <- app_assoc.
Qed.

Lemma round_inv tr b name c p l c' o :
  bus_inv tr b → dict_get name (consumers b) = Some c → round name c p l c' o →
  bus_inv (tr ++ [l]) (set_consumer name c' b).
Proof.
  intros Hi Hc Hr.
  assert (consumer_inv tr name c) as Hci by (pose proof (bi_consumers _ _ Hi name) as H; by rewrite Hc in H).
  assert (∀ l, label_of name l → puts name [l] = [] ∧ takes name [l] = [] → ∀ c',
    queue c' = queue c → handled c' = handled c → capacity c' = capacity c → c_task c' = c_task c →
    processed_events c' = processed_events c → maximum_queue_depth c' ≤ capacity c →
    bus_inv (tr ++ [l]) (set_consumer name c' b)) as Hother.
  { intros l0 Hl0 [H1 H2] c0 Eq Eh Ec Et Ep Ed. eapply bus_inv_set; [done|exact Hc|done| |congruence].
    intros _. eapply consumer_inv_other; [exact Hci|done..| |done]. by rewrite Et, Ep. }
  destruct Hr as [Hs Ht Hf Hd|Hs Ht|Hs Hi' Ht|Hs Ht Hf Hd|Hs Hf|Hs Hd|Hs Hd|e He Hs].
  - eapply bus_inv_set; [done|exact Hc|done| |by intros; destruct (p_item p)].
    intros _. by apply consumer_inv_count, consumer_inv_put.
  - apply Hother; try done. apply Hci.
  - apply Hother; try done. apply Hci.
  - apply Hother; try done. apply Hci.
  - eapply bus_inv_set; [done|exact Hc|done| |done]. intros _. by apply consumer_inv_put.
  - apply Hother; try done; try by destruct (p_item p).
    pose proof (consumer_inv_count _ _ _ (p_item p) Hci) as [_ _ _ _ Hdep].
    by destruct (p_item p).
  - apply Hother; try done. apply Hci.
  - apply Hother; try done. apply Hci.
Qed.

Lemma add_publication_fields item b :
  consumers (add_publication item b) = consumers b ∧
  default_queue_capacity (add_publication item b) = default_queue_capacity b ∧
  started (add_publication item b) = started b.
Proof. done. Qed.

Lemma close_begin_fields b :
  consumers (close_begin b) = consumers b ∧
  default_queue_capacity (close_begin b) = default_queue_capacity b ∧ started (close_begin b) = started b.
Proof. unfold close_begin. destruct (closing b); [done|]. destruct (negb (started b)); done. Qed.

Lemma register_inv tr b b' name cap :
  bus_inv tr b → register name cap b = Ok b' → bus_inv (tr ++ [LOther]) b'.
Proof.
  intros [Hc Hd Hs]. unfold register. intros H. inv_res. subst b'.
  match goal with H : negb (_ <? 1) = true |- _ => apply negb_true_iff, Z.ltb_ge in H end.
  destruct (dict_get name (consumers b)) eqn:E; [done|].
  constructor; simpl; [|done|].
  - intros name'. specialize (Hc name').
    destruct (decide (name' = name)) as [->|Hne].
    + rewrite dict_get_set_eq by by apply bool_decide_eq_true. rewrite E in Hc. destruct Hc as [Hp Ht].
      constructor; rewrite ?puts_snoc, ?takes_snoc, ?Hp, ?Ht; simpl; try done; lia.
    + rewrite dict_get_set_ne by by apply bool_decide_eq_false.
      destruct (dict_get name' (consumers b)) as [c0|].
      * eapply consumer_inv_other; try done. apply Hc.
      * by rewrite puts_snoc, takes_snoc, !app_nil_r.
  - intros Hst name' c. destruct (decide (name' = name)) as [->|Hne].
    + rewrite dict_get_set_eq by by apply bool_decide_eq_true. by intros [= <-].
    + rewrite dict_get_set_ne by by apply bool_decide_eq_false. by apply Hs.
Qed.

Lemma start_inv tr b b' : bus_inv tr b → start b = Ok b' → bus_inv (tr ++ [LOther]) b'.
Proof.
  intros Hi. unfold start. destruct (closed b), (closing b); simpl; try done.
  destruct (started b) eqn:Est; intros [= <-]; [by eapply bus_inv_silent|].
  destruct Hi as [Hc Hd Hs]. constructor; simpl; [|done|done].
  intros name. rewrite (dict_get_map create_task). specialize (Hc name).
  destruct (dict_get name (consumers b)) as [c|] eqn:E; simpl.
  - eapply consumer_inv_other; try done; [|apply Hc]. simpl. by rewrite (Hs Est name c E).
  - by rewrite puts_snoc, takes_snoc, !app_nil_r.
Qed.

Lemma bus_step_inv tr b l b' : bus_inv tr b → bus_step b l b' → bus_inv (tr ++ [l]) b'.
Proof.
  intros Hi Hstep. destruct Hstep as
    [name cap b b' H|b b' H|e b b' H|b|ps1 p ps2 name names c l c' o b H1 H2 H3 H4|ps1 p ps2 b H1 H2|
     b H1 H2 H3|name c item q b H1 H2 H3|name c e b H1 H2|name c e b H1 H2].
  - by eapply register_inv.
  - by eapply start_inv.
  - unfold publish_begin in H. inv_res. subst b'. by eapply bus_inv_silent.
  - destruct (close_begin_fields b) as (E1 & E2 & E3).
    eapply bus_inv_silent; [done| |done|done|by rewrite E3]. by destruct (_ && _).
  - pose proof (round_inv tr b name c p l c' o Hi H3 H4) as [Hc Hd Hs]. by constructor.
  - by eapply bus_inv_silent.
  - by eapply bus_inv_silent.
  - eapply bus_inv_set; [done|exact H1|done| |congruence]. intros Hc. by eapply consumer_inv_take.
  - eapply bus_inv_set; [done|exact H1|done| |congruence]. intros Hc.
    eapply consumer_inv_other; try done; [|apply Hc]. simpl. rewrite H2. simpl. lia.
  - eapply bus_inv_set; [done|exact H1|done| |congruence]. intros Hc.
    eapply consumer_inv_other; try done; [|apply Hc]. simpl. by rewrite H2.
Qed.

Lemma bus_run_inv cap tr b : bus_run cap tr b → bus_inv tr b.
Proof.
  induction 1 as [b H|tr b l b' Hrun IH Hstep]; [|by eapply bus_step_inv].
  unfold bus_init in H. inv_res. subst b. apply negb_true_iff, Z.ltb_ge in H. by constructor.
Qed.

(** C37. Whatever the interleaving of publishers, consumers, failures and close, every
    consumer receives what was put in its queue in that order, each item once: what it
    took and what it still holds is what was put, its handler was called with exactly
    the events it took, its queue never exceeds its capacity, and it has processed all
    but the event it is handling (or failed on). *)
Theorem bus_delivers_in_order cap tr b name c :
  bus_run cap tr b → dict_get name (consumers b) = Some c →
  puts name tr = takes name tr ++ queue c ∧ handled c = events (takes name tr) ∧
  Z.of_nat (length (queue c)) ≤ capacity c ∧ maximum_queue_depth c ≤ capacity c ∧
  Z.of_nat (length (handled c)) = processed_events c + busy (c_task c).
Proof.
  intros Hi%bus_run_inv Hc. pose proof (bi_consumers _ _ Hi name) as H. rewrite Hc in H.
  destruct H as [F1 F2 [F3 F3'] F4 F5]. done.
Qed.

(** ** Completed publications *)

Definition names (b : EventBus) : list string := map fst (consumers b).

(** The consumers a publication has not put its item to yet. *)
Definition rest (p : publication) : list string :=
  match p_state p with PutDone => tail (p_todo p) | _ => p_todo p end.

Definition to_each (item : bus_item) (ns : list string) : list (string * bus_item) :=
  map (λ n, (n, item)) ns.

Record pub_inv (tr : list label) (b : EventBus) : Prop := {
  pi_fresh : ∀ id, (next_id b ≤ id)%nat →
    puts_of id tr = [] ∧ (∀ item, LPublish id item ∉ tr) ∧ LDone id ∉ tr;
  pi_ids : NoDup (p_id <$> publications b);
  pi_running : ∀ p, p ∈ publications b →
    (p_id p < next_id b)%nat ∧ LPublish (p_id p) (p_item p) ∈ tr ∧ (LDone (p_id p) ∉ tr) ∧
    (p_item p ≠ Stop → puts_of (p_id p) tr ++ to_each (p_item p) (rest p) = to_each (p_item p) (names b));
  pi_done : ∀ id e, LDone id ∈ tr → LPublish id (Event e) ∈ tr →
    puts_of id tr = to_each (Event e) (names b);
  pi_unique : ∀ id i1 i2, LPublish id i1 ∈ tr → LPublish id i2 ∈ tr → i1 = i2;
  pi_started : started b = false → publications b = [] ∧ ∀ id item, LPublish id item ∉ tr }.

Lemma puts_of_snoc id tr l : puts_of id (tr ++ [l]) = puts_of id tr ++ puts_of id [l].
Proof. apply omap_app. Qed.

Lemma elem_snoc {A} (x y : A) l : x ∈ l ++ [y] ↔ x ∈ l ∨ x = y.
Proof. by rewrite elem_of_app, list_elem_of_singleton. Qed.

Lemma names_set name c c' b :
  dict_get name (consumers b) = Some c → names (set_consumer name c' b) = names b.
Proof.
  intros H. unfold names, set_consumer. simpl. by eapply dict_set_keys.
Qed.

(** A step of a label that is about no publication. *)
Definition quiet (l : label) : Prop :=
  match l with LTake _ _ | LOther => True | _ => False end.

Lemma pub_inv_quiet tr b b' l :
  pub_inv tr b → quiet l → sublist (publications b') (publications b) → next_id b' = next_id b →
  (started b' = false → started b = false) → (started b = true → names b' = names b) →
  pub_inv (tr ++ [l]) b'.
Proof.
  intros [Hf Hids Hr Hd Hu Hs] Hl Ep En Est Enames.
  assert (∀ id, puts_of id (tr ++ [l]) = puts_of id tr) as Eputs
    by (intros id; rewrite puts_of_snoc; destruct l; try done; by rewrite app_nil_r).
  assert (∀ x, x ∈ tr ++ [l] ↔ x ∈ tr ∨ x = l) as Hin by (intros x; apply elem_snoc).
  assert (∀ id item, LPublish id item ∈ tr ++ [l] ↔ LPublish id item ∈ tr) as Hpub
    by (intros id item; rewrite Hin; destruct l; try done; intuition congruence).
  assert (∀ id, LDone id ∈ tr ++ [l] ↔ LDone id ∈ tr) as Hdone
    by (intros id; rewrite Hin; destruct l; try done; intuition congruence).
  assert ((∃ id item, LPublish id item ∈ tr) → names b' = names b) as Hnames.
  { intros (id & item & Hp). apply Enames. destruct (started b) eqn:E; [done|].
    destruct (Hs eq_refl) as [_ Hno]. by destruct (Hno id item). }
  constructor.
  - intros id Hid. rewrite En in Hid. destruct (Hf id Hid) as (F1 & F2 & F3).
    rewrite Eputs, Hdone. split; [done|]. split; [|done]. intros item. by rewrite Hpub.
  - eapply sublist_NoDup; [exact Hids|]. by apply fmap_sublist.
  - intros p Hp. eapply elem_of_sublist in Hp; [|exact Ep]. destruct (Hr p Hp) as (R1 & R2 & R3 & R4).
    rewrite En, Hpub, Hdone, Eputs, Hnames by by do 2 eexists. done.
  - intros id e H1%Hdone H2%Hpub. rewrite Eputs, Hnames by by do 2 eexists. by apply Hd.
  - intros id i1 i2. rewrite !Hpub. apply Hu.
  - intros H. destruct (Hs (Est H)) as [H1 H2]. rewrite H1 in Ep. split; [by apply sublist_nil_r in Ep|].
    intros id item. by rewrite Hpub.
Qed.

Lemma pub_inv_add tr b item :
  pub_inv tr b → started b = true →
  pub_inv (tr ++ [LPublish (next_id b) item]) (add_publication item b).
Proof.
  intros [Hf Hids Hr Hd Hu Hs] Hst. destruct (Hf (next_id b) ltac:(lia)) as (F1 & F2 & F3).
  assert (∀ id, puts_of id (tr ++ [LPublish (next_id b) item]) = puts_of id tr) as Eputs
    by (intros id; rewrite puts_of_snoc; simpl; apply app_nil_r).
  assert (∀ id, LDone id ∈ tr ++ [LPublish (next_id b) item] ↔ LDone id ∈ tr) as Hdone
    by (intros id; rewrite elem_snoc; intuition congruence).
  assert (∀ id i, LPublish id i ∈ tr ++ [LPublish (next_id b) item] ↔
    LPublish id i ∈ tr ∨ id = next_id b ∧ i = item) as Hpub
    by (intros id i; rewrite elem_snoc; intuition congruence).
  constructor; simpl.
  - intros id Hid. destruct (Hf id ltac:(lia)) as (G1 & G2 & G3). rewrite Eputs, Hdone.
    split; [done|]. split; [|done]. intros i. rewrite Hpub. intros [?|[? _]]; [by eapply G2|lia].
  - rewrite fmap_app. simpl. apply NoDup_app. split; [done|]. split; [|apply NoDup_singleton].
    intros x (p & -> & Hp)%list_elem_of_fmap ?%list_elem_of_singleton.
    destruct (Hr p Hp) as [? _]. lia.
  - intros p [Hp| ->]%elem_snoc.
    + destruct (Hr p Hp) as (R1 & R2 & R3 & R4). rewrite Hdone, Hpub, Eputs.
      split; [lia|]. split; [by left|]. by split.
    + simpl. rewrite Hdone, Hpub, Eputs, F1. split; [lia|]. split; [by right|]. by split.
  - intros id e H1%Hdone [H2|[-> _]]%Hpub; rewrite Eputs; [by apply Hd|done].
  - intros id i1 i2 [H1|[E1 E1']]%Hpub [H2|[E2 E2']]%Hpub; subst; try done;
      [by eapply Hu|by destruct (F2 i1)|by destruct (F2 i2)].
  - congruence.
Qed.

(** A round: the publication of the round is replaced or ends. *)
Lemma pub_inv_round tr b ps1 p ps2 name ns c l c' o :
  pub_inv tr b → publications b = ps1 ++ p :: ps2 → p_todo p = name :: ns →
  dict_get name (consumers b) = Some c → round name c p l c' o →
  pub_inv (tr ++ [l]) (set_publications
    (ps1 ++ match o with Some p' => [p'] | None => [] end ++ ps2) (set_consumer name c' b)).
Proof.
  intros Hi Hps Htodo Hc Hr. pose proof Hi as [Hf Hids Hrun Hd Hu Hs].
  assert (started b = true) as Hst.
  { destruct (started b) eqn:E; [done|]. destruct (Hs eq_refl) as [H _]. rewrite H in Hps.
    by destruct ps1. }
  destruct o as [p'|].
  2: { assert (quiet l) as Hq by by inversion Hr; destruct (p_item p).
       eapply pub_inv_quiet; try done; simpl.
       - rewrite Hps. by apply sublist_app; [|apply sublist_cons].
       - intros _. by eapply names_set. }
  (* what the round does to the publication *)
  assert (p_id p' = p_id p ∧ p_item p' = p_item p ∧
    (p_item p ≠ Stop →
       puts_of (p_id p) [l] ++ to_each (p_item p) (rest p') = to_each (p_item p) (rest p)) ∧
    (quiet l ∨ ∃ i, l = LPut (p_id p) name i)) as (Eid & Eitem & Erest & Hl).
  { unfold rest. inversion Hr; subst; simpl; rewrite ?Htodo; try (destruct (p_item p) eqn:Ei; simplify_eq/=);
      (split; [done|]; split; [done|]; split; [|eauto]); intros Hns; try done;
      repeat match goal with H : p_state p = _ |- _ => rewrite H end; simpl;
      rewrite ?bool_decide_eq_true_2 by done; try done. }
  set (b1 := set_consumer name c' b).
  assert (∀ ps, names (set_publications ps b1) = names b) as Enames
    by (intros ps; exact (names_set name c c' b Hc)).
  assert (∀ q, q ∈ ps1 ++ p' :: ps2 ↔ q = p' ∨ q ∈ ps1 ++ ps2) as Hq
    by (intros q; rewrite !elem_of_app, elem_of_cons; tauto).
  assert (∀ q, q ∈ ps1 ++ ps2 → q ∈ publications b) as Hsub
    by (intros q; rewrite Hps, !elem_of_app, elem_of_cons; tauto).
  assert (p ∈ publications b) as Hp by (rewrite Hps, elem_of_app, elem_of_cons; tauto).
  assert (p_id <$> ps1 ++ p' :: ps2 = p_id <$> publications b) as Eids
    by by rewrite Hps, !fmap_app, !fmap_cons, Eid.
  assert (∀ q, q ∈ ps1 ++ ps2 → p_id q ≠ p_id p) as Hne.
  { intros q Hq' E. rewrite Hps, fmap_app, fmap_cons in Hids.
    apply NoDup_app in Hids as (_ & Hd1 & [Hd2 _]%NoDup_cons).
    apply elem_of_app in Hq' as [Hq'|Hq'].
    - apply (Hd1 (p_id q)); [by apply list_elem_of_fmap_2|]. rewrite E. left.
    - apply Hd2. rewrite <- E. by apply list_elem_of_fmap_2. }
  assert (∀ id, id ≠ p_id p → puts_of id (tr ++ [l]) = puts_of id tr) as Eputs.
  { intros id Hid. rewrite puts_of_snoc. destruct Hl as [Hl|[i ->]].
    - destruct l; try done; by rewrite app_nil_r.
    - unfold puts_of at 2. simpl. rewrite bool_decide_eq_false_2 by congruence. apply app_nil_r. }
  assert (∀ id i, LPublish id i ∈ tr ++ [l] ↔ LPublish id i ∈ tr) as Hpub.
  { intros id i. rewrite elem_snoc. destruct Hl as [Hl|[? ->]]; [destruct l|]; try done; intuition congruence. }
  assert (∀ id, LDone id ∈ tr ++ [l] ↔ LDone id ∈ tr) as Hdone.
  { intros id. rewrite elem_snoc. destruct Hl as [Hl|[? ->]]; [destruct l|]; try done; intuition congruence. }
  destruct (Hrun p Hp) as (P1 & P2 & P3 & P4).
  constructor; simpl.
  - intros id Hid. destruct (Hf id Hid) as (F1 & F2 & F3). rewrite Hdone, Eputs by lia.
    split; [done|]. split; [|done]. intros i. by rewrite Hpub.
  - by rewrite Eids.
  - intros q [->|Hin]%Hq.
    + rewrite Eid, Eitem, Hpub, Hdone. split; [done|]. split; [done|]. split; [done|].
      intros Hns. rewrite puts_of_snoc, <- app_assoc, (Erest Hns), (P4 Hns). by rewrite Enames.
    + destruct (Hrun q (Hsub q Hin)) as (R1 & R2 & R3 & R4).
      rewrite Hpub, Hdone, Eputs by by apply Hne. split; [done|]. split; [done|]. split; [done|].
      intros Hns. rewrite (R4 Hns). by rewrite Enames.
  - intros id e H1%Hdone H2%Hpub. rewrite Eputs; [|by intros ->].
    rewrite (Hd id e H1 H2). by rewrite Enames.
  - intros id i1 i2. rewrite !Hpub. apply Hu.
  - congruence.
Qed.

(** The end of a publication. *)
Lemma pub_inv_done tr b ps1 p ps2 :
  pub_inv tr b → publications b = ps1 ++ p :: ps2 → p_todo p = [] →
  pub_inv (tr ++ [LDone (p_id p)]) (set_publications (ps1 ++ ps2) b).
Proof.
  intros [Hf Hids Hrun Hd Hu Hs] Hps Htodo.
  assert (p ∈ publications b) as Hp by (rewrite Hps, elem_of_app, elem_of_cons; tauto).
  destruct (Hrun p Hp) as (P1 & P2 & P3 & P4).
  assert (∀ q, q ∈ ps1 ++ ps2 → q ∈ publications b ∧ p_id q ≠ p_id p) as Hsub.
  { intros q Hq. split; [rewrite Hps, elem_of_app, elem_of_cons; apply elem_of_app in Hq; tauto|].
    intros E. rewrite Hps, fmap_app, fmap_cons in Hids.
    apply NoDup_app in Hids as (_ & Hd1 & [Hd2 _]%NoDup_cons).
    apply elem_of_app in Hq as [Hq|Hq].
    - apply (Hd1 (p_id q)); [by apply list_elem_of_fmap_2|]. rewrite E. left.
    - apply Hd2. rewrite <- E. by apply list_elem_of_fmap_2. }
  assert (∀ id, puts_of id (tr ++ [LDone (p_id p)]) = puts_of id tr) as Eputs
    by (intros id; rewrite puts_of_snoc; apply app_nil_r).
  assert (∀ id i, LPublish id i ∈ tr ++ [LDone (p_id p)] ↔ LPublish id i ∈ tr) as Hpub
    by (intros id i; rewrite elem_snoc; intuition congruence).
  assert (∀ id, LDone id ∈ tr ++ [LDone (p_id p)] ↔ LDone id ∈ tr ∨ id = p_id p) as Hdone
    by (intros id; rewrite elem_snoc; intuition congruence).
  constructor; simpl.
  - intros id Hid. destruct (Hf id Hid) as (F1 & F2 & F3). rewrite Hdone, Eputs.
    split; [done|]. split; [intros i; by rewrite Hpub|]. intros [?|?]; [done|lia].
  - eapply sublist_NoDup; [exact Hids|]. apply fmap_sublist. rewrite Hps.
    by apply sublist_app; [|apply sublist_cons].
  - intros q Hq. destruct (Hsub q Hq) as [Hqb Hne]. destruct (Hrun q Hqb) as (R1 & R2 & R3 & R4).
    rewrite Hpub, Hdone, Eputs. split; [done|]. split; [done|]. split; [tauto|done].
  - intros id e [H1| ->]%Hdone H2%Hpub; rewrite Eputs; [by apply Hd|].
    pose proof (Hu _ _ _ P2 H2) as Ei. rewrite Ei in P4.
    assert (rest p = []) as Hrest by (unfold rest; rewrite Htodo; by destruct (p_state p)).
    rewrite Hrest in P4. simpl in P4. rewrite app_nil_r in P4. by apply P4.
  - intros id i1 i2. rewrite !Hpub. apply Hu.
  - intros H. destruct (Hs H) as [H1 _]. rewrite H1 in Hps. by destruct ps1.
Qed.

Lemma pub_step_inv tr b l b' : pub_inv tr b → bus_step b l b' → pub_inv (tr ++ [l]) b'.
Proof.
  intros Hi Hstep. destruct Hstep as
    [name cap b b' H|b b' H|e b b' H|b|ps1 p ps2 name ns c l c' o b H1 H2 H3 H4|ps1 p ps2 b H1 H2|
     b H1 H2 H3|name c item q b H1 H2 H3|name c e b H1 H2|name c e b H1 H2].
  - unfold register in H. inv_res. subst b'.
    eapply pub_inv_quiet; try done. simpl. intros Hst. by rewrite Hst in *.
  - unfold start in H. destruct (closed b), (closing b); simpl in H; try done.
    destruct (started b) eqn:Est; injection H as <-; (eapply pub_inv_quiet; [done|done|done|done|..]);
      simpl; try done; congruence.
  - unfold publish_begin in H. inv_res. subst b'. by apply pub_inv_add.
  - unfold close_begin. destruct (closing b); simpl; [by eapply pub_inv_quiet|].
    destruct (started b) eqn:Est; simpl; [|by eapply pub_inv_quiet].
    destruct (pub_inv_add tr b Stop Hi Est) as [F1 F2 F3 F4 F5 F6]. by constructor.
  - by eapply pub_inv_round.
  - by apply pub_inv_done.
  - by eapply pub_inv_quiet.
  - eapply pub_inv_quiet; try done. intros _. by eapply names_set.
  - eapply pub_inv_quiet; try done. intros _. by eapply names_set.
  - eapply pub_inv_quiet; try done. intros _. by eapply names_set.
Qed.

Lemma pub_run_inv cap tr b : bus_run cap tr b → pub_inv tr b.
Proof.
  induction 1 as [b H|tr b l b' Hrun IH Hstep]; [|by eapply pub_step_inv].
  unfold bus_init in H. inv_res. subst b.
  constructor; simpl.
  - intros id _. split; [done|]. split; [intros item|]; apply not_elem_of_nil.
  - constructor.
  - by intros p ?%elem_of_nil.
  - by intros id e ?%elem_of_nil.
  - by intros id i1 i2 ?%elem_of_nil.
  - intros _. split; [done|]. intros; apply not_elem_of_nil.
Qed.

(** C36. Backpressure never drops: a [publish] that returned has put its event in the
    queue of every registered consumer exactly once, in order of registration, whatever
    other publishers did meanwhile; each consumer has taken it since, or still holds
    it. *)
Theorem publish_reaches_every_consumer cap tr b id e :
  bus_run cap tr b → LPublish id (Event e) ∈ tr → LDone id ∈ tr →
  puts_of id tr = map (λ x, (x.1, Event e)) (consumers b) ∧
  ∀ name c, dict_get name (consumers b) = Some c → Event e ∈ takes name tr ++ queue c.
Proof.
  intros Hrun Hp Hdn. pose proof (pi_done _ _ (pub_run_inv _ _ _ Hrun) id e Hdn Hp) as Hputs.
  unfold to_each, names in Hputs. rewrite map_map in Hputs. split; [done|]. intros name c Hc.
  pose proof (bi_consumers _ _ (bus_run_inv _ _ _ Hrun) name) as Hi. rewrite Hc in Hi.
  rewrite <- (ci_fifo _ _ _ Hi).
  assert ((name, Event e) ∈ puts_of id tr) as Hin.
  { rewrite Hputs. apply dict_get_elem in Hc as (k & Hk & ->%bool_decide_eq_true).
    apply list_elem_of_fmap. by exists (k, c). }
  unfold puts_of, puts in *. apply list_elem_of_omap in Hin as (l & Hl & Hx).
  apply list_elem_of_omap. exists l. split; [done|]. destruct l as [k n i| | | |]; try done.
  case_bool_decide; simplify_eq. by rewrite bool_decide_eq_true_2.
Qed.

(** ** Demonstration: one consumer with room for one event, two publications. *)

Definition demo_event (n : Z) : event :=
  EOpenInterest {| oi_meta := example_meta; open_interest_contracts := of_int n;
                   open_interest_base := None; open_interest_quote := None |}.
Definition demo_trace : list label :=
  [LOther; LOther; LPublish 0 (Event (demo_event 1)); LPut 0 "f" (Event (demo_event 1)); LDone 0;
   LPublish 1 (Event (demo_event 2)); LOther; LTake "f" (Event (demo_event 1));
   LPut 1 "f" (Event (demo_event 2)); LOther; LDone 1].
Definition demo_consumer : ConsumerRuntime :=
  {| capacity := 1; queue := [Event (demo_event 2)]; c_task := Handling (demo_event 1);
     handled := [demo_event 1]; published_events := 2; processed_events := 0;
     backpressure_events := 1; maximum_queue_depth := 1 |}.

Ltac forward R tac := eapply run_step in R; [cbn in R|tac; cbn; reflexivity].
Ltac at_round R rule :=
  forward R ltac:(eapply (step_round [] _ [] "f" []); [reflexivity..|];
    eapply rule; cbn; first [reflexivity|discriminate|idtac]).

Lemma demo_bus_run : ∃ b, bus_run 10 demo_trace b ∧ consumers b = [("f"%string, demo_consumer)].
Proof.
  pose proof (run_init 10 _ eq_refl) as R. cbn in R.
  forward R ltac:(eapply (step_register "f" (Some 1))).
  forward R ltac:(eapply step_start).
  forward R ltac:(eapply (step_publish (demo_event 1))).
  at_round R round_put.
  forward R ltac:(eapply (step_done [] _ [])).
  forward R ltac:(eapply (step_publish (demo_event 2))).
  at_round R round_block.
  forward R ltac:(eapply (step_take "f")).
  at_round R round_unblock.
  at_round R round_resume.
  forward R ltac:(eapply (step_done [] _ [])).
  eexists. split; [exact R|reflexivity].
Qed.

Lemma bus_delivers_in_order_witness :
  ∃ b, consumers b = [("f"%string, demo_consumer)] ∧
  puts "f" demo_trace = takes "f" demo_trace ++ [Event (demo_event 2)] ∧
  [demo_event 1] = events (takes "f" demo_trace) ∧ (1 ≤ 1) ∧ (1 ≤ 1) ∧ (1 = 0 + 1).
Proof.
  destruct demo_bus_run as (b & R & E). exists b. split; [exact E|].
  refine (bus_delivers_in_order 10 demo_trace b "f" demo_consumer R _). by rewrite E.
Defined.

Lemma publish_reaches_every_consumer_witness :
  ∃ b, puts_of 1 demo_trace = map (λ x, (x.1, Event (demo_event 2))) (consumers b) ∧
  dict_get "f"%string (consumers b) = Some demo_consumer ∧
  Event (demo_event 2) ∈ takes "f" demo_trace ++ queue demo_consumer.
Proof.
  destruct demo_bus_run as (b & R & E). exists b.
  assert (dict_get "f"%string (consumers b) = Some demo_consumer) as Hc by by rewrite E.
  destruct (publish_reaches_every_consumer 10 demo_trace b 1 (demo_event 2) R) as [H1 H2].
  - unfold demo_trace. do 5 right. left.
  - unfold demo_trace. do 10 right. left.
  - split; [exact H1|]. split; [exact Hc|]. exact (H2 "f"%string demo_consumer Hc).
Defined.
