(* ===== verification/Session.v ===== *)
(** * Sessions on a public WebSocket

    [exchanges/session.py: BackoffPolicy, PublicWebSocketSession].  [run] subscribes,
    receives, sends heartbeats and reconnects; any number of calls of [stop] run beside it.
    A step is what a call does between two awaits: of the transport, of the heartbeat
    policy, of the handler of messages or of events, of a sleep.  The timestamps of the
    events are not modelled. *)

From S2P Require Import Prelude PyDecimal PyFloat.
Open Scope Z_scope.

(** What an awaited call raises, as far as the session tells it apart: [TimeoutError] is an
    [OSError], [HeartbeatTimeout] and [SessionProtocolError] are [SessionError]s. *)
Inductive failure :=
| ConnectionClosed | OSError | TimeoutError | InvalidHandshake | SessionError | Cancelled | OtherError.
#[export] Instance failure_eq_dec : EqDecision failure.
Proof. solve_decision. Defined.

(** [recoverable_errors], and the exceptions [_close_active] suppresses. *)
Definition recoverable (f : failure) : bool := match f with Cancelled | OtherError => false | _ => true end.
Definition suppressed (f : failure) : bool := match f with ConnectionClosed | OSError | TimeoutError => true | _ => false end.

(** [None] when it returned. *)
Abbreviation outcome := (option failure).

Inductive SessionEventKind :=
| CONNECTING | CONNECTED | SUBSCRIBED | MESSAGE_RECEIVED | HEARTBEAT_SENT | HEARTBEAT_OK | DISCONNECTED
| RECONNECT_SCHEDULED | UNSUBSCRIBED | CLOSED.
#[export] Instance SessionEventKind_eq_dec : EqDecision SessionEventKind.
Proof. solve_decision. Defined.

(** The reason is the exception it is the text of. *)
Record SessionEvent := {
  kind : SessionEventKind;
  connection_generation : Z;
  reconnect_attempt : Z;
  reason : option failure;
  backoff_seconds : option float }.

(** ** The delay before a reconnection *)

Record BackoffPolicy := {
  initial_seconds : float; maximum_seconds : float; jitter_seconds : float; stable_reset_seconds : float }.

Definition mk_backoff (p : BackoffPolicy) : res BackoffPolicy :=
  _ ← require (negb (fleb (initial_seconds p) f0)) (ValueError "initial_seconds must be positive");
  _ ← require (negb (fltb (maximum_seconds p) (initial_seconds p)))
        (ValueError "maximum_seconds cannot be below initial_seconds");
  _ ← require (negb (fltb (jitter_seconds p) f0)) (ValueError "jitter_seconds cannot be negative");
  _ ← require (negb (fleb (stable_reset_seconds p) f0)) (ValueError "stable_reset_seconds must be positive");
  Ok p.

(** The loop, [rounds] rounds left. *)
Fixpoint doubled (maximum : float) (rounds : nat) (base : float) : float :=
  match rounds with
  | O => base
  | S rounds =>
    let base := fmin maximum (fmul base (float_of_int 2)) in
    if feqb base maximum then base else doubled maximum rounds base
  end.
Definition delay (p : BackoffPolicy) (uniform : float → float → float) (attempt : Z) : res float :=
  _ ← require (1 <=? attempt) (ValueError "attempt must be at least one");
  Ok (fadd (doubled (maximum_seconds p) (Z.to_nat (attempt - 1)) (initial_seconds p)) (uniform f0 (jitter_seconds p))).

(** ** The session *)

Section session.
Context {message : Type}.
Context (subscribe_messages unsubscribe_messages : list string) (policy : BackoffPolicy).

(** Where a call of [_close_active] waits: for a send and those after it, for the handler
    of UNSUBSCRIBED, for the close of the transport, for the handler of CLOSED. *)
Inductive close_point := CSend (left : list string) | CUnsubscribed | CClose | CClosed.
(** The call, with the transport it took, its [reconnect_attempt]. *)
Record closing := { cl_transport : Z; cl_attempt : Z; cl_point : close_point }.

(** Where [run] waits between CONNECTING and the end of the sleep: for the handler of an
    event, the connection, a send of a subscription, a frame, a probe, the message handler,
    its own [_close_active] (then: an exception to raise, or none), the sleep. *)
Inductive point :=
| PConnecting | PConnected | PSubscribed | PHeartbeatSent | PHeartbeatOk (m : option message) | PReceived (m : message)
| PDisconnected | PScheduled
| PConnect | PSend (left : list string) | PReceive | PProbe | PHandle | PClose (c : closing) (raising : outcome) | PSleep.

Inductive run_state := RNew | RAt (attempt : Z) (started : float) (p : point) | REnded (o : outcome).
Inductive stop_state := SClosing (c : closing) | SEnded (o : outcome).

(** A transport is the number of its connection.  The ghosts: the events emitted, the transports whose
    [close] was called. *)
Record PublicWebSocketSession := {
  s_stop : bool;
  active_transport : option Z;
  active_generation : Z;
  closed_generation : option Z;
  run : run_state;
  stops : list stop_state;
  emitted : list SessionEvent;
  closed_transports : list Z }.

Definition session_init : PublicWebSocketSession :=
  {| s_stop := false; active_transport := None; active_generation := 0; closed_generation := None; run := RNew;
     stops := []; emitted := []; closed_transports := [] |}.

Definition emit (k : SessionEventKind) (attempt : Z) (why : option failure) (backoff : option float)
    (s : PublicWebSocketSession) : PublicWebSocketSession :=
  {| s with emitted := emitted s ++ [{| kind := k; connection_generation := active_generation s;
       reconnect_attempt := attempt; reason := why; backoff_seconds := backoff |}] |}.
Definition at_run (r : run_state) (s : PublicWebSocketSession) : PublicWebSocketSession := {| s with run := r |}.

(** ** [_close_active] *)

(** Up to its first await; [None]: it returned. *)
Definition close_transport (c : closing) (s : PublicWebSocketSession) : PublicWebSocketSession * option closing :=
  ({| s with closed_transports := closed_transports s ++ [cl_transport c] |}, Some {| c with cl_point := CClose |}).
Definition unsubscribed (c : closing) (s : PublicWebSocketSession) : PublicWebSocketSession * option closing :=
  (emit UNSUBSCRIBED (cl_attempt c) None None s, Some {| c with cl_point := CUnsubscribed |}).
Definition close_active (attempt : Z) (graceful : bool) (s : PublicWebSocketSession)
    : PublicWebSocketSession * option closing :=
  match active_transport s with
  | None => (s, None)
  | Some t =>
    if bool_decide (closed_generation s = Some (active_generation s)) then (s, None)
    else
      let s := {| s with closed_generation := Some (active_generation s) |} in
      let c := {| cl_transport := t; cl_attempt := attempt; cl_point := CSend unsubscribe_messages |} in
      match graceful, unsubscribe_messages with
      | true, _ :: _ => (s, Some c)
      | _, _ => close_transport c s
      end
  end.

(** Its next steps, on what the awaited call gave; the result, when it ended. *)
Definition close_next (c : closing) (o : outcome) (s : PublicWebSocketSession)
    : PublicWebSocketSession * (closing + outcome) :=
  let on (r : PublicWebSocketSession * option closing) : PublicWebSocketSession * (closing + outcome) :=
    match r with (s, Some c) => (s, inl c) | (s, None) => (s, inr None) end in
  let closed s := (emit CLOSED (cl_attempt c) None None s, inl {| c with cl_point := CClosed |}) in
  match cl_point c, o with
  | CSend (_ :: (_ :: _) as left), None => (s, inl {| c with cl_point := CSend left |})
  | CSend _, None => on (unsubscribed c s)
  | CUnsubscribed, None => on (close_transport c s)
  | (CSend _ | CUnsubscribed), Some f => if suppressed f then on (close_transport c s) else (s, inr (Some f))
  | CClose, None => closed s
  | CClose, Some f => if suppressed f then closed s else (s, inr (Some f))
  | CClosed, None => ({| s with active_transport := None |}, inr None)
  | CClosed, Some f => (s, inr (Some f))
  end.

(** ** [run] *)

Context (uniform : float → float → float).

Definition start_connection (attempt : Z) (started : float) (s : PublicWebSocketSession) : PublicWebSocketSession :=
  if s_stop s then at_run (REnded None) s
  else emit CONNECTING attempt None None (at_run (RAt attempt started PConnecting) s).

(** After the [finally]: [now] is a reading of the monotonic clock. *)
Definition after_close (attempt : Z) (started now : float) (raising : outcome) (s : PublicWebSocketSession)
    : PublicWebSocketSession :=
  match raising with
  | Some f => at_run (REnded (Some f)) s
  | None =>
    if s_stop s then at_run (REnded None) s
    else
      let attempt := if fleb (stable_reset_seconds policy) (fsub now started) then 1 else attempt + 1 in
      match delay policy uniform attempt with
      | Ok d => emit RECONNECT_SCHEDULED attempt None (Some d) (at_run (RAt attempt started PScheduled) s)
      | Err _ => at_run (REnded (Some OtherError)) s
      end
  end.

(** The [finally] with its [_close_active]. *)
Definition finally (attempt : Z) (started now : float) (raising : outcome) (s : PublicWebSocketSession)
    : PublicWebSocketSession :=
  match close_active attempt (s_stop s) s with
  | (s, Some c) => at_run (RAt attempt started (PClose c raising)) s
  | (s, None) => after_close attempt started now raising s
  end.

(** An exception inside the [try]. *)
Definition try_failed (attempt : Z) (started now : float) (f : failure) (s : PublicWebSocketSession)
    : PublicWebSocketSession :=
  if bool_decide (f = Cancelled) then finally attempt started now (Some Cancelled) {| s with s_stop := true |}
  else if recoverable f then
    if s_stop s then finally attempt started now None s
    else emit DISCONNECTED attempt (Some f) None (at_run (RAt attempt started PDisconnected) s)
  else finally attempt started now (Some f) s.

(** The test of the loop of [_receive_loop]. *)
Definition receive_loop (attempt : Z) (started now : float) (s : PublicWebSocketSession) : PublicWebSocketSession :=
  if s_stop s then finally attempt started now None s else at_run (RAt attempt started PReceive) s.

Definition received (attempt : Z) (started : float) (m : message) (s : PublicWebSocketSession) : PublicWebSocketSession :=
  emit MESSAGE_RECEIVED attempt None None (at_run (RAt attempt started (PReceived m)) s).
Definition subscribed (attempt : Z) (started : float) (s : PublicWebSocketSession) : PublicWebSocketSession :=
  emit SUBSCRIBED attempt None None (at_run (RAt attempt started PSubscribed) s).

(** What an awaited call gave [run]: it returned, a frame, the answer of a probe, an exception. *)
Inductive answer := Returned | Frame (m : message) | Answer (m : option message) | Raised (f : failure).

(** [run] goes on; [None] when the answer is not one to what it waits for. *)
Definition run_next (now : float) (a : answer) (s : PublicWebSocketSession) : option PublicWebSocketSession :=
  match run s with
  | RNew => match a with Returned => Some (start_connection 0 now s) | _ => None end
  | REnded _ => None
  | RAt k t p =>
    let failed f := Some (try_failed k t now f s) in
    let ended f := Some (at_run (REnded (Some f)) s) in
    match p, a with
    | PConnecting, Returned => Some (at_run (RAt k now PConnect) s)
    | PConnecting, Raised f => ended f
    | PConnect, Returned =>
      let g := active_generation s + 1 in
      Some (emit CONNECTED k None None (at_run (RAt k t PConnected)
        {| s with active_generation := g; closed_generation := None; active_transport := Some g |}))
    | PConnected, Returned =>
      Some match subscribe_messages with [] => subscribed k t s | l => at_run (RAt k t (PSend l)) s end
    | PSend (_ :: (_ :: _) as left), Returned => Some (at_run (RAt k t (PSend left)) s)
    | PSend _, Returned => Some (subscribed k t s)
    | PSubscribed, Returned => Some (receive_loop k t now s)
    | PReceive, Frame m => Some (received k t m s)
    | PReceive, Raised TimeoutError =>
      Some (emit HEARTBEAT_SENT k None None (at_run (RAt k t PHeartbeatSent) s))
    | PHeartbeatSent, Returned => Some (at_run (RAt k t PProbe) s)
    | PProbe, Answer m => Some (emit HEARTBEAT_OK k None None (at_run (RAt k t (PHeartbeatOk m)) s))
    | PHeartbeatOk (Some m), Returned => Some (received k t m s)
    | PHeartbeatOk None, Returned => Some (receive_loop k t now s)
    | PReceived m, Returned => Some (at_run (RAt k t PHandle) s)
    | PHandle, Returned => Some (receive_loop k t now s)
    | (PConnect | PConnected | PSend _ | PSubscribed | PReceive | PHeartbeatSent | PProbe | PHeartbeatOk _ |
       PReceived _ | PHandle), Raised f => failed f
    | PDisconnected, Returned => Some (finally k t now None s)
    | PDisconnected, Raised f => Some (finally k t now (Some f) s)
    | PClose c raising, (Returned | Raised _) =>
      let o := match a with Raised f => Some f | _ => None end in
      Some match close_next c o s with
           | (s, inl c) => at_run (RAt k t (PClose c raising)) s
           | (s, inr None) => after_close k t now raising s
           | (s, inr (Some f)) => at_run (REnded (Some f)) s
           end
    | PScheduled, Returned => Some (at_run (RAt k t PSleep) s)
    | PSleep, Returned => Some (start_connection k t s)
    | (PScheduled | PSleep), Raised f => ended f
    | _, _ => None
    end
  end.

(** ** [stop] *)

Definition stop_begin (s : PublicWebSocketSession) : PublicWebSocketSession :=
  let s := {| s with s_stop := true |} in
  match close_active 0 true s with
  | (s, Some c) => {| s with stops := stops s ++ [SClosing c] |}
  | (s, None) => {| s with stops := stops s ++ [SEnded None] |}
  end.
Definition stop_next (i : nat) (o : outcome) (s : PublicWebSocketSession) : option PublicWebSocketSession :=
  match stops s !! i with
  | Some (SClosing c) =>
    let '(s, r) := close_next c o s in
    Some {| s with stops := <[i := match r with inl c => SClosing c | inr o => SEnded o end]> (stops s) |}
  | _ => None
  end.

Inductive label := LRun (now : float) (a : answer) | LStop | LStopNext (i : nat) (o : outcome).
Definition session_next (l : label) (s : PublicWebSocketSession) : option PublicWebSocketSession :=
  match l with
  | LRun now a => run_next now a s
  | LStop => Some (stop_begin s)
  | LStopNext i o => stop_next i o s
  end.

Inductive session_reachable : PublicWebSocketSession → Prop :=
| session_start : session_reachable session_init
| session_step s l s' : session_reachable s → session_next l s = Some s' → session_reachable s'.

(** ** Connections and closes *)

(** The generations of the events of a kind. *)
Definition generations_of (k : SessionEventKind) (l : list SessionEvent) : list Z :=
  map connection_generation (filter (λ e, kind e = k) l).

Definition before_close (c : closing) : bool := match cl_point c with CSend _ | CUnsubscribed => true | _ => false end.
Definition closed_emitted (c : closing) : bool := match cl_point c with CClosed => true | _ => false end.
Definition first_transports (g : Z) (all : bool) : list Z := seqZ 1 (if all then g else g - 1).

(** The connection of a session whose calls of [_close_active] under way are [under_way]; [broken]: one of
    them raised. *)
Definition connection (under_way : list closing) (broken : Prop) (s : PublicWebSocketSession) : Prop :=
  let g := active_generation s in
  let closed := closed_transports s in
  let emits := generations_of CLOSED (emitted s) in
  match active_transport s with
  | None => under_way = [] ∧ closed = first_transports g true ∧ emits = first_transports g true
  | Some t => t = g ∧ 1 ≤ g ∧
    match closed_generation s with
    | None => under_way = [] ∧ closed = first_transports g false ∧ emits = first_transports g false
    | Some h => h = g ∧
      match under_way with
      | [c] => cl_transport c = g ∧ closed = first_transports g (negb (before_close c)) ∧
               emits = first_transports g (closed_emitted c)
      | [] => broken ∧ ∃ b b', closed = first_transports g b ∧ emits = first_transports g b'
      | _ => False
      end
    end
  end.

Definition run_closings (r : run_state) : list closing := match r with RAt _ _ (PClose c _) => [c] | _ => [] end.
Definition stop_closings (l : list stop_state) : list closing :=
  omap (λ x, match x with SClosing c => Some c | _ => None end) l.
Definition run_broken (r : run_state) : Prop := match r with REnded (Some _) => True | _ => False end.
Definition stop_broken (l : list stop_state) : Prop := Exists (λ x, match x with SEnded (Some _) => True | _ => False end) l.

(** There is no connection to close. *)
Definition handled (s : PublicWebSocketSession) : Prop := active_transport s = None ∨ closed_generation s ≠ None.
(** What the place of [run] says of the connection. *)
Definition stands (r : run_state) (s : PublicWebSocketSession) : Prop :=
  match r with
  | RNew | RAt _ _ (PConnecting | PConnect | PScheduled | PSleep) => active_transport s = None
  | REnded _ => handled s
  | _ => True
  end.

(** A session but for where [run] stands. *)
Record core (under_way : list closing) (broken : Prop) (s : PublicWebSocketSession) : Prop := {
  co_generation : 0 ≤ active_generation s;
  co_stops : s_stop s = false → stops s = [];
  co_connected : generations_of CONNECTED (emitted s) = first_transports (active_generation s) true;
  co_connection : connection (under_way ++ stop_closings (stops s)) (broken ∨ stop_broken (stops s)) s }.

Definition session_inv (s : PublicWebSocketSession) : Prop :=
  core (run_closings (run s)) (run_broken (run s)) s ∧ stands (run s) s.

Lemma generations_emit k k' attempt why b s :
  generations_of k (emitted (emit k' attempt why b s)) =
  generations_of k (emitted s) ++ (if decide (k' = k) then [active_generation s] else []).
Proof using Type.
  unfold generations_of, emit. cbn [emitted]. rewrite filter_app, map_app. f_equal. rewrite filter_cons. cbn [kind].
  by destruct (decide _).
Qed.

Lemma first_transports_next g : 1 ≤ g → first_transports g false ++ [g] = first_transports g true.
Proof using Type.
  intros Hg. unfold first_transports. pose proof (seqZ_S 1 (Z.to_nat (g - 1))) as H.
  replace (Z.of_nat (S (Z.to_nat (g - 1)))) with g in H by lia. replace (Z.of_nat (Z.to_nat (g - 1))) with (g - 1) in H by lia.
  rewrite H. do 2 f_equal. lia.
Qed.

Lemma first_transports_succ g : first_transports (g + 1) false = first_transports g true.
Proof using Type. unfold first_transports. by replace (g + 1 - 1) with g by lia. Qed.

(** What a step of [_close_active] leaves alone. *)
Definition close_frame (s s' : PublicWebSocketSession) : Prop :=
  s_stop s' = s_stop s ∧ active_generation s' = active_generation s ∧ run s' = run s ∧ stops s' = stops s ∧
  generations_of CONNECTED (emitted s') = generations_of CONNECTED (emitted s).

Lemma close_next_spec c br s o s' r :
  connection [c] br s → close_next c o s = (s', r) →
  close_frame s s' ∧ closed_generation s' = closed_generation s ∧ closed_generation s ≠ None ∧
  match r with
  | inl c' => connection [c'] False s'
  | inr None => connection [] False s' ∧ active_transport s' = None
  | inr (Some _) => connection [] True s'
  end.
Proof using Type.
  intros Hs. unfold connection in Hs. destruct (active_transport s) as [t|] eqn:Et; [|by destruct Hs].
  destruct Hs as (-> & Hg & Hs). destruct (closed_generation s) as [h|] eqn:Eh; [|by destruct Hs].
  destruct Hs as (-> & Hc & Hcl & Hem). pose proof (first_transports_next _ Hg) as Hnext.
  unfold close_next, unsubscribed, close_transport. destruct c as [t k p]. cbn [cl_transport cl_point cl_attempt] in *. subst t.
  assert (∀ s1 c1, close_frame s s1 → active_transport s1 = active_transport s → closed_generation s1 = closed_generation s →
    cl_transport c1 = active_generation s → closed_transports s1 = first_transports (active_generation s) (negb (before_close c1)) →
    generations_of CLOSED (emitted s1) = first_transports (active_generation s) (closed_emitted c1) →
    connection [c1] False s1) as Hmid.
  { intros s1 c1 (_ & Fg & _) F1 F2 F3 F4 F5. unfold connection. rewrite F1, Et, Fg, F2, Eh. done. }
  assert (∀ s1 b b', close_frame s s1 → active_transport s1 = active_transport s → closed_generation s1 = closed_generation s →
    closed_transports s1 = first_transports (active_generation s) b →
    generations_of CLOSED (emitted s1) = first_transports (active_generation s) b' → connection [] True s1) as Hbad.
  { intros s1 b b' (_ & Fg & _) F1 F2 F3 F4. unfold connection. rewrite F1, Et, Fg, F2, Eh. do 4 (split; [done|]). by exists b, b'. }
  assert (∀ k' k1 w b, k' ≠ CONNECTED → close_frame s (emit k' k1 w b s)) as Femit.
  { intros k' k1 w b Hk. unfold close_frame. rewrite generations_emit, decide_False, app_nil_r by done. done. }
  destruct p as [left| | |]; [destruct left as [|x [|y left]]|..]; destruct o as [f|]; try destruct (suppressed f).
  all: intros [= <- <-]; (split; [try done; by apply Femit|]); (split; [first [done|by rewrite Eh]|]); (split; [first [done|by rewrite Eh]|]).
  all: try (eapply Hbad; [done|done|done|exact Hcl|exact Hem]).
  all: try (apply Hmid; [try done; by apply Femit|done|done|done|..]).
  all: cbn [closed_transports before_close cl_point negb emitted closed_emitted] in *;
    rewrite ?generations_emit, ?decide_False, ?decide_True, ?app_nil_r by done; rewrite ?Hcl, ?Hem; try done.
Qed.

Lemma close_active_spec attempt graceful l br s s' r :
  connection l br s → close_active attempt graceful s = (s', r) →
  close_frame s s' ∧
  match r with
  | Some c => l = [] ∧ connection [c] False s'
  | None => s' = s ∧ handled s ∧ (active_transport s = None ∨ l ≠ [] ∨ br)
  end.
Proof using Type.
  intros Hs. unfold close_active, connection in *. destruct (active_transport s) as [t|] eqn:Et; [|intros [= <- <-]; split; [by repeat split|]; unfold handled; auto].
  destruct Hs as (-> & Hg & Hs). destruct (closed_generation s) as [h|] eqn:Eh.
  - destruct Hs as (-> & Hb). rewrite bool_decide_true by done. intros [= <- <-]. split; [by repeat split|]. split; [done|].
    split; [right; by rewrite Eh|]. right. destruct l; [|by left]. right. by destruct Hb.
  - destruct Hs as (-> & Hcl & Hem). rewrite bool_decide_false by done. pose proof (first_transports_next _ Hg) as Hnext.
    destruct graceful, unsubscribe_messages; intros [= <- <-]; (split; [done|]); (split; [done|]);
      cbn [active_transport active_generation closed_generation closed_transports emitted cl_transport before_close cl_point negb closed_emitted];
      rewrite ?Hcl; done.
Qed.

Lemma connection_broken l br br' s : (br → br') → connection l br s → connection l br' s.
Proof using Type.
  intros H. unfold connection. destruct (active_transport s); [|done]. intros (-> & Hg & Hs). split; [done|]. split; [done|].
  destruct (closed_generation s); [|done]. destruct Hs as (-> & Hs). split; [done|]. destruct l; [|done]. destruct Hs. split; auto.
Qed.

(** ** The steps keep the invariant *)

Lemma core_emit l br k attempt why b s :
  k ≠ CONNECTED → k ≠ CLOSED → core l br s → core l br (emit k attempt why b s).
Proof using Type.
  intros H1 H2 [C1 C2 C3 C4]. split; [done|done|..].
  - by rewrite generations_emit, decide_False, app_nil_r.
  - unfold connection in *. rewrite generations_emit, decide_False, app_nil_r by done. exact C4.
Qed.

(** [run] at a point of its own, no call of [_close_active] of its under way. *)
Lemma settle r s :
  core [] False s → run_closings r = [] → stands r s → session_inv (at_run r s).
Proof using Type.
  intros [C1 C2 C3 C4] Hr Hd. split; [|exact Hd]. cbn [run at_run]. rewrite Hr. split; [done..|].
  eapply connection_broken; [|exact C4]. intros [[]|?]. by right.
Qed.

Lemma after_close_inv k t now raising s :
  core [] False s → handled s → (s_stop s = false → active_transport s = None) → session_inv (after_close k t now raising s).
Proof using Type.
  intros Hs Hh Ha. unfold after_close. destruct raising as [f|]; [by apply settle|].
  destruct (s_stop s) eqn:E; [by apply settle|]. specialize (Ha eq_refl).
  destruct (delay _ _ _) as [d|e]; [|by apply settle].
  change (session_inv (at_run (RAt (if fleb (stable_reset_seconds policy) (fsub now t) then 1 else k + 1) t PScheduled)
    (emit RECONNECT_SCHEDULED (if fleb (stable_reset_seconds policy) (fsub now t) then 1 else k + 1) None (Some d) s))).
  apply settle; [by apply core_emit|done|done].
Qed.

Lemma finally_inv k t now raising s : core [] False s → session_inv (finally k t now raising s).
Proof using Type.
  intros [C1 C2 C3 C4]. unfold finally. destruct (close_active k (s_stop s) s) as [s' r] eqn:E.
  destruct (close_active_spec _ _ _ _ _ _ _ C4 E) as [(F1 & F2 & F3 & F4 & F5) H]. destruct r as [c|].
  - destruct H as [Hl H]. split; [|done]. cbn [run at_run run_closings app]. split; cbn [at_run active_generation s_stop stops emitted].
    + by rewrite F2.
    + rewrite F1, F4. exact C2.
    + by rewrite F5, F2.
    + rewrite F4. cbn [app] in Hl. rewrite Hl. eapply connection_broken; [|exact H]. done.
  - destruct H as (-> & Hh & H). apply after_close_inv; [done|done|]. intros Hstop. specialize (C2 Hstop). rewrite C2 in H.
    destruct H as [H|[H|[H|H]]]; [done|done|done|]. by apply Exists_nil in H.
Qed.

Lemma try_failed_inv k t now f s : core [] False s → session_inv (try_failed k t now f s).
Proof using Type.
  intros Hs. unfold try_failed. case_bool_decide.
  - apply finally_inv. destruct Hs as [C1 C2 C3 C4]. by split.
  - destruct (recoverable f); [|by apply finally_inv]. destruct (s_stop s); [by apply finally_inv|].
    apply (settle (RAt k t PDisconnected) (emit DISCONNECTED k (Some f) None s)); [by apply core_emit|done|done].
Qed.

Lemma receive_loop_inv k t now s : core [] False s → session_inv (receive_loop k t now s).
Proof using Type. intros Hs. unfold receive_loop. destruct (s_stop s); [by apply finally_inv|by apply settle]. Qed.

Lemma start_connection_inv k t s : core [] False s → active_transport s = None → session_inv (start_connection k t s).
Proof using Type.
  intros Hs Ha. unfold start_connection. destruct (s_stop s); [by apply settle; [|..|left]|].
  apply (settle (RAt k t PConnecting) (emit CONNECTING k None None s)); [by apply core_emit|done|done].
Qed.

Lemma connected_inv k t s :
  core [] False s → active_transport s = None →
  session_inv (let g := active_generation s + 1 in emit CONNECTED k None None (at_run (RAt k t PConnected)
    {| s with active_generation := g; closed_generation := None; active_transport := Some g |})).
Proof using Type.
  intros [C1 C2 C3 C4] Ha. unfold connection in C4. rewrite Ha in C4. destruct C4 as (Hl & Hc & He). cbn [app] in Hl.
  cbv zeta. split; [|done]. cbn [run at_run emit run_closings app]. split.
  - cbn [active_generation emit at_run]. lia.
  - exact C2.
  - rewrite generations_emit, decide_True by done. cbn [active_generation emitted at_run]. rewrite C3, <- first_transports_succ.
    apply first_transports_next. cbn [active_generation emit at_run]. lia.
  - unfold connection. rewrite generations_emit, decide_False, app_nil_r by done.
    cbn [active_transport active_generation closed_generation stops closed_transports emitted emit at_run].
    rewrite first_transports_succ. split; [done|]. split; [lia|]. done.
Qed.

Lemma emit_settle k attempt why b r s :
  core [] False s → k ≠ CONNECTED → k ≠ CLOSED → run_closings r = [] → stands r s →
  session_inv (emit k attempt why b (at_run r s)).
Proof using Type. intros. apply (settle r (emit k attempt why b s)); [by apply core_emit|done|done]. Qed.

(** Only one call of [_close_active] is ever under way. *)
Lemma connection_one l br s : connection l br s → (length l ≤ 1)%nat.
Proof using Type.
  unfold connection. destruct (active_transport s); [|intros (-> & _); simpl; lia]. intros (_ & _ & H).
  destruct (closed_generation s); [|destruct H as (-> & _); simpl; lia]. destruct H as [_ H].
  destruct l as [|? [|]]; simpl; [lia|lia|done].
Qed.

Lemma core_frame s s' l l' br br' :
  core l br s → close_frame s s' → connection (l' ++ stop_closings (stops s)) (br' ∨ stop_broken (stops s)) s' → core l' br' s'.
Proof using Type.
  intros [C1 C2 C3 C4] (F1 & F2 & F3 & F4 & F5) H. split; [by rewrite F2|by rewrite F1, F4|by rewrite F5, F2|by rewrite F4].
Qed.

Lemma run_close_inv k t now c raising o s s1 r :
  core [c] False s → close_next c o s = (s1, r) →
  session_inv match r with
    | inl c => at_run (RAt k t (PClose c raising)) s1
    | inr None => after_close k t now raising s1
    | inr (Some f) => at_run (REnded (Some f)) s1
    end.
Proof using Type.
  intros Hs E. pose proof (co_connection _ _ _ Hs) as C4.
  assert (stop_closings (stops s) = []) as Hl.
  { apply connection_one in C4. destruct (stop_closings (stops s)); [done|simpl in C4; lia]. }
  rewrite Hl in C4. destruct (close_next_spec _ _ _ _ _ _ C4 E) as (F & Fc & Fs & H).
  assert (∀ l' (br' : Prop), connection l' (br' ∨ stop_broken (stops s)) s1 → core l' br' s1) as Hframe.
  { intros l' br' Hc. eapply core_frame; [exact Hs|exact F|]. by rewrite Hl, app_nil_r. }
  destruct r as [c'|[f|]].
  - assert (core [c'] False s1) as [] by (apply Hframe; by eapply connection_broken; [|exact H]). split; [|done]. by split.
  - assert (core [] True s1) as [] by (apply Hframe; by eapply connection_broken; [|exact H]; left).
    split; [by split|]. right. change (closed_generation s1 ≠ None). by rewrite Fc.
  - destruct H as [H Ha]. apply after_close_inv; [|by left|done]. apply Hframe. by eapply connection_broken; [|exact H].
Qed.

Lemma run_next_inv now a s s' : session_inv s → run_next now a s = Some s' → session_inv s'.
Proof using Type.
  intros [Hs Hd] H. unfold run_next in H. destruct (run s) as [|k t p|o] eqn:Er; [|..|done].
  { destruct a; try done. injection H as <-. apply start_connection_inv; [exact Hs|by apply Hd]. }
  destruct p as [| | | |m|m| | | |left| | | |c raising|] eqn:Ep.
  all: cbn [run_closings run_broken stands] in *.
  14: { destruct a; try discriminate H; destruct (close_next c _ s) as [s1 r] eqn:E; injection H as <-;
    by eapply run_close_inv. }
  all: repeat match type of H with
    | match ?x with _ => _ end = Some _ => destruct x; try discriminate H
    end; try injection H as <-.
  all: try by (apply settle; [..|left]).
  all: try by (apply try_failed_inv || apply receive_loop_inv || apply finally_inv || apply settle || apply emit_settle).
  all: try by (apply start_connection_inv; auto).
  - destruct subscribe_messages; [by apply emit_settle|by apply settle].
  - apply connected_inv; auto.
Qed.

Lemma close_active_marks attempt graceful s s' c : close_active attempt graceful s = (s', Some c) → closed_generation s' ≠ None.
Proof using Type.
  unfold close_active. destruct (active_transport s); [|done]. case_bool_decide; [done|].
  destruct graceful, unsubscribe_messages; by intros [= <- <-].
Qed.

Lemma stop_begin_inv s : session_inv s → session_inv (stop_begin s).
Proof using Type.
  intros [[C1 C2 C3 C4] Hd]. unfold stop_begin. set (s0 := {| s with s_stop := true |}).
  assert (connection (run_closings (run s) ++ stop_closings (stops s)) (run_broken (run s) ∨ stop_broken (stops s)) s0) as C4' by done.
  destruct (close_active 0 true s0) as [s' r] eqn:E. destruct (close_active_spec _ _ _ _ _ _ _ C4' E) as [(F1 & F2 & F3 & F4 & F5) H].
  change (s_stop s0) with true in *. change (active_generation s0) with (active_generation s) in *. change (run s0) with (run s) in *.
  change (stops s0) with (stops s) in *. change (emitted s0) with (emitted s) in *.
  assert (∀ x l br, connection l br s' →
    l = run_closings (run s) ++ stop_closings (stops s ++ [x]) → (br → run_broken (run s) ∨ stop_broken (stops s)) →
    stands (run s) s' →
    session_inv {| s' with stops := stops s' ++ [x] |}) as Hnew.
  { intros x l br Hc Hl Hb Hd'. split; [|by rewrite F3]. cbn [run]. rewrite F3. split; cbn [active_generation s_stop stops emitted].
    - by rewrite F2.
    - by rewrite F1.
    - by rewrite F5, F2.
    - rewrite F4, <- Hl. eapply connection_broken; [|exact Hc]. intros Hbr. destruct (Hb Hbr); [by left|right].
      apply Exists_app. by left. }
  destruct r as [c|].
  - destruct H as [Hl Hc]. apply (Hnew _ [c] False); [exact Hc| |done|].
    + unfold stop_closings in *. rewrite omap_app, app_assoc, Hl. done.
    + pose proof (close_active_marks _ _ _ _ _ E) as Hm. unfold close_active in E. change (active_transport s0) with (active_transport s) in E.
      destruct (active_transport s) as [g|] eqn:Ea; [|discriminate E]. unfold stands in *.
      destruct (run s) as [|? ? []|]; try done; try (exfalso; congruence). by right.
  - destruct H as (-> & _ & _). eapply Hnew; [exact C4'| |done|done]. unfold stop_closings. rewrite omap_app. cbn [omap list_omap]. by rewrite app_nil_r.
Qed.

Lemma stop_next_inv i o s s' : session_inv s → stop_next i o s = Some s' → session_inv s'.
Proof using Type.
  intros [[C1 C2 C3 C4] Hd] H. unfold stop_next in H. destruct (stops s !! i) as [[c|]|] eqn:Ei; [|done..].
  destruct (close_next c o s) as [s1 r] eqn:E. injection H as <-.
  apply list_elem_of_split_length in Ei as (a & b & Ea & Eb).
  assert (stop_closings (stops s) = stop_closings a ++ [c] ++ stop_closings b) as Hl.
  { unfold stop_closings. rewrite Ea, omap_app. done. }
  pose proof (connection_one _ _ _ C4) as H1. rewrite Hl, !length_app in H1. cbn [length] in H1.
  destruct (run_closings (run s)) eqn:Erun; [|simpl in H1; lia]. destruct (stop_closings a) eqn:Ea'; [|simpl in H1; lia].
  destruct (stop_closings b) eqn:Eb'; [|simpl in H1; lia]. rewrite Hl in C4. cbn [app] in C4.
  destruct (close_next_spec _ _ _ _ _ _ C4 E) as ((F1 & F2 & F3 & F4 & F5) & Fc & Fs & Hc).
  assert (∀ x, <[i:=x]> (stops s1) = a ++ x :: b) as Hi.
  { intros x. rewrite F4, Ea, Eb. by rewrite <- (Nat.add_0_r (length a)), insert_app_r. }
  assert (∀ x br, connection (stop_closings (a ++ x :: b)) br s1 →
    (br → run_broken (run s) ∨ stop_broken (a ++ x :: b)) → stands (run s) s1 →
    session_inv {| s1 with stops := a ++ x :: b |}) as Hnew.
  { intros x br Hx Hb Hd'. split; [|by rewrite F3]. cbn [run]. rewrite F3. split; cbn [active_generation s_stop stops emitted].
    - by rewrite F2.
    - rewrite F1. intros Hs. specialize (C2 Hs). rewrite Ea in C2. by destruct a.
    - by rewrite F5, F2.
    - rewrite Erun. cbn [app]. eapply connection_broken; [exact Hb|exact Hx]. }
  assert (∀ x, stop_closings (a ++ x :: b) = stop_closings [x]) as Hone.
  { intros x. change (x :: b) with ([x] ++ b). unfold stop_closings in *. by rewrite !omap_app, Ea', Eb', app_nil_r. }
  assert (stands (run s) s1) as Hd'.
  { assert (active_transport s ≠ None) as Ha by (intros Ha; unfold connection in C4; rewrite Ha in C4; by destruct C4).
    unfold stands in *. destruct (run s) as [|? ? []|]; try done. right. by rewrite Fc. }
  rewrite Hi. destruct r as [c'|[f|]].
  - apply (Hnew _ False); [by rewrite Hone|done|done].
  - apply (Hnew _ True); [by rewrite Hone| |done]. intros _. right. apply Exists_app. right. by left.
  - destruct Hc as [Hc _]. apply (Hnew _ False); [by rewrite Hone|done|done].
Qed.

Lemma reachable_inv s : session_reachable s → session_inv s.
Proof using Type.
  induction 1 as [|s l s' _ IH H].
  - split; [|done]. split; [done|done|done|]. unfold connection. done.
  - destruct l as [now a| |i o]; cbn [session_next] in H.
    + by eapply run_next_inv.
    + injection H as <-. by apply stop_begin_inv.
    + by eapply stop_next_inv.
Qed.

Lemma connection_closed l br s : connection l br s → ∃ b, closed_transports s = first_transports (active_generation s) b.
Proof using Type.
  unfold connection. destruct (active_transport s); [|by intros (_ & H & _); exists true]. intros (-> & _ & H).
  destruct (closed_generation s); [|destruct H as (_ & H & _); by exists false]. destruct H as (_ & H).
  destruct l as [|c [|]]; [destruct H as (_ & b & _ & H & _); by exists b|destruct H as (_ & H & _); by eexists|done].
Qed.

(** C32. Whatever [run] awaited gave, and however calls of [stop] came in between: the connections
    are numbered from 1 in the order of their CONNECTED events; [close] is called at most once on each transport, and
    before another connection is asked for on every earlier one; and once [run] and the calls
    of [stop] have returned, on every one, each with its CLOSED event. *)
Theorem session_closes_once s :
  session_reachable s →
  let g := active_generation s in
  generations_of CONNECTED (emitted s) = seqZ 1 g ∧
  NoDup (closed_transports s) ∧ (∀ t, t ∈ closed_transports s → 1 ≤ t ≤ g) ∧
  (∀ t, 1 ≤ t < g → t ∈ closed_transports s) ∧
  match run s with
  | RAt _ _ (PConnecting | PConnect | PScheduled | PSleep) => closed_transports s = seqZ 1 g
  | REnded None => Forall (λ x, x = SEnded None) (stops s) →
      closed_transports s = seqZ 1 g ∧ generations_of CLOSED (emitted s) = seqZ 1 g
  | _ => True
  end.
Proof using Type.
  intros [[C1 C2 C3 C4] Hd]%reachable_inv g. pose proof (connection_closed _ _ _ C4) as [b Hb]. fold g in Hb.
  split; [exact C3|]. rewrite Hb. split; [apply NoDup_seqZ|].
  split; [intros t (H1 & H2)%elem_of_seqZ; destruct b; lia|]. split; [intros t Ht; apply elem_of_seqZ; destruct b; lia|].
  rewrite <- Hb. unfold stands, connection in *. destruct (run s) as [|? ? []|[f|]] eqn:Er; try done.
  1-4: rewrite Hd in C4; by destruct C4 as (_ & H & _).
  intros Hst. destruct (active_transport s) as [t|] eqn:Et; [|by destruct C4 as (_ & H & H')].
  exfalso. destruct C4 as (-> & _ & C4). destruct Hd as [Hd|Hd]; [congruence|].
  destruct (closed_generation s); [|done]. destruct C4 as [_ C4].
  assert (stop_closings (stops s) = []) as Hl.
  { clear -Hst. unfold stop_closings. induction Hst as [|x l -> _ IH]; [done|]. cbn [omap list_omap]. exact IH. }
  rewrite Hl in C4. destruct C4 as [[[]|Hbr] _]. unfold stop_broken in Hbr.
  apply Exists_exists in Hbr as (x & Hx & Hbr). rewrite Forall_forall in Hst. by rewrite (Hst x Hx) in Hbr.
Qed.

(** ** Stopping *)

(** The steps [run] has left, at most, once the session is stopped. *)
Definition close_steps (c : closing) : nat :=
  (match cl_point c with CSend l => 4 + length l | CUnsubscribed => 3 | CClose => 2 | CClosed => 1 end)%nat.
Definition close_bound : nat := (4 + length unsubscribe_messages)%nat.
Definition steps_left (r : run_state) : nat :=
  (match r with
  | RNew => 1
  | REnded _ => 0
  | RAt _ _ p =>
    match p with
    | PClose c _ => close_steps c
    | PSleep => 1
    | PScheduled => 2
    | PDisconnected | PSubscribed | PHandle => 1 + close_bound
    | PReceived _ => 2 + close_bound
    | PHeartbeatOk _ => 3 + close_bound
    | PProbe => 4 + close_bound
    | PHeartbeatSent => 5 + close_bound
    | PReceive => 6 + close_bound
    | PSend l => 2 + close_bound + length l
    | PConnected => 3 + close_bound + length subscribe_messages
    | PConnect => 4 + close_bound + length subscribe_messages
    | PConnecting => 5 + close_bound + length subscribe_messages
    end
  end)%nat.

Lemma close_active_steps attempt graceful s s' c :
  close_active attempt graceful s = (s', Some c) → (close_steps c ≤ close_bound)%nat ∧ s_stop s' = s_stop s.
Proof using Type.
  unfold close_active. destruct (active_transport s); [|done]. case_bool_decide; [done|]. unfold close_bound.
  destruct graceful, unsubscribe_messages; intros [= <- <-]; cbn; split; (lia || done).
Qed.

Lemma close_next_steps c o s s' r :
  close_next c o s = (s', r) → s_stop s' = s_stop s ∧ match r with inl c' => (close_steps c' < close_steps c)%nat | _ => True end.
Proof using Type.
  unfold close_next, close_steps. destruct (cl_point c) as [[|x [|y left]]| | |], o as [f|]; try destruct (suppressed f);
    intros [= <- <-]; cbn; split; (lia || done).
Qed.

(** A state with the session stopped and at most [n] steps of [run] left. *)
Definition stopped_within (n : nat) (s : PublicWebSocketSession) : Prop := s_stop s = true ∧ (steps_left (run s) ≤ n)%nat.

Lemma after_close_stopped k t now raising s : s_stop s = true → stopped_within 0 (after_close k t now raising s).
Proof using Type. intros H. unfold after_close. rewrite H. by destruct raising. Qed.

Lemma finally_stopped k t now raising s : s_stop s = true → stopped_within close_bound (finally k t now raising s).
Proof using Type.
  intros H. unfold finally. destruct (close_active _ _ s) as [s' [c|]] eqn:E.
  - destruct (close_active_steps _ _ _ _ _ E) as [H1 H2]. split; [cbn [s_stop at_run]; by rewrite H2|exact H1].
  - assert (s' = s) as -> by (unfold close_active in E; destruct (active_transport s); [|by injection E];
      case_bool_decide; [by injection E|]; destruct (s_stop s), unsubscribe_messages; discriminate E).
    destruct (after_close_stopped k t now raising s H). split; [done|lia].
Qed.

Lemma try_failed_stopped k t now f s : s_stop s = true → stopped_within close_bound (try_failed k t now f s).
Proof using Type.
  intros H. unfold try_failed. case_bool_decide; [by apply finally_stopped|]. rewrite H.
  destruct (recoverable f); by apply finally_stopped.
Qed.

Lemma receive_loop_stopped k t now s : s_stop s = true → stopped_within close_bound (receive_loop k t now s).
Proof using Type. intros H. unfold receive_loop. rewrite H. by apply finally_stopped. Qed.

Lemma run_next_stopped now a s s' :
  s_stop s = true → run_next now a s = Some s' → s_stop s' = true ∧ (steps_left (run s') < steps_left (run s))%nat.
Proof using Type.
  intros Hs H. unfold run_next in H. destruct (run s) as [|k t p|o] eqn:Er; [|..|done].
  { destruct a; try done. injection H as <-. unfold start_connection. rewrite Hs. by split; [|simpl; lia]. }
  assert (∀ n s1, stopped_within n s1 → (n < steps_left (RAt k t p))%nat →
    s_stop s1 = true ∧ (steps_left (run s1) < steps_left (RAt k t p))%nat) as Hw
    by (intros n s1 [H1 H2] Hn; split; [done|lia]).
  destruct p as [| | | |m|m| | | |l| | | |c raising|].
  14: { destruct a; try discriminate H; destruct (close_next c _ s) as [s1 r] eqn:E; injection H as <-;
    destruct (close_next_steps _ _ _ _ _ E) as [H1 H2]; rewrite Hs in H1; destruct r as [c'|[e|]]; try (by split);
    (eapply Hw; [by apply after_close_stopped|cbn; unfold close_steps; destruct (cl_point c); lia]) || (split; [done|cbn; unfold close_steps; destruct (cl_point c); lia]). }
  all: repeat match type of H with
    | match ?x with _ => _ end = Some _ => destruct x; try discriminate H
    end; try injection H as <-.
  all: try (eapply Hw; [by apply try_failed_stopped|cbn [steps_left length]; lia]).
  all: try (eapply Hw; [by apply receive_loop_stopped|cbn [steps_left length]; lia]).
  all: try (eapply Hw; [by apply finally_stopped|cbn [steps_left length]; lia]).
  all: try (split; [exact Hs|cbn [steps_left run at_run emit received subscribed length]; lia]).
  - clear Hw. cbn [steps_left]. destruct subscribe_messages; (split; [exact Hs|cbn [steps_left run at_run emit subscribed length]; lia]).
  - unfold start_connection. rewrite Hs. split; [exact Hs|cbn; lia].
Qed.

(** Steps of a session, with the number of those of [run]. *)
Inductive session_steps : PublicWebSocketSession → nat → PublicWebSocketSession → Prop :=
| steps_refl s : session_steps s 0 s
| steps_run s n s1 now a s2 :
    session_steps s n s1 → session_next (LRun now a) s1 = Some s2 → session_steps s (S n) s2
| steps_stop s n s1 l s2 :
    session_steps s n s1 → match l with LRun _ _ => False | _ => True end → session_next l s1 = Some s2 →
    session_steps s n s2.

Lemma close_next_stop c o s s' r : close_next c o s = (s', r) → s_stop s' = s_stop s ∧ run s' = run s.
Proof using Type.
  unfold close_next. destruct (cl_point c) as [[|x [|y l]]| | |], o as [f|]; try destruct (suppressed f); by intros [= <- <-].
Qed.

Lemma other_next l s s' :
  match l with LRun _ _ => False | _ => True end → session_next l s = Some s' →
  run s' = run s ∧ (s_stop s = true → s_stop s' = true).
Proof using Type.
  intros Hl H. destruct l as [| |i o]; [done|..]; cbn [session_next] in H.
  - injection H as <-. unfold stop_begin, close_active. cbn [active_transport closed_generation active_generation].
    destruct (active_transport s); [|done]. case_bool_decide; [done|]. by destruct unsubscribe_messages.
  - unfold stop_next in H. destruct (stops s !! i) as [[c|]|]; [|done..]. destruct (close_next c o s) as [s1 r] eqn:E.
    injection H as <-. destruct (close_next_stop _ _ _ _ _ E) as [H1 H2]. cbn [run s_stop]. by rewrite H1, H2.
Qed.

Lemma steps_stopped s n s' :
  s_stop s = true → session_steps s n s' → s_stop s' = true ∧ (steps_left (run s') + n ≤ steps_left (run s))%nat.
Proof using Type.
  intros Hs. induction 1 as [s|s n s1 now a s2 _ IH H|s n s1 l s2 _ IH Hl H]; [by split; [|lia]|..].
  - destruct (IH Hs) as [H1 H2]. destruct (run_next_stopped now a s1 s2 H1 H) as [H3 H4]. split; [done|lia].
  - destruct (IH Hs) as [H1 H2]. destruct (other_next l s1 s2 Hl H) as [H3 H4]. split; [auto|]. by rewrite H3.
Qed.

(** Sends and closes never have more left than they started with. *)
Definition within_bounds (r : run_state) : Prop :=
  match r with
  | RAt _ _ (PSend l) => (length l ≤ length subscribe_messages)%nat
  | RAt _ _ (PClose c _) => (close_steps c ≤ close_bound)%nat
  | _ => True
  end.

Lemma after_close_bounds k t now raising s : within_bounds (run (after_close k t now raising s)).
Proof using Type. unfold after_close. destruct raising; [done|]. destruct (s_stop s); [done|]. by destruct (delay _ _ _). Qed.

Lemma finally_bounds k t now raising s : within_bounds (run (finally k t now raising s)).
Proof using Type.
  unfold finally. destruct (close_active _ _ s) as [s' [c|]] eqn:E; [by destruct (close_active_steps _ _ _ _ _ E)|].
  apply after_close_bounds.
Qed.

Lemma run_next_bounds now a s s' : within_bounds (run s) → run_next now a s = Some s' → within_bounds (run s').
Proof using Type.
  intros Hb H. unfold run_next in H. destruct (run s) as [|k t p|o] eqn:Er; [|..|done].
  { destruct a; try done. injection H as <-. unfold start_connection. by destruct (s_stop s). }
  destruct p as [| | | |m|m| | | |l| | | |c raising|].
  14: { destruct a; try discriminate H; destruct (close_next c _ s) as [s1 r] eqn:E; injection H as <-;
    destruct (close_next_steps _ _ _ _ _ E) as [H1 H2]; cbn [within_bounds] in Hb; destruct r as [c'|[e|]]; try done;
    (apply after_close_bounds || (cbn [within_bounds run at_run]; lia)). }
  all: repeat match type of H with
    | match ?x with _ => _ end = Some _ => destruct x; try discriminate H
    end; try injection H as <-; try done.
  all: unfold try_failed, receive_loop, start_connection; repeat case_match; try done; try apply finally_bounds.
  - by match goal with H : subscribe_messages = _ |- _ => rewrite <- H; cbn end.
  - cbn [within_bounds run at_run length] in *. lia.
Qed.

Lemma reachable_bounds s : session_reachable s → (steps_left (run s) ≤ 10 + length subscribe_messages + length unsubscribe_messages)%nat.
Proof using Type.
  intros Hs. assert (within_bounds (run s)) as H.
  { induction Hs as [|s l s' _ IH H]; [done|]. destruct l as [now a| |i o]; [by eapply run_next_bounds|..];
      (eapply (other_next _ s s') in H as [-> _]; [done|done]). }
  clear Hs. unfold close_bound, within_bounds in *. destruct (run s) as [|k t p|]; cbn [steps_left]; [lia| |lia].
  destruct p; cbv beta iota in H |- *; unfold close_bound in *; lia.
Qed.


(** A list of steps. *)
Fixpoint session_run (ls : list label) (s : PublicWebSocketSession) : option PublicWebSocketSession :=
  match ls with
  | [] => Some s
  | l :: ls => s ← session_next l s; session_run ls s
  end.
Definition run_steps (ls : list label) : nat :=
  foldr (λ l n, match l with LRun _ _ => S n | _ => n end) O ls.

Lemma session_run_reachable ls s s' : session_reachable s → session_run ls s = Some s' → session_reachable s'.
Proof using Type.
  revert s. induction ls as [|l ls IH]; intros s Hs H; [by injection H as <-|]. cbn [session_run] in H.
  destruct (session_next l s) as [s1|] eqn:E; [|done]. eapply IH; [|exact H]. by eapply session_step.
Qed.

Lemma session_run_steps ls s0 n s s' :
  session_steps s0 n s → session_run ls s = Some s' → session_steps s0 (n + run_steps ls) s'.
Proof using Type.
  revert n s. induction ls as [|l ls IH]; intros n s Hs H.
  - injection H as <-. cbn. by rewrite Nat.add_0_r.
  - cbn [session_run] in H. destruct (session_next l s) as [s1|] eqn:E; [|done]. destruct l as [now a| |i o]; cbn [run_steps foldr].
    + rewrite Nat.add_succ_r. apply (IH (S n) s1); [|exact H]. by eapply steps_run.
    + apply (IH n s1); [|exact H]. by eapply (steps_stop _ _ s LStop).
    + apply (IH n s1); [|exact H]. by eapply (steps_stop _ _ s (LStopNext i o)).
Qed.
End session.

(** ** The delay *)

Lemma doubled_bound maximum rounds base :
  feqb maximum maximum = true → fleb base maximum = true → fleb (doubled maximum rounds base) maximum = true.
Proof.
  intros Hm. revert base. induction rounds as [|n IH]; intros base Hb; [exact Hb|]. cbn [doubled]. cbv zeta.
  assert (fleb (fmin maximum (fmul base (float_of_int 2))) maximum = true) as H.
  { unfold fmin. destruct (fltb _ maximum) eqn:E.
    - revert E. unfold fltb, fleb, SFltb, SFleb. by destruct (SFcompare (fmul _ _) maximum) as [[]|].
    - revert Hm. unfold feqb, fleb, SFeqb, SFleb. by destruct (SFcompare maximum maximum) as [[]|]. }
  destruct (feqb (fmin _ _) maximum); [exact H|]. by apply IH.
Qed.

(** ** A session evaluated

    A connection whose transport closes, the reconnection, and a stop while a frame is
    awaited: the close of the transport wakes [run]. *)

Definition demo_backoff : BackoffPolicy :=
  {| initial_seconds := f1; maximum_seconds := float_of_int 30; jitter_seconds := f1; stable_reset_seconds := float_of_int 60 |}.
Definition demo_uniform (a b : float) : float := a.
Abbreviation demo_next := (session_run (message := string) ["subscribe"%string] ["unsubscribe"%string] demo_backoff demo_uniform).
Definition demo_labels : list (label (message := string)) :=
  [LRun f1 Returned; LRun f1 Returned; LRun f1 Returned; LRun f1 Returned; LRun f1 Returned; LRun f1 Returned;
   LRun f1 (Frame "a"%string); LRun f1 Returned; LRun f1 Returned; LRun f1 (Raised ConnectionClosed); LRun f1 Returned;
   LRun f1 Returned; LRun f1 Returned; LRun f1 Returned; LRun f1 Returned; LRun f1 Returned; LRun f1 Returned;
   LRun f1 Returned; LRun f1 Returned; LRun f1 Returned].
Definition demo_stopped := Eval vm_compute in
  match demo_next (demo_labels ++ [LStop]) session_init with Some s => s | None => session_init end.
Definition demo_last : list (label (message := string)) :=
  [LStopNext 0 None; LStopNext 0 None; LRun f1 (Raised ConnectionClosed); LStopNext 0 None; LStopNext 0 None].
Definition demo_ended := Eval vm_compute in
  match demo_next demo_last demo_stopped with Some s => s | None => session_init end.

Abbreviation demo_reachable := (session_reachable ["subscribe"%string] ["unsubscribe"%string] demo_backoff demo_uniform).

Lemma demo_stopped_reachable : demo_reachable demo_stopped.
Proof. apply (session_run_reachable _ _ _ _ (demo_labels ++ [LStop]) session_init); [constructor|]. vm_compute. reflexivity. Qed.
Lemma demo_ended_reachable : demo_reachable demo_ended.
Proof. apply (session_run_reachable _ _ _ _ demo_last demo_stopped); [exact demo_stopped_reachable|]. vm_compute. reflexivity. Qed.

Lemma session_closes_once_witness :
  run demo_ended = REnded None ∧ closed_transports demo_ended = [1; 2] ∧ generations_of CLOSED (emitted demo_ended) = [1; 2].
Proof.
  split; [reflexivity|].
  pose proof (session_closes_once _ _ _ _ demo_ended demo_ended_reachable) as (_ & _ & _ & _ & H).
  change (run demo_ended) with (@REnded string None) in H. cbv beta iota in H. exact (H ltac:(by repeat constructor)).
Defined.

