(* ===== verification/PriceCache.v ===== *)
(** * The price history cache

    [features/single_venue.py: _PriceHistoryCache]: prefix sums, one-second buckets
    and a lazily compacted list of points answer range queries over the price window,
    whose direct computation is [_one_second_atr] and a scan of the window.
    [math.log] and the JSON digest of an event are parameters. *)

From S2P Require Import Prelude Effects PyDecimal PyFloat PyTime Models Rolling Lineage.

(** [Trade | BestBidAsk | MarkPrice], as an object with its identity. *)
Inductive price_event := PTrade (t : Trade) | PQuote (q : BestBidAsk) | PMark (m : MarkPrice).
Record price_object := { object_id : Z; price_of_object : price_event }.

Definition reference_price (o : price_object) : decimal :=
  match price_of_object o with
  | PTrade t => trade_price t
  | PQuote q => mid_price q
  | PMark m => mark_price m
  end.

Record CachedPricePoint := {
  pp_timestamp : Z;
  pp_ordinal : Z;
  pp_price : decimal;
  pp_source : price_object;
  prefix_squared_log_return : float;
  prefix_valid_log_returns : Z;
  prefix_digest_sum : Z;
  prefix_digest_xor : Z }.

Record PriceSecondBucket := {
  pb_second : Z; pb_high : decimal; pb_low : decimal; pb_close : decimal }.

Definition new_bucket (second : Z) (price : decimal) : PriceSecondBucket :=
  {| pb_second := second; pb_high := price; pb_low := price; pb_close := price |}.
Definition bucket_append (b : PriceSecondBucket) (price : decimal) : PriceSecondBucket :=
  {| pb_second := pb_second b; pb_high := dmax (pb_high b) price;
     pb_low := dmin (pb_low b) price; pb_close := price |}.

Record PriceRange := {
  range_count : Z;
  range_first : option decimal;
  range_last : option decimal;
  realized_volatility : option float }.

Record PriceHistoryCache := {
  points : list CachedPricePoint;
  timestamps : list Z;
  bucket_seconds : list Z;
  buckets : list PriceSecondBucket;
  source_positions : list (Z * (price_object * Z));
  active_start : nat;
  last_ordinal : Z;
  base_squared_log_return : float;
  base_digest_sum : Z;
  base_digest_xor : Z }.

Definition price_cache_init : PriceHistoryCache :=
  {| points := []; timestamps := []; bucket_seconds := []; buckets := []; source_positions := [];
     active_start := 0; last_ordinal := 0; base_squared_log_return := f0;
     base_digest_sum := 0; base_digest_xor := 0 |}.

Definition TRIM_BATCH : nat := 4096.
Definition digest_mask : Z := Z.shiftl 1 256 - 1.

(** [_second]. *)
Definition second_of (t : Z) : Z := int_timestamp t.

(** [datetime.fromtimestamp(second, tz=UTC)] of an integer. *)
Definition from_second (second : Z) : res Z :=
  _ ← require ((min_datetime <=? seconds second) && (seconds second <=? max_datetime))
        (ValueError "year is out of range");
  Ok (seconds second).

(** [max(values)] and [min(values)]. *)
Definition max_of (l : list decimal) : res decimal :=
  match l with [] => Err (ValueError "max() iterable argument is empty") | x :: l => Ok (foldl dmax x l) end.
Definition min_of (l : list decimal) : res decimal :=
  match l with [] => Err (ValueError "min() iterable argument is empty") | x :: l => Ok (foldl dmin x l) end.

(** [l[i]] for an index in no danger of being negative. *)
Definition item_at {A} (l : list A) (i : nat) : res A :=
  match l !! i with Some x => Ok x | None => Err IndexError end.

(** The end of both range computations: the true range of a second, and the mean. *)
Definition true_range (previous_close : option decimal) (high low : decimal) : decimal :=
  let range := dsub high low in
  match previous_close with
  | None => range
  | Some p => dmax (dmax range (dabs (dsub high p))) (dabs (dsub low p))
  end.

Fixpoint true_ranges (previous_close : option decimal) (l : list PriceSecondBucket) : list decimal :=
  match l with
  | [] => []
  | b :: l => true_range previous_close (pb_high b) (pb_low b) :: true_ranges (Some (pb_close b)) l
  end.

Definition mean_of (l : list decimal) : res decimal :=
  ddiv (dsum l) (of_int (Z.of_nat (length l))).

(** ** The direct computation *)

(** [buckets.setdefault(second, []).append(price)]. *)
Definition group_step (d : list (Z * list decimal)) (x : TimedValue price_object)
    : list (Z * list decimal) :=
  let second := second_of (tv_timestamp x) in
  dict_set second (default [] (dict_get second d) ++ [reference_price (tv_value x)]) d.

(** The high, low and close of a second's prices. *)
Definition bucket_of (second : Z) (prices : list decimal) : res PriceSecondBucket :=
  high ← max_of prices; low ← min_of prices;
  match last prices with
  | Some close => Ok {| pb_second := second; pb_high := high; pb_low := low; pb_close := close |}
  | None => Err IndexError
  end.

Definition one_second_atr (prices : list (TimedValue price_object)) : res (option decimal) :=
  if (length prices <? 2)%nat then Ok None
  else
    let groups := foldl group_step [] prices in
    bs ← mapR (λ second, match dict_get second groups with
                         | Some values => bucket_of second values
                         | None => Err KeyError
                         end) (py_sorted Z.leb (map fst groups));
    match true_ranges None bs with
    | [] => Ok None
    | l => m ← mean_of l; Ok (Some m)
    end.

Section cache.
(** [semantic_source_digest] of an event, and [math.log]. *)
Context (semantic_source_digest : Z → price_event → string) (math_log : float → res float).

Abbreviation CM := (M PriceHistoryCache).

(** [int(source_digest, 16)]. *)
Definition digest_value (t : Z) (o : price_object) : res Z :=
  match int16 (semantic_source_digest t (price_of_object o)) with
  | Some n => Ok n
  | None => Err (ValueError "invalid literal for int() with base 16")
  end.

Definition log_return (previous price : decimal) : res float :=
  ratio ← ddiv price previous; math_log (float_of_decimal ratio).

(** The bucket of the newest second, extended or new. *)
Definition add_to_buckets (second : Z) (price : decimal) (c : PriceHistoryCache) : PriceHistoryCache :=
  if bool_decide (last (bucket_seconds c) = Some second) then
    match last (buckets c) with
    | Some b => {| c with buckets := removelast (buckets c) ++ [bucket_append b price] |}
    | None => c
    end
  else {| c with bucket_seconds := bucket_seconds c ++ [second];
                 buckets := buckets c ++ [new_bucket second price] |}.

Definition append_point (item : TimedValue price_object) : CM unit :=
  c ← getM;
  let timestamp := tv_timestamp item in
  let price := reference_price (tv_value item) in
  let previous := last (points c) in
  let squared := match previous with None => base_squared_log_return c
                 | Some p => prefix_squared_log_return p end in
  let returns := match previous with None => 0 | Some p => prefix_valid_log_returns p end in
  returned ← liftM (match previous with
    | Some p =>
      if dltb d0 (pp_price p) && dltb d0 price then
        r ← log_return (pp_price p) price; Ok (fadd squared (fmul r r), returns + 1)
      else Ok (squared, returns)
    | None => Ok (squared, returns)
    end);
  digest ← liftM (digest_value timestamp (tv_value item));
  let previous_sum := match previous with None => base_digest_sum c | Some p => prefix_digest_sum p end in
  let previous_xor := match previous with None => base_digest_xor c | Some p => prefix_digest_xor p end in
  _ ← modifyM (λ c, {| c with
    points := points c ++
      [{| pp_timestamp := timestamp; pp_ordinal := tv_ordinal item; pp_price := price;
          pp_source := tv_value item; prefix_squared_log_return := returned.1;
          prefix_valid_log_returns := returned.2;
          prefix_digest_sum := Z.land (previous_sum + digest) digest_mask;
          prefix_digest_xor := Z.lxor previous_xor digest |}];
    timestamps := timestamps c ++ [timestamp];
    source_positions := dict_set (object_id (tv_value item)) (tv_value item, timestamp)
                          (source_positions c) |});
  modifyM (add_to_buckets (second_of timestamp) price).

Definition rebuild (items : list (TimedValue price_object)) (latest : Z) : CM unit :=
  _ ← modifyM (λ c, {| c with points := []; timestamps := []; bucket_seconds := []; buckets := [];
        source_positions := []; active_start := 0; base_squared_log_return := f0;
        base_digest_sum := 0; base_digest_xor := 0 |});
  _ ← forM append_point items;
  modifyM (λ c, {| c with last_ordinal := latest |}).

Definition rebuild_first_bucket : CM unit :=
  c ← getM;
  match points c, buckets c with
  | p :: _, _ :: later =>
    let first_second := second_of (pp_timestamp p) in
    first ← liftM (item_at (bucket_seconds c) 0);
    _ ← requireM (first =? first_second)
          (RuntimeError "price bucket index diverged from cached points");
    stop ← liftM (from_second (first_second + 1));
    let n := bisect (λ t, t <? stop) (timestamps c) 0 in
    b ← liftM (bucket_of first_second (map pp_price (take n (points c))));
    modifyM (λ c, {| c with buckets := b :: later |})
  | _, _ => mret tt
  end.

(** The [while] over the points of the earliest instant. *)
Fixpoint skip_points (t ordinal : Z) (l : list CachedPricePoint) : nat :=
  match l with
  | p :: l => if (pp_timestamp p =? t) && negb (pp_ordinal p =? ordinal)
              then S (skip_points t ordinal l) else 0
  | [] => 0
  end.

(** The [for] over the points that leave the window. *)
Definition forget_source (d : list (Z * (price_object * Z))) (p : CachedPricePoint)
    : list (Z * (price_object * Z)) :=
  match dict_get (object_id (pp_source p)) d with
  | Some (o, t) =>
    if (object_id o =? object_id (pp_source p)) && (t =? pp_timestamp p)
    then dict_pop (object_id (pp_source p)) d else d
  | None => d
  end.

(** The compaction at the end of [_trim_to_retained_window]. *)
Definition compact : CM unit :=
  c ← getM;
  match last (take (active_start c) (points c)) with
  | None => mret tt
  | Some removed =>
    _ ← modifyM (λ c, {| c with
          base_squared_log_return := prefix_squared_log_return removed;
          base_digest_sum := prefix_digest_sum removed;
          base_digest_xor := prefix_digest_xor removed;
          points := drop (active_start c) (points c);
          timestamps := drop (active_start c) (timestamps c); active_start := 0 |});
    c ← getM;
    match points c with
    | [] => modifyM (λ c, {| c with bucket_seconds := []; buckets := [] |})
    | p :: _ =>
      let n := bisect (λ s, s <? second_of (pp_timestamp p)) (bucket_seconds c) 0 in
      _ ← modifyM (λ c, {| c with bucket_seconds := drop n (bucket_seconds c);
                                  buckets := drop n (buckets c) |});
      rebuild_first_bucket
    end
  end.

Definition trim_to_retained_window (w : BoundedTimeWindow price_object) : CM unit :=
  c ← getM;
  match earliest w with
  | None => if bool_decide (points c = []) then mret tt else rebuild [] (latest_ordinal w)
  | Some e =>
    let first := bisect (λ t, t <? tv_timestamp e) (timestamps c) (active_start c) in
    let trim := (first + skip_points (tv_timestamp e) (tv_ordinal e) (drop first (points c)))%nat in
    if match points c !! trim with Some p => pp_ordinal p =? tv_ordinal e | None => false end then
      _ ← requireM (negb (trim <? active_start c)%nat)
            (RuntimeError "price cache active boundary moved backwards");
      let left := drop (active_start c) (take trim (points c)) in
      _ ← modifyM (λ c, {| c with source_positions := foldl forget_source (source_positions c) left;
                                  active_start := trim |});
      if (trim <? TRIM_BATCH)%nat &&
         (Z.of_nat (length (points c)) <=? maximum_items w + Z.of_nat TRIM_BATCH) then mret tt
      else compact
    else rebuild (w_items w) (latest_ordinal w)
  end.

(** Whether the new items go on in key order: the [for] of [update]. *)
Fixpoint in_order (previous : option (Z * Z)) (l : list (TimedValue price_object)) : bool :=
  match l with
  | [] => true
  | x :: l =>
    match previous with
    | Some key => if key_ltb (key_of x) key then false else in_order (Some (key_of x)) l
    | None => in_order (Some (key_of x)) l
    end
  end.

Definition update (w : BoundedTimeWindow price_object) : CM unit :=
  c ← getM;
  new_items ← liftM (items_appended_after w (last_ordinal c));
  let previous := (λ p, (pp_timestamp p, pp_ordinal p)) <$> last (points c) in
  if in_order previous new_items then
    _ ← forM append_point new_items;
    _ ← modifyM (λ c, {| c with last_ordinal := latest_ordinal w |});
    trim_to_retained_window w
  else rebuild (w_items w) (latest_ordinal w).

(** ** Queries *)

Implicit Types c : PriceHistoryCache.

Definition price_utc (d : datetime) : res Z :=
  as_utc "feature decision timestamps must be timezone-aware" d.

Definition cache_bounds c (start stop : datetime) : res (nat * nat) :=
  start ← price_utc start;
  stop ← price_utc stop;
  _ ← require (negb (stop <? start)) (ValueError "price query end cannot precede start");
  Ok (bisect (λ t, t <=? start) (timestamps c) (active_start c),
      bisect (λ t, t <=? stop) (timestamps c) (active_start c)).

Definition cache_range c (start stop : datetime) : res PriceRange :=
  '(lo, hi) ← cache_bounds c start stop;
  if (hi <=? lo)%nat then
    Ok {| range_count := 0; range_first := None; range_last := None; realized_volatility := None |}
  else
    first ← item_at (points c) lo;
    last ← item_at (points c) (hi - 1);
    let squared := fmax f0 (fsub (prefix_squared_log_return last) (prefix_squared_log_return first)) in
    let returns := prefix_valid_log_returns last - prefix_valid_log_returns first in
    Ok {| range_count := Z.of_nat (hi - lo); range_first := Some (pp_price first);
          range_last := Some (pp_price last);
          realized_volatility := if returns <? 2 then None else Some (fsqrt squared) |}.

Definition cache_lineage c (start stop : datetime) : res SourceLineage :=
  '(lo, hi) ← cache_bounds c start stop;
  if (hi <=? lo)%nat then Ok empty_lineage
  else
    first ← item_at (points c) lo;
    last ← item_at (points c) (hi - 1);
    before ← (if Nat.eqb lo 0 then Ok (base_digest_sum c, base_digest_xor c)
              else p ← item_at (points c) (lo - 1);
                   Ok (prefix_digest_sum p, prefix_digest_xor p));
    mk_lineage (Z.of_nat (hi - lo)) (Z.land (prefix_digest_sum last - before.1) digest_mask)
      (Z.lxor (prefix_digest_xor last) before.2)
      (Some (utc (pp_timestamp first))) (Some (utc (pp_timestamp last))).

Definition covers_source c (source : price_object) (start stop : datetime) : res bool :=
  match dict_get (object_id source) (source_positions c) with
  | Some (o, t) =>
    if object_id o =? object_id source then
      start ← price_utc start;
      if start <? t then stop ← price_utc stop; Ok (t <=? stop) else Ok false
    else Ok false
  | None => Ok false
  end.

Definition partial_bucket c (second : Z) (lo hi : nat) : res (option PriceSecondBucket) :=
  second_start ← from_second second;
  second_end ← from_second (second + 1);
  let bucket_left := Nat.max lo (bisect (λ t, t <? second_start) (timestamps c) 0) in
  let bucket_right := Nat.min hi (bisect (λ t, t <? second_end) (timestamps c) 0) in
  if (bucket_right <=? bucket_left)%nat then Ok None
  else b ← bucket_of second
             (map pp_price (drop bucket_left (take bucket_right (points c))));
       Ok (Some b).

Definition cache_buckets c (start stop : datetime) : res (list PriceSecondBucket) :=
  start ← price_utc start;
  stop ← price_utc stop;
  '(lo, hi) ← cache_bounds c (utc start) (utc stop);
  if (hi <=? lo)%nat then Ok []
  else
    first ← item_at (points c) lo;
    last ← item_at (points c) (hi - 1);
    let first_second := second_of (pp_timestamp first) in
    let last_second := second_of (pp_timestamp last) in
    let bucket_left := bisect (λ s, s <? first_second) (bucket_seconds c) 0 in
    let bucket_right := bisect (λ s, s <=? last_second) (bucket_seconds c) 0 in
    selected ← mapR (λ index,
      bucket ← item_at (buckets c) index;
      if (pb_second bucket =? first_second) || (pb_second bucket =? last_second)
      then partial_bucket c (pb_second bucket) lo hi
      else Ok (Some bucket) : res (option PriceSecondBucket)) (seq bucket_left (bucket_right - bucket_left));
    Ok (omap (λ b : option PriceSecondBucket, b) (selected : list _)).

Definition high_low c (start stop : datetime) : res (option decimal * option decimal) :=
  bs ← cache_buckets c start stop;
  match bs with
  | [] => Ok (None, None)
  | _ => high ← max_of (map pb_high bs); low ← min_of (map pb_low bs); Ok (Some high, Some low)
  end.

Definition cache_atr c (start stop : datetime) : res (option decimal) :=
  '(lo, hi) ← cache_bounds c start stop;
  if (hi - lo <? 2)%nat then Ok None
  else
    bs ← cache_buckets c start stop;
    match bs with
    | [] => Ok None
    | _ => m ← mean_of (true_ranges None bs); Ok (Some m)
    end.


End cache.

(** ** Seconds

    [prices_in s l]: the prices of the items of [l] in second [s], whose bucket is
    [bucket_val]. *)

Abbreviation item := (TimedValue price_object).
Implicit Types (l : list item) (c : PriceHistoryCache).

Definition item_second (x : item) : Z := second_of (tv_timestamp x).
Definition item_price (x : item) : decimal := reference_price (tv_value x).
Definition prices_in (s : Z) l : list decimal := map item_price (filter (λ x, item_second x = s) l).
Definition bucket_val (s : Z) (ps : list decimal) : PriceSecondBucket :=
  match ps with
  | [] => new_bucket s d0
  | p :: ps' => {| pb_second := s; pb_high := foldl dmax p ps'; pb_low := foldl dmin p ps';
                   pb_close := List.last ps' p |}
  end.

(** The distinct seconds of [l], ascending. *)
Definition seconds_of (ss : list Z) l : Prop :=
  StronglySorted Z.lt ss ∧ ∀ s, s ∈ ss ↔ s ∈ map item_second l.

Lemma seconds_of_unique ss ss' l : seconds_of ss l → seconds_of ss' l → ss = ss'.
Proof.
  intros [Hs H] [Hs' H']. apply (StronglySorted_ext Z.lt); [lia|done..|].
  intros s. by rewrite H, H'.
Qed.

Lemma last_default {A} (x : A) (xs : list A) : last (x :: xs) = Some (List.last xs x).
Proof.
  revert x. induction xs as [|y xs IH]; intros x; [done|].
  change (last (x :: y :: xs)) with (last (y :: xs)). rewrite IH. f_equal.
  destruct xs as [|z xs]; [done|]. change (List.last (z :: xs) y = List.last (z :: xs) x).
  clear. revert z. induction xs as [|u xs IH]; intros z; [done|]. apply IH.
Qed.

Lemma bucket_of_val s ps : ps ≠ [] → bucket_of s ps = Ok (bucket_val s ps).
Proof. destruct ps as [|p ps]; [done|]. intros _. unfold bucket_of. by rewrite last_default. Qed.

Lemma bucket_val_snoc s ps p : ps ≠ [] → bucket_val s (ps ++ [p]) = bucket_append (bucket_val s ps) p.
Proof.
  destruct ps as [|p0 ps]; [done|]. intros _. simpl. unfold bucket_append. simpl.
  rewrite !foldl_app. simpl. f_equal. apply List.last_last.
Qed.

Lemma prices_in_snoc s l x :
  prices_in s (l ++ [x]) = prices_in s l ++ (if decide (item_second x = s) then [item_price x] else []).
Proof.
  unfold prices_in. rewrite filter_app, map_app, filter_cons, filter_nil. by case_decide.
Qed.

Lemma prices_in_nonempty s l : s ∈ map item_second l → prices_in s l ≠ [].
Proof.
  intros (x & -> & Hx)%list_elem_of_fmap E. unfold prices_in in E. apply map_eq_nil in E.
  assert (x ∈ filter (λ y, item_second y = item_second x) l) as H by by apply list_elem_of_filter.
  rewrite E in H. by apply elem_of_nil in H.
Qed.

Lemma prices_in_empty s l : s ∉ map item_second l → prices_in s l = [].
Proof.
  intros Hs. unfold prices_in. rewrite list_filter_none; [done|]. apply Forall_forall.
  intros x Hx <-. apply Hs. by apply list_elem_of_fmap_2.
Qed.

(** Whole seconds of the instants a binary64 clock tells apart. *)
Definition in_domain (x : item) : Prop := 0 ≤ tv_timestamp x < 2 ^ 53.

Lemma item_second_div x : in_domain x → item_second x = tv_timestamp x / 1000000.
Proof. apply int_timestamp_second. Qed.

Lemma item_second_iff x s : in_domain x → item_second x = s ↔ seconds s ≤ tv_timestamp x < seconds (s + 1).
Proof.
  intros Hx. rewrite item_second_div by done. unfold seconds.
  pose proof (Z.div_mod (tv_timestamp x) 1000000 ltac:(lia)).
  pose proof (Z.mod_pos_bound (tv_timestamp x) 1000000 ltac:(lia)).
  split; [intros <-; lia|]. intros ?. apply Z.le_antisymm; [|apply Z.div_le_lower_bound; lia].
  apply Z.lt_succ_r, Z.div_lt_upper_bound; lia.
Qed.

Lemma item_second_mono x y :
  in_domain x → in_domain y → tv_timestamp x ≤ tv_timestamp y → item_second x ≤ item_second y.
Proof. intros Hx Hy Hle. rewrite !item_second_div by done. apply Z.div_le_mono; lia. Qed.

Lemma from_second_ok x k :
  in_domain x → 0 ≤ k ≤ 1 → from_second (item_second x + k) = Ok (seconds (item_second x + k)).
Proof.
  intros Hx Hk. pose proof (proj1 (item_second_iff x _ Hx) eq_refl) as Hs. unfold from_second.
  unfold in_domain in Hx. unfold min_datetime, max_datetime, seconds in *.
  rewrite (proj2 (Z.leb_le _ _)), (proj2 (Z.leb_le _ _)) by lia. done.
Qed.

Lemma seconds_of_snoc_same ss l x :
  seconds_of ss l → item_second x ∈ ss → seconds_of ss (l ++ [x]).
Proof.
  intros [Hs H] Hx. split; [done|]. intros s. rewrite map_app, elem_of_app, <- H. simpl.
  rewrite list_elem_of_singleton. intuition congruence.
Qed.

Lemma seconds_of_snoc_new ss l x :
  seconds_of ss l → (∀ y, y ∈ l → item_second y < item_second x) →
  seconds_of (ss ++ [item_second x]) (l ++ [x]).
Proof.
  intros [Hs H] Hx. split.
  - apply StronglySorted_app; [done|repeat constructor|].
    intros a b (y & -> & Hy)%H%list_elem_of_fmap ->%list_elem_of_singleton. by apply Hx.
  - intros s. rewrite map_app, !elem_of_app, H. simpl. done.
Qed.

(** ** Invariant *)

(** The item a point was made of. *)
Definition item_of (p : CachedPricePoint) : item :=
  Build_TimedValue (pp_timestamp p) (pp_source p) (pp_ordinal p).
Definition items c : list item := map item_of (points c).
Definition active c : list item := drop (active_start c) (items c).

(** Different items are different objects. *)
Definition distinct_objects l : Prop :=
  ∀ x y, x ∈ l → y ∈ l → object_id (tv_value x) = object_id (tv_value y) → x = y.

Definition digest_bounds (s x : Z) : Prop := 0 ≤ s < digest_modulus ∧ 0 ≤ x < digest_modulus.

Section theory.
Context (digest : Z → price_event → string) (math_log : float → res float).

Definition digest_of (x : item) : Z :=
  match digest_value digest (tv_timestamp x) (tv_value x) with Ok n => n | Err _ => 0 end.

(** The prefix commitments of consecutive points, after the sums [s] and [x]. *)
Fixpoint digest_chain (s x : Z) (l : list CachedPricePoint) : Prop :=
  match l with
  | [] => True
  | p :: l => prefix_digest_sum p = (s + digest_of (item_of p)) mod digest_modulus ∧
              prefix_digest_xor p = Z.lxor x (digest_of (item_of p)) ∧
              digest_chain (prefix_digest_sum p) (prefix_digest_xor p) l
  end.

(** The prefix returns of consecutive points. *)
Definition return_step (p q : CachedPricePoint) : Prop :=
  prefix_valid_log_returns q = prefix_valid_log_returns p + 1 ∧
  ∃ r, log_return math_log (pp_price p) (pp_price q) = Ok r ∧
    prefix_squared_log_return q = fadd (prefix_squared_log_return p) (fmul r r).
Fixpoint return_chain (l : list CachedPricePoint) : Prop :=
  match l with
  | p :: (q :: _) as l' => return_step p q ∧ return_chain l'
  | _ => True
  end.

(** The positions by object are those of the items of [l]. *)
Definition sources_ok (d : list (Z * (price_object * Z))) l : Prop :=
  dict_wf d ∧ ∀ id o t, dict_get id d = Some (o, t) ↔
    ∃ x, x ∈ l ∧ object_id (tv_value x) = id ∧ o = tv_value x ∧ t = tv_timestamp x.

Record cache_wf c : Prop := {
  cw_times : timestamps c = map tv_timestamp (items c);
  cw_prices : Forall (λ p, pp_price p = item_price (item_of p)) (points c);
  cw_sorted : StronglySorted key_lt (items c);
  cw_domain : Forall in_domain (items c);
  cw_seconds : seconds_of (bucket_seconds c) (items c);
  cw_buckets : buckets c = map (λ s, bucket_val s (prices_in s (items c))) (bucket_seconds c);
  cw_active : (active_start c ≤ length (points c))%nat;
  cw_bounds : digest_bounds (base_digest_sum c) (base_digest_xor c);
  cw_digests : digest_chain (base_digest_sum c) (base_digest_xor c) (points c);
  cw_returns : return_chain (points c);
  cw_sources : sources_ok (source_positions c) (active c) }.

Lemma digest_chain_app s x ps1 ps2 :
  digest_chain s x (ps1 ++ ps2) ↔ digest_chain s x ps1 ∧
    match last ps1 with
    | Some p => digest_chain (prefix_digest_sum p) (prefix_digest_xor p) ps2
    | None => digest_chain s x ps2
    end.
Proof.
  revert s x. induction ps1 as [|p ps1 IH]; intros s x; simpl; [tauto|].
  rewrite IH. destruct ps1 as [|p' ps1]; [simpl; tauto|].
  change (last (p :: p' :: ps1)) with (last (p' :: ps1)).
  rewrite (last_default p' ps1). tauto.
Qed.

Lemma return_chain_snoc ps q :
  return_chain ps → (∀ p, last ps = Some p → return_step p q) → return_chain (ps ++ [q]).
Proof.
  induction ps as [|p ps IH]; [done|]. intros Hps Hq. destruct ps as [|p' ps].
  - split; [by apply Hq|done].
  - destruct Hps as [H1 H2]. split; [done|]. by apply IH.
Qed.

Lemma return_chain_drop n ps : return_chain ps → return_chain (drop n ps).
Proof.
  revert n. induction ps as [|p ps IH]; intros n Hps; [by rewrite drop_nil|].
  destruct n as [|n]; [done|]. apply IH. destruct ps; [done|apply Hps].
Qed.

Lemma return_chain_take n ps : return_chain ps → return_chain (take n ps).
Proof.
  revert n. induction ps as [|p ps IH]; intros n Hps; [by rewrite take_nil|].
  destruct n as [|n]; [done|]. destruct ps as [|p' ps]; [by destruct n|]. destruct Hps as [H1 H2].
  destruct n as [|n]; [done|]. split; [done|]. by apply (IH (S n)).
Qed.

Lemma digest_chain_drop s x n ps :
  digest_chain s x ps →
  match last (take n ps) with
  | Some p => digest_chain (prefix_digest_sum p) (prefix_digest_xor p) (drop n ps)
  | None => digest_chain s x (drop n ps)
  end.
Proof. intros H. rewrite <- (take_drop n ps) in H. by apply digest_chain_app in H as [_ ?]. Qed.

(** SHA-256 digests are 64 hexadecimal digits. *)
Hypothesis digest_hex : ∀ t e, String.length (digest t e) = 64%nat ∧
  ∃ n, int16 (digest t e) = Some n ∧ 0 ≤ n < digest_modulus.

Lemma digest_value_of x :
  digest_value digest (tv_timestamp x) (tv_value x) = Ok (digest_of x) ∧ 0 ≤ digest_of x < digest_modulus.
Proof using digest_hex.
  unfold digest_of, digest_value. destruct (digest_hex (tv_timestamp x) (price_of_object (tv_value x)))
    as [_ (n & -> & Hn)]. done.
Qed.

Lemma land_mask n : Z.land n digest_mask = n mod digest_modulus.
Proof. change digest_mask with (Z.ones 256). rewrite Z.land_ones by lia. done. Qed.


(** ** Appending a point *)

Lemma items_last c : last (items c) = item_of <$> last (points c).
Proof. unfold items. by rewrite <- fmap_last. Qed.

(** The buckets after an append. *)
Lemma add_to_buckets_ok c x :
  StronglySorted key_lt (items c ++ [x]) → Forall in_domain (items c ++ [x]) →
  seconds_of (bucket_seconds c) (items c) →
  buckets c = map (λ s, bucket_val s (prices_in s (items c))) (bucket_seconds c) →
  let c' := add_to_buckets (item_second x) (item_price x) c in
  seconds_of (bucket_seconds c') (items c ++ [x]) ∧
  buckets c' = map (λ s, bucket_val s (prices_in s (items c ++ [x]))) (bucket_seconds c') ∧
  c' = {| c with bucket_seconds := bucket_seconds c'; buckets := buckets c' |}.
Proof.
  intros Hs Hd Hss Hb. unfold add_to_buckets.
  assert (∀ y, y ∈ items c → item_second y ≤ item_second x) as Hle.
  { intros y Hy. apply StronglySorted_app_inv in Hs as (_ & _ & Hs).
    rewrite Forall_app, Forall_singleton, Forall_forall in Hd. destruct Hd as [Hd Hdx].
    apply item_second_mono; auto. specialize (Hs y x Hy ltac:(left)). unfold key_lt in Hs. lia. }
  case_bool_decide as El.
  - apply last_snoc_inv in El as [ss El]. rewrite Hb, El, map_app. simpl map. rewrite last_snoc.
    rewrite List.removelast_last. simpl.
    assert (item_second x ∈ bucket_seconds c) as Hin by (rewrite El; apply elem_of_app; right; left).
    rewrite El in Hss, Hin. split; [by apply seconds_of_snoc_same|]. split; [|done].
    rewrite map_app. simpl. f_equal.
    + apply map_ext_in. intros s Hin'%list_elem_of_In. rewrite prices_in_snoc, decide_False, app_nil_r; [done|].
      intros E. rewrite <- E in Hin'. destruct Hss as [Hsort _]. apply StronglySorted_app_inv in Hsort as (_ & _ & Hlt).
      specialize (Hlt _ _ Hin' ltac:(left)). lia.
    + rewrite prices_in_snoc, decide_True by done. rewrite bucket_val_snoc; [done|].
      apply prices_in_nonempty. by apply Hss.
  - simpl. assert (item_second x ∉ bucket_seconds c) as Hnew.
    { intros Hin. apply El. destruct Hss as [Hsort Hss].
      apply list_elem_of_split in Hin as (s1 & s2 & E). rewrite E in *.
      destruct s2 as [|s s2]; [by rewrite last_snoc|exfalso].
      assert (s ∈ map item_second (items c)) as (y & -> & Hy)%list_elem_of_fmap
        by (apply Hss, elem_of_app; right; right; left).
      apply StronglySorted_app_inv in Hsort as (_ & Hsort & _). inversion Hsort as [|?? _ Hall]; subst.
      apply Forall_cons in Hall as [Hlt _]. specialize (Hle y Hy). lia. }
    assert (∀ y, y ∈ items c → item_second y ≠ item_second x) as Hne.
    { intros y Hy E. apply Hnew, Hss. rewrite <- E. by apply list_elem_of_fmap_2. }
    split; [apply seconds_of_snoc_new; [done|]|split; [|done]].
    + intros y Hy. specialize (Hle y Hy). specialize (Hne y Hy). lia.
    + rewrite map_app, Hb. simpl. f_equal.
      * apply map_ext_in. intros s Hs'%list_elem_of_In. rewrite prices_in_snoc, decide_False, app_nil_r; [done|].
        intros E. by rewrite <- E in Hs'.
      * rewrite prices_in_snoc, decide_True, prices_in_empty; [done| |done].
        intros (y & E & Hy)%list_elem_of_fmap. by apply (Hne y Hy).
Qed.

(** What a new item needs. *)
Record appendable c (x : item) : Prop := {
  ap_sorted : StronglySorted key_lt (items c ++ [x]);
  ap_domain : in_domain x;
  ap_positive : Forall (λ y, dltb d0 (item_price y) = true) (items c ++ [x]);
  ap_log : ∀ y, last (items c) = Some y → ∃ r, log_return math_log (item_price y) (item_price x) = Ok r;
  ap_fresh : ∀ y, y ∈ active c → object_id (tv_value y) ≠ object_id (tv_value x) }.

(** The state after an append, with the new point [p]. *)
Lemma append_wf c x p :
  cache_wf c → appendable c x → item_of p = x → pp_price p = item_price x →
  digest_chain (base_digest_sum c) (base_digest_xor c) (points c ++ [p]) →
  (∀ q, last (points c) = Some q → return_step q p) →
  let c' := add_to_buckets (item_second x) (item_price x)
    {| c with points := points c ++ [p]; timestamps := timestamps c ++ [tv_timestamp x];
              source_positions := dict_set (object_id (tv_value x)) (tv_value x, tv_timestamp x)
                                    (source_positions c) |} in
  cache_wf c' ∧ items c' = items c ++ [x] ∧ active_start c' = active_start c ∧
  last_ordinal c' = last_ordinal c.
Proof.
  intros [Ht Hp Hs Hd Hss Hb Ha Hbd Hdg Hr [Hwf Hsrc]] [As Ad Ap Al Af] Ei Epp Hch Hret.
  set (c0 := {| c with points := _; timestamps := _; source_positions := _ |}).
  assert (items c0 = items c ++ [x]) as Ei0 by (unfold items; cbn [points c0]; rewrite map_app; cbn [map]; by rewrite Ei).
  assert (Forall in_domain (items c ++ [x])) as Hd' by (by rewrite Forall_app, Forall_singleton).
  pose proof (add_to_buckets_ok c x As Hd' Hss Hb) as (B1 & B2 & _).
  set (c1 := add_to_buckets (item_second x) (item_price x) c) in *.
  assert (add_to_buckets (item_second x) (item_price x) c0 =
    {| c0 with bucket_seconds := bucket_seconds c1; buckets := buckets c1 |}) as ->.
  { subst c1. unfold add_to_buckets. simpl. case_bool_decide; [|done]. by destruct (last (buckets c)). }
  cbn zeta. split; [|split; [exact Ei0|by split]]. constructor; unfold active; simpl; try rewrite Ei0.
  - change (items _) with (items c0). by rewrite Ei0, map_app, Ht.
  - rewrite Forall_app, Forall_singleton. by rewrite Epp, Ei.
  - change (items _) with (items c0). by rewrite Ei0.
  - change (items _) with (items c0). by rewrite Ei0.
  - change (items _) with (items c0). by rewrite Ei0.
  - change (items _) with (items c0). by rewrite Ei0.
  - rewrite length_app. lia.
  - done.
  - done.
  - by apply return_chain_snoc.
  - change (items _) with (items c0). rewrite Ei0. split; [by apply dict_wf_set|]. intros id o t.
    rewrite drop_app_le by (unfold items; rewrite length_map; lia). setoid_rewrite elem_of_app.
    setoid_rewrite list_elem_of_singleton. destruct (decide (id = object_id (tv_value x))) as [->|Hne].
    + rewrite dict_get_set_eq by by apply bool_decide_eq_true. split.
      * intros [= <- <-]. exists x. auto.
      * intros (y & [Hy| ->] & E & -> & ->); [by destruct (Af y Hy)|done].
    + rewrite dict_get_set_ne by by apply bool_decide_eq_false. rewrite Hsrc. split.
      * intros (y & Hy & ?). exists y. auto.
      * intros (y & [Hy| ->] & E & ?); [exists y; auto|done].
Qed.

Lemma append_ok c x :
  cache_wf c → appendable c x →
  wpM (append_point digest math_log x) (λ _ c', cache_wf c' ∧ items c' = items c ++ [x] ∧
    active_start c' = active_start c ∧ last_ordinal c' = last_ordinal c) c.
Proof using digest_hex.
  intros Hwf Hap. pose proof Hap as [As Ad Ap Al Af]. pose proof Hwf as [_ Hp _ _ _ _ _ _ Hdg _ _].
  destruct (digest_value_of x) as [Edv Hdv].
  unfold append_point. repeat wp_step.
  destruct (last (points c)) as [q|] eqn:Eq.
  - assert (pp_price q = item_price (item_of q)) as Epq.
    { rewrite Forall_forall in Hp. apply Hp. by apply last_Some_elem_of. }
    assert (last (items c) = Some (item_of q)) as Elast by by rewrite items_last, Eq.
    destruct (Al _ Elast) as [r Hr]. rewrite Forall_app, Forall_singleton, Forall_forall in Ap.
    destruct Ap as [Ap Apx]. change (reference_price (tv_value x)) with (item_price x).
    rewrite Epq, (Ap (item_of q)), Apx by by apply last_Some_elem_of. simpl andb. cbn iota.
    rewrite Hr. eapply wp_lift; [reflexivity|]. repeat wp_step.
    eapply wp_lift; [exact Edv|]. repeat wp_step.
    apply append_wf; try done; [by destruct x| |].
    + apply digest_chain_app. split; [done|]. rewrite Eq. simpl.
      assert (item_of _ = x) as -> by (by destruct x). by rewrite land_mask.
    + intros q' Hq'. assert (q' = q) as -> by congruence. split; [done|]. exists r. simpl.
      by rewrite Epq.
  - eapply wp_lift; [reflexivity|]. repeat wp_step.
    eapply wp_lift; [exact Edv|]. repeat wp_step.
    apply append_wf; try done; [by destruct x| |].
    + apply digest_chain_app. split; [done|]. rewrite Eq. simpl.
      assert (item_of _ = x) as -> by (by destruct x). by rewrite land_mask.
    + intros q' Hq'. congruence.
Qed.

(** ** Appending and rebuilding *)

Record good_items l : Prop := {
  gi_sorted : StronglySorted key_lt l;
  gi_domain : Forall in_domain l;
  gi_positive : Forall (λ x, dltb d0 (item_price x) = true) l;
  gi_log : ∀ x y, x ∈ l → y ∈ l → ∃ r, log_return math_log (item_price x) (item_price y) = Ok r;
  gi_distinct : distinct_objects l }.

Lemma good_items_sublist l1 l2 : sublist l1 l2 → good_items l2 → good_items l1.
Proof.
  intros Hsub [Hs Hd Hp Hl Hi].
  assert (∀ x, x ∈ l1 → x ∈ l2) as Hin by (intros x Hx; by eapply elem_of_sublist).
  rewrite Forall_forall in Hd, Hp. constructor.
  - by eapply StronglySorted_sublist.
  - apply Forall_forall. auto.
  - apply Forall_forall. auto.
  - auto.
  - intros x y Hx Hy. apply Hi; auto.
Qed.

Lemma good_appendable c x : good_items (items c ++ [x]) → appendable c x.
Proof.
  intros [Hs Hd Hp Hl Hi]. rewrite Forall_app, Forall_singleton in Hd. constructor; try done.
  - by destruct Hd.
  - intros y Hy. apply Hl; apply elem_of_app; [left; by apply last_Some_elem_of|right; left].
  - intros y Hy Hid. assert (y ∈ items c) as Hyi by (eapply elem_of_sublist; [exact Hy|apply sublist_drop]).
    assert (y = x) as -> by (apply Hi; rewrite ?elem_of_app; [by left|right; left|done]).
    apply StronglySorted_app_inv in Hs as (_ & _ & Hs). specialize (Hs x x Hyi ltac:(left)).
    unfold key_lt in Hs. lia.
Qed.

Lemma forM_append_ok l : ∀ c,
  cache_wf c → good_items (items c ++ l) →
  wpM (forM (append_point digest math_log) l) (λ _ c', cache_wf c' ∧ items c' = items c ++ l ∧
    active_start c' = active_start c ∧ last_ordinal c' = last_ordinal c) c.
Proof using digest_hex.
  induction l as [|x l IH]; intros c Hwf Hg; simpl; [rewrite app_nil_r; by apply wp_ret|].
  apply wp_bind. eapply wp_mono.
  - apply append_ok; [done|]. apply good_appendable. eapply good_items_sublist, Hg.
    apply sublist_app; [done|]. apply sublist_skip. apply sublist_nil_l.
  - intros [] c1 (Hwf1 & E1 & E2 & E3). rewrite (cons_middle x), app_assoc in Hg.
    eapply wp_mono; [apply IH; [done|by rewrite E1]|].
    intros [] c2 (Hwf2 & F1 & F2 & F3). rewrite F1, E1, <- app_assoc, F2, F3. done.
Qed.

Lemma wf_last_ordinal c n : cache_wf c → cache_wf {| c with last_ordinal := n |}.
Proof. intros []. by constructor. Qed.

Lemma rebuild_ok l n c :
  good_items l →
  wpM (rebuild digest math_log l n) (λ _ c', cache_wf c' ∧ items c' = l ∧ active c' = l ∧
    last_ordinal c' = n) c.
Proof using digest_hex.
  intros Hg. unfold rebuild. repeat wp_step. eapply wp_mono.
  - apply forM_append_ok; [|exact Hg]. constructor; simpl; try done; try by constructor.
    + split; [constructor|]. intros s. split; intros H; by apply elem_of_nil in H.
    + split; [done|]. intros id o t. split; [done|]. intros (x & Hx & _). by apply elem_of_nil in Hx.
  - intros [] c' (Hwf & E1 & E2 & E3). repeat wp_step. split; [by apply wf_last_ordinal|].
    simpl in E1. split; [exact E1|]. split; [|done]. unfold active. simpl. rewrite E2. exact E1.
Qed.

(** ** Positions in the cached lists *)

Lemma splits_at_map {A B} (f : A → B) (p : B → bool) (xs : list A) n :
  splits_at (λ x, p (f x)) xs n → splits_at p (map f xs) n.
Proof.
  intros [Hn Hs]. split; [by rewrite length_map|]. intros i y.
  rewrite list_lookup_fmap. destruct (xs !! i) as [x|] eqn:E; [|done]. intros [= <-]. by apply Hs.
Qed.

Definition downward (p : Z → bool) : Prop := ∀ a b, a ≤ b → p b = true → p a = true.
Lemma downward_ltb t : downward (λ x, x <? t).
Proof. intros a b. case_cmp; lia. Qed.
Lemma downward_leb t : downward (λ x, x <=? t).
Proof. intros a b. case_cmp; lia. Qed.

(** Where [bisect] lands in the timestamps, from the bound [lo]. *)
Lemma bisect_times p l lo :
  downward p → StronglySorted key_lt l → (lo ≤ length l)%nat →
  ∃ n, splits_at (λ x, p (tv_timestamp x)) l n ∧ bisect p (map tv_timestamp l) lo = Nat.max lo n.
Proof.
  intros Hp Hs Hlo. eexists.
  assert (splits_at (λ x, p (tv_timestamp x)) l
    (length (filter (λ x, p (tv_timestamp x) = true) l))) as Hsp.
  { apply splits_at_count. apply key_lt_time_le in Hs. eapply StronglySorted_impl, Hs.
    intros x y Hxy. by apply Hp. }
  split; [exact Hsp|]. apply bisect_from; [by apply splits_at_map|by rewrite length_map].
Qed.

Lemma bisect_seconds p ss :
  downward p → StronglySorted Z.lt ss →
  ∃ n, splits_at p ss n ∧ bisect p ss 0 = n.
Proof.
  intros Hp Hs. exists (length (filter (λ x, p x = true) ss)).
  assert (splits_at p ss (length (filter (λ x, p x = true) ss))) as Hsp.
  { apply splits_at_count. eapply StronglySorted_impl, Hs. intros x y Hxy. apply Hp. lia. }
  split; [exact Hsp|]. rewrite (bisect_from _ _ _ _ Hsp); lia.
Qed.

Lemma map_price ps :
  Forall (λ p, pp_price p = item_price (item_of p)) ps →
  map pp_price ps = map item_price (map item_of ps).
Proof. induction 1 as [|p ps Hp Hps IH]; [done|]. simpl. by rewrite Hp, IH. Qed.

Lemma items_drop n c : map item_of (drop n (points c)) = drop n (items c).
Proof. symmetry. apply skipn_map. Qed.
Lemma items_take n c : map item_of (take n (points c)) = take n (items c).
Proof. symmetry. apply firstn_map. Qed.

Lemma prices_in_app s l1 l2 : prices_in s (l1 ++ l2) = prices_in s l1 ++ prices_in s l2.
Proof. unfold prices_in. by rewrite filter_app, map_app. Qed.

(** ** Compaction *)

(** The new first bucket. *)
Lemma rebuild_first_ok c x l' bs :
  items c = x :: l' → timestamps c = map tv_timestamp (items c) →
  Forall (λ p, pp_price p = item_price (item_of p)) (points c) →
  StronglySorted key_lt (items c) → Forall in_domain (items c) →
  head (bucket_seconds c) = Some (item_second x) → tail (buckets c) = bs → buckets c ≠ [] →
  wpM rebuild_first_bucket (λ _ c', c' = {| c with buckets :=
    bucket_val (item_second x) (prices_in (item_second x) (items c)) :: bs |}) c.
Proof.
  intros Ei Et Hp Hs Hd Hh Ebs Hbs. unfold rebuild_first_bucket. repeat wp_step.
  unfold items in Ei. destruct (points c) as [|p ps] eqn:Eps; [done|]. injection Ei as Ex El'.
  destruct (buckets c) as [|b later]; [done|]. simpl in Ebs. subst later.
  assert (second_of (pp_timestamp p) = item_second x) as -> by (by rewrite <- Ex).
  assert (in_domain x) as Hx by (unfold items in Hd; rewrite Eps in Hd; simpl in Hd; rewrite <- Ex;
    by apply Forall_cons in Hd as [? _]).
  apply wp_bind. eapply wp_lift; [unfold item_at; rewrite <- head_lookup, Hh; reflexivity|].
  apply wp_bind. apply wp_require; [by apply Z.eqb_refl|].
  apply wp_bind. eapply wp_lift; [apply (from_second_ok x 1 Hx); lia|].
  destruct (bisect_times (λ t, t <? seconds (item_second x + 1)) (items c) 0)
    as (n & Hn & En); [apply downward_ltb|done|lia|].
  rewrite Et, En, Nat.max_0_l, <- Eps.
  assert (map pp_price (take n (points c)) = prices_in (item_second x) (items c)) as ->.
  { rewrite map_price by (rewrite Eps; by apply Forall_take). rewrite items_take.
    rewrite (proj1 (splits_at_filter _ _ _ Hn)). unfold prices_in. f_equal.
    apply list_filter_ext_elem. intros y Hy. rewrite Z.ltb_lt.
    rewrite Forall_forall in Hd. rewrite (item_second_iff y _ (Hd y Hy)).
    assert (tv_timestamp x ≤ tv_timestamp y); [|pose proof (proj1 (item_second_iff x _ Hx) eq_refl); lia].
    unfold items in Hs, Hy. rewrite Eps in Hs, Hy. simpl in Hs, Hy. rewrite Ex in Hs, Hy.
    inversion Hs as [|?? _ Hall]; subst. rewrite Forall_forall in Hall.
    apply elem_of_cons in Hy as [->|Hy]; [lia|]. specialize (Hall y Hy). unfold key_lt in Hall. lia. }
  apply wp_bind. eapply wp_lift.
  { apply bucket_of_val. apply prices_in_nonempty. unfold items. rewrite Eps. simpl. rewrite Ex. left. }
  apply wp_modify. by rewrite ?Et.
Qed.

(** The seconds from the second of an item [x] on. *)
Lemma seconds_from ss l1 x l2 :
  seconds_of ss (l1 ++ x :: l2) → StronglySorted key_lt (l1 ++ x :: l2) →
  Forall in_domain (l1 ++ x :: l2) →
  ∃ n rest, bisect (λ s, s <? item_second x) ss 0 = n ∧ drop n ss = item_second x :: rest ∧
    seconds_of (drop n ss) (x :: l2) ∧ ∀ s y, s ∈ rest → y ∈ l1 → item_second y ≠ s.
Proof.
  intros [Hss Hin] Hs Hd. rewrite Forall_forall in Hd.
  apply StronglySorted_app_inv in Hs as (_ & Hs2 & Hs12). inversion Hs2 as [|?? _ Hall]; subst.
  rewrite Forall_forall in Hall.
  assert (∀ y, y ∈ l1 → item_second y ≤ item_second x) as H1.
  { intros y Hy. apply item_second_mono; [apply Hd, elem_of_app; by left|
      apply Hd, elem_of_app; right; left|]. specialize (Hs12 y x Hy ltac:(left)). unfold key_lt in *. lia. }
  assert (∀ y, y ∈ x :: l2 → item_second x ≤ item_second y) as H2.
  { intros y Hy. apply item_second_mono; [apply Hd, elem_of_app; right; left|
      apply Hd, elem_of_app; by right|]. apply elem_of_cons in Hy as [->|Hy]; [lia|].
    specialize (Hall y Hy). unfold key_lt in *. lia. }
  destruct (bisect_seconds (λ s, s <? item_second x) ss) as (n & Hn & En); [apply downward_ltb|done|].
  pose proof (proj2 (splits_at_filter _ _ _ Hn)) as Edrop. exists n.
  assert (seconds_of (drop n ss) (x :: l2)) as Hof.
  { split; [eapply StronglySorted_sublist; [apply sublist_drop|done]|].
    intros s. rewrite Edrop, list_elem_of_filter, Hin, Z.ltb_ge, map_app, elem_of_app, !list_elem_of_fmap.
    split.
    - intros [Hle [(y & -> & Hy)|(y & -> & Hy)]]; [|by exists y].
      exists x. split; [|left]. specialize (H1 y Hy). lia.
    - intros (y & -> & Hy). split; [by apply H2|]. right. by exists y. }
  destruct (drop n ss) as [|s0 rest] eqn:Ed.
  { destruct Hof as [_ Hof]. exfalso. apply (not_elem_of_nil (item_second x)), Hof. left. }
  assert (s0 = item_second x) as ->.
  { destruct Hof as [Hsort Hof]. apply Z.le_antisymm.
    - pose proof (proj2 (Hof (item_second x)) ltac:(left)) as [?|Hx]%elem_of_cons; [lia|].
      inversion Hsort as [|?? _ Hall']; subst. rewrite Forall_forall in Hall'.
      specialize (Hall' _ Hx). lia.
    - pose proof (proj1 (Hof s0) ltac:(left)) as (y & -> & Hy)%list_elem_of_fmap. by apply H2. }
  exists rest. split; [done|]. split; [done|]. split; [done|].
  intros s y Hs Hy <-. destruct Hof as [Hsort _]. inversion Hsort as [|?? _ Hall']; subst.
  rewrite Forall_forall in Hall'. specialize (Hall' _ Hs). specialize (H1 y Hy). lia.
Qed.

Lemma digest_bounds_chain s x ps :
  digest_bounds s x → digest_chain s x ps →
  ∀ p, p ∈ ps → digest_bounds (prefix_digest_sum p) (prefix_digest_xor p).
Proof using digest_hex.
  revert s x. induction ps as [|q ps IH]; intros s x Hb Hc p Hp; [by apply elem_of_nil in Hp|].
  destruct Hc as (Hs & Hx & Hc). assert (digest_bounds (prefix_digest_sum q) (prefix_digest_xor q)) as Hq.
  { destruct Hb as [Hb1 Hb2]. destruct (digest_value_of (item_of q)) as [_ Hdq]. rewrite Hs, Hx.
    split; [by apply Z.mod_pos_bound|by apply lxor_bounds]. }
  apply elem_of_cons in Hp as [->|Hp]; [done|]. by eapply IH.
Qed.

Lemma compact_ok c :
  cache_wf c → (active_start c < length (points c))%nat →
  wpM compact (λ _ c', cache_wf c' ∧ active c' = active c ∧ sublist (items c') (items c) ∧
    last_ordinal c' = last_ordinal c) c.
Proof using digest_hex.
  intros Hwf Hlt. unfold compact. repeat wp_step.
  destruct (last (take (active_start c) (points c))) as [removed|] eqn:Er; [|by apply wp_ret].
  pose proof Hwf as [Ht Hp Hs Hd Hss Hb Ha Hbd Hdg Hr [Hdwf Hsrc]].
  set (k := active_start c) in *. repeat wp_step. cbn [points].
  pose proof (items_drop k c) as Eact. pose proof (take_drop k (items c)) as Esplit.
  destruct (drop k (points c)) as [|p ps] eqn:Eps.
  { apply (f_equal length) in Eps. rewrite length_drop in Eps. simpl in Eps. lia. }
  change (active_start c) with k. rewrite Eps.
  set (x := item_of p). change (map item_of (p :: ps)) with (x :: map item_of ps) in Eact.
  rewrite <- Eact in Esplit. change (second_of (pp_timestamp p)) with (item_second x).
  rewrite <- Esplit in Hss, Hs, Hd.
  destruct (seconds_from _ _ _ _ Hss Hs Hd) as (n & rest & En & Ess & Hof & Hrest).
  cbn [bucket_seconds]. rewrite En. repeat wp_step.
  apply StronglySorted_app_inv in Hs as (_ & Hs & _). apply Forall_app in Hd as [_ Hd].
  match goal with |- wpM _ _ ?s => set (c1 := s) end.
  assert (items c1 = x :: map item_of ps) as Ei1 by done.
  assert (∀ bs, items {| c1 with buckets := bs |} = x :: map item_of ps) as Ei2 by done.
  assert (drop n (buckets c) = map (λ s, bucket_val s (prices_in s (items c))) (drop n (bucket_seconds c)))
    as Eb by (rewrite Hb; apply skipn_map).
  eapply wp_mono.
  { apply (rebuild_first_ok c1 x (map item_of ps)
      (map (λ s, bucket_val s (prices_in s (items c))) rest)); try done.
    - rewrite Ei1, Eact. subst c1. cbn [timestamps]. rewrite Ht. apply skipn_map.
    - subst c1. cbn [points]. rewrite <- Eps. by apply Forall_drop.
    - subst c1. cbn [bucket_seconds]. by rewrite Ess.
    - subst c1. cbn [buckets]. by rewrite Eb, Ess.
    - subst c1. cbn [buckets]. by rewrite Eb, Ess. }
  intros [] c' ->.
  assert (digest_bounds (prefix_digest_sum removed) (prefix_digest_xor removed)) as Hbr.
  { eapply digest_bounds_chain; [exact Hbd|exact Hdg|]. eapply elem_of_sublist; [|apply sublist_take].
    by apply last_Some_elem_of. }
  pose proof (digest_chain_drop _ _ k _ Hdg) as Hdg'. rewrite Er, Eps in Hdg'.
  pose proof (return_chain_drop k _ Hr) as Hr'. rewrite Eps in Hr'.
  split; [|split; [exact Eact|split; [|done]]].
  2: { rewrite Ei2, Eact. apply sublist_drop. }
  constructor; try done.
  - rewrite Ei2, Eact. subst c1. cbn [timestamps]. rewrite Ht.
    apply skipn_map.
  - subst c1. cbn [points]. rewrite <- Eps. by apply Forall_drop.
  - rewrite Ei2. rewrite Ei1. subst c1. cbn [buckets bucket_seconds].
    rewrite Ess. simpl. f_equal. apply map_ext_in. intros s Hin%list_elem_of_In. f_equal.
    rewrite <- Esplit, prices_in_app, prices_in_empty; [done|].
    intros (y & E & Hy)%list_elem_of_fmap. by apply (Hrest s y Hin Hy).
  - subst c1. simpl. lia.
  - unfold active. rewrite Ei2. subst c1. cbn [source_positions active_start].
    rewrite drop_0, Eact. done.
Qed.

(** ** Trimming to the window *)

Lemma skip_points_spec t o ps1 p ps2 :
  (∀ q, q ∈ ps1 → pp_timestamp q = t ∧ pp_ordinal q ≠ o) → pp_ordinal p = o →
  skip_points t o (ps1 ++ p :: ps2) = length ps1.
Proof.
  intros Hq Hp. induction ps1 as [|q ps1 IH]; simpl.
  - rewrite Hp, Z.eqb_refl, andb_false_r. done.
  - destruct (Hq q ltac:(left)) as [-> Ho]. rewrite Z.eqb_refl, (proj2 (Z.eqb_neq _ _)) by done. simpl.
    f_equal. apply IH. intros q' Hq'. apply Hq. by right.
Qed.

Lemma forget_source_ok d p l :
  sources_ok d (item_of p :: l) → distinct_objects (item_of p :: l) → item_of p ∉ l →
  sources_ok (forget_source d p) l.
Proof.
  intros [Hwf Hd] Hdis Hp. unfold forget_source.
  rewrite (proj2 (Hd (object_id (pp_source p)) (pp_source p) (pp_timestamp p))).
  2: { exists (item_of p). split; [left|done]. }
  rewrite !Z.eqb_refl. simpl. split; [by apply dict_wf_pop|]. intros id o t.
  destruct (decide (id = object_id (pp_source p))) as [->|Hne].
  - rewrite dict_get_pop_eq by (done || by apply bool_decide_eq_true). split; [done|].
    intros (x & Hx & E & _). exfalso. apply Hp.
    rewrite (Hdis (item_of p) x); [done|left|by right|done].
  - rewrite dict_get_pop_ne by by apply bool_decide_eq_false. rewrite Hd. split.
    + intros (x & [->|Hx]%elem_of_cons & E & ?); [by destruct Hne|by exists x].
    + intros (x & Hx & ?). exists x. split; [by right|done].
Qed.

Lemma forget_sources_ok ps l : ∀ d,
  sources_ok d (map item_of ps ++ l) → distinct_objects (map item_of ps ++ l) →
  StronglySorted key_lt (map item_of ps ++ l) → sources_ok (foldl forget_source d ps) l.
Proof.
  induction ps as [|p ps IH]; intros d Hd Hdis Hs; [done|]. simpl in *.
  inversion Hs as [|?? Hs' Hall]; subst. apply IH; [|by intros x y ??; apply Hdis; right|done].
  apply forget_source_ok; [done|done|]. intros Hin. rewrite Forall_forall in Hall.
  specialize (Hall _ Hin). unfold key_lt in Hall. lia.
Qed.

(** Where the earliest item of the window is found. *)
Lemma trim_position c pre e rest :
  cache_wf c → active c = pre ++ e :: rest →
  let first := bisect (λ t, t <? tv_timestamp e) (timestamps c) (active_start c) in
  (first + skip_points (tv_timestamp e) (tv_ordinal e) (drop first (points c)) =
     active_start c + length pre)%nat ∧
  ∃ p, points c !! (active_start c + length pre)%nat = Some p ∧ item_of p = e.
Proof.
  intros [Ht _ Hs _ _ _ Ha _ _ _ _] Hact first.
  assert (items c = take (active_start c) (items c) ++ pre ++ e :: rest) as Ei
    by (rewrite <- Hact; symmetry; apply take_drop).
  assert (length (items c) = length (points c)) as Elen by apply length_map.
  set (k := (active_start c + length pre)%nat).
  assert (items c !! k = Some e) as Hk.
  { rewrite Ei, lookup_app_r by (rewrite length_take; lia).
    rewrite length_take, lookup_app_r by lia.
    by replace (k - active_start c `min` length (items c) - length pre)%nat with 0%nat by lia. }
  destruct (bisect_times (λ t, t <? tv_timestamp e) (items c) (active_start c))
    as (n & Hn & En); [apply downward_ltb|done|lia|].
  assert (n ≤ k)%nat as Hnk.
  { destruct Hn as [_ Hn]. specialize (Hn _ _ Hk). simpl in Hn. rewrite Z.ltb_irrefl in Hn.
    symmetry in Hn. by apply Nat.ltb_ge in Hn. }
  assert (first = Nat.max (active_start c) n) as Ef by (subst first; by rewrite Ht).
  assert (∃ p, points c !! k = Some p ∧ item_of p = e) as (p & Hp & Epe).
  { unfold items in Hk. rewrite list_lookup_fmap in Hk. by apply fmap_Some in Hk as (p & Hp & ->); exists p. }
  split; [|by exists p].
  pose proof (lookup_lt_Some _ _ _ Hp) as Hlen.
  assert (drop first (points c) = drop first (take k (points c)) ++ p :: drop (S k) (points c)) as ->.
  { rewrite <- (take_drop_middle _ _ _ Hp) at 1. rewrite drop_app_le; [done|]. rewrite length_take. lia. }
  rewrite skip_points_spec; [rewrite length_drop, length_take; lia| |by rewrite <- Epe].
  intros q (i & Hi)%list_elem_of_lookup. rewrite lookup_drop in Hi.
  apply lookup_take_Some in Hi as [Hi Hik].
  assert (items c !! (first + i)%nat = Some (item_of q)) as Hq
    by (unfold items; by rewrite list_lookup_fmap, Hi).
  destruct Hn as [_ Hn]. pose proof (Hn _ _ Hq) as Hge. rewrite (proj2 (Nat.ltb_ge _ n)) in Hge by lia.
  apply Z.ltb_ge in Hge. change (tv_timestamp (item_of q)) with (pp_timestamp q) in Hge.
  assert (key_lt (item_of q) e) as Hlt.
  { rewrite <- (take_drop_middle _ _ _ Hk) in Hs. apply StronglySorted_app_inv in Hs as (_ & _ & Hs).
    apply Hs; [|left]. apply list_elem_of_lookup. exists (first + i)%nat. by rewrite lookup_take_lt. }
  unfold key_lt in Hlt. simpl in Hlt. lia.
Qed.

Lemma trim_ok c w pre :
  cache_wf c → good_items (items c) → active c = pre ++ w_items w →
  last_ordinal c = latest_ordinal w →
  wpM (trim_to_retained_window digest math_log w) (λ _ c', cache_wf c' ∧ active c' = w_items w ∧
    sublist (items c') (items c) ∧ last_ordinal c' = latest_ordinal w) c.
Proof using digest_hex.
  intros Hwf Hg Hact Hlo. unfold trim_to_retained_window, earliest. repeat wp_step.
  destruct (w_items w) as [|e rest] eqn:Ew; [change (head []) with (@None item)|
    change (head (e :: rest)) with (Some e)]; cbn iota.
  { case_bool_decide as Ep.
    - apply wp_ret. assert (items c = []) as Ei by (unfold items; by rewrite Ep).
      unfold active. by rewrite Ei, drop_nil.
    - eapply wp_mono; [apply rebuild_ok; eapply good_items_sublist, Hg; apply sublist_nil_l|].
      intros [] c' (H1 & H2 & H3 & H4). rewrite H2. split; [done|]. split; [done|].
      split; [apply sublist_nil_l|done]. }
  destruct (trim_position c pre e rest Hwf Hact) as [Epos (p & Hp & Epe)].
  cbn zeta in *. rewrite Epos, Hp, <- Epe. change (tv_ordinal (item_of p)) with (pp_ordinal p). rewrite Z.eqb_refl.
  set (k := (active_start c + length pre)%nat) in *.
  apply wp_bind. apply wp_require; [apply negb_true_iff, Nat.ltb_ge; lia|].
  repeat wp_step.
  match goal with |- wpM _ _ ?s => set (c1 := s) end.
  pose proof (lookup_lt_Some _ _ _ Hp) as Hlen.
  assert (active c1 = e :: rest) as Eact1.
  { unfold active. change (drop k (items c) = e :: rest). unfold k.
    rewrite <- drop_drop. fold (active c). rewrite Hact. by rewrite drop_app_length. }
  assert (cache_wf c1) as Hwf1.
  { pose proof Hwf as [Ht Hpr Hs Hd Hss Hb Ha Hbd Hdg Hr Hsrc]. constructor; try done.
    - subst c1. simpl. lia.
    - assert (map item_of (drop (active_start c) (take k (points c))) ++ e :: rest = active c) as Hact'.
      { rewrite Hact. f_equal.
        rewrite <- skipn_map, <- firstn_map. change (map item_of (points c)) with (items c).
        unfold k. rewrite <- take_drop_commute. fold (active c). rewrite Hact. by rewrite take_app_length. }
      rewrite Eact1. subst c1. cbn [source_positions]. apply forget_sources_ok.
      + by rewrite Hact'.
      + rewrite Hact'. intros y z Hy Hz.
        apply (gi_distinct _ Hg); (eapply elem_of_sublist; [done|apply sublist_drop]).
      + eapply StronglySorted_sublist; [|exact Hs]. rewrite Hact'. apply sublist_drop. }
  destruct (_ && _).
  - apply wp_ret. rewrite Epe. split; [done|]. split; [done|]. done.
  - eapply wp_mono; [apply compact_ok; [done|]; subst c1; simpl; lia|].
    intros [] c' (H1 & H2 & H3 & H4). rewrite Epe, H2, H4. done.
Qed.

(** ** Updates *)

(** The instants and objects appended so far. *)
Record pool_ok (seen : list (Z * price_object)) : Prop := {
  po_domain : ∀ t o, (t, o) ∈ seen → 0 ≤ t < 2 ^ 53 ∧ dltb d0 (reference_price o) = true;
  po_log : ∀ t1 o1 t2 o2, (t1, o1) ∈ seen → (t2, o2) ∈ seen →
    ∃ r, log_return math_log (reference_price o1) (reference_price o2) = Ok r }.

Definition seen_in (seen : list (Z * price_object)) l : Prop :=
  ∀ x, x ∈ l → (tv_timestamp x, tv_value x) ∈ seen.

Lemma pool_good seen l :
  pool_ok seen → seen_in seen l → StronglySorted key_lt l → distinct_objects l → good_items l.
Proof.
  intros [Hd Hl] Hin Hs Hdis. constructor; try done.
  - apply Forall_forall. intros x Hx. by destruct (Hd _ _ (Hin x Hx)).
  - apply Forall_forall. intros x Hx. by destruct (Hd _ _ (Hin x Hx)).
  - intros x y Hx Hy. eapply Hl; by apply Hin.
Qed.

Lemma in_order_spec l : ∀ prev,
  in_order prev l = true → StronglySorted (λ x y, tv_ordinal x < tv_ordinal y) l →
  (∀ k, prev = Some k → ∀ x, x ∈ l → k.2 < tv_ordinal x) →
  StronglySorted key_lt l ∧ ∀ k, prev = Some k → ∀ x, x ∈ l → k.1 ≤ tv_timestamp x.
Proof.
  induction l as [|x l IH]; intros prev Ho Hs Hk.
  { split; [constructor|]. intros k _ x Hx. by apply elem_of_nil in Hx. }
  inversion Hs as [|?? Hs' Hall]; subst. rewrite Forall_forall in Hall. simpl in Ho.
  assert (in_order (Some (key_of x)) l = true ∧ ∀ k, prev = Some k → k.1 ≤ tv_timestamp x) as [Ho' Hx].
  { destruct prev as [k|]; [|by split]. destruct (key_ltb (key_of x) k) eqn:E; [done|].
    split; [done|]. intros k' [= <-]. unfold key_ltb in E.
    apply orb_false_iff in E as [E _]. by apply Z.ltb_ge in E. }
  destruct (IH (Some (key_of x)) Ho' Hs') as [IH1 IH2].
  { intros k [= <-] y Hy. by apply Hall. }
  specialize (IH2 _ eq_refl). simpl in IH2. split.
  - constructor; [done|]. apply Forall_forall. intros y Hy. specialize (IH2 y Hy). specialize (Hall y Hy).
    unfold key_lt. simpl in *. lia.
  - intros k Hpk y [->|Hy]%elem_of_cons; [by apply Hx|]. specialize (Hx k Hpk). specialize (IH2 y Hy). lia.
Qed.

(** The cache [c], updated some time before the window came to be [w]. *)
Record behind (seen : list (Z * price_object)) (w : BoundedTimeWindow price_object) c : Prop := {
  be_wf : cache_wf c;
  be_window : reachable_window w;
  be_suffix : ∃ pre, active c = pre ++ filter (λ x, tv_ordinal x ≤ last_ordinal c) (w_items w);
  be_ordinals : ∀ x, x ∈ items c → tv_ordinal x ≤ last_ordinal c;
  be_last : 0 ≤ last_ordinal c ≤ w_ordinal w;
  be_seen : seen_in seen (items c ++ w_items w);
  be_distinct : distinct_objects (items c ++ w_items w) }.

(** The cache just updated with the window. *)
Definition in_step (w : BoundedTimeWindow price_object) c : Prop :=
  cache_wf c ∧ active c = w_items w ∧ good_items (items c).

(** When the new items go on in key order, the window is what was kept and them. *)
Lemma new_items_split seen w c new :
  behind seen w c → new ≡ₚ filter (λ x, last_ordinal c < tv_ordinal x) (w_items w) →
  StronglySorted (λ x y, tv_ordinal x < tv_ordinal y) new →
  in_order ((λ p, (pp_timestamp p, pp_ordinal p)) <$> last (points c)) new = true →
  StronglySorted key_lt (items c ++ new) ∧
  w_items w = filter (λ x, tv_ordinal x ≤ last_ordinal c) (w_items w) ++ new.
Proof.
  intros [Hwf Hr [pre Hpre] Hord Hlast _ _] Hperm Hsn Hio.
  destruct (reachable_window_facts w Hr) as (Hsw & _ & _).
  assert (∀ x, x ∈ new → last_ordinal c < tv_ordinal x ∧ x ∈ w_items w) as Hnew
    by (intros x; rewrite Hperm; by rewrite list_elem_of_filter).
  destruct (in_order_spec _ _ Hio Hsn) as [Hsk Hge].
  { intros k (p & Hp & ->)%fmap_Some x Hx. simpl. destruct (Hnew x Hx).
    assert (item_of p ∈ items c) as Hin
      by (apply list_elem_of_fmap_2; by apply last_Some_elem_of).
    specialize (Hord _ Hin). simpl in Hord. lia. }
  assert (∀ y x, y ∈ items c → x ∈ new → key_lt y x) as Hlt.
  { intros y x Hy Hx. destruct (Hnew x Hx) as [Hx1 _]. pose proof (Hord y Hy).
    destruct (last (points c)) as [p|] eqn:Ep.
    2: { unfold items in Hy. apply last_None in Ep. rewrite Ep in Hy. by apply elem_of_nil in Hy. }
    specialize (Hge _ eq_refl x Hx). simpl in Hge.
    apply last_snoc_inv in Ep as [ps Ep]. pose proof (cw_sorted _ Hwf) as Hsc.
    unfold items in Hy, Hsc. rewrite Ep, map_app in Hy, Hsc.
    apply StronglySorted_app_inv in Hsc as (_ & _ & Hsc).
    assert (tv_timestamp y ≤ pp_timestamp p); [|unfold key_lt; lia].
    apply elem_of_app in Hy as [Hy| ->%list_elem_of_singleton]; [|done].
    specialize (Hsc y (item_of p) Hy ltac:(left)). unfold key_lt in Hsc. simpl in Hsc. lia. }
  split; [by apply StronglySorted_app; [apply Hwf|done|]|].
  apply (StronglySorted_ext key_lt); [unfold key_lt; lia|done| |].
  - apply StronglySorted_app; [by apply StronglySorted_filter|done|]. intros y x Hy Hx. apply Hlt; [|done].
    eapply elem_of_sublist; [|apply (sublist_drop _ (active_start c))]. change (y ∈ active c).
    rewrite Hpre, elem_of_app. by right.
  - intros x. rewrite elem_of_app, list_elem_of_filter, Hperm, list_elem_of_filter.
    destruct (decide (tv_ordinal x ≤ last_ordinal c)); intuition lia.
Qed.

Lemma update_ok seen w c :
  pool_ok seen → behind seen w c →
  wpM (update digest math_log w) (λ _ c', in_step w c' ∧ behind seen w c') c.
Proof using digest_hex.
  intros Hpool Hb. pose proof Hb as [Hwf Hr [pre Hpre] Hord Hlast Hseen Hdis].
  destruct (reachable_window_facts w Hr) as (Hsw & Hw0 & Hwo).
  destruct (items_appended_after_spec w (last_ordinal c) Hr ltac:(lia)) as (new & En & Hperm & Hsn).
  assert (∀ c', cache_wf c' → active c' = w_items w → last_ordinal c' = latest_ordinal w →
    (∀ x, x ∈ items c' → x ∈ items c ++ w_items w) → in_step w c' ∧ behind seen w c') as Hdone.
  { intros c' Hwf' Hact Hlo Hin.
    assert (∀ x, x ∈ items c' ++ w_items w → x ∈ items c ++ w_items w) as Hin'.
    { intros x [Hx|Hx]%elem_of_app; [by apply Hin|]. apply elem_of_app. by right. }
    assert (seen_in seen (items c' ++ w_items w)) as Hs' by (intros x Hx; by apply Hseen, Hin').
    assert (distinct_objects (items c' ++ w_items w)) as Hd' by (intros x y Hx Hy; by apply Hdis; apply Hin').
    assert (∀ x, x ∈ items c' → tv_ordinal x ≤ latest_ordinal w) as Ho'.
    { intros x [Hx|Hx]%Hin%elem_of_app; unfold latest_ordinal.
      - specialize (Hord x Hx). lia.
      - destruct (Hwo x Hx). done. }
    split.
    - split; [done|]. split; [done|]. eapply pool_good; [exact Hpool| |apply Hwf'|].
      + intros x Hx. apply Hs', elem_of_app. by left.
      + intros x y Hx Hy. apply Hd'; apply elem_of_app; by left.
    - constructor; rewrite ?Hlo; try done.
      exists []. rewrite Hact. simpl. symmetry. apply list_filter_all, Forall_forall.
      intros x Hx. by destruct (Hwo x Hx). }
  unfold update. repeat wp_step. eapply wp_lift; [exact En|].
  destruct (in_order _ new) eqn:Eio.
  - destruct (new_items_split seen w c new Hb Hperm Hsn Eio) as [Hsorted Ew].
    assert (∀ x, x ∈ items c ++ new → x ∈ items c ++ w_items w) as Hin.
    { intros x [Hx|Hx]%elem_of_app; apply elem_of_app; [by left|right]. rewrite Ew. apply elem_of_app. by right. }
    assert (good_items (items c ++ new)) as Hg.
    { eapply pool_good; [exact Hpool| |done|].
      - intros x Hx. by apply Hseen, Hin.
      - intros x y Hx Hy. by apply Hdis; apply Hin. }
    apply wp_bind. eapply wp_mono; [by apply forM_append_ok|]. intros [] c1 (Hwf1 & E1 & E2 & E3).
    repeat wp_step. eapply wp_mono.
    + apply (trim_ok _ w pre); [by apply wf_last_ordinal|change (good_items (items c1)); by rewrite E1| |done].
      change (active _) with (active c1). unfold active. rewrite E1, E2.
      rewrite drop_app_le by (unfold items; rewrite length_map; apply Hwf).
      change (active c ++ new = pre ++ w_items w). by rewrite Hpre, <- app_assoc, <- Ew.
    + intros [] c' (Hwf' & Hact & Hsub & Hlo). apply Hdone; try done. intros x Hx. apply Hin. rewrite <- E1.
      by eapply elem_of_sublist.
  - eapply wp_mono.
    + apply rebuild_ok. eapply pool_good; [exact Hpool| |done|].
      * intros x Hx. apply Hseen, elem_of_app. by right.
      * intros x y Hx Hy. apply Hdis; apply elem_of_app; by right.
    + intros [] c' (Hwf' & Ei & Hact & Hlo). apply Hdone; try done. intros x Hx. rewrite Ei in Hx.
      apply elem_of_app. by right.
Qed.
End theory.
