(* ===== verification/PriceQueries.v ===== *)
(** * Queries of the price history cache

    On a cache in step with its window ([PriceCache.in_step]) every query returns what
    the direct computation over [items_between] returns; and a cache updated along any
    history of its window is in step with it. *)

From S2P Require Import Prelude Effects PyDecimal PyFloat PyTime Models Rolling Lineage PriceCache.

Implicit Types (l : list item) (c : PriceHistoryCache) (w : BoundedTimeWindow price_object).

(** The window's items of [(start, stop]]. *)
Definition items_in w (start stop : Z) : list item :=
  filter (λ x, start < tv_timestamp x ≤ stop) (w_items w).

Lemma mapR_slice {A B} (f : A → res B) (xs : list A) n m :
  (n + m ≤ length xs)%nat →
  mapR (λ i, x ← item_at xs i; f x) (seq n m) = mapR f (take m (drop n xs)).
Proof.
  revert n. induction m as [|m IH]; intros n Hlen; [done|].
  destruct (lookup_lt_is_Some_2 xs n) as [x Hx]; [lia|].
  assert (item_at xs n = Ok x) as Ex by (unfold item_at; by rewrite Hx).
  rewrite (drop_S _ _ _ Hx). simpl. rewrite Ex. simpl.
  by rewrite IH by lia.
Qed.

Section queries.
Context (digest : Z → price_event → string) (math_log : float → res float).

(** The two ends of a query, and the points between them. *)
Lemma query_slice w c start stop :
  in_step digest math_log w c → start ≤ stop →
  ∃ lo hi, cache_bounds c (utc start) (utc stop) = Ok (lo, hi) ∧
    drop lo (take hi (items c)) = items_in w start stop ∧ (hi ≤ length (points c))%nat ∧
    (hi - lo)%nat = length (items_in w start stop).
Proof.
  intros (Hwf & Hact & Hg) Hle. pose proof Hwf as [Ht _ Hs _ _ _ Ha _ _ _ _].
  unfold cache_bounds, price_utc. rewrite !as_utc_utc. simpl mbind.
  destruct (Z.ltb_spec stop start); [lia|]. simpl mbind.
  assert (length (items c) = length (points c)) as Elen by apply length_map.
  destruct (bisect_times (λ t, t <=? start) (items c) (active_start c)) as (n & Hn & En);
    [apply downward_leb|done|lia|].
  destruct (bisect_times (λ t, t <=? stop) (items c) (active_start c)) as (m & Hm & Em);
    [apply downward_leb|done|lia|].
  do 2 eexists. split; [reflexivity|]. rewrite Ht, En, Em.
  assert (drop (active_start c `max` n) (take (active_start c `max` m) (items c)) =
    items_in w start stop) as E.
  { transitivity (drop (n - active_start c) (take (m - active_start c) (active c))).
    - unfold active. rewrite <- (Nat.max_comm n), take_drop_commute.
      rewrite <- (Nat.max_comm m), drop_drop. f_equal; [lia|]. f_equal. lia.
    - rewrite (splits_at_between (λ x, tv_timestamp x <=? start) (λ x, tv_timestamp x <=? stop))
        by (by apply splits_at_drop).
      rewrite Hact. apply list_filter_ext_elem. intros x _. simpl.
      rewrite Z.leb_gt, Z.leb_le. done. }
  split; [exact E|]. split; [destruct Hm; lia|]. rewrite <- E, length_drop, length_take.
  destruct Hm. lia.
Qed.

(** Its first and last point. *)
Lemma slice_ends c lo hi x l :
  drop lo (take hi (items c)) = x :: l → (hi ≤ length (points c))%nat →
  (lo < hi)%nat ∧ ∃ p q, item_at (points c) lo = Ok p ∧ item_of p = x ∧
    item_at (points c) (hi - 1) = Ok q ∧ last (x :: l) = Some (item_of q) ∧
    head (drop lo (take hi (points c))) = Some p ∧ last (drop lo (take hi (points c))) = Some q.
Proof.
  intros E Hhi. rewrite <- items_take, <- (skipn_map item_of) in E || rewrite <- items_take in E.
  set (ps := drop lo (take hi (points c))) in *.
  assert (map item_of ps = x :: l) as Eps by (subst ps; rewrite <- E; symmetry; apply skipn_map).
  assert (length ps = hi - lo)%nat as Elen by (subst ps; rewrite length_drop, length_take; lia).
  destruct ps as [|p ps'] eqn:Ed; [done|]. simpl in Elen. injection Eps as <- El. split; [lia|].
  destruct (last (p :: ps')) as [q|] eqn:Eq; [|by apply last_None in Eq].
  assert (∀ i, (i < hi - lo)%nat → points c !! (lo + i)%nat = (p :: ps') !! i) as Hl.
  { intros i Hi. rewrite <- Ed. subst ps. rewrite lookup_drop, lookup_take_lt by lia. done. }
  exists p, q. unfold item_at. rewrite <- (Nat.add_0_r lo) at 1. rewrite (Hl 0%nat) by lia.
  replace (hi - 1)%nat with (lo + (hi - lo - 1))%nat by lia. rewrite Hl by lia.
  rewrite last_lookup in Eq. simpl length in Eq. simpl pred in Eq.
  replace (hi - lo - 1)%nat with (length ps') by lia. rewrite Eq.
  repeat split; try done. rewrite <- El. change (item_of p :: map item_of ps') with (item_of <$> (p :: ps')).
  rewrite fmap_last, last_lookup. simpl length. simpl pred. by rewrite Eq.
Qed.

(** ** Buckets *)

Lemma from_second_0 x : in_domain x → from_second (item_second x) = Ok (seconds (item_second x)).
Proof. intros Hx. pose proof (from_second_ok x 0 Hx ltac:(lia)) as H. by rewrite Z.add_0_r in H. Qed.

(** The bucket of a second, cut to the query. *)
Lemma partial_bucket_ok w c start stop lo hi x :
  in_step digest math_log w c → drop lo (take hi (items c)) = items_in w start stop →
  (hi ≤ length (points c))%nat → x ∈ items_in w start stop →
  partial_bucket c (item_second x) lo hi =
  Ok (Some (bucket_val (item_second x) (prices_in (item_second x) (items_in w start stop)))).
Proof.
  intros (Hwf & Hact & Hg) Eslice Hhi Hx. pose proof Hwf as [Ht Hp Hs Hd _ _ _ _ _ _ _].
  rewrite Forall_forall in Hd.
  assert (∀ y, y ∈ items_in w start stop → y ∈ items c) as Hin.
  { intros y Hy. rewrite <- Eslice in Hy. eapply elem_of_sublist; [exact Hy|].
    etransitivity; [apply sublist_drop|apply sublist_take]. }
  pose proof (Hd x (Hin x Hx)) as Hxd. unfold partial_bucket.
  rewrite (from_second_0 x Hxd), (from_second_ok x 1 Hxd) by lia. simpl mbind.
  set (s := item_second x) in *.
  destruct (bisect_times (λ t, t <? seconds s) (items c) 0) as (n & Hn & En); [apply downward_ltb|done|lia|].
  destruct (bisect_times (λ t, t <? seconds (s + 1)) (items c) 0) as (m & Hm & Em);
    [apply downward_ltb|done|lia|].
  rewrite Ht, En, Em, !Nat.max_0_l.
  pose proof (slice_between _ _ _ n m lo hi Hn Hm) as Esl. rewrite Eslice in Esl.
  assert (map pp_price (drop (lo `max` n) (take (hi `min` m) (points c))) =
    prices_in s (items_in w start stop)) as Epr.
  { rewrite map_price by (by apply Forall_drop, Forall_take). rewrite <- (skipn_map item_of), <- (firstn_map item_of).
    change (map item_of (points c)) with (items c).
    unfold prices_in. f_equal. transitivity (filter (λ y, (tv_timestamp y <? seconds s) = false ∧
      (tv_timestamp y <? seconds (s + 1)) = true) (items_in w start stop)); [exact Esl|].
    apply list_filter_ext_elem. intros y Hy. rewrite Z.ltb_ge, Z.ltb_lt.
    by rewrite (item_second_iff y s (Hd y (Hin y Hy))). }
  assert (prices_in s (items_in w start stop) ≠ []) as Hne
    by (apply prices_in_nonempty; by apply list_elem_of_fmap_2).
  destruct (Nat.leb_spec (hi `min` m) (lo `max` n)) as [Hle|Hlt].
  - exfalso. apply Hne. rewrite <- Epr. rewrite drop_ge; [done|]. rewrite length_take. lia.
  - rewrite Epr, bucket_of_val by done. done.
Qed.

(** The seconds between those of the first and the last item. *)
Lemma slice_seconds w c start stop x y l :
  in_step digest math_log w c → items_in w start stop = x :: l → last (x :: l) = Some y →
  ∀ z, z ∈ items c → item_second x ≤ item_second z ≤ item_second y →
  item_second z = item_second x ∨ item_second z = item_second y ∨ z ∈ items_in w start stop.
Proof.
  intros (Hwf & Hact & Hg) EL Ey z Hz Hsz. pose proof Hwf as [_ _ Hs Hd _ _ _ _ _ _ _].
  rewrite Forall_forall in Hd.
  assert (∀ u, u ∈ items_in w start stop → u ∈ active c ∧ start < tv_timestamp u ≤ stop) as HL.
  { intros u. unfold items_in. rewrite <- Hact, list_elem_of_filter. tauto. }
  assert (∀ u, u ∈ active c → u ∈ items c) as Hai by (intros u Hu; eapply elem_of_sublist; [exact Hu|apply sublist_drop]).
  destruct (HL x) as [Hxa Hxr]; [rewrite EL; left|].
  destruct (HL y) as [Hya Hyr]; [rewrite EL; by apply last_Some_elem_of|].
  destruct (decide (item_second z = item_second x)); [by left|].
  destruct (decide (item_second z = item_second y)); [by right; left|]. right; right.
  assert (tv_timestamp x < tv_timestamp z) as Hxz.
  { apply Z.nle_gt. intros Hle. apply item_second_mono in Hle; [lia|auto..]. }
  assert (tv_timestamp z < tv_timestamp y) as Hzy.
  { apply Z.nle_gt. intros Hle. apply item_second_mono in Hle; [lia|auto..]. }
  assert (z ∈ active c) as Hza.
  { rewrite <- (take_drop (active_start c) (items c)) in Hz, Hs. fold (active c) in Hz, Hs.
    apply elem_of_app in Hz as [Hz|Hz]; [|done]. apply StronglySorted_app_inv in Hs as (_ & _ & Hs).
    specialize (Hs z x Hz Hxa). unfold key_lt in Hs. lia. }
  unfold items_in. rewrite <- Hact. apply list_elem_of_filter. split; [lia|done].
Qed.

Lemma cache_buckets_ok w c start stop :
  in_step digest math_log w c → start ≤ stop →
  ∃ ss, seconds_of ss (items_in w start stop) ∧ cache_buckets c (utc start) (utc stop) =
    Ok (map (λ s, bucket_val s (prices_in s (items_in w start stop))) ss).
Proof.
  intros Hin Hle. destruct (query_slice w c start stop Hin Hle) as (lo & hi & Eb & Eslice & Hhi & Elen).
  unfold cache_buckets, price_utc. rewrite !as_utc_utc. simpl mbind. rewrite Eb. simpl mbind.
  destruct (items_in w start stop) as [|x l] eqn:EL.
  { simpl in Elen. rewrite (proj2 (Nat.leb_le hi lo)) by lia. exists []. split; [|done].
    split; [constructor|]. intros s. split; intros H; by apply elem_of_nil in H. }
  destruct (slice_ends c lo hi x l Eslice Hhi) as (Hlt & p & q & Ep & Epx & Eq & Eqy & _).
  rewrite (proj2 (Nat.leb_gt hi lo)) by lia. rewrite Ep, Eq. simpl mbind.
  change (second_of (pp_timestamp q)) with (item_second (item_of q)).
  change (second_of (pp_timestamp p)) with (item_second (item_of p)). rewrite Epx.
  set (y := item_of q) in *. pose proof Hin as (Hwf & Hact & Hg).
  pose proof Hwf as [_ _ Hs Hd [Hss Hse] Ebu _ _ _ _ _].
  destruct (bisect_seconds (λ s, s <? item_second x) (bucket_seconds c)) as (n & Hn & En); [apply downward_ltb|done|].
  destruct (bisect_seconds (λ s, s <=? item_second y) (bucket_seconds c)) as (m & Hm & Em); [apply downward_leb|done|].
  rewrite En, Em. set (T := drop n (take m (bucket_seconds c))).
  pose proof (splits_at_between _ _ _ _ _ Hn Hm) as ET. fold T in ET.
  assert (StronglySorted key_lt (x :: l)) as HsL.
  { rewrite <- EL. unfold items_in. rewrite <- Hact. apply StronglySorted_filter.
    eapply StronglySorted_sublist; [apply sublist_drop|exact Hs]. }
  assert (∀ u, u ∈ x :: l → item_second x ≤ item_second u ≤ item_second y) as Hrange.
  { intros u Hu.
    assert (∀ v, v ∈ x :: l → in_domain v) as HdL.
    { intros v Hv. rewrite Forall_forall in Hd. apply Hd. rewrite <- Eslice in Hv.
      eapply elem_of_sublist; [exact Hv|]. etransitivity; [apply sublist_drop|apply sublist_take]. }
    split; apply item_second_mono; try apply HdL; try done; try (by left); try (by apply last_Some_elem_of).
    - apply elem_of_cons in Hu as [->|Hu]; [lia|]. inversion HsL as [|?? _ Hall]; subst.
      rewrite Forall_forall in Hall. specialize (Hall u Hu). unfold key_lt in Hall. lia.
    - apply last_snoc_inv in Eqy as [l' El']. rewrite El' in Hu, HsL.
      apply StronglySorted_app_inv in HsL as (_ & _ & HsL).
      apply elem_of_app in Hu as [Hu| ->%list_elem_of_singleton]; [|lia].
      specialize (HsL u y Hu ltac:(left)). unfold key_lt in HsL. lia. }
  assert (x ∈ x :: l) as Hx by left. assert (y ∈ x :: l) as Hy by by apply last_Some_elem_of.
  assert (seconds_of T (x :: l)) as HT.
  { split; [eapply StronglySorted_sublist; [|exact Hss]; etransitivity; [apply sublist_drop|apply sublist_take]|].
    intros s. rewrite ET, list_elem_of_filter, Z.ltb_ge, Z.leb_le, Hse, !list_elem_of_fmap. split.
    - intros [Hrg (z & -> & Hz)]. rewrite <- EL in Eqy.
      rewrite EL in Eqy. destruct (slice_seconds w c start stop x y l Hin EL Eqy z Hz Hrg) as [E|[E|Hz']].
      + by exists x.
      + by exists y.
      + exists z. by rewrite <- EL.
    - intros (z & -> & Hz). split; [by apply Hrange|]. exists z. split; [done|]. rewrite <- Eslice in Hz.
      eapply elem_of_sublist; [exact Hz|]. etransitivity; [apply sublist_drop|apply sublist_take]. }
  exists T. split; [done|].
  rewrite mapR_slice by (rewrite Ebu, length_map; destruct Hn, Hm; lia).
  assert (take (m - n) (drop n (buckets c)) = map (λ s, bucket_val s (prices_in s (items c))) T) as ->.
  { subst T. rewrite Ebu, <- (skipn_map (λ s, bucket_val s (prices_in s (items c)))), <- firstn_map.
    destruct (decide (n ≤ m)%nat) as [Hnm|Hnm].
    - rewrite take_drop_commute. by replace (n + (m - n))%nat with m by lia.
    - replace (m - n)%nat with 0%nat by lia. rewrite take_0, drop_ge; [done|]. rewrite length_take. lia. }
  rewrite mapR_map, (mapR_total _ (λ s, Some (bucket_val s (prices_in s (x :: l))))).
  { simpl mbind. f_equal. clear. induction T as [|s T IH]; simpl; [done|]. by f_equal. }
  intros s HsT. assert (∀ ps, pb_second (bucket_val s ps) = s) as Epb by by intros [].
  rewrite Epb. pose proof HsT as (z & -> & Hz)%HT%list_elem_of_fmap. rewrite <- EL in Hz.
  destruct (Z.eqb_spec (item_second z) (item_second x)) as [Ex|Nx]; simpl orb; cbn iota.
  { rewrite <- EL. apply (partial_bucket_ok w c start stop lo hi z); [done|by rewrite EL|done|done]. }
  destruct (Z.eqb_spec (item_second z) (item_second y)) as [Ey|Ny]; simpl orb; cbn iota.
  { rewrite <- EL. apply (partial_bucket_ok w c start stop lo hi z); [done|by rewrite EL|done|done]. }
  do 3 f_equal. unfold prices_in. f_equal.
  apply (StronglySorted_ext key_lt); [unfold key_lt; lia| | |].
  - by apply StronglySorted_filter.
  - by apply StronglySorted_filter.
  - intros u. rewrite !list_elem_of_filter. split; intros [Eu Hu]; (split; [done|]).
    + rewrite EL in Hz. destruct (slice_seconds w c start stop x y l Hin EL Eqy u Hu) as [E|[E|Hu']];
        [rewrite Eu; by apply Hrange|congruence|congruence|by rewrite <- EL].
    + rewrite <- Eslice in Hu. eapply elem_of_sublist; [exact Hu|].
      etransitivity; [apply sublist_drop|apply sublist_take].
Qed.

(** What an in-step query's items are. *)
Lemma items_in_good w c start stop :
  in_step digest math_log w c →
  StronglySorted key_lt (items_in w start stop) ∧ Forall in_domain (items_in w start stop) ∧
  Forall (λ x, dltb d0 (item_price x) = true) (items_in w start stop).
Proof.
  intros (Hwf & Hact & Hg). unfold items_in. rewrite <- Hact.
  assert (sublist (filter (λ x, start < tv_timestamp x ≤ stop) (active c)) (items c)) as Hsub
    by (etransitivity; [apply sublist_filter|apply sublist_drop]).
  destruct (good_items_sublist math_log _ _ Hsub Hg). done.
Qed.

(** ** The average true range *)

(** The groups of the direct computation, seconds ascending. *)
Lemma groups_ok l :
  StronglySorted key_lt l → Forall in_domain l →
  let d := foldl group_step [] l in
  seconds_of (map fst d) l ∧ ∀ s, s ∈ map fst d → dict_get s d = Some (prices_in s l).
Proof.
  intros Hs Hd d. subst d. induction l as [|x l IH] using rev_ind.
  { split; [split; [constructor|]|]; intros s; [split|]; intros H; by apply elem_of_nil in H. }
  pose proof Hs as (Hs' & _ & Hlt)%StronglySorted_app_inv. apply Forall_app in Hd as [Hd Hdx].
  destruct (IH Hs' Hd) as [Hof Hget]. rewrite foldl_app. simpl. set (d := foldl group_step [] l) in *.
  unfold group_step. change (second_of (tv_timestamp x)) with (item_second x).
  change (reference_price (tv_value x)) with (item_price x). set (s := item_second x).
  assert (∀ y, y ∈ l → item_second y ≤ s) as Hle.
  { intros y Hy. rewrite Forall_singleton in Hdx. rewrite Forall_forall in Hd.
    apply item_second_mono; [auto|done|]. specialize (Hlt y x Hy ltac:(left)). unfold key_lt in Hlt. lia. }
  assert (∀ s', s' ≠ s → prices_in s' (l ++ [x]) = prices_in s' l) as Hother.
  { intros s' Hne. rewrite prices_in_snoc, decide_False, app_nil_r by (intros E; by apply Hne). done. }
  destruct (dict_get s d) as [ps|] eqn:Eg; simpl default.
  - assert (s ∈ map fst d) as Hsd.
    { apply dict_get_elem in Eg as (k & Hk & ->%bool_decide_eq_true). apply list_elem_of_fmap. by exists (k, ps). }
    rewrite (dict_set_keys _ _ ps) by done. split; [by apply seconds_of_snoc_same|].
    intros s' Hs''. destruct (decide (s' = s)) as [->|Hne].
    + rewrite dict_get_set_eq by by apply bool_decide_eq_true.
      rewrite (Hget s Hsd) in Eg. injection Eg as <-. by rewrite prices_in_snoc, decide_True.
    + rewrite dict_get_set_ne by by apply bool_decide_eq_false. rewrite Hother by done. by apply Hget.
  - assert (s ∉ map item_second l) as Hnew.
    { intros Hin%Hof. rewrite (Hget s Hin) in Eg. done. }
    rewrite dict_set_snoc, map_app by done. simpl. split.
    + apply seconds_of_snoc_new; [done|]. intros y Hy. specialize (Hle y Hy).
      assert (item_second y ≠ s); [|unfold s in *; lia]. intros E. apply Hnew. rewrite <- E.
      by apply list_elem_of_fmap_2.
    + intros s' [Hin| ->%list_elem_of_singleton]%elem_of_app.
      * rewrite <- dict_set_snoc, dict_get_set_ne by (done || apply bool_decide_eq_false; intros ->; by apply Hnew, Hof).
        rewrite Hother by (intros ->; by apply Hnew, Hof). by apply Hget.
      * rewrite <- dict_set_snoc, dict_get_set_eq by (done || by apply bool_decide_eq_true).
        by rewrite prices_in_snoc, decide_True, prices_in_empty.
Qed.

Lemma cache_atr_exact w c start stop :
  in_step digest math_log w c → start ≤ stop →
  cache_atr c (utc start) (utc stop) = one_second_atr (items_in w start stop).
Proof.
  intros Hin Hle. destruct (query_slice w c start stop Hin Hle) as (lo & hi & Eb & _ & _ & Elen).
  destruct (cache_buckets_ok w c start stop Hin Hle) as (ss & Hss & Ebs).
  destruct (items_in_good w c start stop Hin) as (Hs & Hd & _).
  unfold cache_atr, one_second_atr. rewrite Eb. simpl mbind. rewrite Elen.
  set (L := items_in w start stop) in *. destruct (Nat.ltb_spec (length L) 2) as [|Hlen]; [done|].
  rewrite Ebs. simpl mbind.
  destruct (groups_ok L Hs Hd) as [Hof Hget]. set (d := foldl group_step [] L) in *.
  rewrite py_sorted_id by (eapply StronglySorted_impl, Hof; intros; case_cmp; lia).
  rewrite (seconds_of_unique _ _ _ Hof Hss) in *.
  rewrite (mapR_total _ (λ s, bucket_val s (prices_in s L))).
  2: { intros s Hs'. rewrite Hget by done. apply bucket_of_val, prices_in_nonempty. by apply Hss. }
  simpl mbind. destruct ss as [|s ss]; [|done].
  destruct L as [|x L]; [simpl in Hlen; lia|]. destruct Hss as [_ Hss].
  exfalso. apply (not_elem_of_nil (item_second x)), Hss. left.
Qed.

(** ** High and low *)

(** The extremes of the window's prices, each the first of equals. *)
Definition window_high_low l : res (option decimal * option decimal) :=
  match l with
  | [] => Ok (None, None)
  | _ => high ← max_of (map item_price l); low ← min_of (map item_price l);
         Ok (Some high, Some low)
  end.

(** The prices, grouped by second. *)
Lemma prices_by_second ss : ∀ l,
  StronglySorted key_lt l → Forall in_domain l → seconds_of ss l →
  map item_price l = concat (map (λ s, prices_in s l) ss).
Proof.
  induction ss as [|s ss IH]; intros l Hs Hd [Hss Hin].
  { destruct l as [|x l]; [done|]. exfalso. apply (not_elem_of_nil (item_second x)), Hin. left. }
  inversion Hss as [|?? Hss' Hall]; subst. rewrite Forall_forall in Hall.
  pose proof Hd as Hd'. rewrite Forall_forall in Hd'.
  assert (∀ x, x ∈ l → s ≤ item_second x) as Hmin.
  { intros x Hx. assert (item_second x ∈ s :: ss) as [->|Hx']%elem_of_cons
      by (apply Hin; by apply list_elem_of_fmap_2); [lia|]. specialize (Hall _ Hx'). lia. }
  assert (splits_at (λ x, item_second x =? s) l (length (filter (λ x, (item_second x =? s) = true) l))) as Hsp.
  { apply splits_at_count. assert (∀ l', (∀ x, x ∈ l' → x ∈ l) → StronglySorted key_lt l' →
      StronglySorted (λ a b, (item_second b =? s) = true → (item_second a =? s) = true) l') as H; [|by apply H].
    intros l' Hl'. induction 1 as [|x l' _ IHl Hl]; [constructor|].
    constructor; [by apply IHl; intros y Hy; apply Hl'; right|].
    rewrite Forall_forall in *. intros y Hy Ey%Z.eqb_eq. apply Z.eqb_eq.
    specialize (Hl y Hy). specialize (Hmin x ltac:(apply Hl'; left)).
    assert (item_second x ≤ item_second y); [|lia].
    apply item_second_mono; [apply Hd', Hl'; left|apply Hd', Hl'; by right|]. unfold key_lt in Hl. lia. }
  destruct (splits_at_filter _ _ _ Hsp) as [Et Ed]. set (n := length _) in *.
  rewrite <- (take_drop n l) at 1. rewrite map_app. cbn [map concat]. f_equal.
  { rewrite Et. unfold prices_in. f_equal. apply list_filter_iff. intros x. by rewrite Z.eqb_eq. }
  assert (sublist (drop n l) l) as Hsub by apply sublist_drop.
  rewrite (IH (drop n l)).
  - f_equal. apply map_ext_in. intros s' Hs'%list_elem_of_In. unfold prices_in. f_equal.
    rewrite Ed, list_filter_filter. apply list_filter_iff. intros x. rewrite Z.eqb_neq.
    specialize (Hall s' Hs'). split; [intros []; done|]. intros E. split; [done|]. lia.
  - by eapply StronglySorted_sublist.
  - by apply Forall_drop.
  - split; [done|]. intros s'. rewrite Ed, list_elem_of_fmap. split.
    + intros Hs'. assert (s' ∈ map item_second l) as (x & -> & Hx)%list_elem_of_fmap by (apply Hin; by right).
      exists x. split; [done|]. apply list_elem_of_filter. split; [|done]. apply Z.eqb_neq.
      specialize (Hall _ Hs'). lia.
    + intros (x & -> & [Hx Hxl]%list_elem_of_filter). apply Z.eqb_neq in Hx.
      assert (item_second x ∈ s :: ss) as [?|?]%elem_of_cons by (apply Hin; by apply list_elem_of_fmap_2); done.
Qed.

Lemma max_of_top ps : ps ≠ [] → max_of ps = Ok (top dmax d0 ps).
Proof. by destruct ps. Qed.
Lemma min_of_top ps : ps ≠ [] → min_of ps = Ok (top dmin d0 ps).
Proof. by destruct ps. Qed.

Lemma high_low_exact w c start stop :
  in_step digest math_log w c → start ≤ stop →
  high_low c (utc start) (utc stop) = window_high_low (items_in w start stop).
Proof.
  intros Hin Hle. destruct (cache_buckets_ok w c start stop Hin Hle) as (ss & Hss & Ebs).
  destruct (items_in_good w c start stop Hin) as (Hs & Hd & _). unfold high_low. rewrite Ebs. simpl mbind.
  set (L := items_in w start stop) in *. clearbody L.
  assert (∀ s, s ∈ ss → prices_in s L ≠ []) as Hne by (intros s ?%Hss; by apply prices_in_nonempty).
  assert (Forall (λ ps, ps ≠ []) (map (λ s, prices_in s L) ss)) as Hall.
  { apply Forall_forall. intros ps (s & -> & ?)%list_elem_of_fmap. auto. }
  pose proof (prices_by_second ss L Hs Hd Hss) as Eps.
  assert (map pb_high (map (λ s, bucket_val s (prices_in s L)) ss) =
    map (top dmax d0) (map (λ s, prices_in s L) ss) ∧
    map pb_low (map (λ s, bucket_val s (prices_in s L)) ss) =
    map (top dmin d0) (map (λ s, prices_in s L) ss)) as [Eh El].
  { rewrite !map_map. split; apply map_ext_in; intros s Hs'%list_elem_of_In; specialize (Hne s Hs');
      by destruct (prices_in s L). }
  destruct L as [|x L].
  { destruct ss as [|s ss]; [done|]. exfalso. destruct Hss as [_ Hss].
    apply (not_elem_of_nil s). apply Hss. left. }
  destruct ss as [|s ss]; [by simpl in Eps|].
  set (bs := map _ (s :: ss)) in *. assert (bs ≠ []) as Hbs by done.
  unfold window_high_low. rewrite (max_of_top (map item_price (x :: L))), (min_of_top (map item_price (x :: L))) by done.
  rewrite Eps, (top_concat _ _ dmax_assoc), (top_concat _ _ dmin_assoc) by done. rewrite <- Eh, <- El.
  destruct bs as [|b bs]; [done|]. done.
Qed.

(** ** Count, ends and volatility *)

(** The squared log returns of consecutive prices, added to [acc]. *)
Fixpoint squared_returns (acc : float) (previous : decimal) (prices : list decimal) : res float :=
  match prices with
  | [] => Ok acc
  | p :: prices => r ← log_return math_log previous p; squared_returns (fadd acc (fmul r r)) p prices
  end.

Lemma return_chain_fold ps : ∀ p q,
  return_chain math_log (p :: ps) → last (p :: ps) = Some q →
  prefix_valid_log_returns q - prefix_valid_log_returns p = Z.of_nat (length ps) ∧
  squared_returns (prefix_squared_log_return p) (pp_price p) (map pp_price ps) =
    Ok (prefix_squared_log_return q).
Proof.
  induction ps as [|p' ps IH]; intros p q Hc Hq.
  { injection Hq as <-. simpl. split; [lia|done]. }
  destruct Hc as [[Hn (r & Hr & Hsq)] Hc]. change (last (p :: p' :: ps)) with (last (p' :: ps)) in Hq.
  destruct (IH p' q Hc Hq) as [IH1 IH2]. simpl length. split; [lia|].
  simpl. rewrite Hr. simpl mbind. by rewrite <- Hsq.
Qed.

(** The rounding of the prefix sums aside (the accumulator [acc] at the first item is
    not zero), the volatility is that of the items. *)
Definition volatility_of l (v : option float) : Prop :=
  match l with
  | x :: _ :: _ :: _ => ∃ acc sum,
      squared_returns acc (item_price x) (map item_price (tail l)) = Ok sum ∧
      v = Some (fsqrt (fmax f0 (fsub sum acc)))
  | _ => v = None
  end.

Lemma cache_range_exact w c start stop :
  in_step digest math_log w c → start ≤ stop →
  ∃ v, volatility_of (items_in w start stop) v ∧ cache_range c (utc start) (utc stop) =
    Ok {| range_count := Z.of_nat (length (items_in w start stop));
          range_first := item_price <$> head (items_in w start stop);
          range_last := item_price <$> last (items_in w start stop);
          realized_volatility := v |}.
Proof.
  intros Hin Hle. destruct (query_slice w c start stop Hin Hle) as (lo & hi & Eb & Eslice & Hhi & Elen).
  destruct Hin as (Hwf & Hact & Hg). pose proof Hwf as [_ Hp _ _ _ _ _ _ _ Hr _].
  unfold cache_range. rewrite Eb. simpl mbind. set (L := items_in w start stop) in *. clearbody L.
  destruct L as [|x l].
  { simpl in Elen. rewrite (proj2 (Nat.leb_le hi lo)) by lia. by exists None. }
  destruct (slice_ends c lo hi x l Eslice Hhi) as (Hlt & p & q & Ep & Epx & Eq & Eqy & Eh & El).
  rewrite (proj2 (Nat.leb_gt hi lo)) by lia. rewrite Ep, Eq, Elen, Eqy. simpl mbind.
  set (ps := drop lo (take hi (points c))) in *.
  assert (map item_of ps = x :: l) as Eps
    by (rewrite <- Eslice, <- items_take; symmetry; apply skipn_map).
  assert (Forall (λ p, pp_price p = item_price (item_of p)) ps) as Hps
    by by apply Forall_drop, Forall_take.
  assert (return_chain math_log ps) as Hrs by by apply return_chain_drop, return_chain_take.
  destruct ps as [|p' ps]; [done|]. injection Eh as ->.
  destruct (return_chain_fold ps p q Hrs El) as [Hcount Hsum].
  apply Forall_cons in Hps as [Hpp Hps]. rewrite map_price in Hsum by done.
  injection Eps as Epx' Epl. rewrite Epl, Hpp, Epx' in Hsum.
  assert (length ps = length l) as Hlen by (rewrite <- Epl; symmetry; apply length_map).
  assert (pp_price q = item_price (item_of q)) as Hqq.
  { apply (Forall_forall (λ p, pp_price p = item_price (item_of p)) (p :: ps)); [by constructor|].
    by apply last_Some_elem_of. }
  rewrite Hpp, Epx', Hqq. rewrite Hcount, Hlen.
  eexists. split; [|reflexivity]. unfold volatility_of.
  destruct l as [|y [|z l]]; [done..|]. simpl length.
  rewrite (proj2 (Z.ltb_ge _ 2)) by lia. do 2 eexists. split; [exact Hsum|done].
Qed.

(** ** Covered sources *)

Lemma covers_source_exact w c source start stop :
  in_step digest math_log w c → 
  covers_source c source (utc start) (utc stop) =
  Ok (existsb (λ x, object_id (tv_value x) =? object_id source) (items_in w start stop)).
Proof.
  intros (Hwf & Hact & Hg). destruct (cw_sources _ _ _ Hwf) as [_ Hsrc]. rewrite Hact in Hsrc.
  assert (∀ x, x ∈ w_items w → x ∈ items c) as Hsub.
  { intros x Hx. rewrite <- Hact in Hx. eapply elem_of_sublist; [exact Hx|apply sublist_drop]. }
  assert (∀ b, (b = true ↔ ∃ x, x ∈ items_in w start stop ∧ object_id (tv_value x) = object_id source) →
    b = existsb (λ x, object_id (tv_value x) =? object_id source) (items_in w start stop)) as Hex.
  { intros b Hb. apply eq_true_iff_eq. rewrite Hb, existsb_exists. split.
    - intros (x & Hx & E). exists x. split; [by apply list_elem_of_In|by apply Z.eqb_eq].
    - intros (x & Hx & E). exists x. split; [by apply list_elem_of_In|by apply Z.eqb_eq]. }
  unfold covers_source, price_utc. rewrite !as_utc_utc. simpl mbind.
  destruct (dict_get (object_id source) (source_positions c)) as [[o t]|] eqn:E.
  - pose proof (proj1 (Hsrc _ _ _) E) as (x & Hx & Ex & -> & ->). rewrite Ex, Z.eqb_refl.
    assert ((if start <? tv_timestamp x then Ok (tv_timestamp x <=? stop) else Ok false) =
      Ok ((start <? tv_timestamp x) && (tv_timestamp x <=? stop))) as -> by by destruct (_ <? _).
    f_equal. apply Hex. rewrite andb_true_iff, Z.ltb_lt, Z.leb_le. unfold items_in. split.
    + intros Hr. exists x. split; [by apply list_elem_of_filter|done].
    + intros (y & [Hy Hyw]%list_elem_of_filter & Ey).
      assert (y = x) as <-; [|done]. apply (gi_distinct _ _ Hg); auto. congruence.
  - f_equal. apply Hex. split; [done|]. intros (y & [Hy Hyw]%list_elem_of_filter & Ey).
    assert (dict_get (object_id source) (source_positions c) = Some (tv_value y, tv_timestamp y)); [|congruence].
    apply Hsrc. by exists y.
Qed.

(** ** Lineage *)

(** The commitment computed from the items. *)
Definition direct_lineage l : res SourceLineage :=
  leaves ← mapR (λ x, from_source digest (utc (tv_timestamp x)) (price_of_object (tv_value x))) l;
  combine empty_lineage leaves.

Definition leaf (x : item) : SourceLineage :=
  {| sl_count := 1; digest_sum := digest_of digest x; digest_xor := digest_of digest x;
     oldest_timestamp := Some (tv_timestamp x); newest_timestamp := Some (tv_timestamp x) |}.

Hypothesis digest_hex : ∀ t e, String.length (digest t e) = 64%nat ∧
  ∃ n, int16 (digest t e) = Some n ∧ 0 ≤ n < digest_modulus.

Lemma leaf_wf x : lineage_wf (leaf x).
Proof using digest_hex.
  destruct (digest_value_of digest digest_hex x) as [_ Hd]. constructor; simpl; try done.
  intros _. do 2 eexists. done.
Qed.

Lemma from_source_leaf x :
  from_source digest (utc (tv_timestamp x)) (price_of_object (tv_value x)) = Ok (leaf x).
Proof using digest_hex.
  pose proof (mk_lineage_self (leaf x) (leaf_wf x) ltac:(done)) as H.
  destruct (digest_hex (tv_timestamp x) (price_of_object (tv_value x))) as [Hlen (n & Hn & Hb)].
  assert (digest_of digest x = n) as Ed by (unfold digest_of, digest_value; by rewrite Hn).
  unfold from_source, from_digest, lineage_utc. rewrite !as_utc_utc. simpl mbind.
  rewrite Hlen, Hn. simpl mbind. rewrite <- Ed. exact H.
Qed.

(** The commitment to a chain of points, in time order. *)
Lemma chain_lineage ps : ∀ s x p q,
  digest_bounds s x → digest_chain digest s x (p :: ps) → last (p :: ps) = Some q →
  StronglySorted key_lt (map item_of (p :: ps)) →
  merge_all (map leaf (map item_of (p :: ps))) =
    {| sl_count := Z.of_nat (length (p :: ps));
       digest_sum := Z.land (prefix_digest_sum q - s) digest_mask;
       digest_xor := Z.lxor (prefix_digest_xor q) x;
       oldest_timestamp := Some (pp_timestamp p); newest_timestamp := Some (pp_timestamp q) |}.
Proof using digest_hex.
  induction ps as [|p' ps IH]; intros s x p q Hb Hc Hq Hs.
  - injection Hq as <-. destruct Hc as (Esum & Exor & _). simpl merge_all.
    rewrite merge_comm, merge_empty_l by apply leaf_wf. unfold leaf. simpl. rewrite land_mask.
    destruct (digest_value_of digest digest_hex (item_of p)) as [_ Hd].
    f_equal.
    + rewrite Esum, Zminus_mod_idemp_l. replace (s + _ - s) with (digest_of digest (item_of p)) by lia.
      by rewrite Z.mod_small.
    + rewrite Exor, Z.lxor_comm, <- Z.lxor_assoc, Z.lxor_nilpotent. by rewrite Z.lxor_0_l.
  - destruct Hc as (Esum & Exor & Hc). change (last (p :: p' :: ps)) with (last (p' :: ps)) in Hq.
    assert (digest_bounds (prefix_digest_sum p) (prefix_digest_xor p)) as Hbp.
    { destruct (digest_value_of digest digest_hex (item_of p)) as [_ Hd]. rewrite Esum, Exor.
      destruct Hb. split; [by apply Z.mod_pos_bound|by apply lxor_bounds]. }
    inversion Hs as [|?? Hs' Hall]; subst.
    change (merge_all (map leaf (map item_of (p :: p' :: ps)))) with
      (merge (leaf (item_of p)) (merge_all (map leaf (map item_of (p' :: ps))))).
    rewrite (IH _ _ p' q Hbp Hc Hq Hs'). unfold merge. simpl.
    assert (pp_timestamp p ≤ pp_timestamp p' ∧ pp_timestamp p ≤ pp_timestamp q) as [H1 H2].
    { rewrite Forall_forall in Hall. split.
      - specialize (Hall (item_of p') ltac:(left)). unfold key_lt in Hall. simpl in Hall. lia.
      - assert (item_of q ∈ map item_of (p' :: ps)) as Hin
          by (apply list_elem_of_fmap_2; by apply last_Some_elem_of).
        specialize (Hall _ Hin). unfold key_lt in Hall. simpl in Hall. lia. }
    f_equal; [lia| | |f_equal; lia|f_equal; lia].
    + rewrite !land_mask, Zplus_mod_idemp_r, Esum. set (d := digest_of digest (item_of p)).
      replace (d + (prefix_digest_sum q - (s + d) mod digest_modulus)) with
        (d + prefix_digest_sum q - (s + d) mod digest_modulus) by lia.
      rewrite Zminus_mod_idemp_r. f_equal. lia.
    + rewrite Exor. apply Z.bits_inj'. intros n _. rewrite !Z.lxor_spec.
      by destruct (Z.testbit (digest_of digest (item_of p)) n), (Z.testbit (prefix_digest_xor q) n),
        (Z.testbit x n).
Qed.

Lemma cache_lineage_exact w c start stop :
  in_step digest math_log w c → start ≤ stop →
  cache_lineage c (utc start) (utc stop) = direct_lineage (items_in w start stop) ∧
  is_ok (direct_lineage (items_in w start stop)) = true.
Proof using digest_hex.
  intros Hin Hle. destruct (query_slice w c start stop Hin Hle) as (lo & hi & Eb & Eslice & Hhi & Elen).
  destruct (items_in_good w c start stop Hin) as (Hs & _ & _).
  destruct Hin as (Hwf & Hact & Hg). pose proof Hwf as [_ _ _ _ _ _ _ Hbd Hdg _ _].
  unfold cache_lineage. rewrite Eb. simpl mbind. set (L := items_in w start stop) in *. clearbody L.
  unfold direct_lineage. rewrite (mapR_total _ leaf) by (intros; apply from_source_leaf). simpl mbind.
  assert (Forall lineage_wf (map leaf L)) as Hwl
    by (apply Forall_forall; intros x (y & -> & _)%list_elem_of_fmap; apply leaf_wf).
  rewrite combine_merge, merge_empty_l by (done || apply empty_lineage_wf || by apply merge_all_wf).
  split; [|done]. destruct L as [|x l].
  { simpl in Elen. by rewrite (proj2 (Nat.leb_le hi lo)) by lia. }
  destruct (slice_ends c lo hi x l Eslice Hhi) as (Hlt & p & q & Ep & Epx & Eq & Eqy & Eh & El).
  rewrite (proj2 (Nat.leb_gt hi lo)) by lia. rewrite Ep, Eq, Elen. simpl mbind.
  set (ps := drop lo (take hi (points c))) in *.
  assert (map item_of ps = x :: l) as Eps
    by (rewrite <- Eslice, <- items_take; symmetry; apply skipn_map).
  assert (∃ s y, (if Nat.eqb lo 0 then Ok (base_digest_sum c, base_digest_xor c)
      else r ← item_at (points c) (lo - 1); Ok (prefix_digest_sum r, prefix_digest_xor r)) = Ok (s, y) ∧
      digest_bounds s y ∧ digest_chain digest s y ps) as (s & y & -> & Hsy & Hch).
  { rewrite <- (take_drop hi (points c)) in Hdg. apply digest_chain_app in Hdg as [Hdg _].
    pose proof (digest_chain_drop _ _ _ lo _ Hdg) as Hdr. fold ps in Hdr.
    destruct (Nat.eqb_spec lo 0) as [->|Hn]; [by do 2 eexists|].
    rewrite take_take, Nat.min_l in Hdr by lia.
    assert (last (take lo (points c)) = points c !! (lo - 1)%nat) as Elast.
    { rewrite last_lookup, length_take, Nat.min_l, lookup_take_lt by lia.
      f_equal. lia. }
    rewrite Elast in Hdr. destruct (lookup_lt_is_Some_2 (points c) (lo - 1)) as [r Hr]; [lia|].
    rewrite Hr in Hdr. unfold item_at. rewrite Hr. do 2 eexists. split; [reflexivity|]. split; [|done].
    eapply digest_bounds_chain; [done|exact Hbd| |by eapply list_elem_of_lookup_2].
    apply Hwf. }
  simpl mbind. destruct ps as [|p' ps]; [done|]. injection Eh as ->.
  rewrite <- Eps in Hs, Hwl |- *.
  pose proof (merge_all_wf _ Hwl) as Hm. rewrite (chain_lineage ps s y p q Hsy Hch El Hs) in Hm |- *.
  change (S (length l)) with (length (x :: l)). rewrite <- Eps, length_map.
  by apply (mk_lineage_self _ Hm).
Qed.
End queries.

(** ** Histories

    A window with its cache: appends and clears reach the window, updates the cache. *)

Inductive cache_op := WindowOp (op : window_op (T := price_object)) | UpdateOp.

Section histories.
Context (digest : Z → price_event → string) (math_log : float → res float).

Definition cache_step (s : BoundedTimeWindow price_object * PriceHistoryCache) (op : cache_op)
    : res (BoundedTimeWindow price_object * PriceHistoryCache) :=
  match op with
  | WindowOp op => Ok ((window_step s.1 op).1, s.2)
  | UpdateOp => c ← execM (update digest math_log s.1) s.2; Ok (s.1, c)
  end.

Fixpoint cache_run s (ops : list cache_op) : res (BoundedTimeWindow price_object * PriceHistoryCache) :=
  match ops with
  | [] => Ok s
  | op :: ops => s ← cache_step s op; cache_run s ops
  end.

(** The instants and objects appended. *)
Definition appended (ops : list cache_op) : list (Z * price_object) :=
  omap (λ op, match op with WindowOp (OpAppend t o) => Some (t, o) | _ => None end) ops.

(** What the cache relies on: each object is appended once, instants lie between 1970
    and 2255, prices are positive and [math.log] accepts their ratios. *)
Record feasible (ops : list cache_op) : Prop := {
  fe_pool : pool_ok math_log (appended ops);
  fe_objects : NoDup (map (λ x, object_id x.2) (appended ops)) }.

Hypothesis digest_hex : ∀ t e, String.length (digest t e) = 64%nat ∧
  ∃ n, int16 (digest t e) = Some n ∧ 0 ≤ n < digest_modulus.

Lemma pool_ok_sub seen1 seen2 :
  (∀ x, x ∈ seen1 → x ∈ seen2) → pool_ok math_log seen2 → pool_ok math_log seen1.
Proof.
  intros Hsub [Hd Hl]. split.
  - intros t o Hin. by apply Hd, Hsub.
  - intros t1 o1 t2 o2 H1 H2. by eapply Hl; apply Hsub.
Qed.

(** A window operation leaves the cache behind. *)
Lemma behind_step seen w c op :
  behind digest math_log seen w c →
  match op with OpAppend t o => ∀ x, x ∈ seen → object_id x.2 ≠ object_id o | OpClear => True end →
  behind digest math_log (seen ++ match op with OpAppend t o => [(t, o)] | OpClear => [] end)
    (window_step w op).1 c.
Proof.
  intros [Hwf Hr [pre Hpre] Hord Hlast Hseen Hdis] Hfresh.
  pose proof (reachable_window_step w op Hr) as Hr'. destruct (window_step_items w op Hr) as [pre' Hitems].
  destruct (reachable_window_facts w Hr) as (Hsw & Hw0 & Hwo).
  assert (w_ordinal w ≤ w_ordinal (window_step w op).1) as Hmono.
  { destruct op as [t o|]; [|done]. simpl. unfold append_at.
    destruct (admissibility_at w t); simpl; try lia.
    match goal with |- context [prune ?s] => destruct (prune_fields s) as (_ & _ & _ & _ & _ & ->) end. simpl. lia. }
  (* the items of the new window: old ones, and the appended one *)
  assert (∀ x, x ∈ w_items (window_step w op).1 → x ∈ w_items w ∨
    ∃ t o, op = OpAppend t o ∧ x = Build_TimedValue t o (w_ordinal w + 1)) as Hin.
  { intros x Hx. assert (x ∈ pre' ++ w_items (window_step w op).1) as Hx' by (apply elem_of_app; by right).
    rewrite Hitems in Hx'. destruct op as [t o|]; [|by left].
    case_bool_decide; [|by left]. apply spec_insert_elem in Hx' as [->|Hx']; [right; eauto|by left]. }
  assert (∃ pre2, pre2 ++ filter (λ x, tv_ordinal x ≤ last_ordinal c) (w_items (window_step w op).1) =
    filter (λ x, tv_ordinal x ≤ last_ordinal c) (w_items w)) as [pre2 Hpre2].
  { exists (filter (λ x, tv_ordinal x ≤ last_ordinal c) pre'). rewrite <- filter_app, Hitems.
    destruct op as [t o|]; [|done]. case_bool_decide; [|done].
    unfold spec_insert. rewrite !filter_app, (filter_cons _ (Build_TimedValue _ _ _)), decide_False, filter_nil
      by (simpl; lia).
    simpl app. rewrite <- filter_app. f_equal. symmetry. apply (time_split t). by apply key_lt_time_le. }
  constructor; try done.
  - exists (pre ++ pre2). by rewrite <- app_assoc, Hpre2.
  - lia.
  - intros x Hx. apply elem_of_app. apply elem_of_app in Hx as [Hx|Hx].
    + left. apply Hseen, elem_of_app. by left.
    + destruct (Hin x Hx) as [Hx'|(t & o & -> & ->)]; [|right; simpl; left].
      left. apply Hseen, elem_of_app. by right.
  - assert (∀ x, x ∈ items c ++ w_items (window_step w op).1 → x ∈ items c ++ w_items w ∨
      ∃ t o, op = OpAppend t o ∧ x = Build_TimedValue t o (w_ordinal w + 1)) as Hin2.
    { intros x [Hx|Hx]%elem_of_app; [left; apply elem_of_app; by left|].
      destruct (Hin x Hx); [left; apply elem_of_app; by right|by right]. }
    intros x y Hx Hy E. destruct (Hin2 x Hx) as [Hx'|(t & o & Eop & Ex)], (Hin2 y Hy) as [Hy'|(t' & o' & Eop' & Ey)].
    + by apply Hdis.
    + exfalso. subst op y. apply (Hfresh _ (Hseen x Hx')). done.
    + exfalso. subst op x. by apply (Hfresh _ (Hseen y Hy')).
    + congruence.
Qed.

Lemma cache_run_ok ops : ∀ seen w c,
  behind digest math_log seen w c → pool_ok math_log (seen ++ appended ops) →
  NoDup (map (λ x, object_id x.2) (seen ++ appended ops)) →
  ∃ w' c', cache_run (w, c) ops = Ok (w', c') ∧ behind digest math_log (seen ++ appended ops) w' c'.
Proof using digest_hex.
  induction ops as [|op ops IH]; intros seen w c Hb Hp Hn.
  { exists w, c. simpl. by rewrite app_nil_r. }
  destruct op as [op|]; cbn [cache_run cache_step mbind res_bind fst snd].
  - assert (appended (WindowOp op :: ops) =
      match op with OpAppend t o => [(t, o)] | OpClear => [] end ++ appended ops) as E by by destruct op.
    rewrite E, app_assoc in Hp, Hn. rewrite E, app_assoc. apply IH; [|done|done].
    apply behind_step; [done|]. destruct op as [t o|]; [|done]. intros x Hx Eid.
    rewrite map_app in Hn. apply NoDup_app in Hn as (Hn & _). rewrite map_app in Hn.
    apply NoDup_app in Hn as (_ & Hn & _). apply (Hn (object_id x.2)); [by apply (list_elem_of_fmap_2 (λ x, object_id x.2))|].
    simpl. rewrite Eid. left.
  - change (appended (UpdateOp :: ops)) with (appended ops) in *.
    assert (pool_ok math_log seen) as Hps
      by (eapply pool_ok_sub; [|exact Hp]; intros x Hx; apply elem_of_app; by left).
    destruct (wp_run _ _ _ (update_ok digest math_log digest_hex seen w c Hps Hb)) as (c' & [] & Er & _ & Hb').
    unfold execM. rewrite Er. simpl. by apply IH.
Qed.

Lemma window_init_reachable ret maxi policy late w :
  window_init ret maxi policy late = Ok w → reachable_window w.
Proof. intros H. by exists ret, maxi, policy, late, w, []. Qed.

Lemma behind_init ret maxi policy late w :
  window_init ret maxi policy late = Ok w → behind digest math_log [] w price_cache_init.
Proof.
  intros H. pose proof (window_init_reachable _ _ _ _ _ H) as Hr.
  assert (w_items w = [] ∧ w_ordinal w = 0) as [Ei Eo] by (unfold window_init in H; inv_res; by subst w).
  constructor; try done.
  - constructor; simpl; try done; try by constructor.
    + split; [constructor|]. intros s. split; intros Hs; by apply elem_of_nil in Hs.
    + split; [done|]. intros id o t. split; [done|]. intros (x & Hx & _). by apply elem_of_nil in Hx.
  - exists []. by rewrite Ei.
  - intros x Hx. by apply elem_of_nil in Hx.
  - simpl. lia.
  - rewrite Ei. intros x Hx. by apply elem_of_nil in Hx.
  - rewrite Ei. intros x y Hx. by apply elem_of_nil in Hx.
Qed.

Lemma history_in_step ret maxi policy late w0 ops :
  window_init ret maxi policy late = Ok w0 → feasible ops →
  ∃ w c, cache_run (w0, price_cache_init) (ops ++ [UpdateOp]) = Ok (w, c) ∧
    reachable_window w ∧ in_step digest math_log w c.
Proof using digest_hex.
  intros Hinit [Hp Hn]. destruct (cache_run_ok ops [] w0 price_cache_init
    (behind_init _ _ _ _ _ Hinit) Hp Hn) as (w & c & Hrun & Hb).
  destruct (wp_run _ _ _ (update_ok digest math_log digest_hex _ w c Hp Hb)) as (c' & [] & Er & Hs & _).
  exists w, c'. split; [|split; [apply Hb|done]].
  assert (∀ ops s, cache_run s (ops ++ [UpdateOp]) = (s ← cache_run s ops; cache_run s [UpdateOp])) as Happ.
  { clear. induction ops as [|op ops IH]; intros s; simpl.
    - destruct (execM _ _); done.
    - destruct (cache_step s op); [apply IH|done]. }
  rewrite Happ, Hrun. simpl. unfold execM. by rewrite Er.
Qed.


(** The same for the source lineage: the prefix sums and xors give the commitment
    that combining the items one by one gives, and [covers_source] tells whether the
    object is among them, so that the engine counts it once. *)
Theorem price_cache_lineage_exact ret maxi policy late w0 ops :
  window_init ret maxi policy late = Ok w0 → feasible ops →
  ∃ w c, cache_run (w0, price_cache_init) (ops ++ [UpdateOp]) = Ok (w, c) ∧
  ∀ start stop, start ≤ stop → ∃ l, items_between w (utc start) (utc stop) = Ok l ∧
    cache_lineage c (utc start) (utc stop) = direct_lineage digest l ∧
    is_ok (direct_lineage digest l) = true ∧
    ∀ source, covers_source c source (utc start) (utc stop) =
      Ok (existsb (λ x, object_id (tv_value x) =? object_id source) l).
Proof using digest_hex.
  intros Hinit Hf. destruct (history_in_step _ _ _ _ _ _ Hinit Hf) as (w & c & Hrun & Hr & Hs).
  exists w, c. split; [done|]. intros start stop Hle. exists (items_in w start stop).
  split; [by apply window_queries_spec|].
  destruct (cache_lineage_exact digest math_log digest_hex w c start stop Hs Hle) as [E1 E2].
  split; [done|]. split; [done|]. intros source. by eapply covers_source_exact.
Qed.
End histories.

(** ** Demonstration *)

Definition demo_trade (id price : Z) : price_object :=
  {| object_id := id;
     price_of_object := PTrade {| trade_meta := example_meta; trade_id := "1"; trade_price := of_int price;
       trade_quantity := of_int 1; aggressor_side := BUY; trade_contract_quantity := None |} |}.

(** A digest that depends on the instant's tenth of a second. *)
Definition price_digest (t : Z) (e : price_event) : string :=
  String (Ascii.ascii_of_N (Z.to_N (48 + (t / 100000) mod 10)))
    "000000000000000000000000000000000000000000000000000000000000000".
(** [x - 1] for [log x]. *)
Definition demo_log (x : float) : res float :=
  if fltb f0 x then Ok (fsub x f1) else Err (ValueError "math domain error").

Lemma price_digest_hex t e : String.length (price_digest t e) = 64%nat ∧
  ∃ n, int16 (price_digest t e) = Some n ∧ 0 ≤ n < digest_modulus.
Proof.
  unfold price_digest. pose proof (Z.mod_pos_bound (t / 100000) 10 ltac:(lia)) as H.
  set (d := (t / 100000) mod 10) in *. clearbody d.
  assert (d = 0 ∨ d = 1 ∨ d = 2 ∨ d = 3 ∨ d = 4 ∨ d = 5 ∨ d = 6 ∨ d = 7 ∨ d = 8 ∨ d = 9) as Hd by lia.
  repeat destruct Hd as [->|Hd]; subst; (split; [reflexivity|]);
    eexists; (split; [vm_compute; reflexivity|done]).
Qed.

(** Trades in three seconds, one of them late, in a window of three items. *)
Definition demo_history : list cache_op :=
  [WindowOp (OpAppend 1000000 (demo_trade 1 100)); UpdateOp;
   WindowOp (OpAppend 1500000 (demo_trade 2 103)); WindowOp (OpAppend 2200000 (demo_trade 3 101)); UpdateOp;
   WindowOp (OpAppend 2000000 (demo_trade 4 102)); WindowOp (OpAppend 3500000 (demo_trade 5 99))].
Definition demo_price_window : BoundedTimeWindow price_object :=
  {| retention := 10000000; maximum_items := 4; late_event_policy := INSERT;
     maximum_lateness := 2500000; w_items := []; watermark := None; w_ordinal := 0;
     accepted := 0; late_dropped := 0; expired_dropped := 0; capacity_evictions := 0 |}.

Lemma demo_feasible : feasible demo_log demo_history.
Proof.
  split.
  - split.
    + intros t o H. repeat (apply elem_of_cons in H as [[= -> ->]|H]; [by vm_compute|]).
      by apply elem_of_nil in H.
    + intros t1 o1 t2 o2 H1 H2.
      repeat (apply elem_of_cons in H1 as [[= -> ->]|H1];
        [repeat (apply elem_of_cons in H2 as [[= -> ->]|H2]; [eexists; vm_compute; reflexivity|]);
         by apply elem_of_nil in H2|]).
      by apply elem_of_nil in H1.
  - apply (bool_decide_eq_true_1 _). by vm_compute.
Qed.


Lemma price_cache_lineage_exact_witness :
  ∃ w c, cache_run price_digest demo_log (demo_price_window, price_cache_init) (demo_history ++ [UpdateOp]) =
    Ok (w, c) ∧
  (∃ l, items_between w (utc 1000000) (utc 2100000) = Ok l ∧
    cache_lineage c (utc 1000000) (utc 2100000) = direct_lineage price_digest l ∧
    is_ok (direct_lineage price_digest l) = true ∧
    ∀ source, covers_source c source (utc 1000000) (utc 2100000) =
      Ok (existsb (λ x, object_id (tv_value x) =? object_id source) l)) ∧
  (sl_count <$> cache_lineage c (utc 1000000) (utc 2100000)) = Ok 2.
Proof.
  destruct (price_cache_lineage_exact price_digest demo_log price_digest_hex 10000000 4 INSERT 2500000
    demo_price_window demo_history eq_refl demo_feasible) as (w & c & Hrun & Hq).
  exists w, c. split; [exact Hrun|]. vm_compute in Hrun. injection Hrun as <- <-.
  split; [apply Hq; lia|vm_compute; reflexivity].
Defined.
