(* ===== verification/FeatureModels.v ===== *)
(** * Feature snapshot models

    The enumerations and validated records of [features/models.py] the engines
    exchange.  As for the events of [Models], an instance is what the validators
    accept: [validate_*] raises pydantic's [ValidationError] (a [ValueError])
    where they do.  Timestamps are instants, since every caller passes UTC
    datetimes, which the time zone validators leave as they are; a [UUID] is its
    [hex] text; the [Literal] fields have one value each and are left out. *)

From S2P Require Import Prelude PyDecimal PyFloat PyTime Models Lineage Availability.
From Stdlib Require Import Ascii.

Abbreviation UUID := string.

(** ** Enumerations *)

Inductive AlignmentStatus :=
| AlignmentStatus_ALIGNED | AlignmentStatus_DEGRADED | AlignmentStatus_STALE_BINANCE
| AlignmentStatus_STALE_OKX | AlignmentStatus_UNAVAILABLE.
Inductive DirectionState :=
| DirectionState_POSITIVE | DirectionState_NEGATIVE | DirectionState_FLAT
| DirectionState_UNAVAILABLE.
Inductive DirectionAgreement :=
| DirectionAgreement_BOTH_POSITIVE | DirectionAgreement_BOTH_NEGATIVE
| DirectionAgreement_BOTH_FLAT | DirectionAgreement_DIVERGENT
| DirectionAgreement_UNAVAILABLE.
Inductive StrengthAgreement :=
| StrengthAgreement_CONSISTENT | StrengthAgreement_DIVERGENT | StrengthAgreement_UNAVAILABLE.
Inductive ContextAgreement :=
| ContextAgreement_MATCHED | ContextAgreement_CONFLICT | ContextAgreement_UNAVAILABLE.
Inductive CrowdingAgreement :=
| CrowdingAgreement_BOTH_LONG | CrowdingAgreement_BOTH_SHORT | CrowdingAgreement_BOTH_MIXED
| CrowdingAgreement_ONE_SIDED | CrowdingAgreement_DIVERGENT | CrowdingAgreement_UNAVAILABLE.
Inductive ActivityAgreement :=
| ActivityAgreement_BOTH_ELEVATED | ActivityAgreement_BOTH_NORMAL
| ActivityAgreement_ONE_SIDED | ActivityAgreement_DIVERGENT | ActivityAgreement_UNAVAILABLE.
Inductive LiquidityDivergenceStatus :=
| LiquidityDivergenceStatus_CONFIRMED_ADDITION | LiquidityDivergenceStatus_CONFIRMED_REMOVAL
| LiquidityDivergenceStatus_NEUTRAL | LiquidityDivergenceStatus_DIVERGENT
| LiquidityDivergenceStatus_UNAVAILABLE.
Inductive LeadLagStatus :=
| LeadLagStatus_BINANCE_LEADS | LeadLagStatus_OKX_LEADS | LeadLagStatus_SIMULTANEOUS
| LeadLagStatus_UNAVAILABLE.
Inductive PriceOpenInterestState :=
| PRICE_UP_OI_UP | PRICE_UP_OI_DOWN | PRICE_DOWN_OI_UP | PRICE_DOWN_OI_DOWN
| PriceOpenInterestState_FLAT.
Inductive CrowdingState := CROWDED_LONG | CROWDED_SHORT | CrowdingState_MIXED.

#[export] Instance AlignmentStatus_eq_dec : EqDecision AlignmentStatus.
Proof. solve_decision. Defined.
#[export] Instance DirectionState_eq_dec : EqDecision DirectionState.
Proof. solve_decision. Defined.
#[export] Instance DirectionAgreement_eq_dec : EqDecision DirectionAgreement.
Proof. solve_decision. Defined.
#[export] Instance ContextAgreement_eq_dec : EqDecision ContextAgreement.
Proof. solve_decision. Defined.
#[export] Instance CrowdingAgreement_eq_dec : EqDecision CrowdingAgreement.
Proof. solve_decision. Defined.
#[export] Instance ActivityAgreement_eq_dec : EqDecision ActivityAgreement.
Proof. solve_decision. Defined.
#[export] Instance PriceOpenInterestState_eq_dec : EqDecision PriceOpenInterestState.
Proof. solve_decision. Defined.
#[export] Instance CrowdingState_eq_dec : EqDecision CrowdingState.
Proof. solve_decision. Defined.

(** ** Field validators *)

(** [math.isfinite] of a value that is present. *)
Definition finite_value (v : option float) : bool :=
  match v with Some f => is_finite f | None => true end.
Definition finite_fields (l : list (option float)) : res unit :=
  require (forallb finite_value l) (ValueError "feature values must be finite").

(** [Field(ge=lo)] and [Field(ge=lo, le=hi)]. *)
Definition at_least (lo : float) (v : option float) : bool :=
  match v with Some f => fleb lo f | None => true end.
Definition within (lo hi : float) (v : option float) : bool :=
  match v with Some f => fleb lo f && fleb f hi | None => true end.
Definition at_least_0 (l : list (option float)) : res unit :=
  require (forallb (at_least f0) l) (ValueError "greater than or equal to 0").
Definition in_range (lo hi : float) (v : option float) : res unit :=
  require (within lo hi v) (ValueError "out of range").

(** [Field(pattern=r"^[0-9a-f]{64}$")]. *)
Definition lower_hex_char (c : ascii) : bool :=
  let n := N_of_ascii c in is_digit c || ((97 <=? n) && (n <=? 102))%N.
Definition sha256_pattern (s : string) : bool :=
  (String.length s =? 64)%nat && forallb lower_hex_char (chars s).

(** ** Values of one venue *)

Record TradeFlowFeatureValues := {
  aggressive_buy_notional : option decimal;
  aggressive_sell_notional : option decimal;
  taker_imbalance : option float;
  taker_imbalance_zscore : option float;
  trade_notional_impulse : option float;
  trade_count_impulse : option float;
  average_trade_notional : option decimal;
  large_trade_share : option float }.

Definition validate_trade_flow (v : TradeFlowFeatureValues) : res TradeFlowFeatureValues :=
  _ ← finite_fields [taker_imbalance v; taker_imbalance_zscore v; trade_notional_impulse v;
                     trade_count_impulse v; large_trade_share v];
  Ok v.

Record OrderBookFeatureValues := {
  weighted_bid_depth : option decimal;
  weighted_ask_depth : option decimal;
  bid_liquidity_change : option decimal;
  ask_liquidity_change : option decimal;
  added_liquidity_quantity : option decimal;
  removed_liquidity_quantity : option decimal;
  liquidity_recovery_quantity_per_second : option float;
  depth_imbalance : option float;
  spread : option decimal;
  relative_spread : option float;
  book_mid_price : option decimal;
  microprice : option decimal;
  buy_slippage_bps : option float;
  sell_slippage_bps : option float;
  book_order_flow_imbalance : option float;
  order_flow_imbalance_zscore : option float }.

Definition validate_order_book (v : OrderBookFeatureValues) : res OrderBookFeatureValues :=
  _ ← finite_fields [depth_imbalance v; relative_spread v; buy_slippage_bps v;
                     sell_slippage_bps v; book_order_flow_imbalance v;
                     order_flow_imbalance_zscore v; liquidity_recovery_quantity_per_second v];
  Ok v.

Record PriceFeatureValues := {
  return_value : option float;
  impulse_zscore : option float;
  realized_volatility : option float;
  atr_1m : option decimal;
  trailing_high : option decimal;
  trailing_low : option decimal;
  recent_move_atr : option float;
  abnormal_jump : option bool }.

Definition validate_price (v : PriceFeatureValues) : res PriceFeatureValues :=
  _ ← finite_fields [return_value v; impulse_zscore v; realized_volatility v; recent_move_atr v];
  Ok v.

Record OpenInterestFeatureValues := {
  oi_value_change : option decimal;
  percentage_change : option float;
  oi_zscore : option float;
  oi_data_age_ms : option float;
  price_oi_state : option PriceOpenInterestState }.

Definition validate_open_interest (v : OpenInterestFeatureValues)
    : res OpenInterestFeatureValues :=
  _ ← finite_fields [percentage_change v; oi_zscore v; oi_data_age_ms v]; Ok v.

Record CrowdingFeatureValues := {
  crowding_funding_rate : option decimal;
  funding_zscore : option float;
  mark_index_premium : option float;
  premium_zscore : option float;
  taker_bias : option float;
  joint_state : option CrowdingState }.

Definition validate_crowding (v : CrowdingFeatureValues) : res CrowdingFeatureValues :=
  _ ← finite_fields [funding_zscore v; mark_index_premium v; premium_zscore v; taker_bias v];
  Ok v.

Record LiquidationFeatureValues := {
  public_sample_long_notional : option decimal;
  public_sample_short_notional : option decimal;
  public_sample_activity_zscore : option float;
  activity_with_oi_decline : option bool }.

Definition validate_liquidation (v : LiquidationFeatureValues) : res LiquidationFeatureValues :=
  _ ← finite_fields [public_sample_activity_zscore v]; Ok v.

(** ** The snapshot of one venue *)

Record FeatureSnapshot := {
  fs_meta : metadata;
  feature_snapshot_id : UUID;
  fs_strategy_version : string;
  fs_calculation_timestamp : Z;
  fs_decision_timestamp : Z;
  fs_window_seconds : Z;
  fs_book_generation : Z;
  source_sequence_id : option seq_id;
  source_event_count : Z;
  oldest_source_timestamp : option Z;
  newest_source_timestamp : option Z;
  fs_data_age_ms : option float;
  fs_is_warm : bool;
  fs_is_healthy : bool;
  fs_unavailable_reasons : list FeatureUnavailableReason;
  fs_trade_flow : option TradeFlowFeatureValues;
  fs_order_book : option OrderBookFeatureValues;
  fs_price : option PriceFeatureValues;
  fs_open_interest : option OpenInterestFeatureValues;
  fs_crowding : option CrowdingFeatureValues;
  fs_liquidation : option LiquidationFeatureValues }.

(** The two snapshot models share these checks, each with its own messages. *)
Definition say (cross : bool) (one_venue pair : string) : exn :=
  ValueError (if cross then pair else one_venue).

(** Source bounds: none without sources, both and an age with them, in order and
    not after the decision ([validate_snapshot_boundaries],
    [validate_cross_venue_boundaries]). *)
Definition validate_source_bounds (cross : bool) (count : Z) (oldest newest : option Z)
    (age : option float) (decision : Z) : res unit :=
  _ ← (if count =? 0 then
         _ ← require (bool_decide (oldest = None) && bool_decide (newest = None))
               (say cross "empty snapshots cannot claim source timestamp bounds"
                  "empty cross-venue snapshots cannot claim source bounds");
         require (bool_decide (age = None))
           (say cross "empty snapshots cannot fabricate a data age"
              "empty cross-venue snapshots cannot fabricate a data age")
       else
         _ ← require (bool_decide (oldest ≠ None) && bool_decide (newest ≠ None))
               (say cross "nonempty snapshots require both source timestamp bounds"
                  "nonempty cross-venue snapshots require source bounds");
         require (bool_decide (age ≠ None))
           (say cross "nonempty snapshots require a data age"
              "nonempty cross-venue snapshots require a data age"));
  match oldest, newest with
  | Some lo, Some hi =>
    _ ← require (lo <=? hi)
          (say cross "source timestamp bounds are reversed"
             "cross-venue source timestamp bounds are reversed");
    require (hi <=? decision)
      (say cross "feature snapshot contains a future source event"
         "cross-venue snapshot contains a future source event")
  | _, _ => Ok tt
  end.

(** No reasons when warm and healthy, some reason otherwise. *)
Definition validate_reasons (cross warm healthy : bool) (rs : list FeatureUnavailableReason)
    : res unit :=
  _ ← require (negb (warm && healthy && negb (bool_decide (rs = []))))
        (say cross "available snapshots cannot have unavailable reasons"
           "available cross-venue snapshots cannot have unavailable reasons");
  require (negb ((negb warm || negb healthy) && bool_decide (rs = [])))
    (say cross "unavailable snapshots require structured reasons"
       "unavailable cross-venue snapshots require structured reasons").

Definition validate_feature_snapshot (s : FeatureSnapshot) : res FeatureSnapshot :=
  _ ← require (0 <? fs_window_seconds s) (ValueError "greater than 0");
  _ ← require ((0 <=? fs_book_generation s) && (0 <=? source_event_count s))
        (ValueError "greater than or equal to 0");
  _ ← at_least_0 [fs_data_age_ms s];
  _ ← finite_fields [fs_data_age_ms s];
  _ ← require (negb (fs_calculation_timestamp s <? fs_decision_timestamp s))
        (ValueError "calculation_timestamp cannot precede decision_timestamp");
  _ ← validate_source_bounds false (source_event_count s) (oldest_source_timestamp s)
        (newest_source_timestamp s) (fs_data_age_ms s) (fs_decision_timestamp s);
  _ ← validate_reasons false (fs_is_warm s) (fs_is_healthy s) (fs_unavailable_reasons s);
  Ok s.

(** ** Values of the pair of venues *)

Record CrossVenueAlignmentResult := {
  align_decision_timestamp : Z;
  binance_snapshot_id : option UUID;
  okx_snapshot_id : option UUID;
  binance_source_timestamp : option Z;
  okx_source_timestamp : option Z;
  binance_data_age_ms : option float;
  okx_data_age_ms : option float;
  data_age_difference_ms : option float;
  snapshot_time_difference_ms : option float;
  align_status : AlignmentStatus;
  quality : float;
  align_unavailable_reasons : list FeatureUnavailableReason }.

(** [source is None or source <= decision]. *)
Definition not_future (decision : Z) (source : option Z) : bool :=
  match source with Some t => t <=? decision | None => true end.

Definition validate_alignment (a : CrossVenueAlignmentResult) : res CrossVenueAlignmentResult :=
  _ ← at_least_0 [binance_data_age_ms a; okx_data_age_ms a; data_age_difference_ms a;
                  snapshot_time_difference_ms a];
  _ ← in_range f0 f1 (Some (quality a));
  _ ← finite_fields [binance_data_age_ms a; okx_data_age_ms a; data_age_difference_ms a;
                     snapshot_time_difference_ms a; Some (quality a)];
  _ ← require (forallb (not_future (align_decision_timestamp a))
                 [binance_source_timestamp a; okx_source_timestamp a])
        (ValueError "alignment contains a future source timestamp");
  Ok a.

Record CrossVenuePriceFeatureValues := {
  binance_mid_price : option decimal;
  okx_mid_price : option decimal;
  mid_price_difference : option decimal;
  mid_price_absolute_spread : option decimal;
  percentage_spread_denominator : option decimal;
  mid_price_percentage_spread : option float;
  mid_price_spread_zscore : option float;
  return_direction_agreement : DirectionAgreement;
  price_impulse_direction_agreement : DirectionAgreement;
  price_impulse_strength_difference : option float;
  realized_volatility_difference : option float;
  relative_spread_divergence : option float }.

Definition validate_cross_price (v : CrossVenuePriceFeatureValues)
    : res CrossVenuePriceFeatureValues :=
  _ ← finite_fields [mid_price_percentage_spread v; mid_price_spread_zscore v;
                     price_impulse_strength_difference v; realized_volatility_difference v;
                     relative_spread_divergence v];
  Ok v.

Record CrossVenueOrderFlowFeatureValues := {
  taker_flow_direction_agreement : DirectionAgreement;
  taker_imbalance_difference : option float;
  taker_imbalance_strength_agreement : StrengthAgreement;
  ofi_direction_agreement : DirectionAgreement;
  ofi_difference : option float;
  depth_imbalance_difference : option float;
  liquidity_addition_difference : option decimal;
  liquidity_removal_difference : option decimal;
  order_book_recovery_speed_difference : option float;
  liquidity_divergence_status : LiquidityDivergenceStatus }.

Definition validate_cross_order_flow (v : CrossVenueOrderFlowFeatureValues)
    : res CrossVenueOrderFlowFeatureValues :=
  _ ← finite_fields [taker_imbalance_difference v; ofi_difference v;
                     depth_imbalance_difference v; order_book_recovery_speed_difference v];
  Ok v.

Record CrossVenuePositioningFeatureValues := {
  price_oi_state_agreement : ContextAgreement;
  binance_oi_change_direction : DirectionState;
  okx_oi_change_direction : DirectionState;
  oi_context_conflict : option bool;
  funding_direction_agreement : DirectionAgreement;
  binance_funding_abnormality : option float;
  okx_funding_abnormality : option float;
  funding_abnormality_difference : option float;
  mark_index_premium_difference : option float;
  crowding_direction_agreement : CrowdingAgreement;
  one_sided_crowding_unconfirmed : option bool;
  liquidation_activity_agreement : ActivityAgreement }.

Definition validate_cross_positioning (v : CrossVenuePositioningFeatureValues)
    : res CrossVenuePositioningFeatureValues :=
  _ ← finite_fields [binance_funding_abnormality v; okx_funding_abnormality v;
                     funding_abnormality_difference v; mark_index_premium_difference v];
  Ok v.

Record CrossVenueConfirmationFeatureValues := {
  conf_price_direction_agreement : DirectionAgreement;
  conf_price_impulse_agreement : DirectionAgreement;
  conf_taker_flow_agreement : DirectionAgreement;
  conf_ofi_agreement : DirectionAgreement;
  conf_oi_context_conflict : option bool;
  conf_crowding_agreement : CrowdingAgreement;
  conf_liquidation_activity_agreement : ActivityAgreement;
  cross_venue_confirmation : option float;
  divergence_penalty_input : option float;
  conf_alignment_quality : float }.

Definition validate_confirmation (v : CrossVenueConfirmationFeatureValues)
    : res CrossVenueConfirmationFeatureValues :=
  _ ← in_range (fneg f1) f1 (cross_venue_confirmation v);
  _ ← in_range f0 f1 (divergence_penalty_input v);
  _ ← in_range f0 f1 (Some (conf_alignment_quality v));
  _ ← finite_fields [cross_venue_confirmation v; divergence_penalty_input v;
                     Some (conf_alignment_quality v)];
  Ok v.

Record LeadLagResearchFeatureValues := {
  price_impulse_status : LeadLagStatus;
  taker_flow_status : LeadLagStatus;
  ofi_status : LeadLagStatus;
  lead_lag_alignment_quality : float;
  lead_lag_unavailable_reasons : list FeatureUnavailableReason }.

Definition validate_lead_lag (v : LeadLagResearchFeatureValues)
    : res LeadLagResearchFeatureValues :=
  _ ← in_range f0 f1 (Some (lead_lag_alignment_quality v));
  _ ← finite_fields [Some (lead_lag_alignment_quality v)];
  Ok v.

(** ** The snapshot of the pair *)

Record CrossVenueFeatureSnapshot := {
  cvs_meta : metadata;
  cvs_feature_snapshot_id : UUID;
  cvs_strategy_version : string;
  cvs_code_version : string;
  cvs_config_hash : string;
  cvs_calculation_timestamp : Z;
  cvs_decision_timestamp : Z;
  cvs_window_seconds : Z;
  binance_book_generation : option Z;
  okx_book_generation : option Z;
  source_snapshot_ids : list UUID;
  spread_history_pair_count : Z;
  spread_history_sha256 : option string;
  cvs_source_event_count : Z;
  cvs_oldest_source_timestamp : option Z;
  cvs_newest_source_timestamp : option Z;
  cvs_data_age_ms : option float;
  cvs_is_warm : bool;
  cvs_is_healthy : bool;
  alignment : CrossVenueAlignmentResult;
  cvs_unavailable_reasons : list FeatureUnavailableReason;
  cvs_price : option CrossVenuePriceFeatureValues;
  cvs_order_flow : option CrossVenueOrderFlowFeatureValues;
  cvs_positioning : option CrossVenuePositioningFeatureValues;
  cvs_confirmation : option CrossVenueConfirmationFeatureValues;
  lead_lag : LeadLagResearchFeatureValues }.

Definition opt_ge_0 (n : option Z) : bool := match n with Some n => 0 <=? n | None => true end.
Definition opt_pattern (s : option string) : bool :=
  match s with Some s => sha256_pattern s | None => true end.

(** [(a, b)] without the absent ones. *)
Definition present {A} (l : list (option A)) : list A := omap id l.

(** The history fingerprint goes with the price features. *)
Definition validate_spread_history (s : CrossVenueFeatureSnapshot) : res unit :=
  _ ← require (negb (bool_decide (spread_history_sha256 s = None) &&
                     negb (spread_history_pair_count s =? 0)))
        (ValueError "spread history count requires a deterministic history fingerprint");
  match cvs_price s with
  | None =>
    require ((spread_history_pair_count s =? 0) && bool_decide (spread_history_sha256 s = None))
      (ValueError "snapshots without price features cannot claim spread history")
  | Some p =>
    require (negb (bool_decide (mid_price_percentage_spread p ≠ None) &&
                   bool_decide (spread_history_sha256 s = None)))
      (ValueError "evaluated spread z-score requires a deterministic history fingerprint")
  end.

Definition no_groups (s : CrossVenueFeatureSnapshot) : bool :=
  is_none (cvs_price s) && is_none (cvs_order_flow s) && is_none (cvs_positioning s) &&
  is_none (cvs_confirmation s).

Definition validate_cross_snapshot (s : CrossVenueFeatureSnapshot)
    : res CrossVenueFeatureSnapshot :=
  _ ← require (sha256_pattern (cvs_config_hash s) && opt_pattern (spread_history_sha256 s))
        (ValueError "pattern");
  _ ← require (0 <? cvs_window_seconds s) (ValueError "greater than 0");
  _ ← require (opt_ge_0 (binance_book_generation s) && opt_ge_0 (okx_book_generation s) &&
               (0 <=? spread_history_pair_count s) && (0 <=? cvs_source_event_count s))
        (ValueError "greater than or equal to 0");
  _ ← at_least_0 [cvs_data_age_ms s];
  _ ← finite_fields [cvs_data_age_ms s];
  _ ← require (negb (cvs_calculation_timestamp s <? cvs_decision_timestamp s))
        (ValueError "calculation_timestamp cannot precede decision_timestamp");
  _ ← require ((length (source_snapshot_ids s) <=? 2)%nat &&
               bool_decide (NoDup (source_snapshot_ids s)))
        (ValueError "cross-venue source snapshot IDs must be unique and bounded");
  _ ← require (bool_decide (source_snapshot_ids s =
                 present [binance_snapshot_id (alignment s); okx_snapshot_id (alignment s)]))
        (ValueError "source_snapshot_ids must match the alignment result");
  _ ← validate_spread_history s;
  _ ← validate_source_bounds true (cvs_source_event_count s) (cvs_oldest_source_timestamp s)
        (cvs_newest_source_timestamp s) (cvs_data_age_ms s) (cvs_decision_timestamp s);
  _ ← require (align_decision_timestamp (alignment s) =? cvs_decision_timestamp s)
        (ValueError "alignment and snapshot decision timestamps must match");
  _ ← require (negb (bool_decide (align_status (alignment s) = AlignmentStatus_UNAVAILABLE) &&
                     negb (no_groups s)))
        (ValueError "unavailable alignments cannot expose paired feature groups");
  _ ← require (negb (cvs_is_healthy s &&
                     bool_decide (align_status (alignment s) ≠ AlignmentStatus_ALIGNED)))
        (ValueError "only aligned snapshots can be healthy");
  _ ← validate_reasons true (cvs_is_warm s) (cvs_is_healthy s) (cvs_unavailable_reasons s);
  Ok s.
