(* ===== verification/CrossVenue.v ===== *)
(** * The cross-venue feature engine

    [features/cross_venue.py]: the snapshots of the two venues selected as of a
    decision, aligned, compared and joined.  The identity hashes
    ([_feature_id] and the history fingerprint, UUID5 and SHA-256 over canonical
    JSON) are parameters; a list a function appends reasons to is the list of the
    reasons it appends.  [CrossAlign], [CrossSelect] and [CrossResult] hold the theorems. *)

From S2P Require Import Prelude PyDecimal PyFloat PyTime Models Lineage Availability FeatureModels.
From stdpp Require Import pretty.
Open Scope Z_scope.

(** ** Directions and agreements *)

(** The argument is [float(value)]. *)
Definition direction (value : option float) (epsilon : float) : DirectionState :=
  match value with
  | None => DirectionState_UNAVAILABLE
  | Some numeric =>
    if fltb epsilon numeric then DirectionState_POSITIVE
    else if fltb numeric (fneg epsilon) then DirectionState_NEGATIVE
    else DirectionState_FLAT
  end.

Definition direction_agreement (left right : option float) (epsilon : float)
    : DirectionAgreement :=
  match direction left epsilon, direction right epsilon with
  | DirectionState_UNAVAILABLE, _ | _, DirectionState_UNAVAILABLE =>
    DirectionAgreement_UNAVAILABLE
  | DirectionState_POSITIVE, DirectionState_POSITIVE => DirectionAgreement_BOTH_POSITIVE
  | DirectionState_NEGATIVE, DirectionState_NEGATIVE => DirectionAgreement_BOTH_NEGATIVE
  | DirectionState_FLAT, DirectionState_FLAT => DirectionAgreement_BOTH_FLAT
  | _, _ => DirectionAgreement_DIVERGENT
  end.

Definition difference (left right : option float) : option float :=
  match left, right with Some l, Some r => Some (fsub l r) | _, _ => None end.
Definition decimal_difference (left right : option decimal) : option decimal :=
  match left, right with Some l, Some r => Some (dsub l r) | _, _ => None end.

Definition fm1 : float := fneg f1.

Definition agreement_value (value : DirectionAgreement) : option float :=
  match value with
  | DirectionAgreement_UNAVAILABLE => None
  | DirectionAgreement_DIVERGENT => Some fm1
  | DirectionAgreement_BOTH_FLAT => Some f0
  | _ => Some f1
  end.
Definition context_value (value : ContextAgreement) : option float :=
  match value with
  | ContextAgreement_UNAVAILABLE => None
  | ContextAgreement_MATCHED => Some f1
  | ContextAgreement_CONFLICT => Some fm1
  end.
Definition crowding_value (value : CrowdingAgreement) : option float :=
  match value with
  | CrowdingAgreement_UNAVAILABLE => None
  | CrowdingAgreement_DIVERGENT => Some fm1
  | CrowdingAgreement_ONE_SIDED => Some f0
  | _ => Some f1
  end.
Definition activity_value (value : ActivityAgreement) : option float :=
  match value with
  | ActivityAgreement_UNAVAILABLE => None
  | ActivityAgreement_DIVERGENT => Some fm1
  | ActivityAgreement_ONE_SIDED => Some f0
  | _ => Some f1
  end.

(** ** Settings *)

Record CrossVenueSettings := {
  cvc_strategy_version : string;
  cvc_code_version : string;
  canonical_symbols : list string;
  feature_windows_seconds : list Z;
  zscore_lookback_seconds : Z;
  abnormal_jump_zscore : float;
  cross_venue_max_snapshot_age_ms : Z;
  cross_venue_max_time_difference_ms : Z;
  cross_venue_zscore_minimum_samples : Z;
  cross_venue_direction_epsilon : float;
  cross_venue_strength_tolerance : float }.

(** The bounds of [config.py]; limits of less than [2^53] are exact floats. *)
Record cross_settings_valid (c : CrossVenueSettings) : Prop := {
  csv_windows : Forall (λ w, 0 < w) (feature_windows_seconds c);
  csv_age : 0 < cross_venue_max_snapshot_age_ms c < 2 ^ 53;
  csv_difference : 0 < cross_venue_max_time_difference_ms c < 2 ^ 53;
  csv_samples : 2 ≤ cross_venue_zscore_minimum_samples c }.

(** ** Candidates and selection *)

Definition fs_symbol (s : FeatureSnapshot) : string := symbol (fs_meta s).
Definition fs_exchange (s : FeatureSnapshot) : Exchange := exchange (fs_meta s).

(** [a < b] on [hex] texts and on the tuples of the sort keys. *)
Definition hex_ltb (a b : UUID) : bool := negb (String.leb b a).

Definition candidate_ltb (a b : FeatureSnapshot) : bool :=
  let ta := fs_decision_timestamp a in let tb := fs_decision_timestamp b in
  if negb (ta =? tb) then ta <? tb
  else
    let ea := exchange_value (fs_exchange a) in let eb := exchange_value (fs_exchange b) in
    if negb (bool_decide (ea = eb)) then negb (String.leb eb ea)
    else hex_ltb (feature_snapshot_id a) (feature_snapshot_id b).

Definition newer_ltb (a b : FeatureSnapshot) : bool :=
  let ta := fs_decision_timestamp a in let tb := fs_decision_timestamp b in
  if negb (ta =? tb) then ta <? tb else hex_ltb (feature_snapshot_id a) (feature_snapshot_id b).

Definition concrete_venue (e : Exchange) : bool := bool_decide (e = BINANCE) || bool_decide (e = OKX).

Definition relevant (sym : string) (window_seconds : Z) (s : FeatureSnapshot) : bool :=
  bool_decide (fs_symbol s = sym) && (fs_window_seconds s =? window_seconds) &&
  concrete_venue (fs_exchange s).

(** The generator, sorted; Python's sort asks only for [<]. *)
Definition candidates_of (snapshots : list FeatureSnapshot) (sym : string) (window_seconds : Z)
    : list FeatureSnapshot :=
  py_sorted (λ a b, negb (candidate_ltb b a)) (List.filter (relevant sym window_seconds) snapshots).

(** [max(l, key=...)]: the first of the largest. *)
Definition py_max {A} (ltb : A → A → bool) (l : list A) : option A :=
  match l with
  | [] => None
  | x :: l => Some (foldl (λ best y, if ltb best y then y else best) x l)
  end.

Definition exchange_label (e : Exchange) : string :=
  match e with
  | BINANCE => "binance" | OKX => "okx"
  | CROSS_VENUE => "cross_venue" | SIMULATED => "simulated"
  end.

Definition alignment_reason (code : FeatureUnavailableCode) (detail : string)
    : FeatureUnavailableReason := reason code detail (Some "alignment"%string).

Definition future_reason (e : Exchange) : FeatureUnavailableReason :=
  alignment_reason
    (if bool_decide (e = BINANCE) then FUTURE_BINANCE_SNAPSHOT else FUTURE_OKX_SNAPSHOT)
    ("only future " +:+ exchange_label e +:+ " snapshots exist at the decision boundary").
Definition missing_reason (e : Exchange) : FeatureUnavailableReason :=
  alignment_reason
    (if bool_decide (e = BINANCE) then MISSING_BINANCE_SNAPSHOT else MISSING_OKX_SNAPSHOT)
    ("no " +:+ exchange_label e +:+ " snapshot exists for symbol/window").

Definition of_venue (e : Exchange) (s : FeatureSnapshot) : bool := bool_decide (fs_exchange s = e).
Definition at_or_before (decision : Z) (s : FeatureSnapshot) : bool :=
  fs_decision_timestamp s <=? decision.

Definition select_snapshot (snapshots : list FeatureSnapshot) (e : Exchange) (decision : Z)
    : option FeatureSnapshot * option FeatureUnavailableReason :=
  let venue := List.filter (of_venue e) snapshots in
  match py_max newer_ltb (List.filter (at_or_before decision) venue) with
  | Some s => (Some s, None)
  | None =>
    match venue with
    | _ :: _ => (None, Some (future_reason e))
    | [] => (None, Some (missing_reason e))
    end
  end.

(** ** Alignment *)

Definition source_age_ms (decision : Z) (source : option Z) : option float :=
  (λ t, fmax f0 (total_ms (decision - t))) <$> source.
Definition both {A B} (f : A → A → B) (x y : option A) : option B :=
  match x, y with Some x, Some y => Some (f x y) | _, _ => None end.

(** [age is not None and age > limit]. *)
Definition exceeds (age : option float) (limit : Z) : bool :=
  match age with Some a => fgt_int a limit | None => false end.

Definition add_if (b : bool) (r : FeatureUnavailableReason) : list FeatureUnavailableReason :=
  if b then [r] else [].

Section engine.
Context (c : CrossVenueSettings).

Definition alignment_quality (binance_age okx_age time_difference : option float) : res float :=
  match binance_age, okx_age, time_difference with
  | Some b, Some o, Some d =>
    rb ← fdiv b (float_of_int (cross_venue_max_snapshot_age_ms c));
    ro ← fdiv o (float_of_int (cross_venue_max_snapshot_age_ms c));
    rd ← fdiv d (float_of_int (cross_venue_max_time_difference_ms c));
    fdiv f1 (fadd f1 (fmax (fmax rb ro) rd))
  | _, _, _ => Ok f0
  end.

(** The status of two selected snapshots, and the reasons in the order appended. *)
Definition pair_status (binance okx : FeatureSnapshot) (binance_age okx_age time_difference : option float)
    : AlignmentStatus * list FeatureUnavailableReason :=
  let binance_source := newest_source_timestamp binance in
  let okx_source := newest_source_timestamp okx in
  let binance_stale := exceeds binance_age (cross_venue_max_snapshot_age_ms c) in
  let okx_stale := exceeds okx_age (cross_venue_max_snapshot_age_ms c) in
  let bad_time_alignment := exceeds time_difference (cross_venue_max_time_difference_ms c) in
  let rs :=
    add_if (is_none binance_source)
      (alignment_reason FEATURE_INPUT_MISSING "Binance snapshot has no source timestamp") ++
    add_if (is_none okx_source)
      (alignment_reason FEATURE_INPUT_MISSING "OKX snapshot has no source timestamp") ++
    add_if binance_stale
      (alignment_reason STALE_BINANCE_SNAPSHOT
         "Binance source age exceeds the configured threshold") ++
    add_if okx_stale
      (alignment_reason STALE_OKX_SNAPSHOT "OKX source age exceeds the configured threshold") ++
    add_if (negb (fs_is_warm binance))
      (alignment_reason BINANCE_NOT_WARM "Binance feature snapshot is not warm") ++
    add_if (negb (fs_is_warm okx))
      (alignment_reason OKX_NOT_WARM "OKX feature snapshot is not warm") ++
    add_if (negb (fs_is_healthy binance))
      (alignment_reason BINANCE_UNHEALTHY "Binance feature snapshot is unhealthy") ++
    add_if (negb (fs_is_healthy okx))
      (alignment_reason OKX_UNHEALTHY "OKX feature snapshot is unhealthy") ++
    add_if bad_time_alignment
      (alignment_reason TIME_ALIGNMENT
         "venue source timestamps exceed the configured separation") in
  let status :=
    if binance_stale && okx_stale then AlignmentStatus_UNAVAILABLE
    else if binance_stale then AlignmentStatus_STALE_BINANCE
    else if okx_stale then AlignmentStatus_STALE_OKX
    else if is_none binance_source || is_none okx_source || bad_time_alignment ||
            negb (fs_is_warm binance) || negb (fs_is_warm okx) ||
            negb (fs_is_healthy binance) || negb (fs_is_healthy okx)
    then AlignmentStatus_DEGRADED
    else AlignmentStatus_ALIGNED in
  (status, rs).

Definition align (binance okx : option FeatureSnapshot) (decision : Z)
    (selection_reasons : list (option FeatureUnavailableReason)) : res CrossVenueAlignmentResult :=
  let binance_source := binance ≫= newest_source_timestamp in
  let okx_source := okx ≫= newest_source_timestamp in
  let binance_age := source_age_ms decision binance_source in
  let okx_age := source_age_ms decision okx_source in
  let time_difference := both (λ x y, fabs (total_ms (x - y))) binance_source okx_source in
  let data_age_difference := both (λ x y, fabs (fsub x y)) binance_age okx_age in
  let '(status, rs) :=
    match binance, okx with
    | Some b, Some o => pair_status b o binance_age okx_age time_difference
    | _, _ => (AlignmentStatus_UNAVAILABLE, [])
    end in
  q ← alignment_quality binance_age okx_age time_difference;
  validate_alignment
    {| align_decision_timestamp := decision;
       binance_snapshot_id := feature_snapshot_id <$> binance;
       okx_snapshot_id := feature_snapshot_id <$> okx;
       binance_source_timestamp := binance_source;
       okx_source_timestamp := okx_source;
       binance_data_age_ms := binance_age;
       okx_data_age_ms := okx_age;
       data_age_difference_ms := data_age_difference;
       snapshot_time_difference_ms := time_difference;
       align_status := status;
       quality := q;
       align_unavailable_reasons := unique (present selection_reasons ++ rs) |}.

(** ** The percentage spread and its z-score *)

Definition percentage_spread (binance_mid okx_mid : option decimal)
    : res (option float * list FeatureUnavailableReason) :=
  match binance_mid, okx_mid with
  | Some b, Some o =>
    let denominator := dhalf (dadd (dabs b) (dabs o)) in
    if deqb denominator d0 then
      Ok (None, [reason ZERO_DENOMINATOR "symmetric mid-price denominator is zero"
                   (Some "price.mid_price_percentage_spread"%string)])
    else
      r ← ddiv (dsub b o) denominator;
      Ok (Some (float_of_decimal r), [])
  | _, _ => Ok (None, [])
  end.

Definition mid_price_of (s : FeatureSnapshot) : option decimal :=
  fs_order_book s ≫= book_mid_price.

(** The snapshots at one decision, by venue. *)
Definition venue_map : Type := list (Exchange * FeatureSnapshot).
Definition paired_map : Type := list (Z * venue_map).

Definition keep_largest (m : venue_map) (s : FeatureSnapshot) : venue_map :=
  match dict_get (fs_exchange s) m with
  | Some existing =>
    if hex_ltb (feature_snapshot_id existing) (feature_snapshot_id s)
    then dict_set (fs_exchange s) s m else m
  | None => dict_set (fs_exchange s) s m
  end.

(** One round of the loop over the snapshots. *)
Definition pair_up (sym : string) (window_seconds boundary decision : Z) (paired : paired_map)
    (s : FeatureSnapshot) : paired_map :=
  let t := fs_decision_timestamp s in
  if bool_decide (fs_symbol s ≠ sym) || negb (fs_window_seconds s =? window_seconds) ||
     negb ((boundary <? t) && (t <? decision))
  then paired
  else dict_set t (keep_largest (default [] (dict_get t paired)) s) paired.

Record HistoryItem := {
  hi_decision_timestamp : Z;
  hi_binance_snapshot_id : UUID;
  hi_okx_snapshot_id : UUID;
  hi_binance_mid_price : option decimal;
  hi_okx_mid_price : option decimal;
  hi_percentage_spread : float }.

(** One round of the loop over the paired timestamps. *)
Definition history_item (t : Z) (m : venue_map) : res (option HistoryItem) :=
  match dict_get BINANCE m, dict_get OKX m with
  | Some b, Some o =>
    r ← percentage_spread (mid_price_of b) (mid_price_of o);
    match r.1 with
    | Some spread =>
      Ok (Some {| hi_decision_timestamp := t;
                  hi_binance_snapshot_id := feature_snapshot_id b;
                  hi_okx_snapshot_id := feature_snapshot_id o;
                  hi_binance_mid_price := mid_price_of b;
                  hi_okx_mid_price := mid_price_of o;
                  hi_percentage_spread := spread |})
    | None => Ok None
    end
  | _, _ => Ok None
  end.

Definition spread_history (snapshots : list FeatureSnapshot) (sym : string)
    (decision window_seconds : Z) : res (list HistoryItem) :=
  let boundary := decision - seconds (zscore_lookback_seconds c) in
  let paired := foldl (pair_up sym window_seconds boundary decision) [] snapshots in
  items ← mapR (λ t, history_item t (default [] (dict_get t paired)))
            (py_sorted Z.leb (map fst paired));
  Ok (present items).

Section hashes.
(** [sha256_text(canonical_json(canonicalize_for_hash(history_identity)))]. *)
Context (history_sha256 : list HistoryItem → string).

Definition spread_zscore (snapshots : list FeatureSnapshot) (sym : string)
    (decision window_seconds : Z) (value : option float) : res (option float * Z * option string) :=
  match value with
  | None => Ok (None, 0, None)
  | Some value =>
    items ← spread_history snapshots sym decision window_seconds;
    let history := map hi_percentage_spread items in
    let n := Z.of_nat (length history) in
    let sha := history_sha256 items in
    if n <? cross_venue_zscore_minimum_samples c then Ok (None, n, Some sha)
    else
      let deviation := pstdev history in
      if feqb deviation f0 then Ok (None, n, Some sha)
      else
        mean ← fmean history;
        z ← fdiv (fsub value mean) deviation;
        Ok (Some z, n, Some sha)
  end.

(** ** The feature groups *)

(** [" and ".join(missing)]. *)
Definition missing_names (left_missing right_missing : bool) : string :=
  if left_missing then (if right_missing then "Binance and OKX" else "Binance") else "OKX".

Definition note_missing_pair {A B} (label : string) (left : option A) (right : option B)
    (channel : string) : list FeatureUnavailableReason :=
  if negb (is_none left) && negb (is_none right) then []
  else [reason FEATURE_INPUT_MISSING
          (missing_names (is_none left) (is_none right) +:+ " missing " +:+ label) (Some channel)].

Definition eps : float := cross_venue_direction_epsilon c.

Definition price_features (snapshots : list FeatureSnapshot) (binance okx : FeatureSnapshot)
    (decision window_seconds : Z)
    : res (CrossVenuePriceFeatureValues * Z * option string * list FeatureUnavailableReason) :=
  let binance_mid := mid_price_of binance in
  let okx_mid := mid_price_of okx in
  let midpoint_difference := decimal_difference binance_mid okx_mid in
  spread ← percentage_spread binance_mid okx_mid;
  zscore ← spread_zscore snapshots (fs_symbol binance) decision window_seconds spread.1;
  let binance_return := fs_price binance ≫= return_value in
  let okx_return := fs_price okx ≫= return_value in
  let binance_impulse := fs_price binance ≫= impulse_zscore in
  let okx_impulse := fs_price okx ≫= impulse_zscore in
  let rs := spread.2 ++
    note_missing_pair "price mid prices" binance_mid okx_mid "price" ++
    note_missing_pair "venue returns" binance_return okx_return "price.return_direction_agreement" in
  v ← validate_cross_price
    {| binance_mid_price := binance_mid;
       okx_mid_price := okx_mid;
       mid_price_difference := midpoint_difference;
       mid_price_absolute_spread := dabs <$> midpoint_difference;
       percentage_spread_denominator :=
         both (λ b o, dhalf (dadd (dabs b) (dabs o))) binance_mid okx_mid;
       mid_price_percentage_spread := spread.1;
       mid_price_spread_zscore := zscore.1.1;
       return_direction_agreement := direction_agreement binance_return okx_return eps;
       price_impulse_direction_agreement := direction_agreement binance_impulse okx_impulse eps;
       price_impulse_strength_difference := difference binance_impulse okx_impulse;
       realized_volatility_difference :=
         difference (fs_price binance ≫= realized_volatility) (fs_price okx ≫= realized_volatility);
       relative_spread_divergence :=
         difference (fs_order_book binance ≫= relative_spread)
           (fs_order_book okx ≫= relative_spread) |};
  Ok (v, zscore.1.2, zscore.2, rs).

Definition liquidity_status (binance_add binance_remove okx_add okx_remove : option decimal)
    : LiquidityDivergenceStatus :=
  match binance_add, binance_remove, okx_add, okx_remove with
  | Some ba, Some br, Some oa, Some orem =>
    match direction (Some (float_of_decimal (dsub ba br))) eps,
          direction (Some (float_of_decimal (dsub oa orem))) eps with
    | DirectionState_POSITIVE, DirectionState_POSITIVE =>
      LiquidityDivergenceStatus_CONFIRMED_ADDITION
    | DirectionState_NEGATIVE, DirectionState_NEGATIVE =>
      LiquidityDivergenceStatus_CONFIRMED_REMOVAL
    | DirectionState_FLAT, DirectionState_FLAT => LiquidityDivergenceStatus_NEUTRAL
    | _, _ => LiquidityDivergenceStatus_DIVERGENT
    end
  | _, _, _, _ => LiquidityDivergenceStatus_UNAVAILABLE
  end.

Definition strength_agreement (binance_taker okx_taker : option float) : StrengthAgreement :=
  match binance_taker, okx_taker with
  | Some b, Some o =>
    if fleb (fabs (fsub (fabs b) (fabs o))) (cross_venue_strength_tolerance c)
    then StrengthAgreement_CONSISTENT else StrengthAgreement_DIVERGENT
  | _, _ => StrengthAgreement_UNAVAILABLE
  end.

Definition order_flow_features (binance okx : FeatureSnapshot)
    : res (CrossVenueOrderFlowFeatureValues * list FeatureUnavailableReason) :=
  let binance_taker := fs_trade_flow binance ≫= taker_imbalance in
  let okx_taker := fs_trade_flow okx ≫= taker_imbalance in
  let binance_ofi := fs_order_book binance ≫= book_order_flow_imbalance in
  let okx_ofi := fs_order_book okx ≫= book_order_flow_imbalance in
  let binance_add := fs_order_book binance ≫= added_liquidity_quantity in
  let okx_add := fs_order_book okx ≫= added_liquidity_quantity in
  let binance_remove := fs_order_book binance ≫= removed_liquidity_quantity in
  let okx_remove := fs_order_book okx ≫= removed_liquidity_quantity in
  let rs :=
    note_missing_pair "taker imbalances" binance_taker okx_taker "order_flow.taker" ++
    note_missing_pair "order-flow imbalances" binance_ofi okx_ofi "order_flow.ofi" in
  v ← validate_cross_order_flow
    {| taker_flow_direction_agreement := direction_agreement binance_taker okx_taker eps;
       taker_imbalance_difference := difference binance_taker okx_taker;
       taker_imbalance_strength_agreement := strength_agreement binance_taker okx_taker;
       ofi_direction_agreement := direction_agreement binance_ofi okx_ofi eps;
       ofi_difference := difference binance_ofi okx_ofi;
       depth_imbalance_difference :=
         difference (fs_order_book binance ≫= depth_imbalance)
           (fs_order_book okx ≫= depth_imbalance);
       liquidity_addition_difference := decimal_difference binance_add okx_add;
       liquidity_removal_difference := decimal_difference binance_remove okx_remove;
       order_book_recovery_speed_difference :=
         difference (fs_order_book binance ≫= liquidity_recovery_quantity_per_second)
           (fs_order_book okx ≫= liquidity_recovery_quantity_per_second);
       liquidity_divergence_status :=
         liquidity_status binance_add binance_remove okx_add okx_remove |};
  Ok (v, rs).

Definition crowding_agreement (binance okx : option CrowdingState) : CrowdingAgreement :=
  match binance, okx with
  | Some b, Some o =>
    if bool_decide (b = o) then
      match b with
      | CROWDED_LONG => CrowdingAgreement_BOTH_LONG
      | CROWDED_SHORT => CrowdingAgreement_BOTH_SHORT
      | CrowdingState_MIXED => CrowdingAgreement_BOTH_MIXED
      end
    else if bool_decide (CrowdingState_MIXED ∈ [b; o]) then CrowdingAgreement_ONE_SIDED
    else CrowdingAgreement_DIVERGENT
  | _, _ => CrowdingAgreement_UNAVAILABLE
  end.

Definition liquidation_agreement (binance okx : FeatureSnapshot) : ActivityAgreement :=
  let binance_zscore := fs_liquidation binance ≫= public_sample_activity_zscore in
  let okx_zscore := fs_liquidation okx ≫= public_sample_activity_zscore in
  match binance_zscore, okx_zscore with
  | Some b, Some o =>
    let threshold := abnormal_jump_zscore c in
    let binance_elevated := fleb threshold b in
    let okx_elevated := fleb threshold o in
    if binance_elevated && okx_elevated then ActivityAgreement_BOTH_ELEVATED
    else if (fleb threshold b && fleb o (fneg threshold)) ||
            (fleb threshold o && fleb b (fneg threshold)) then ActivityAgreement_DIVERGENT
    else if binance_elevated || okx_elevated then ActivityAgreement_ONE_SIDED
    else ActivityAgreement_BOTH_NORMAL
  | _, _ => ActivityAgreement_UNAVAILABLE
  end.

Definition oi_context (binance okx : option PriceOpenInterestState) : ContextAgreement :=
  match binance, okx with
  | Some b, Some o =>
    if bool_decide (b = o) then ContextAgreement_MATCHED else ContextAgreement_CONFLICT
  | _, _ => ContextAgreement_UNAVAILABLE
  end.

Definition positioning_features (binance okx : FeatureSnapshot)
    : res (CrossVenuePositioningFeatureValues * list FeatureUnavailableReason) :=
  let binance_oi_change := fs_open_interest binance ≫= percentage_change in
  let okx_oi_change := fs_open_interest okx ≫= percentage_change in
  let price_oi_agreement :=
    oi_context (fs_open_interest binance ≫= price_oi_state) (fs_open_interest okx ≫= price_oi_state) in
  let binance_funding := fs_crowding binance ≫= crowding_funding_rate in
  let okx_funding := fs_crowding okx ≫= crowding_funding_rate in
  let binance_abnormality := fabs <$> (fs_crowding binance ≫= funding_zscore) in
  let okx_abnormality := fabs <$> (fs_crowding okx ≫= funding_zscore) in
  let crowding :=
    crowding_agreement (fs_crowding binance ≫= joint_state) (fs_crowding okx ≫= joint_state) in
  let rs :=
    note_missing_pair "percentage open-interest changes" binance_oi_change okx_oi_change
      "positioning.open_interest" ++
    note_missing_pair "funding rates" binance_funding okx_funding "positioning.funding" in
  v ← validate_cross_positioning
    {| price_oi_state_agreement := price_oi_agreement;
       binance_oi_change_direction := direction binance_oi_change eps;
       okx_oi_change_direction := direction okx_oi_change eps;
       oi_context_conflict :=
         (if bool_decide (price_oi_agreement = ContextAgreement_UNAVAILABLE) then None
          else Some (bool_decide (price_oi_agreement = ContextAgreement_CONFLICT)));
       funding_direction_agreement :=
         direction_agreement (float_of_decimal <$> binance_funding)
           (float_of_decimal <$> okx_funding) eps;
       binance_funding_abnormality := binance_abnormality;
       okx_funding_abnormality := okx_abnormality;
       funding_abnormality_difference := difference binance_abnormality okx_abnormality;
       mark_index_premium_difference :=
         difference (fs_crowding binance ≫= mark_index_premium)
           (fs_crowding okx ≫= mark_index_premium);
       crowding_direction_agreement := crowding;
       one_sided_crowding_unconfirmed :=
         (if bool_decide (crowding = CrowdingAgreement_UNAVAILABLE) then None
          else Some (bool_decide (crowding = CrowdingAgreement_ONE_SIDED)));
       liquidation_activity_agreement := liquidation_agreement binance okx |};
  Ok (v, rs).

(** The evidence of the seven comparisons that could be made. *)
Definition confirmation_values (price : CrossVenuePriceFeatureValues)
    (order_flow : CrossVenueOrderFlowFeatureValues)
    (positioning : CrossVenuePositioningFeatureValues) : list float :=
  present
    [agreement_value (return_direction_agreement price);
     agreement_value (price_impulse_direction_agreement price);
     agreement_value (taker_flow_direction_agreement order_flow);
     agreement_value (ofi_direction_agreement order_flow);
     context_value (price_oi_state_agreement positioning);
     crowding_value (crowding_direction_agreement positioning);
     activity_value (liquidation_activity_agreement positioning)].

Definition confirmation_features (price : CrossVenuePriceFeatureValues)
    (order_flow : CrossVenueOrderFlowFeatureValues)
    (positioning : CrossVenuePositioningFeatureValues) (alignment_quality : float)
    : res CrossVenueConfirmationFeatureValues :=
  let values := confirmation_values price order_flow positioning in
  confirmation ← match values with [] => Ok None | _ => Some <$> fmean values end;
  let divergence_penalty :=
    match values with
    | [] => None
    | _ => Some (float_of_ratio (Z.of_nat (length (List.filter (λ v, fltb v f0) values)))
                   (Z.of_nat (length values)))
    end in
  validate_confirmation
    {| conf_price_direction_agreement := return_direction_agreement price;
       conf_price_impulse_agreement := price_impulse_direction_agreement price;
       conf_taker_flow_agreement := taker_flow_direction_agreement order_flow;
       conf_ofi_agreement := ofi_direction_agreement order_flow;
       conf_oi_context_conflict := oi_context_conflict positioning;
       conf_crowding_agreement := crowding_direction_agreement positioning;
       conf_liquidation_activity_agreement := liquidation_activity_agreement positioning;
       cross_venue_confirmation := confirmation;
       divergence_penalty_input := divergence_penalty;
       conf_alignment_quality := alignment_quality |}.

(** ** [calculate] *)

Record CrossIdentity := {
  ci_symbol : string;
  ci_strategy_version : string;
  ci_code_version : string;
  ci_config_hash : string;
  ci_decision_timestamp : Z;
  ci_window_seconds : Z;
  ci_binance_book_generation : option Z;
  ci_okx_book_generation : option Z;
  ci_source_snapshot_ids : list UUID;
  ci_source_event_count : Z;
  ci_oldest_source_timestamp : option Z;
  ci_newest_source_timestamp : option Z;
  ci_data_age_ms : option float;
  ci_alignment : CrossVenueAlignmentResult;
  ci_lead_lag : LeadLagResearchFeatureValues;
  (** [None] where the key is absent. *)
  ci_spread_history : option (Z * option string);
  ci_is_warm : bool;
  ci_is_healthy : bool;
  ci_unavailable_reasons : list FeatureUnavailableReason;
  ci_price : option CrossVenuePriceFeatureValues;
  ci_order_flow : option CrossVenueOrderFlowFeatureValues;
  ci_positioning : option CrossVenuePositioningFeatureValues;
  ci_confirmation : option CrossVenueConfirmationFeatureValues }.

(** [_feature_id]: [uuid5] of the SHA-256 of the canonical JSON. *)
Context (feature_id : CrossIdentity → UUID).
(** [settings_fingerprint(settings)]. *)
Context (config_hash : string).

Definition lead_lag_reason : FeatureUnavailableReason :=
  reason LEAD_LAG_INSUFFICIENT
    ("lead/lag requires independently validated event-time history; " +:+
     "local arrival order is never used") (Some "lead_lag"%string).

Definition insufficient_reason : FeatureUnavailableReason :=
  reason INSUFFICIENT_HISTORY
    ("cross-venue spread z-score has fewer than " +:+
     pretty (cross_venue_zscore_minimum_samples c) +:+
     " prior paired observations or zero variance")
    (Some "price.mid_price_spread_zscore"%string).

(** What the second half of [calculate] computes from a usable pair. *)
Record PairFeatures := {
  pf_price : CrossVenuePriceFeatureValues;
  pf_order_flow : CrossVenueOrderFlowFeatureValues;
  pf_positioning : CrossVenuePositioningFeatureValues;
  pf_confirmation : CrossVenueConfirmationFeatureValues;
  pf_pair_count : Z;
  pf_sha256 : option string;
  pf_is_warm : bool;
  pf_is_healthy : bool;
  pf_reasons : list FeatureUnavailableReason }.

Definition pair_features (candidates : list FeatureSnapshot) (binance okx : FeatureSnapshot)
    (decision window_seconds : Z) (a : CrossVenueAlignmentResult) : res PairFeatures :=
  p ← price_features candidates binance okx decision window_seconds;
  let '(price, n, sha, price_reasons) := p in
  o ← order_flow_features binance okx;
  pos ← positioning_features binance okx;
  conf ← confirmation_features price o.1 pos.1 (quality a);
  let zscore_warm := negb (is_none (mid_price_spread_zscore price)) in
  let rs := align_unavailable_reasons a ++ price_reasons ++ o.2 ++ pos.2 ++
            add_if (negb zscore_warm) insufficient_reason in
  Ok {| pf_price := price; pf_order_flow := o.1; pf_positioning := pos.1; pf_confirmation := conf;
        pf_pair_count := n; pf_sha256 := sha;
        pf_is_warm := fs_is_warm binance && fs_is_warm okx && zscore_warm;
        pf_is_healthy := bool_decide (align_status a = AlignmentStatus_ALIGNED) &&
                         fs_is_healthy binance && fs_is_healthy okx;
        pf_reasons := unique rs |}.

(** The snapshot, with its identity first; [sym] is validated by [EventBase]. *)
Definition mk_cross_snapshot (sym : string) (decision window_seconds : Z)
    (binance okx : option FeatureSnapshot) (a : CrossVenueAlignmentResult)
    (ll : LeadLagResearchFeatureValues) (f : option PairFeatures) : res CrossVenueFeatureSnapshot :=
  let sources := present [binance; okx] in
  let ids := map feature_snapshot_id sources in
  let stamps := present
    (concat (map (λ s, [oldest_source_timestamp s; newest_source_timestamp s]) sources)) in
  let ages := present [binance_data_age_ms a; okx_data_age_ms a] in
  let count := zsum (map source_event_count sources) in
  let age := match ages with [] => None | x :: l => Some (foldl fmax x l) end in
  let warm := match f with Some f => pf_is_warm f | None => false end in
  let healthy := match f with Some f => pf_is_healthy f | None => false end in
  let rs := match f with Some f => pf_reasons f | None => align_unavailable_reasons a end in
  let id := feature_id
    {| ci_symbol := sym; ci_strategy_version := cvc_strategy_version c;
       ci_code_version := cvc_code_version c; ci_config_hash := config_hash;
       ci_decision_timestamp := decision; ci_window_seconds := window_seconds;
       ci_binance_book_generation := fs_book_generation <$> binance;
       ci_okx_book_generation := fs_book_generation <$> okx;
       ci_source_snapshot_ids := ids; ci_source_event_count := count;
       ci_oldest_source_timestamp := Lineage.list_min stamps;
       ci_newest_source_timestamp := Lineage.list_max stamps;
       ci_data_age_ms := age; ci_alignment := a; ci_lead_lag := ll;
       ci_spread_history := (λ f, (pf_pair_count f, pf_sha256 f)) <$> f;
       ci_is_warm := warm; ci_is_healthy := healthy; ci_unavailable_reasons := rs;
       ci_price := pf_price <$> f; ci_order_flow := pf_order_flow <$> f;
       ci_positioning := pf_positioning <$> f; ci_confirmation := pf_confirmation <$> f |} in
  m ← mk_metadata MARKET_FEATURE CROSS_VENUE sym (utc decision) (utc decision) (utc decision)
        (Some (SeqStr id)) None;
  validate_cross_snapshot
    {| cvs_meta := m; cvs_feature_snapshot_id := id;
       cvs_strategy_version := cvc_strategy_version c; cvs_code_version := cvc_code_version c;
       cvs_config_hash := config_hash; cvs_calculation_timestamp := decision;
       cvs_decision_timestamp := decision; cvs_window_seconds := window_seconds;
       binance_book_generation := fs_book_generation <$> binance;
       okx_book_generation := fs_book_generation <$> okx;
       source_snapshot_ids := ids;
       spread_history_pair_count := match f with Some f => pf_pair_count f | None => 0 end;
       spread_history_sha256 := match f with Some f => pf_sha256 f | None => None end;
       cvs_source_event_count := count;
       cvs_oldest_source_timestamp := Lineage.list_min stamps;
       cvs_newest_source_timestamp := Lineage.list_max stamps;
       cvs_data_age_ms := age; cvs_is_warm := warm; cvs_is_healthy := healthy; alignment := a;
       cvs_unavailable_reasons := rs;
       cvs_price := pf_price <$> f; cvs_order_flow := pf_order_flow <$> f;
       cvs_positioning := pf_positioning <$> f; cvs_confirmation := pf_confirmation <$> f;
       lead_lag := ll |}.

(** The body after the decision was read: selection, alignment, and the features of
    a pair that can be compared. *)
Definition cross_of_candidates (candidates : list FeatureSnapshot) (sym : string)
    (decision window_seconds : Z) : res CrossVenueFeatureSnapshot :=
  let b := select_snapshot candidates BINANCE decision in
  let o := select_snapshot candidates OKX decision in
  a ← align b.1 o.1 decision [b.2; o.2];
  ll ← validate_lead_lag
         {| price_impulse_status := LeadLagStatus_UNAVAILABLE;
            taker_flow_status := LeadLagStatus_UNAVAILABLE;
            ofi_status := LeadLagStatus_UNAVAILABLE;
            lead_lag_alignment_quality := quality a;
            lead_lag_unavailable_reasons := [lead_lag_reason] |};
  if bool_decide (align_status a = AlignmentStatus_UNAVAILABLE) then
    mk_cross_snapshot sym decision window_seconds b.1 o.1 a ll None
  else
    match b.1, o.1 with
    | Some binance, Some okx =>
      f ← pair_features candidates binance okx decision window_seconds a;
      mk_cross_snapshot sym decision window_seconds b.1 o.1 a ll (Some f)
    | _, _ => Err (RuntimeError "assert")
    end.

Definition calculate (snapshots : list FeatureSnapshot) (sym : string)
    (decision_timestamp : datetime) (window_seconds : Z) : res CrossVenueFeatureSnapshot :=
  decision ← as_utc "cross-venue decision timestamps must be timezone-aware" decision_timestamp;
  _ ← require (bool_decide (window_seconds ∈ feature_windows_seconds c))
        (ValueError "window_seconds is not a configured feature window");
  cross_of_candidates (candidates_of snapshots sym window_seconds) sym decision window_seconds.

Definition calculate_all (snapshots : list FeatureSnapshot) (decision_timestamp : datetime)
    : res (list CrossVenueFeatureSnapshot) :=
  mapR (λ '(sym, w), calculate snapshots sym decision_timestamp w)
    (concat (map (λ sym, map (pair sym) (feature_windows_seconds c)) (canonical_symbols c))).
End hashes.
End engine.
