(* ===== verification/CrossAlign.v ===== *)
(** * Alignment of the two venues

    [_align] always returns: ages and separations are finite and nonnegative, the
    quality lies between 0 and 1; its status and reasons are characterised by the
    freshness, warmth and health of the two snapshots. *)

From S2P Require Import Prelude PyDecimal PyFloat PyTime FloatRange Models Lineage Availability FeatureModels CrossVenue.

(** ** Alignment *)

(** Validators accept exactly what they return. *)
Lemma finite_fields_ok l : Forall (λ v, finite_value v = true) l → finite_fields l = Ok tt.
Proof. intros H. unfold finite_fields. by rewrite (proj2 (forallb_forall _ _)) by by apply List.Forall_forall. Qed.

Definition nonneg_value (v : option float) : Prop :=
  match v with Some f => fnonneg f = true | None => True end.

Lemma at_least_0_ok l : Forall nonneg_value l → at_least_0 l = Ok tt.
Proof.
  intros H. unfold at_least_0. rewrite (proj2 (forallb_forall _ _)); [done|].
  rewrite List.Forall_forall in H. intros [f|] Hf; [|done]. simpl. rewrite <- fnonneg_leb.
  exact (H _ Hf).
Qed.

Lemma in_range_ok lo hi f : fbetween lo hi f → in_range lo hi (Some f) = Ok tt.
Proof. intros (_ & H1 & H2). unfold in_range. simpl. by rewrite H1, H2. Qed.

(** A millisecond span of the calendar, when present. *)
Definition span_ok (v : option float) : Prop :=
  match v with Some f => nrm 222 f ∧ fnonneg f = true | None => True end.

Lemma span_nonneg v : span_ok v → nonneg_value v.
Proof. destruct v as [f|]; [|done]. by intros [_ H]. Qed.

Lemma span_finite v : span_ok v → finite_value v = true.
Proof. destruct v as [f|]; [|done]. intros [H _]. by eapply nrm_finite. Qed.

Definition in_calendar (t : Z) : Prop := min_datetime ≤ t ≤ max_datetime.

Lemma source_age_ok decision source :
  in_calendar decision → (∀ t, source = Some t → in_calendar t) →
  span_ok (source_age_ms decision source).
Proof.
  intros Hd Hs. destruct source as [t|]; [|done]. specialize (Hs t eq_refl). simpl. split.
  - apply nrm_max; [done|]. apply total_ms_nrm. unfold in_calendar, min_datetime, max_datetime, seconds in *. lia.
  - apply fmax_0_nonneg.
Qed.

Lemma time_difference_ok s1 s2 :
  (∀ t, s1 = Some t → in_calendar t) → (∀ t, s2 = Some t → in_calendar t) →
  span_ok (both (λ x y, fabs (total_ms (x - y))) s1 s2).
Proof.
  intros H1 H2. destruct s1 as [t1|], s2 as [t2|]; try done.
  specialize (H1 t1 eq_refl). specialize (H2 t2 eq_refl). simpl.
  assert (nrm 222 (total_ms (t1 - t2))) as Hn.
  { apply total_ms_nrm. unfold in_calendar, min_datetime, max_datetime, seconds in *. lia. }
  split; [by apply nrm_abs|]. by eapply fabs_nonneg, nrm_finite.
Qed.

Lemma age_difference_ok a1 a2 :
  span_ok a1 → span_ok a2 →
  let d := both (λ x y, fabs (fsub x y)) a1 a2 in
  finite_value d = true ∧ nonneg_value d.
Proof.
  destruct a1 as [x|], a2 as [y|]; try done. intros [Hx _] [Hy _]. simpl.
  assert (is_finite (fsub x y) = true) as Hf by (eapply nrm_finite, (fsub_nrm 222); [done..|lia]).
  split; [by destruct (fsub x y)|by apply fabs_nonneg].
Qed.

Section engine.
Context (c : CrossVenueSettings) (Hc : cross_settings_valid c).

Lemma ratio_ok v limit :
  nrm 222 v → fnonneg v = true → 0 < limit < 2 ^ 53 →
  ∃ r, fdiv v (float_of_int limit) = Ok r ∧ nrm 340 r ∧ fnonneg r = true.
Proof.
  intros Hv Hs Hl. destruct (float_of_int_pos limit 53) as (m & e & -> & Hn); [lia..|].
  eexists. split; [reflexivity|]. split.
  - eapply nrm_mono; [|apply (fdiv_nrm 222 53); [done|exact Hn|lia..]]. lia.
  - apply fdiv_nonneg; [by eapply nrm_finite|done].
Qed.

Lemma fmax_nonneg x y : fnonneg x = true → fnonneg y = true → fnonneg (fmax x y) = true.
Proof. unfold fmax. by destruct (fltb x y). Qed.

Lemma alignment_quality_ok ba oa td :
  span_ok ba → span_ok oa → span_ok td →
  ∃ q, alignment_quality c ba oa td = Ok q ∧ fbetween f0 f1 q.
Proof using Hc.
  intros Hb Ho Hd. destruct ba as [b|], oa as [o|], td as [d|]; try (exists f0; by repeat split).
  destruct Hb as [Hb Sb], Ho as [Ho So], Hd as [Hd Sd]. destruct Hc as [_ Hage Hdiff _].
  unfold alignment_quality.
  destruct (ratio_ok b _ Hb Sb Hage) as (rb & -> & Nb & Pb).
  destruct (ratio_ok o _ Ho So Hage) as (ro & -> & No & Po).
  destruct (ratio_ok d _ Hd Sd Hdiff) as (rd & -> & Nd & Pd). cbn [mbind res_bind].
  apply (inv_one_plus 340); [|by repeat apply fmax_nonneg|lia]. by repeat apply nrm_max.
Qed.

(** What the source snapshots satisfy: their own validators, and the calendar. *)
Record snapshot_ok (s : FeatureSnapshot) : Prop := {
  so_valid : validate_feature_snapshot s = Ok s;
  so_newest : ∀ t, newest_source_timestamp s = Some t → in_calendar t }.

Lemma snapshot_ok_sources s decision :
  snapshot_ok s → fs_decision_timestamp s ≤ decision →
  0 ≤ source_event_count s ∧ 0 ≤ fs_book_generation s ∧
  match oldest_source_timestamp s, newest_source_timestamp s with
  | Some lo, Some hi => lo ≤ hi ≤ decision ∧ source_event_count s ≠ 0
  | None, None => source_event_count s = 0
  | _, _ => False
  end.
Proof.
  intros [Hv _] Hd. unfold validate_feature_snapshot in Hv. inv_res.
  rename select (validate_source_bounds _ _ _ _ _ _ = _) into Hb.
  rename select ((_ <=? _) && _ = true) into Hn. apply andb_true_iff in Hn as [Hn1 Hn2].
  split; [lia|]. split; [lia|]. unfold validate_source_bounds in Hb.
  destruct (Z.eqb_spec (source_event_count s) 0) as [E|E]; inv_res;
    repeat match goal with H : _ && _ = true |- _ => apply andb_true_iff in H as [??] end;
    rewrite ?bool_decide_eq_true in *.
  - by destruct (oldest_source_timestamp s), (newest_source_timestamp s).
  - destruct (oldest_source_timestamp s), (newest_source_timestamp s); try done.
    inv_res. lia.
Qed.

Lemma snapshot_not_future s decision :
  snapshot_ok s → fs_decision_timestamp s ≤ decision →
  not_future decision (newest_source_timestamp s) = true.
Proof.
  intros Hs Hd. destruct (snapshot_ok_sources s decision Hs Hd) as (_ & _ & H).
  destruct (oldest_source_timestamp s), (newest_source_timestamp s) as [hi|]; try done. simpl. lia.
Qed.

(** Fresh, warm and healthy, with a source to date it. *)
Definition stale (decision : Z) (s : FeatureSnapshot) : bool :=
  exceeds (source_age_ms decision (newest_source_timestamp s)) (cross_venue_max_snapshot_age_ms c).
Definition usable (decision : Z) (s : FeatureSnapshot) : bool :=
  negb (is_none (newest_source_timestamp s)) && negb (stale decision s) && fs_is_warm s && fs_is_healthy s.
Definition apart (b o : FeatureSnapshot) : bool :=
  exceeds (both (λ x y, fabs (total_ms (x - y))) (newest_source_timestamp b) (newest_source_timestamp o))
    (cross_venue_max_time_difference_ms c).

Lemma pair_status_spec b o decision :
  let '(status, rs) := pair_status c b o
    (source_age_ms decision (newest_source_timestamp b))
    (source_age_ms decision (newest_source_timestamp o))
    (both (λ x y, fabs (total_ms (x - y))) (newest_source_timestamp b) (newest_source_timestamp o)) in
  (status = AlignmentStatus_UNAVAILABLE ↔ stale decision b = true ∧ stale decision o = true) ∧
  (status = AlignmentStatus_ALIGNED ↔
     usable decision b = true ∧ usable decision o = true ∧ apart b o = false) ∧
  (rs = [] ↔ status = AlignmentStatus_ALIGNED).
Proof.
  unfold pair_status, usable, apart. fold (stale decision b) (stale decision o).
  set (ap := exceeds (both _ _ _) _). cbv zeta.
  destruct (is_none (newest_source_timestamp b)), (is_none (newest_source_timestamp o)),
    (stale decision b), (stale decision o), ap, (fs_is_warm b), (fs_is_warm o),
    (fs_is_healthy b), (fs_is_healthy o); cbn;
    (split; [|split]); split; try discriminate; try (by intros (? & ? & ?)); try (by intros []); by auto.
Qed.

Lemma unique_nil {A} `{EqDecision A} (l : list A) : unique l = [] ↔ l = [].
Proof.
  split; [|by intros ->]. intros E. destruct l as [|x l]; [done|].
  assert (x ∈ unique (x :: l)) as Hx by (rewrite unique_elem; left). rewrite E in Hx. by apply elem_of_nil in Hx.
Qed.

Definition opt_ok (decision : Z) (s : option FeatureSnapshot) : Prop :=
  ∀ x, s = Some x → snapshot_ok x ∧ fs_decision_timestamp x ≤ decision.

Definition opt_source (s : option FeatureSnapshot) : option Z := s ≫= newest_source_timestamp.

Lemma opt_source_calendar decision s t : opt_ok decision s → opt_source s = Some t → in_calendar t.
Proof. intros Hs. destruct s as [x|]; [|done]. destruct (Hs x eq_refl) as [[_ H] _]. apply H. Qed.

Lemma opt_source_past decision s : opt_ok decision s → not_future decision (opt_source s) = true.
Proof.
  intros Hs. destruct s as [x|]; [|done]. destruct (Hs x eq_refl) as [H Hd]. by apply snapshot_not_future.
Qed.

(** Alignment of selected snapshots always succeeds. *)
Lemma align_run b o decision sel :
  in_calendar decision → opt_ok decision b → opt_ok decision o →
  ∃ q, fbetween f0 f1 q ∧
    let ba := source_age_ms decision (opt_source b) in
    let oa := source_age_ms decision (opt_source o) in
    let td := both (λ x y, fabs (total_ms (x - y))) (opt_source b) (opt_source o) in
    let '(status, rs) := match b, o with
      | Some b, Some o => pair_status c b o ba oa td | _, _ => (AlignmentStatus_UNAVAILABLE, []) end in
    align c b o decision sel = Ok
      {| align_decision_timestamp := decision;
         binance_snapshot_id := feature_snapshot_id <$> b; okx_snapshot_id := feature_snapshot_id <$> o;
         binance_source_timestamp := opt_source b; okx_source_timestamp := opt_source o;
         binance_data_age_ms := ba; okx_data_age_ms := oa;
         data_age_difference_ms := both (λ x y, fabs (fsub x y)) ba oa;
         snapshot_time_difference_ms := td; align_status := status; quality := q;
         align_unavailable_reasons := unique (present sel ++ rs) |} ∧
    span_ok ba ∧ span_ok oa.
Proof using Hc.
  intros Hd Hb Ho. unfold align. fold (opt_source b) (opt_source o).
  pose proof (source_age_ok decision (opt_source b) Hd (λ t, opt_source_calendar decision b t Hb)) as Sb.
  pose proof (source_age_ok decision (opt_source o) Hd (λ t, opt_source_calendar decision o t Ho)) as So.
  pose proof (time_difference_ok (opt_source b) (opt_source o) (λ t, opt_source_calendar decision b t Hb)
    (λ t, opt_source_calendar decision o t Ho)) as Sd.
  destruct (age_difference_ok _ _ Sb So) as [Df Dn].
  destruct (alignment_quality_ok _ _ _ Sb So Sd) as (q & Eq & Hq).
  exists q. split; [done|]. cbv zeta. destruct (match b with Some _ => _ | None => _ end) as [status rs].
  rewrite Eq. cbn [mbind res_bind]. split; [|done]. unfold validate_alignment.
  cbn [binance_data_age_ms okx_data_age_ms data_age_difference_ms snapshot_time_difference_ms quality
       align_decision_timestamp binance_source_timestamp okx_source_timestamp].
  rewrite at_least_0_ok by (rewrite !Forall_cons, Forall_nil; auto 10 using span_nonneg).
  rewrite in_range_ok by done. rewrite finite_fields_ok.
  - cbn [mbind res_bind forallb]. by rewrite (opt_source_past _ _ Hb), (opt_source_past _ _ Ho).
  - rewrite !Forall_cons, Forall_nil. destruct Hq as [? _]. auto 10 using span_finite.
Qed.

Definition selected (s : option FeatureSnapshot) (r : option FeatureUnavailableReason) : Prop :=
  is_Some s ↔ r = None.

Lemma present_missing b o rb ro :
  selected b rb → selected o ro → b = None ∨ o = None → present [rb; ro] ≠ [].
Proof.
  unfold selected. intros Hb Ho [->| ->].
  - destruct rb as [r|]; [done|]. by destruct (proj2 Hb eq_refl).
  - destruct ro as [r|]; [by destruct rb|]. by destruct (proj2 Ho eq_refl).
Qed.

Lemma align_spec b o decision rb ro :
  in_calendar decision → opt_ok decision b → opt_ok decision o → selected b rb → selected o ro →
  ∃ a, align c b o decision [rb; ro] = Ok a ∧ fbetween f0 f1 (quality a) ∧
    (align_status a = AlignmentStatus_UNAVAILABLE ↔
       b = None ∨ o = None ∨
       ∃ bs os, b = Some bs ∧ o = Some os ∧ stale decision bs = true ∧ stale decision os = true) ∧
    (align_status a = AlignmentStatus_ALIGNED ↔
       ∃ bs os, b = Some bs ∧ o = Some os ∧ usable decision bs = true ∧ usable decision os = true ∧
         apart bs os = false) ∧
    (align_unavailable_reasons a = [] ↔ align_status a = AlignmentStatus_ALIGNED) ∧
    align_decision_timestamp a = decision ∧
    binance_snapshot_id a = feature_snapshot_id <$> b ∧ okx_snapshot_id a = feature_snapshot_id <$> o ∧
    binance_data_age_ms a = source_age_ms decision (opt_source b) ∧
    okx_data_age_ms a = source_age_ms decision (opt_source o) ∧
    span_ok (binance_data_age_ms a) ∧ span_ok (okx_data_age_ms a).
Proof using Hc.
  intros Hd Hb Ho Sb So. destruct (align_run b o decision [rb; ro] Hd Hb Ho) as (q & Hq & Hrun).
  cbv zeta in Hrun.
  destruct b as [bs|], o as [os|]; [pose proof (pair_status_spec bs os decision) as Hps|..];
    cbn [opt_source mbind option_bind] in Hrun;
    try destruct (pair_status _ _ _ _ _ _) as [status rs]; destruct Hrun as (-> & Hsb & Hso);
    eexists; (split; [reflexivity|]); cbn [align_status quality align_unavailable_reasons
      align_decision_timestamp binance_snapshot_id okx_snapshot_id binance_data_age_ms okx_data_age_ms];
    (split; [done|]); rewrite unique_nil.
  2-4: (split; [by split; [eauto|]|]); (split; [by split; [|intros (? & ? & ? & ? & _)]|]); split; [|done];
    rewrite app_nil_r; split; [|done]; intros E;
    destruct (present_missing _ _ _ _ Sb So ltac:(by auto) E).
  destruct Hps as (H1 & H2 & H3). rewrite (proj1 Sb), (proj1 So) by done. cbn [present omap list_omap id app].
  rewrite H1, H3. split; [|split; [|by repeat split]].
  - split; [intros []; right; right; eauto 8|]. intros [?|[?|(? & ? & [= <-] & [= <-] & ?)]]; done.
  - rewrite H2. split; [intros (? & ? & ?); eauto 8|]. by intros (? & ? & [= <-] & [= <-] & ?).
Qed.
End engine.

(** C9. Alignment always succeeds, with a quality between 0 and 1; it is UNAVAILABLE
    exactly when a venue has no snapshot or both are stale, ALIGNED exactly when both
    are dated, fresh, warm, healthy and close in time, and gives reasons exactly when
    it is not ALIGNED. *)
Theorem alignment_exact c b o decision rb ro :
  cross_settings_valid c → in_calendar decision → opt_ok decision b → opt_ok decision o →
  selected b rb → selected o ro →
  ∃ a, align c b o decision [rb; ro] = Ok a ∧ fbetween f0 f1 (quality a) ∧
    (align_status a = AlignmentStatus_UNAVAILABLE ↔ b = None ∨ o = None ∨
       ∃ x y, b = Some x ∧ o = Some y ∧ stale c decision x = true ∧ stale c decision y = true) ∧
    (align_status a = AlignmentStatus_ALIGNED ↔ ∃ x y, b = Some x ∧ o = Some y ∧
       usable c decision x = true ∧ usable c decision y = true ∧ apart c x y = false) ∧
    (align_unavailable_reasons a = [] ↔ align_status a = AlignmentStatus_ALIGNED).
Proof.
  intros Hc Hd Hb Ho Sb So. destruct (align_spec c Hc b o decision rb ro Hd Hb Ho Sb So)
    as (a & Ea & Hq & H1 & H2 & H3 & _). by exists a.
Qed.

