(* ===== verification/CrossSelect.v ===== *)
(** * Selection, paired history and look-ahead

    The snapshot selected for a venue, the history of paired spreads against its
    specification, and that the result of [calculate] is a function of the set of
    snapshots decided at or before the decision. *)

From S2P Require Import Prelude PyDecimal PyFloat PyTime Models Lineage Availability FeatureModels CrossVenue.

(** ** The orders of the sort keys *)

Lemma hex_ltb_false a b : hex_ltb a b = false ↔ String.leb b a = true.
Proof. unfold hex_ltb. by destruct (String.leb b a). Qed.

Lemma leb_antisym a b : String.leb a b = true → String.leb b a = true → a = b.
Proof.
  intros H1 H2. unfold String.leb in *. rewrite String.compare_antisym in H2.
  destruct (String.compare a b) eqn:E; try done. by apply String.compare_eq_iff.
Qed.

Lemma leb_trans a b c : String.leb a b = true → String.leb b c = true → String.leb a c = true.
Proof.
  intros H1 H2. apply Is_true_eq_true. apply (transitivity (R := String.le) (y := b)); by apply Is_true_eq_left.
Qed.

(** [not (b < a)] on lexicographic keys. *)
Lemma newer_ltb_false a b :
  newer_ltb b a = false ↔
  fs_decision_timestamp a < fs_decision_timestamp b ∨
  fs_decision_timestamp a = fs_decision_timestamp b ∧
  String.leb (feature_snapshot_id a) (feature_snapshot_id b) = true.
Proof.
  unfold newer_ltb. destruct (Z.eqb_spec (fs_decision_timestamp b) (fs_decision_timestamp a)); simpl.
  - rewrite hex_ltb_false. split; [intros; right; auto|]. intros [?|[_ ?]]; [lia|done].
  - rewrite Z.ltb_ge. split; [intros; left; lia|]. intros [?|[? _]]; lia.
Qed.

Lemma candidate_ltb_false a b :
  negb (candidate_ltb b a) = true ↔
  fs_decision_timestamp a < fs_decision_timestamp b ∨
  fs_decision_timestamp a = fs_decision_timestamp b ∧
  let ea := exchange_value (fs_exchange a) in let eb := exchange_value (fs_exchange b) in
  (ea ≠ eb ∧ String.leb ea eb = true ∨
   ea = eb ∧ String.leb (feature_snapshot_id a) (feature_snapshot_id b) = true).
Proof.
  unfold candidate_ltb. rewrite negb_true_iff.
  destruct (Z.eqb_spec (fs_decision_timestamp b) (fs_decision_timestamp a)) as [E|E]; simpl.
  - rewrite E. case_bool_decide as Ee; simpl.
    + rewrite hex_ltb_false, Ee. split; [intros; right; auto|]. intros [?|[_ [[]|[_ ?]]]]; [lia|done..].
    + rewrite negb_false_iff. split; [intros; right; split; [done|]; left; split; [congruence|done]|].
      intros [?|[_ [[_ ?]|[? _]]]]; [lia|done|congruence].
  - rewrite Z.ltb_ge. split; [intros; left; lia|]. intros [?|[? _]]; lia.
Qed.

Definition cand_leb (a b : FeatureSnapshot) : bool := negb (candidate_ltb b a).

Lemma cand_leb_total a b : cand_leb a b = false → cand_leb b a = true.
Proof.
  unfold cand_leb. intros H. apply candidate_ltb_false. apply not_true_iff_false in H.
  rewrite candidate_ltb_false in H.
  destruct (Z.lt_trichotomy (fs_decision_timestamp a) (fs_decision_timestamp b)) as [?|[E|?]];
    [tauto| |by left].
  right. split; [done|]. cbv zeta in *.
  destruct (decide (exchange_value (fs_exchange a) = exchange_value (fs_exchange b))) as [Ee|Ee].
  - right. split; [done|]. destruct (String.leb_total (feature_snapshot_id a) (feature_snapshot_id b)); tauto.
  - left. split; [congruence|].
    destruct (String.leb_total (exchange_value (fs_exchange a)) (exchange_value (fs_exchange b))); tauto.
Qed.

Lemma cand_leb_trans a b c : cand_leb a b = true → cand_leb b c = true → cand_leb a c = true.
Proof.
  unfold cand_leb. rewrite !candidate_ltb_false. cbv zeta.
  intros [?|[E1 H1]] [?|[E2 H2]]; [left; lia..|]. right. split; [congruence|].
  destruct H1 as [[N1 H1]|[X1 H1]], H2 as [[N2 H2]|[X2 H2]].
  - left. split; [|by eapply leb_trans]. intros E. rewrite E in *. by destruct N2; apply leb_antisym.
  - left. by rewrite <- X2.
  - left. by rewrite X1.
  - right. split; [congruence|by eapply leb_trans].
Qed.

Lemma cand_leb_id a b :
  cand_leb a b = true → cand_leb b a = true → feature_snapshot_id a = feature_snapshot_id b.
Proof.
  unfold cand_leb. rewrite !candidate_ltb_false. cbv zeta.
  intros [?|[E1 H1]] [?|[E2 H2]]; [lia..|].
  destruct H1 as [[N1 H1]|[X1 H1]], H2 as [[N2 H2]|[X2 H2]]; try congruence.
  - by destruct N1; apply leb_antisym.
  - by apply leb_antisym.
Qed.

(** ** [max] with a key *)
Section py_max.
Context {A : Type} (ltb : A → A → bool).
Hypothesis ltb_trans : ∀ x y z, ltb y x = false → ltb z y = false → ltb z x = false.
Hypothesis ltb_asym : ∀ x y, ltb x y = true → ltb y x = false.

Lemma py_max_snoc l x :
  py_max ltb (l ++ [x]) =
    Some (match py_max ltb l with Some b => if ltb b x then x else b | None => x end).
Proof. destruct l as [|y l]; [done|]. simpl. by rewrite foldl_app. Qed.

Lemma py_max_spec l :
  match py_max ltb l with
  | Some m => m ∈ l ∧ ∀ y, y ∈ l → ltb m y = false
  | None => l = []
  end.
Proof using ltb_trans ltb_asym.
  induction l as [|x l IH] using rev_ind; [done|]. rewrite py_max_snoc.
  destruct (py_max ltb l) as [m|].
  - destruct IH as [Hm IH]. destruct (ltb m x) eqn:E.
    + split; [apply elem_of_app; right; left|]. intros y [Hy|Hy]%elem_of_app.
      * eapply ltb_trans; [by apply IH|by apply ltb_asym].
      * apply list_elem_of_singleton in Hy as ->. destruct (ltb x x) eqn:E'; [|done].
        rewrite <- E'. by apply ltb_asym.
    + split; [by apply elem_of_app; left|]. intros y [Hy|Hy]%elem_of_app; [auto|].
      by apply list_elem_of_singleton in Hy as ->.
  - subst. split; [left|]. intros y Hy. apply list_elem_of_singleton in Hy as ->.
    destruct (ltb x x) eqn:E'; [|done]. rewrite <- E'. by apply ltb_asym.
Qed.
End py_max.

Lemma newer_trans x y z : newer_ltb y x = false → newer_ltb z y = false → newer_ltb z x = false.
Proof.
  rewrite !newer_ltb_false. intros [?|[E1 H1]] [?|[E2 H2]]; [left; lia..|].
  right. split; [congruence|by eapply leb_trans].
Qed.

Lemma newer_asym x y : newer_ltb x y = true → newer_ltb y x = false.
Proof.
  intros H. apply not_false_iff_true in H. rewrite newer_ltb_false in *.
  destruct (Z.lt_trichotomy (fs_decision_timestamp x) (fs_decision_timestamp y)) as [?|[E|?]];
    [by left| |destruct H; by left].
  right. split; [done|]. destruct (String.leb_total (feature_snapshot_id x) (feature_snapshot_id y)); [done|].
  destruct H. right. by split.
Qed.

Lemma hex_trans x y z : hex_ltb y x = false → hex_ltb z y = false → hex_ltb z x = false.
Proof. rewrite !hex_ltb_false. intros. by eapply leb_trans. Qed.
Lemma hex_asym x y : hex_ltb x y = true → hex_ltb y x = false.
Proof.
  unfold hex_ltb. intros H%negb_true_iff. apply negb_false_iff.
  destruct (String.leb_total x y); congruence.
Qed.

(** ** The selected snapshot *)

Lemma select_spec l e decision :
  match select_snapshot l e decision with
  | (Some s, r) =>
    r = None ∧ s ∈ l ∧ fs_exchange s = e ∧ fs_decision_timestamp s ≤ decision ∧
    ∀ y, y ∈ l → fs_exchange y = e → fs_decision_timestamp y ≤ decision → newer_ltb s y = false
  | (None, r) =>
    (∀ y, y ∈ l → fs_exchange y = e → decision < fs_decision_timestamp y) ∧
    ((∃ y, y ∈ l ∧ fs_exchange y = e) ∧ r = Some (future_reason e) ∨
     (∀ y, y ∈ l → fs_exchange y ≠ e) ∧ r = Some (missing_reason e))
  end.
Proof.
  unfold select_snapshot. set (venue := List.filter (of_venue e) l).
  assert (∀ y, y ∈ venue ↔ y ∈ l ∧ fs_exchange y = e) as Hv.
  { intros y. subst venue. rewrite filter_elem. unfold of_venue. by rewrite bool_decide_eq_true. }
  pose proof (py_max_spec newer_ltb newer_trans newer_asym (List.filter (at_or_before decision) venue)) as Hm.
  assert (∀ y, y ∈ List.filter (at_or_before decision) venue ↔
    y ∈ l ∧ fs_exchange y = e ∧ fs_decision_timestamp y ≤ decision) as Hf.
  { intros y. rewrite filter_elem, Hv. unfold at_or_before. rewrite Z.leb_le. tauto. }
  destruct (py_max newer_ltb _) as [s|].
  - destruct Hm as [Hs Hm]. apply Hf in Hs as (H1 & H2 & H3). repeat split; [done..|].
    intros y Hy He Ht. apply Hm, Hf. auto.
  - rewrite Hm in Hf. assert (∀ y, y ∈ l → fs_exchange y = e → decision < fs_decision_timestamp y) as Hlate.
    { intros y Hy He. destruct (Z.lt_ge_cases decision (fs_decision_timestamp y)); [done|].
      destruct (not_elem_of_nil y). apply Hf. auto. }
    destruct venue as [|v venue]; (split; [done|]); [right|left]; (split; [|done]).
    + intros y Hy He. destruct (not_elem_of_nil y). by apply Hv.
    + exists v. apply Hv. left.
Qed.

(** ** The history of paired spreads *)

Definition in_history (sym : string) (w boundary decision : Z) (s : FeatureSnapshot) : bool :=
  bool_decide (fs_symbol s = sym) && (fs_window_seconds s =? w) &&
  (boundary <? fs_decision_timestamp s) && (fs_decision_timestamp s <? decision).

Lemma pair_up_eq sym w boundary decision paired s :
  pair_up sym w boundary decision paired s =
    if in_history sym w boundary decision s then
      dict_set (fs_decision_timestamp s)
        (keep_largest (default [] (dict_get (fs_decision_timestamp s) paired)) s) paired
    else paired.
Proof.
  unfold pair_up, in_history. repeat case_bool_decide; try done; simpl.
  destruct (_ =? w), (boundary <? _), (_ <? decision); done.
Qed.

Definition id_ltb (a b : FeatureSnapshot) : bool :=
  hex_ltb (feature_snapshot_id a) (feature_snapshot_id b).

(** What the pairing loop keeps for a venue at a time: the first of the largest ids. *)
Definition observed (sym : string) (w boundary decision : Z) (e : Exchange) (t : Z)
    (l : list FeatureSnapshot) : option FeatureSnapshot :=
  py_max id_ltb
    (List.filter (λ s, in_history sym w boundary decision s && (fs_decision_timestamp s =? t) &&
                       of_venue e s) l).

Lemma keep_largest_get m s e :
  dict_get e (keep_largest m s) =
    if of_venue e s then
      Some (match dict_get e m with Some b => if id_ltb b s then s else b | None => s end)
    else dict_get e m.
Proof.
  unfold keep_largest, of_venue. case_bool_decide as E.
  - rewrite E. destruct (dict_get e m) as [b|] eqn:Eb.
    + change (hex_ltb (feature_snapshot_id b) (feature_snapshot_id s)) with (id_ltb b s).
      destruct (id_ltb b s); [|done]. apply dict_get_set_eq. by apply bool_decide_eq_true.
    + apply dict_get_set_eq. by apply bool_decide_eq_true.
  - assert (dict_get e (dict_set (fs_exchange s) s m) = dict_get e m) as Hne.
    { apply dict_get_set_ne, bool_decide_eq_false. congruence. }
    destruct (dict_get (fs_exchange s) m); [|done]. by destruct (hex_ltb _ _).
Qed.

Section paired.
Context (sym : string) (w boundary decision : Z).
Let step := pair_up sym w boundary decision.

Lemma paired_get l t e :
  dict_get e (default [] (dict_get t (foldl step [] l))) = observed sym w boundary decision e t l.
Proof.
  unfold observed. induction l as [|s l IH] using rev_ind; [done|].
  rewrite foldl_app, List.filter_app. cbn [foldl]. unfold step at 1. rewrite pair_up_eq. simpl List.filter.
  destruct (in_history sym w boundary decision s); simpl; [|by rewrite app_nil_r].
  destruct (Z.eqb_spec (fs_decision_timestamp s) t) as [->|Hne]; simpl.
  - rewrite dict_get_set_eq by by apply bool_decide_eq_true. simpl. rewrite keep_largest_get, IH.
    destruct (of_venue e s); [by rewrite py_max_snoc|by rewrite app_nil_r].
  - rewrite dict_get_set_ne by (by apply bool_decide_eq_false; congruence). by rewrite app_nil_r.
Qed.

Lemma paired_wf l : dict_wf (foldl step [] l).
Proof.
  induction l as [|s l IH] using rev_ind; [done|]. rewrite foldl_app. cbn [foldl]. unfold step at 1.
  rewrite pair_up_eq. destruct (in_history _ _ _ _ s); [by apply dict_wf_set|done].
Qed.

Lemma dict_key_iff {V} (d : list (Z * V)) k : k ∈ map fst d ↔ is_Some (dict_get k d).
Proof.
  rewrite list_elem_of_fmap. split.
  - intros ([k' v] & -> & Hin). destruct (dict_get k' d) eqn:E; [done|].
    rewrite dict_get_None_elem in E. specialize (E _ _ Hin). by rewrite pyeq_refl in E.
  - intros [v Hv]. apply dict_get_elem in Hv as (k' & Hin & E).
    apply bool_decide_eq_true in E as <-. by exists (k, v).
Qed.

Lemma paired_keys l t :
  t ∈ map fst (foldl step [] l) ↔
  ∃ s, s ∈ l ∧ in_history sym w boundary decision s = true ∧ fs_decision_timestamp s = t.
Proof.
  rewrite dict_key_iff. induction l as [|s l IH] using rev_ind.
  - split; [by intros []|]. by intros (? & ?%elem_of_nil & _).
  - rewrite foldl_app. cbn [foldl]. unfold step at 1. rewrite pair_up_eq.
    destruct (in_history sym w boundary decision s) eqn:Es.
    + destruct (decide (fs_decision_timestamp s = t)) as [<-|Hne].
      * rewrite dict_get_set_eq by by apply bool_decide_eq_true. split; [intros _|done].
        exists s. split; [apply elem_of_app; right; left|done].
      * rewrite dict_get_set_ne by (by apply bool_decide_eq_false; congruence). rewrite IH.
        setoid_rewrite elem_of_app. split; [intros (x & ? & ?); eauto|].
        intros (x & [?|Hx] & ? & ?); [eauto|]. apply list_elem_of_singleton in Hx as ->. congruence.
    + rewrite IH. setoid_rewrite elem_of_app. split; [intros (x & ? & ?); eauto|].
      intros (x & [?|Hx] & ? & ?); [eauto|]. apply list_elem_of_singleton in Hx as ->. congruence.
Qed.
End paired.

Lemma ddiv_total x y : deqb y d0 = false → ∃ q, ddiv x y = Ok q.
Proof.
  intros E. rewrite deqb_0_r in E. unfold ddiv. rewrite E. repeat case_match; eauto.
Qed.

(** [(b - o) / ((|b| + |o|) / 2)], where the denominator is not zero. *)
Lemma percentage_spread_ok b o : ∃ v rs, percentage_spread b o = Ok (v, rs) ∧ (is_Some v → rs = []).
Proof.
  destruct b as [b|], o as [o|]; cbn [percentage_spread];
    [|exists None, []; split; [done|by intros []]..].
  destruct (deqb (dhalf (dadd (dabs b) (dabs o))) d0) eqn:E.
  { eexists None, _. split; [reflexivity|by intros []]. }
  destruct (ddiv_total (dsub b o) _ E) as [q ->].
  exists (Some (float_of_decimal q)), []. by split.
Qed.

Definition item_of (t : Z) (b o : FeatureSnapshot) (spread : float) : HistoryItem :=
  {| hi_decision_timestamp := t; hi_binance_snapshot_id := feature_snapshot_id b;
     hi_okx_snapshot_id := feature_snapshot_id o; hi_binance_mid_price := mid_price_of b;
     hi_okx_mid_price := mid_price_of o; hi_percentage_spread := spread |}.

Lemma history_item_ok t m :
  ∃ i, history_item t m = Ok i ∧
    ∀ x, i = Some x ↔ ∃ b o spread rs, dict_get BINANCE m = Some b ∧ dict_get OKX m = Some o ∧
      percentage_spread (mid_price_of b) (mid_price_of o) = Ok (Some spread, rs) ∧ x = item_of t b o spread.
Proof.
  unfold history_item. destruct (dict_get BINANCE m) as [b|]; [|exists None; split; [done|]; intros x; split; [done|]; by intros (? & ? & ? & ? & ? & _)].
  destruct (dict_get OKX m) as [o|]; [|exists None; split; [done|]; intros x; split; [done|]; by intros (? & ? & ? & ? & _ & ? & _)].
  destruct (percentage_spread_ok (mid_price_of b) (mid_price_of o)) as (v & rs & E & _). rewrite E.
  cbn [mbind res_bind fst]. destruct v as [spread|]; eexists; (split; [reflexivity|]); intros x; split.
  - intros [= <-]. by exists b, o, spread, rs.
  - intros (? & ? & ? & ? & [= <-] & [= <-] & E' & ->). rewrite E in E'. by injection E' as <- <-.
  - done.
  - intros (? & ? & ? & ? & [= <-] & [= <-] & E' & _). rewrite E in E'. by injection E'.
Qed.

Lemma present_elem {A} (l : list (option A)) x : x ∈ present l ↔ Some x ∈ l.
Proof. unfold present. rewrite list_elem_of_omap. split; [|by intros; exists (Some x)].
  intros (y & Hy & E). change (y = Some x) in E. by subst. Qed.

(** The timestamps of the items found are those looked at, in order. *)
Lemma history_sorted f ts items :
  mapR (λ t, history_item t (f t)) ts = Ok items → StronglySorted Z.lt ts →
  StronglySorted Z.lt (map hi_decision_timestamp (present items)) ∧
  ∀ x, x ∈ present items → hi_decision_timestamp x ∈ ts.
Proof.
  intros Hm Hs. apply mapR_Ok in Hm. revert items Hm.
  induction Hs as [|t ts Hs IH Hall]; intros items Hm; inversion Hm as [|? i ? items' Hi Hm']; subst.
  - split; [constructor|]. by intros x Hx%elem_of_nil.
  - destruct (IH _ Hm') as [IH1 IH2]. destruct (history_item_ok t (f t)) as (i' & Hi' & Hx).
    rewrite Hi in Hi'. injection Hi' as <-. destruct i as [x|]; cbn [present omap list_omap id].
    + destruct (proj1 (Hx x) eq_refl) as (b & o & sp & rs & _ & _ & _ & ->). split.
      * simpl. constructor; [done|]. apply List.Forall_forall. intros z Hz.
        rewrite <- list_elem_of_In in Hz.
        apply list_elem_of_fmap in Hz as (y & -> & Hy). rewrite Forall_forall in Hall. by apply Hall, IH2.
      * intros y [->|Hy]%elem_of_cons; [left|right; by apply IH2].
    + split; [done|]. intros y Hy. right. by apply IH2.
Qed.

Lemma sorted_times_strict l : NoDup l → StronglySorted Z.lt (py_sorted Z.leb l).
Proof.
  intros Hnd. pose proof (py_sorted_sorted Z.leb ltac:(intros; lia) ltac:(intros; lia) l) as Hs.
  assert (NoDup (py_sorted Z.leb l)) as Hnd' by by rewrite py_sorted_perm.
  induction Hs as [|x m Hs IH Hall]; [constructor|]. apply NoDup_cons in Hnd' as [Hx Hnd'].
  constructor; [auto|]. rewrite Forall_forall in *. intros y Hy. specialize (Hall y Hy).
  assert (x ≠ y) by (by intros ->). lia.
Qed.

Lemma spread_history_spec c l sym decision w :
  let boundary := decision - seconds (zscore_lookback_seconds c) in
  ∃ items, spread_history c l sym decision w = Ok items ∧
    StronglySorted Z.lt (map hi_decision_timestamp items) ∧
    ∀ x, x ∈ items ↔ ∃ t b o spread rs,
      observed sym w boundary decision BINANCE t l = Some b ∧
      observed sym w boundary decision OKX t l = Some o ∧
      percentage_spread (mid_price_of b) (mid_price_of o) = Ok (Some spread, rs) ∧
      x = item_of t b o spread.
Proof.
  intros boundary. unfold spread_history. fold boundary.
  set (paired := foldl (pair_up sym w boundary decision) [] l). set (ts := py_sorted Z.leb (map fst paired)).
  set (f := λ t, default [] (dict_get t paired)).
  assert (∃ items, mapR (λ t, history_item t (f t)) ts = Ok items) as [items Hm].
  { clearbody ts. induction ts as [|t ts [items IH]]; [by exists []|]. simpl.
    destruct (history_item_ok t (f t)) as (i & -> & _). rewrite IH. by eexists. }
  change (mapR _ ts) with (mapR (λ t, history_item t (f t)) ts). rewrite Hm.
  eexists. split; [reflexivity|].
  assert (NoDup (map fst paired)) as Hnd.
  { pose proof (paired_wf sym w boundary decision l) as Hwf. fold paired in Hwf. clearbody paired.
    clear -Hwf. induction paired as [|[k v] d IH]; simpl in *; [constructor|]. destruct Hwf as [Hk Hwf].
    constructor; [|auto]. intros Hin%dict_key_iff. rewrite Hk in Hin. by destruct Hin. }
  split; [by apply (history_sorted f ts items Hm), sorted_times_strict|].
  apply mapR_Ok in Hm. intros x. rewrite present_elem.
  assert (Some x ∈ items ↔ ∃ t, t ∈ ts ∧ history_item t (f t) = Ok (Some x)) as ->.
  { clearbody ts. induction Hm as [|t i ts items Hi Hm IH].
    - split; [by intros ?%elem_of_nil|by intros (? & ?%elem_of_nil & _)].
    - rewrite elem_of_cons, IH. setoid_rewrite elem_of_cons. split.
      + intros [<-|(t' & ? & ?)]; eauto.
      + intros (t' & [->|?] & E); [left; congruence|eauto]. }
  unfold f. split.
  - intros (t & _ & Hi). destruct (history_item_ok t (f t)) as (i & Hi' & Hx). unfold f in *.
    rewrite Hi in Hi'. injection Hi' as <-. destruct (proj1 (Hx x) eq_refl) as (b & o & sp & rs & Hb & Ho & Hp & ->).
    subst paired. rewrite paired_get in Hb, Ho. by exists t, b, o, sp, rs.
  - intros (t & b & o & sp & rs & Hb & Ho & Hp & ->). exists t. split.
    + subst ts. rewrite py_sorted_elem. subst paired. rewrite paired_keys.
      pose proof (py_max_spec id_ltb (λ x y z, hex_trans _ _ _) (λ x y, hex_asym _ _)
        (List.filter (λ s, in_history sym w boundary decision s && (fs_decision_timestamp s =? t) && of_venue BINANCE s) l)) as Hmax.
      unfold observed in Hb. rewrite Hb in Hmax. destruct Hmax as [Hin _]. apply filter_elem in Hin as [Hin Hp'].
      apply andb_true_iff in Hp' as [[Hh Ht]%andb_true_iff _]. apply Z.eqb_eq in Ht. eauto.
    + destruct (history_item_ok t (default [] (dict_get t paired))) as (i & -> & Hx). f_equal. apply Hx. subst paired.
      rewrite !paired_get. by exists b, o, sp, rs.
Qed.

(** ** Nothing after the decision matters *)

(** The candidates a decision can use, and the venues that have any at all. *)
Definition eligible (decision : Z) (l : list FeatureSnapshot) : list FeatureSnapshot :=
  List.filter (at_or_before decision) l.
Definition same_view (decision : Z) (l1 l2 : list FeatureSnapshot) : Prop :=
  eligible decision l1 = eligible decision l2 ∧
  ∀ e, List.filter (of_venue e) l1 = [] ↔ List.filter (of_venue e) l2 = [].

Lemma select_same decision l1 l2 e :
  same_view decision l1 l2 → select_snapshot l1 e decision = select_snapshot l2 e decision.
Proof.
  intros [He Hv]. unfold select_snapshot. unfold eligible in He.
  rewrite !(filter_comm (at_or_before decision)), He. destruct (py_max newer_ltb _); [done|].
  specialize (Hv e). destruct (List.filter (of_venue e) l1), (List.filter (of_venue e) l2); try done.
  - by pose proof (proj1 Hv eq_refl).
  - by pose proof (proj2 Hv eq_refl).
Qed.

Lemma pair_up_late sym w boundary decision acc s :
  at_or_before decision s = false → pair_up sym w boundary decision acc s = acc.
Proof.
  unfold at_or_before. intros H. rewrite pair_up_eq. unfold in_history.
  replace (fs_decision_timestamp s <? decision) with false by lia. by rewrite andb_false_r.
Qed.

Lemma spread_history_same c decision l1 l2 sym w :
  eligible decision l1 = eligible decision l2 →
  spread_history c l1 sym decision w = spread_history c l2 sym decision w.
Proof.
  intros He. unfold spread_history. unfold eligible in He.
  rewrite (foldl_filter _ (at_or_before decision) _ l1) by (intros; by apply pair_up_late).
  rewrite (foldl_filter _ (at_or_before decision) _ l2) by (intros; by apply pair_up_late).
  by rewrite He.
Qed.

Lemma cross_of_candidates_same c history_sha256 feature_id config_hash decision l1 l2 sym w :
  same_view decision l1 l2 →
  cross_of_candidates c history_sha256 feature_id config_hash l1 sym decision w =
  cross_of_candidates c history_sha256 feature_id config_hash l2 sym decision w.
Proof.
  intros Hs. unfold cross_of_candidates, pair_features, price_features, spread_zscore.
  rewrite !(select_same decision l1 l2) by done.
  destruct (select_snapshot l2 BINANCE decision) as [b rb], (select_snapshot l2 OKX decision) as [o ro].
  cbv zeta. cbn [fst snd]. destruct (align c b o decision [rb; ro]) as [a|]; [|done]. cbn [mbind res_bind].
  destruct (validate_lead_lag _); [|done]. cbn [mbind res_bind].
  case_bool_decide; [done|]. destruct b as [b|], o as [o|]; try done.
  by rewrite (spread_history_same c decision l1 l2) by apply Hs.
Qed.

Lemma candidates_sorted l sym w :
  StronglySorted (λ a b, cand_leb a b = true) (candidates_of l sym w).
Proof. apply py_sorted_sorted; [apply cand_leb_total|apply cand_leb_trans]. Qed.

Lemma candidates_of_elem l sym w s : s ∈ candidates_of l sym w ↔ s ∈ l ∧ relevant sym w s = true.
Proof. unfold candidates_of. rewrite py_sorted_elem. apply filter_elem. Qed.

Lemma same_id l x y :
  NoDup (map feature_snapshot_id l) → x ∈ l → y ∈ l →
  feature_snapshot_id x = feature_snapshot_id y → x = y.
Proof.
  induction l as [|z l IH]; [by intros _ ?%elem_of_nil|]. simpl. intros [Hz Hn]%NoDup_cons.
  rewrite !elem_of_cons. intros [->|Hx] [->|Hy] E; auto; destruct Hz.
  - rewrite E. by apply list_elem_of_fmap_2.
  - rewrite <- E. by apply list_elem_of_fmap_2.
Qed.

Lemma NoDup_filter_bool {A} (p : A → bool) l : NoDup l → NoDup (List.filter p l).
Proof.
  induction 1 as [|x l Hx Hn IH]; simpl; [constructor|]. destruct (p x); [|done].
  constructor; [|done]. by rewrite filter_elem; intros [].
Qed.

Lemma candidates_nodup l sym w : NoDup (map feature_snapshot_id l) → NoDup (candidates_of l sym w).
Proof.
  intros H%NoDup_fmap_1. unfold candidates_of. rewrite py_sorted_perm. by apply NoDup_filter_bool.
Qed.

Lemma filter_sorted {A} (R : A → A → Prop) (p : A → bool) l :
  StronglySorted R l → StronglySorted R (List.filter p l).
Proof.
  induction 1 as [|x l Hs IH Hall]; simpl; [constructor|]. destruct (p x); [|done].
  constructor; [done|]. rewrite Forall_forall in *. intros y [Hy _]%filter_elem. auto.
Qed.

Lemma candidates_same l1 l2 sym w decision :
  NoDup (map feature_snapshot_id l1) → NoDup (map feature_snapshot_id l2) →
  (∀ s, relevant sym w s = true → fs_decision_timestamp s ≤ decision → (s ∈ l1 ↔ s ∈ l2)) →
  (∀ e, (∃ s, s ∈ l1 ∧ relevant sym w s = true ∧ fs_exchange s = e) ↔
        (∃ s, s ∈ l2 ∧ relevant sym w s = true ∧ fs_exchange s = e)) →
  same_view decision (candidates_of l1 sym w) (candidates_of l2 sym w).
Proof.
  intros N1 N2 Hm Hv. split.
  - apply (StronglySorted_leb_eq cand_leb); try (apply filter_sorted, candidates_sorted);
      try (by apply NoDup_filter_bool, candidates_nodup).
    + intros x y Hx Hy Hxy Hyx. apply filter_elem in Hx as [[Hx _]%candidates_of_elem _].
      apply filter_elem in Hy as [[Hy _]%candidates_of_elem _]. apply (same_id l1); [done..|].
      by apply cand_leb_id.
    + intros s. unfold eligible. rewrite !filter_elem, !candidates_of_elem. unfold at_or_before.
      rewrite Z.leb_le. specialize (Hm s). tauto.
  - intros e. assert (∀ l, List.filter (of_venue e) (candidates_of l sym w) = [] ↔
      ¬ ∃ s, s ∈ l ∧ relevant sym w s = true ∧ fs_exchange s = e) as Hn; [|by rewrite !Hn, Hv].
    intros l. assert (∀ s, s ∈ List.filter (of_venue e) (candidates_of l sym w) ↔
      s ∈ l ∧ relevant sym w s = true ∧ fs_exchange s = e) as Hs.
    { intros s. rewrite filter_elem, candidates_of_elem. unfold of_venue. rewrite bool_decide_eq_true. tauto. }
    destruct (List.filter _ _) as [|s l'].
    + split; [intros _ (s & Hs')|done]. apply Hs in Hs'. by apply elem_of_nil in Hs'.
    + split; [done|]. intros []. exists s. apply Hs. left.
Qed.

(** The same snapshots of the symbol and window up to the decision, and the same venues
    with any snapshot at all. *)
Definition same_present (sym : string) (w decision : Z) (l1 l2 : list FeatureSnapshot) : Prop :=
  (∀ s, relevant sym w s = true → fs_decision_timestamp s ≤ decision → (s ∈ l1 ↔ s ∈ l2)) ∧
  (∀ e, (∃ s, s ∈ l1 ∧ relevant sym w s = true ∧ fs_exchange s = e) ↔
        (∃ s, s ∈ l2 ∧ relevant sym w s = true ∧ fs_exchange s = e)).

(** C7. The cross-venue snapshot is a function of the set of snapshots of the symbol and
    window decided at or before the decision, whatever the order they arrive in: the
    later ones only tell, for a venue that has no earlier one, whether the reason is
    that it is missing or that it lies in the future. *)
Theorem cross_venue_no_lookahead c history_sha256 feature_id config_hash l1 l2 sym decision w :
  NoDup (map feature_snapshot_id l1) → NoDup (map feature_snapshot_id l2) →
  same_present sym w decision l1 l2 →
  calculate c history_sha256 feature_id config_hash l1 sym (utc decision) w =
  calculate c history_sha256 feature_id config_hash l2 sym (utc decision) w.
Proof.
  intros N1 N2 [Hm Hv]. unfold calculate. rewrite as_utc_utc. cbn [mbind res_bind].
  destruct (require _ _); [|done]. cbn [mbind res_bind].
  by apply cross_of_candidates_same, candidates_same.
Qed.

(** C8. The history behind the spread z-score: one item per time inside the lookback
    and strictly before the decision at which both venues have a snapshot, from the
    snapshot of the largest id of each, in increasing order of time, leaving out the
    times whose spread is undefined. *)
Theorem spread_history_exact c l sym decision w :
  let boundary := decision - seconds (zscore_lookback_seconds c) in
  ∃ items, spread_history c l sym decision w = Ok items ∧
    StronglySorted Z.lt (map hi_decision_timestamp items) ∧
    ∀ x, x ∈ items ↔ ∃ t b o spread rs,
      observed sym w boundary decision BINANCE t l = Some b ∧
      observed sym w boundary decision OKX t l = Some o ∧
      percentage_spread (mid_price_of b) (mid_price_of o) = Ok (Some spread, rs) ∧
      x = item_of t b o spread.
Proof. apply spread_history_spec. Qed.
