(* ===== verification/CrossResult.v ===== *)
(** * The cross-venue snapshot is always produced

    Every validator of [features/models.py] accepts what [calculate] builds from
    valid snapshots: the alignment, the feature groups, the confirmation score, and
    the snapshot itself. *)

From S2P Require Import Prelude PyDecimal PyFloat PyTime FloatRange Models Lineage Availability FeatureModels CrossVenue CrossAlign CrossSelect.

(** ** The confirmation score

    Evidence is one of -1, 0 and 1, from at most seven comparisons: few enough lists
    to evaluate them all. *)

Fixpoint lists_up_to {A} (alphabet : list A) (n : nat) : list (list A) :=
  match n with
  | O => [[]]
  | S n => [] :: concat (map (λ x, map (cons x) (lists_up_to alphabet n)) alphabet)
  end.

Lemma lists_up_to_elem {A} (alphabet : list A) n l :
  (length l ≤ n)%nat → Forall (λ x, x ∈ alphabet) l → l ∈ lists_up_to alphabet n.
Proof.
  revert l. induction n as [|n IH]; intros [|x l] Hl Hall; simpl in *; [left|lia|left|].
  apply Forall_cons in Hall as [Hx Hall]. right. rewrite list_elem_of_In. apply in_concat.
  exists (map (cons x) (lists_up_to alphabet n)). split.
  - apply (in_map (λ x, map (cons x) (lists_up_to alphabet n))). by apply list_elem_of_In.
  - apply in_map. apply list_elem_of_In, IH; [lia|done].
Qed.

Definition votes (v : float) (l : list float) : Z :=
  Z.of_nat (length (List.filter (λ x, bool_decide (x = v)) l)).

Definition fbetweenb (lo hi f : float) : bool := is_finite f && fleb lo f && fleb f hi.

Lemma fbetweenb_spec lo hi f : fbetweenb lo hi f = true ↔ fbetween lo hi f.
Proof. unfold fbetweenb, fbetween. rewrite !andb_true_iff. tauto. Qed.

(** The mean and the penalty of a list of votes, and their ranges. *)
Definition scores_ok (l : list float) : bool :=
  let n := Z.of_nat (length l) in
  let score := float_of_ratio (votes f1 l - votes fm1 l) n in
  let penalty := float_of_ratio (votes fm1 l) n in
  bool_decide (l = []) ||
  (bool_decide (fmean l = Ok score) &&
   bool_decide (Z.of_nat (length (List.filter (λ v, fltb v f0) l)) = votes fm1 l) &&
   fbetweenb fm1 f1 score && fbetweenb f0 f1 penalty).

Lemma all_scores_ok : forallb scores_ok (lists_up_to [fm1; f0; f1] 7) = true.
Proof. by vm_compute. Qed.

Definition is_vote (v : option float) : Prop := ∀ x, v = Some x → x ∈ [fm1; f0; f1].

Lemma present_votes l : Forall is_vote l →
  (length (present l) ≤ length l)%nat ∧ Forall (λ x, x ∈ [fm1; f0; f1]) (present l).
Proof.
  induction 1 as [|v l Hv _ [IH1 IH2]]; [by split|]. destruct v as [x|]; simpl; split; try lia; try done.
  constructor; [by apply Hv|done].
Qed.

Lemma confirmation_votes p o pos :
  (length (confirmation_values p o pos) ≤ 7)%nat ∧
  Forall (λ x, x ∈ [fm1; f0; f1]) (confirmation_values p o pos).
Proof.
  unfold confirmation_values. apply present_votes. rewrite !Forall_cons, Forall_nil.
  unfold is_vote. set_unfold.
  repeat split; intros x; [destruct (return_direction_agreement p)|destruct (price_impulse_direction_agreement p)
    |destruct (taker_flow_direction_agreement o)|destruct (ofi_direction_agreement o)
    |destruct (price_oi_state_agreement pos)|destruct (crowding_direction_agreement pos)
    |destruct (liquidation_activity_agreement pos)]; intros [= <-]; auto.
Qed.

Lemma confirmation_run p o pos q :
  fbetween f0 f1 q →
  ∃ v, confirmation_features p o pos q = Ok v ∧ conf_alignment_quality v = q ∧
    let votes_cast := confirmation_values p o pos in
    let n := Z.of_nat (length votes_cast) in
    cross_venue_confirmation v =
      (if n =? 0 then None else Some (float_of_ratio (votes f1 votes_cast - votes fm1 votes_cast) n)) ∧
    divergence_penalty_input v = (if n =? 0 then None else Some (float_of_ratio (votes fm1 votes_cast) n)).
Proof.
  intros Hq. destruct (confirmation_votes p o pos) as [Hlen Hall]. unfold confirmation_features.
  set (l := confirmation_values p o pos) in *. clearbody l.
  pose proof (proj1 (forallb_forall _ _) all_scores_ok l) as Hl.
  rewrite <- list_elem_of_In in Hl. specialize (Hl (lists_up_to_elem _ _ _ Hlen Hall)).
  destruct l as [|x l].
  - eexists. cbn [mbind res_bind]. unfold validate_confirmation. cbn [cross_venue_confirmation
      divergence_penalty_input conf_alignment_quality].
    rewrite (in_range_ok f0 f1 q Hq), finite_fields_ok by (rewrite !Forall_cons, Forall_nil; by destruct Hq).
    by split.
  - unfold scores_ok in Hl. apply orb_true_iff in Hl as [Hl|Hl]; [by apply bool_decide_eq_true in Hl|].
    apply andb_true_iff in Hl as [[[Hm Hp]%andb_true_iff Hb1]%andb_true_iff Hb2].
    apply bool_decide_eq_true in Hm, Hp. apply fbetweenb_spec in Hb1, Hb2. rewrite Hm, Hp.
    replace (Z.of_nat (length (x :: l)) =? 0) with false by (simpl; lia).
    eexists. cbn [mbind res_bind fmap res_fmap]. unfold validate_confirmation. cbn [cross_venue_confirmation
      divergence_penalty_input conf_alignment_quality].
    change (fneg f1) with fm1. rewrite (in_range_ok _ _ _ Hb1), (in_range_ok _ _ _ Hb2), (in_range_ok _ _ q Hq).
    rewrite finite_fields_ok by (rewrite !Forall_cons, Forall_nil; by destruct Hq, Hb1, Hb2).
    by split.
Qed.

(** ** The feature groups *)

Definition moderate (v : option float) : Prop := match v with Some f => nrm 300 f | None => True end.

(** The floats that are subtracted from their counterpart of the other venue. *)
Definition compared_floats (s : FeatureSnapshot) : list (option float) :=
  [fs_price s ≫= impulse_zscore; fs_price s ≫= realized_volatility;
   fs_order_book s ≫= relative_spread; fs_trade_flow s ≫= taker_imbalance;
   fs_order_book s ≫= book_order_flow_imbalance; fs_order_book s ≫= depth_imbalance;
   fs_order_book s ≫= liquidity_recovery_quantity_per_second;
   fs_crowding s ≫= funding_zscore; fs_crowding s ≫= mark_index_premium].
Definition floats_moderate (s : FeatureSnapshot) : Prop := Forall moderate (compared_floats s).

(** The inputs whose absence the engine reports. *)
Definition inputs_present (s : FeatureSnapshot) : bool :=
  negb (is_none (mid_price_of s)) && negb (is_none (fs_price s ≫= return_value)) &&
  negb (is_none (fs_trade_flow s ≫= taker_imbalance)) &&
  negb (is_none (fs_order_book s ≫= book_order_flow_imbalance)) &&
  negb (is_none (fs_open_interest s ≫= percentage_change)) &&
  negb (is_none (fs_crowding s ≫= crowding_funding_rate)).

Lemma difference_finite x y : moderate x → moderate y → finite_value (difference x y) = true.
Proof.
  destruct x as [x|], y as [y|]; try done. simpl. intros Hx Hy.
  eapply nrm_finite, (fsub_nrm 300); [done..|lia].
Qed.

Lemma abnormality_moderate x : moderate x → moderate (fabs <$> x).
Proof. destruct x as [x|]; [|done]. apply nrm_abs. Qed.

Lemma moderate_finite x : moderate x → finite_value x = true.
Proof. destruct x as [x|]; [|done]. apply nrm_finite. Qed.

Lemma note_missing_none {A B} label (x : option A) (y : option B) channel :
  negb (is_none x) = true → negb (is_none y) = true → note_missing_pair label x y channel = [].
Proof. unfold note_missing_pair. by intros -> ->. Qed.

Section result.
Context (c : CrossVenueSettings) (Hc : cross_settings_valid c).
Context (history_sha256 : list HistoryItem → string) (feature_id : CrossIdentity → UUID).
Context (config_hash : string).
Hypothesis sha_pattern : ∀ l, sha256_pattern (history_sha256 l) = true.
Hypothesis config_pattern : sha256_pattern config_hash = true.

(** The spread and its z-score are finite floats. *)
Definition spread_in_range (candidates : list FeatureSnapshot) (b o : FeatureSnapshot)
    (decision w : Z) : bool :=
  match percentage_spread (mid_price_of b) (mid_price_of o) with
  | Ok (v, _) =>
    finite_value v &&
    match spread_zscore c history_sha256 candidates (fs_symbol b) decision w v with
    | Ok (z, _, _) => finite_value z
    | Err _ => true
    end
  | Err _ => true
  end.

Lemma spread_zscore_run l sym decision w v :
  ∃ z n sha, spread_zscore c history_sha256 l sym decision w v = Ok (z, n, sha) ∧ 0 ≤ n ∧
    (sha = None → n = 0) ∧ (v ≠ None → sha ≠ None) ∧ (v = None → sha = None) ∧ opt_pattern sha = true ∧
    (v = None → z = None).
Proof using Hc sha_pattern.
  unfold spread_zscore. destruct v as [v|]; [|by exists None, 0, None].
  destruct (spread_history_spec c l sym decision w) as (items & -> & _). cbn [mbind res_bind].
  set (h := map hi_percentage_spread items). set (n := Z.of_nat (length h)).
  assert (0 ≤ n) by lia. destruct (Z.ltb_spec n (cross_venue_zscore_minimum_samples c)) as [Hn|Hn].
  { exists None, n, (Some (history_sha256 items)). split_and!; try done; simpl; auto. }
  destruct (feqb (pstdev h) f0) eqn:Ef.
  { exists None, n, (Some (history_sha256 items)). split_and!; try done; simpl; auto. }
  destruct (fdiv_int_ok (fsum h) n) as [m Em].
  { destruct Hc. lia. }
  change (fmean h) with (fdiv (fsum h) (float_of_int n)). rewrite Em. cbn [mbind res_bind].
  assert (∃ z, fdiv (fsub v m) (pstdev h) = Ok z) as [z ->].
  { unfold fdiv. destruct (pstdev h); [by destruct s|by eexists..]. }
  exists (Some z), n, (Some (history_sha256 items)). split_and!; try done; simpl; auto.
Qed.

(** The reasons a group adds, none when its inputs are there. *)
Lemma price_features_run l b o decision w :
  floats_moderate b → floats_moderate o → spread_in_range l b o decision w = true →
  ∃ v n sha rs, price_features c history_sha256 l b o decision w = Ok (v, n, sha, rs) ∧ 0 ≤ n ∧
    (sha = None → n = 0) ∧ (mid_price_percentage_spread v ≠ None → sha ≠ None) ∧
    opt_pattern sha = true ∧
    (mid_price_spread_zscore v ≠ None → inputs_present b = true → inputs_present o = true → rs = []).
Proof using Hc sha_pattern.
  intros Mb Mo Hr. unfold price_features, spread_in_range in *.
  destruct (percentage_spread_ok (mid_price_of b) (mid_price_of o)) as (v & srs & Ep & Hsrs).
  rewrite Ep in *. cbn [mbind res_bind fst snd] in *. apply andb_true_iff in Hr as [Fv Fz].
  destruct (spread_zscore_run l (fs_symbol b) decision w v) as (z & n & sha & Ez & Hn & H1 & H2 & H3 & H4 & H5).
  rewrite Ez in *. cbn [mbind res_bind fst snd].
  unfold floats_moderate, compared_floats in *. rewrite !Forall_cons, Forall_nil in Mb, Mo.
  unfold validate_cross_price. cbn [mid_price_percentage_spread mid_price_spread_zscore
    price_impulse_strength_difference realized_volatility_difference relative_spread_divergence].
  rewrite finite_fields_ok; [|rewrite !Forall_cons, Forall_nil; split_and!; try done;
    apply difference_finite; tauto].
  cbn [mbind res_bind]. do 4 eexists. split; [reflexivity|]. cbn [mid_price_percentage_spread mid_price_spread_zscore].
  split_and!; try done. intros Hz Ib Io. unfold inputs_present in *.
  rewrite !andb_true_iff in Ib, Io. rewrite !note_missing_none by tauto.
  rewrite Hsrs; [done|]. destruct v as [v|]; [done|]. by rewrite H5 in Hz.
Qed.

Lemma order_flow_run b o :
  floats_moderate b → floats_moderate o →
  ∃ v rs, order_flow_features c b o = Ok (v, rs) ∧
    (inputs_present b = true → inputs_present o = true → rs = []).
Proof.
  intros Mb Mo. unfold floats_moderate, compared_floats in *. rewrite !Forall_cons, Forall_nil in Mb, Mo.
  unfold order_flow_features, validate_cross_order_flow. cbn [taker_imbalance_difference ofi_difference
    depth_imbalance_difference order_book_recovery_speed_difference].
  rewrite finite_fields_ok; [|rewrite !Forall_cons, Forall_nil; split_and!; try done;
    apply difference_finite; tauto].
  cbn [mbind res_bind]. do 2 eexists. split; [reflexivity|]. intros Ib Io. unfold inputs_present in *.
  rewrite !andb_true_iff in Ib, Io. by rewrite !note_missing_none by tauto.
Qed.

Lemma positioning_run b o :
  floats_moderate b → floats_moderate o →
  ∃ v rs, positioning_features c b o = Ok (v, rs) ∧
    (inputs_present b = true → inputs_present o = true → rs = []).
Proof.
  intros Mb Mo. unfold floats_moderate, compared_floats in *. rewrite !Forall_cons, Forall_nil in Mb, Mo.
  unfold positioning_features, validate_cross_positioning. cbn [binance_funding_abnormality
    okx_funding_abnormality funding_abnormality_difference mark_index_premium_difference].
  rewrite finite_fields_ok; [|rewrite !Forall_cons, Forall_nil; split_and!; try done;
    (apply difference_finite || apply moderate_finite); try apply abnormality_moderate; tauto].
  cbn [mbind res_bind]. do 2 eexists. split; [reflexivity|]. intros Ib Io. unfold inputs_present in *.
  rewrite !andb_true_iff in Ib, Io. by rewrite !note_missing_none by tauto.
Qed.

(** A warm and healthy snapshot has the inputs of the comparisons. *)
Definition complete (s : FeatureSnapshot) : Prop :=
  fs_is_warm s = true → fs_is_healthy s = true → inputs_present s = true.

Lemma pair_features_run l b o decision w a :
  floats_moderate b → floats_moderate o → spread_in_range l b o decision w = true →
  complete b → complete o → fbetween f0 f1 (quality a) →
  (align_status a = AlignmentStatus_ALIGNED →
     fs_is_warm b = true ∧ fs_is_warm o = true ∧ fs_is_healthy b = true ∧ fs_is_healthy o = true) →
  (align_unavailable_reasons a = [] ↔ align_status a = AlignmentStatus_ALIGNED) →
  ∃ f, pair_features c history_sha256 l b o decision w a = Ok f ∧ 0 ≤ pf_pair_count f ∧
    (pf_sha256 f = None → pf_pair_count f = 0) ∧
    (mid_price_percentage_spread (pf_price f) ≠ None → pf_sha256 f ≠ None) ∧
    opt_pattern (pf_sha256 f) = true ∧
    (pf_is_healthy f = true ↔ align_status a = AlignmentStatus_ALIGNED) ∧
    (pf_reasons f = [] ↔ pf_is_warm f = true ∧ pf_is_healthy f = true).
Proof using Hc sha_pattern.
  intros Mb Mo Hr Cb Co Hq Hal Hrs. unfold pair_features.
  destruct (price_features_run l b o decision w Mb Mo Hr) as (p & n & sha & rs1 & -> & Hn & H1 & H2 & H3 & R1).
  destruct (order_flow_run b o Mb Mo) as (flow & rs2 & -> & R2).
  destruct (positioning_run b o Mb Mo) as (pos & rs3 & -> & R3). cbn [mbind res_bind fst snd].
  destruct (confirmation_run p flow pos (quality a) Hq) as (cf & -> & _). cbn [mbind res_bind].
  eexists. split; [reflexivity|]. cbn [pf_pair_count pf_sha256 pf_price pf_is_healthy pf_reasons pf_is_warm].
  assert (bool_decide (align_status a = AlignmentStatus_ALIGNED) && fs_is_healthy b && fs_is_healthy o = true ↔
    align_status a = AlignmentStatus_ALIGNED) as Hh.
  { rewrite !andb_true_iff, bool_decide_eq_true. tauto. }
  split_and!; try done. rewrite unique_nil, Hh, !app_nil, Hrs, !andb_true_iff.
  destruct (mid_price_spread_zscore p) as [z|]; cbn [add_if is_none negb].
  - split; [tauto|]. intros [[[Wb Wo] _] Ha]. destruct (Hal Ha) as (_ & _ & Gb & Go).
    specialize (Cb Wb Gb). specialize (Co Wo Go). split_and!; auto.
  - split; [by intros (_ & _ & _ & _ & ?)|by intros [[_ ?] _]].
Qed.

(** ** The snapshot *)

Lemma bounds_some n lo hi age d :
  n ≠ 0 → lo ≤ hi ≤ d → validate_source_bounds true n (Some lo) (Some hi) (Some age) d = Ok tt.
Proof.
  intros Hn Hb. unfold validate_source_bounds. rewrite (proj2 (Z.eqb_neq n 0)) by done.
  rewrite !bool_decide_true by done. simpl. rewrite (proj2 (Z.leb_le lo hi)) by lia. simpl.
  by rewrite (proj2 (Z.leb_le hi d)) by lia.
Qed.

Definition stamps_of (sources : list FeatureSnapshot) : list Z :=
  present (concat (map (λ s, [oldest_source_timestamp s; newest_source_timestamp s]) sources)).
Definition ages_max (l : list float) : option float :=
  match l with [] => None | x :: l => Some (foldl fmax x l) end.

Lemma source_bounds_run b o decision :
  opt_ok decision b → opt_ok decision o →
  span_ok (source_age_ms decision (opt_source b)) → span_ok (source_age_ms decision (opt_source o)) →
  let sources := present [b; o] in
  let count := zsum (map source_event_count sources) in
  let age := ages_max (present [source_age_ms decision (opt_source b);
                                source_age_ms decision (opt_source o)]) in
  validate_source_bounds true count (list_min (stamps_of sources)) (list_max (stamps_of sources)) age decision
    = Ok tt ∧ 0 ≤ count ∧ span_ok age.
Proof.
  intros Hb Ho Sb So. cbv zeta.
  assert (∀ s, opt_ok decision s → match s with
    | Some x => ∃ n, source_event_count x = n ∧
        (oldest_source_timestamp x = None ∧ newest_source_timestamp x = None ∧ n = 0 ∨
         ∃ lo hi, oldest_source_timestamp x = Some lo ∧ newest_source_timestamp x = Some hi ∧
           lo ≤ hi ≤ decision ∧ 0 < n)
    | None => True end) as Hs.
  { intros [x|] Hx; [|done]. destruct (Hx x eq_refl) as [Hx1 Hx2].
    destruct (snapshot_ok_sources x decision Hx1 Hx2) as (H1 & _ & H3). eexists. split; [reflexivity|].
    destruct (oldest_source_timestamp x) as [lo|], (newest_source_timestamp x) as [hi|]; try done.
    - right. exists lo, hi. destruct H3. repeat split; lia || done.
    - by left. }
  pose proof (Hs b Hb) as Eb. pose proof (Hs o Ho) as Eo. clear Hs Hb Ho.
  destruct b as [x|]; [destruct Eb as (n & En & [(Lx & Nx & ->)|(lo & hi & Lx & Nx & Bx & Px)])|];
  destruct o as [y|]; try (destruct Eo as (n' & En' & [(Ly & Ny & ->)|(lo' & hi' & Ly & Ny & By & Py)]));
    unfold opt_source, stamps_of in *; cbn [mbind option_bind] in *;
    rewrite ?Nx, ?Ny in *; cbn [present omap list_omap id map concat app];
    rewrite ?Lx, ?Ly, ?Nx, ?Ny, ?En, ?En';
    cbn [source_age_ms fmap option_fmap option_map present omap list_omap id map app zsum foldr ages_max
         list_min list_max foldl concat] in *;
    repeat match goal with H : span_ok (Some _) |- _ => destruct H as [? ?] end;
    (split; [first [reflexivity|apply bounds_some; lia]|]); (split; [lia|]);
    first [done|split; repeat first [assumption|apply nrm_max|apply fmax_nonneg]].
Qed.

(** What the alignment says of the snapshots it was made from. *)
Definition aligned_from (decision : Z) (b o : option FeatureSnapshot) (a : CrossVenueAlignmentResult)
    : Prop :=
  align_decision_timestamp a = decision ∧
  binance_snapshot_id a = feature_snapshot_id <$> b ∧ okx_snapshot_id a = feature_snapshot_id <$> o ∧
  binance_data_age_ms a = source_age_ms decision (opt_source b) ∧
  okx_data_age_ms a = source_age_ms decision (opt_source o) ∧
  span_ok (binance_data_age_ms a) ∧ span_ok (okx_data_age_ms a).

Definition features_from (a : CrossVenueAlignmentResult) (f : PairFeatures) : Prop :=
  0 ≤ pf_pair_count f ∧ (pf_sha256 f = None → pf_pair_count f = 0) ∧
  (mid_price_percentage_spread (pf_price f) ≠ None → pf_sha256 f ≠ None) ∧
  opt_pattern (pf_sha256 f) = true ∧
  (pf_is_healthy f = true ↔ align_status a = AlignmentStatus_ALIGNED) ∧
  (pf_reasons f = [] ↔ pf_is_warm f = true ∧ pf_is_healthy f = true).

(** A canonical symbol that is not the wildcard. *)
Definition concrete_symbol (sym : string) : Prop :=
  sym ≠ "*"%string ∧ validate_canonical_symbol sym true = Ok sym.

Definition fs_symbol_of (s : CrossVenueFeatureSnapshot) : string := symbol (cvs_meta s).

Lemma metadata_run sym decision id :
  concrete_symbol sym →
  ∃ m, mk_metadata MARKET_FEATURE CROSS_VENUE sym (utc decision) (utc decision) (utc decision) id None
    = Ok m ∧ symbol m = sym.
Proof.
  intros [Hne Hsym]. unfold mk_metadata. rewrite Hsym. cbn [mbind res_bind]. rewrite !as_utc_utc.
  cbn [mbind res_bind]. rewrite (bool_decide_false (sym = "*"%string)) by done.
  eexists. by split.
Qed.

Lemma validate_reasons_ok warm healthy rs :
  (rs = [] ↔ warm = true ∧ healthy = true) → validate_reasons true warm healthy rs = Ok tt.
Proof.
  intros H. unfold validate_reasons. case_bool_decide as E.
  - destruct (proj1 H E) as [-> ->]. done.
  - destruct warm, healthy; try done. by destruct E, H; auto.
Qed.

Lemma spread_history_valid f a s :
  features_from a f → cvs_price s = Some (pf_price f) → spread_history_pair_count s = pf_pair_count f →
  spread_history_sha256 s = pf_sha256 f → validate_spread_history s = Ok tt.
Proof.
  intros (H0 & H1 & H2 & _) E1 E2 E3. unfold validate_spread_history. rewrite E1, E2, E3.
  assert (bool_decide (pf_sha256 f = None) && negb (pf_pair_count f =? 0) = false) as ->.
  { case_bool_decide as E; [|done]. rewrite (H1 E). done. }
  cbn [negb require mbind res_bind]. assert (bool_decide (mid_price_percentage_spread (pf_price f) ≠ None) &&
    bool_decide (pf_sha256 f = None) = false) as ->; [|done].
  repeat case_bool_decide; try done. by destruct H2.
Qed.

Lemma validate_cross_snapshot_ok s :
  sha256_pattern (cvs_config_hash s) = true → opt_pattern (spread_history_sha256 s) = true →
  0 < cvs_window_seconds s → opt_ge_0 (binance_book_generation s) = true →
  opt_ge_0 (okx_book_generation s) = true → 0 ≤ spread_history_pair_count s →
  0 ≤ cvs_source_event_count s → span_ok (cvs_data_age_ms s) →
  cvs_calculation_timestamp s = cvs_decision_timestamp s → (length (source_snapshot_ids s) ≤ 2)%nat →
  NoDup (source_snapshot_ids s) →
  source_snapshot_ids s = present [binance_snapshot_id (alignment s); okx_snapshot_id (alignment s)] →
  validate_spread_history s = Ok tt →
  validate_source_bounds true (cvs_source_event_count s) (cvs_oldest_source_timestamp s)
    (cvs_newest_source_timestamp s) (cvs_data_age_ms s) (cvs_decision_timestamp s) = Ok tt →
  align_decision_timestamp (alignment s) = cvs_decision_timestamp s →
  (align_status (alignment s) = AlignmentStatus_UNAVAILABLE → no_groups s = true) →
  (cvs_is_healthy s = true → align_status (alignment s) = AlignmentStatus_ALIGNED) →
  validate_reasons true (cvs_is_warm s) (cvs_is_healthy s) (cvs_unavailable_reasons s) = Ok tt →
  validate_cross_snapshot s = Ok s.
Proof.
  intros H1 H2 H3 H4 H5 H6 H7 H8 H9 H10 H11 H12 H13 H14 H15 H16 H17 H18.
  unfold validate_cross_snapshot. rewrite H1, H2, H4, H5, H9, Z.ltb_irrefl, <- H12, H13, H14, H15, Z.eqb_refl, H18.
  rewrite (proj2 (Z.ltb_lt 0 _)), (proj2 (Z.leb_le 0 (spread_history_pair_count s))),
    (proj2 (Z.leb_le 0 (cvs_source_event_count s))) by done.
  rewrite at_least_0_ok, finite_fields_ok by (rewrite Forall_cons, Forall_nil; auto using span_finite, span_nonneg).
  rewrite (proj2 (Nat.leb_le _ 2)), (bool_decide_true (NoDup _)), (bool_decide_true (source_snapshot_ids s = _)) by done.
  cbn [andb negb require mbind res_bind].
  assert (bool_decide (align_status (alignment s) = AlignmentStatus_UNAVAILABLE) && negb (no_groups s) = false) as ->.
  { case_bool_decide as E; [|done]. by rewrite H16. }
  assert (cvs_is_healthy s && bool_decide (align_status (alignment s) ≠ AlignmentStatus_ALIGNED) = false) as ->.
  { destruct (cvs_is_healthy s); [|done]. apply bool_decide_eq_false. rewrite H17 by done. by intros []. }
  done.
Qed.

Lemma opt_generation b decision : opt_ok decision b → opt_ge_0 (fs_book_generation <$> b) = true.
Proof.
  intros Hb. destruct b as [x|]; [|done]. destruct (Hb x eq_refl) as [H1 H2].
  destruct (snapshot_ok_sources x decision H1 H2) as (_ & H & _). simpl. lia.
Qed.

Lemma source_ids b o :
  (∀ x y, b = Some x → o = Some y → feature_snapshot_id x ≠ feature_snapshot_id y) →
  let ids := map feature_snapshot_id (present [b; o]) in
  (length ids ≤ 2)%nat ∧ NoDup ids ∧ ids = present [feature_snapshot_id <$> b; feature_snapshot_id <$> o].
Proof.
  intros H. destruct b as [x|], o as [y|]; simpl; (split; [lia|]); (split; [|done]);
    repeat constructor; try by intros ?%elem_of_nil.
  intros E%list_elem_of_singleton. by apply (H x y).
Qed.

Lemma mk_cross_snapshot_run sym decision w b o a ll f :
  concrete_symbol sym → 0 < w → opt_ok decision b → opt_ok decision o →
  (∀ x y, b = Some x → o = Some y → feature_snapshot_id x ≠ feature_snapshot_id y) →
  aligned_from decision b o a →
  match f with
  | None => align_status a = AlignmentStatus_UNAVAILABLE ∧ align_unavailable_reasons a ≠ []
  | Some f => align_status a ≠ AlignmentStatus_UNAVAILABLE ∧ features_from a f
  end →
  ∃ s, mk_cross_snapshot c feature_id config_hash sym decision w b o a ll f = Ok s ∧
    validate_cross_snapshot s = Ok s ∧ fs_symbol_of s = sym ∧ cvs_decision_timestamp s = decision ∧
    alignment s = a ∧ (cvs_is_healthy s = true ↔ align_status a = AlignmentStatus_ALIGNED) ∧
    (cvs_unavailable_reasons s = [] ↔ cvs_is_warm s = true ∧ cvs_is_healthy s = true) ∧
    (no_groups s = true ↔ align_status a = AlignmentStatus_UNAVAILABLE).
Proof using Hc config_pattern.
  intros Hsym Hw Hb Ho Hids (A1 & A2 & A3 & A4 & A5 & A6 & A7) Hf.
  rewrite A4 in A6. rewrite A5 in A7.
  destruct (source_bounds_run b o decision Hb Ho A6 A7) as (Hbounds & Hcount & Hage).
  destruct (source_ids b o Hids) as (I1 & I2 & I3).
  unfold mk_cross_snapshot. rewrite A4, A5. fold (stamps_of (present [b; o])).
  cbv zeta. fold (ages_max (present [source_age_ms decision (opt_source b);
                                     source_age_ms decision (opt_source o)])).
  set (id := feature_id _). destruct (metadata_run sym decision (Some (SeqStr id)) Hsym) as (m & -> & Hm).
  cbn [mbind res_bind]. set (s := Build_CrossVenueFeatureSnapshot _ _ _ _ _ _ _ _ _ _ _ _ _ _ _ _ _ _ _ _ _ _ _ _ _ _).
  assert (validate_cross_snapshot s = Ok s) as Hv.
  { apply validate_cross_snapshot_ok; try done; try (by eapply opt_generation).
    - by destruct f as [f|]; [destruct Hf as (_ & _ & _ & _ & ? & _)|].
    - destruct f as [f|]; [by destruct Hf as (_ & ? & _)|done].
    - subst s. cbn. by rewrite A2, A3.
    - destruct f as [f|]; [|done]. apply (spread_history_valid f a); [apply Hf|done..].
    - intros Hu. destruct f as [f|]; [|done]. by destruct Hf.
    - destruct f as [f|]; [|done]. by apply Hf.
    - apply validate_reasons_ok. destruct f as [f|]; [apply Hf|]. destruct Hf as [_ Hr].
      split; [done|by intros []]. }
  exists s. split; [done|]. split; [done|]. split; [done|]. split; [done|]. split; [done|].
  destruct f as [f|]; cbn.
  - destruct Hf as (Hu & _ & _ & _ & _ & H1 & H2). split; [done|]. split; [done|]. split; [done|]. intros E. by destruct (Hu E).
  - destruct Hf as (Hu & Hr). rewrite Hu. split; [done|]. split; [|done]. by split; [|intros []].
Qed.

(** ** [calculate] *)

(** What the engine can count on of the snapshots it is given. *)
Definition source_ok (s : FeatureSnapshot) : Prop :=
  snapshot_ok s ∧ floats_moderate s ∧ complete s.

Lemma select_ok l e decision s :
  Forall source_ok l → (select_snapshot l e decision).1 = Some s →
  s ∈ l ∧ fs_exchange s = e ∧ source_ok s ∧ fs_decision_timestamp s ≤ decision.
Proof.
  intros Hl Hs. pose proof (select_spec l e decision) as H.
  destruct (select_snapshot l e decision) as [x r]. simpl in Hs. subst.
  destruct H as (_ & Hin & He & Ht & _). rewrite Forall_forall in Hl. auto.
Qed.

Lemma select_selected l e decision :
  selected (select_snapshot l e decision).1 (select_snapshot l e decision).2.
Proof.
  pose proof (select_spec l e decision) as H. unfold selected.
  destruct (select_snapshot l e decision) as [[s|] r]; simpl.
  - destruct H as [-> _]. split; [done|]. intros _. by exists s.
  - destruct H as (_ & [[_ ->]|[_ ->]]); split; try done; by intros [].
Qed.

Lemma cross_run l sym decision w :
  NoDup (map feature_snapshot_id l) → Forall source_ok l → concrete_symbol sym → 0 < w →
  in_calendar decision →
  let b := (select_snapshot l BINANCE decision).1 in
  let o := (select_snapshot l OKX decision).1 in
  (∀ x y, b = Some x → o = Some y → spread_in_range l x y decision w = true) →
  ∃ s, cross_of_candidates c history_sha256 feature_id config_hash l sym decision w = Ok s ∧
    validate_cross_snapshot s = Ok s ∧ fs_symbol_of s = sym ∧ cvs_decision_timestamp s = decision ∧
    (cvs_is_healthy s = true ↔ ∃ x y, b = Some x ∧ o = Some y ∧
       usable c decision x = true ∧ usable c decision y = true ∧ apart c x y = false) ∧
    (cvs_unavailable_reasons s = [] ↔ cvs_is_warm s = true ∧ cvs_is_healthy s = true) ∧
    (no_groups s = true ↔ b = None ∨ o = None ∨ ∃ x y, b = Some x ∧ o = Some y ∧
       stale c decision x = true ∧ stale c decision y = true).
Proof using Hc config_pattern sha_pattern.
  intros Hnd Hl Hsym Hw Hd b o Hr. unfold cross_of_candidates. cbv zeta.
  assert (∀ e x, (select_snapshot l e decision).1 = Some x →
    x ∈ l ∧ fs_exchange x = e ∧ source_ok x ∧ fs_decision_timestamp x ≤ decision) as Hsel
    by (intros; by apply select_ok).
  assert (∀ e, opt_ok decision (select_snapshot l e decision).1) as Hok.
  { intros e x Hx. by destruct (Hsel e x Hx) as (_ & _ & (? & _) & ?). }
  destruct (align_spec c Hc b o decision _ _ Hd (Hok _) (Hok _) (select_selected l BINANCE decision)
    (select_selected l OKX decision)) as (a & Ea & Hq & S1 & S2 & S3 & Hfrom).
  fold b o. rewrite Ea. cbn [mbind res_bind]. unfold validate_lead_lag. cbn [lead_lag_alignment_quality].
  rewrite in_range_ok, finite_fields_ok by (try done; rewrite Forall_cons, Forall_nil; by destruct Hq).
  cbn [mbind res_bind]. set (ll := Build_LeadLagResearchFeatureValues _ _ _ _ _).
  assert (∀ x y, b = Some x → o = Some y → feature_snapshot_id x ≠ feature_snapshot_id y) as Hids.
  { intros x y Hx Hy E. destruct (Hsel _ _ Hx) as (Ix & Ex & _), (Hsel _ _ Hy) as (Iy & Ey & _).
    assert (x = y) by by apply (same_id l). congruence. }
  case_bool_decide as Hu.
  - destruct (mk_cross_snapshot_run sym decision w b o a ll None Hsym Hw (Hok _) (Hok _) Hids Hfrom)
      as (s & Es & Hv & ? & ? & _ & H1 & H2 & H3).
    { split; [done|]. rewrite S3, Hu. by intros. }
    exists s. rewrite <- S2, <- S1. by split_and!.
  - destruct b as [x|] eqn:Eb; [|by destruct Hu; apply S1; left].
    destruct o as [y|] eqn:Eo; [|by destruct Hu; apply S1; right; left].
    destruct (Hsel _ _ Eb) as (_ & _ & (_ & Mx & Cx) & _), (Hsel _ _ Eo) as (_ & _ & (_ & My & Cy) & _).
    destruct (pair_features_run l x y decision w a Mx My (Hr _ _ eq_refl eq_refl) Cx Cy Hq)
      as (f & Ef & Hff).
    { intros (? & ? & [= <-] & [= <-] & Ux & Uy & _)%S2. unfold usable in *.
      rewrite !andb_true_iff in Ux, Uy. tauto. }
    { done. }
    rewrite Ef. cbn [mbind res_bind].
    destruct (mk_cross_snapshot_run sym decision w (Some x) (Some y) a ll (Some f) Hsym Hw) as
      (s & Es & Hv & ? & ? & _ & H1 & H2 & H3).
    + rewrite <- Eb. apply Hok.
    + rewrite <- Eo. apply Hok.
    + done.
    + done.
    + by split.
    + exists s. rewrite <- S2, <- S1. by split_and!.
Qed.
End result.

Lemma candidates_ids l sym w :
  NoDup (map feature_snapshot_id l) → NoDup (map feature_snapshot_id (candidates_of l sym w)).
Proof.
  intros Hn. unfold candidates_of. rewrite py_sorted_perm.
  induction l as [|x l IH]; simpl in *; [done|]. apply NoDup_cons in Hn as [Hx Hn].
  destruct (relevant sym w x); simpl; [|auto]. constructor; [|auto].
  intros (y & E & [Hy _]%filter_elem)%list_elem_of_fmap. apply Hx. rewrite E. by apply list_elem_of_fmap_2.
Qed.

(** The same as a lemma for what composes with it. *)
Lemma calculate_run c history_sha256 feature_id config_hash l sym decision w :
  let cs := candidates_of l sym w in
  let b := (select_snapshot cs BINANCE decision).1 in
  let o := (select_snapshot cs OKX decision).1 in
  cross_settings_valid c →
  (∀ items, sha256_pattern (history_sha256 items) = true) → sha256_pattern config_hash = true →
  NoDup (map feature_snapshot_id l) → Forall source_ok l →
  concrete_symbol sym → w ∈ feature_windows_seconds c → in_calendar decision →
  (∀ x y, b = Some x → o = Some y → spread_in_range c history_sha256 cs x y decision w = true) →
  ∃ s, calculate c history_sha256 feature_id config_hash l sym (utc decision) w = Ok s ∧
    validate_cross_snapshot s = Ok s ∧ fs_symbol_of s = sym ∧ cvs_decision_timestamp s = decision ∧
    (cvs_is_healthy s = true ↔ ∃ x y, b = Some x ∧ o = Some y ∧
       usable c decision x = true ∧ usable c decision y = true ∧ apart c x y = false) ∧
    (cvs_unavailable_reasons s = [] ↔ cvs_is_warm s = true ∧ cvs_is_healthy s = true) ∧
    (no_groups s = true ↔ b = None ∨ o = None ∨ ∃ x y, b = Some x ∧ o = Some y ∧
       stale c decision x = true ∧ stale c decision y = true).
Proof.
  intros cs b o Hc Hsha Hconf Hnd Hl Hsym Hw Hd Hr. unfold calculate. rewrite as_utc_utc.
  cbn [mbind res_bind]. rewrite bool_decide_true by done. cbn [require mbind res_bind].
  apply cross_run; try done.
  - by apply candidates_ids.
  - rewrite Forall_forall in *. intros s [Hs _]%candidates_of_elem. auto.
  - destruct Hc as [Hws _ _ _]. rewrite Forall_forall in Hws. by apply Hws.
Qed.


(** The confirmation score is the number of agreeing comparisons less the number of
    diverging ones over the number made, correctly rounded, and the penalty the share
    of diverging ones; neither exists when no comparison could be made.  Their
    validators never reject them. *)
Theorem confirmation_exact p o pos q :
  fbetween f0 f1 q →
  ∃ v, confirmation_features p o pos q = Ok v ∧ conf_alignment_quality v = q ∧
    let votes_cast := confirmation_values p o pos in
    let n := Z.of_nat (length votes_cast) in
    cross_venue_confirmation v =
      (if n =? 0 then None else Some (float_of_ratio (votes f1 votes_cast - votes fm1 votes_cast) n)) ∧
    divergence_penalty_input v = (if n =? 0 then None else Some (float_of_ratio (votes fm1 votes_cast) n)).
Proof. apply confirmation_run. Qed.

(** ** A pair with its history *)

Definition demo_settings : CrossVenueSettings :=
  {| cvc_strategy_version := "0.2.1"; cvc_code_version := "0.1.0";
     canonical_symbols := ["BTC-USDT-PERP"%string]; feature_windows_seconds := [5];
     zscore_lookback_seconds := 60; abnormal_jump_zscore := float_of_int 4;
     cross_venue_max_snapshot_age_ms := 2000; cross_venue_max_time_difference_ms := 500;
     cross_venue_zscore_minimum_samples := 2;
     cross_venue_direction_epsilon := float_of_decimal (Dec 1 (-12));
     cross_venue_strength_tolerance := float_of_decimal (Dec 25 (-2)) |}.

Definition now : Z := seconds 1700000000.

(** Warm and healthy, with the given mid price and order flow. *)
Definition demo_source (e : Exchange) (t : Z) (id : string) (mid : Z) (ofi : option float)
    : FeatureSnapshot :=
  {| fs_meta := {| exchange := e; symbol := "BTC-USDT-PERP"; exchange_timestamp := t;
                   local_receive_timestamp := t; normalization_timestamp := t;
                   sequence_id := None; raw_payload_reference := None |};
     feature_snapshot_id := id; fs_strategy_version := "0.2.1"; fs_calculation_timestamp := t;
     fs_decision_timestamp := t; fs_window_seconds := 5; fs_book_generation := 1;
     source_sequence_id := None; source_event_count := 1; oldest_source_timestamp := Some t;
     newest_source_timestamp := Some t; fs_data_age_ms := Some f0; fs_is_warm := true;
     fs_is_healthy := true; fs_unavailable_reasons := [];
     fs_trade_flow := Some
       {| aggressive_buy_notional := None; aggressive_sell_notional := None;
          taker_imbalance := Some f1; taker_imbalance_zscore := None; trade_notional_impulse := None;
          trade_count_impulse := None; average_trade_notional := None; large_trade_share := None |};
     fs_order_book := Some
       {| weighted_bid_depth := None; weighted_ask_depth := None; bid_liquidity_change := None;
          ask_liquidity_change := None; added_liquidity_quantity := Some (of_int 10);
          removed_liquidity_quantity := Some (of_int 4);
          liquidity_recovery_quantity_per_second := None; depth_imbalance := None; spread := None;
          relative_spread := None; book_mid_price := Some (of_int mid); microprice := None;
          buy_slippage_bps := None; sell_slippage_bps := None; book_order_flow_imbalance := ofi;
          order_flow_imbalance_zscore := None |};
     fs_price := Some
       {| return_value := Some f1; impulse_zscore := None; realized_volatility := None;
          atr_1m := None; trailing_high := None; trailing_low := None; recent_move_atr := None;
          abnormal_jump := None |};
     fs_open_interest := Some
       {| oi_value_change := None; percentage_change := Some fm1; oi_zscore := None;
          oi_data_age_ms := None; price_oi_state := Some PRICE_UP_OI_DOWN |};
     fs_crowding := Some
       {| crowding_funding_rate := Some (Dec 1 (-3)); funding_zscore := None;
          mark_index_premium := None; premium_zscore := None; taker_bias := None;
          joint_state := Some CROWDED_LONG |};
     fs_liquidation := None |}.

Definition demo_sources (ofi : option float) : list FeatureSnapshot :=
  [demo_source OKX now "f6" 100 ofi; demo_source BINANCE (now - seconds 2) "a1" 100 (Some f1);
   demo_source OKX (now - seconds 2) "b2" 100 (Some f1);
   demo_source BINANCE (now - seconds 1) "c3" 102 (Some f1);
   demo_source OKX (now - seconds 1) "d4" 100 (Some f1); demo_source BINANCE now "e5" 104 (Some f1);
   demo_source OKX (now + seconds 1) "07" 1 (Some f1)].

Definition demo_sha (items : list HistoryItem) : string :=
  "0123456789abcdef0123456789abcdef0123456789abcdef0123456789abcdef".
Definition demo_id (i : CrossIdentity) : UUID := "00000000000000000000000000000000".
Definition demo_calculate (l : list FeatureSnapshot) : res CrossVenueFeatureSnapshot :=
  calculate demo_settings demo_sha demo_id (demo_sha []) l "BTC-USDT-PERP" (utc now) 5.

(** Warm and healthy, and confirmed by price, flow and crowding. *)
Example demo_snapshot :
  (s ← demo_calculate (demo_sources (Some f1));
   Ok (cvs_is_warm s, cvs_is_healthy s, source_snapshot_ids s, spread_history_pair_count s,
       cvs_confirmation s ≫= cross_venue_confirmation)) =
  Ok (true, true, ["e5"; "f6"]%string, 2, Some f1).
Proof. by vm_compute. Qed.

(** A missing input of a warm and healthy snapshot, once the z-score is available, is
    reported in a snapshot that is warm and healthy: its validator raises. *)
Example incomplete_pair_raises :
  demo_calculate (demo_sources None) =
  Err (ValueError "available cross-venue snapshots cannot have unavailable reasons").
Proof. by vm_compute. Qed.

(** An age of exactly the limit can be rounded above it: 2007 milliseconds. *)
Example age_rounding :
  exceeds (source_age_ms now (Some (now - milliseconds 2007))) 2007 = true ∧
  exceeds (source_age_ms now (Some (now - milliseconds 2000))) 2000 = false.
Proof. by vm_compute. Qed.

Lemma demo_settings_valid : cross_settings_valid demo_settings.
Proof. split; simpl; [by repeat constructor|lia..]. Qed.

Lemma demo_source_ok e t id mid : in_calendar t → source_ok (demo_source e t id mid (Some f1)).
Proof.
  intros Ht. split; [split|split].
  - unfold validate_feature_snapshot. cbn. by rewrite Z.ltb_irrefl, Z.leb_refl.
  - by intros ? [= <-].
  - unfold floats_moderate, compared_floats. cbn. by rewrite !Forall_cons, Forall_nil.
  - done.
Qed.

Lemma demo_sources_ok : Forall source_ok (demo_sources (Some f1)).
Proof.
  unfold demo_sources. rewrite !Forall_cons, Forall_nil.
  assert (∀ d, -2000000 ≤ d ≤ 1000000 → in_calendar (now + d)) as Hd
    by (intros d; unfold in_calendar, now, min_datetime, max_datetime, seconds; lia).
  split_and!; try done; apply demo_source_ok.
  all: first [apply (Hd 0)|apply (Hd (-2000000))|apply (Hd (-1000000))|apply (Hd 1000000)]; done.
Qed.

Lemma demo_ids : NoDup (map feature_snapshot_id (demo_sources (Some f1))).
Proof. apply (bool_decide_unpack _). by vm_compute. Qed.

Lemma demo_symbol : concrete_symbol "BTC-USDT-PERP".
Proof. split; [done|by vm_compute]. Qed.

Definition demo_candidates : list FeatureSnapshot :=
  candidates_of (demo_sources (Some f1)) "BTC-USDT-PERP" 5.

Lemma demo_selected_binance :
  (select_snapshot demo_candidates BINANCE now).1 = Some (demo_source BINANCE now "e5" 104 (Some f1)).
Proof. by vm_compute. Qed.
Lemma demo_selected_okx :
  (select_snapshot demo_candidates OKX now).1 = Some (demo_source OKX now "f6" 100 (Some f1)).
Proof. by vm_compute. Qed.


Lemma alignment_exact_witness :
  let b := demo_source BINANCE now "e5" 104 (Some f1) in
  ∃ a, align demo_settings (Some b) None now [None; Some (missing_reason OKX)] = Ok a ∧
    fbetween f0 f1 (quality a).
Proof.
  intros b. assert (in_calendar now) as Hn
    by (unfold in_calendar, now, min_datetime, max_datetime, seconds; lia).
  destruct (alignment_exact demo_settings (Some b) None now None (Some (missing_reason OKX)))
    as (a & Ha & Hq & _).
  - exact demo_settings_valid.
  - exact Hn.
  - intros x [= <-]. split; [by apply demo_source_ok|reflexivity].
  - by intros x.
  - by split; [|eexists].
  - split; [by intros []|done].
  - by exists a.
Defined.

Definition demo_price : CrossVenuePriceFeatureValues :=
  {| binance_mid_price := None; okx_mid_price := None; mid_price_difference := None;
     mid_price_absolute_spread := None; percentage_spread_denominator := None;
     mid_price_percentage_spread := None; mid_price_spread_zscore := None;
     return_direction_agreement := DirectionAgreement_BOTH_POSITIVE;
     price_impulse_direction_agreement := DirectionAgreement_DIVERGENT;
     price_impulse_strength_difference := None; realized_volatility_difference := None;
     relative_spread_divergence := None |}.
Definition demo_flow : CrossVenueOrderFlowFeatureValues :=
  {| taker_flow_direction_agreement := DirectionAgreement_BOTH_FLAT;
     taker_imbalance_difference := None;
     taker_imbalance_strength_agreement := StrengthAgreement_UNAVAILABLE;
     ofi_direction_agreement := DirectionAgreement_UNAVAILABLE; ofi_difference := None;
     depth_imbalance_difference := None; liquidity_addition_difference := None;
     liquidity_removal_difference := None; order_book_recovery_speed_difference := None;
     liquidity_divergence_status := LiquidityDivergenceStatus_UNAVAILABLE |}.
Definition demo_positioning : CrossVenuePositioningFeatureValues :=
  {| price_oi_state_agreement := ContextAgreement_MATCHED;
     binance_oi_change_direction := DirectionState_FLAT;
     okx_oi_change_direction := DirectionState_FLAT; oi_context_conflict := None;
     funding_direction_agreement := DirectionAgreement_UNAVAILABLE;
     binance_funding_abnormality := None; okx_funding_abnormality := None;
     funding_abnormality_difference := None; mark_index_premium_difference := None;
     crowding_direction_agreement := CrowdingAgreement_UNAVAILABLE;
     one_sided_crowding_unconfirmed := None;
     liquidation_activity_agreement := ActivityAgreement_UNAVAILABLE |}.

Lemma confirmation_exact_witness :
  fbetween f0 f1 f1 ∧ ∃ v, confirmation_features demo_price demo_flow demo_positioning f1 = Ok v ∧
    cross_venue_confirmation v = Some (float_of_ratio 1 4).
Proof.
  assert (fbetween f0 f1 f1) as Hq by by repeat split.
  split; [exact Hq|].
  destruct (confirmation_exact demo_price demo_flow demo_positioning f1 Hq) as (v & Hv & _ & Hc & _).
  exists v. split; [exact Hv|]. rewrite Hc. by vm_compute.
Defined.

(** The same present in another order, and another future. *)
Definition reordered_sources : list FeatureSnapshot :=
  rev (take 6 (demo_sources (Some f1))) ++ [demo_source BINANCE (now + seconds 9) "08" 7 (Some f1)].

Definition venue_seen (l : list FeatureSnapshot) (e : Exchange) : bool :=
  existsb (λ s, relevant "BTC-USDT-PERP" 5 s && of_venue e s) l.

Lemma venue_seen_spec l e :
  (∃ s, s ∈ l ∧ relevant "BTC-USDT-PERP" 5 s = true ∧ fs_exchange s = e) ↔ venue_seen l e = true.
Proof.
  unfold venue_seen. rewrite existsb_exists. unfold of_venue.
  split; intros (s & Hs & H); exists s; rewrite list_elem_of_In, andb_true_iff, bool_decide_eq_true in *; auto.
Qed.

Lemma cross_venue_no_lookahead_witness :
  demo_calculate (demo_sources (Some f1)) = demo_calculate reordered_sources.
Proof.
  apply (cross_venue_no_lookahead demo_settings demo_sha demo_id (demo_sha []) (demo_sources (Some f1))
    reordered_sources "BTC-USDT-PERP" now 5).
  - exact demo_ids.
  - apply (bool_decide_unpack _). by vm_compute.
  - split; [|intros e; rewrite !venue_seen_spec; by destruct e; vm_compute].
    intros s _ Hs. unfold reordered_sources.
    rewrite <- (take_drop 6 (demo_sources (Some f1))) at 1. rewrite !elem_of_app.
    assert (s ∈ rev (take 6 (demo_sources (Some f1))) ↔ s ∈ take 6 (demo_sources (Some f1))) as ->.
    { rewrite !list_elem_of_In. symmetry. apply in_rev. }
    split; (intros [H|H]; [by left|]); simpl in H; apply list_elem_of_singleton in H as ->;
      simpl in Hs; unfold seconds in Hs; lia.
Defined.
