(* ===== verification/MetricHistory.v ===== *)
(** * Metric histories

    [features/single_venue.py: _MetricHistory]: a bounded window of past values per
    metric key, the z-score of a new value against them, and the last answer of each
    key.  A method may raise after it has changed the object, as in [Effects]. *)

From S2P Require Import Prelude Effects PyFloat PyTime FloatRange Rolling.
Open Scope Z_scope.

(** The tuple of [_last]: the value recorded at an instant and the answer given. *)
Record CachedMetric := {
  cm_timestamp : Z;
  cm_value : option float;
  cm_zscore : option float;
  cm_ready : bool }.

Record MetricHistory := {
  mh_retention : Z;
  mh_maximum_items : Z;
  mh_windows : list (string * BoundedTimeWindow float);
  mh_last : list (string * CachedMetric) }.

Definition metric_init (zscore_lookback_seconds maximum_events_per_stream : Z) : MetricHistory :=
  {| mh_retention := seconds zscore_lookback_seconds;
     mh_maximum_items := maximum_events_per_stream; mh_windows := []; mh_last := [] |}.

Definition new_metric_window (h : MetricHistory) : res (BoundedTimeWindow float) :=
  window_init (mh_retention h) (mh_maximum_items h) DROP 0.

Definition clear_scope (scope_prefix : string) (h : MetricHistory) : MetricHistory :=
  {| h with
     mh_windows := List.filter (λ x, negb (String.prefix scope_prefix x.1)) (mh_windows h);
     mh_last := List.filter (λ x, negb (String.prefix scope_prefix x.1)) (mh_last h) |}.

(** [a == b] on [float | None]. *)
Definition opt_feqb (a b : option float) : bool :=
  match a, b with
  | None, None => true
  | Some x, Some y => feqb x y
  | _, _ => false
  end.

(** [pstdev] computes with fractions, which an infinity or a NaN does not become:
    it then takes the [numerator] of a float. *)
Definition pstdev_of (l : list float) : res float :=
  _ ← require (forallb is_finite l) AttributeError; Ok (pstdev l).

Definition zscore_of (history : list float) (value : option float) : res (option float) :=
  match value with
  | Some v =>
    if (2 <=? length history)%nat then
      deviation ← pstdev_of history;
      if fltb f0 deviation then
        mean ← fmean history; z ← fdiv (fsub v mean) deviation; Ok (Some z)
      else Ok None
    else Ok None
  | None => Ok None
  end.

Abbreviation HM := (M MetricHistory).

Definition set_window (key : string) (w : BoundedTimeWindow float) : HM unit :=
  modifyM (λ h, {| h with mh_windows := dict_set key w (mh_windows h) |}).

Fixpoint append_all (w : BoundedTimeWindow float) (l : list (TimedValue float))
    : res (BoundedTimeWindow float) :=
  match l with
  | [] => Ok w
  | x :: l => a ← append w (utc (tv_timestamp x)) (tv_value x); append_all a.1 l
  end.

Definition window_items (key : string) (h : MetricHistory) : list (TimedValue float) :=
  match dict_get key (mh_windows h) with Some w => w_items w | None => [] end.

(** A value replaced at its instant: the window is filled again without the instant. *)
Definition forget_instant (key : string) (timestamp : Z) : HM unit :=
  h ← getM;
  retained ← liftM (new_metric_window h);
  retained ← liftM (append_all retained
    (List.filter (λ x, negb (tv_timestamp x =? timestamp)) (window_items key h)));
  set_window key retained.

(** [bool(window) and next(iter(window)).timestamp <= timestamp - retention]. *)
Definition coverage (retention timestamp : Z) (window : BoundedTimeWindow float) : bool :=
  match earliest window with
  | Some x => tv_timestamp x <=? timestamp - retention
  | None => false
  end.

(** [record] after the cached answers. *)
Definition measure_metric (key : string) (timestamp : Z) (value : option float)
    : HM (option float * bool) :=
  h ← getM;
  fresh ← liftM (new_metric_window h);
  let window := default fresh (dict_get key (mh_windows h)) in
  _ ← set_window key window;
  let coverage_warm := coverage (mh_retention h) timestamp window in
  zscore ← liftM (zscore_of (map tv_value (w_items window)) value);
  _ ← match value with
      | Some v => a ← liftM (append window (utc timestamp) v); set_window key a.1
      | None => mret tt
      end;
  let zscore_ready := coverage_warm && negb (is_none zscore) in
  _ ← modifyM (λ h, {| h with mh_last := dict_set key
        {| cm_timestamp := timestamp; cm_value := value; cm_zscore := zscore;
           cm_ready := zscore_ready |} (mh_last h) |});
  mret (zscore, zscore_ready).

Definition record (key : string) (timestamp : Z) (value : option float)
    : HM (option float * bool) :=
  h ← getM;
  match dict_get key (mh_last h) with
  | Some cached =>
    if cm_timestamp cached =? timestamp then
      if opt_feqb (cm_value cached) value then mret (cm_zscore cached, cm_ready cached)
      else _ ← forget_instant key timestamp; measure_metric key timestamp value
    else measure_metric key timestamp value
  | None => measure_metric key timestamp value
  end.

(** ** The samples of a key

    [log key ops]: what was recorded under [key] since its scope was last cleared, a
    repetition of the newest entry left out. *)

Inductive metric_op :=
| MRecord (key : string) (timestamp : Z) (value : option float)
| MClear (scope_prefix : string).

Definition metric_step (op : metric_op) (h : MetricHistory) : MetricHistory :=
  match op with
  | MRecord key t v => (record key t v h).1
  | MClear scope => clear_scope scope h
  end.
Definition metric_run (ops : list metric_op) (h : MetricHistory) : MetricHistory :=
  foldl (λ h op, metric_step op h) h ops.

Abbreviation entry := (Z * option float)%type.
Implicit Types (L : list entry) (key : string).

(** [(t, v)] is what [L] ends in. *)
Definition repeats L (t : Z) (v : option float) : bool :=
  match last L with Some (t', v') => (t' =? t) && opt_feqb v' v | None => false end.

Definition log_step key L (op : metric_op) : list entry :=
  match op with
  | MRecord k t v => if bool_decide (k = key) && negb (repeats L t v) then L ++ [(t, v)] else L
  | MClear scope => if String.prefix scope key then [] else L
  end.
Definition log key (ops : list metric_op) : list entry := foldl (log_step key) [] ops.

(** The present values. *)
Definition samples L : list (Z * float) := omap (λ e : entry, pair e.1 <$> e.2) L.

Definition retained_samples (retention maxi : Z) L : list (Z * float) :=
  match last (samples L) with
  | None => []
  | Some newest => lastn (Z.to_nat maxi) (filter (λ s, newest.1 - retention < s.1) (samples L))
  end.

(** The z-score of [v] against the retained samples, ready when the oldest of them
    is a lookback before [t]. *)
Definition metric_answer (retention maxi : Z) L (t : Z) (v : option float) : option float * bool :=
  let kept := retained_samples retention maxi L in
  let z := match zscore_of (map snd kept) v with Ok z => z | Err _ => None end in
  (z, match kept with s :: _ => s.1 <=? t - retention | [] => false end && negb (is_none z)).

(** A key's instants go forward, or repeat the newest entry; values are finite. *)
Definition orderly_op (past : list metric_op) (op : metric_op) : Prop :=
  match op with
  | MRecord key t v =>
    match v with Some f => is_finite f = true | None => True end ∧
    (repeats (log key past) t v = false → ∀ e, last (log key past) = Some e → e.1 < t)
  | MClear _ => True
  end.
Fixpoint orderly (past ops : list metric_op) : Prop :=
  match ops with
  | [] => True
  | op :: ops => orderly_op past op ∧ orderly (past ++ [op]) ops
  end.

Definition sample_of (x : TimedValue float) : Z * float := (tv_timestamp x, tv_value x).

(** What a history holds of one key. *)
Record window_tracks (h : MetricHistory) L (w : BoundedTimeWindow float) (hs : history) : Prop := {
  wt_refines : window_refines w hs;
  wt_events : map sample_of (h_events hs) = samples L;
  wt_newest : h_newest hs = fst <$> last (samples L);
  wt_policy : late_event_policy w = DROP;
  wt_retention : retention w = mh_retention h;
  wt_maximum : maximum_items w = mh_maximum_items h }.

Definition last_tracks (h : MetricHistory) L (c : CachedMetric) : Prop :=
  ∃ past, L = past ++ [(cm_timestamp c, cm_value c)] ∧
    (cm_zscore c, cm_ready c) =
      metric_answer (mh_retention h) (mh_maximum_items h) past (cm_timestamp c) (cm_value c).

Record tracks (h : MetricHistory) key L : Prop := {
  tr_window : match dict_get key (mh_windows h) with
              | Some w => ∃ hs, window_tracks h L w hs
              | None => L = []
              end;
  tr_last : match dict_get key (mh_last h) with
            | Some c => last_tracks h L c
            | None => L = []
            end;
  tr_sorted : StronglySorted Z.lt (map fst L);
  tr_finite : Forall (λ s, is_finite s.2 = true) (samples L) }.

(** ** The answers *)

Lemma dict_get_filter_key {V} (p : string → bool) key (d : list (string * V)) :
  dict_get key (List.filter (λ x, p x.1) d) = if p key then dict_get key d else None.
Proof.
  induction d as [|[k v] d IH]; simpl; [by destruct (p key)|].
  destruct (pyeq key k) eqn:E.
  - apply bool_decide_eq_true in E as <-. destruct (p key) eqn:Ep; simpl; [|done].
    by rewrite pyeq_refl.
  - destruct (p k); simpl; rewrite ?E, IH; done.
Qed.

Lemma fltb_f0_fdiv x y : fltb f0 y = true → ∃ z, fdiv x y = Ok z.
Proof. destruct y as [s|s| |s m e]; try by destruct s. all: unfold fdiv; eauto. Qed.

Lemma zscore_of_ok l v : Forall (λ f, is_finite f = true) l → ∃ z, zscore_of l v = Ok z.
Proof.
  intros Hl. unfold zscore_of. destruct v as [v|]; [|eauto].
  destruct (Nat.leb_spec 2 (length l)); [|eauto].
  unfold pstdev_of. replace (forallb is_finite l) with true.
  2: { symmetry. apply forallb_forall. intros x Hx. rewrite Forall_forall in Hl. by apply Hl, list_elem_of_In. }
  cbn [mbind res_bind require]. destruct (fltb f0 (pstdev l)) eqn:E; [|eauto].
  destruct (fdiv_int_ok (fsum l) (Z.of_nat (length l))) as [m Hm]; [lia|].
  unfold fmean. rewrite Hm. cbn [mbind res_bind].
  destruct (fltb_f0_fdiv (fsub v m) _ E) as [z ->]. cbn [mbind res_bind]. eauto.
Qed.

Lemma samples_app L1 L2 : samples (L1 ++ L2) = samples L1 ++ samples L2.
Proof. unfold samples. by rewrite omap_app. Qed.

Lemma samples_times L s : s ∈ samples L → s.1 ∈ map fst L.
Proof.
  unfold samples. rewrite list_elem_of_omap. intros ([t v] & Hin & E). apply list_elem_of_fmap.
  exists (t, v). split; [|done]. destruct v; simpl in E; [|done]. by injection E as <-.
Qed.

Lemma map_lastn {A B} (f : A → B) n l : map f (lastn n l) = lastn n (map f l).
Proof. unfold lastn. by rewrite length_map, skipn_map. Qed.

Lemma window_samples h L w hs :
  window_tracks h L w hs →
  map sample_of (w_items w) = retained_samples (mh_retention h) (mh_maximum_items h) L.
Proof.
  intros [Hr He Hn _ Hret Hm]. rewrite (wr_items _ _ Hr). unfold window_contents, retained_samples.
  rewrite map_lastn, Hm, Hret, Hn. destruct (last (samples L)) as [s|] eqn:E; simpl.
  - f_equal. rewrite <- He. generalize (h_events hs). intros l.
    induction l as [|x l IH]; [done|]. rewrite filter_cons. simpl. rewrite filter_cons.
    change (sample_of x).1 with (tv_timestamp x).
    destruct (decide (s.1 - mh_retention h < tv_timestamp x)); simpl; by rewrite <- IH.
  - apply last_None in E. rewrite E in He. apply map_eq_nil in He. by rewrite He, filter_nil.
Qed.

Lemma coverage_samples h L w hs t :
  window_tracks h L w hs →
  coverage (mh_retention h) t w =
    match retained_samples (mh_retention h) (mh_maximum_items h) L with
    | s :: _ => s.1 <=? t - mh_retention h
    | [] => false
    end.
Proof. intros H. rewrite <- (window_samples h L w hs H). unfold coverage, earliest. by destruct (w_items w). Qed.

Lemma window_values h L w hs :
  window_tracks h L w hs →
  map tv_value (w_items w) = map snd (retained_samples (mh_retention h) (mh_maximum_items h) L).
Proof. intros H. rewrite <- (window_samples h L w hs H), map_map. done. Qed.

Lemma retained_sub ret maxi L s : s ∈ retained_samples ret maxi L → s ∈ samples L.
Proof.
  unfold retained_samples. destruct (last _); [|by intros ?%elem_of_nil].
  intros Hs. eapply elem_of_sublist in Hs; [|apply lastn_sublist].
  by apply list_elem_of_filter in Hs as [_ ?].
Qed.

(** One more sample. *)
Lemma window_tracks_append h L w hs t v :
  window_tracks h L w hs → (∀ s, s ∈ samples L → s.1 < t) →
  ∃ w' st hs', append w (utc t) v = Ok (w', st) ∧
    window_tracks h (L ++ [(t, Some v)]) w' hs'.
Proof.
  intros [Hr He Hn Hp Hret Hm] Hlt. unfold append, window_utc. rewrite as_utc_utc. cbn [mbind res_bind].
  pose proof (window_step_refines w hs (OpAppend t v) Hr) as Hstep. simpl in Hstep.
  destruct (append_at w t v) as [w' st]. exists w', st.
  assert (∀ s, last (samples L) = Some s → s.1 < t) as Hlast.
  { intros s Hs. by apply Hlt, last_Some_elem_of. }
  assert (spec_status (late_event_policy w) (retention w) (maximum_lateness w) (h_newest hs) t = ACCEPTED) as Hst.
  { unfold spec_status. rewrite Hn. destruct (last (samples L)) as [s|]; simpl; [|done].
    specialize (Hlast s eq_refl). destruct (Z.leb_spec s.1 t); [done|lia]. }
  rewrite Hst in Hstep. destruct Hstep as (_ & Hr' & Hp' & Hret' & Hm' & _).
  eexists. split; [done|]. split; [exact Hr'|..]; simpl; try congruence.
  - rewrite samples_app. simpl. rewrite <- He. rewrite spec_insert_append; [by rewrite map_app|].
    intros y Hy. simpl. assert (sample_of y ∈ samples L) as Hin by (rewrite <- He; by apply list_elem_of_fmap_2).
    specialize (Hlt _ Hin). unfold sample_of in Hlt. simpl in Hlt. lia.
  - rewrite samples_app. simpl. rewrite last_snoc, Hn. simpl.
    destruct (last (samples L)) as [s|]; simpl; [|done].
    specialize (Hlast s eq_refl). by rewrite Z.max_r by lia.
Qed.

Lemma window_tracks_none h L w hs t :
  window_tracks h L w hs → window_tracks h (L ++ [(t, None)]) w hs.
Proof.
  intros [Hr He Hn Hp Hret Hm].
  assert (samples (L ++ [(t, None)]) = samples L) as E by (rewrite samples_app; apply app_nil_r).
  split; by rewrite ?E.
Qed.

Lemma tracks_extends h key L t :
  tracks h key L → (∀ e, last L = Some e → e.1 < t) → ∀ s, s ∈ samples L → s.1 < t.
Proof.
  intros [_ _ Hs _] Hlast s Hin. apply samples_times in Hin.
  destruct (last L) as [e|] eqn:E.
  - apply last_snoc_inv in E as [L' ->]. specialize (Hlast e eq_refl).
    rewrite map_app in Hs, Hin. apply StronglySorted_app_inv in Hs as (_ & _ & Hlt).
    apply elem_of_app in Hin as [Hin|Hin].
    + specialize (Hlt s.1 e.1 Hin). simpl in Hlt. rewrite list_elem_of_singleton in Hlt. specialize (Hlt eq_refl). lia.
    + simpl in Hin. apply list_elem_of_singleton in Hin. lia.
  - apply last_None in E. subst. by apply elem_of_nil in Hin.
Qed.

(** What a step leaves alone. *)
Definition same_key (h h' : MetricHistory) key : Prop :=
  dict_get key (mh_windows h') = dict_get key (mh_windows h) ∧
  dict_get key (mh_last h') = dict_get key (mh_last h) ∧
  mh_retention h' = mh_retention h ∧ mh_maximum_items h' = mh_maximum_items h.

Lemma tracks_same h h' key L : same_key h h' key → tracks h key L → tracks h' key L.
Proof.
  intros (Hw & Hl & Hr & Hm) [Tw Tl Ts Tf]. split; [| |exact Ts|exact Tf].
  - rewrite Hw. destruct (dict_get key (mh_windows h)) as [w|]; [|done].
    destruct Tw as [hs [? ? ? ? ? ?]]. exists hs. split; congruence.
  - rewrite Hl. destruct (dict_get key (mh_last h)) as [c|]; [|done].
    destruct Tl as (past & -> & E). exists past. by rewrite Hr, Hm.
Qed.

Definition history_valid (h : MetricHistory) : Prop :=
  0 < mh_retention h ∧ 1 ≤ mh_maximum_items h.

Lemma new_window_tracks h :
  history_valid h → ∃ w hs, new_metric_window h = Ok w ∧ window_tracks h [] w hs.
Proof.
  intros [Hr Hm]. unfold new_metric_window.
  destruct (window_init (mh_retention h) (mh_maximum_items h) DROP 0) as [w|e] eqn:E.
  - apply window_init_refines in E as (Href & E1 & E2 & E3 & _). exists w, empty_history. by split.
  - exfalso. unfold window_init in E. by destruct (Z.leb_spec (mh_retention h) 0), (Z.ltb_spec (mh_maximum_items h) 1); try lia.
Qed.

Lemma finite_snoc L t v :
  match v with Some f => is_finite f = true | None => True end →
  Forall (λ s, is_finite s.2 = true) (samples L) →
  Forall (λ s, is_finite s.2 = true) (samples (L ++ [(t, v)])).
Proof.
  intros Hv HL. rewrite samples_app. apply Forall_app. split; [done|].
  destruct v as [f|]; constructor; [done|constructor].
Qed.

Lemma sorted_snoc L t (v : option float) :
  StronglySorted Z.lt (map fst L) → (∀ e, last L = Some e → e.1 < t) →
  StronglySorted Z.lt (map fst (L ++ [(t, v)])).
Proof.
  intros Hs Hlast. rewrite map_app. apply StronglySorted_app; [done|by repeat constructor|].
  simpl. intros x y Hx ->%list_elem_of_singleton. destruct (last L) as [e|] eqn:E.
  - apply last_snoc_inv in E as [L' ->]. specialize (Hlast e eq_refl). rewrite map_app in Hs, Hx.
    apply StronglySorted_app_inv in Hs as (_ & _ & Hlt). apply elem_of_app in Hx as [Hx|Hx].
    + specialize (Hlt x e.1 Hx ltac:(by left)). lia.
    + apply list_elem_of_singleton in Hx. lia.
  - apply last_None in E. subst. by apply elem_of_nil in Hx.
Qed.

Lemma dict_set_twice {V} key (v v' : V) d : dict_set key v' (dict_set key v d) = dict_set key v' d.
Proof.
  induction d as [|[k x] d IH]; simpl; [by rewrite pyeq_refl|].
  destruct (pyeq key k) eqn:E; simpl; rewrite E; [done|by rewrite IH].
Qed.

(** The state [measure_metric] leaves. *)
Lemma stored_tracks h key L c w hs :
  tracks h key L → window_tracks h (L ++ [(cm_timestamp c, cm_value c)]) w hs →
  (∀ e, last L = Some e → e.1 < cm_timestamp c) →
  match cm_value c with Some f => is_finite f = true | None => True end →
  (cm_zscore c, cm_ready c) =
    metric_answer (mh_retention h) (mh_maximum_items h) L (cm_timestamp c) (cm_value c) →
  let h' := {| mh_retention := mh_retention h; mh_maximum_items := mh_maximum_items h;
               mh_windows := dict_set key w (mh_windows h);
               mh_last := dict_set key c (mh_last h) |} in
  tracks h' key (L ++ [(cm_timestamp c, cm_value c)]) ∧ ∀ k, k ≠ key → same_key h h' k.
Proof.
  intros [Tw Tl Ts Tf] Hw Hlast Hv Hc h'. split.
  - split; simpl.
    + rewrite dict_get_set_eq by apply pyeq_refl. exists hs. by destruct Hw.
    + rewrite dict_get_set_eq by apply pyeq_refl. by exists L.
    + by apply sorted_snoc.
    + by apply finite_snoc.
  - intros k Hk. unfold same_key. simpl. by rewrite !dict_get_set_ne by by apply bool_decide_eq_false.
Qed.

(** A new instant. *)
Lemma measure_metric_spec h key L t v :
  history_valid h → tracks h key L → (∀ e, last L = Some e → e.1 < t) →
  match v with Some f => is_finite f = true | None => True end →
  ∃ h', measure_metric key t v h =
          (h', Ok (metric_answer (mh_retention h) (mh_maximum_items h) L t v)) ∧
    tracks h' key (L ++ [(t, v)]) ∧ ∀ k, k ≠ key → same_key h h' k.
Proof.
  intros Hh HT Hlast Hv. pose proof HT as [Tw Tl Ts Tf].
  destruct (new_window_tracks h Hh) as (fresh & hs0 & Hfresh & Hf).
  set (window := default fresh (dict_get key (mh_windows h))).
  assert (∃ hs, window_tracks h L window hs) as [hs Hw].
  { subst window. destruct (dict_get key (mh_windows h)); simpl; [done|]. subst L. eauto. }
  destruct (zscore_of_ok (map snd (retained_samples (mh_retention h) (mh_maximum_items h) L)) v) as [z Hz].
  { rewrite Forall_map. eapply Forall_impl; [|intros x Hx; exact Hx].
    apply Forall_forall. intros s Hs%retained_sub. rewrite Forall_forall in Tf. by apply Tf. }
  assert (metric_answer (mh_retention h) (mh_maximum_items h) L t v =
    (z, coverage (mh_retention h) t window && negb (is_none z))) as ->.
  { unfold metric_answer. rewrite Hz, (coverage_samples h L window hs t Hw). done. }
  unfold measure_metric, getM, liftM, set_window, modifyM, mret, M_ret, mbind, M_bind.
  rewrite Hfresh. fold window. cbn [mh_windows mh_last mh_retention mh_maximum_items].
  rewrite (window_values h L window hs Hw), Hz.
  assert (∃ w' hs' a, match v with Some v0 => append window (utc t) v0 | None => Ok (window, a) end = Ok (w', a) ∧
    window_tracks h (L ++ [(t, v)]) w' hs') as (w' & hs' & a & Ha & Hw').
  { destruct v as [v|].
    - destruct (window_tracks_append h L window hs t v Hw (tracks_extends h key L t HT Hlast))
        as (w' & st & hs' & ? & ?). by exists w', hs', st.
    - exists window, hs, ACCEPTED. split; [done|]. by apply window_tracks_none. }
  set (c := {| cm_timestamp := t; cm_value := v; cm_zscore := z; cm_ready := _ |}).
  destruct (stored_tracks h key L c w' hs' HT Hw') as [Ht Hk]; [exact Hlast|exact Hv| |].
  { unfold metric_answer. subst c. cbn [cm_timestamp cm_value cm_zscore cm_ready].
    by rewrite Hz, (coverage_samples h L window hs t Hw). }
  destruct v as [v|].
  - rewrite Ha. cbn [mh_windows mh_last mh_retention mh_maximum_items fst].
    rewrite dict_set_twice. eexists. split; [reflexivity|]. by split.
  - injection Ha as <-. cbn [mh_windows mh_last mh_retention mh_maximum_items].
    eexists. split; [reflexivity|]. by split.
Qed.

Lemma record_spec h key L t v :
  history_valid h → tracks h key L → (repeats L t v = false → ∀ e, last L = Some e → e.1 < t) →
  match v with Some f => is_finite f = true | None => True end →
  ∃ h' past v', log_step key L (MRecord key t v) = past ++ [(t, v')] ∧
    (v' = v ∨ opt_feqb v' v = true) ∧
    record key t v h = (h', Ok (metric_answer (mh_retention h) (mh_maximum_items h) past t v')) ∧
    tracks h' key (past ++ [(t, v')]) ∧ ∀ k, k ≠ key → same_key h h' k.
Proof.
  intros Hh HT Hord Hv. pose proof (tr_last _ _ _ HT) as Tl.
  unfold record, getM, mbind, M_bind. simpl log_step. rewrite bool_decide_eq_true_2 by done. simpl.
  destruct (dict_get key (mh_last h)) as [c|] eqn:Hc.
  - destruct Tl as (past & E & Hans).
    assert (repeats L t v = (cm_timestamp c =? t) && opt_feqb (cm_value c) v) as Hrep
      by (unfold repeats; by rewrite E, last_snoc).
    rewrite Hrep in *. destruct (Z.eqb_spec (cm_timestamp c) t) as [Et|Et]; simpl in *.
    + destruct (opt_feqb (cm_value c) v) eqn:Ev; simpl.
      * exists h, past, (cm_value c). subst t. rewrite <- Hans. split; [exact E|].
        split; [by right|]. split; [done|]. split; [by rewrite <- E|].
        intros k _. by unfold same_key.
      * exfalso. specialize (Hord eq_refl (cm_timestamp c, cm_value c)). rewrite E, last_snoc in Hord.
        specialize (Hord eq_refl). simpl in Hord. lia.
    + destruct (measure_metric_spec h key L t v Hh HT (Hord eq_refl) Hv) as (h' & -> & ? & ?).
      exists h', L, v. auto.
  - subst L. destruct (measure_metric_spec h key [] t v Hh HT ltac:(done) Hv) as (h' & -> & ? & ?).
    exists h', [], v. auto.
Qed.

Lemma clear_scope_tracks h key L scope :
  tracks h key L → tracks (clear_scope scope h) key (log_step key L (MClear scope)).
Proof.
  intros HT. assert (∀ V (d : list (string * V)),
    dict_get key (List.filter (λ x, negb (String.prefix scope x.1)) d) =
      if String.prefix scope key then None else dict_get key d) as Hd.
  { intros V d. rewrite (dict_get_filter_key (λ k, negb (String.prefix scope k))). by destruct (String.prefix scope key). }
  simpl. destruct (String.prefix scope key) eqn:E.
  - split; simpl; rewrite ?Hd; constructor.
  - apply (tracks_same h); [|done]. unfold same_key. simpl. by rewrite !Hd.
Qed.

Lemma log_other key k L t v : k ≠ key → log_step key L (MRecord k t v) = L.
Proof. intros Hk. simpl. by rewrite bool_decide_eq_false_2. Qed.

(** After an orderly run every key is tracked. *)
Lemma metric_run_tracks ops past h :
  orderly past ops → history_valid h → (∀ key, tracks h key (log key past)) →
  let h' := metric_run ops h in
  mh_retention h' = mh_retention h ∧ mh_maximum_items h' = mh_maximum_items h ∧
  ∀ key, tracks h' key (log key (past ++ ops)).
Proof.
  revert past h. induction ops as [|op ops IH]; intros past h Hord Hh HT; simpl.
  { split; [done|]. split; [done|]. by rewrite app_nil_r. }
  destruct Hord as [Hop Hord].
  assert (∃ h', metric_step op h = h' ∧ mh_retention h' = mh_retention h ∧
    mh_maximum_items h' = mh_maximum_items h ∧ ∀ key, tracks h' key (log key (past ++ [op])))
    as (h' & -> & Er & Em & HT').
  { unfold log. setoid_rewrite foldl_app. simpl foldl. destruct op as [key t v|scope].
    - destruct Hop as [Hv Hlast].
      destruct (record_spec h key _ t v Hh (HT key) Hlast Hv) as (h' & p & v' & Hlog & _ & Hrec & Ht & Hk).
      simpl metric_step. rewrite Hrec. exists h'. split; [done|].
      assert (∃ k, k ≠ key) as [k0 Hk0] by (destruct key; [by exists "#"%string|by exists EmptyString]).
      destruct (Hk k0 Hk0) as (_ & _ & ? & ?).
      split; [done|]. split; [done|]. intros k. destruct (decide (k = key)) as [->|Hne].
      + fold (log key past). by rewrite Hlog.
      + fold (log k past). rewrite log_other by done. apply (tracks_same h); auto.
    - exists (clear_scope scope h). split; [done|]. split; [done|]. split; [done|].
      intros key. apply clear_scope_tracks, HT. }
  destruct (IH (past ++ [op]) h' Hord) as (E1 & E2 & HT2); [unfold history_valid; by rewrite Er, Em|done|].
  rewrite E1, E2. split; [done|]. split; [done|]. intros key. specialize (HT2 key). by rewrite <- app_assoc in HT2.
Qed.

Lemma orderly_app past ops1 ops2 : orderly past (ops1 ++ ops2) ↔ orderly past ops1 ∧ orderly (past ++ ops1) ops2.
Proof.
  revert past. induction ops1 as [|op ops1 IH]; intros past; simpl; [by rewrite app_nil_r; tauto|].
  rewrite IH, <- app_assoc. simpl. tauto.
Qed.

Lemma metric_init_tracks lookback maxi ops :
  0 < lookback → 1 ≤ maxi → orderly [] ops →
  let h := metric_run ops (metric_init lookback maxi) in
  history_valid h ∧ mh_retention h = seconds lookback ∧ mh_maximum_items h = maxi ∧
  ∀ key, tracks h key (log key ops).
Proof.
  intros Hl Hm Hord.
  assert (history_valid (metric_init lookback maxi)) as Hh
    by (unfold history_valid, metric_init, seconds; cbn [mh_retention mh_maximum_items]; lia).
  destruct (metric_run_tracks ops [] (metric_init lookback maxi) Hord Hh) as (Er & Em & HT).
  { intros k. split; simpl; constructor. }
  split; [unfold history_valid in *; by rewrite Er, Em|]. rewrite Er, Em. split; [reflexivity|].
  split; [reflexivity|exact HT].
Qed.


(** ** Readiness *)

(** An answer that is ready is one of a value and a z-score. *)
Definition ready_sound (h : MetricHistory) : Prop :=
  ∀ key c, dict_get key (mh_last h) = Some c → cm_ready c = true →
    cm_value c ≠ None ∧ cm_zscore c ≠ None.

Lemma zscore_of_present l v z : zscore_of l v = Ok (Some z) → v ≠ None.
Proof. by destruct v. Qed.

Lemma measure_metric_ready key t v h h' r :
  ready_sound h → measure_metric key t v h = (h', r) →
  ready_sound h' ∧ ∀ z, r = Ok (z, true) → v ≠ None ∧ z ≠ None.
Proof.
  intros Hh. unfold measure_metric, getM, liftM, set_window, modifyM, mret, M_ret, mbind, M_bind.
  destruct (new_metric_window h) as [fresh|e]; [|by intros [= <- <-]].
  set (window := default fresh _).
  destruct (zscore_of (map tv_value (w_items window)) v) as [z|e] eqn:Hz; [|by intros [= <- <-]].
  assert (∀ c d, cm_value c = v → cm_zscore c = z → (cm_ready c = true → z ≠ None) →
    ready_sound {| mh_retention := mh_retention h; mh_maximum_items := mh_maximum_items h;
                   mh_windows := d; mh_last := dict_set key c (mh_last h) |}) as Hset.
  { intros c d Hv Hcz Hr k c' Hget Hready. simpl in Hget. destruct (decide (k = key)) as [->|Hk].
    - rewrite dict_get_set_eq in Hget by apply pyeq_refl. injection Hget as <-.
      specialize (Hr Hready). subst z. split; [|done].
      destruct (cm_zscore c); [|done]. rewrite Hv. by eapply zscore_of_present.
    - rewrite dict_get_set_ne in Hget by by apply bool_decide_eq_false. by apply (Hh k). }
  assert (∀ b, b && negb (is_none z) = true → v ≠ None ∧ z ≠ None) as Hready.
  { intros b [_ Hn]%andb_true_iff. destruct z; [|done]. split; [|done]. by eapply zscore_of_present. }
  destruct v as [v|].
  - destruct (append window (utc t) v) as [a|e]; cbn [mh_retention mh_maximum_items mh_windows mh_last];
      intros [= <- <-]; [|by split].
    split; [|intros z' [= <- Hb]; by apply (Hready _ Hb)].
    apply Hset; [done..|]. simpl. intros Hb. by apply (Hready _ Hb).
  - cbn [mh_retention mh_maximum_items mh_windows mh_last]. intros [= <- <-].
    split; [|intros z' [= <- Hb]; by apply (Hready _ Hb)].
    apply Hset; [done..|]. simpl. intros Hb. by apply (Hready _ Hb).
Qed.

Lemma forget_instant_last key t h h' r :
  forget_instant key t h = (h', r) → mh_last h' = mh_last h.
Proof.
  unfold forget_instant, getM, liftM, set_window, modifyM, mbind, M_bind.
  destruct (new_metric_window h) as [w|e]; [|by intros [= <- _]].
  destruct (append_all w _) as [w'|e]; by intros [= <- _].
Qed.

Lemma record_ready key t v h h' r :
  ready_sound h → record key t v h = (h', r) →
  ready_sound h' ∧ ∀ z, r = Ok (z, true) → v ≠ None ∧ z ≠ None.
Proof.
  intros Hh. unfold record, getM, mbind, M_bind.
  destruct (dict_get key (mh_last h)) as [c|] eqn:Hc; [|by apply measure_metric_ready].
  destruct (cm_timestamp c =? t); [|by apply measure_metric_ready].
  destruct (opt_feqb (cm_value c) v) eqn:Ev.
  - intros [= <- <-]. split; [done|]. intros z [= <- Hr]. destruct (Hh key c Hc Hr) as [Hv Hz].
    split; [|done]. by destruct (cm_value c), v.
  - destruct (forget_instant key t h) as [h1 [u|e]] eqn:E; pose proof (forget_instant_last _ _ _ _ _ E) as El.
    + apply measure_metric_ready. unfold ready_sound. by rewrite El.
    + intros [= <- <-]. split; [|done]. unfold ready_sound. by rewrite El.
Qed.

(** ** A value replaced at its instant

    The window was pruned when the first value was appended, so nothing in it is a
    lookback back any more. *)

Lemma append_all_times l w w' :
  reachable_window w → append_all w l = Ok w' →
  ∀ x, x ∈ w_items w' → tv_timestamp x ∈ map tv_timestamp (w_items w ++ l).
Proof.
  revert w. induction l as [|y l IH]; intros w Hw H x Hx; cbn [append_all] in H.
  { injection H as <-. rewrite app_nil_r. by apply list_elem_of_fmap_2. }
  unfold append, window_utc in H. rewrite as_utc_utc in H. cbn [mbind res_bind] in H.
  pose proof (window_step_items w (OpAppend (tv_timestamp y) (tv_value y)) Hw) as [pre Hpre].
  pose proof (reachable_window_step w (OpAppend (tv_timestamp y) (tv_value y)) Hw) as Hw1.
  simpl in *. destruct (append_at w (tv_timestamp y) (tv_value y)) as [w1 st]. simpl in *.
  specialize (IH w1 Hw1 H x Hx). rewrite map_app in *. apply elem_of_app in IH as [IH|IH].
  2: { apply elem_of_app. right. by right. }
  apply list_elem_of_fmap in IH as (u & -> & Hu).
  assert (u ∈ pre ++ w_items w1) as Hu' by (apply elem_of_app; by right). rewrite Hpre in Hu'.
  apply elem_of_app. case_bool_decide; [|left; by apply list_elem_of_fmap_2].
  apply spec_insert_elem in Hu' as [->|Hu']; [right; by left|left; by apply list_elem_of_fmap_2].
Qed.

Lemma retained_newer retention maxi L t v s :
  s ∈ retained_samples retention maxi (L ++ [(t, Some v)]) → t - retention < s.1.
Proof.
  unfold retained_samples. rewrite samples_app. simpl. rewrite last_snoc. simpl. intros Hs.
  eapply elem_of_sublist in Hs; [|apply lastn_sublist]. by apply list_elem_of_filter in Hs as [? _].
Qed.

Lemma replaced_run h key past t v0 v h' r :
  history_valid h → tracks h key (past ++ [(t, Some v0)]) → opt_feqb (Some v0) v = false →
  record key t v h = (h', r) → ∀ z, r ≠ Ok (z, true).
Proof.
  intros Hh [Tw Tl _ _] Hv Hrec z ->. unfold record, getM, mbind, M_bind in Hrec.
  destruct (dict_get key (mh_last h)) as [c|]; [|by destruct past].
  destruct Tl as (past' & E & _). apply app_inj_tail in E as [<- [= Et Ev]].
  rewrite <- Et, Z.eqb_refl, <- Ev, Hv in Hrec.
  destruct (dict_get key (mh_windows h)) as [w|] eqn:Hw; [|by destruct past].
  destruct Tw as [hs Ht]. destruct (new_window_tracks h Hh) as (fresh & _ & Hfresh & _).
  unfold forget_instant, getM, liftM, set_window, modifyM, mbind, M_bind, window_items in Hrec.
  rewrite Hfresh, Hw in Hrec.
  destruct (append_all fresh _) as [retained|e] eqn:Hall; [|done].
  unfold measure_metric, getM, liftM, set_window, modifyM, mret, M_ret, mbind, M_bind in Hrec.
  unfold new_metric_window in *. cbn [mh_windows mh_retention mh_maximum_items] in Hrec.
  rewrite Hfresh, dict_get_set_eq in Hrec by apply pyeq_refl. unfold default, id in Hrec.
  assert (coverage (mh_retention h) t retained = false) as Hcov.
  { unfold coverage, earliest. destruct (w_items retained) as [|x l] eqn:Ei; [done|]. simpl.
    apply Z.leb_gt. assert (reachable_window fresh) as Hreach.
    { eexists _, _, _, _, fresh, []. split; [exact Hfresh|done]. }
    pose proof (append_all_times _ _ _ Hreach Hall x ltac:(rewrite Ei; by left)) as Hx.
    unfold window_init in Hfresh. inv_res. subst fresh. simpl in Hx.
    apply list_elem_of_fmap in Hx as (y & -> & Hy). apply filter_elem in Hy as [Hy _].
    apply (retained_newer _ (mh_maximum_items h) past t v0 (sample_of y)).
    rewrite <- (window_samples h _ w hs Ht). by apply list_elem_of_fmap_2. }
  rewrite Hcov in Hrec. simpl in Hrec. destruct (zscore_of _ v) as [z'|e]; [|done].
  destruct v as [v|]; [destruct (append retained (utc t) v)|]; by injection Hrec.
Qed.

(** A changed value recorded again at its key's newest instant never answers
    ready, whatever the history covers: the first value has already pruned the
    samples a lookback back. *)
Theorem replaced_value_not_ready lookback maxi ops key t v0 v h' r :
  0 < lookback → 1 ≤ maxi → orderly [] ops → last (log key ops) = Some (t, Some v0) →
  opt_feqb (Some v0) v = false →
  record key t v (metric_run ops (metric_init lookback maxi)) = (h', r) →
  ∀ z, r ≠ Ok (z, true).
Proof.
  intros Hl Hm Hord Hlast Hv Hrec. destruct (metric_init_tracks lookback maxi ops Hl Hm Hord) as (Hh & _ & _ & HT).
  apply last_snoc_inv in Hlast as [past Hlog]. specialize (HT key). rewrite Hlog in HT.
  by eapply replaced_run.
Qed.

(** ** A demonstration: a lookback of two seconds, a sample per second *)

Definition metric_value_of (n : Z) : option float := Some (float_of_int n).
Definition demo_records : list metric_op :=
  [MRecord "okx:return" 0 (metric_value_of 1); MRecord "okx:ofi" 0 (metric_value_of 9);
   MRecord "okx:return" (seconds 1) (metric_value_of 3); MClear "binance:"].

Lemma demo_records_orderly : orderly [] (demo_records ++ [MRecord "okx:return" (seconds 2) (metric_value_of 5)]).
Proof.
  unfold demo_records. cbn [app orderly orderly_op].
  repeat match goal with |- _ ∧ _ => split | |- True => exact I end.
  all: lazymatch goal with
       | |- _ = false → _ => intros _ e He; vm_compute in He; try discriminate He;
                             injection He as <-; vm_compute; reflexivity
       | |- _ => vm_compute; reflexivity
       end.
Qed.


Example metric_answer_example :
  (record "okx:return" (seconds 2) (metric_value_of 5) (metric_run demo_records (metric_init 2 10))).2 =
    Ok (metric_value_of 3, true).
Proof. vm_compute. reflexivity. Qed.

Lemma replaced_value_not_ready_witness :
  ∃ ops h' r,
    (record "okx:return" (seconds 2) (metric_value_of 5) (metric_run demo_records (metric_init 2 10))).2 =
      Ok (metric_value_of 3, true) ∧
    record "okx:return" (seconds 2) (metric_value_of 9) (metric_run ops (metric_init 2 10)) = (h', r) ∧
    ∀ z, r ≠ Ok (z, true).
Proof.
  set (ops := demo_records ++ [MRecord "okx:return" (seconds 2) (metric_value_of 5)]).
  set (run := record "okx:return" (seconds 2) (metric_value_of 9) (metric_run ops (metric_init 2 10))).
  exists ops, run.1, run.2. split; [vm_compute; reflexivity|]. split; [apply surjective_pairing|].
  apply (replaced_value_not_ready 2 10 ops "okx:return" (seconds 2) (float_of_int 5) (metric_value_of 9) run.1 run.2);
    [done|done|exact demo_records_orderly|vm_compute; reflexivity|vm_compute; reflexivity|apply surjective_pairing].
Defined.
