(* ===== verification/SingleVenue.v ===== *)
(** * The single-venue feature engine

    [features/single_venue.py: SingleVenueFeatureEngine]: the values of one venue and
    symbol over a window that ends in a decision, with the gates of [Availability],
    the z-scores of [MetricHistory] and the prices of [PriceCache].  The digests of
    JSON ([semantic_source_digest], [fingerprint], [_feature_id]), [math.log] and the
    addresses of objects ([id]) are parameters.  [SingleResult] holds the theorems. *)

From S2P Require Import Prelude Effects PyDecimal PyFloat PyTime Models Lineage Rolling BookState MarketState Availability PriceCache FeatureModels MetricHistory.
From stdpp Require Import pretty.
Open Scope Z_scope.

(** ** Helpers of the module *)

(** [None if b == 0 else float(a / b)] and [float(a / b - 1)] of decimals. *)
Definition float_ratio (a b : decimal) : res (option float) :=
  if deqb b d0 then Ok None else q ← ddiv a b; Ok (Some (float_of_decimal q)).
Definition ratio_impulse (current previous : decimal) : res (option float) :=
  if deqb previous d0 then Ok None
  else q ← ddiv current previous; Ok (Some (float_of_decimal (dsub q d1))).

Definition count_impulse (current previous : Z) : option float :=
  if previous =? 0 then None else Some (fsub (float_of_ratio current previous) f1).

(** The loop of [_depth_walk_bps]: what remains, was acquired and was spent. *)
Fixpoint depth_walk (levels : list OrderBookLevel) (remaining acquired spent : decimal)
    : res (decimal * decimal * decimal) :=
  match levels with
  | [] => Ok (remaining, acquired, spent)
  | l :: levels =>
    let available := dmul (level_price l) (level_quantity l) in
    let used := dmin available remaining in
    next ← (if dltb d0 used then
              bought ← ddiv used (level_price l);
              Ok (dsub remaining used, dadd acquired bought, dadd spent used)
            else Ok (remaining, acquired, spent));
    let '(remaining, acquired, spent) := next : decimal * decimal * decimal in
    if dleb remaining d0 then Ok (remaining, acquired, spent)
    else depth_walk levels remaining acquired spent
  end.

Definition depth_walk_bps (levels : list OrderBookLevel) (target_notional mid : decimal) (buy : bool)
    : res (option float) :=
  walked ← depth_walk levels target_notional d0 d0;
  let '(remaining, acquired, spent) := walked : decimal * decimal * decimal in
  if dltb d0 remaining || dleb acquired d0 then Ok None
  else
    average ← ddiv spent acquired;
    q ← ddiv average mid;
    let relative := dsub q d1 in
    Ok (Some (float_of_decimal (dmul (if buy then relative else dneg relative) (of_int 10000)))).

(** ** Settings and state *)

(** The settings the engine reads: the level weights are [Decimal(str(value))], the
    blocking statuses members of [HealthStatus]. *)
Record SingleVenueSettings := {
  svc_feature_windows_seconds : list Z;
  svc_zscore_lookback_seconds : Z;
  svc_maximum_events_per_stream : Z;
  svc_order_book_depth : Z;
  order_book_level_weights : list decimal;
  large_trade_notional_usdt : decimal;
  depth_walk_notional_usdt : decimal;
  abnormal_jump_zscore : float;
  atr_period_seconds : Z;
  breakout_lookback_seconds : Z;
  open_interest_stale_after_ms : Z;
  block_entry_statuses : list HealthStatus;
  svc_strategy_version : string;
  svc_code_version : string }.

Record SingleVenueEngine := {
  sve_history : MetricHistory;
  book_generations : list ((Exchange * string) * Z);
  price_caches : list ((Z * (Exchange * string)) * PriceHistoryCache) }.

Definition engine_init (c : SingleVenueSettings) : SingleVenueEngine :=
  {| sve_history := metric_init (svc_zscore_lookback_seconds c) (svc_maximum_events_per_stream c);
     book_generations := []; price_caches := [] |}.

(** A state with its [id] and the exchange-wide health window it shares with its
    venue, and the windows whose items are compared as objects. *)
Record state_object := {
  state_id : Z;
  state_of : VenueSymbolState;
  state_exchange_health : BoundedTimeWindow ExchangeHealth }.
Inductive stream := TradeStream | PriceStream | MarkStream.

(** What [_feature_id] hashes. *)
Record SingleIdentity := {
  si_strategy_version : string;
  si_code_version : string;
  si_config_hash : string;
  si_exchange : Exchange;
  si_symbol : string;
  si_decision_timestamp : Z;
  si_window_seconds : Z;
  si_book_generation : Z;
  si_source_sequence_id : option Z;
  si_source_event_count : Z;
  si_oldest_source_timestamp : option Z;
  si_newest_source_timestamp : option Z;
  si_data_age_ms : option float;
  si_source_fingerprint : string;
  si_is_warm : bool;
  si_is_healthy : bool;
  si_unavailable_reasons : list FeatureUnavailableReason;
  si_trade_flow : TradeFlowFeatureValues;
  si_order_book : option OrderBookFeatureValues;
  si_price : PriceFeatureValues;
  si_open_interest : option OpenInterestFeatureValues;
  si_crowding : CrowdingFeatureValues;
  si_liquidation : LiquidationFeatureValues }.

(** ** Values of one window *)

Section values.
Context (c : SingleVenueSettings).

(** [_order_book_values]: [sum(level.quantity * weights[index] ...)]. *)
Definition weighted_depth (levels : list OrderBookLevel) : res decimal :=
  l ← mapR (λ '(i, l), w ← item_at (order_book_level_weights c) i; Ok (dmul (level_quantity l) w))
        (imap pair levels);
  Ok (dsum l).

(** The changes of the view's generation and epoch in [(start, decision]]. *)
Definition change_items (s : VenueSymbolState) (view : FeatureBookView) (start decision : Z)
    : res (list (TimedValue BookChange)) :=
  l ← items_between (book_history s) (utc start) (utc decision);
  Ok (omap (λ x : TimedValue FeatureBookCheckpoint,
    match cp_change (tv_value x) with
    | Some change =>
      if (fv_generation (cp_view (tv_value x)) =? fv_generation view) &&
         (fv_epoch (cp_view (tv_value x)) =? fv_epoch view)
      then Some (Build_TimedValue (tv_timestamp x) change (tv_ordinal x)) else None
    | None => None
    end) (l : list (TimedValue FeatureBookCheckpoint))).

Definition removed_of (b : BookChange) : decimal := dadd (removed_bid_quantity b) (removed_ask_quantity b).
Definition added_of (b : BookChange) : decimal := dadd (added_bid_quantity b) (added_ask_quantity b).

(** Quantity added per second since the first removal. *)
Definition recovery_rate (items : list (TimedValue BookChange)) (decision : Z) : res (option float) :=
  match List.find (λ x, dltb d0 (removed_of (tv_value x))) items with
  | None => Ok None
  | Some first =>
    let first_removal_at := tv_timestamp first in
    let recovery_seconds := total_seconds (decision - first_removal_at) in
    let recovered := dsum (map (λ x, added_of (tv_value x))
      (List.filter (λ x, (first_removal_at <? tv_timestamp x) && (tv_timestamp x <=? decision)) items)) in
    if fltb f0 recovery_seconds then
      rate ← fdiv (float_of_decimal recovered) recovery_seconds; Ok (Some rate)
    else Ok None
  end.

Definition order_book_values (s : VenueSymbolState) (view : FeatureBookView) (start decision : Z)
    : res (option OrderBookFeatureValues) :=
  if negb (fv_synchronized view) then Ok None
  else
  match fv_bids view, fv_asks view with
  | best_bid :: _, best_ask :: _ =>
    bid_depth ← weighted_depth (fv_bids view);
    ask_depth ← weighted_depth (fv_asks view);
    let depth_total := dadd bid_depth ask_depth in
    let spread := dsub (level_price best_ask) (level_price best_bid) in
    let mid := dhalf (dadd (level_price best_ask) (level_price best_bid)) in
    let top_quantity := dadd (level_quantity best_bid) (level_quantity best_ask) in
    microprice ← (if deqb top_quantity d0 then Ok None
      else Some <$> ddiv (dadd (dmul (level_price best_ask) (level_quantity best_bid))
                               (dmul (level_price best_bid) (level_quantity best_ask))) top_quantity);
    items ← change_items s view start decision;
    let changes := map tv_value items in
    rate ← recovery_rate items decision;
    imbalance ← float_ratio (dsub bid_depth ask_depth) depth_total;
    relative ← ddiv spread mid;
    buy ← depth_walk_bps (fv_asks view) (depth_walk_notional_usdt c) mid true;
    sell ← depth_walk_bps (fv_bids view) (depth_walk_notional_usdt c) mid false;
    Some <$> validate_order_book
      {| weighted_bid_depth := Some bid_depth; weighted_ask_depth := Some ask_depth;
         bid_liquidity_change := Some (dsum (map bid_quantity_delta changes));
         ask_liquidity_change := Some (dsum (map ask_quantity_delta changes));
         added_liquidity_quantity := Some (dsum (map added_of changes));
         removed_liquidity_quantity := Some (dsum (map removed_of changes));
         liquidity_recovery_quantity_per_second := rate;
         depth_imbalance := imbalance; FeatureModels.spread := Some spread;
         relative_spread := Some (float_of_decimal relative); book_mid_price := Some mid;
         FeatureModels.microprice := microprice;
         buy_slippage_bps := buy; sell_slippage_bps := sell;
         book_order_flow_imbalance :=
           Some (float_of_decimal (dsum (map order_flow_imbalance changes)));
         order_flow_imbalance_zscore := None |}
  | _, _ => Ok None
  end.

Definition trade_items (side : option AggressorSide) (l : list (TimedValue Trade)) : list decimal :=
  map (λ x, trade_notional (tv_value x))
    (List.filter (λ x, match side with Some a => bool_decide (aggressor_side (tv_value x) = a)
                       | None => true end) l).

Definition recent_move (first last atr : option decimal) : res (option float) :=
  match first, last, atr with
  | Some first, Some last, Some atr => float_ratio (dsub last first) atr
  | _, _, _ => Ok None
  end.

(** [quantity] of [_open_interest_values]. *)
Definition oi_quantity (e : OpenInterest) : decimal :=
  match open_interest_base e with Some q => q | None => open_interest_contracts e end.

(** [max(0.0, (decision - at).total_seconds() * 1000.0)]. *)
Definition age_ms (decision at_ : Z) : float := fmax f0 (total_ms (decision - at_)).

Definition price_oi_state_of (price_return oi_change : option float) : option PriceOpenInterestState :=
  match price_return, oi_change with
  | Some p, Some o =>
    Some (if feqb p f0 || feqb o f0 then PriceOpenInterestState_FLAT
          else if fltb f0 p then if fltb f0 o then PRICE_UP_OI_UP else PRICE_UP_OI_DOWN
          else if fltb f0 o then PRICE_DOWN_OI_UP else PRICE_DOWN_OI_DOWN)
  | _, _ => None
  end.

Definition crowding_state_of (taker_bias price_return oi_change : option float)
    (funding : option decimal) : option CrowdingState :=
  match taker_bias, price_return, oi_change, funding with
  | Some t, Some p, Some o, Some f =>
    Some (if forallb (fltb f0) [t; p; o] && dltb d0 f then CROWDED_LONG
          else if forallb (λ v, fltb v f0) [t; p; o] && dltb f d0 then CROWDED_SHORT
          else CrowdingState_MIXED)
  | _, _, _, _ => None
  end.

Definition liquidated (side : LiquidatedPositionSide) (l : list LiquidationEvent) : decimal :=
  dsum (map liquidation_notional (List.filter (λ e, bool_decide (position_side e = side)) l)).
End values.

(** ** The engine *)

Section engine.
Context (c : SingleVenueSettings).
(** [semantic_source_digest], [SourceLineage.fingerprint], [_feature_id],
    [settings_fingerprint(settings)] and [math.log]. *)
Context (semantic_source_digest : Z → event → string) (fingerprint : SourceLineage → string)
  (feature_id : SingleIdentity → UUID) (config_hash : string) (math_log : float → res float).
(** [id] of the event an item of a state's window holds: state, window, ordinal. *)
Context (address : Z → stream → Z → Z).

Abbreviation EM := (M SingleVenueEngine).

Definition record_metric (key : string) (decision : Z) (value : option float)
    : EM (option float * bool) :=
  zoomM sve_history (λ h e, {| e with sve_history := h |}) (record key decision value).

Definition event_of_price (p : price_event) : event :=
  match p with PTrade e => ETrade e | PQuote e => EBestBidAsk e | PMark e => EMarkPrice e end.

(** An item of [state.prices] as an object; what is no price has no [mark_price]. *)
Definition price_item (o : state_object) (x : TimedValue event) : res (TimedValue price_object) :=
  p ← match tv_value x with
      | ETrade e => Ok (PTrade e) | EBestBidAsk e => Ok (PQuote e) | EMarkPrice e => Ok (PMark e)
      | _ => Err AttributeError
      end;
  Ok (Build_TimedValue (tv_timestamp x)
    {| object_id := address (state_id o) PriceStream (tv_ordinal x); price_of_object := p |}
    (tv_ordinal x)).

Definition price_window (o : state_object) : res (BoundedTimeWindow price_object) :=
  let w := prices (state_of o) in
  l ← mapR (price_item o) (w_items w);
  Ok {| retention := retention w; maximum_items := maximum_items w;
        late_event_policy := late_event_policy w; maximum_lateness := maximum_lateness w;
        w_items := l; watermark := watermark w; w_ordinal := w_ordinal w;
        accepted := accepted w; late_dropped := late_dropped w;
        expired_dropped := expired_dropped w; capacity_evictions := capacity_evictions w |}.

(** [_price_cache]. *)
Definition price_cache (o : state_object) : EM PriceHistoryCache :=
  let s := state_of o in
  let key := (state_id o, (vs_exchange s, vs_symbol s)) in
  zoomM (λ e, default price_cache_init (dict_get key (price_caches e)))
    (λ pc e, {| e with price_caches := dict_set key pc (price_caches e) |})
    (window ← liftM (price_window o);
     _ ← update (λ t p, semantic_source_digest t (event_of_price p)) math_log window;
     getM).

Definition scope_of (s : VenueSymbolState) : string :=
  exchange_value (vs_exchange s) +:+ ":" +:+ vs_symbol s +:+ ":".
Definition prefix_of (s : VenueSymbolState) (window_seconds : Z) : string :=
  scope_of s +:+ pretty window_seconds.

(** The rebuilt book of a new generation starts its statistics over. *)
Definition note_generation (s : VenueSymbolState) (view : FeatureBookView) : EM unit :=
  let key := (vs_exchange s, vs_symbol s) in
  e ← getM;
  _ ← match dict_get key (book_generations e) with
      | Some previous =>
        if negb (previous =? fv_generation view) then
          modifyM (λ e, {| e with sve_history := clear_scope (scope_of s) (sve_history e) |})
        else mret tt
      | None => mret tt
      end;
  modifyM (λ e, {| e with book_generations := dict_set key (fv_generation view) (book_generations e) |}).

(** The taker flow of the window with its imbalance, and whether its history is warm. *)
Definition trade_flow_values (trades previous_trades : list (TimedValue Trade))
    (decision : Z) (prefix : string) : EM (TradeFlowFeatureValues * bool) :=
  let buy_notional := dsum (trade_items (Some BUY) trades) in
  let sell_notional := dsum (trade_items (Some SELL) trades) in
  let total_notional := dadd buy_notional sell_notional in
  let previous_notional := dsum (trade_items None previous_trades) in
  imbalance ← liftM (float_ratio (dsub buy_notional sell_notional) total_notional);
  '(imbalance_z, imbalance_warm) ← record_metric (prefix +:+ ":taker_imbalance") decision imbalance;
  let large_notional := dsum (List.filter (λ n, dleb (large_trade_notional_usdt c) n)
                                (trade_items None trades)) in
  impulse ← liftM (ratio_impulse total_notional previous_notional);
  average ← liftM (match trades with
    | [] => Ok None
    | _ => Some <$> ddiv total_notional (of_int (Z.of_nat (length trades)))
    end);
  share ← liftM (float_ratio large_notional total_notional);
  v ← liftM (validate_trade_flow
    {| aggressive_buy_notional := Some buy_notional; aggressive_sell_notional := Some sell_notional;
       taker_imbalance := imbalance; taker_imbalance_zscore := imbalance_z;
       trade_notional_impulse := impulse;
       trade_count_impulse := count_impulse (Z.of_nat (length trades)) (Z.of_nat (length previous_trades));
       average_trade_notional := average; large_trade_share := share |});
  mret (v, imbalance_warm).

Definition price_values (pc : PriceHistoryCache) (start decision : Z) (history_prefix : string)
    : EM (PriceFeatureValues * option float * bool) :=
  range ← liftM (cache_range pc (utc start) (utc decision));
  let first := range_first range in
  let last := range_last range in
  return_value ← liftM (match first, last with
    | Some first, Some last => ratio_impulse last first
    | _, _ => Ok None
    end);
  '(return_z, warm) ← record_metric (history_prefix +:+ ":return") decision return_value;
  atr ← liftM (cache_atr pc (utc (decision - seconds (atr_period_seconds c))) (utc decision));
  '(high, low) ← liftM (high_low pc (utc (decision - seconds (breakout_lookback_seconds c))) (utc decision));
  move ← liftM (recent_move first last atr);
  v ← liftM (validate_price
    {| FeatureModels.return_value := return_value; impulse_zscore := None;
       FeatureModels.realized_volatility := PriceCache.realized_volatility range;
       atr_1m := atr; trailing_high := high; trailing_low := low; recent_move_atr := move;
       abnormal_jump := (λ z, fleb (abnormal_jump_zscore c) (fabs z)) <$> return_z |});
  mret (v, return_z, warm).

Definition open_interest_values (s : VenueSymbolState) (start decision : Z) (history_prefix : string)
    : EM (option OpenInterestFeatureValues * option float * bool) :=
  latest ← liftM (latest_at_or_before (open_interest s) (utc decision));
  anchor ← liftM (latest_at_or_before (open_interest s) (utc start));
  match latest with
  | None => mret (None, None, false)
  | Some latest =>
    let latest_value := oi_quantity (tv_value latest) in
    let anchor_value := (λ x, oi_quantity (tv_value x)) <$> anchor in
    percentage ← liftM (match anchor_value with
      | Some a => ratio_impulse latest_value a
      | None => Ok None
      end);
    '(zscore, warm) ← record_metric (history_prefix +:+ ":oi_change") decision percentage;
    v ← liftM (validate_open_interest
      {| oi_value_change := dsub latest_value <$> anchor_value; percentage_change := percentage;
         oi_zscore := None; oi_data_age_ms := Some (age_ms decision (tv_timestamp latest));
         price_oi_state := None |});
    mret (Some v, zscore, warm)
  end.

Definition crowding_values (s : VenueSymbolState) (decision : Z) (history_prefix : string)
    (bias price_return oi_change : option float) : EM (CrowdingFeatureValues * bool) :=
  funding ← liftM (latest_at_or_before (funding_rates s) (utc decision));
  mark ← liftM (latest_at_or_before (mark_prices s) (utc decision));
  index ← liftM (latest_at_or_before (index_prices s) (utc decision));
  premium ← liftM (match mark, index with
    | Some m, Some i => ratio_impulse (mark_price (tv_value m)) (index_price (tv_value i))
    | _, _ => Ok None
    end);
  '(premium_z, premium_warm) ← record_metric (history_prefix +:+ ":premium") decision premium;
  let funding_value := (λ x, funding_rate (tv_value x)) <$> funding in
  '(funding_z, funding_warm) ← record_metric (history_prefix +:+ ":funding") decision
                                  (float_of_decimal <$> funding_value);
  v ← liftM (validate_crowding
    {| crowding_funding_rate := funding_value; funding_zscore := funding_z;
       mark_index_premium := premium; premium_zscore := premium_z; taker_bias := bias;
       joint_state := crowding_state_of bias price_return oi_change funding_value |});
  mret (v, premium_warm && funding_warm).

Definition liquidation_values (s : VenueSymbolState) (start decision : Z) (history_prefix : string)
    (oi_change : option float) : EM (LiquidationFeatureValues * bool) :=
  events ← liftM (values_between (liquidations s) (utc start) (utc decision));
  let long_notional := liquidated LONG events in
  let short_notional := liquidated SHORT events in
  '(zscore, warm) ← record_metric (history_prefix +:+ ":liquidation") decision
                      (Some (float_of_decimal (dadd long_notional short_notional)));
  v ← liftM (validate_liquidation
    {| public_sample_long_notional := Some long_notional;
       public_sample_short_notional := Some short_notional;
       public_sample_activity_zscore := zscore;
       activity_with_oi_decline :=
         if bool_decide (length events = 0%nat) then None else (λ o, fltb o f0) <$> oi_change |});
  mret (v, warm).

(** ** Sources *)

Fixpoint filterR {A} (f : A → res bool) (l : list A) : res (list A) :=
  match l with
  | [] => Ok []
  | x :: l => b ← f x; ys ← filterR f l; Ok (if b : bool then x :: ys else ys)
  end.

Definition as_source {T} (f : T → event) (x : TimedValue T) : TimedValue event :=
  Build_TimedValue (tv_timestamp x) (f (tv_value x)) (tv_ordinal x).

(** The commitment to the sources, each distinct payload once. *)
Definition direct_lineage (sources : list (TimedValue event)) : res SourceLineage :=
  let unique_sources := foldl (λ d x,
    let digest := semantic_source_digest (tv_timestamp x) (tv_value x) in
    match dict_get digest d with Some _ => d | None => dict_set digest x d end) [] sources in
  foldl (λ (acc : res SourceLineage) digest,
    lineage ← acc;
    match dict_get digest unique_sources with
    | Some x =>
      one ← from_digest (utc (tv_timestamp x)) digest;
      Lineage.combine lineage [one]
    | None => Err KeyError
    end) (Ok empty_lineage) (py_sorted String.leb (map fst unique_sources)).

Definition trade_object (o : state_object) (x : TimedValue Trade) : price_object :=
  {| object_id := address (state_id o) TradeStream (tv_ordinal x); price_of_object := PTrade (tv_value x) |}.
Definition mark_object (o : state_object) (x : TimedValue MarkPrice) : price_object :=
  {| object_id := address (state_id o) MarkStream (tv_ordinal x); price_of_object := PMark (tv_value x) |}.

Definition source_lineage (o : state_object) (start decision : Z) (view : FeatureBookView)
    (pc : PriceHistoryCache) : res SourceLineage :=
  let s := state_of o in
  let window := decision - start in
  let price_start := Z.min (Z.min start (decision - seconds (atr_period_seconds c)))
                           (decision - seconds (breakout_lookback_seconds c)) in
  let trade_start := start - window in
  trade_list ← items_between (trades s) (utc trade_start) (utc decision);
  uncovered ← filterR (λ x, b ← covers_source pc (trade_object o x) (utc price_start) (utc decision);
                            Ok (negb b)) trade_list;
  oi_start ← latest_at_or_before (open_interest s) (utc start);
  oi ← latest_at_or_before (open_interest s) (utc decision);
  funding ← latest_at_or_before (funding_rates s) (utc decision);
  index ← latest_at_or_before (index_prices s) (utc decision);
  mark ← latest_at_or_before (mark_prices s) (utc decision);
  mark_source ← match mark with
    | Some x => b ← covers_source pc (mark_object o x) (utc price_start) (utc decision);
                Ok (if b : bool then [] else [as_source EMarkPrice x])
    | None => Ok []
    end;
  liquidation_items ← items_between (liquidations s) (utc start) (utc decision);
  healths ← health_sources_at_or_before (state_exchange_health o) s (utc decision);
  let sources :=
    map (as_source ETrade) uncovered ++
    present [as_source EOpenInterest <$> oi_start; as_source EOpenInterest <$> oi;
             as_source EFundingRate <$> funding; as_source EIndexPrice <$> index] ++
    mark_source ++ map (as_source ELiquidation) liquidation_items ++ map (as_source EHealth) healths in
  priced ← cache_lineage pc (utc price_start) (utc decision);
  direct ← direct_lineage sources;
  both ← Lineage.combine priced [fv_lineage view];
  Lineage.combine both [direct].

(** ** The calculation *)

Definition no_trades_reason : FeatureUnavailableReason :=
  reason NO_TRADES "no accepted trades fall inside the feature window" None.
Definition not_warm_reason : FeatureUnavailableReason :=
  reason NOT_WARM "derived statistical history has not covered the configured lookback" None.

(** The values of a calculation before they are hashed and validated. *)
Record VenueValues := {
  vv_trade_flow : TradeFlowFeatureValues;
  vv_order_book : option OrderBookFeatureValues;
  vv_price : PriceFeatureValues;
  vv_open_interest : option OpenInterestFeatureValues;
  vv_crowding : CrowdingFeatureValues;
  vv_liquidation : LiquidationFeatureValues;
  vv_statistical_warm : bool }.

Definition venue_values (s : VenueSymbolState) (view : FeatureBookView) (pc : PriceHistoryCache)
    (window_trades previous_trades : list (TimedValue Trade)) (start decision window_seconds : Z)
    : EM VenueValues :=
  let prefix := prefix_of s window_seconds in
  '(flow, imbalance_warm) ← trade_flow_values window_trades previous_trades decision prefix;
  book ← liftM (order_book_values c s view start decision);
  '(ofi_z, ofi_warm) ← record_metric (prefix +:+ ":ofi") decision (book ≫= book_order_flow_imbalance);
  let book := (λ b, {| b with order_flow_imbalance_zscore := ofi_z |}) <$> book in
  '(price, return_z, return_warm) ← price_values pc start decision prefix;
  '(oi, oi_z, oi_warm) ← open_interest_values s start decision prefix;
  let oi := (λ v, {| v with oi_zscore := oi_z;
                            price_oi_state := price_oi_state_of (return_value price) (percentage_change v) |}) <$> oi in
  '(crowding, premium_warm) ← crowding_values s decision prefix (taker_imbalance flow)
                                (return_value price) (oi ≫= percentage_change);
  '(liquidation, liquidation_warm) ← liquidation_values s start decision prefix (oi ≫= percentage_change);
  mret {| vv_trade_flow := flow; vv_order_book := book;
          vv_price := {| price with impulse_zscore := return_z |};
          vv_open_interest := oi; vv_crowding := crowding; vv_liquidation := liquidation;
          vv_statistical_warm := forallb id
            [imbalance_warm; ofi_warm; return_warm; oi_warm; premium_warm; liquidation_warm] |}.

(** The snapshot, with its identity first. *)
Definition mk_venue_snapshot (s : VenueSymbolState) (view : FeatureBookView) (lineage : SourceLineage)
    (decision window_seconds : Z) (v : VenueValues) (warm healthy : bool)
    (rs : list FeatureUnavailableReason) : res FeatureSnapshot :=
  let age := age_ms decision <$> newest_timestamp lineage in
  let source_fingerprint := fingerprint lineage in
  let id := feature_id
    {| si_strategy_version := svc_strategy_version c; si_code_version := svc_code_version c;
       si_config_hash := config_hash; si_exchange := vs_exchange s; si_symbol := vs_symbol s;
       si_decision_timestamp := decision; si_window_seconds := window_seconds;
       si_book_generation := fv_generation view; si_source_sequence_id := fv_sequence_id view;
       si_source_event_count := sl_count lineage;
       si_oldest_source_timestamp := oldest_timestamp lineage;
       si_newest_source_timestamp := newest_timestamp lineage; si_data_age_ms := age;
       si_source_fingerprint := source_fingerprint; si_is_warm := warm; si_is_healthy := healthy;
       si_unavailable_reasons := rs; si_trade_flow := vv_trade_flow v;
       si_order_book := vv_order_book v; si_price := vv_price v;
       si_open_interest := vv_open_interest v; si_crowding := vv_crowding v;
       si_liquidation := vv_liquidation v |} in
  m ← mk_metadata MARKET_FEATURE (vs_exchange s) (vs_symbol s) (utc decision) (utc decision) (utc decision)
        (SeqInt <$> fv_sequence_id view)
        (Some ("feature-sources://sha256-sum-xor-v1/" +:+ source_fingerprint));
  validate_feature_snapshot
    {| fs_meta := m; feature_snapshot_id := id; fs_strategy_version := svc_strategy_version c;
       fs_calculation_timestamp := decision; fs_decision_timestamp := decision;
       fs_window_seconds := window_seconds; fs_book_generation := fv_generation view;
       source_sequence_id := SeqInt <$> fv_sequence_id view;
       source_event_count := sl_count lineage;
       oldest_source_timestamp := oldest_timestamp lineage;
       newest_source_timestamp := newest_timestamp lineage; fs_data_age_ms := age;
       fs_is_warm := warm; fs_is_healthy := healthy; fs_unavailable_reasons := rs;
       fs_trade_flow := Some (vv_trade_flow v); fs_order_book := vv_order_book v;
       fs_price := Some (vv_price v); fs_open_interest := vv_open_interest v;
       fs_crowding := Some (vv_crowding v); fs_liquidation := Some (vv_liquidation v) |}.

Definition calculate (o : state_object) (decision_timestamp : datetime) (window_seconds : Z)
    : EM FeatureSnapshot :=
  let s := state_of o in
  decision ← liftM (price_utc decision_timestamp);
  _ ← requireM (bool_decide (window_seconds ∈ svc_feature_windows_seconds c))
        (ValueError "window_seconds is not a configured feature window");
  let window := seconds window_seconds in
  let start := decision - window in
  pc ← price_cache o;
  view ← liftM (book_view_as_of s (svc_order_book_depth c) (utc decision));
  _ ← note_generation s view;
  availability ← liftM (availability_as_of (state_exchange_health o) s decision window
                          (milliseconds (open_interest_stale_after_ms c))
                          (block_entry_statuses c) view);
  window_trades ← liftM (items_between (trades s) (utc start) (utc decision));
  previous_trades ← liftM (items_between (trades s) (utc (start - window)) (utc start));
  let no_trades := bool_decide (length window_trades = 0%nat) in
  let rs := reasons availability ++
    (if no_trades && negb (existsb (λ r, bool_decide (reason_code r = NO_TRADES)) (reasons availability))
     then [no_trades_reason] else []) in
  v ← venue_values s view pc window_trades previous_trades start decision window_seconds;
  let rs := unique (rs ++ if vv_statistical_warm v then [] else [not_warm_reason]) in
  lineage ← liftM (source_lineage o start decision view pc);
  liftM (mk_venue_snapshot s view lineage decision window_seconds v
    (is_warm availability && vv_statistical_warm v && negb no_trades) (is_healthy availability) rs).

Definition calculate_all (states : list state_object) (decision_timestamp : datetime)
    : EM (list FeatureSnapshot) :=
  mapMs (λ x, calculate x.1 decision_timestamp x.2)
    (concat (map (λ o, map (pair o) (svc_feature_windows_seconds c)) states)).
End engine.
