(* ===== verification/SingleResult.v ===== *)
(** * What a single-venue snapshot promises

    The gates of a snapshot and the reasons it gives for them, the inputs a warm
    snapshot has, the statistics a new book generation drops, and the comparison of
    two venues' snapshots ([CrossResult]) without any assumption on how complete they are. *)

From S2P Require Import Prelude Effects PyDecimal PyFloat PyTime Models Lineage Rolling BookState MarketState Availability PriceCache FeatureModels MetricHistory SingleVenue CrossVenue CrossAlign CrossSelect CrossResult.
Open Scope Z_scope.

(** ** Calculations that keep the statistics sound

    [keeps m Q]: [m] keeps the readiness invariant of the history, even if it raises,
    and its result satisfies [Q]. *)

Definition engine_sound (e : SingleVenueEngine) : Prop := ready_sound (sve_history e).

Abbreviation keeps := (keepsM engine_sound).

(** A ready statistic is one of a value. *)
Lemma keeps_record key t v : keeps (record_metric key t v) (λ a, a.2 = true → v ≠ None).
Proof.
  intros e e' r He. unfold record_metric, zoomM.
  destruct (record key t v (sve_history e)) as [h r'] eqn:E. intros [= <- <-].
  destruct (record_ready key t v _ h r' He E) as [Hh Hr]. split; [done|].
  destruct r' as [[z b]|x]; [|done]. simpl. intros ->. by destruct (Hr z eq_refl).
Qed.

(** A part of the engine that is not the history. *)
Lemma keeps_zoom_other {T A} (get : SingleVenueEngine → T) set (m : M T A) :
  (∀ t e, sve_history (set t e) = sve_history e) → keeps (zoomM get set m) (λ _, True).
Proof.
  intros Hset e e' r He. unfold zoomM. destruct (m (get e)) as [t r']. intros [= <- <-].
  unfold engine_sound. rewrite Hset. split; [done|]. by destruct r'.
Qed.

(** The next step of a calculation. *)
Ltac keeps_step :=
  lazymatch goal with
  | |- keepsM _ (mbind _ (liftM _)) _ => eapply keeps_bind; [apply keeps_any|intros ? _]
  | |- keepsM _ (mbind _ (record_metric _ _ _)) _ => eapply keeps_bind; [apply keeps_record|intros [? ?] ?]
  | |- keepsM _ (mret _) _ => apply keeps_ret
  end.

(** ** The reasons of a snapshot *)

Definition available_codes : list FeatureUnavailableCode := warm_codes ++ health_codes.

Lemma none_of_cons_codes code codes l :
  none_of (code :: codes) l = negb (existsb (λ r, bool_decide (reason_code r = code)) l) && none_of codes l.
Proof.
  unfold none_of. rewrite <- negb_orb. f_equal. induction l as [|r l IH]; [done|]. simpl. rewrite IH.
  destruct (decide (reason_code r = code)) as [E|E].
  - rewrite (bool_decide_eq_true_2 (reason_code r = code)) by done.
    rewrite bool_decide_eq_true_2; [done|]. rewrite E. by left.
  - rewrite (bool_decide_eq_false_2 (reason_code r = code)) by done. simpl.
    rewrite (bool_decide_ext (reason_code r ∈ code :: codes) (reason_code r ∈ codes)) 
      by (rewrite elem_of_cons; split; [by intros [?|?]|by right]).
    rewrite !orb_assoc. f_equal. apply orb_comm.
Qed.

Lemma evaluate_codes w s d warmup stale_after blocked a :
  evaluate_availability w s d warmup stale_after blocked false = Ok a →
  Forall (λ r, reason_code r ∈ available_codes) (reasons a).
Proof.
  unfold evaluate_availability. intros H.
  repeat lazymatch type of H with mbind _ _ = _ => apply bind_Ok in H as (? & _ & H) end.
  injection H as <-. cbn [reasons]. rewrite !Forall_app. unfold available_codes, warm_codes, health_codes.
  repeat match goal with
  | |- _ ∧ _ => split
  | |- Forall _ (map (blocked_reason s) _) =>
      rewrite Forall_map; apply Forall_forall; intros ? _; unfold compose; simpl; set_solver
  | |- Forall _ (if ?b then _ else _) => destruct b
  | |- Forall _ (match ?o with Some _ => _ | None => _ end) => destruct o
  | |- Forall _ [] => constructor
  | |- Forall _ [_] => constructor; [simpl; set_solver|constructor]
  end.
Qed.

Lemma availability_codes w s d warmup stale_after blocked view a :
  availability_as_of w s d warmup stale_after blocked view = Ok a →
  is_warm a = none_of warm_codes (reasons a) ∧ is_healthy a = none_of health_codes (reasons a) ∧
  ∀ r, r ∈ reasons a → reason_code r ∈ available_codes.
Proof.
  unfold availability_as_of. intros (current & Hcur & [= <-])%bind_Ok. cbn [is_warm is_healthy reasons].
  split; [done|]. split; [done|]. intros r. rewrite unique_elem, !elem_of_app.
  apply evaluate_codes in Hcur. rewrite Forall_forall in Hcur. unfold available_codes, warm_codes, health_codes in *.
  intros [[Hr _]%filter_elem|[Hr|Hr]]; [by apply Hcur| |].
  - destruct (negb _); [|by apply elem_of_nil in Hr]. apply list_elem_of_singleton in Hr as ->. simpl. set_solver.
  - assert (r = warmup_reason) as ->; [|simpl; set_solver].
    destruct (fv_synchronized_since view); [destruct (_ <? _)|];
      by (apply list_elem_of_singleton in Hr || apply elem_of_nil in Hr).
Qed.

(** The reasons say exactly which gates are closed. *)
Definition gates_explained (f : FeatureSnapshot) : Prop :=
  fs_is_warm f = none_of (NOT_WARM :: warm_codes) (fs_unavailable_reasons f) ∧
  fs_is_healthy f = none_of health_codes (fs_unavailable_reasons f) ∧
  (fs_unavailable_reasons f = [] ↔ fs_is_warm f = true ∧ fs_is_healthy f = true).

Lemma none_of_app_codes c1 c2 l : none_of (c1 ++ c2) l = none_of c1 l && none_of c2 l.
Proof.
  induction c1 as [|x c1 IH]; simpl.
  - unfold none_of at 2. replace (existsb _ l) with false; [done|]. symmetry. by induction l.
  - by rewrite !none_of_cons_codes, IH, andb_assoc.
Qed.

Lemma none_of_complete codes l :
  (∀ r, r ∈ l → reason_code r ∈ codes) → none_of codes l = true → l = [].
Proof.
  intros Hl Hn. rewrite none_of_spec in Hn. destruct l as [|r l]; [done|].
  destruct (Hn r ltac:(by left)). apply Hl. by left.
Qed.

(** The lists [calculate] extends. *)
Lemma reasons_explained a (statistical_warm no_trades : bool) :
  is_warm a = none_of warm_codes (reasons a) → is_healthy a = none_of health_codes (reasons a) →
  (∀ r, r ∈ reasons a → reason_code r ∈ available_codes) →
  let rs := unique ((reasons a ++
    (if no_trades && negb (existsb (λ r, bool_decide (reason_code r = NO_TRADES)) (reasons a))
     then [no_trades_reason] else [])) ++ if statistical_warm then [] else [not_warm_reason]) in
  is_warm a && statistical_warm && negb no_trades = none_of (NOT_WARM :: warm_codes) rs ∧
  is_healthy a = none_of health_codes rs ∧
  (rs = [] ↔ is_warm a && statistical_warm && negb no_trades = true ∧ is_healthy a = true).
Proof.
  intros Hw Hh Hc rs.
  assert (existsb (λ r, bool_decide (reason_code r = NOT_WARM)) (reasons a) = false) as Hnw.
  { apply not_true_iff_false. intros (r & Hr & E)%existsb_exists. apply bool_decide_eq_true in E.
    apply list_elem_of_In, Hc in Hr. rewrite E in Hr.
    unfold available_codes, warm_codes, health_codes in Hr. simpl in Hr. set_unfold in Hr.
    by destruct_or! Hr. }
  assert (none_of (NOT_WARM :: warm_codes) rs = is_warm a && statistical_warm && negb no_trades) as E1.
  { set (seen := existsb (λ r, bool_decide (reason_code r = NO_TRADES)) (reasons a)) in *.
    assert (seen = true → is_warm a = false) as Hseen.
    { intros (r & Hr & Er)%existsb_exists. apply bool_decide_eq_true in Er. rewrite Hw.
      apply negb_false_iff, existsb_exists. exists r. split; [done|]. rewrite Er. done. }
    subst rs. rewrite none_of_unique, !none_of_app, (none_of_cons_codes _ _ (reasons a)), Hnw, <- Hw.
    destruct statistical_warm, no_trades, seen; simpl; rewrite ?andb_true_r, ?andb_false_r; auto. }
  assert (none_of health_codes rs = is_healthy a) as E2.
  { subst rs. rewrite none_of_unique, !none_of_app, <- Hh.
    destruct statistical_warm, (no_trades && _); simpl; by rewrite ?andb_true_r. }
  split; [done|]. split; [done|]. rewrite <- E1, <- E2. split; [by intros ->|]. intros [H1 H2].
  apply (none_of_complete (NOT_WARM :: available_codes)).
  - intros r. subst rs. rewrite unique_elem, !elem_of_app. unfold available_codes, warm_codes in *.
    intros [[Hr|Hr]|Hr].
    + right. by apply Hc.
    + destruct (no_trades && _); [|by apply elem_of_nil in Hr].
      apply list_elem_of_singleton in Hr as ->. simpl. set_solver.
    + destruct statistical_warm; [by apply elem_of_nil in Hr|].
      apply list_elem_of_singleton in Hr as ->. by left.
  - change (NOT_WARM :: available_codes) with ((NOT_WARM :: warm_codes) ++ health_codes).
    by rewrite none_of_app_codes, H1, H2.
Qed.

Section single.
Context (c : SingleVenueSettings) (digest : Z → event → string) (fingerprint : SourceLineage → string)
  (feature_id : SingleIdentity → UUID) (config_hash : string) (math_log : float → res float)
  (address : Z → stream → Z → Z).

Abbreviation EM := (M SingleVenueEngine).

Lemma keeps_price_cache o : keeps (price_cache digest math_log address o) (λ _, True).
Proof. by apply keeps_zoom_other. Qed.

Lemma ready_sound_clear scope h : ready_sound h → ready_sound (clear_scope scope h).
Proof.
  intros Hh key m Hget. apply (Hh key). unfold clear_scope in Hget. simpl in Hget.
  rewrite (dict_get_filter_key (λ k, negb (String.prefix scope k))) in Hget. by destruct (negb _).
Qed.

Lemma keeps_note_generation s view : keeps (note_generation s view) (λ _, True).
Proof.
  intros e e' r He. unfold note_generation, getM, modifyM, mbind, M_bind.
  destruct (dict_get _ (book_generations e)) as [g|]; [destruct (negb _)|]; intros [= <- <-];
    (split; [|done]); [by apply ready_sound_clear|done..].
Qed.

Definition flow_ready (a : TradeFlowFeatureValues * bool) : Prop :=
  a.2 = true → taker_imbalance a.1 ≠ None.

Lemma keeps_trade_flow l1 l2 decision prefix :
  keeps (trade_flow_values c l1 l2 decision prefix) flow_ready.
Proof.
  unfold trade_flow_values. cbv zeta. keeps_step. keeps_step. do 3 keeps_step.
  eapply keeps_bind; [apply keeps_lift|].
  { intros v Hv. unfold validate_trade_flow in Hv. apply bind_Ok in Hv as (_ & _ & [= <-]).
    instantiate (1 := λ v, taker_imbalance v = a). done. }
  intros v Hv. keeps_step. unfold flow_ready. simpl. by rewrite Hv.
Qed.

Definition price_ready (a : PriceFeatureValues * option float * bool) : Prop :=
  a.2 = true → return_value a.1.1 ≠ None.

Lemma keeps_price_values pc start decision prefix :
  keeps (price_values c pc start decision prefix) price_ready.
Proof.
  unfold price_values. cbv zeta. keeps_step. keeps_step. keeps_step. keeps_step.
  eapply keeps_bind; [apply keeps_any|]. intros [high low] _. keeps_step.
  eapply keeps_bind; [apply keeps_lift|].
  { intros v Hv. unfold validate_price in Hv. apply bind_Ok in Hv as (_ & _ & [= <-]).
    instantiate (1 := λ v, return_value v = a0). done. }
  intros v Hv. keeps_step. unfold price_ready. simpl. by rewrite Hv.
Qed.

Definition oi_ready (a : option OpenInterestFeatureValues * option float * bool) : Prop :=
  a.2 = true → a.1.1 ≫= percentage_change ≠ None.

Lemma keeps_open_interest s start decision prefix :
  keeps (open_interest_values s start decision prefix) oi_ready.
Proof.
  unfold open_interest_values. cbv zeta. do 2 keeps_step. destruct a as [latest|].
  2: { keeps_step. by unfold oi_ready. }
  do 2 keeps_step. eapply keeps_bind; [apply keeps_lift|].
  { intros v Hv. unfold validate_open_interest in Hv. apply bind_Ok in Hv as (_ & _ & [= <-]).
    instantiate (1 := λ v, percentage_change v = a). done. }
  intros v Hv. keeps_step. unfold oi_ready. simpl. by rewrite Hv.
Qed.

Definition crowding_ready (a : CrowdingFeatureValues * bool) : Prop :=
  a.2 = true → crowding_funding_rate a.1 ≠ None.

Lemma keeps_crowding s decision prefix bias price_return oi_change :
  keeps (crowding_values s decision prefix bias price_return oi_change) crowding_ready.
Proof.
  unfold crowding_values. cbv zeta. do 4 keeps_step. keeps_step. keeps_step.
  eapply keeps_bind; [apply keeps_lift|].
  { intros v Hv. unfold validate_crowding in Hv. apply bind_Ok in Hv as (_ & _ & [= <-]).
    instantiate (1 := λ v, crowding_funding_rate v = (λ x, funding_rate (tv_value x)) <$> a). done. }
  intros v Hv. keeps_step. unfold crowding_ready. simpl. rewrite Hv.
  intros [_ Hb]%andb_true_iff E. destruct a; [done|]. by destruct (H0 Hb).
Qed.

Lemma keeps_liquidation s start decision prefix oi_change :
  keeps (liquidation_values s start decision prefix oi_change) (λ _, True).
Proof. unfold liquidation_values. cbv zeta. do 3 keeps_step. by keeps_step. Qed.

(** ** The values together *)

Lemma order_book_values_present s view start decision v :
  order_book_values c s view start decision = Ok (Some v) → book_mid_price v ≠ None.
Proof.
  unfold order_book_values. destruct (negb _); [done|].
  destruct (fv_bids view) as [|bid ?], (fv_asks view) as [|ask ?]; try done.
  intros H. repeat lazymatch type of H with mbind _ _ = _ => apply bind_Ok in H as (? & _ & H) end.
  unfold validate_order_book in H. destruct (finite_fields _); [|done]. cbn in H.
  by injection H as <-.
Qed.

Definition values_ready (v : VenueValues) : Prop :=
  vv_statistical_warm v = true →
  taker_imbalance (vv_trade_flow v) ≠ None ∧
  vv_order_book v ≫= book_mid_price ≠ None ∧ vv_order_book v ≫= book_order_flow_imbalance ≠ None ∧
  return_value (vv_price v) ≠ None ∧ vv_open_interest v ≫= percentage_change ≠ None ∧
  crowding_funding_rate (vv_crowding v) ≠ None.

Lemma keeps_venue_values s view pc l1 l2 start decision window :
  keeps (venue_values c s view pc l1 l2 start decision window) values_ready.
Proof.
  unfold venue_values. cbv zeta.
  eapply keeps_bind; [apply keeps_trade_flow|]. intros [flow b1] H1.
  eapply keeps_bind; [apply keeps_lift; intros book Hbook; exact Hbook|]. intros book Hbook.
  keeps_step. rename b into b2, H into H2.
  eapply keeps_bind; [apply keeps_price_values|]. intros [[price z] b3] H3.
  eapply keeps_bind; [apply keeps_open_interest|]. intros [[oi z'] b4] H4.
  eapply keeps_bind; [apply keeps_crowding|]. intros [crowding b5] H5.
  eapply keeps_bind; [apply keeps_liquidation|]. intros [liquidation b6] _.
  keeps_step. unfold values_ready. cbn [vv_statistical_warm vv_trade_flow vv_order_book vv_price
    vv_open_interest vv_crowding forallb id].
  rewrite !andb_true_iff. intros (E1 & E2 & E3 & E4 & E5 & _).
  specialize (H1 E1). specialize (H2 E2). specialize (H3 E3). specialize (H4 E4). specialize (H5 E5).
  simpl in *. destruct book as [book|]; [|done]. apply order_book_values_present in Hbook.
  destruct oi as [oi|]; [|done]. simpl in *. by split_and!.
Qed.

(** ** [calculate] *)

Abbreviation calculate := (SingleVenue.calculate c digest fingerprint feature_id config_hash math_log address).

Definition warm_has_inputs (f : FeatureSnapshot) : Prop :=
  fs_is_warm f = true → inputs_present f = true.

Definition venue_snapshot_ok (decision : Z) (f : FeatureSnapshot) : Prop :=
  gates_explained f ∧ warm_has_inputs f ∧ validate_feature_snapshot f = Ok f ∧
  fs_decision_timestamp f = decision.

Lemma validate_self x f : validate_feature_snapshot x = Ok f → f = x ∧ validate_feature_snapshot f = Ok f.
Proof.
  intros H. assert (f = x) as ->; [|done]. unfold validate_feature_snapshot in H.
  repeat lazymatch type of H with mbind _ _ = _ => apply bind_Ok in H as (? & _ & H) end.
  by injection H as <-.
Qed.

Lemma mk_venue_snapshot_ok s view lineage decision w v warm healthy rs f :
  mk_venue_snapshot c fingerprint feature_id config_hash s view lineage decision w v warm healthy rs = Ok f →
  values_ready v → (warm = true → vv_statistical_warm v = true) →
  warm = none_of (NOT_WARM :: warm_codes) rs → healthy = none_of health_codes rs →
  (rs = [] ↔ warm = true ∧ healthy = true) → venue_snapshot_ok decision f.
Proof.
  unfold mk_venue_snapshot. cbv zeta. intros (m & _ & H)%bind_Ok Hv Hw E1 E2 E3.
  apply validate_self in H as [-> H]. split; [by split_and!|]. split; [|by split].
  intros Hwarm. destruct (Hv (Hw Hwarm)) as (V1 & V2 & V3 & V4 & V5 & V6).
  unfold inputs_present, mid_price_of. simpl. cbn [fs_order_book fs_price fs_trade_flow fs_open_interest fs_crowding].
  destruct (vv_order_book v) as [b|]; [|done]. destruct (vv_open_interest v) as [oi|]; [|done]. simpl in *.
  destruct (book_mid_price b), (return_value (vv_price v)), (taker_imbalance (vv_trade_flow v)),
    (book_order_flow_imbalance b), (percentage_change oi), (crowding_funding_rate (vv_crowding v)); done.
Qed.

Lemma keeps_calculate o ts w :
  keeps (calculate o ts w) (λ f, ∃ decision, price_utc ts = Ok decision ∧ venue_snapshot_ok decision f).
Proof.
  unfold SingleVenue.calculate. cbv zeta.
  eapply keeps_bind; [apply keeps_lift; intros d Hd; exact Hd|]. intros decision Hd.
  eapply keeps_bind; [apply keeps_require|intros _ _].
  eapply keeps_bind; [apply keeps_price_cache|intros pc _]. keeps_step. rename a into view.
  eapply keeps_bind; [apply keeps_note_generation|intros _ _].
  eapply keeps_bind; [apply keeps_lift; intros a Ha; exact (availability_codes _ _ _ _ _ _ _ _ Ha)|].
  intros a (A1 & A2 & A3). do 2 keeps_step. rename a0 into window_trades.
  eapply keeps_bind; [apply keeps_venue_values|]. intros v Hv. keeps_step. rename a0 into lineage.
  apply keeps_lift. intros f Hf. exists decision. split; [done|].
  destruct (reasons_explained a (vv_statistical_warm v) (bool_decide (length window_trades = 0%nat)) A1 A2 A3)
    as (R1 & R2 & R3).
  eapply mk_venue_snapshot_ok; [exact Hf|done| |exact R1|exact R2|exact R3].
  rewrite !andb_true_iff. tauto.
Qed.

(** The engines that calls of [calculate], raising or not, lead to. *)
Inductive engine_reach : SingleVenueEngine → Prop :=
| reach_init : engine_reach (engine_init c)
| reach_calculate e o ts w : engine_reach e → engine_reach (calculate o ts w e).1.

Lemma engine_reach_sound e : engine_reach e → engine_sound e.
Proof.
  induction 1 as [|e o ts w _ IH]; [done|].
  destruct (calculate o ts w e) as [e' r] eqn:E. by destruct (keeps_calculate o ts w e e' r IH E).
Qed.

Lemma engine_snapshot_ok e o ts w e' f :
  engine_reach e → calculate o ts w e = (e', Ok f) →
  ∃ decision, price_utc ts = Ok decision ∧ venue_snapshot_ok decision f.
Proof. intros He%engine_reach_sound E. by destruct (keeps_calculate o ts w e e' (Ok f) He E). Qed.
End single.

(** C13. A snapshot says why it is not available: it is warm exactly when none of its
    reasons is about warmth, healthy exactly when none is about health, and it has no
    reason exactly when it is both. *)
Theorem snapshot_gates_explained c digest fingerprint feature_id config_hash math_log address e o ts w e' f :
  engine_reach c digest fingerprint feature_id config_hash math_log address e →
  SingleVenue.calculate c digest fingerprint feature_id config_hash math_log address o ts w e = (e', Ok f) →
  fs_is_warm f = none_of (NOT_WARM :: warm_codes) (fs_unavailable_reasons f) ∧
  fs_is_healthy f = none_of health_codes (fs_unavailable_reasons f) ∧
  (fs_unavailable_reasons f = [] ↔ fs_is_warm f = true ∧ fs_is_healthy f = true).
Proof.
  intros He E. by destruct (engine_snapshot_ok _ _ _ _ _ _ _ e o ts w e' f He E) as (_ & _ & H & _).
Qed.

(** C12. Whatever calculations came before, raising or not, a warm snapshot has the
    inputs of every comparison: mid price, return, taker imbalance, order flow
    imbalance, open-interest change and funding rate. *)
Theorem warm_snapshot_has_inputs c digest fingerprint feature_id config_hash math_log address e o ts w e' f :
  engine_reach c digest fingerprint feature_id config_hash math_log address e →
  SingleVenue.calculate c digest fingerprint feature_id config_hash math_log address o ts w e = (e', Ok f) →
  fs_is_warm f = true →
  inputs_present f = true.
Proof.
  intros He E. by destruct (engine_snapshot_ok _ _ _ _ _ _ _ e o ts w e' f He E) as (_ & _ & _ & H & _).
Qed.

(** A snapshot the single-venue engine returned at some point. *)
Definition engine_snapshot c digest fingerprint feature_id config_hash math_log address (f : FeatureSnapshot) : Prop :=
  ∃ e o ts w e', engine_reach c digest fingerprint feature_id config_hash math_log address e ∧
    SingleVenue.calculate c digest fingerprint feature_id config_hash math_log address o ts w e = (e', Ok f).


(** What the engine remembers under a key. *)
Definition statistics_of (e : SingleVenueEngine) (key : string)
    : option (BoundedTimeWindow float) * option CachedMetric :=
  (dict_get key (mh_windows (sve_history e)), dict_get key (mh_last (sve_history e))).

(** When the book's generation changes, every statistic of the venue and symbol
    starts over, and no other. *)
Theorem new_generation_clears_statistics s view e previous :
  dict_get (vs_exchange s, vs_symbol s) (book_generations e) = Some previous →
  previous ≠ fv_generation view →
  ∃ e', note_generation s view e = (e', Ok tt) ∧
    dict_get (vs_exchange s, vs_symbol s) (book_generations e') = Some (fv_generation view) ∧
    ∀ key, statistics_of e' key =
      if String.prefix (scope_of s) key then (None, None) else statistics_of e key.
Proof.
  intros Hg Hne. unfold note_generation, getM, modifyM, mbind, M_bind. rewrite Hg.
  destruct (Z.eqb_spec previous (fv_generation view)); [done|]. simpl.
  eexists. split; [reflexivity|]. simpl. rewrite dict_get_set_eq by apply pyeq_refl. split; [done|].
  intros key. unfold statistics_of. simpl. rewrite !(dict_get_filter_key (λ k, negb (String.prefix (scope_of s) k))).
  by destruct (String.prefix (scope_of s) key).
Qed.
