(* ===== verification/SingleDemo.v ===== *)
(** * A single-venue calculation evaluated

    The engine of [SingleVenue] run on a small state: the theorems of [SingleResult]
    applied at a warm and healthy snapshot. *)

From S2P Require Import Prelude Effects PyDecimal PyFloat PyTime Models Lineage Rolling BookState MarketState Availability FeatureModels MetricHistory SingleVenue SingleResult.
Open Scope Z_scope.

(** ** A demonstration

    A state with two trades, a book change and one event of each other kind in every
    second: the third decision is warm and healthy. *)

Definition demo_settings : SingleVenueSettings :=
  {| svc_feature_windows_seconds := [1]; svc_zscore_lookback_seconds := 2;
     svc_maximum_events_per_stream := 10; svc_order_book_depth := 1;
     order_book_level_weights := [d1]; large_trade_notional_usdt := of_int 150;
     depth_walk_notional_usdt := of_int 100; abnormal_jump_zscore := float_of_int 4;
     atr_period_seconds := 1; breakout_lookback_seconds := 2; open_interest_stale_after_ms := 15000;
     block_entry_statuses := [DISCONNECTED]; svc_strategy_version := "1"; svc_code_version := "1" |}.

Definition demo_meta (t : Z) : metadata :=
  {| exchange := OKX; symbol := "BTC-USDT-PERP"; exchange_timestamp := t;
     local_receive_timestamp := t; normalization_timestamp := t; sequence_id := None;
     raw_payload_reference := None |}.
Definition demo_trade (t price quantity : Z) (side : AggressorSide) : Trade :=
  {| trade_meta := demo_meta t; trade_id := "1"; trade_price := of_int price;
     trade_quantity := of_int quantity; trade_contract_quantity := None; aggressor_side := side |}.
Definition demo_levels (price quantity : Z) : list OrderBookLevel :=
  [{| level_price := of_int price; level_quantity := of_int quantity |}].
Definition demo_checkpoint (i : Z) : FeatureBookCheckpoint :=
  {| cp_view := {| fv_generation := 1; fv_epoch := 1; fv_sequence_id := Some i;
                   fv_synchronized := true; fv_synchronized_since := Some 0;
                   fv_bids := demo_levels 99 (5 + i); fv_asks := demo_levels 101 5;
                   fv_pending_updates := 0; fv_last_error := None; fv_lineage := empty_lineage |};
     cp_source_event := None;
     cp_change := Some {| bid_quantity_delta := of_int (i * i); ask_quantity_delta := d0;
                          added_bid_quantity := of_int (i * i); added_ask_quantity := d0;
                          removed_bid_quantity := d1; removed_ask_quantity := d0;
                          order_flow_imbalance := of_int (i * i) |} |}.
Definition demo_liquidation (i : Z) : LiquidationEvent :=
  {| liquidation_meta := demo_meta (seconds i); liquidation_id := None; position_side := LONG;
     liquidation_price := of_int 100; liquidation_quantity := of_int (i * i);
     liquidation_contract_quantity := None |}.

Definition fill {T} (w : BoundedTimeWindow T) (l : list (Z * T)) : BoundedTimeWindow T :=
  foldl (λ w x, (append_at w x.1 x.2).1) w l.
Definition each_second {T} (f : Z → T) : list (Z * T) := map (λ i, (seconds i, f i)) [0; 1; 2; 3].
Definition demo_trades : list (Z * Trade) :=
  concat (map (λ i, [(seconds i - 500000, demo_trade (seconds i - 500000) 100 1 BUY);
                     (seconds i, demo_trade (seconds i) (100 + i * i) i SELL)]) [1; 2; 3]).

Definition demo_state_of (s : VenueSymbolState) : VenueSymbolState :=
  {| s with trades := fill (trades s) demo_trades;
            prices := fill (prices s) (map (λ x, (x.1, ETrade x.2)) demo_trades);
            open_interest := fill (open_interest s) (each_second (λ i,
              {| oi_meta := demo_meta (seconds i); open_interest_contracts := of_int (100 + i * i * i);
                 open_interest_base := None; open_interest_quote := None |}));
            funding_rates := fill (funding_rates s) (each_second (λ i,
              {| funding_meta := demo_meta (seconds i); funding_rate := of_int (i * i);
                 next_funding_timestamp := None |}));
            mark_prices := fill (mark_prices s) (each_second (λ i,
              {| mark_meta := demo_meta (seconds i); mark_price := of_int (100 + i * i) |}));
            index_prices := fill (index_prices s) (each_second (λ i,
              {| index_meta := demo_meta (seconds i); index_price := of_int 100 |}));
            liquidations := fill (liquidations s) (each_second demo_liquidation);
            book_history := fill (book_history s) (each_second demo_checkpoint) |}.

Definition demo_object (e : Exchange) (id : Z) : res state_object :=
  s ← create_state MarketState.demo_config e "BTC-USDT-PERP";
  w ← new_window MarketState.demo_config;
  Ok {| state_id := id; state_of := demo_state_of s; state_exchange_health := w |}.

(** The value of a run that does not raise. *)
Definition get_ok {A} (r : res A) : is_ok r = true → A :=
  match r with
  | Ok a => λ _, a
  | Err _ => λ H, False_rect A (Bool.diff_false_true H)
  end.
Lemma get_ok_spec {A} (r : res A) H : r = Ok (get_ok r H).
Proof. by destruct r. Qed.

Lemma demo_okx_ok : is_ok (demo_object OKX 1) = true.
Proof. by vm_compute. Qed.
Lemma demo_binance_ok : is_ok (demo_object BINANCE 2) = true.
Proof. by vm_compute. Qed.
Definition demo_okx : state_object := get_ok _ demo_okx_ok.
Definition demo_binance : state_object := get_ok _ demo_binance_ok.

Definition demo_digest (t : Z) (e : event) : string :=
  "0000000000000000000000000000000000000000000000000000000000000000".
Definition demo_fingerprint (l : SourceLineage) : string := "fingerprint".
Definition demo_feature_id (i : SingleIdentity) : UUID := exchange_value (si_exchange i).
Definition demo_log (x : float) : res float := Ok f0.
Definition demo_address (state : Z) (w : stream) (ordinal : Z) : Z := ordinal.

Abbreviation demo_calculate o i := (SingleVenue.calculate demo_settings demo_digest demo_fingerprint
  demo_feature_id "hash" demo_log demo_address o (utc (seconds i)) 1).
Abbreviation demo_reach := (engine_reach demo_settings demo_digest demo_fingerprint demo_feature_id "hash"
  demo_log demo_address).

Definition demo_after (o : state_object) (e : SingleVenueEngine) : SingleVenueEngine :=
  (demo_calculate o 2 (demo_calculate o 1 e).1).1.
Definition demo_engine : SingleVenueEngine := demo_after demo_okx (engine_init demo_settings).
Definition demo_engine' : SingleVenueEngine := demo_after demo_binance demo_engine.

Lemma demo_engine_reach : demo_reach demo_engine ∧ demo_reach demo_engine'.
Proof. split; repeat apply reach_calculate; apply reach_init. Qed.

Lemma demo_okx_run : is_ok (demo_calculate demo_okx 3 demo_engine).2 = true.
Proof. by vm_compute. Qed.
Lemma demo_binance_run : is_ok (demo_calculate demo_binance 3 demo_engine').2 = true.
Proof. by vm_compute. Qed.
Definition demo_okx_snapshot : FeatureSnapshot := get_ok _ demo_okx_run.
Definition demo_binance_snapshot : FeatureSnapshot := get_ok _ demo_binance_run.

Lemma pair_ok {A B} (x : A * res B) H : x = (x.1, Ok (get_ok x.2 H)).
Proof. rewrite <- get_ok_spec. apply surjective_pairing. Qed.

Lemma demo_okx_calculates :
  demo_calculate demo_okx 3 demo_engine =
    ((demo_calculate demo_okx 3 demo_engine).1, Ok demo_okx_snapshot).
Proof. apply pair_ok. Qed.
Lemma demo_binance_calculates :
  demo_calculate demo_binance 3 demo_engine' =
    ((demo_calculate demo_binance 3 demo_engine').1, Ok demo_binance_snapshot).
Proof. apply pair_ok. Qed.

Lemma demo_okx_warm : fs_is_warm demo_okx_snapshot = true ∧ fs_is_healthy demo_okx_snapshot = true.
Proof. by vm_compute. Qed.

Lemma snapshot_gates_explained_witness :
  fs_is_warm demo_okx_snapshot = none_of (NOT_WARM :: warm_codes) (fs_unavailable_reasons demo_okx_snapshot) ∧
  fs_is_healthy demo_okx_snapshot = none_of health_codes (fs_unavailable_reasons demo_okx_snapshot) ∧
  (fs_unavailable_reasons demo_okx_snapshot = [] ↔
     fs_is_warm demo_okx_snapshot = true ∧ fs_is_healthy demo_okx_snapshot = true).
Proof.
  exact (snapshot_gates_explained demo_settings demo_digest demo_fingerprint demo_feature_id "hash" demo_log
    demo_address demo_engine demo_okx (utc (seconds 3)) 1 _ demo_okx_snapshot (proj1 demo_engine_reach)
    demo_okx_calculates).
Defined.

Lemma warm_snapshot_has_inputs_witness :
  fs_is_warm demo_okx_snapshot = true ∧ CrossResult.inputs_present demo_okx_snapshot = true.
Proof.
  split; [exact (proj1 demo_okx_warm)|].
  exact (warm_snapshot_has_inputs demo_settings demo_digest demo_fingerprint demo_feature_id "hash" demo_log
    demo_address demo_engine demo_okx (utc (seconds 3)) 1 _ demo_okx_snapshot (proj1 demo_engine_reach)
    demo_okx_calculates (proj1 demo_okx_warm)).
Defined.

Definition demo_view (generation : Z) : FeatureBookView := {| missing_view with fv_generation := generation |}.

Lemma new_generation_clears_statistics_witness :
  ∃ e', note_generation (state_of demo_okx) (demo_view 2) demo_engine = (e', Ok tt) ∧
    (statistics_of demo_engine "OKX:BTC-USDT-PERP:1:return").2 ≠ None ∧
    statistics_of e' "OKX:BTC-USDT-PERP:1:return" = (None, None).
Proof.
  assert (dict_get (vs_exchange (state_of demo_okx), vs_symbol (state_of demo_okx))
    (book_generations demo_engine) = Some 1) as Hg by by vm_compute.
  destruct (new_generation_clears_statistics (state_of demo_okx) (demo_view 2) demo_engine 1 Hg ltac:(done))
    as (e' & He' & _ & Hkeys).
  exists e'. split; [exact He'|]. split; [by vm_compute|].
  rewrite (Hkeys "OKX:BTC-USDT-PERP:1:return"%string).
  replace (String.prefix (scope_of (state_of demo_okx)) "OKX:BTC-USDT-PERP:1:return") with true; [done|by vm_compute].
Defined.

(** ** The two venues compared *)

Definition nrmb (k : Z) (f : float) : bool :=
  match f with
  | S754_zero _ => true
  | S754_finite _ m e =>
    (2 ^ 52 <=? Z.pos m) && (Z.pos m <? 2 ^ 53) && (- k <=? e) && (e <=? k)
  | _ => false
  end.
Definition moderate_floats (f : FeatureSnapshot) : bool :=
  forallb (λ v, match v with Some x => nrmb 300 x | None => true end) (CrossResult.compared_floats f).

Lemma moderate_floats_spec f : moderate_floats f = true → CrossResult.floats_moderate f.
Proof.
  unfold moderate_floats, CrossResult.floats_moderate. rewrite forallb_forall. intros H. apply Forall_forall.
  intros v Hv%list_elem_of_In. specialize (H v Hv). destruct v as [x|]; [|done].
  destruct x as [s|s| |s m e]; try done. unfold nrmb in H. simpl. lia.
Qed.

Definition demo_pair : list FeatureSnapshot := [demo_okx_snapshot; demo_binance_snapshot].
Definition demo_cross : CrossVenue.CrossVenueSettings :=
  {| CrossVenue.cvc_strategy_version := "1"; CrossVenue.cvc_code_version := "1";
     CrossVenue.canonical_symbols := ["BTC-USDT-PERP"%string]; CrossVenue.feature_windows_seconds := [1];
     CrossVenue.zscore_lookback_seconds := 60; CrossVenue.abnormal_jump_zscore := float_of_int 4;
     CrossVenue.cross_venue_max_snapshot_age_ms := 2000;
     CrossVenue.cross_venue_max_time_difference_ms := 500;
     CrossVenue.cross_venue_zscore_minimum_samples := 2;
     CrossVenue.cross_venue_direction_epsilon := f0;
     CrossVenue.cross_venue_strength_tolerance := f0 |}.

Lemma Forall_pair {A} (P : A → Prop) x y : P x → P y → Forall P [x; y].
Proof. by repeat constructor. Qed.

Lemma demo_okx_newest : newest_source_timestamp demo_okx_snapshot = Some (seconds 3).
Proof. vm_compute. reflexivity. Qed.
Lemma demo_binance_newest : newest_source_timestamp demo_binance_snapshot = Some (seconds 3).
Proof. vm_compute. reflexivity. Qed.
Lemma demo_okx_moderate : CrossResult.floats_moderate demo_okx_snapshot.
Proof. apply moderate_floats_spec. vm_compute. reflexivity. Qed.
Lemma demo_binance_moderate : CrossResult.floats_moderate demo_binance_snapshot.
Proof. apply moderate_floats_spec. vm_compute. reflexivity. Qed.

Lemma demo_pair_engine :
  Forall (λ f, engine_snapshot demo_settings demo_digest demo_fingerprint demo_feature_id "hash" demo_log
      demo_address f ∧ CrossResult.floats_moderate f ∧
    ∀ t, newest_source_timestamp f = Some t → CrossAlign.in_calendar t) demo_pair.
Proof.
  assert (CrossAlign.in_calendar (seconds 3)) as Hcal
    by (unfold CrossAlign.in_calendar, min_datetime, max_datetime, seconds; lia).
  apply Forall_pair.
  - split; [|split; [exact demo_okx_moderate|intros t; rewrite demo_okx_newest; by intros [= <-]]].
    exists demo_engine, demo_okx, (utc (seconds 3)), 1. eexists.
    split; [exact (proj1 demo_engine_reach)|exact demo_okx_calculates].
  - split; [|split; [exact demo_binance_moderate|intros t; rewrite demo_binance_newest; by intros [= <-]]].
    exists demo_engine', demo_binance, (utc (seconds 3)), 1. eexists.
    split; [exact (proj2 demo_engine_reach)|exact demo_binance_calculates].
Qed.

Lemma demo_pair_ids : NoDup (map feature_snapshot_id demo_pair).
Proof.
  assert (map feature_snapshot_id demo_pair = ["OKX"; "BINANCE"]%string) as -> by by vm_compute.
  apply (bool_decide_unpack _). by vm_compute.
Qed.

Lemma demo_pair_spread x y :
  (CrossVenue.select_snapshot (CrossVenue.candidates_of demo_pair "BTC-USDT-PERP" 1) BINANCE (seconds 3)).1 = Some x →
  (CrossVenue.select_snapshot (CrossVenue.candidates_of demo_pair "BTC-USDT-PERP" 1) OKX (seconds 3)).1 = Some y →
  CrossResult.spread_in_range demo_cross CrossResult.demo_sha
    (CrossVenue.candidates_of demo_pair "BTC-USDT-PERP" 1) x y (seconds 3) 1 = true.
Proof.
  assert ((CrossVenue.select_snapshot (CrossVenue.candidates_of demo_pair "BTC-USDT-PERP" 1) BINANCE (seconds 3)).1 =
    Some demo_binance_snapshot) as -> by by vm_compute.
  assert ((CrossVenue.select_snapshot (CrossVenue.candidates_of demo_pair "BTC-USDT-PERP" 1) OKX (seconds 3)).1 =
    Some demo_okx_snapshot) as -> by by vm_compute.
  intros Hx%Some_inj Hy%Some_inj. subst. by vm_compute.
Qed.

