(* ===== verification/Timeline.v ===== *)
(** * The receive-time timeline

    [features/runtime.py: ReceiveTimeFeatureDriver]: normalized events buffered, put in
    the order of their receive time within a bounded lateness, and released to the
    event bus between the decision ticks.  Each public method holds the driver's lock,
    so a method is one step here; the bus and the runtime it drives are a [FeatureSink].
    [heapq] on events with distinct ordinals is a sorted list.  The content hash of an
    event is a parameter; cancellation and the live clock's polling are not modelled. *)

From S2P Require Import Prelude Effects PyTime Models Clock.
From stdpp Require Import pretty.
Open Scope Z_scope.

(** ** Buffered events *)

Record QueuedFeatureEvent := {
  q_receive_timestamp : Z;
  q_exchange : string;
  q_symbol : string;
  q_event_type : string;
  q_sequence_id : string;
  q_raw_payload_reference : string;
  q_content_identity : string;
  q_ordinal : Z;
  q_event : event }.

(** The tuple the dataclass compares: every field but the event. *)
Definition queue_key (q : QueuedFeatureEvent)
    : Z * (string * (string * (string * (string * (string * (string * Z)))))) :=
  (q_receive_timestamp q, (q_exchange q, (q_symbol q, (q_event_type q, (q_sequence_id q,
    (q_raw_payload_reference q, (q_content_identity q, q_ordinal q))))))).

Definition key_leb : _ → _ → bool :=
  lex_leb Z.leb (lex_leb String.leb (lex_leb String.leb (lex_leb String.leb (lex_leb String.leb
    (lex_leb String.leb (lex_leb String.leb Z.leb)))))).
Definition queued_leb (a b : QueuedFeatureEvent) : bool := key_leb (queue_key a) (queue_key b).

(** ** The driver *)

(** What the driver calls: the event bus, and the runtime at a tick. *)
Class FeatureSink (E : Type) := {
  bus_publish : event → M E unit;
  bus_drain : M E unit;
  consume_tick : DecisionTick → M E unit }.

(** [timedelta]s in microseconds. *)
Record TimelineSettings := {
  receive_time_reorder : Z;
  consumer_queue_capacity : Z;
  feature_update : Z;
  signal_check : Z }.

Record ReceiveTimeFeatureDriver := {
  dr_scheduler : option DecisionScheduler;
  dr_events : list QueuedFeatureEvent;
  dr_ordinal : Z;
  dr_watermark : option Z;
  dr_maximum_seen : option Z;
  dr_sealed : bool;
  dr_failure : option exn }.

Definition driver_init : ReceiveTimeFeatureDriver :=
  {| dr_scheduler := None; dr_events := []; dr_ordinal := 0; dr_watermark := None;
     dr_maximum_seen := None; dr_sealed := false; dr_failure := None |}.

Definition timeline_utc (d : datetime) : res Z :=
  as_utc "feature timeline timestamps must be timezone-aware" d.

Section driver.
Context {E : Type} `{!FeatureSink E}.
Context (c : TimelineSettings).
(** [sha256_text(model_payload_json(event))]. *)
Context (content_identity : event → string).

Abbreviation DM := (M (ReceiveTimeFeatureDriver * E)).

Definition sink {A} (m : M E A) : DM A := zoomM snd (λ e p, (p.1, e)) m.
Definition modifyD (f : ReceiveTimeFeatureDriver → ReceiveTimeFeatureDriver) : DM unit :=
  modifyM (λ p, (f p.1, p.2)).
Definition getD : DM ReceiveTimeFeatureDriver := p ← getM; mret p.1.

Definition sequence_text (s : option seq_id) : string :=
  match s with None => "" | Some (SeqInt n) => pretty n | Some (SeqStr s) => s end.

Definition queued_event (e : event) (timestamp ordinal : Z) : QueuedFeatureEvent :=
  let m := event_meta e in
  {| q_receive_timestamp := timestamp; q_exchange := exchange_value (exchange m);
     q_symbol := symbol m; q_event_type := event_type_value (event_type e);
     q_sequence_id := sequence_text (sequence_id m);
     q_raw_payload_reference := default EmptyString (raw_payload_reference m);
     q_content_identity := content_identity e; q_ordinal := ordinal; q_event := e |}.

(** [_queue_item]. *)
Definition queue_item (e : event) (timestamp : Z) : DM QueuedFeatureEvent :=
  _ ← modifyD (λ d, {| d with dr_ordinal := dr_ordinal d + 1 |});
  d ← getD; mret (queued_event e timestamp (dr_ordinal d)).

Definition emit_ticks_through (target : Z) : DM unit :=
  d ← getD;
  match dr_scheduler d with
  | None => mret tt
  | Some s =>
    if target <? cursor s then mret tt
    else
      due ← liftM (has_due_tick s (utc target));
      if negb due then mret tt
      else
        _ ← sink bus_drain;
        '(s, ticks) ← liftM (scheduler_advance_to s (utc target));
        _ ← modifyD (λ d, {| d with dr_scheduler := Some s |});
        forM (λ t, sink (consume_tick t)) ticks
  end.

(** The inner loop: the events received at [event_timestamp]. *)
Fixpoint publish_received (fuel : nat) (event_timestamp : Z) : DM unit :=
  d ← getD;
  match fuel, dr_events d with
  | S fuel, q :: later =>
    if q_receive_timestamp q =? event_timestamp then
      _ ← modifyD (λ d, {| d with dr_events := later |});
      _ ← sink (bus_publish (q_event q));
      publish_received fuel event_timestamp
    else mret tt
  | _, _ => mret tt
  end.

(** The outer loop: every instant received up to [target], with its ticks before it. *)
Fixpoint release_through (fuel : nat) (target : Z) : DM unit :=
  d ← getD;
  match fuel, dr_events d with
  | S fuel, q :: _ =>
    if q_receive_timestamp q <=? target then
      let event_timestamp := q_receive_timestamp q in
      _ ← match dr_scheduler d with
          | None =>
            s ← liftM (scheduler_init (utc event_timestamp) (feature_update c) (signal_check c));
            modifyD (λ d, {| d with dr_scheduler := Some s |})
          | Some _ => mret tt
          end;
      _ ← emit_ticks_through (event_timestamp - 1);
      d ← getD;
      _ ← publish_received (length (dr_events d)) event_timestamp;
      release_through fuel target
    else mret tt
  | _, _ => mret tt
  end.

Definition advance_locked (target : Z) : DM unit :=
  d ← getD;
  if match dr_watermark d with Some w => target <=? w | None => false end then mret tt
  else
    _ ← release_through (length (dr_events d)) target;
    _ ← emit_ticks_through target;
    modifyD (λ d, {| d with dr_watermark := Some target |}).

Definition publish_locked (e : event) (timestamp : Z) : DM unit :=
  _ ← advance_locked (timestamp - receive_time_reorder c);
  d ← getD;
  _ ← requireM (negb (consumer_queue_capacity c <=? Z.of_nat (length (dr_events d))))
        (RuntimeError "feature timeline reorder buffer is full");
  q ← queue_item e timestamp;
  modifyD (λ d, {| d with
    dr_events := py_insert queued_leb q (dr_events d);
    dr_maximum_seen := Some (match dr_maximum_seen d with
                             | None => timestamp | Some m => Z.max m timestamp end) |}).

Definition raise_if_failed : DM unit :=
  d ← getD;
  requireM (is_none (dr_failure d)) (RuntimeError "feature timeline previously failed").

(** [_run_transition]: what a transition raises fails the driver for good. *)
Definition run_transition (m : DM unit) : DM unit := λ p,
  match m p with
  | (p, Ok u) => (p, Ok u)
  | ((d, e), Err x) => (({| d with dr_failure := Some x |}, e), Err x)
  end.

Definition driver_publish (e : event) : DM unit :=
  _ ← raise_if_failed;
  d ← getD;
  _ ← requireM (negb (dr_sealed d)) (RuntimeError "cannot publish after feature timeline finish");
  let timestamp := local_receive_timestamp (event_meta e) in
  _ ← requireM (negb match dr_watermark d with Some w => timestamp <=? w | None => false end)
        (RuntimeError "normalized event arrived behind the receive-time watermark");
  run_transition (publish_locked e timestamp).

Definition driver_advance_to (timestamp : datetime) : DM unit :=
  _ ← raise_if_failed;
  d ← getD;
  if dr_sealed d then mret tt
  else target ← liftM (timeline_utc timestamp); run_transition (advance_locked target).

Definition driver_finish (through : option datetime) : DM unit :=
  _ ← raise_if_failed;
  d ← getD;
  if dr_sealed d then mret tt
  else run_transition
    (through ← liftM (match through with Some t => Some <$> timeline_utc t | None => Ok None end);
     _ ← match dr_maximum_seen d, through with
         | Some m, Some t => advance_locked (Z.max m t)
         | Some t, None | None, Some t => advance_locked t
         | None, None => mret tt
         end;
     _ ← sink bus_drain;
     modifyD (λ d, {| d with dr_sealed := true |})).
End driver.

(** ** The trace of a driver

    The sink that records the calls it gets, none of which raises. *)

Inductive output := OEvent (e : event) | ODrain | OTick (t : DecisionTick).

#[export] Instance trace_sink : FeatureSink (list output) := {|
  bus_publish e := modifyM (λ tr, tr ++ [OEvent e]);
  bus_drain := modifyM (λ tr, tr ++ [ODrain]);
  consume_tick t := modifyM (λ tr, tr ++ [OTick t]) |}.

Definition event_out (o : output) : option event := match o with OEvent e => Some e | _ => None end.
Definition tick_out (o : output) : option DecisionTick := match o with OTick t => Some t | _ => None end.
Definition events_of (tr : list output) : list event := omap event_out tr.
Definition ticks_of (tr : list output) : list DecisionTick := omap tick_out tr.
Definition recv (e : event) : Z := local_receive_timestamp (event_meta e).

(** A tick comes after the events received by then, and before the later ones. *)
Definition out_before (a b : output) : Prop :=
  match a, b with
  | OEvent e, OTick t => recv e ≤ tick_timestamp t
  | OTick t, OEvent e => tick_timestamp t < recv e
  | OTick t, OTick u => tick_before t u
  | _, _ => True
  end.

Section trace.
Context (c : TimelineSettings) (content_identity : event → string).

Definition interval_for (k : TickKind) : Z :=
  match k with FEATURE => feature_update c | SIGNAL => signal_check c end.

(** The trace [tr] of a scheduler started at [start], with [R] released: its ticks are
    the boundaries of [(start, cursor]] and no later than [b]. *)
Record scheduled (start b : Z) (s : DecisionScheduler) (tr : list output) (R : list QueuedFeatureEvent) : Prop := {
  sc_wf : scheduler_wf s;
  sc_interval : ∀ k, interval_of s k = interval_for k;
  sc_start : start ≤ cursor s;
  sc_ticks : ∀ t, t ∈ ticks_of tr ↔
    start < tick_timestamp t ≤ cursor s ∧ (interval_for (tick_kind t) | tick_timestamp t);
  sc_bound : ∀ t, t ∈ ticks_of tr → tick_timestamp t ≤ b;
  sc_next : ∀ q k, q ∈ R → q_receive_timestamp q ≤ next_of s k }.

Record released (start b : Z) (d : ReceiveTimeFeatureDriver) (tr : list output)
    (R : list QueuedFeatureEvent) : Prop := {
  rl_events : events_of tr = map q_event R;
  rl_order : StronglySorted out_before tr;
  rl_start : ∀ q, head R = Some q → q_receive_timestamp q = start;
  rl_scheduler : match dr_scheduler d with
                 | Some s => scheduled start b s tr R
                 | None => ticks_of tr = [] ∧ R = []
                 end }.

Lemma wp_getD {E} Q (p : ReceiveTimeFeatureDriver * E) : Q p.1 p → wpM getD Q p.
Proof. done. Qed.
Lemma wp_modifyD {E} f Q (p : ReceiveTimeFeatureDriver * E) : Q tt (f p.1, p.2) → wpM (modifyD f) Q p.
Proof. done. Qed.

Lemma events_of_app a b : events_of (a ++ b) = events_of a ++ events_of b.
Proof. apply omap_app. Qed.
Lemma ticks_of_app a b : ticks_of (a ++ b) = ticks_of a ++ ticks_of b.
Proof. apply omap_app. Qed.

Lemma ticks_of_elem tr t : t ∈ ticks_of tr ↔ OTick t ∈ tr.
Proof.
  unfold ticks_of. rewrite list_elem_of_omap. split; [|by exists (OTick t)].
  by intros ([e| |u] & Ho & [= ->]).
Qed.
Lemma events_of_elem tr e : e ∈ events_of tr ↔ OEvent e ∈ tr.
Proof.
  unfold events_of. rewrite list_elem_of_omap. split; [|by exists (OEvent e)].
  by intros ([u| |t] & Ho & [= ->]).
Qed.

Lemma first_after_least k i n m : 0 < i → first_after k i n → (i | m) → k < m → n ≤ m.
Proof. intros Hi [[p ->] [? ?]] [q ->] Hm. assert (¬ q < p) by nia. nia. Qed.

(** The trace of a list of ticks. *)
Lemma forM_ticks ticks (p : ReceiveTimeFeatureDriver * list output) :
  forM (λ t, sink (consume_tick t)) ticks p = ((p.1, p.2 ++ map OTick ticks), Ok tt).
Proof.
  revert p. induction ticks as [|t ticks IH]; intros [d tr]; simpl; [by rewrite app_nil_r|].
  unfold mbind, M_bind, sink at 1, zoomM, modifyM. simpl. rewrite IH. simpl. by rewrite <- app_assoc.
Qed.

(** Which event the queued form came from; what release order asks of the buffer. *)
Definition queued_ok (q : QueuedFeatureEvent) : Prop := q_receive_timestamp q = recv (q_event q).

Lemma head_app_some {A} (l1 l2 : list A) x : head l1 = Some x → head (l1 ++ l2) = Some x.
Proof. by destruct l1. Qed.

Lemma next_at_least s k t :
  scheduler_wf s → (interval_of s k | t) → cursor s < t → next_of s k ≤ t.
Proof. intros Hwf Hd Ht. destruct (Hwf k) as [Hi Hf]. by apply (first_after_least (cursor s) (interval_of s k)). Qed.

Lemma tick_outputs l : ticks_of (ODrain :: map OTick l) = l ∧ events_of (ODrain :: map OTick l) = [].
Proof.
  unfold ticks_of, events_of. simpl. induction l as [|t l [IH1 IH2]]; [done|]. simpl. by rewrite IH1, IH2.
Qed.

(** New ticks after the cursor of the scheduler. *)
Lemma scheduled_advance start b s tr R target s' ticks :
  scheduled start b s tr R → StronglySorted out_before tr → events_of tr = map q_event R →
  Forall queued_ok R → cursor s ≤ target →
  scheduler_advance_to s (utc target) = Ok (s', ticks) →
  let tr' := tr ++ ODrain :: map OTick ticks in
  scheduled start (Z.max b target) s' tr' R ∧ StronglySorted out_before tr' ∧
  events_of tr' = map q_event R ∧ ∀ k, target < next_of s' k.
Proof.
  intros [Hwf Hi Hst Ht Hb Hn] Hs He Hok Hle Hadv tr'.
  destruct (scheduler_advance_facts s (utc target) target s' ticks Hwf (scheduler_utc_utc target) Hadv)
    as (_ & Hc & Hwf' & Hsort & Hmem).
  pose proof (scheduler_advance_intervals _ _ _ _ Hadv) as Hi'.
  assert (∀ k, target < next_of s' k) as Hnext.
  { intros k. destruct (Hwf' k) as [_ [_ Hf]]. lia. }
  assert (ticks_of tr' = ticks_of tr ++ ticks) as Htr'.
  { subst tr'. rewrite ticks_of_app. f_equal. apply (proj1 (tick_outputs ticks)). }
  assert (events_of tr' = events_of tr) as Hev.
  { subst tr'. rewrite events_of_app. by rewrite (proj2 (tick_outputs ticks)), app_nil_r. }
  split; [split|split; [|split; [by rewrite Hev|done]]].
  - done.
  - intros k. by rewrite Hi', Hi.
  - lia.
  - intros t. rewrite Htr', elem_of_app, Ht, Hmem, Hc. unfold due_tick. rewrite Hi.
    split; [intros [[? ?]|[? ?]]; split; (lia || done)|]. intros [? ?].
    destruct (Z.le_gt_cases (tick_timestamp t) (cursor s)); [left|right]; split; (lia || done).
  - intros t. rewrite Htr', elem_of_app, Hmem. unfold due_tick. intros [Hin|[? _]]; [|lia].
    specialize (Hb t Hin). lia.
  - intros q k Hq. specialize (Hn q k Hq). specialize (Hnext k). destruct (Hwf' k) as [_ [Hd _]].
    rewrite Hi' in Hd. etransitivity; [exact Hn|]. apply next_at_least; [done|done|lia].
  - apply StronglySorted_app; [done| |].
    + constructor; [|by apply Forall_forall].
      clear - Hsort. induction Hsort as [|t l Hs IH Hall]; [constructor|]. simpl. constructor; [done|].
      rewrite Forall_map. by eapply Forall_impl.
    + intros x y Hx Hy. apply elem_of_cons in Hy as [->|(t & -> & Hin)%list_elem_of_fmap]; [by destruct x|].
      apply Hmem in Hin as [Hr Hd]. destruct x as [e| |u]; simpl; [|done|].
      * apply events_of_elem in Hx. rewrite He in Hx. apply list_elem_of_fmap in Hx as (q & -> & Hq).
        rewrite Forall_forall in Hok. rewrite <- (Hok q Hq).
        etransitivity; [by apply (Hn q (tick_kind t))|]. apply next_at_least; [done|done|lia].
      * left. apply ticks_of_elem, Ht in Hx. lia.
Qed.

Lemma scheduled_weaken start b b' s tr R :
  scheduled start b s tr R → b ≤ b' → scheduled start b' s tr R.
Proof. intros [Hwf Hi Hst Ht Hb Hn] Hle. split; try done. intros t Hin. specialize (Hb t Hin). lia. Qed.

(** [emit_ticks_through] leaves no boundary up to its target. *)
Lemma emit_wp d tr start b R target :
  released start b d tr R → Forall queued_ok R →
  wpM (emit_ticks_through target) (λ _ p,
    ∃ o, p.1 = {| d with dr_scheduler := o |} ∧ is_none o = is_none (dr_scheduler d) ∧
      released start (Z.max b target) p.1 p.2 R ∧
      ∀ s k, o = Some s → target < next_of s k) (d, tr).
Proof.
  intros [He Hs Hst Hsc] Hok. unfold emit_ticks_through, getD.
  apply wp_bind, wp_bind, wp_get, wp_ret. simpl.
  destruct (dr_scheduler d) as [s|] eqn:Es.
  2: { apply wp_ret. exists None. destruct d; simpl in *; subst. split; [done|]. split; [done|].
       split; [split; simpl; done|by intros]. }
  pose proof (sc_wf _ _ _ _ _ Hsc) as Hwf.
  destruct (Z.ltb_spec target (cursor s)) as [Hlt|Hle].
  { apply wp_ret. exists (Some s). destruct d; simpl in *; subst. split; [done|]. split; [done|].
    split; [split; simpl; try done; apply (scheduled_weaken _ b); [done|lia]|].
    intros ? k [= <-]. destruct (Hwf k) as [_ [_ ?]]. lia. }
  apply wp_bind. unfold has_due_tick. eapply wp_lift.
  { rewrite scheduler_utc_utc. cbn [mbind res_bind]. rewrite (proj2 (Z.ltb_ge target (cursor s))) by done. reflexivity. }
  destruct (Z.leb_spec (Z.min (next_feature s) (next_signal s)) target) as [Hdue|Hdue]; simpl.
  - apply wp_bind. unfold sink at 1. unfold bus_drain, trace_sink. unfold wpM at 1, zoomM, modifyM. simpl.
    destruct (scheduler_advance_total s (utc target) target Hwf (scheduler_utc_utc target) Hle) as (s' & ticks & E).
    apply wp_bind. eapply wp_lift; [exact E|]. apply wp_bind. apply wp_modifyD. simpl.
    unfold wpM. rewrite forM_ticks. simpl.
    destruct (scheduled_advance start b s tr R target s' ticks Hsc Hs He Hok Hle E) as (H1 & H2 & H3 & H4).
    exists (Some s'). rewrite <- app_assoc. split; [done|]. split; [done|].
    split; [by split|]. by intros ? k [= <-].
  - apply wp_ret. exists (Some s). destruct d; simpl in *; subst. split; [done|]. split; [done|].
    split; [split; simpl; try done; apply (scheduled_weaken _ b); [done|lia]|].
    intros ? k [= <-]. destruct k; simpl; lia.
Qed.

Definition time_sorted (l : list QueuedFeatureEvent) : Prop :=
  StronglySorted (λ a b, q_receive_timestamp a ≤ q_receive_timestamp b) l.

(** One more event at an instant all ticks so far are before. *)
Lemma released_snoc start b d tr R q later :
  released start b d tr R → is_Some (dr_scheduler d) → queued_ok q → b < q_receive_timestamp q →
  (R = [] → q_receive_timestamp q = start) →
  (∀ s k, dr_scheduler d = Some s → q_receive_timestamp q ≤ next_of s k) →
  released start b {| d with dr_events := later |} (tr ++ [OEvent (q_event q)]) (R ++ [q]).
Proof.
  intros [He Hs Hst Hsc] [s Es] Hq Hb Hstart Hnext. split.
  - by rewrite events_of_app, He, map_app.
  - apply StronglySorted_app; [done|by repeat constructor|].
    intros x y Hx ->%list_elem_of_singleton. destruct x as [e| |u]; simpl; [done..|].
    rewrite Es in Hsc. rewrite <- Hq. apply ticks_of_elem, (sc_bound _ _ _ _ _ Hsc) in Hx. lia.
  - intros x. destruct R as [|r R]; simpl; [intros [= <-]; auto|apply Hst].
  - simpl. rewrite Es in *. destruct Hsc as [H1 H2 H3 H4 H5 H6].
    assert (ticks_of (tr ++ [OEvent (q_event q)]) = ticks_of tr) as Et
      by (rewrite ticks_of_app; apply app_nil_r).
    split; try done.
    + intros t. by rewrite Et.
    + intros t. rewrite Et. apply H5.
    + intros x k [Hx| ->%list_elem_of_singleton]%elem_of_app; [by apply H6|by apply Hnext].
Qed.

Lemma publish_received_wp fuel d tr start b R t :
  released start b d tr R → is_Some (dr_scheduler d) → b < t → (R = [] → t = start) →
  (∀ s k, dr_scheduler d = Some s → t ≤ next_of s k) →
  Forall queued_ok (dr_events d) → time_sorted (dr_events d) →
  Forall (λ q, t ≤ q_receive_timestamp q) (dr_events d) → (length (dr_events d) ≤ fuel)%nat →
  wpM (publish_received fuel t) (λ _ p,
    ∃ G rest, dr_events d = G ++ rest ∧ p.1 = {| d with dr_events := rest |} ∧
      released start b p.1 p.2 (R ++ G) ∧ Forall (λ q, q_receive_timestamp q = t) G ∧
      Forall (λ q, t < q_receive_timestamp q) rest) (d, tr).
Proof.
  revert d tr R. induction fuel as [|fuel IH]; intros d tr R Hr Hsome Hb Hstart Hnext Hok Hsort Hge Hfuel;
    cbn [publish_received]; apply wp_bind, wp_getD; simpl;
    destruct (dr_events d) as [|q later] eqn:Ed; try (simpl in Hfuel; lia).
  1,2: apply wp_ret; exists [], []; rewrite (app_nil_r R); destruct d; simpl in *; subst; by split_and!.
  apply Forall_cons in Hok as [Hq Hok]. apply StronglySorted_inv in Hsort as [Hsort Hall].
  pose proof Hge as [Hgq Hgl]%Forall_cons. simpl in Hfuel.
  destruct (Z.eqb_spec (q_receive_timestamp q) t) as [Et|Et].
  - apply wp_bind. apply wp_modifyD. simpl.
    apply wp_bind. unfold sink at 1, bus_publish, trace_sink. unfold wpM at 1, zoomM, modifyM. simpl.
    eapply wp_mono.
    { apply (IH _ _ (R ++ [q])); [|done|done| |done|done|done|done|simpl; lia].
      - apply released_snoc; try done; rewrite Et; auto.
      - by intros []%app_nil. }
    intros _ [d' tr'] (G & rest & E & Ed' & Hrel & HG & Hrest). exists (q :: G), rest.
    simpl in E. split; [by rewrite E|]. split; [exact Ed'|]. split; [by rewrite <- app_assoc in Hrel|].
    split; [by constructor|done].
  - apply wp_ret. exists [], (q :: later). rewrite (app_nil_r R).
    split; [done|]. split; [destruct d; simpl in *; by subst|]. split; [destruct d; simpl in *; by subst|].
    split; [constructor|]. constructor; [lia|].
    eapply Forall_impl; [exact Hall|]. intros x Hx. simpl in *. lia.
Qed.

Context (settings_positive : ∀ k, 0 < interval_for k).

Lemma scheduler_init_scheduled t :
  ∃ s, scheduler_init (utc t) (feature_update c) (signal_check c) = Ok s ∧ cursor s = t ∧
    ∀ b tr, ticks_of tr = [] → scheduled t b s tr [].
Proof using settings_positive.
  pose proof (settings_positive FEATURE) as Hf. pose proof (settings_positive SIGNAL) as Hs. simpl in Hf, Hs.
  assert (∃ s, scheduler_init (utc t) (feature_update c) (signal_check c) = Ok s ∧ cursor s = t ∧
    ∀ k, interval_of s k = interval_for k) as (s & E & Ec & Ei).
  { unfold scheduler_init, next_boundary. rewrite scheduler_utc_utc. cbn [mbind res_bind].
    destruct (Z.leb_spec (feature_update c) 0), (Z.leb_spec (signal_check c) 0); try lia.
    rewrite (proj2 (Z.leb_le 1 (feature_update c))), (proj2 (Z.leb_le 1 (signal_check c))) by lia.
    eexists. split; [reflexivity|]. split; [done|]. by intros []. }
  exists s. split; [done|]. split; [done|]. intros b tr Ht. split; try done.
  - by eapply scheduler_init_wf.
  - lia.
  - intros u. rewrite Ec, Ht. split; [by intros ?%elem_of_nil|lia].
  - intros u. rewrite Ht. by intros ?%elem_of_nil.
  - by intros q k ?%elem_of_nil.
Qed.

Definition release_post d R start target (p : ReceiveTimeFeatureDriver * list output) : Prop :=
  ∃ R' rest o, R ++ dr_events d = R' ++ rest ∧
    p.1 = {| d with dr_scheduler := o; dr_events := rest |} ∧
    released start target p.1 p.2 R' ∧ (is_none o = true ∨ R' ≠ []) ∧
    (Forall (λ q, q_receive_timestamp q ≤ target) R → Forall (λ q, q_receive_timestamp q ≤ target) R') ∧
    Forall (λ q, target < q_receive_timestamp q) rest.

Lemma released_weaken start b b' d tr R : released start b d tr R → b ≤ b' → released start b' d tr R.
Proof.
  intros [He Hs Hst Hsc] Hle. split; try done. destruct (dr_scheduler d); [|done].
  by apply (scheduled_weaken _ b).
Qed.

Lemma release_stop d tr start b R target :
  released start b d tr R → b ≤ target → (is_none (dr_scheduler d) = true ∨ R ≠ []) →
  Forall (λ q, target < q_receive_timestamp q) (dr_events d) → release_post d R start target (d, tr).
Proof.
  intros Hr Hb Hs Hl. exists R, (dr_events d), (dr_scheduler d).
  split; [done|]. split; [by destruct d|]. split; [by apply (released_weaken _ b)|]. by split_and!.
Qed.

(** A scheduler for the first event. *)
Lemma ensure_scheduler_wp d tr start b R q :
  released start b d tr R →
  (if is_none (dr_scheduler d) then q_receive_timestamp q = start else R ≠ []) →
  wpM (match dr_scheduler d with
       | None =>
         s ← liftM (scheduler_init (utc (q_receive_timestamp q)) (feature_update c) (signal_check c));
         modifyD (λ d, {| d with dr_scheduler := Some s |})
       | Some _ => mret tt
       end : M (ReceiveTimeFeatureDriver * list output) unit)
    (λ _ p, ∃ s, p.1 = {| d with dr_scheduler := Some s |} ∧ released start b p.1 p.2 R ∧
                 (R = [] → q_receive_timestamp q = start)) (d, tr).
Proof using settings_positive.
  intros Hr Hstart. pose proof Hr as [He Hs Hst Hsc]. destruct (dr_scheduler d) as [s|] eqn:Es; simpl in *.
  - apply wp_ret. exists s. split; [destruct d; simpl in *; by subst|]. split; [done|]. intros HR. by destruct Hstart.
  - destruct Hsc as [Ht ->]. destruct (scheduler_init_scheduled (q_receive_timestamp q)) as (s & E & _ & Hsc).
    apply wp_bind. eapply wp_lift; [exact E|]. apply wp_modifyD. simpl.
    exists s. split; [done|]. split; [|done]. split; try done. simpl. rewrite <- Hstart. by apply Hsc.
Qed.

(** Everything received up to the target, in order. *)
Lemma release_wp fuel d tr start b R target :
  released start b d tr R → Forall queued_ok (R ++ dr_events d) → time_sorted (dr_events d) →
  Forall (λ q, b < q_receive_timestamp q) (dr_events d) →
  (if is_none (dr_scheduler d) then ∀ q, head (dr_events d) = Some q → q_receive_timestamp q = start
   else R ≠ []) →
  (length (dr_events d) ≤ fuel)%nat → b ≤ target →
  wpM (release_through c fuel target) (λ _, release_post d R start target) (d, tr).
Proof using settings_positive.
  revert d tr R b. induction fuel as [|fuel IH]; intros d tr R b Hr Hok Hsort Hb Hstart Hfuel Hbt;
    cbn [release_through]; apply wp_bind, wp_getD; cbn [fst];
    destruct (dr_events d) as [|q later] eqn:Ed; try (simpl in Hfuel; lia).
  1,2: apply wp_ret, (release_stop _ _ _ b); [done|done|destruct (is_none _); auto|by rewrite Ed].
  apply StronglySorted_inv in Hsort as Hsort'. destruct Hsort' as [_ Hall].
  apply Forall_cons in Hb as Hb'. destruct Hb' as [Hbq _].
  destruct (Z.leb_spec (q_receive_timestamp q) target) as [Hq|Hq].
  2: { apply wp_ret, (release_stop _ _ _ b); [done|done|destruct (is_none _); auto|]. rewrite Ed.
       constructor; [done|]. eapply Forall_impl; [exact Hall|]. intros x Hx. simpl in *. lia. }
  apply wp_bind. eapply wp_mono.
  { apply (ensure_scheduler_wp d tr start b R q Hr). destruct (is_none _); [by apply Hstart|done]. }
  intros _ [d1 tr1] (s1 & Ed1 & Hr1 & Hst1). cbn [fst] in Ed1.
  apply wp_bind. eapply wp_mono.
  { apply (emit_wp d1 tr1 start b R (q_receive_timestamp q - 1)); [done|]. by apply Forall_app in Hok as [? _]. }
  intros _ [d2 tr2] (o2 & Ed2 & Hn2 & Hr2 & Hnext2). cbn [fst snd] in *.
  assert (dr_scheduler d1 = Some s1) as Es1 by by subst d1. rewrite Es1 in Hn2.
  destruct o2 as [s2|]; [|done].
  assert (dr_events d2 = q :: later) as Eev by by subst d2 d1.
  apply wp_bind, wp_getD. cbn [fst].
  apply wp_bind. eapply wp_mono.
  { apply (publish_received_wp _ d2 tr2 start (q_receive_timestamp q - 1) R (q_receive_timestamp q));
      rewrite ?Eev.
    - apply (released_weaken _ (b `max` (q_receive_timestamp q - 1))); [exact Hr2|lia].
    - subst d2. by eexists.
    - lia.
    - done.
    - intros s k Hs. subst d2. simpl in Hs. injection Hs as <-. specialize (Hnext2 s2 k eq_refl). lia.
    - by apply Forall_app in Hok as [_ ?].
    - done.
    - constructor; [lia|done].
    - done. }
  intros _ [d3 tr3] (G & rest & EG & Ed3 & Hr3 & HG & Hrest). cbn [fst] in *. rewrite Eev in EG.
  destruct G as [|g G].
  { exfalso. simpl in EG. subst rest. apply Forall_cons in Hrest as [Hrest _]. lia. }
  injection EG as <- Elater.
  assert (dr_events d3 = rest) as Er by by subst d3.
  eapply wp_mono.
  { apply (IH d3 tr3 (R ++ q :: G) (q_receive_timestamp q - 1)); try done.
    - rewrite Er, <- app_assoc. simpl. by rewrite <- Elater.
    - rewrite Er. apply StronglySorted_inv in Hsort as [Hsort _]. rewrite Elater in Hsort.
      by apply StronglySorted_app_inv in Hsort as (_ & ? & _).
    - rewrite Er. eapply Forall_impl; [exact Hrest|]. intros x Hx. simpl in *. lia.
    - subst d3 d2 d1. simpl. by destruct R.
    - rewrite Er. simpl in Hfuel. rewrite Elater, length_app in Hfuel. lia.
    - lia. }
  intros _ p (R' & rest' & o & E1 & E2 & E3 & E4 & E5 & E6). exists R', rest', o.
  rewrite Er, <- app_assoc in E1. simpl in E1. rewrite <- Elater in E1. rewrite Ed.
  split; [done|]. split; [by subst d3 d2 d1|]. split; [done|]. split; [done|]. split; [|done].
  intros HR. apply E5. apply Forall_app. split; [done|]. eapply Forall_impl; [exact HG|].
  intros x Hx. simpl in *. lia.
Qed.
End trace.
