(* ===== verification/TimelineExact.v ===== *)
(** * What the receive-time timeline delivers

    The driver of [Timeline] against a reference that sees all events at once: sort them,
    advance one fresh scheduler to the watermark, merge.  Between two operations the trace
    is the reference's for the events received by the watermark, and the buffer holds the
    later ones; so neither the arrival order nor the advances in between matter. *)

From stdpp Require Import sorting.
From S2P Require Import Prelude Effects PyDecimal PyTime Models Clock Timeline.
Open Scope Z_scope.

(** ** The reference *)

Section reference.
Context (c : TimelineSettings) (content_identity : event → string).

(** The order of the events: [queue_key] without the ordinal. *)
Definition event_key (e : event) : Z * (string * (string * (string * (string * (string * string))))) :=
  let m := event_meta e in
  (recv e, (exchange_value (exchange m), (symbol m, (event_type_value (event_type e),
    (sequence_text (sequence_id m), (default EmptyString (raw_payload_reference m), content_identity e)))))).
Definition event_leb (a b : event) : bool :=
  lex_leb Z.leb (lex_leb String.leb (lex_leb String.leb (lex_leb String.leb (lex_leb String.leb
    (lex_leb String.leb String.leb))))) (event_key a) (event_key b).

(** Each tick after the events received by then. *)
Fixpoint merge_calls (es : list event) : list DecisionTick → list output :=
  match es with
  | [] => map OTick
  | e :: es' =>
    fix go ticks :=
      match ticks with
      | [] => map OEvent (e :: es')
      | t :: ticks' =>
        if recv e <=? tick_timestamp t then OEvent e :: merge_calls es' ticks
        else OTick t :: go ticks'
      end
  end.

(** What [es], received by [w], make of the timeline up to [w]. *)
Definition timeline_calls (es : list event) (w : Z) : res (list output) :=
  match py_sorted event_leb es with
  | [] => Ok []
  | (first :: _) as sorted =>
    s ← scheduler_init (utc (recv first)) (feature_update c) (signal_check c);
    '(_, ticks) ← scheduler_advance_to s (utc w);
    Ok (merge_calls sorted ticks)
  end.

Definition is_call (o : output) : bool := match o with ODrain => false | _ => true end.
Definition calls_of (tr : list output) : list output := List.filter is_call tr.

Lemma event_leb_pre : total_leb (lex_leb Z.leb (lex_leb String.leb (lex_leb String.leb (lex_leb String.leb
  (lex_leb String.leb (lex_leb String.leb String.leb)))))).
Proof. auto 10 with cvf_order. Qed.

Lemma event_leb_total a b : event_leb a b = false → event_leb b a = true.
Proof. apply (tl_total _ event_leb_pre). Qed.
Lemma event_leb_trans a b d : event_leb a b = true → event_leb b d = true → event_leb a d = true.
Proof. apply (tl_trans _ event_leb_pre). Qed.
Lemma event_leb_key a b : event_leb a b = true → event_leb b a = true → event_key a = event_key b.
Proof. apply (tl_antisym _ event_leb_pre). Qed.
Lemma event_leb_time a b : event_leb a b = true → recv a ≤ recv b.
Proof.
  unfold event_leb, event_key, lex_leb at 1. cbn [fst snd].
  destruct (decide (recv a = recv b)); [lia|]. apply Z.leb_le.
Qed.

Lemma lex_leb_true {A B} `{EqDecision A} (la : A → A → bool) (lb : B → B → bool) x y :
  x.1 = y.1 → lex_leb la lb x y = lb x.2 y.2.
Proof. intros H. unfold lex_leb. by rewrite decide_True. Qed.

(** A later arrival goes after its equals. *)
Lemma queued_leb_event a b i j :
  j < i → queued_leb (queued_event content_identity a (recv a) i) (queued_event content_identity b (recv b) j) =
          negb (event_leb b a).
Proof.
  intros Hij. unfold queued_leb, queue_key, queued_event. cbn [q_receive_timestamp q_exchange q_symbol
    q_event_type q_sequence_id q_raw_payload_reference q_content_identity q_ordinal].
  destruct (decide (event_key a = event_key b)) as [E|E].
  - assert (event_leb b a = true) as ->.
    { unfold event_leb. rewrite E. destruct (lex_leb _ _ _ _) eqn:H; [done|].
      by rewrite (tl_total _ event_leb_pre _ _ H) in H. }
    unfold event_key in E. cbv zeta in E. injection E as E1 E2 E3 E4 E5 E6 E7.
    unfold key_leb. repeat (rewrite lex_leb_true by (cbn [fst snd]; assumption); cbn [snd]).
    cbn [negb]. apply Z.leb_gt. lia.
  - assert (∀ x y, event_key x ≠ event_key y → event_leb x y = key_leb
      (queue_key (queued_event content_identity x (recv x) i)) (queue_key (queued_event content_identity y (recv y) j))) as Hk.
    { intros x y Hn. unfold event_leb, key_leb, queue_key, queued_event, event_key, lex_leb in *.
      cbn [fst snd q_receive_timestamp q_exchange q_symbol
        q_event_type q_sequence_id q_raw_payload_reference q_content_identity q_ordinal] in *.
      repeat case_decide; try done. exfalso. apply Hn. congruence. }
    transitivity (event_leb a b); [by rewrite Hk|].
    destruct (event_leb b a) eqn:Hba; simpl; [|by apply event_leb_total].
    destruct (event_leb a b) eqn:Hab; [|done]. destruct E. by apply event_leb_key.
Qed.

(** ** The reference from a trace *)

Lemma merge_calls_nil_r es : merge_calls es [] = map OEvent es.
Proof. by destruct es. Qed.

Lemma merge_calls_cons e es t ticks :
  merge_calls (e :: es) (t :: ticks) =
  if recv e <=? tick_timestamp t then OEvent e :: merge_calls es (t :: ticks)
  else OTick t :: merge_calls (e :: es) ticks.
Proof. done. Qed.

Lemma calls_of_merge tr :
  StronglySorted out_before tr → calls_of tr = merge_calls (events_of tr) (ticks_of tr).
Proof.
  induction 1 as [|o tr Hs IH Hall]; [done|]. rewrite Forall_forall in Hall.
  destruct o as [e| |t].
  - change (OEvent e :: calls_of tr = merge_calls (e :: events_of tr) (ticks_of tr)). rewrite IH.
    destruct (ticks_of tr) as [|t ticks] eqn:E.
    + by rewrite merge_calls_nil_r.
    + rewrite merge_calls_cons. rewrite (proj2 (Z.leb_le _ _)); [done|].
      apply (Hall (OTick t)), ticks_of_elem. rewrite E. left.
  - exact IH.
  - change (OTick t :: calls_of tr = merge_calls (events_of tr) (t :: ticks_of tr)). rewrite IH.
    destruct (events_of tr) as [|e es] eqn:E; [done|].
    rewrite merge_calls_cons. rewrite (proj2 (Z.leb_gt _ _)); [done|].
    apply (Hall (OEvent e)), events_of_elem. rewrite E. left.
Qed.

Lemma ticks_of_sorted tr : StronglySorted out_before tr → StronglySorted tick_before (ticks_of tr).
Proof.
  induction 1 as [|o tr Hs IH Hall]; [constructor|]. destruct o as [e| |t]; [exact IH|exact IH|].
  change (StronglySorted tick_before (t :: ticks_of tr)). constructor; [done|]. rewrite Forall_forall in Hall. apply Forall_forall.
  intros u Hu. apply (Hall (OTick u)). by apply ticks_of_elem.
Qed.
End reference.

(** ** Between two operations *)

Section rest.
Context (c : TimelineSettings) (content_identity : event → string).
Context (settings_positive : ∀ k, 0 < interval_for c k).

Abbreviation leb := (event_leb content_identity).

Definition seen_step (m : option Z) (e : event) : option Z :=
  Some (match m with None => recv e | Some m => Z.max m (recv e) end).
Definition maximum_received (es : list event) : option Z := foldl seen_step None es.

Definition behind (w : option Z) (t : Z) : Prop := match w with Some w => t ≤ w | None => False end.
#[export] Instance behind_dec w t : Decision (behind w t).
Proof. destruct w; simpl; apply _. Defined.
Definition watermark_after (w : option Z) (t : Z) : Z := match w with Some w => Z.max w t | None => t end.

Definition item_ok (n : Z) (q : QueuedFeatureEvent) : Prop :=
  q = queued_event content_identity (q_event q) (recv (q_event q)) (q_ordinal q) ∧ q_ordinal q ≤ n.

(** [es] published so far: a released part, no later than the watermark, and the buffer. *)
Record timeline_inv (es : list event) (d : ReceiveTimeFeatureDriver) (tr : list output)
    (R : list QueuedFeatureEvent) (start b : Z) : Prop := {
  ti_failure : dr_failure d = None;
  ti_maximum : dr_maximum_seen d = maximum_received es;
  ti_items : map q_event (R ++ dr_events d) = py_sorted leb es;
  ti_ok : Forall (item_ok (dr_ordinal d)) (R ++ dr_events d);
  ti_released : released c start b d tr R;
  ti_started : is_none (dr_scheduler d) = true ∨ R ≠ [];
  ti_later : Forall (λ q, b < q_receive_timestamp q) (dr_events d);
  ti_watermark : match dr_watermark d with
                 | None => dr_scheduler d = None
                 | Some w => b = w ∧ Forall (λ q, q_receive_timestamp q ≤ w) R ∧
                             ∀ s k, dr_scheduler d = Some s → w < next_of s k
                 end }.

Lemma item_time n q : item_ok n q → q_receive_timestamp q = recv (q_event q).
Proof. by intros [E _]; rewrite E at 1. Qed.

Lemma items_queued_ok n l : Forall (item_ok n) l → Forall queued_ok l.
Proof. intros H. eapply Forall_impl; [exact H|]. intros q. apply item_time. Qed.

Lemma sorted_times l n :
  Forall (item_ok n) l → StronglySorted (λ a b, leb a b = true) (map q_event l) → time_sorted l.
Proof.
  induction l as [|q l IH]; intros Hok Hs; [constructor|]. apply Forall_cons in Hok as [Hq Hok].
  cbn [map] in Hs. apply StronglySorted_inv in Hs as [Hs Hall]. constructor; [by apply IH|]. rewrite Forall_map in Hall.
  rewrite Forall_forall in Hok, Hall. apply Forall_forall. intros x Hx.
  rewrite (item_time _ _ Hq), (item_time _ _ (Hok x Hx)). eapply event_leb_time, (Hall x Hx).
Qed.

Lemma released_idle start b d tr R start' b' :
  dr_scheduler d = None → released c start b d tr R → released c start' b' d tr R ∧ R = [].
Proof.
  intros E [He Hs Hst Hsc]. rewrite E in Hsc. destruct Hsc as [Ht ->]. split; [|done]. by split; rewrite ?E.
Qed.

Lemma inv_init : timeline_inv [] driver_init [] [] 0 0.
Proof. split; try done; [|by left]. split; try done. constructor. Qed.

Lemma inv_time_sorted es d tr R start b : timeline_inv es d tr R start b → time_sorted (R ++ dr_events d).
Proof.
  intros Hi. apply (sorted_times _ (dr_ordinal d)); [apply Hi|]. rewrite (ti_items _ _ _ _ _ _ Hi).
  apply py_sorted_sorted; [apply event_leb_total|apply event_leb_trans].
Qed.

(** The driver is ready for [release_through]: at its bound, or never started. *)
Lemma inv_release_ready es d tr R start b target :
  timeline_inv es d tr R start b → ¬ behind (dr_watermark d) target →
  ∃ start b, released c start b d tr R ∧ Forall (λ q, b < q_receive_timestamp q) (dr_events d) ∧
    (if is_none (dr_scheduler d) then ∀ q, head (dr_events d) = Some q → q_receive_timestamp q = start
     else R ≠ []) ∧ b ≤ target ∧ Forall (λ q, q_receive_timestamp q ≤ target) R.
Proof.
  intros Hi Hb. destruct (dr_scheduler d) as [s|] eqn:Es; simpl.
  - exists start, b. destruct (ti_started _ _ _ _ _ _ Hi) as [H|H]; [by rewrite Es in H|].
    pose proof (ti_watermark _ _ _ _ _ _ Hi) as Hw. destruct (dr_watermark d) as [w|]; [|congruence].
    simpl in Hb. destruct Hw as (-> & HR & _).
    split; [apply Hi|]. split; [apply Hi|]. split; [done|]. split; [lia|].
    eapply Forall_impl; [exact HR|]. intros q Hq. simpl in Hq. lia.
  - set (start' := match dr_events d with q :: _ => q_receive_timestamp q | [] => 0 end).
    destruct (released_idle start b d tr R start' (Z.min target start' - 1) Es (ti_released _ _ _ _ _ _ Hi)) as [Hr ->].
    pose proof (inv_time_sorted _ _ _ _ _ _ Hi) as Hs. simpl in Hs.
    exists start', (Z.min target start' - 1). split; [done|]. subst start'.
    destruct (dr_events d) as [|q l]; simpl.
    { split; [constructor|]. split; [done|]. split; [lia|constructor]. }
    split; [|split; [by intros ? [= <-]|split; [lia|constructor]]].
    apply StronglySorted_inv in Hs as [_ Hs]. constructor; [lia|].
    eapply Forall_impl; [exact Hs|]. intros x Hx. simpl in Hx. lia.
Qed.

(** An advance that the watermark is not past. *)
Lemma advance_fresh_wp es d tr R start b target :
  timeline_inv es d tr R start b → ¬ behind (dr_watermark d) target →
  wpM (advance_locked c target) (λ _ p, ∃ R' start',
    timeline_inv es p.1 p.2 R' start' target ∧
    (∃ o rest, p.1 = {| d with dr_scheduler := o; dr_events := rest; dr_watermark := Some target |})) (d, tr).
Proof using settings_positive.
  intros Hi Hnb. unfold advance_locked. apply wp_bind, wp_getD. cbn [fst].
  replace (match dr_watermark d with Some w => target <=? w | None => false end) with false.
  2: { destruct (dr_watermark d) as [w|]; [|done]. symmetry. apply Z.leb_gt. simpl in Hnb. lia. }
  destruct (inv_release_ready _ _ _ _ _ _ target Hi Hnb) as (st & b' & Hr & Hb & Hh & Hle & HR).
  pose proof (inv_time_sorted _ _ _ _ _ _ Hi) as Hsort.
  apply StronglySorted_app_inv in Hsort as (_ & Hsort & _).
  apply wp_bind. eapply wp_mono.
  { apply (release_wp c settings_positive _ d tr st b' R target); try done.
    by apply (items_queued_ok (dr_ordinal d)), (ti_ok _ _ _ _ _ _ Hi). }
  intros _ [d1 tr1] (R' & rest & o & Eq & Ed1 & Hr1 & Hst1 & HR' & Hrest). cbn [fst] in Ed1.
  assert (dr_events d1 = rest) as Er by by subst d1.
  pose proof (ti_ok _ _ _ _ _ _ Hi) as Hok. pose proof (ti_items _ _ _ _ _ _ Hi) as Hitems.
  rewrite Eq in Hok, Hitems.
  apply wp_bind. eapply wp_mono.
  { apply (emit_wp c d1 tr1 st target R' target); [exact Hr1|].
    apply (items_queued_ok (dr_ordinal d)). by apply Forall_app in Hok as [? _]. }
  intros _ [d2 tr2] (o2 & Ed2 & Ho2 & Hr2 & Hn2). cbn [fst snd] in *.
  apply wp_modifyD. cbn [fst snd]. exists R', st.
  assert (dr_events d2 = rest) as Er2 by (subst d2; done).
  split; [|exists o2, rest; by subst d2 d1]. split; simpl.
  - subst d2 d1. apply Hi.
  - subst d2 d1. apply Hi.
  - by rewrite Er2.
  - subst d2 d1. exact Hok.
  - destruct Hr2 as [H1 H2 H3 H4]. rewrite Z.max_id in H4. split; done.
  - subst d2. cbn [dr_scheduler]. rewrite Ho2. by subst d1.
  - by rewrite Er2.
  - split; [done|]. split; [by apply HR'|]. intros s k Hs. apply (Hn2 s k). subst d2. exact Hs.
Qed.

Definition dr_frame (d d' : ReceiveTimeFeatureDriver) : Prop :=
  dr_sealed d' = dr_sealed d ∧ dr_ordinal d' = dr_ordinal d.

Lemma advance_locked_wp es d tr R start b target :
  timeline_inv es d tr R start b →
  wpM (advance_locked c target) (λ _ p, ∃ R' start' b', timeline_inv es p.1 p.2 R' start' b' ∧
    dr_watermark p.1 = Some (watermark_after (dr_watermark d) target) ∧ dr_frame d p.1) (d, tr).
Proof using settings_positive.
  intros Hi. destruct (decide (behind (dr_watermark d) target)) as [Hb|Hb].
  - unfold advance_locked. apply wp_bind, wp_getD. cbn [fst].
    destruct (dr_watermark d) as [w|] eqn:Ew; [|done]. simpl in Hb.
    rewrite (proj2 (Z.leb_le _ _)) by done. apply wp_ret. exists R, start, b. cbn [fst snd].
    split; [done|]. split; [|done]. rewrite Ew. simpl. f_equal. lia.
  - eapply wp_mono; [by apply (advance_fresh_wp es d tr R start b)|].
    intros _ [d' tr'] (R' & st & Hi' & o & rest & E). exists R', st, target. split; [done|]. cbn [fst] in *.
    subst d'. split; [|done]. simpl. f_equal. destruct (dr_watermark d) as [w|]; [|done]. simpl in *. lia.
Qed.

(** What is buffered: the events the watermark has not reached. *)
Lemma inv_buffer es d tr R start b :
  timeline_inv es d tr R start b →
  map q_event (dr_events d) = py_sorted leb (filter (λ e, ¬ behind (dr_watermark d) (recv e)) es) ∧
  map q_event R = py_sorted leb (filter (λ e, behind (dr_watermark d) (recv e)) es).
Proof.
  intros Hi. pose proof (ti_ok _ _ _ _ _ _ Hi) as Hok. rewrite Forall_forall in Hok.
  assert (Forall (λ e, behind (dr_watermark d) (recv e)) (map q_event R) ∧
          Forall (λ e, ¬ behind (dr_watermark d) (recv e)) (map q_event (dr_events d))) as [HR HE].
  { pose proof (ti_watermark _ _ _ _ _ _ Hi) as Hw. pose proof (ti_later _ _ _ _ _ _ Hi) as Hl.
    destruct (dr_watermark d) as [w|]; simpl.
    - destruct Hw as (-> & HR & _). rewrite Forall_forall in HR, Hl.
      split; apply Forall_map, Forall_forall; intros q Hq;
        rewrite <- (item_time (dr_ordinal d)) by (apply Hok, elem_of_app; auto); [by apply HR|].
      specialize (Hl q Hq). simpl in Hl. simpl. lia.
    - destruct (ti_released _ _ _ _ _ _ Hi) as [_ _ _ Hs]. rewrite Hw in Hs. destruct Hs as [_ ->].
      split; [constructor|]. apply Forall_true. by intros ? []. }
  rewrite <- !py_sorted_filter by first [apply event_leb_total|apply event_leb_trans].
  rewrite <- (ti_items _ _ _ _ _ _ Hi), map_app, !filter_app. split.
  - rewrite list_filter_none, list_filter_all; [done|done|].
    eapply Forall_impl; [exact HR|]. by intros e He Hn.
  - rewrite list_filter_all, list_filter_none by done. by rewrite (app_nil_r (map q_event R)).
Qed.

(** One more event, buffered. *)
Lemma inv_insert es d tr R start b e :
  timeline_inv es d tr R start b → ¬ behind (dr_watermark d) (recv e) →
  let q := queued_event content_identity e (recv e) (dr_ordinal d + 1) in
  let d' := {| d with dr_ordinal := dr_ordinal d + 1; dr_events := py_insert queued_leb q (dr_events d);
               dr_maximum_seen := Some (match dr_maximum_seen d with
                                        | None => recv e | Some m => Z.max m (recv e) end) |} in
  ∃ b, timeline_inv (es ++ [e]) d' tr R start b.
Proof.
  intros Hi Hnb q d'.
  pose proof (ti_ok _ _ _ _ _ _ Hi) as Hok. pose proof (ti_watermark _ _ _ _ _ _ Hi) as Hw.
  assert (item_ok (dr_ordinal d + 1) q) as Hq by (split; [done|simpl; lia]).
  assert (Forall (item_ok (dr_ordinal d + 1)) (R ++ dr_events d)) as Hok'.
  { eapply Forall_impl; [exact Hok|]. intros x [Hx1 Hx2]. split; [done|lia]. }
  assert (map q_event (R ++ py_insert queued_leb q (dr_events d)) = py_sorted leb (es ++ [e])) as Hit.
  { rewrite py_sorted_snoc by first [apply event_leb_total|apply event_leb_trans].
    rewrite <- (ti_items _ _ _ _ _ _ Hi).
    assert (∀ x, x ∈ R ++ dr_events d → queued_leb q x = negb (leb (q_event x) e)) as Hleb.
    { intros x Hx. rewrite Forall_forall in Hok. destruct (Hok x Hx) as [E Hn]. rewrite E at 1.
      subst q. apply queued_leb_event. lia. }
    assert (R = [] ∨ ∀ x, x ∈ R → leb (q_event x) e = true) as HR.
    { destruct (dr_watermark d) as [w|]; simpl in Hnb.
      - right. intros x Hx. destruct Hw as (_ & Hw & _). rewrite Forall_forall in Hw, Hok.
        specialize (Hw x Hx). simpl in Hw. rewrite (item_time (dr_ordinal d)) in Hw by (apply Hok, elem_of_app; auto).
        destruct (leb (q_event x) e) eqn:E; [done|].
        apply event_leb_total, event_leb_time in E. lia.
      - left. by apply (released_idle start b d tr R 0 0 Hw), Hi. }
    clear -Hleb HR. induction R as [|r R IH]; simpl in *.
    - clear HR. induction (dr_events d) as [|x l IH]; [done|]. simpl.
      rewrite Hleb by left. destruct (negb _); [done|]. simpl. f_equal. apply IH. intros y Hy. apply Hleb. by right.
    - destruct HR as [|HR]; [done|]. rewrite (HR r) by left. simpl. f_equal. apply IH.
      + intros x Hx. apply Hleb. by right.
      + right. intros x Hx. apply HR. by right. }
  destruct (ti_released _ _ _ _ _ _ Hi) as [H1 H2 H3 H4].
  assert (∃ b', (dr_watermark d = None → b' < recv e) ∧ (is_Some (dr_watermark d) → b' = b) ∧ b' ≤ b) as (b' & Hb1 & Hb2 & Hb3).
  { destruct (dr_watermark d); [exists b|exists (Z.min b (recv e - 1))]; (split; [intros; (done || lia)|]);
      (split; [by intros []|lia]). }
  exists b'. split; simpl.
  - apply Hi.
  - unfold maximum_received. rewrite foldl_snoc. by rewrite (ti_maximum _ _ _ _ _ _ Hi).
  - exact Hit.
  - rewrite py_insert_perm. apply Forall_app in Hok' as [? ?]. apply Forall_app. split; [done|]. by constructor.
  - split; try done. simpl. destruct (dr_watermark d).
    + by rewrite Hb2.
    + by rewrite Hw in *.
  - apply Hi.
  - rewrite py_insert_perm. pose proof (ti_later _ _ _ _ _ _ Hi) as Hl. constructor.
    + simpl. destruct (dr_watermark d) as [w|]; [|by apply Hb1]. rewrite Hb2 by done. destruct Hw as (-> & _).
      simpl in Hnb. lia.
    + eapply Forall_impl; [exact Hl|]. intros x Hx. simpl in Hx. lia.
  - destruct (dr_watermark d) as [w|]; [|done]. by rewrite Hb2.
Qed.

(** ** The operations *)

(** The events still buffered when the watermark is at [w]. *)
Definition ahead (w : Z) (es : list event) : list event := filter (λ e, ¬ behind (Some w) (recv e)) es.

Definition behind_error : exn := RuntimeError "normalized event arrived behind the receive-time watermark".
Definition full_error : exn := RuntimeError "feature timeline reorder buffer is full".

Lemma inv_buffer_length es d tr R start b w :
  timeline_inv es d tr R start b → dr_watermark d = Some w → length (dr_events d) = length (ahead w es).
Proof.
  intros Hi Ew. destruct (inv_buffer _ _ _ _ _ _ Hi) as [Hb _]. rewrite Ew in Hb.
  rewrite <- (length_map q_event), Hb. by rewrite py_sorted_perm.
Qed.

Lemma publish_locked_run es d tr R start b e :
  timeline_inv es d tr R start b → 0 < receive_time_reorder c → ¬ behind (dr_watermark d) (recv e) →
  let w := watermark_after (dr_watermark d) (recv e - receive_time_reorder c) in
  ∃ d' tr', dr_frame d d' ∧ dr_watermark d' = Some w ∧
  if consumer_queue_capacity c <=? Z.of_nat (length (ahead w es))
  then publish_locked c content_identity e (recv e) (d, tr) = ((d', tr'), Err full_error)
  else ∃ d'' R' start' b', publish_locked c content_identity e (recv e) (d, tr) = ((d'', tr'), Ok tt) ∧
       timeline_inv (es ++ [e]) d'' tr' R' start' b' ∧ dr_watermark d'' = Some w ∧
       dr_sealed d'' = dr_sealed d.
Proof using settings_positive.
  intros Hi Hpos Hnb w.
  destruct (wp_run _ _ _ (advance_locked_wp es d tr R start b (recv e - receive_time_reorder c) Hi))
    as ([d1 tr1] & [] & E & R' & st' & b' & Hi1 & Ew & Hfr). cbn [fst snd] in Hi1, Ew, Hfr.
  fold w in Ew. exists d1, tr1. split; [done|]. split; [done|].
  pose proof (inv_buffer_length _ _ _ _ _ _ _ Hi1 Ew) as Hlen.
  unfold publish_locked, mbind, M_bind. rewrite E. cbn [getD getM mbind M_bind mret M_ret fst].
  unfold getD, getM, mbind, M_bind, mret, M_ret. cbn [fst snd]. rewrite Hlen.
  destruct (consumer_queue_capacity c <=? Z.of_nat (length (ahead w es))) eqn:Ef; simpl; [done|].
  assert (¬ behind (dr_watermark d1) (recv e)) as Hnb1.
  { rewrite Ew. subst w. destruct (dr_watermark d) as [w0|]; simpl in *; lia. }
  destruct (inv_insert es d1 tr1 R' st' b' e Hi1 Hnb1) as (b2 & Hi2).
  eexists _, R', st', b2. split; [reflexivity|]. split; [exact Hi2|]. split; [exact Ew|].
  by destruct Hfr.
Qed.

(** [es] is what was published, and a sealed driver has released all of it. *)
Definition at_rest (es : list event) (p : ReceiveTimeFeatureDriver * list output) : Prop :=
  (∃ R start b, timeline_inv es p.1 p.2 R start b) ∧
  (dr_sealed p.1 = true → Forall (λ e, behind (dr_watermark p.1) (recv e)) es).

Lemma raise_if_failed_rest (p : ReceiveTimeFeatureDriver * list output) :
  dr_failure p.1 = None → raise_if_failed p = (p, Ok tt).
Proof.
  intros H. unfold raise_if_failed, getD, getM, mbind, M_bind, mret, M_ret, requireM, liftM. cbn [fst]. by rewrite H.
Qed.

(** Why [publish] refuses an event, if it does. *)
Definition publish_error (es : list event) (d : ReceiveTimeFeatureDriver) (e : event) : option exn :=
  if dr_sealed d then Some (RuntimeError "cannot publish after feature timeline finish")
  else if decide (behind (dr_watermark d) (recv e)) then Some behind_error
  else if consumer_queue_capacity c <=?
            Z.of_nat (length (ahead (watermark_after (dr_watermark d) (recv e - receive_time_reorder c)) es))
       then Some full_error
  else None.

Lemma behind_bool w t : match w with Some w => t <=? w | None => false end = bool_decide (behind w t).
Proof. destruct w as [w|]; simpl; [|done]. destruct (Z.leb_spec t w); case_bool_decide; (done || lia). Qed.

Lemma publish_run es p e :
  at_rest es p → 0 < receive_time_reorder c →
  match publish_error es p.1 e with
  | None => ∃ p', driver_publish c content_identity e p = (p', Ok tt) ∧ at_rest (es ++ [e]) p' ∧
      dr_watermark p'.1 = Some (watermark_after (dr_watermark p.1) (recv e - receive_time_reorder c)) ∧
      dr_sealed p'.1 = false
  | Some x => ∃ p', driver_publish c content_identity e p = (p', Err x) ∧
      if decide (x = full_error) then dr_failure p'.1 = Some x else p' = p
  end.
Proof using settings_positive.
  intros [(R & start & b & Hi) Hs] Hpos. destruct p as [d tr]. cbn [fst snd] in *.
  unfold publish_error, driver_publish, mbind, M_bind.
  rewrite raise_if_failed_rest by apply Hi. unfold getD, getM, mbind, M_bind, mret, M_ret, requireM, liftM. cbn [fst].
  destruct (dr_sealed d) eqn:Es; cbn [negb require].
  { exists (d, tr). split; [done|]. by rewrite decide_False by discriminate. }
  rewrite behind_bool. fold (recv e).
  destruct (decide (behind (dr_watermark d) (recv e))) as [Hb|Hb].
  { rewrite bool_decide_true by done. exists (d, tr). split; [done|]. by rewrite decide_False by discriminate. }
  rewrite bool_decide_false by done. cbn [negb require]. unfold run_transition.
  destruct (publish_locked_run es d tr R start b e Hi Hpos Hb) as (d' & tr' & [Hfr _] & Ew & H).
  destruct (_ <=? _).
  - rewrite H. eexists. split; [reflexivity|]. by rewrite decide_True.
  - destruct H as (d'' & R' & st' & b' & -> & Hi' & Ew' & Hs''). exists (d'', tr'). split; [done|].
    rewrite Es in Hs''. split; [|done]. split; [by exists R', st', b'|]. cbn [fst]. by rewrite Hs''.
Qed.

Lemma behind_weaken w w' t u : behind w t → behind (Some (watermark_after w w')) t ∧ (u ≤ w' → behind (Some (watermark_after w w')) u).
Proof. destruct w; simpl; [lia|done]. Qed.

Lemma advance_run es p t target :
  at_rest es p → timeline_utc t = Ok target →
  ∃ p', driver_advance_to c t p = (p', Ok tt) ∧ at_rest es p' ∧ dr_sealed p'.1 = dr_sealed p.1 ∧
    dr_watermark p'.1 = if dr_sealed p.1 then dr_watermark p.1 else Some (watermark_after (dr_watermark p.1) target).
Proof using settings_positive.
  intros [(R & start & b & Hi) Hs] Ht. destruct p as [d tr]. cbn [fst snd] in *.
  unfold driver_advance_to, mbind, M_bind.
  rewrite raise_if_failed_rest by apply Hi. unfold getD, getM, mbind, M_bind, mret, M_ret, liftM. cbn [fst].
  destruct (dr_sealed d) eqn:Es.
  { exists (d, tr). split; [done|]. split; [|done]. split; [by exists R, start, b|]. intros _. by apply Hs. }
  rewrite Ht. unfold run_transition.
  destruct (wp_run _ _ _ (advance_locked_wp es d tr R start b target Hi))
    as ([d1 tr1] & [] & -> & R' & st' & b' & Hi1 & Ew & [Hs1 _]). cbn [fst snd] in *.
  exists (d1, tr1). split; [done|]. split; [|cbn [fst]; by rewrite Hs1].
  split; [by exists R', st', b'|]. cbn [fst]. by rewrite Hs1, Es.
Qed.

Lemma maximum_received_max es :
  match maximum_received es with
  | None => es = []
  | Some m => Forall (λ e, recv e ≤ m) es ∧ Exists (λ e, recv e = m) es
  end.
Proof.
  unfold maximum_received. induction es as [|e es IH] using rev_ind; [done|]. rewrite foldl_snoc.
  destruct (foldl seen_step None es) as [m|]; simpl.
  - destruct IH as [H1 H2]. split.
    + apply Forall_app. split; [|repeat constructor; lia]. eapply Forall_impl; [exact H1|]. intros x Hx. simpl in Hx. lia.
    + apply Exists_app. destruct (Z.le_gt_cases (recv e) m).
      * left. eapply Exists_impl; [exact H2|]. intros x Hx. simpl in Hx. lia.
      * right. constructor. lia.
  - subst es. split; repeat constructor; lia.
Qed.

Lemma inv_sealed es d tr R start b :
  timeline_inv es d tr R start b →
  timeline_inv es {| d with dr_sealed := true |} (tr ++ [ODrain]) R start b.
Proof.
  intros Hi. destruct (ti_released _ _ _ _ _ _ Hi) as [H1 H2 H3 H4].
  assert (events_of (tr ++ [ODrain]) = events_of tr) as Ee by (rewrite events_of_app; apply app_nil_r).
  assert (ticks_of (tr ++ [ODrain]) = ticks_of tr) as Et by (rewrite ticks_of_app; apply app_nil_r).
  split; try apply Hi. split; cbn [dr_scheduler]; [by rewrite Ee| |done|].
  - apply StronglySorted_app; [done|by repeat constructor|]. by intros [] y _ ->%list_elem_of_singleton.
  - destruct (dr_scheduler d); [|by rewrite Et]. destruct H4 as [S1 S2 S3 S4 S5 S6]. by split; rewrite ?Et.
Qed.

(** [max(candidates)] of [finish]. *)
Definition finish_target (es : list event) (through : option Z) : option Z :=
  match maximum_received es, through with
  | Some m, Some t => Some (Z.max m t)
  | Some t, None | None, Some t => Some t
  | None, None => None
  end.

Lemma finish_target_all es through :
  match finish_target es through with
  | Some t => Forall (λ e, recv e ≤ t) es
  | None => es = []
  end.
Proof.
  unfold finish_target. pose proof (maximum_received_max es) as Hm.
  destruct (maximum_received es) as [m|], through as [t|]; try done; [| |by subst].
  - destruct Hm as [Hm _]. eapply Forall_impl; [exact Hm|]. intros x Hx. simpl in Hx. lia.
  - apply Hm.
Qed.

Definition finish_watermark (es : list event) (d : ReceiveTimeFeatureDriver) (through : option Z) : option Z :=
  if dr_sealed d then dr_watermark d
  else match finish_target es through with
       | Some t => Some (watermark_after (dr_watermark d) t)
       | None => dr_watermark d
       end.

Lemma finish_run es p through us :
  at_rest es p → (match through with Some t => Some <$> timeline_utc t | None => Ok None end) = Ok us →
  ∃ p', driver_finish c through p = (p', Ok tt) ∧ at_rest es p' ∧ dr_sealed p'.1 = true ∧
    dr_watermark p'.1 = finish_watermark es p.1 us.
Proof using settings_positive.
  intros [(R & start & b & Hi) Hs] Ht. destruct p as [d tr]. cbn [fst snd] in *.
  unfold driver_finish, finish_watermark, mbind, M_bind.
  rewrite raise_if_failed_rest by apply Hi. unfold getD, getM, mbind, M_bind, mret, M_ret, liftM. cbn [fst].
  destruct (dr_sealed d) eqn:Es.
  { exists (d, tr). split; [done|]. split; [|done]. split; [by exists R, start, b|]. intros _. by apply Hs. }
  rewrite Ht. unfold run_transition. rewrite (ti_maximum _ _ _ _ _ _ Hi).
  pose proof (finish_target_all es us) as Hall.
  replace (match maximum_received es with
           | Some m => match us with Some t => advance_locked c (Z.max m t) | None => advance_locked c m end
           | None => match us with Some t => advance_locked c t | None => λ s, (s, Ok tt) end
           end) with (match finish_target es us with Some t => advance_locked c t | None => λ s, (s, Ok tt) end)
    by (unfold finish_target; by destruct (maximum_received es), us).
  destruct (finish_target es us) as [target|].
  - destruct (wp_run _ _ _ (advance_locked_wp es d tr R start b target Hi))
      as ([d1 tr1] & [] & -> & R' & st' & b' & Hi1 & Ew & _). cbn [fst snd] in *.
    eexists (_, _). split; [reflexivity|]. split; [|done]. split; [exists R', st', b'; by apply inv_sealed|].
    intros _. cbn [fst dr_watermark]. rewrite Ew. eapply Forall_impl; [exact Hall|]. intros e He.
    simpl in *. destruct (dr_watermark d); simpl; lia.
  - eexists (_, _). split; [reflexivity|]. split; [|done]. split; [exists R, start, b; by apply inv_sealed|].
    intros _. subst es. constructor.
Qed.

(** ** Runs *)

Inductive driver_op := Publish (e : event) | Advance (t : datetime) | Finish (through : option datetime).

Definition run_op_on {E} `{!FeatureSink E} (op : driver_op) : M (ReceiveTimeFeatureDriver * E) unit :=
  match op with
  | Publish e => driver_publish c content_identity e
  | Advance t => driver_advance_to c t
  | Finish through => driver_finish c through
  end.
Definition run_op : driver_op → M (ReceiveTimeFeatureDriver * list output) unit := run_op_on.
Definition op_event (op : driver_op) : option event := match op with Publish e => Some e | _ => None end.

Lemma at_rest_init : at_rest [] (driver_init, []).
Proof. split; [exists [], 0, 0; apply inv_init|constructor]. Qed.

Lemma run_op_rest es p op p' :
  0 < receive_time_reorder c → at_rest es p → run_op op p = (p', Ok tt) →
  at_rest (es ++ option_list (op_event op)) p'.
Proof using settings_positive.
  intros Hpos Hr. destruct op as [e|t|th]; simpl; intros E; rewrite ?app_nil_r.
  - pose proof (publish_run es p e Hr Hpos) as H. destruct (publish_error es p.1 e).
    + destruct H as (p1 & H & _). congruence.
    + destruct H as (p1 & H & H1 & _). congruence.
  - destruct (timeline_utc t) as [target|x] eqn:Et.
    + destruct (advance_run es p t target Hr Et) as (p1 & H & H1 & _). congruence.
    + unfold driver_advance_to, mbind, M_bind in E. destruct (raise_if_failed p) as [p1 [[]|]] eqn:Ef; [|done].
      unfold raise_if_failed, getD, getM, mbind, M_bind, mret, M_ret, requireM, liftM in *. cbn [fst] in *.
      injection Ef as <- _. destruct (dr_sealed p.1); [by injection E as <-|]. by rewrite Et in E.
  - destruct (match th with Some t => Some <$> timeline_utc t | None => Ok None end) as [us|x] eqn:Et.
    + destruct (finish_run es p th us Hr Et) as (p1 & H & H1 & _). congruence.
    + unfold driver_finish, mbind, M_bind in E. destruct (raise_if_failed p) as [p1 [[]|]] eqn:Ef; [|done].
      unfold raise_if_failed, getD, getM, mbind, M_bind, mret, M_ret, requireM, liftM, run_transition in *. cbn [fst] in *.
      injection Ef as <- _. destruct (dr_sealed p.1); [by injection E as <-|]. rewrite Et in E. by destruct p.
Qed.

Lemma run_ops_rest ops es p p' :
  0 < receive_time_reorder c → at_rest es p → forM run_op ops p = (p', Ok tt) →
  at_rest (es ++ omap op_event ops) p'.
Proof using settings_positive.
  intros Hpos. revert es p. induction ops as [|op ops IH]; intros es p Hr E.
  - injection E as <-. simpl. by rewrite (app_nil_r es).
  - simpl in E. inv_M. destruct x0. replace (es ++ omap op_event (op :: ops))
      with ((es ++ option_list (op_event op)) ++ omap op_event ops)
      by (rewrite <- app_assoc; f_equal; by destruct op).
    eapply IH; [|done]. by eapply run_op_rest.
Qed.

(** The ticks of a released trace are those of one scheduler advanced in one go. *)
Lemma released_ticks start w tr R s :
  scheduled c start w s tr R → StronglySorted out_before tr → (∀ k, w < next_of s k) → start ≤ w →
  ∃ s0 s', scheduler_init (utc start) (feature_update c) (signal_check c) = Ok s0 ∧
    scheduler_advance_to s0 (utc w) = Ok (s', ticks_of tr).
Proof using settings_positive.
  intros Hsc Hs Hn Hle.
  destruct (scheduler_init_scheduled c settings_positive start) as (s0 & E0 & Ec & Hsc0).
  pose proof (Hsc0 0 [] eq_refl) as [Hwf0 Hi0 _ _ _ _].
  destruct (scheduler_advance_total s0 (utc w) w Hwf0 (scheduler_utc_utc w)) as (s' & ticks & E); [lia|].
  destruct (scheduler_advance_facts s0 (utc w) w s' ticks Hwf0 (scheduler_utc_utc w) E) as (_ & _ & _ & Hsort & Hmem).
  exists s0, s'. split; [done|]. rewrite E. do 2 f_equal.
  apply (StronglySorted_ext tick_before); [exact tick_before_asym|done|by apply ticks_of_sorted|].
  intros t. rewrite Hmem, (sc_ticks _ _ _ _ _ _ Hsc). unfold due_tick. rewrite Ec, Hi0.
  split; intros [Hr Hd]; (split; [|done]).
  - destruct (Z.le_gt_cases (tick_timestamp t) (cursor s)); [lia|].
    exfalso. specialize (Hn (tick_kind t)).
    assert (next_of s (tick_kind t) ≤ tick_timestamp t); [|lia].
    apply next_at_least; [apply Hsc|by rewrite (sc_interval _ _ _ _ _ _ Hsc)|done].
  - assert (t ∈ ticks_of tr) as Hin by by apply (sc_ticks _ _ _ _ _ _ Hsc).
    apply (sc_bound _ _ _ _ _ _ Hsc) in Hin. lia.
Qed.

(** [timeline_calls], from what a driver at rest released. *)
Lemma released_calls es d tr R start w :
  timeline_inv es d tr R start w → dr_watermark d = Some w →
  timeline_calls c content_identity (filter (λ e, behind (Some w) (recv e)) es) w = Ok (calls_of tr).
Proof using settings_positive.
  intros Hi Ew. destruct (inv_buffer _ _ _ _ _ _ Hi) as [_ HR]. rewrite Ew in HR.
  destruct (ti_released _ _ _ _ _ _ Hi) as [He Hs Hst Hsc].
  pose proof (ti_watermark _ _ _ _ _ _ Hi) as Hw. rewrite Ew in Hw. destruct Hw as (_ & Hle & Hn).
  rewrite calls_of_merge by done. rewrite He, HR. unfold timeline_calls. rewrite <- HR.
  destruct R as [|q R]; simpl.
  - destruct (ti_started _ _ _ _ _ _ Hi) as [E|]; [|done]. destruct (dr_scheduler d); [done|].
    by destruct Hsc as [-> _].
  - destruct (dr_scheduler d) as [s|]; [|by destruct Hsc]. apply Forall_cons in Hle as [Hle _].
    pose proof (Hst q eq_refl) as Eq.
    rewrite (item_time (dr_ordinal d) q) in * by (pose proof (ti_ok _ _ _ _ _ _ Hi) as Hok; by apply Forall_cons in Hok as [? _]).
    destruct (released_ticks start w tr (q :: R) s) as (s0 & s' & E0 & E1); try done; [by intros k; apply Hn|lia|].
    by rewrite Eq, E0; cbn [mbind res_bind]; rewrite E1.
Qed.

(** ** Bounded lateness *)

(** Each event less than [receive_time_reorder] later than the latest one before it. *)
Fixpoint lateness_ok (seen : option Z) (es : list event) : bool :=
  match es with
  | [] => true
  | e :: es =>
    match seen with Some m => m - receive_time_reorder c <? recv e | None => true end &&
    lateness_ok (seen_step seen e) es
  end.

Lemma publishes_run es pre p :
  0 < receive_time_reorder c → at_rest pre p → dr_sealed p.1 = false →
  dr_watermark p.1 = (λ m, m - receive_time_reorder c) <$> maximum_received pre →
  lateness_ok (maximum_received pre) es = true →
  Z.of_nat (length (pre ++ es)) ≤ consumer_queue_capacity c →
  ∃ p', forM run_op (map Publish es) p = (p', Ok tt) ∧ at_rest (pre ++ es) p' ∧ dr_sealed p'.1 = false ∧
    dr_watermark p'.1 = (λ m, m - receive_time_reorder c) <$> maximum_received (pre ++ es).
Proof using settings_positive.
  intros Hpos. revert pre p. induction es as [|e es IH]; intros pre p Hr Hs Hw Hl Hcap.
  - exists p. by rewrite (app_nil_r pre).
  - simpl in Hl. apply andb_true_iff in Hl as [Hle Hl].
    pose proof (publish_run pre p e Hr Hpos) as H.
    assert (publish_error pre p.1 e = None) as He.
    { unfold publish_error. rewrite Hs, decide_False.
      - rewrite (proj2 (Z.leb_gt _ _)); [done|]. unfold ahead.
        pose proof (length_filter (λ x, ¬ behind (Some (watermark_after (dr_watermark p.1) (recv e - receive_time_reorder c))) (recv x)) pre) as Hlen.
        rewrite length_app in Hcap. simpl in Hcap. lia.
      - rewrite Hw. destruct (maximum_received pre) as [m|]; simpl; [|tauto]. apply Z.ltb_lt in Hle. lia. }
    rewrite He in H. destruct H as (p1 & E & Hr1 & Hw1 & Hs1).
    assert (maximum_received (pre ++ [e]) = seen_step (maximum_received pre) e) as Hm by (unfold maximum_received; apply foldl_snoc).
    replace (pre ++ e :: es) with ((pre ++ [e]) ++ es) in * by by rewrite <- app_assoc.
    destruct (IH (pre ++ [e]) p1) as (p2 & E2 & H2); try done.
    + rewrite Hw1, Hw, Hm. destruct (maximum_received pre) as [m|]; simpl; [|done]. f_equal. lia.
    + by rewrite Hm.
    + exists p2. split; [|done]. cbn [map forM]. unfold mbind, M_bind. cbn [run_op run_op_on]. by rewrite E.
Qed.

(** Publishing within the lateness and finishing: all is delivered. *)
Lemma publishes_finish es :
  0 < receive_time_reorder c → lateness_ok None es = true → Z.of_nat (length es) ≤ consumer_queue_capacity c →
  ∃ p, forM run_op (map Publish es ++ [Finish None]) (driver_init, []) = (p, Ok tt) ∧
    at_rest es p ∧ dr_sealed p.1 = true ∧ dr_watermark p.1 = maximum_received es.
Proof using settings_positive.
  intros Hpos Hl Hcap.
  destruct (publishes_run es [] (driver_init, []) Hpos at_rest_init eq_refl eq_refl Hl Hcap) as (p & E & Hr & Hs & Hw).
  destruct (finish_run es p None None Hr eq_refl) as (p' & E' & Hr' & Hs' & Hw').
  exists p'. split.
  - clear -E E'. revert E. generalize (driver_init, [] : list output). induction (map Publish es) as [|op ops IH]; intros q E.
    + injection E as ->. cbn [app forM]. unfold mbind, M_bind. cbn [run_op run_op_on]. by rewrite E'.
    + cbn [app forM] in *. unfold mbind, M_bind in *. destruct (run_op op q) as [q1 [[]|]]; [by apply IH|done].
  - split; [done|]. split; [done|]. rewrite Hw'. unfold finish_watermark, finish_target. rewrite Hs, Hw. simpl.
    destruct (maximum_received es) as [m|]; simpl; [|done]. f_equal. lia.
Qed.

Lemma timeline_calls_perm es1 es2 w :
  es1 ≡ₚ es2 → (∀ a b, a ∈ es1 → b ∈ es1 → event_key content_identity a = event_key content_identity b → a = b) →
  timeline_calls c content_identity es1 w = timeline_calls c content_identity es2 w.
Proof.
  intros Hp Hk. unfold timeline_calls.
  assert (py_sorted leb es1 = py_sorted leb es2) as ->; [|done].
  apply (StronglySorted_unique_strong (λ a b, leb a b = true)).
  - intros a b Ha Hb Hab Hba. rewrite py_sorted_elem in Ha. rewrite py_sorted_elem, <- Hp in Hb.
    apply Hk; [done|done|by apply event_leb_key].
  - apply py_sorted_sorted; [apply event_leb_total|apply event_leb_trans].
  - apply py_sorted_sorted; [apply event_leb_total|apply event_leb_trans].
  - by rewrite !py_sorted_perm.
Qed.

Lemma maximum_received_perm es1 es2 : es1 ≡ₚ es2 → maximum_received es1 = maximum_received es2.
Proof.
  intros Hp. pose proof (maximum_received_max es1) as H1. pose proof (maximum_received_max es2) as H2.
  destruct (maximum_received es1) as [m1|], (maximum_received es2) as [m2|]; [|subst..].
  - destruct H1 as [H1 X1], H2 as [H2 X2]. rewrite Hp in H1, X1. f_equal.
    apply Exists_exists in X1 as (x1 & Hx1 & <-). apply Exists_exists in X2 as (x2 & Hx2 & <-).
    rewrite Forall_forall in H1, H2. specialize (H1 x2 Hx2). specialize (H2 x1 Hx1). lia.
  - symmetry in Hp. apply Permutation_nil_l in Hp. subst. by destruct H1 as [_ ?%Exists_nil].
  - apply Permutation_nil_l in Hp. subst. by destruct H2 as [_ ?%Exists_nil].
  - done.
Qed.

Lemma rest_calls es d tr :
  at_rest es (d, tr) →
  match dr_watermark d with
  | Some w => timeline_calls c content_identity (filter (λ e, behind (Some w) (recv e)) es) w = Ok (calls_of tr)
  | None => calls_of tr = []
  end ∧
  map q_event (dr_events d) = py_sorted leb (filter (λ e, ¬ behind (dr_watermark d) (recv e)) es) ∧
  events_of tr = py_sorted leb (filter (λ e, behind (dr_watermark d) (recv e)) es).
Proof using settings_positive.
  intros [(R & st & b & Hi) _]. cbn [fst snd] in Hi.
  destruct (inv_buffer _ _ _ _ _ _ Hi) as [Hb HR]. pose proof (ti_released _ _ _ _ _ _ Hi) as [He Ho _ Hsc].
  split; [|split; [exact Hb|by rewrite He]].
  pose proof (ti_watermark _ _ _ _ _ _ Hi) as Hw. destruct (dr_watermark d) as [w|] eqn:Ew.
  - destruct Hw as (-> & _). by apply (released_calls es d tr R st).
  - rewrite Hw in Hsc. destruct Hsc as [Ht ->]. by rewrite calls_of_merge, He, Ht.
Qed.

Lemma sealed_all es d tr :
  at_rest es (d, tr) → dr_sealed d = true →
  filter (λ e, behind (dr_watermark d) (recv e)) es = es ∧ dr_events d = [].
Proof using settings_positive.
  intros Hr Hs. pose proof (proj2 Hr Hs) as Hall. cbn [fst] in Hall. split; [by apply list_filter_all|].
  destruct (rest_calls es d tr Hr) as (_ & Hb & _). rewrite list_filter_none in Hb; [by apply map_eq_nil in Hb|].
  eapply Forall_impl; [exact Hall|]. by intros e He Hn.
Qed.

(** ** Theorems *)

(** C17. Whatever the operations and their order, as long as none raises: the bus and the
    runtime have got exactly the calls of the reference for the events received by the
    watermark, the buffer holds the later ones in order, and a finished driver none. *)
Theorem timeline_exact ops p :
  0 < receive_time_reorder c → forM run_op ops (driver_init, []) = (p, Ok tt) →
  let es := omap op_event ops in
  let watermark := dr_watermark p.1 in
  match watermark with
  | Some w => timeline_calls c content_identity (filter (λ e, behind (Some w) (recv e)) es) w = Ok (calls_of p.2)
  | None => calls_of p.2 = []
  end ∧
  map q_event (dr_events p.1) = py_sorted leb (filter (λ e, ¬ behind watermark (recv e)) es) ∧
  (dr_sealed p.1 = true → dr_events p.1 = []).
Proof using settings_positive.
  intros Hpos E es watermark. destruct p as [d tr]. pose proof (run_ops_rest ops [] _ _ Hpos at_rest_init E) as Hr.
  destruct (rest_calls _ _ _ Hr) as (H1 & H2 & _). split; [exact H1|]. split; [exact H2|].
  intros Hs. by apply (sealed_all _ _ _ Hr).
Qed.


(** Two arrival orders of the same events, each within the lateness and the capacity:
    both runs end, and deliver the same calls in the same order. *)
Theorem reorder_invisible es1 es2 :
  0 < receive_time_reorder c → es1 ≡ₚ es2 →
  (∀ a b, a ∈ es1 → b ∈ es1 → event_key content_identity a = event_key content_identity b → a = b) →
  lateness_ok None es1 = true → lateness_ok None es2 = true →
  Z.of_nat (length es1) ≤ consumer_queue_capacity c →
  let run es := forM run_op (map Publish es ++ [Finish None]) (driver_init, []) in
  ∃ p1 p2, run es1 = (p1, Ok tt) ∧ run es2 = (p2, Ok tt) ∧ calls_of p1.2 = calls_of p2.2 ∧
    events_of p1.2 = py_sorted leb es1 ∧ dr_events p1.1 = [] ∧ dr_events p2.1 = [].
Proof using settings_positive.
  intros Hpos Hp Hk Hl1 Hl2 Hcap run.
  destruct (publishes_finish es1 Hpos Hl1 Hcap) as (p1 & E1 & Hr1 & Hs1 & Hw1).
  destruct (publishes_finish es2 Hpos Hl2) as (p2 & E2 & Hr2 & Hs2 & Hw2); [by rewrite <- Hp|].
  exists p1, p2. split; [exact E1|]. split; [exact E2|].
  destruct p1 as [d1 tr1], p2 as [d2 tr2]. cbn [fst snd] in *.
  destruct (rest_calls _ _ _ Hr1) as (C1 & _ & V1), (rest_calls _ _ _ Hr2) as (C2 & _ & _).
  destruct (sealed_all _ _ _ Hr1 Hs1) as [F1 B1], (sealed_all _ _ _ Hr2 Hs2) as [F2 B2].
  rewrite F1 in V1. split; [|by split_and!]. rewrite Hw1 in *. rewrite Hw2, <- (maximum_received_perm _ _ Hp) in *.
  destruct (maximum_received es1) as [m|]; [|by rewrite C1, C2]. rewrite F1 in C1. rewrite F2 in C2.
  rewrite (timeline_calls_perm es1 es2 m Hp Hk) in C1. congruence.
Qed.
End rest.

(** ** A run

    Three events in two arrival orders, 250 ms of lateness, a feature tick each second
    and a signal tick every five. *)

Definition tl_settings : TimelineSettings :=
  {| receive_time_reorder := 250000; consumer_queue_capacity := 3;
     feature_update := 1000000; signal_check := 5000000 |}.
Definition tl_identity (e : event) : string := EmptyString.
Definition tl_event (us : Z) : event :=
  EMarkPrice {| mark_meta := {| exchange := OKX; symbol := "BTC-USDT-PERP"; exchange_timestamp := us;
    local_receive_timestamp := us; normalization_timestamp := us; sequence_id := None;
    raw_payload_reference := None |}; mark_price := of_int 1 |}.

Lemma tl_settings_positive k : 0 < interval_for tl_settings k.
Proof. by destruct k. Qed.

Definition tl_order1 : list event := map tl_event [4900000; 5100000; 5000000].
Definition tl_order2 : list event := map tl_event [5000000; 5100000; 4900000].
Abbreviation tl_run ops := (forM (run_op tl_settings tl_identity) ops (driver_init, [])).
Definition tl_ops : list driver_op :=
  map Publish tl_order1 ++ [Advance (utc 5050000)].

Definition tl_end := Eval vm_compute in (tl_run tl_ops).1.

Lemma tl_run_end : tl_run tl_ops = (tl_end, Ok tt).
Proof. vm_compute. reflexivity. Qed.

(** The event at the watermark is released, the one after it buffered. *)
Lemma timeline_exact_witness :
  ∃ p, tl_run tl_ops = (p, Ok tt) ∧ dr_watermark p.1 = Some 5050000 ∧
  calls_of p.2 = [OEvent (tl_event 4900000); OEvent (tl_event 5000000);
                  OTick {| tick_timestamp := 5000000; tick_kind := FEATURE |};
                  OTick {| tick_timestamp := 5000000; tick_kind := SIGNAL |}] ∧
  timeline_calls tl_settings tl_identity
    (filter (λ e, behind (Some 5050000) (recv e)) (omap op_event tl_ops)) 5050000 = Ok (calls_of p.2) ∧
  map q_event (dr_events p.1) = [tl_event 5100000].
Proof.
  exists tl_end. split; [exact tl_run_end|]. split; [reflexivity|]. split; [vm_compute; reflexivity|].
  split; [|vm_compute; reflexivity].
  exact (proj1 (timeline_exact tl_settings tl_identity tl_settings_positive tl_ops tl_end eq_refl tl_run_end)).
Defined.


Lemma tl_orders_perm : tl_order1 ≡ₚ tl_order2.
Proof. unfold tl_order1, tl_order2. apply Permutation_map. solve_Permutation. Qed.
Lemma tl_keys_injective a b :
  a ∈ tl_order1 → b ∈ tl_order1 → event_key tl_identity a = event_key tl_identity b → a = b.
Proof.
  intros (x & -> & _)%list_elem_of_fmap (y & -> & _)%list_elem_of_fmap.
  unfold event_key. intros Hk. injection Hk as Hk. cbn in Hk. by rewrite Hk.
Qed.

Lemma reorder_invisible_witness :
  ∃ p1 p2, tl_run (map Publish tl_order1 ++ [Finish None]) = (p1, Ok tt) ∧
    tl_run (map Publish tl_order2 ++ [Finish None]) = (p2, Ok tt) ∧ calls_of p1.2 = calls_of p2.2 ∧
    events_of p1.2 = map tl_event [4900000; 5000000; 5100000].
Proof.
  destruct (reorder_invisible tl_settings tl_identity tl_settings_positive tl_order1 tl_order2)
    as (p1 & p2 & E1 & E2 & H & He & _).
  - reflexivity.
  - exact tl_orders_perm.
  - exact tl_keys_injective.
  - vm_compute. reflexivity.
  - vm_compute. reflexivity.
  - vm_compute. discriminate.
  - exists p1, p2. split; [exact E1|]. split; [exact E2|]. split; [exact H|]. rewrite He. vm_compute. reflexivity.
Defined.
