(* ===== verification/FeatureRuntime.v ===== *)
(** * The feature runtime

    [features/pipeline.py: FeatureStatePipeline] and [features/runtime.py:
    FeatureRuntime]: the market state store, the two engines and the snapshot histories
    between them, run by the events and ticks of the timeline.  The snapshot writer is
    a [FeatureWriter]; the stopwatch latencies ([time.perf_counter]) are not modelled.
    Counters keyed by the text of an enumeration are keyed by its member. *)

From S2P Require Import Prelude Effects PyDecimal PyFloat PyTime Models Lineage Rolling BookState Health MarketState Availability PriceCache FeatureModels CrossVenue MetricHistory SingleVenue Clock.
Open Scope Z_scope.

(** ** Counting *)

(** [collections.Counter]: [counts[k] += 1]. *)
Definition counter_add {K} `{EqDecision K} (k : K) (d : list (K * Z)) : list (K * Z) :=
  dict_set k (default 0 (dict_get k d) + 1) d.

Record LatencyAccumulator := {
  la_samples : Z;
  la_total : float;
  la_minimum : option float;
  la_maximum : option float }.
Record RuntimeLatency := {
  rl_samples : Z;
  average_ms : option float;
  minimum_ms : option float;
  maximum_ms : option float }.

Definition latency_init : LatencyAccumulator :=
  {| la_samples := 0; la_total := f0; la_minimum := None; la_maximum := None |}.
Definition latency_add (value_ms : float) (l : LatencyAccumulator) : LatencyAccumulator :=
  {| la_samples := la_samples l + 1; la_total := fadd (la_total l) value_ms;
     la_minimum := Some (match la_minimum l with None => value_ms | Some m => fmin m value_ms end);
     la_maximum := Some (match la_maximum l with None => value_ms | Some m => fmax m value_ms end) |}.
Definition latency_summary (l : LatencyAccumulator) : RuntimeLatency :=
  {| rl_samples := la_samples l;
     average_ms := if la_samples l =? 0 then None
                   else Some (fdiv_ieee (la_total l) (float_of_int (la_samples l)));
     minimum_ms := la_minimum l; maximum_ms := la_maximum l |}.

(** ** The pipeline *)

Record FeatureStatePipeline := {
  store : MarketStateStore;
  status_counts : list (StateUpdateStatus * Z);
  accepted : Z;
  rejected : Z }.

Definition pipeline_init (store : MarketStateStore) : FeatureStatePipeline :=
  {| store := store; status_counts := []; accepted := 0; rejected := 0 |}.

Definition pipeline_record (r : StateUpdateResult) (p : FeatureStatePipeline) : FeatureStatePipeline :=
  let ok := bool_decide (sr_status r = SU_ACCEPTED) in
  {| p with status_counts := counter_add (sr_status r) (status_counts p);
            accepted := if ok then accepted p + 1 else accepted p;
            rejected := if ok then rejected p else rejected p + 1 |}.

Definition in_store {A} (m : M MarketStateStore A) : M FeatureStatePipeline A :=
  zoomM store (λ st p, {| p with store := st |}) m.

Definition pipeline_consume (digest : Z → event → string) (e : event) : M FeatureStatePipeline unit :=
  result ← in_store (ingest digest e);
  modifyM (pipeline_record result).

(** ** Snapshots to be written *)

Inductive PersistableFeatureSnapshot :=
| OSingle (s : FeatureSnapshot)
| OCross (s : CrossVenueFeatureSnapshot).

(** [event_type] is the literal [MARKET_FEATURE] of both models. *)
Definition snapshot_event_type (s : PersistableFeatureSnapshot) : EventType := MARKET_FEATURE.
Definition snapshot_reasons (s : PersistableFeatureSnapshot) : list FeatureUnavailableReason :=
  match s with OSingle s => fs_unavailable_reasons s | OCross s => cvs_unavailable_reasons s end.
Definition snapshot_newest (s : PersistableFeatureSnapshot) : option Z :=
  match s with OSingle s => newest_source_timestamp s | OCross s => cvs_newest_source_timestamp s end.
Definition snapshot_decision (s : PersistableFeatureSnapshot) : Z :=
  match s with OSingle s => fs_decision_timestamp s | OCross s => cvs_decision_timestamp s end.

Definition after (t : option Z) (decision : Z) : bool :=
  match t with Some t => decision <? t | None => false end.
Definition source_is_in_the_future (s : PersistableFeatureSnapshot) : bool :=
  after (snapshot_newest s) (snapshot_decision s) ||
  match s with
  | OCross c => after (binance_source_timestamp (alignment c)) (cvs_decision_timestamp c) ||
                after (okx_source_timestamp (alignment c)) (cvs_decision_timestamp c)
  | OSingle _ => false
  end.

(** The part of the writer the runtime calls. *)
Class FeatureWriter (W : Type) := {
  writer_start : M W unit;
  writer_write : PersistableFeatureSnapshot → M W unit;
  writer_close : M W unit }.

(** ** The runtime *)

Record RuntimeSettings := {
  rs_store : StoreConfig;
  rs_single : SingleVenueSettings;
  rs_cross : CrossVenueSettings;
  rs_feature_update_seconds : float }.

(** [int(x)]. *)
Definition int_of_float (f : float) : res Z :=
  match f with
  | S754_zero _ => Ok 0
  | S754_finite s m e =>
    let n := if 0 <=? e then Z.pos m * 2 ^ e else Z.pos m / 2 ^ (- e) in Ok (if s then - n else n)
  | S754_infinity _ => Err OverflowError
  | S754_nan => Err (ValueError "cannot convert float NaN to integer")
  end.

Definition history_items (c : RuntimeSettings) : res Z :=
  ratio ← fdiv (float_of_int (zscore_lookback_seconds (rs_cross c))) (rs_feature_update_seconds c);
  n ← int_of_float ratio; Ok (Z.max 2 (n + 2)).

Record FeatureRuntime := {
  pipeline : FeatureStatePipeline;
  single_engine : SingleVenueEngine;
  rt_history_items : Z;
  rt_history : list ((Exchange * string * Z) * list FeatureSnapshot);
  universe : list (Exchange * string);
  started : bool;
  closed : bool;
  close_task : option (res unit);
  normalized_events : Z;
  feature_ticks : Z;
  signal_boundaries : Z;
  single_snapshots : Z;
  cross_snapshots : Z;
  unavailable_snapshots : Z;
  open_interest_stale_snapshots : Z;
  non_aligned_cross_snapshots : Z;
  unavailable_reasons : list (FeatureUnavailableCode * Z);
  rt_book_generations : list ((Exchange * string) * Z);
  book_generation_rebuilds : Z;
  no_lookahead_violations : Z;
  output_event_types : list (EventType * Z);
  receive_latency : LatencyAccumulator }.

Section runtime.
Context (c : RuntimeSettings).
(** The parameters of the store and of the engines. *)
Context (digest : Z → event → string) (semantic_source_digest : Z → event → string)
  (fingerprint : SourceLineage → string) (feature_id : SingleIdentity → UUID)
  (config_hash : string) (math_log : float → res float) (address : Z → stream → Z → Z)
  (history_sha256 : list HistoryItem → string) (cross_feature_id : CrossIdentity → UUID).
Context {W : Type} `{!FeatureWriter W}.

Abbreviation RM := (M (FeatureRuntime * W)).

Definition getR : RM FeatureRuntime := p ← getM; mret p.1.
Definition modifyR (f : FeatureRuntime → FeatureRuntime) : RM unit := modifyM (λ p, (f p.1, p.2)).
Definition in_writer {A} (m : M W A) : RM A := zoomM snd (λ w p, (p.1, w)) m.
Definition in_pipeline {A} (m : M FeatureStatePipeline A) : RM A :=
  zoomM (λ p, pipeline p.1) (λ x p, let r := p.1 in ({| r with pipeline := x |}, p.2)) m.
Definition in_engine {A} (m : M SingleVenueEngine A) : RM A :=
  zoomM (λ p, single_engine p.1) (λ x p, let r := p.1 in ({| r with single_engine := x |}, p.2)) m.

Definition configured_universe : list (Exchange * string) :=
  concat (map (λ e, map (pair e) (canonical_symbols (rs_cross c))) [BINANCE; OKX]).

Definition runtime_init : res FeatureRuntime :=
  st ← store_init (rs_store c);
  st ← execM (forM (λ k, with_state k.1 k.2 (mret tt)) configured_universe) st;
  items ← history_items c;
  Ok {| pipeline := pipeline_init st; single_engine := engine_init (rs_single c);
        rt_history_items := items; rt_history := []; universe := configured_universe;
        started := false; closed := false; close_task := None; normalized_events := 0;
        feature_ticks := 0; signal_boundaries := 0; single_snapshots := 0; cross_snapshots := 0;
        unavailable_snapshots := 0; open_interest_stale_snapshots := 0;
        non_aligned_cross_snapshots := 0; unavailable_reasons := []; rt_book_generations := [];
        book_generation_rebuilds := 0; no_lookahead_violations := 0; output_event_types := [];
        receive_latency := latency_init |}.

Definition runtime_start : RM unit :=
  r ← getR;
  _ ← requireM (negb (closed r || negb (is_none (close_task r))))
        (RuntimeError "cannot restart a closed feature runtime");
  if started r then mret tt
  else _ ← in_writer writer_start; modifyR (λ r, {| r with started := true |}).

(** [close_runtime] runs once; later calls wait for the same task. *)
Definition runtime_close : RM unit :=
  r ← getR;
  if closed r then mret tt
  else match close_task r with
       | Some outcome => liftM outcome
       | None => λ p, match in_writer writer_close p with
                      | ((r, w), Ok _) => (({| r with closed := true; close_task := Some (Ok tt) |}, w), Ok tt)
                      | ((r, w), Err x) => (({| r with close_task := Some (Err x) |}, w), Err x)
                      end
       end.

Definition require_active : RM unit :=
  r ← getR;
  requireM (started r && negb (closed r) && is_none (close_task r))
    (RuntimeError "feature runtime is not active").

(** A book that changed its generation restarts the histories of its symbol. *)
Definition note_book_generation (e : event) : RM unit :=
  let key := (exchange (event_meta e), symbol (event_meta e)) in
  s ← in_pipeline (in_store (with_state key.1 key.2 getM));
  let current := fb_generation (order_book s) in
  r ← getR;
  _ ← match dict_get key (rt_book_generations r) with
      | Some previous =>
        if negb (previous =? current) then
          modifyR (λ r, {| r with book_generation_rebuilds := book_generation_rebuilds r + 1;
            rt_history := List.filter (λ x, negb (bool_decide (x.1.1.2 = key.2))) (rt_history r) |})
        else mret tt
      | None => mret tt
      end;
  modifyR (λ r, {| r with rt_book_generations := dict_set key current (rt_book_generations r) |}).

Definition is_exchange_health (e : event) : bool := match e with EHealth _ => true | _ => false end.

Definition consume_event (e : event) : RM unit :=
  let m := event_meta e in
  _ ← require_active;
  _ ← requireM (concrete (exchange m))
        (ValueError "feature runtime requires a concrete market-data exchange");
  r ← getR;
  _ ← (if bool_decide (symbol m = "*"%string) then
         requireM (is_exchange_health e)
           (ValueError "only exchange-health events may use wildcard symbols")
       else requireM (bool_decide ((exchange m, symbol m) ∈ universe r))
              (ValueError "normalized event is outside the configured feature universe"));
  _ ← modifyR (λ r, {| r with normalized_events := normalized_events r + 1;
        receive_latency := latency_add (receive_latency_ms m) (receive_latency r) |});
  _ ← in_pipeline (pipeline_consume digest e);
  if is_book_event e then note_book_generation e else mret tt.

(** ** A decision tick *)

Definition history_for (key : Exchange * string * Z) (r : FeatureRuntime) : list FeatureSnapshot :=
  default [] (dict_get key (rt_history r)).
(** [setdefault]. *)
Definition touch_history (key : Exchange * string * Z) : RM (list FeatureSnapshot) :=
  r ← getR;
  _ ← modifyR (λ r, {| r with rt_history := dict_set key (history_for key r) (rt_history r) |});
  mret (history_for key r).
(** [deque(maxlen=n).append]: the oldest item makes room. *)
Definition deque_append {A} (n : Z) (x : A) (l : list A) : list A := lastn (Z.to_nat n) (l ++ [x]).

Definition remember_snapshot (s : FeatureSnapshot) : RM unit :=
  let key := (fs_exchange s, fs_symbol s, fs_window_seconds s) in
  l ← touch_history key;
  modifyR (λ r, {| r with rt_history := dict_set key (deque_append (rt_history_items r) s l) (rt_history r) |}).

(** [self.state.states], with the identity of each object: its place in the dict. *)
Definition state_objects (st : MarketStateStore) : res (list state_object) :=
  mapR (λ '(i, s),
    w ← match dict_get (vs_exchange s) (st_exchange_health_events st) with
        | Some w => Ok w | None => Err KeyError end;
    Ok {| state_id := i; state_of := s; state_exchange_health := w |})
    (imap (λ i s, (Z.of_nat i, s)) (store_states st)).

Definition cross_of (decision : Z) (x : string * Z) : RM CrossVenueFeatureSnapshot :=
  b ← touch_history (BINANCE, x.1, x.2);
  o ← touch_history (OKX, x.1, x.2);
  liftM (CrossVenue.calculate (rs_cross c) history_sha256 cross_feature_id config_hash
           (b ++ o) x.1 (utc decision) x.2).

Definition record_snapshot (s : PersistableFeatureSnapshot) : RM unit :=
  _ ← modifyR (λ r, {| r with output_event_types := counter_add (snapshot_event_type s) (output_event_types r) |});
  _ ← (if negb (bool_decide (snapshot_event_type s = MARKET_FEATURE)) then
         _ ← modifyR (λ r, {| r with no_lookahead_violations := no_lookahead_violations r + 1 |});
         raiseM (RuntimeError "feature runtime produced a forbidden event type")
       else mret tt);
  let codes := map reason_code (snapshot_reasons s) in
  _ ← modifyR (λ r, if bool_decide (codes = []) then r
        else {| r with unavailable_snapshots := unavailable_snapshots r + 1;
                       unavailable_reasons := foldl (λ d k, counter_add k d) (unavailable_reasons r) codes |});
  _ ← modifyR (λ r, if bool_decide (OPEN_INTEREST_STALE ∈ codes)
        then {| r with open_interest_stale_snapshots := open_interest_stale_snapshots r + 1 |} else r);
  _ ← modifyR (λ r, match s with
        | OCross x => if bool_decide (align_status (alignment x) = AlignmentStatus_ALIGNED) then r
                      else {| r with non_aligned_cross_snapshots := non_aligned_cross_snapshots r + 1 |}
        | OSingle _ => r
        end);
  if source_is_in_the_future s then
    _ ← modifyR (λ r, {| r with no_lookahead_violations := no_lookahead_violations r + 1 |});
    raiseM (RuntimeError "future source detected in feature snapshot")
  else mret tt.

Definition emit_snapshot (s : PersistableFeatureSnapshot) : RM unit :=
  _ ← record_snapshot s; in_writer (writer_write s).

Definition runtime_consume_tick (tick : DecisionTick) : RM unit :=
  _ ← require_active;
  match tick_kind tick with
  | SIGNAL => modifyR (λ r, {| r with signal_boundaries := signal_boundaries r + 1 |})
  | FEATURE =>
    _ ← modifyR (λ r, {| r with feature_ticks := feature_ticks r + 1 |});
    r ← getR;
    objects ← liftM (state_objects (store (pipeline r)));
    singles ← in_engine (SingleVenue.calculate_all (rs_single c) semantic_source_digest fingerprint
                feature_id config_hash math_log address objects (utc (tick_timestamp tick)));
    _ ← forM remember_snapshot singles;
    crosses ← mapMs (cross_of (tick_timestamp tick))
                (concat (map (λ sym, map (pair sym) (feature_windows_seconds (rs_cross c)))
                             (canonical_symbols (rs_cross c))));
    _ ← forM emit_snapshot (map OSingle singles ++ map OCross crosses);
    modifyR (λ r, {| r with single_snapshots := single_snapshots r + Z.of_nat (length singles);
                            cross_snapshots := cross_snapshots r + Z.of_nat (length crosses) |})
  end.
End runtime.
