(* ===== verification/RuntimeResult.v ===== *)
(** * What the feature runtime guarantees

    The runtime of [FeatureRuntime] from its start, under any calls in any order and
    whatever they raise: its look-ahead alarm never fires, what it hands to the writer is
    valid, its histories are bounded, and its store holds the configured universe. *)

From S2P Require Import Prelude Effects PyDecimal PyFloat PyTime Models Lineage Rolling BookState Health MarketState Availability PriceCache FeatureModels CrossVenue CrossAlign CrossSelect CrossResult MetricHistory SingleVenue SingleResult Clock FeatureRuntime.
Open Scope Z_scope.

(** ** Valid snapshots *)

Lemma source_bounds_now cross n lo hi age decision u :
  validate_source_bounds cross n lo hi age decision = Ok u → after hi decision = false.
Proof.
  unfold validate_source_bounds. intros H. apply bind_Ok in H as ([] & E & H).
  destruct lo as [lo|], hi as [hi|]; simpl; try done.
  - apply bind_Ok in H as (_ & _ & H). destruct (Z.leb_spec hi decision); [|done]. apply Z.ltb_ge. lia.
  - destruct (n =? 0); inv_res; simplify_eq;
      repeat match goal with H : _ && _ = true |- _ => apply andb_true_iff in H as [? ?] end;
      repeat match goal with H : bool_decide _ = true |- _ => apply bool_decide_eq_true in H end; congruence.
Qed.

Definition snapshot_valid (s : PersistableFeatureSnapshot) : Prop :=
  match s with
  | OSingle s => validate_feature_snapshot s = Ok s
  | OCross s => validate_cross_snapshot s = Ok s ∧ validate_alignment (alignment s) = Ok (alignment s)
  end.

(** Validation already excludes what the runtime's alarm looks for. *)
Lemma valid_not_future s : snapshot_valid s → source_is_in_the_future s = false.
Proof.
  unfold source_is_in_the_future. destruct s as [s|s]; simpl.
  - intros H. unfold validate_feature_snapshot in H.
    do 5 (apply bind_Ok in H as (? & _ & H)). apply bind_Ok in H as (u & Hb & _).
    by rewrite (source_bounds_now _ _ _ _ _ _ _ Hb).
  - intros [H Ha]. unfold validate_cross_snapshot in H.
    do 9 (apply bind_Ok in H as (? & _ & H)). apply bind_Ok in H as (u & Hb & H).
    apply bind_Ok in H as (u' & Hd & _).
    rewrite (source_bounds_now _ _ _ _ _ _ _ Hb). simpl.
    unfold validate_alignment in Ha. do 3 (apply bind_Ok in Ha as (? & _ & Ha)).
    apply bind_Ok in Ha as (u2 & Hf & _).
    unfold require in Hd, Hf. destruct (_ =? _) eqn:Ed in Hd; [|done]. apply Z.eqb_eq in Ed. rewrite Ed in Hf.
    simpl in Hf. unfold after.
    destruct (not_future _ (binance_source_timestamp (alignment s))) eqn:E1; [|done].
    destruct (not_future _ (okx_source_timestamp (alignment s))) eqn:E2; [|done].
    unfold not_future in *. destruct (binance_source_timestamp _) as [b|], (okx_source_timestamp _) as [o|];
      simpl; rewrite ?Z.ltb_antisym, ?E1, ?E2; done.
Qed.

Lemma validate_alignment_id a a' : validate_alignment a = Ok a' → a' = a.
Proof. unfold validate_alignment. intros H. do 4 (apply bind_Ok in H as (? & _ & H)). by injection H as <-. Qed.
Lemma validate_cross_id s s' : validate_cross_snapshot s = Ok s' → s' = s.
Proof. unfold validate_cross_snapshot. intros H. do 14 (apply bind_Ok in H as (? & _ & H)). by injection H as <-. Qed.
Lemma align_validated c b o decision rs a : align c b o decision rs = Ok a → validate_alignment a = Ok a.
Proof.
  unfold align. cbv zeta. destruct (match b with Some _ => _ | None => _ end) as [status l].
  intros H. apply bind_Ok in H as (q & _ & H). pose proof (validate_alignment_id _ _ H). by subst a.
Qed.

Lemma mk_cross_valid c feature_id hash sym decision w b o a ll f s :
  mk_cross_snapshot c feature_id hash sym decision w b o a ll f = Ok s →
  validate_alignment a = Ok a →
  snapshot_valid (OCross s) ∧ cvs_decision_timestamp s = decision ∧ cvs_window_seconds s = w.
Proof.
  unfold mk_cross_snapshot. intros H Ha. apply bind_Ok in H as (m & Hm & H).
  pose proof (validate_cross_id _ _ H) as E. rewrite <- E in H. split; [split; [exact H|by rewrite E]|by rewrite E].
Qed.

Lemma cross_calculate_valid c hist feature_id hash l sym decision w s :
  CrossVenue.calculate c hist feature_id hash l sym (utc decision) w = Ok s →
  snapshot_valid (OCross s) ∧ cvs_decision_timestamp s = decision ∧ cvs_window_seconds s = w.
Proof.
  unfold CrossVenue.calculate. intros H. apply bind_Ok in H as (d & Hd & H).
  rewrite as_utc_utc in Hd. injection Hd as <-. apply bind_Ok in H as (_ & _ & H).
  unfold cross_of_candidates in H. cbv zeta in H. apply bind_Ok in H as (a & Ha & H).
  apply align_validated in Ha. apply bind_Ok in H as (ll & _ & H).
  destruct (bool_decide _); [by apply mk_cross_valid in H|].
  destruct (select_snapshot (candidates_of l sym w) BINANCE decision).1,
    (select_snapshot (candidates_of l sym w) OKX decision).1; try done.
  apply bind_Ok in H as (? & _ & H). by apply mk_cross_valid in H.
Qed.

(** ** The invariant *)

Section sound.
Context (c : RuntimeSettings).
Context (digest : Z → event → string) (semantic : Z → event → string)
  (fingerprint : SourceLineage → string) (feature_id : SingleIdentity → UUID)
  (config_hash : string) (math_log : float → res float) (address : Z → stream → Z → Z)
  (history_sha256 : list HistoryItem → string) (cross_id : CrossIdentity → UUID).
Context {W : Type} `{!FeatureWriter W}.
(** What the writer keeps when it is given valid snapshots. *)
Context (PW : W → Prop) (start_ok : keepsM PW writer_start (λ _, True))
  (close_ok : keepsM PW writer_close (λ _, True))
  (write_ok : ∀ s, snapshot_valid s → keepsM PW (writer_write s) (λ _, True)).

Abbreviation reach := (engine_reach (rs_single c) semantic fingerprint feature_id config_hash math_log address).
Abbreviation from_engine :=
  (engine_snapshot (rs_single c) semantic fingerprint feature_id config_hash math_log address).

Definition history_ok (n : Z) (x : (Exchange * string * Z) * list FeatureSnapshot) : Prop :=
  Z.of_nat (length x.2) ≤ n ∧
  Forall (λ f, from_engine f ∧ (fs_exchange f, fs_symbol f, fs_window_seconds f) = x.1) x.2.

Record runtime_sound (p : FeatureRuntime * W) : Prop := {
  ro_alarm : no_lookahead_violations p.1 = 0;
  ro_engine : reach (single_engine p.1);
  ro_items : 2 ≤ rt_history_items p.1;
  ro_history : Forall (history_ok (rt_history_items p.1)) (rt_history p.1);
  ro_writer : PW p.2 }.

Abbreviation keepsR := (keepsM runtime_sound).

Lemma keeps_getR : keepsR getR (λ r, 2 ≤ rt_history_items r ∧ Forall (history_ok (rt_history_items r)) (rt_history r)).
Proof using Type. intros p p' r Hp [= <- <-]. split; [done|]. split; apply Hp. Qed.

(** A change of the runtime's counters. *)
Definition same_core (r r' : FeatureRuntime) : Prop :=
  no_lookahead_violations r' = no_lookahead_violations r ∧ single_engine r' = single_engine r ∧
  rt_history_items r' = rt_history_items r ∧ rt_history r' = rt_history r.

Lemma keeps_counter f : (∀ r, same_core r (f r)) → keepsR (modifyR f) (λ _, True).
Proof using Type.
  intros Hf. apply keeps_modify. intros [r w] [H1 H2 H3 H4 H5]. cbn [fst snd] in *.
  destruct (Hf r) as (E1 & E2 & E3 & E4). split; cbn [fst snd]; by rewrite ?E1, ?E2, ?E3, ?E4.
Qed.

Lemma keeps_history (f : FeatureRuntime → list ((Exchange * string * Z) * list FeatureSnapshot)) :
  (∀ r, 2 ≤ rt_history_items r → Forall (history_ok (rt_history_items r)) (rt_history r) →
        Forall (history_ok (rt_history_items r)) (f r)) →
  keepsR (modifyR (λ r, {| r with rt_history := f r |})) (λ _, True).
Proof using Type.
  intros Hf. apply keeps_modify. intros [r w] [H1 H2 H3 H4 H5]. cbn [fst snd] in *.
  split; cbn [fst snd]; try done. exact (Hf r H3 H4).
Qed.

Lemma keeps_in_pipeline {A} (m : M FeatureStatePipeline A) : keepsR (in_pipeline m) (λ _, True).
Proof using Type.
  apply (keeps_zoom _ _ _ _ (λ _, True)); [done| |].
  - intros t [r w] [H1 H2 H3 H4 H5] _. by split.
  - intros s s' r _ _. split; [done|]. by destruct r.
Qed.

Lemma keeps_writer {A} (m : M W A) : keepsM PW m (λ _, True) → keepsR (in_writer m) (λ _, True).
Proof using Type.
  intros Hm. apply (keeps_zoom _ _ _ _ PW); [by intros p [? ? ? ?]| |done].
  intros t [r w] [H1 H2 H3 H4 H5] Ht. by split.
Qed.

Lemma history_dict_set n k l d :
  Forall (history_ok n) d → history_ok n (k, l) → Forall (history_ok n) (dict_set k l d).
Proof using Type.
  intros Hd Hl. apply Forall_forall. intros [k' l'] Hin. rewrite Forall_forall in Hd.
  apply dict_set_elem_key in Hin as [Hin|(-> & E)]; [by apply Hd|]. apply bool_decide_eq_true in E. by subst k'.
Qed.

Lemma history_for_ok n r k :
  0 ≤ n → Forall (history_ok n) (rt_history r) → history_ok n (k, history_for k r).
Proof using Type.
  intros Hn Hd. unfold history_for. destruct (dict_get k (rt_history r)) as [l|] eqn:E; simpl; [|by split].
  rewrite Forall_forall in Hd. apply dict_get_elem in E as (k' & Hin & E). apply bool_decide_eq_true in E. subst k'. by apply Hd.
Qed.

Lemma keeps_touch k :
  keepsR (touch_history k) (Forall (λ f, from_engine f ∧ (fs_exchange f, fs_symbol f, fs_window_seconds f) = k)).
Proof using Type.
  intros [r w] p' res [H1 H2 H3 H4 H5] [= <- <-]. cbn [fst snd] in *.
  pose proof (history_for_ok (rt_history_items r) r k ltac:(lia) H4) as Hk.
  split; [|apply Hk]. split; try done. by apply history_dict_set.
Qed.

Lemma deque_append_length {A} n (x : A) l : 0 ≤ n → Z.of_nat (length (deque_append n x l)) ≤ n.
Proof. intros Hn. unfold deque_append. rewrite lastn_length. lia. Qed.

Lemma keeps_remember f : from_engine f → keepsR (remember_snapshot f) (λ _, True).
Proof using Type.
  intros Hf [r w] p' res [H1 H2 H3 H4 H5] [= <- <-]. cbn [fst snd] in *. split; [|done].
  set (k := (fs_exchange f, fs_symbol f, fs_window_seconds f)).
  pose proof (history_for_ok (rt_history_items r) r k ltac:(lia) H4) as Hk.
  split; try done. cbn [fst rt_history rt_history_items].
  apply history_dict_set; [by apply history_dict_set|]. split; [apply deque_append_length; lia|].
  cbn [fst snd]. unfold deque_append. unfold lastn. apply Forall_drop.
  apply Forall_app. split; [apply Hk|]. by repeat constructor.
Qed.

Lemma keeps_cross decision x :
  keepsR (cross_of c config_hash history_sha256 cross_id decision x)
    (λ s, snapshot_valid (OCross s) ∧ cvs_decision_timestamp s = decision ∧ cvs_window_seconds s = x.2).
Proof using Type.
  unfold cross_of. eapply keeps_bind; [apply keeps_touch|]. intros b _.
  eapply keeps_bind; [apply keeps_touch|]. intros o _.
  apply keeps_lift. intros s. apply cross_calculate_valid.
Qed.

Lemma keeps_emit s : snapshot_valid s → keepsR (emit_snapshot s) (λ _, True).
Proof using write_ok.
  intros Hs. unfold emit_snapshot. apply keeps_bind with (Q := λ _, True); [|intros _ _; by apply keeps_writer, write_ok].
  unfold record_snapshot. eapply keeps_bind; [by apply keeps_counter|intros _ _].
  rewrite (bool_decide_eq_true_2 (snapshot_event_type s = MARKET_FEATURE)) by done. cbn [negb].
  apply keeps_bind with (Q := λ _, True); [by apply keeps_ret|intros _ _]. cbv zeta.
  eapply keeps_bind; [apply keeps_counter; intros r; by case_bool_decide|intros _ _].
  eapply keeps_bind; [apply keeps_counter; intros r; by case_bool_decide|intros _ _].
  eapply keeps_bind; [apply keeps_counter; intros r; destruct s; [done|by case_bool_decide]|intros _ _].
  rewrite (valid_not_future s Hs). by apply keeps_ret.
Qed.

(** The engine, one calculation after another. *)
Lemma keeps_calculate_all objects ts :
  keepsM reach (SingleVenue.calculate_all (rs_single c) semantic fingerprint feature_id config_hash math_log
                  address objects (utc ts))
    (Forall (λ f, from_engine f ∧ fs_decision_timestamp f = ts)).
Proof using Type.
  apply keeps_mapMs. intros [o w] _ e e' r He E. split.
  - pose proof (reach_calculate (rs_single c) semantic fingerprint feature_id config_hash math_log address
      e o (utc ts) w He) as H. cbn [fst snd] in E. by rewrite E in H.
  - destruct r as [f|x]; [|done]. cbn [fst snd] in E. split; [by exists e, o, (utc ts), w, e'|].
    destruct (engine_snapshot_ok _ _ _ _ _ _ _ e o (utc ts) w e' f He E) as (d & Hd & _ & _ & _ & Hdec).
    unfold price_utc in Hd. rewrite as_utc_utc in Hd. congruence.
Qed.

Lemma from_engine_valid f : from_engine f → snapshot_valid (OSingle f).
Proof using Type.
  intros (e & o & ts & w & e' & He & E).
  by destruct (engine_snapshot_ok _ _ _ _ _ _ _ e o ts w e' f He E) as (d & _ & _ & _ & Hv & _).
Qed.

Lemma keeps_active : keepsR require_active (λ _, True).
Proof using Type.
  unfold require_active. eapply keeps_bind; [apply keeps_getR|]. intros r _.
  eapply keeps_mono; [apply keeps_require|done].
Qed.

Lemma keeps_tick tick :
  keepsR (runtime_consume_tick c semantic fingerprint feature_id config_hash math_log address
            history_sha256 cross_id tick) (λ _, True).
Proof using write_ok.
  unfold runtime_consume_tick. eapply keeps_bind; [apply keeps_active|intros _ _].
  destruct (tick_kind tick); [|by apply keeps_counter].
  eapply keeps_bind; [by apply keeps_counter|intros _ _].
  eapply keeps_bind; [apply keeps_getR|intros r _].
  eapply keeps_bind; [apply keeps_any|intros objects _].
  eapply keeps_bind.
  { apply (keeps_zoom _ _ _ _ reach); [by intros p [? ? ? ?]| |apply keeps_calculate_all].
    intros t [r' w] [H1 H2 H3 H4 H5] Ht. by split. }
  intros singles Hs. eapply keeps_bind.
  { apply keeps_forM. intros f Hf. rewrite Forall_forall in Hs. by apply keeps_remember, Hs. }
  intros _ _. apply keeps_bind with (Q := Forall (λ s, snapshot_valid (OCross s))).
  { apply keeps_mapMs. intros x _. eapply keeps_mono; [apply keeps_cross|]. by intros s (H & _). }
  intros crosses Hc.
  eapply keeps_bind; [|intros _ _; by apply keeps_counter].
  apply keeps_forM. intros s Hin. apply keeps_emit. rewrite Forall_forall in Hs. rewrite Forall_forall in Hc.
  apply elem_of_app in Hin as [(f & -> & Hf)%list_elem_of_fmap|(x & -> & Hx)%list_elem_of_fmap].
  - apply from_engine_valid. by apply Hs.
  - by apply Hc.
Qed.

Lemma keeps_event e : keepsR (consume_event digest e) (λ _, True).
Proof using Type.
  unfold consume_event. cbv zeta. eapply keeps_bind; [apply keeps_active|intros _ _].
  eapply keeps_bind; [apply keeps_require|intros _ _].
  eapply keeps_bind; [apply keeps_getR|intros r _].
  apply keeps_bind with (Q := λ _, True).
  { case_bool_decide; (eapply keeps_mono; [apply keeps_require|done]). }
  intros _ _. eapply keeps_bind; [by apply keeps_counter|intros _ _].
  eapply keeps_bind; [apply keeps_in_pipeline|intros _ _].
  destruct (is_book_event e); [|by apply keeps_ret].
  unfold note_book_generation. cbv zeta. eapply keeps_bind; [apply keeps_in_pipeline|intros s _].
  eapply keeps_bind; [apply keeps_getR|intros r' _].
  apply keeps_bind with (Q := λ _, True); [|intros _ _; by apply keeps_counter].
  destruct (dict_get _ (rt_book_generations r')) as [g|]; [|by apply keeps_ret].
  destruct (negb _); [|by apply keeps_ret].
  apply keeps_modify. intros [r1 w] [H1 H2 H3 H4 H5]. cbn [fst snd] in *. split; try done.
  cbn [fst rt_history rt_history_items]. rewrite Forall_forall in H4. apply Forall_forall.
  intros x Hx. apply filter_elem in Hx as [Hx _]. by apply H4.
Qed.

Lemma keeps_start : keepsR runtime_start (λ _, True).
Proof using start_ok.
  unfold runtime_start. eapply keeps_bind; [apply keeps_getR|intros r _].
  eapply keeps_bind; [apply keeps_require|intros _ _]. destruct (started r); [by apply keeps_ret|].
  eapply keeps_bind; [by apply keeps_writer|intros _ _]. by apply keeps_counter.
Qed.

Lemma keeps_close : keepsR runtime_close (λ _, True).
Proof using close_ok.
  unfold runtime_close. eapply keeps_bind; [apply keeps_getR|intros r _].
  destruct (closed r); [by apply keeps_ret|]. destruct (close_task r); [by apply keeps_lift|].
  intros p p' res Hp. destruct (in_writer writer_close p) as [[r1 w1] res1] eqn:E.
  destruct (keeps_writer writer_close close_ok p _ _ Hp E) as [[H1 H2 H3 H4 H5] _].
  destruct res1; intros [= <- <-]; by split; [split|].
Qed.

(** ** Runs *)

Inductive runtime_op := RStart | RClose | REvent (e : event) | RTick (t : DecisionTick).

Definition run_runtime_op (op : runtime_op) : M (FeatureRuntime * W) unit :=
  match op with
  | RStart => runtime_start
  | RClose => runtime_close
  | REvent e => consume_event digest e
  | RTick t => runtime_consume_tick c semantic fingerprint feature_id config_hash math_log address
                 history_sha256 cross_id t
  end.

(** Where calls lead, raising or not. *)
Inductive runtime_reach (w0 : W) : FeatureRuntime * W → Prop :=
| rreach_init r : runtime_init c = Ok r → runtime_reach w0 (r, w0)
| rreach_op p op : runtime_reach w0 p → runtime_reach w0 (run_runtime_op op p).1.

Lemma runtime_init_sound r w0 : runtime_init c = Ok r → PW w0 → runtime_sound (r, w0).
Proof using Type.
  intros H Hw. unfold runtime_init in H. do 2 (apply bind_Ok in H as (? & _ & H)).
  apply bind_Ok in H as (items & Hi & H). injection H as <-.
  unfold history_items in Hi. apply bind_Ok in Hi as (? & _ & Hi). apply bind_Ok in Hi as (n & _ & Hi).
  injection Hi as <-. split; cbn [fst snd]; try done; [apply reach_init|cbn [rt_history_items]; lia].
Qed.

Lemma keeps_op op : keepsR (run_runtime_op op) (λ _, True).
Proof using start_ok close_ok write_ok.
  destruct op; simpl; [apply keeps_start|apply keeps_close|apply keeps_event|apply keeps_tick].
Qed.

Lemma runtime_reach_sound w0 p : PW w0 → runtime_reach w0 p → runtime_sound p.
Proof using start_ok close_ok write_ok.
  intros Hw. induction 1 as [r H|p op _ IH]; [by apply runtime_init_sound|].
  destruct (run_runtime_op op p) as [p' r] eqn:E. by destruct (keeps_op op p p' r IH E).
Qed.

(** C14. Whatever is called, in any order, and whatever raises: the alarm for a source in
    the future never fires; every snapshot given to the writer is valid, so a property
    the writer keeps under valid snapshots holds; every history holds at most
    [rt_history_items] snapshots, all of its own venue, symbol and window. *)
Theorem runtime_never_looks_ahead w0 p :
  PW w0 → runtime_reach w0 p →
  no_lookahead_violations p.1 = 0 ∧ PW p.2 ∧
  ∀ k l, (k, l) ∈ rt_history p.1 → Z.of_nat (length l) ≤ rt_history_items p.1 ∧
    Forall (λ f, validate_feature_snapshot f = Ok f ∧ (fs_exchange f, fs_symbol f, fs_window_seconds f) = k) l.
Proof using start_ok close_ok write_ok.
  intros Hw Hr. destruct (runtime_reach_sound w0 p Hw Hr) as [H1 H2 H3 H4 H5].
  split; [exact H1|]. split; [exact H5|]. intros k l Hin. rewrite Forall_forall in H4.
  destruct (H4 _ Hin) as [Hlen Hall]. split; [done|]. eapply Forall_impl; [exact Hall|].
  intros f [Hf Hk]. split; [|done]. exact (from_engine_valid f Hf).
Qed.
End sound.

(** ** The universe *)

Section universe.
Context (c : RuntimeSettings) (digest semantic : Z → event → string)
  (fingerprint : SourceLineage → string) (feature_id : SingleIdentity → UUID)
  (config_hash : string) (math_log : float → res float) (address : Z → stream → Z → Z)
  (history_sha256 : list HistoryItem → string) (cross_id : CrossIdentity → UUID).
Context {W : Type} `{!FeatureWriter W}.

Definition store_keys (st : MarketStateStore) : list (Exchange * string) := map fst (st_states st).

Lemma dict_set_known {V} (k : Exchange * string) (v : V) d :
  k ∈ map fst d → map fst (dict_set k v d) = map fst d.
Proof.
  intros Hin. apply list_elem_of_fmap in Hin as ([k' v'] & -> & Hin). simpl.
  destruct (dict_get k' d) as [v1|] eqn:E; [by apply (dict_set_keys _ _ v1)|].
  rewrite dict_get_None_elem in E. specialize (E _ _ Hin). by rewrite pyeq_refl in E.
Qed.

(** The states have the names they are filed under. *)
Definition named (k : Exchange * string) (s : VenueSymbolState) : Prop := (vs_exchange s, vs_symbol s) = k.
Definition store_named (K : list (Exchange * string)) (st : MarketStateStore) : Prop :=
  store_keys st = K ∧ Forall (λ x, named x.1 x.2) (st_states st).

Ltac keepsV_step :=
  lazymatch goal with
  | |- keepsM _ (mbind _ getM) _ => eapply keeps_bind; [apply keeps_get|intros ? _]
  | |- keepsM _ (mbind _ (liftM _)) _ => eapply keeps_bind; [apply keeps_any|intros ? _]
  | |- keepsM _ (mbind _ _) _ => apply keeps_bind with (Q := λ _, True); [|intros ? _]
  | |- keepsM _ (modifyM _) _ => let H := fresh in apply keeps_modify; intros ? H; exact H
  | |- keepsM _ (mret _) _ => by apply keeps_ret
  | |- keepsM _ (let '(_, _) := ?x in _) _ => destruct x
  | |- keepsM _ (if ?b then _ else _) _ => destruct b
  | |- keepsM _ (match ?x with _ => _ end) _ => destruct x
  end.

Lemma keeps_named_append {T} k get set t (v : T) :
  (∀ w s, named k s → named k (set w s)) → keepsM (named k) (append_to get set t v) (λ _, True).
Proof. intros Hset. unfold append_to. repeat keepsV_step. apply keeps_modify. intros s. apply Hset. Qed.

Lemma keeps_named_book {A} k (m : M FeatureBook A) : keepsM (named k) (on_book m) (λ _, True).
Proof.
  apply (keeps_zoom _ _ _ _ (λ _, True)); [done|by intros t s Hs _|].
  intros b b' r _ _. split; [done|]. by destruct r.
Qed.

Lemma keeps_named_ingest k d cfg e : keepsM (named k) (ingest_event d cfg e) (λ _, True).
Proof.
  unfold ingest_event, dispatch, book_handler, record_history, reject, append_trade, append_price,
    append_open_interest, append_funding, append_mark, append_index, append_liquidation,
    append_book_update, append_book_change, append_history. cbv zeta.
  repeat first [keepsV_step|apply keeps_named_append; by intros|apply keeps_named_book].
Qed.

Lemma create_state_named cfg e sym s : create_state cfg e sym = Ok s → named (e, sym) s.
Proof. unfold create_state. intros H. do 12 (apply bind_Ok in H as (? & _ & H)). by injection H as <-. Qed.

Lemma with_state_keys {A} K e sym (m : M VenueSymbolState A) :
  (e, sym) ∈ K → keepsM (named (e, sym)) m (λ _, True) → keepsM (store_named K) (with_state e sym m) (λ _, True).
Proof.
  intros Hin Hm st st' r Hst H. pose proof Hst as [Hk Hn]. unfold with_state in H. rewrite Forall_forall in Hn.
  destruct (concrete e); [|by injection H as <- <-].
  unfold mbind, M_bind, requireM, liftM, getM in H. cbn [require] in H.
  destruct (current_state st (e, sym)) as [s|x] eqn:Es; [|by injection H as <- <-].
  assert (named (e, sym) s) as Hs.
  { unfold current_state in Es. destruct (dict_get (e, sym) (st_states st)) as [s0|] eqn:Ed.
    - injection Es as <-. apply dict_get_elem in Ed as (k & Hin' & Ek). apply bool_decide_eq_true in Ek as ->.
      by apply (Hn (k, s0)).
    - by eapply create_state_named. }
  unfold zoomM in H. destruct (m s) as [s' r'] eqn:Em. injection H as <- <-.
  destruct (Hm s s' r' Hs Em) as [Hs' _]. split; [|by destruct r']. split.
  - unfold store_keys in *. cbn [st_states]. by rewrite dict_set_known; rewrite Hk.
  - cbn [st_states]. apply Forall_forall. intros [k x] Hx.
    apply dict_set_elem_key in Hx as [Hx|[-> E]]; [by apply Hn|]. apply bool_decide_eq_true in E. by subst k.
Qed.

Lemma ingest_keys K e :
  (exchange (event_meta e), symbol (event_meta e)) ∈ K ∨ is_exchange_health e = true ∧ symbol (event_meta e) = "*"%string →
  keepsM (store_named K) (ingest digest e) (λ _, True).
Proof.
  intros Hk. destruct (is_exchange_health e) eqn:Eh.
  - destruct e as [| | | | | | | | |h]; try done. simpl in *.
    apply keeps_bind with (Q := λ _, True); [|intros status _; by apply keeps_ret].
    unfold update_health. cbv zeta. eapply keeps_bind; [apply keeps_get|intros st Hst].
    destruct (dict_get _ (st_exchange_health_events st)) as [w|]; [|by apply keeps_raise].
    case_bool_decide as Hs.
    + destruct (append_at w _ h) as [w' status].
      apply keeps_bind with (Q := λ _, True); [apply keeps_modify; intros st' Hst'; exact Hst'|intros _ _].
      case_bool_decide; [|by apply keeps_ret].
      apply keeps_bind with (Q := λ _, True); [|intros _ _; by apply keeps_ret]. apply keeps_modify.
      intros st' [Hst' Hn]. unfold store_named, store_keys in *. simpl. rewrite map_map. split; [by simpl|].
      apply Forall_map. eapply Forall_impl; [exact Hn|]. intros [k s] Hx. simpl in *.
      unfold set_channel_of. by case_bool_decide.
    + destruct Hk as [Hk|[_ Hk]]; [|done]. apply with_state_keys; [done|].
      unfold append_health. repeat first [keepsV_step|apply keeps_named_append; by intros].
  - destruct Hk as [Hk|[? _]]; [|done].
    assert (ingest digest e = (st ← getM; with_state (exchange (event_meta e)) (symbol (event_meta e))
      (ingest_event digest (st_config st) e))) as -> by by destruct e.
    eapply keeps_bind; [apply keeps_get|intros st _]. apply with_state_keys; [done|]. apply keeps_named_ingest.
Qed.

(** The keys of the store and the universe: the configured ones. *)
Definition universe_ok (p : FeatureRuntime * W) : Prop :=
  store_named (configured_universe c) (store (pipeline p.1)) ∧ universe p.1 = configured_universe c.

Abbreviation keepsU := (keepsM universe_ok).

Lemma keeps_universe_modify f :
  (∀ r, pipeline (f r) = pipeline r ∧ universe (f r) = universe r) → keepsU (modifyR f) (λ _, True).
Proof using Type.
  intros Hf. apply keeps_modify. intros [r w] [H1 H2]. destruct (Hf r) as [E1 E2].
  split; cbn [fst] in *; by rewrite ?E1, ?E2.
Qed.

Lemma keeps_universe_getR : keepsU getR (λ r, universe r = configured_universe c).
Proof using Type. intros p p' r Hp [= <- <-]. split; [done|]. apply Hp. Qed.

Lemma keeps_universe_store {A} (m : M MarketStateStore A) :
  keepsM (store_named (configured_universe c)) m (λ _, True) →
  keepsU (in_pipeline (in_store m)) (λ _, True).
Proof using Type.
  intros Hm. apply (keeps_zoom _ _ _ _ (λ x, store_named (configured_universe c) (store x))).
  - by intros p [? ?].
  - intros x [r w] [_ H] Hx. by split.
  - apply (keeps_zoom _ _ _ _ (store_named (configured_universe c))); done.
Qed.

Lemma keeps_universe_other {A T} (get : FeatureRuntime * W → T) set (m : M T A) :
  (∀ t p, pipeline (set t p).1 = pipeline p.1 ∧ universe (set t p).1 = universe p.1) →
  keepsU (zoomM get set m) (λ _, True).
Proof using Type.
  intros Hset. apply (keeps_zoom _ _ _ _ (λ _, True)); [done| |].
  - intros t p [H1 H2] _. destruct (Hset t p) as [E1 E2]. split; congruence.
  - intros t t' r _ _. split; [done|]. by destruct r.
Qed.

Ltac keepsU_step :=
  lazymatch goal with
  | |- keepsM _ (mbind _ getR) _ => eapply keeps_bind; [apply keeps_universe_getR|intros ? ?]
  | |- keepsM _ (mbind _ (liftM _)) _ => eapply keeps_bind; [apply keeps_any|intros ? _]
  | |- keepsM _ (mbind _ (requireM _ _)) _ => eapply keeps_bind; [apply keeps_require|intros _ _]
  | |- keepsM _ (mbind _ (modifyR _)) _ =>
      eapply keeps_bind; [apply keeps_universe_modify; intros ?; repeat case_match; by split|intros _ _]
  | |- keepsM _ (mbind _ (in_engine _)) _ =>
      eapply keeps_bind; [by apply keeps_universe_other|intros ? _]
  | |- keepsM _ (mbind _ (in_writer _)) _ =>
      eapply keeps_bind; [by apply keeps_universe_other|intros ? _]
  | |- keepsM _ (mbind _ _) _ => apply keeps_bind with (Q := λ _, True); [|intros ? _]
  | |- keepsM _ (modifyR _) _ => apply keeps_universe_modify; intros ?; repeat case_match; by split
  | |- keepsM _ (in_writer _) _ => by apply keeps_universe_other
  | |- keepsM _ (in_engine _) _ => by apply keeps_universe_other
  | |- keepsM _ (mret _) _ => by apply keeps_ret
  | |- keepsM _ (raiseM _) _ => apply keeps_raise
  | |- keepsM _ (liftM _) _ => by apply keeps_lift
  | |- keepsM _ (requireM _ _) _ => by apply keeps_lift
  | |- keepsM _ (forM _ _) _ => apply keeps_forM; intros ? _
  | |- keepsM _ (mapMs _ _) _ =>
      apply keeps_mono with (Q := Forall (λ _, True)); [apply keeps_mapMs; intros ? _|done]
  | |- keepsM _ (if ?b then _ else _) _ => destruct b eqn:?
  | |- keepsM _ (match ?x with _ => _ end) _ => destruct x eqn:?
  end.

Lemma keepsU_tick tick :
  keepsU (runtime_consume_tick c semantic fingerprint feature_id config_hash math_log address
            history_sha256 cross_id tick) (λ _, True).
Proof using Type.
  unfold runtime_consume_tick, require_active, remember_snapshot, cross_of, touch_history, emit_snapshot, record_snapshot.
  cbv zeta. repeat keepsU_step.
Qed.

Lemma keepsU_event e : keepsU (consume_event digest e) (λ _, True).
Proof using Type.
  unfold consume_event, require_active. cbv zeta. keepsU_step; [repeat keepsU_step|].
  keepsU_step. keepsU_step.
  apply keeps_bind with (Q := λ _, (exchange (event_meta e), symbol (event_meta e)) ∈ configured_universe c ∨
    is_exchange_health e = true ∧ symbol (event_meta e) = "*"%string).
  { case_bool_decide as Hs; (eapply keeps_mono; [apply keeps_require|]); cbv beta.
    - intros _ H1. by right.
    - intros _ H1. left. apply bool_decide_eq_true in H1. congruence. }
  intros _ Hk. keepsU_step. eapply keeps_bind.
  { unfold pipeline_consume. apply (keeps_zoom _ _ _ _ (λ x, store_named (configured_universe c) (store x))).
    - by intros p [? ?].
    - intros x [r w] [_ H1] Hx. by split.
    - apply keeps_bind with (Q := λ _, True); [|intros r _; by apply keeps_modify].
      apply (keeps_zoom _ _ _ _ (store_named (configured_universe c))); [done|done|].
      by apply ingest_keys. }
  intros _ _. destruct (is_book_event e) eqn:Eb; [|by apply keeps_ret].
  unfold note_book_generation. cbv zeta. eapply keeps_bind.
  { apply keeps_universe_store, with_state_keys; [|eapply keeps_mono; [apply keeps_get|done]].
    destruct Hk as [Hk|[He _]]; [exact Hk|]. by destruct e. }
  intros s _. repeat keepsU_step.
Qed.

Lemma keepsU_op op :
  keepsU (run_runtime_op c digest semantic fingerprint feature_id config_hash math_log address
            history_sha256 cross_id op) (λ _, True).
Proof using Type.
  destruct op; [| |apply keepsU_event|apply keepsU_tick]; simpl; unfold runtime_start, runtime_close.
  - repeat keepsU_step.
  - keepsU_step. destruct (closed a); [by apply keeps_ret|]. destruct (close_task a); [by apply keeps_lift|].
    intros p p' res [H1 H2]. unfold in_writer, zoomM. destruct (writer_close p.2) as [w [u|x]]; intros [= <- <-]; by split.
Qed.

Lemma with_state_new K e sym st st' :
  store_named K st → (e, sym) ∉ K → with_state e sym (mret tt) st = (st', Ok tt) →
  store_named (K ++ [(e, sym)]) st'.
Proof using Type.
  intros [Hk Hn] Hnew H. unfold with_state in H. inv_M.
  match goal with H : zoomM _ _ _ _ = _ |- _ => apply zoomM_Ok in H as (t & Ht & ->) end.
  injection Ht as <-.
  assert (dict_get (e, sym) (st_states st) = None) as Hd.
  { apply dict_get_None_elem. intros k' v' Hin. apply not_true_is_false. intros E.
    apply bool_decide_eq_true in E. subst k' K. apply Hnew. apply list_elem_of_fmap. by exists ((e, sym), v'). }
  match goal with H : current_state st (e, sym) = _ |- _ => unfold current_state in H; rewrite Hd in H;
    apply create_state_named in H; rename H into Hs end.
  split; unfold store_keys; cbn [st_states]; rewrite dict_set_snoc by done.
  - rewrite map_app. by rewrite <- Hk.
  - apply Forall_app. split; [done|]. by constructor.
Qed.

Lemma create_states l K st st' :
  store_named K st → NoDup (K ++ l) →
  execM (forM (λ k, with_state k.1 k.2 (mret tt)) l) st = Ok st' → store_named (K ++ l) st'.
Proof using Type.
  revert K st. induction l as [|[e sym] l IH]; intros K st Hst Hnd H.
  - injection H as <-. by rewrite (app_nil_r K).
  - rewrite execM_forM_cons in H. apply bind_Ok in H as (st1 & H1 & H2). apply execM_Ok in H1 as [[] H1].
    apply (with_state_new K) in H1; [|done|].
    2: { apply NoDup_app in Hnd as (_ & Hnd & _). intros Hin. apply (Hnd _ Hin). left. }
    apply (IH (K ++ [(e, sym)])) in H2; rewrite <- ?app_assoc in *; done.
Qed.

(** The store never has a state but those of the configured venues and symbols. *)
Lemma runtime_reach_universe w0 p :
  NoDup (canonical_symbols (rs_cross c)) →
  runtime_reach c digest semantic fingerprint feature_id config_hash math_log address history_sha256 cross_id w0 p →
  universe_ok p.
Proof using Type.
  intros Hnd. induction 1 as [r H|p op _ IH].
  - unfold runtime_init in H. apply bind_Ok in H as (st & Hst & H). apply bind_Ok in H as (st' & Hf & H).
    apply bind_Ok in H as (items & _ & H). injection H as <-. split; cbn [fst pipeline pipeline_init store]; [|done].
    unfold store_init in Hst. do 2 (apply bind_Ok in Hst as (? & _ & Hst)). injection Hst as <-.
    apply (create_states _ []) in Hf; [exact Hf|by split|]. simpl. unfold configured_universe. simpl. rewrite (app_nil_r (map _ _)).
    apply NoDup_app. split; [|split].
    + by apply NoDup_fmap; [intros ?? [= ->]|].
    + intros k (a & -> & _)%list_elem_of_fmap (b & E & _)%list_elem_of_fmap. done.
    + by apply NoDup_fmap; [intros ?? [= ->]|].
  - destruct (run_runtime_op _ _ _ _ _ _ _ _ _ _ op p) as [p' r] eqn:E. by destruct (keepsU_op op p p' r IH E).
Qed.
End universe.

(** ** One decision *)

(** A writer that records. *)
#[export] Instance recording_writer : FeatureWriter (list PersistableFeatureSnapshot) := {|
  writer_start := mret tt;
  writer_write s := modifyM (λ l, l ++ [s]);
  writer_close := mret tt |}.

(** What a decision leaves alone while it writes. *)
Definition tick_frame (r : FeatureRuntime) (w : list PersistableFeatureSnapshot)
    (p : FeatureRuntime * list PersistableFeatureSnapshot) : Prop :=
  p.2 = w ∧ pipeline p.1 = pipeline r ∧ feature_ticks p.1 = feature_ticks r ∧
  single_snapshots p.1 = single_snapshots r ∧ cross_snapshots p.1 = cross_snapshots r.

Lemma keeps_frame_modify r w f :
  (∀ r', pipeline (f r') = pipeline r' ∧ feature_ticks (f r') = feature_ticks r' ∧
         single_snapshots (f r') = single_snapshots r' ∧ cross_snapshots (f r') = cross_snapshots r') →
  keepsM (tick_frame r w) (modifyR f) (λ _, True).
Proof.
  intros Hf. apply keeps_modify. intros [r' w'] (H1 & H2 & H3 & H4 & H5). cbn [fst snd] in *.
  destruct (Hf r') as (E1 & E2 & E3 & E4). unfold tick_frame. cbn [fst snd]. by rewrite E1, E2, E3, E4.
Qed.

Lemma keeps_frame_getR r w : keepsM (tick_frame r w) getR (λ _, True).
Proof. intros p p' x Hp [= <- <-]. by split. Qed.

Ltac frame_step :=
  lazymatch goal with
  | |- keepsM _ (mbind _ (modifyR _)) _ =>
      eapply keeps_bind; [apply keeps_frame_modify; intros ?; repeat case_match; by split_and!|intros _ _]
  | |- keepsM _ (mbind _ getR) _ => eapply keeps_bind; [apply keeps_frame_getR|intros ? _]
  | |- keepsM _ (mbind _ _) _ => apply keeps_bind with (Q := λ _, True); [|intros ? _]
  | |- keepsM _ (modifyR _) _ => apply keeps_frame_modify; intros ?; repeat case_match; by split_and!
  | |- keepsM _ (mret _) _ => by apply keeps_ret
  | |- keepsM _ (raiseM _) _ => apply keeps_raise
  | |- keepsM _ (liftM _) _ => by apply keeps_lift
  | |- keepsM _ (if ?b then _ else _) _ => destruct b
  end.

Lemma keeps_frame_record r w s : keepsM (tick_frame r w) (record_snapshot s) (λ _, True).
Proof. unfold record_snapshot. cbv zeta. repeat frame_step. Qed.

Lemma keeps_frame_remember r w f : keepsM (tick_frame r w) (remember_snapshot f) (λ _, True).
Proof. unfold remember_snapshot, touch_history. cbv zeta. repeat frame_step. Qed.

Lemma keeps_frame_cross r w c hash hist id decision x :
  keepsM (tick_frame r w) (cross_of c hash hist id decision x) (λ _, True).
Proof. unfold cross_of, touch_history. repeat frame_step. Qed.

Lemma emit_recorded l r w p p' u :
  tick_frame r w p → forM emit_snapshot l p = (p', Ok u) → tick_frame r (w ++ l) p'.
Proof.
  revert w p. induction l as [|s l IH]; intros w p Hp H.
  - injection H as <- _. by rewrite (app_nil_r w).
  - simpl in H. apply bindM_Ok in H as (p1 & [] & H1 & H). replace (w ++ s :: l) with ((w ++ [s]) ++ l) by by rewrite <- app_assoc.
    apply (IH (w ++ [s]) p1); [|done]. unfold emit_snapshot in H1. apply bindM_Ok in H1 as (p2 & u2 & H1 & H2).
    destruct (keeps_frame_record r w s p p2 (Ok u2) Hp H1) as [(E1 & E2 & E3 & E4 & E5) _].
    apply zoomM_Ok in H2 as (w2 & [= <-] & ->). unfold tick_frame. cbn [fst snd]. by rewrite E1.
Qed.

Lemma calculate_named c digest fingerprint feature_id config_hash math_log address o t w e e' f :
  SingleVenue.calculate c digest fingerprint feature_id config_hash math_log address o (utc t) w e = (e', Ok f) →
  validate_canonical_symbol (vs_symbol (state_of o)) true = Ok (vs_symbol (state_of o)) →
  (fs_exchange f, fs_symbol f, fs_window_seconds f) = (vs_exchange (state_of o), vs_symbol (state_of o), w) ∧
  fs_decision_timestamp f = t.
Proof.
  unfold SingleVenue.calculate. cbv zeta. intros H Hsym.
  apply bindM_Ok in H as (e1 & decision & Hd & H). apply liftM_Ok in Hd as [Hd _].
  unfold price_utc in Hd. rewrite as_utc_utc in Hd. injection Hd as <-.
  do 9 (apply bindM_Ok in H as (? & ? & _ & H)). apply liftM_Ok in H as [H _].
  unfold mk_venue_snapshot in H. cbv zeta in H. apply bind_Ok in H as (m & Hm & H).
  assert (∀ s s', validate_feature_snapshot s = Ok s' → s' = s) as Hid.
  { intros s s' Hv. unfold validate_feature_snapshot in Hv. do 7 (apply bind_Ok in Hv as (? & _ & Hv)). by injection Hv. }
  apply Hid in H as ->. cbn [fs_decision_timestamp fs_window_seconds]. split; [|done].
  unfold mk_metadata in Hm. rewrite Hsym in Hm. do 5 (apply bind_Ok in Hm as (? & ? & Hm)).
  injection Hm as <-. unfold fs_exchange, fs_symbol. cbn [fs_meta exchange symbol]. congruence.
Qed.

(** ** The tick *)

Section tick.
Context (c : RuntimeSettings) (digest semantic : Z → event → string)
  (fingerprint : SourceLineage → string) (feature_id : SingleIdentity → UUID)
  (config_hash : string) (math_log : float → res float) (address : Z → stream → Z → Z)
  (history_sha256 : list HistoryItem → string) (cross_id : CrossIdentity → UUID).

Definition venue_keys (keys : list (Exchange * string)) (windows : list Z) : list (Exchange * string * Z) :=
  concat (map (λ k, map (pair k) windows) keys).

Lemma imap_snd {A B} (f : nat → B) (l : list A) : map snd (imap (λ i x, (f i, x)) l) = l.
Proof. revert f. induction l as [|x l IH]; intros f; [done|]. simpl. f_equal. apply (IH (f ∘ S)). Qed.

Lemma state_objects_named K st objects :
  store_named K st → state_objects st = Ok objects →
  map (λ o, (vs_exchange (state_of o), vs_symbol (state_of o))) objects = K.
Proof.
  intros [<- Hn] H. unfold state_objects in H. apply mapR_Ok in H.
  assert (map state_of objects = store_states st) as Hs.
  { rewrite <- (imap_snd Z.of_nat (store_states st)). induction H as [|[i s] o l l' Ho _ IH]; [done|].
    simpl. f_equal; [|exact IH]. apply bind_Ok in Ho as (w & _ & [= <-]). done. }
  transitivity (map (λ s, (vs_exchange s, vs_symbol s)) (map state_of objects)); [by rewrite map_map|].
  rewrite Hs. unfold store_states, store_keys. rewrite map_map.
  induction Hn as [|[k s] l Hx _ IH]; [done|]. simpl. f_equal; [exact Hx|exact IH].
Qed.

(** What the engine returns, in order. *)
Lemma calculate_all_named keys t objects e e' singles :
  map (λ o, (vs_exchange (state_of o), vs_symbol (state_of o))) objects = keys →
  Forall (λ k, validate_canonical_symbol k.2 true = Ok k.2) keys →
  SingleVenue.calculate_all (rs_single c) semantic fingerprint feature_id config_hash math_log address
    objects (utc t) e = (e', Ok singles) →
  map (λ f, (fs_exchange f, fs_symbol f, fs_window_seconds f)) singles =
    venue_keys keys (svc_feature_windows_seconds (rs_single c)) ∧
  Forall (λ f, fs_decision_timestamp f = t) singles.
Proof.
  intros <- Hk H. apply mapMs_Forall2 in H. rewrite Forall_map in Hk.
  set (pairs := concat (map (λ o, map (pair o) (svc_feature_windows_seconds (rs_single c))) objects)) in H.
  assert (Forall (λ x, validate_canonical_symbol (vs_symbol (state_of x.1)) true = Ok (vs_symbol (state_of x.1))) pairs) as Hp.
  { subst pairs. clear H. induction Hk as [|o l Ho _ IH]; [constructor|]. simpl. apply Forall_app. split; [|exact IH].
    apply Forall_map, Forall_true. done. }
  assert (venue_keys (map (λ o, (vs_exchange (state_of o), vs_symbol (state_of o))) objects)
      (svc_feature_windows_seconds (rs_single c)) =
    map (λ x, (vs_exchange (state_of x.1), vs_symbol (state_of x.1), x.2)) pairs) as ->.
  { subst pairs. clear. unfold venue_keys. rewrite concat_map, !map_map. f_equal. apply map_ext. intros o. by rewrite map_map. }
  clear Hk. induction H as [|[o w] f l l' (s1 & s2 & E) _ IH]; [done|].
  apply Forall_cons in Hp as [Ho Hp]. destruct (IH Hp) as [IH1 IH2]. cbn [fst snd] in *.
  destruct (calculate_named _ _ _ _ _ _ _ _ _ _ _ _ _ E Ho) as [Hn Ht].
  split; [simpl; by rewrite Hn, IH1|by constructor].
Qed.

Lemma crosses_named t l crosses :
  Forall2 (λ x y, ∃ s1 s2, cross_of (W := list PersistableFeatureSnapshot) c config_hash history_sha256 cross_id t x s1 = (s2, Ok y)) l crosses →
  map cvs_window_seconds crosses = map snd l ∧ Forall (λ f, cvs_decision_timestamp f = t) crosses.
Proof.
  induction 1 as [|[sym w] x l l' (s1 & s2 & E) _ [IH1 IH2]]; [done|].
  unfold cross_of in E. apply bindM_Ok in E as (? & ? & _ & E). apply bindM_Ok in E as (? & ? & _ & E).
  apply liftM_Ok in E as [E _]. apply cross_calculate_valid in E as (_ & E1 & E2).
  split; [simpl; by rewrite E2, IH1|by constructor].
Qed.

Lemma universe_canonical :
  Forall (λ s, validate_canonical_symbol s true = Ok s) (canonical_symbols (rs_cross c)) →
  Forall (λ k, validate_canonical_symbol k.2 true = Ok k.2) (configured_universe c).
Proof.
  intros H. unfold configured_universe. simpl. rewrite (app_nil_r (map _ _)).
  apply Forall_app. split; by apply Forall_map.
Qed.

End tick.
