(* ===== verification/TimelineSink.v ===== *)
(** * The timeline on any bus and runtime

    The trace of [Timeline] is what every bus and runtime gets: when handling the calls
    of the trace does not raise, a driver on them ends like the traced one, with the
    effect of those calls.  So arrival orders that give one trace give one result. *)

From S2P Require Import Prelude Effects PyDecimal PyTime Models Clock Timeline TimelineExact.
Open Scope Z_scope.

Section sink.
Context {E : Type} `{!FeatureSink E}.

Definition call (o : output) : M E unit :=
  match o with OEvent e => bus_publish e | ODrain => bus_drain | OTick t => consume_tick t end.

(** The second computation does what the first one traces. *)
Definition follows {A} (m1 : M (ReceiveTimeFeatureDriver * list output) A)
    (m2 : M (ReceiveTimeFeatureDriver * E) A) : Prop :=
  ∀ d tr p a, m1 (d, tr) = (p, Ok a) →
    ∃ new, p.2 = tr ++ new ∧ ∀ e e', forM call new e = (e', Ok tt) → m2 (d, e) = ((p.1, e'), Ok a).

Lemma forM_app {S A} (f : A → M S unit) l1 l2 s s' :
  forM f (l1 ++ l2) s = (s', Ok tt) ↔ ∃ s1, forM f l1 s = (s1, Ok tt) ∧ forM f l2 s1 = (s', Ok tt).
Proof.
  revert s. induction l1 as [|x l1 IH]; intros s; simpl.
  - split; [intros H; by exists s|by intros (? & [= <-] & ?)].
  - rewrite bindM_Ok. split.
    + intros (s1 & [] & H1 & (s2 & H2 & H3)%IH). exists s2. split; [|done]. apply bindM_Ok. by exists s1, tt.
    + intros (s2 & (s1 & [] & H1 & H2)%bindM_Ok & H3). exists s1, tt. split; [done|]. apply IH. by exists s2.
Qed.

Lemma follows_pure {A} (m1 : M (ReceiveTimeFeatureDriver * list output) A)
    (m2 : M (ReceiveTimeFeatureDriver * E) A) :
  (∀ d tr p a, m1 (d, tr) = (p, Ok a) → p.2 = tr ∧ ∀ e, m2 (d, e) = ((p.1, e), Ok a)) → follows m1 m2.
Proof.
  intros H d tr p a H1. destruct (H d tr p a H1) as [E1 E2]. exists [].
  split; [by rewrite (app_nil_r tr)|]. intros e e' [= <-]. apply E2.
Qed.

Lemma follows_ret {A} (a : A) : follows (mret a) (mret a).
Proof. apply follows_pure. by intros d tr p b [= <- <-]. Qed.
Lemma follows_lift {A} (r : res A) : follows (liftM r) (liftM r).
Proof. apply follows_pure. intros d tr p b. unfold liftM. by intros [= <- ->]. Qed.
Lemma follows_require b x : follows (requireM b x) (requireM b x).
Proof. apply follows_lift. Qed.
Lemma follows_getD : follows getD getD.
Proof. apply follows_pure. by intros d tr p b [= <- <-]. Qed.
Lemma follows_modifyD f : follows (modifyD f) (modifyD f).
Proof. apply follows_pure. by intros d tr p b [= <- <-]. Qed.

Lemma follows_bind {A B} m1 m2 (f1 : A → M (ReceiveTimeFeatureDriver * list output) B) f2 :
  follows m1 m2 → (∀ a, follows (f1 a) (f2 a)) → follows (m1 ≫= f1) (m2 ≫= f2).
Proof.
  intros Hm Hf d tr p b ([d1 tr1] & a & H1 & H2)%bindM_Ok.
  destruct (Hm _ _ _ _ H1) as (n1 & E1 & K1), (Hf a _ _ _ _ H2) as (n2 & E2 & K2). cbn [fst snd] in *. subst tr1.
  exists (n1 ++ n2). split; [by rewrite E2, app_assoc|]. intros e e' (e1 & F1 & F2)%forM_app.
  apply bindM_Ok. exists (d1, e1), a. split; [by apply K1|by apply K2].
Qed.

Lemma call_one o e e' : forM call [o] e = (e', Ok tt) → call o e = (e', Ok tt).
Proof. intros (e1 & [] & H & [= <-])%bindM_Ok. done. Qed.

Lemma follows_publish e : follows (sink (bus_publish e)) (sink (bus_publish e)).
Proof.
  intros d tr p a [= <- <-]. exists [OEvent e]. split; [done|]. intros w w' H%call_one.
  unfold sink, zoomM. simpl in *. by rewrite H.
Qed.
Lemma follows_drain : follows (sink bus_drain) (sink bus_drain).
Proof.
  intros d tr p a [= <- <-]. exists [ODrain]. split; [done|]. intros w w' H%call_one.
  unfold sink, zoomM. simpl in *. by rewrite H.
Qed.
Lemma follows_tick t : follows (sink (consume_tick t)) (sink (consume_tick t)).
Proof.
  intros d tr p a [= <- <-]. exists [OTick t]. split; [done|]. intros w w' H%call_one.
  unfold sink, zoomM. simpl in *. by rewrite H.
Qed.

Lemma follows_forM {A} (f1 : A → M (ReceiveTimeFeatureDriver * list output) unit) f2 l :
  (∀ x, follows (f1 x) (f2 x)) → follows (forM f1 l) (forM f2 l).
Proof.
  intros Hf. induction l as [|x l IH]; [apply follows_ret|]. simpl. by apply follows_bind.
Qed.

Lemma follows_run_transition m1 m2 : follows m1 m2 → follows (run_transition m1) (run_transition m2).
Proof.
  intros Hm d tr p u H. unfold run_transition in H. destruct (m1 (d, tr)) as [[d1 tr1] [v|x]] eqn:E1; [|done].
  injection H as <- <-. destruct (Hm _ _ _ _ E1) as (n & En & K). exists n. split; [done|].
  intros e e' He. unfold run_transition. by rewrite (K e e' He).
Qed.
End sink.

Create HintDb follows.
#[export] Hint Resolve follows_ret follows_lift follows_require follows_getD follows_modifyD
  follows_publish follows_drain follows_tick : follows.

(** The driver's code, step by step. *)
Ltac follows_step :=
  lazymatch goal with
  | |- follows (mbind _ _) _ => apply follows_bind; [|intros ?]
  | |- follows (forM _ _) _ => apply follows_forM; intros ?
  | |- follows (run_transition _) _ => apply follows_run_transition
  | |- follows (match ?x with _ => _ end) _ => destruct x
  | |- follows _ _ => solve [auto with follows]
  end.

Section driver.
Context {E : Type} `{!FeatureSink E}.
Context (c : TimelineSettings) (content_identity : event → string).

Lemma follows_emit target : follows (emit_ticks_through target) (emit_ticks_through target).
Proof. unfold emit_ticks_through. repeat follows_step. Qed.

Lemma follows_received fuel t : follows (publish_received fuel t) (publish_received fuel t).
Proof.
  induction fuel as [|fuel IH]; cbn [publish_received]; repeat follows_step; exact IH.
Qed.

Lemma follows_release fuel target : follows (release_through c fuel target) (release_through c fuel target).
Proof.
  induction fuel as [|fuel IH]; cbn [release_through]; repeat follows_step;
    first [apply follows_emit|apply follows_received|exact IH].
Qed.

Lemma follows_advance target : follows (advance_locked c target) (advance_locked c target).
Proof.
  unfold advance_locked. repeat follows_step; first [apply follows_release|apply follows_emit].
Qed.

Lemma follows_op op : follows (run_op c content_identity op) (run_op_on c content_identity op).
Proof.
  destruct op; simpl; unfold driver_publish, driver_advance_to, driver_finish, publish_locked, queue_item,
    raise_if_failed; cbv zeta; repeat follows_step; apply follows_advance.
Qed.

(** A run on any bus and runtime is the traced run with the effect of its calls. *)
Lemma sink_runs_the_trace ops d tr e e' :
  forM (run_op c content_identity) ops (driver_init, []) = ((d, tr), Ok tt) →
  forM call tr e = (e', Ok tt) →
  forM (run_op_on c content_identity) ops (driver_init, e) = ((d, e'), Ok tt).
Proof.
  intros H He. destruct (follows_forM (run_op c content_identity) _ ops follows_op _ _ _ _ H) as (new & En & K).
  simpl in En. subst new. by apply K.
Qed.

(** A bus whose drain only waits sees nothing of it. *)
Lemma calls_of_run tr e : bus_drain = mret tt → forM call (calls_of tr) e = forM call tr e.
Proof.
  intros Hd. revert e. induction tr as [|o tr IH]; intros e; [done|].
  destruct o as [x| |t]; simpl; unfold mbind, M_bind.
  - destruct (bus_publish x e) as [e1 [u|]]; [apply IH|done].
  - rewrite Hd. simpl. apply IH.
  - destruct (consume_tick t e) as [e1 [u|]]; [apply IH|done].
Qed.

(** C16. Two arrival orders of the same events, within the lateness and the capacity: if the
    bus and the runtime handle the calls of the reference without raising, both runs end
    and leave them in the same state. *)
Theorem reorder_same_result es1 es2 m calls e e' :
  (∀ k, 0 < interval_for c k) → 0 < receive_time_reorder c → es1 ≡ₚ es2 →
  (∀ a b, a ∈ es1 → b ∈ es1 → event_key content_identity a = event_key content_identity b → a = b) →
  lateness_ok c None es1 = true → lateness_ok c None es2 = true →
  Z.of_nat (length es1) ≤ consumer_queue_capacity c →
  bus_drain = mret tt → maximum_received es1 = Some m →
  timeline_calls c content_identity es1 m = Ok calls → forM call calls e = (e', Ok tt) →
  let run es := forM (run_op_on c content_identity) (map Publish es ++ [Finish None]) (driver_init, e) in
  ∃ d1 d2, run es1 = ((d1, e'), Ok tt) ∧ run es2 = ((d2, e'), Ok tt).
Proof.
  intros Hi Hpos Hp Hk Hl1 Hl2 Hcap Hd Hm Hc He run.
  destruct (publishes_finish c content_identity Hi es1 Hpos Hl1 Hcap) as ([d1 tr1] & E1 & Hr1 & Hs1 & Hw1).
  destruct (publishes_finish c content_identity Hi es2 Hpos Hl2) as ([d2 tr2] & E2 & Hr2 & Hs2 & Hw2); [by rewrite <- Hp|].
  cbn [fst] in *. exists d1, d2.
  assert (∀ es d tr, at_rest c content_identity es (d, tr) → dr_sealed d = true → dr_watermark d = Some m →
    timeline_calls c content_identity es m = Ok (calls_of tr)) as Hcalls.
  { intros es d tr Hr Hs Hw. destruct (rest_calls c content_identity Hi es d tr Hr) as (C & _).
    destruct (sealed_all c content_identity Hi es d tr Hr Hs) as [F _]. rewrite Hw in *. by rewrite F in C. }
  pose proof (Hcalls _ _ _ Hr1 Hs1 ltac:(by rewrite Hw1)) as C1.
  pose proof (Hcalls _ _ _ Hr2 Hs2 ltac:(by rewrite Hw2, <- (maximum_received_perm _ _ Hp))) as C2.
  rewrite <- (timeline_calls_perm c content_identity es1 es2 m Hp Hk) in C2.
  split; [apply (sink_runs_the_trace _ _ tr1 _ _ E1)|apply (sink_runs_the_trace _ _ tr2 _ _ E2)];
    rewrite <- calls_of_run by done; congruence.
Qed.
End driver.
