(* ===== verification/RuntimeDemo.v ===== *)
(** * The timeline and the runtime evaluated

    The driver of [Timeline] on the runtime of [FeatureRuntime] with a writer that
    records: two arrival orders of the same events, and the theorems at their result. *)

From S2P Require Import Prelude Effects PyDecimal PyFloat PyTime Models Lineage Rolling BookState Health MarketState Availability PriceCache FeatureModels CrossVenue MetricHistory SingleVenue SingleResult SingleDemo Clock Timeline TimelineExact TimelineSink FeatureRuntime RuntimeResult.
Open Scope Z_scope.

(** The bus hands an event to the runtime at once, and has nothing to drain. *)
Definition runtime_sink (c : RuntimeSettings) digest semantic fingerprint feature_id config_hash math_log address
    history_sha256 cross_id {W} `{!FeatureWriter W} : FeatureSink (FeatureRuntime * W) := {|
  bus_publish := consume_event digest;
  bus_drain := mret tt;
  Timeline.consume_tick := runtime_consume_tick c semantic fingerprint feature_id config_hash math_log address
    history_sha256 cross_id |}.

Definition run_settings : RuntimeSettings :=
  {| rs_store := demo_config; rs_single := SingleDemo.demo_settings; rs_cross := demo_cross;
     rs_feature_update_seconds := f1 |}.
Definition run_sha (items : list HistoryItem) : string :=
  "0000000000000000000000000000000000000000000000000000000000000000".
Definition run_cross_id (i : CrossIdentity) : UUID := ci_symbol i.

#[export] Instance run_sink : FeatureSink (FeatureRuntime * list PersistableFeatureSnapshot) :=
  runtime_sink run_settings SingleDemo.demo_digest SingleDemo.demo_digest demo_fingerprint demo_feature_id (run_sha [])
    demo_log demo_address run_sha run_cross_id.

Lemma run_init_ok : is_ok (runtime_init run_settings) = true.
Proof. by vm_compute. Qed.
Definition run_fresh : FeatureRuntime := get_ok _ run_init_ok.
Lemma run_init : runtime_init run_settings = Ok run_fresh.
Proof. apply get_ok_spec. Qed.

Abbreviation run_reach := (runtime_reach run_settings SingleDemo.demo_digest SingleDemo.demo_digest demo_fingerprint
  demo_feature_id (run_sha []) demo_log demo_address run_sha run_cross_id []).
Abbreviation run_one := (run_runtime_op run_settings SingleDemo.demo_digest SingleDemo.demo_digest demo_fingerprint
  demo_feature_id (run_sha []) demo_log demo_address run_sha run_cross_id).
Abbreviation run_tick := (runtime_consume_tick run_settings SingleDemo.demo_digest demo_fingerprint
  demo_feature_id (run_sha []) demo_log demo_address run_sha run_cross_id).

Definition run_feature : DecisionTick := {| tick_timestamp := 5000000; tick_kind := FEATURE |}.
Definition run_signal : DecisionTick := {| tick_timestamp := 5000000; tick_kind := SIGNAL |}.

Definition run_start := (run_one RStart (run_fresh, [])).1.
Definition run_before : FeatureRuntime * list PersistableFeatureSnapshot :=
  foldl (λ p op, (run_one op p).1) run_start [REvent (tl_event 4900000); REvent (tl_event 5000000)].

Lemma run_before_reach : run_reach run_before.
Proof. unfold run_before, run_start. cbn [foldl]. repeat apply rreach_op. apply rreach_init, run_init. Qed.

Lemma run_tick_ok : is_ok (run_tick run_feature run_before).2 = true.
Proof. by vm_compute. Qed.
Definition run_after := (run_one (RTick run_feature) run_before).1.

Lemma run_after_reach : run_reach run_after.
Proof. unfold run_after. apply rreach_op. exact run_before_reach. Qed.

Lemma run_tick_run : run_tick run_feature run_before = (run_after, Ok tt).
Proof.
  unfold run_after. cbn [run_runtime_op]. destruct (run_tick run_feature run_before) as [p [[]|x]] eqn:E; [done|].
  pose proof run_tick_ok as H. by rewrite E in H.
Qed.

Lemma run_writer_ok s : snapshot_valid s → keepsM (Forall snapshot_valid) (writer_write s) (λ _, True).
Proof.
  intros Hs. apply keeps_modify. intros l Hl. apply Forall_app. split; [done|]. by constructor.
Qed.

Lemma run_idle_ok : keepsM (Forall snapshot_valid) writer_start (λ _, True) ∧
  keepsM (Forall snapshot_valid) writer_close (λ _, True).
Proof. by split; apply (keeps_ret _ tt). Qed.

(** After the tick: three snapshots written, all valid, and no alarm. *)
Lemma runtime_never_looks_ahead_witness :
  no_lookahead_violations run_after.1 = 0 ∧ length run_after.2 = 3%nat ∧ Forall snapshot_valid run_after.2 ∧
  length (rt_history run_after.1) = 2%nat ∧
  ∀ k l, (k, l) ∈ rt_history run_after.1 → Z.of_nat (length l) ≤ rt_history_items run_after.1 ∧
    Forall (λ f, validate_feature_snapshot f = Ok f ∧ (fs_exchange f, fs_symbol f, fs_window_seconds f) = k) l.
Proof.
  destruct (runtime_never_looks_ahead run_settings SingleDemo.demo_digest SingleDemo.demo_digest demo_fingerprint
    demo_feature_id (run_sha []) demo_log demo_address run_sha run_cross_id (Forall snapshot_valid)
    (proj1 run_idle_ok) (proj2 run_idle_ok) run_writer_ok [] run_after) as (H1 & H2 & H3).
  - constructor.
  - exact run_after_reach.
  - split; [exact H1|]. split; [by vm_compute|]. split; [exact H2|]. split; [by vm_compute|]. exact H3.
Defined.


(** ** Two arrival orders *)

Definition run_calls : list output :=
  [OEvent (tl_event 4900000); OEvent (tl_event 5000000); OTick run_feature; OTick run_signal;
   OEvent (tl_event 5100000)].
Definition run_end := (forM call run_calls run_start).1.

Lemma run_calls_ok : is_ok (forM call run_calls run_start).2 = true.
Proof. by vm_compute. Qed.
Lemma run_calls_end : forM call run_calls run_start = (run_end, Ok tt).
Proof.
  unfold run_end. destruct (forM call run_calls run_start) as [p [[]|x]] eqn:E; [done|].
  pose proof run_calls_ok as H. by rewrite E in H.
Qed.

Lemma reorder_same_result_witness :
  length run_end.2 = 3%nat ∧
  ∃ d1 d2,
    forM (run_op_on tl_settings tl_identity) (map Publish tl_order1 ++ [Finish None]) (driver_init, run_start) =
      ((d1, run_end), Ok tt) ∧
    forM (run_op_on tl_settings tl_identity) (map Publish tl_order2 ++ [Finish None]) (driver_init, run_start) =
      ((d2, run_end), Ok tt).
Proof.
  split; [by vm_compute|].
  apply (reorder_same_result tl_settings tl_identity tl_order1 tl_order2 5100000 run_calls run_start run_end).
  - exact tl_settings_positive.
  - reflexivity.
  - exact tl_orders_perm.
  - exact tl_keys_injective.
  - vm_compute. reflexivity.
  - vm_compute. reflexivity.
  - vm_compute. discriminate.
  - reflexivity.
  - vm_compute. reflexivity.
  - vm_compute. reflexivity.
  - exact run_calls_end.
Defined.
