(* ===== verification/Fingerprint.v ===== *)
(** * Canonical text

    [utils/fingerprint.py: canonical_json], the text that content identities are the
    SHA-256 of, and the fixed-width numbers and dates of file names and partitions.
    A character is a code point below 256.  Floats have no canonical text here: no
    modelled caller hashes one through [canonical_json]. *)

From S2P Require Import Prelude PyDecimal Models.
From stdpp Require Import pretty sorting.
From Stdlib Require Import Ascii.
Open Scope Z_scope.

(** ** Numbers of fixed width *)

Definition hex_digit (n : Z) : ascii :=
  ascii_of_N (Z.to_N (if n <? 10 then 48 + n else 87 + n)).

(** The last [w] digits of [n] in [base]: [f"{n:0w}"] for [0 <= n < base^w]. *)
Fixpoint fixed_digits (base : Z) (w : nat) (n : Z) : list ascii :=
  match w with
  | O => []
  | S w => fixed_digits base w (n / base) ++ [hex_digit (n mod base)]
  end.

(** [int(text, 16)] of lower-case digits. *)
Definition hex_value (c : ascii) : Z :=
  let n := Z.of_N (N_of_ascii c) in if n <=? 57 then n - 48 else n - 87.
Definition hex_number (s : string) : Z :=
  foldl (λ acc c, 16 * acc + hex_value c) 0 (chars s).

Lemma fixed_digits_length base w n : length (fixed_digits base w n) = w.
Proof. revert n. induction w as [|w IH]; intros n; simpl; [done|]. rewrite length_app, IH. simpl. lia. Qed.

(** ** Dates *)

(** Year, month and day of a day counted from 1970-01-01 (proleptic Gregorian). *)
Definition civil_of_day (day : Z) : Z * Z * Z :=
  let z := day + 719468 in
  let era := z / 146097 in
  let doe := z mod 146097 in
  let yoe := (doe - doe / 1460 + doe / 36524 - doe / 146096) / 365 in
  let doy := doe - (365 * yoe + yoe / 4 - yoe / 100) in
  let mp := (5 * doy + 2) / 153 in
  let d := doy - (153 * mp + 2) / 5 + 1 in
  let m := if mp <? 10 then mp + 3 else mp - 9 in
  let y := yoe + era * 400 + (if m <=? 2 then 1 else 0) in
  (y, m, d).

Definition day_us : Z := 86400 * 1000000.
Definition day_of (us : Z) : Z := us / day_us.

(** [value.astimezone(UTC).date().isoformat()]. *)
Definition iso_date (us : Z) : string :=
  let '(y, m, d) := civil_of_day (day_of us) in
  of_chars (fixed_digits 10 4 y ++ chars "-" ++ fixed_digits 10 2 m ++ chars "-" ++ fixed_digits 10 2 d).

(** [f"{value:%Y%m%dT%H%M%S.%fZ}"], for years of four digits. *)
Definition compact_timestamp (us : Z) : string :=
  let '(y, m, d) := civil_of_day (day_of us) in
  let t := us mod day_us in
  of_chars (fixed_digits 10 4 y ++ fixed_digits 10 2 m ++ fixed_digits 10 2 d ++ chars "T" ++
    fixed_digits 10 2 (t / 3600000000) ++ fixed_digits 10 2 (t / 60000000 mod 60) ++
    fixed_digits 10 2 (t / 1000000 mod 60) ++ chars "." ++ fixed_digits 10 6 (t mod 1000000) ++ chars "Z").

Example iso_date_leap : iso_date (19782 * day_us + 5) = "2024-02-29"%string.
Proof. vm_compute. reflexivity. Qed.
Example iso_date_new_year : iso_date (-1) = "1969-12-31"%string.
Proof. vm_compute. reflexivity. Qed.
Example compact_timestamp_day : compact_timestamp (19782 * day_us + 3723000005) = "20240229T010203.000005Z"%string.
Proof. vm_compute. reflexivity. Qed.

(** ** JSON *)

Inductive json :=
| JNull
| JBool (b : bool)
| JInt (n : Z)
| JStr (s : string)
| JArr (l : list json)
| JObj (l : list (string * json)).

Definition quote_char : ascii := ascii_of_N 34.

(** One character of a string, as [ensure_ascii=True] writes it. *)
Definition json_char (c : ascii) : list ascii :=
  let n := N_of_ascii c in
  if (n =? 34)%N then ["\"%char; quote_char]
  else if (n =? 92)%N then ["\"%char; "\"%char]
  else if (n =? 10)%N then ["\"%char; "n"%char]
  else if (n =? 13)%N then ["\"%char; "r"%char]
  else if (n =? 9)%N then ["\"%char; "t"%char]
  else if (n =? 8)%N then ["\"%char; "b"%char]
  else if (n =? 12)%N then ["\"%char; "f"%char]
  else if (32 <=? n)%N && (n <=? 126)%N then [c]
  else chars "\u" ++ fixed_digits 16 4 (Z.of_N n).

Definition json_string (s : string) : list ascii :=
  quote_char :: concat (map json_char (chars s)) ++ [quote_char].

(** [",".join(parts)]. *)
Fixpoint join_comma (parts : list (list ascii)) : list ascii :=
  match parts with
  | [] => []
  | [p] => p
  | p :: parts => p ++ ","%char :: join_comma parts
  end.

Definition key_leb {A} (a b : string * A) : bool := String.leb a.1 b.1.

Fixpoint json_chars (v : json) : list ascii :=
  match v with
  | JNull => chars "null"
  | JBool b => chars (if b then "true" else "false")
  | JInt n => chars (pretty n)
  | JStr s => json_string s
  | JArr l => "["%char :: join_comma (map json_chars l) ++ chars "]"
  | JObj l =>
    "{"%char :: join_comma
      (map (λ p, json_string p.1 ++ ":"%char :: p.2)
         (py_sorted key_leb (map (λ p, (p.1, json_chars p.2)) l))) ++ chars "}"
  end.

Definition canonical_json (v : json) : string := of_chars (json_chars v).

(** ** Different values have different texts *)

(** The value with the keys of its objects in order. *)
Fixpoint json_normal (v : json) : json :=
  match v with
  | JArr l => JArr (map json_normal l)
  | JObj l => JObj (py_sorted key_leb (map (λ p, (p.1, json_normal p.2)) l))
  | v => v
  end.

(** The text of a value, its objects in the order given. *)
Fixpoint json_raw (v : json) : list ascii :=
  match v with
  | JNull => chars "null"
  | JBool b => chars (if b then "true" else "false")
  | JInt n => chars (pretty n)
  | JStr s => json_string s
  | JArr l => "["%char :: join_comma (map json_raw l) ++ chars "]"
  | JObj l =>
    "{"%char :: join_comma (map (λ p, json_string p.1 ++ ":"%char :: json_raw p.2) l) ++ chars "}"
  end.

Fixpoint json_size (v : json) : nat :=
  match v with
  | JArr l => S (list_sum (map json_size l))
  | JObj l => S (list_sum (map (λ p, json_size p.2) l))
  | _ => 1
  end.

Lemma list_sum_elem x l : x ∈ l → (x ≤ list_sum l)%nat.
Proof. induction l as [|y l IH]; [by intros ?%elem_of_nil|]. intros [->|H]%elem_of_cons; simpl; [lia|]. specialize (IH H). lia. Qed.

(** Induction over the parts of a value. *)
Lemma json_ind' (P : json → Prop) :
  (∀ v, (∀ w, (json_size w < json_size v)%nat → P w) → P v) → ∀ v, P v.
Proof. intros H v. apply H. induction (json_size v) as [|n IH]; intros w Hw; [lia|]. apply H. intros u Hu. apply IH. lia. Qed.

Lemma json_size_arr v l : v ∈ l → (json_size v < json_size (JArr l))%nat.
Proof. intros H. simpl. assert (json_size v ∈ map json_size l) as ?%list_sum_elem by by apply list_elem_of_fmap_2. lia. Qed.
Lemma json_size_obj p l : p ∈ l → (json_size p.2 < json_size (JObj l))%nat.
Proof.
  intros H. simpl. assert (json_size p.2 ∈ map (λ p, json_size p.2) l) as ?%list_sum_elem
    by by apply (list_elem_of_fmap_2 (λ p : string * json, json_size p.2)). lia.
Qed.

Lemma json_chars_normal v : json_chars v = json_raw (json_normal v).
Proof.
  induction v as [v IH] using json_ind'. destruct v as [|b|n|s|l|l]; simpl; try reflexivity.
  - do 3 f_equal. rewrite map_map. apply map_ext_in. intros v Hv. apply IH, json_size_arr.
    by apply list_elem_of_In.
  - do 3 f_equal.
    assert (map (λ p : string * json, (p.1, json_chars p.2)) l =
            map (λ p, (p.1, json_raw p.2)) (map (λ p, (p.1, json_normal p.2)) l)) as ->.
    { rewrite map_map. apply map_ext_in. intros p Hp. simpl. f_equal.
      apply IH. apply json_size_obj. by apply list_elem_of_In. }
    rewrite py_sorted_map, map_map. reflexivity.
Qed.

(** Reading back one character of a string. *)
Definition unescape (l : list ascii) : option (ascii * list ascii) :=
  match l with
  | c :: l =>
    if Ascii.eqb c quote_char then None
    else if Ascii.eqb c "\" then
      match l with
      | d :: l =>
        if Ascii.eqb d "n" then Some (ascii_of_N 10, l)
        else if Ascii.eqb d "r" then Some (ascii_of_N 13, l)
        else if Ascii.eqb d "t" then Some (ascii_of_N 9, l)
        else if Ascii.eqb d "b" then Some (ascii_of_N 8, l)
        else if Ascii.eqb d "f" then Some (ascii_of_N 12, l)
        else if Ascii.eqb d "u" then
          match l with
          | _ :: _ :: x :: y :: l => Some (ascii_of_N (Z.to_N (16 * hex_value x + hex_value y)), l)
          | _ => None
          end
        else Some (d, l)
      | [] => None
      end
    else Some (c, l)
  | [] => None
  end.

Lemma unescape_char c r : unescape (json_char c ++ r) = Some (c, r).
Proof. by destruct c as [[] [] [] [] [] [] [] []]. Qed.

Lemma json_string_prefix s t r1 r2 :
  json_string s ++ r1 = json_string t ++ r2 → s = t ∧ r1 = r2.
Proof.
  unfold json_string. intros H. injection H as H. rewrite <- !app_assoc in H.
  assert (chars s = chars t ∧ r1 = r2) as [E ->].
  { revert H. generalize (chars s) as a, (chars t) as b.
    induction a as [|c a IH]; intros [|d b] H; simpl in H.
    - by injection H.
    - rewrite <- app_assoc in H. apply (f_equal unescape) in H. by rewrite unescape_char in H.
    - rewrite <- app_assoc in H. apply (f_equal unescape) in H. by rewrite unescape_char in H.
    - rewrite <- !app_assoc in H. apply (f_equal unescape) in H. rewrite !unescape_char in H.
      injection H as -> H. destruct (IH b H) as [-> ->]. done. }
  split; [|done]. by rewrite <- (of_chars_chars s), <- (of_chars_chars t), E.
Qed.

(** What may follow a value: nothing, a comma or a closing bracket. *)
Definition closing (c : ascii) : bool := bool_decide (c ∈ [","%char; "]"%char; "}"%char]).
Definition delimited (r : list ascii) : Prop := match r with [] => True | c :: _ => closing c = true end.

Definition number_char (c : ascii) : bool := is_digit c || Ascii.eqb c "-".

Lemma number_not_closing c : number_char c = true → closing c = false.
Proof. by destruct c as [[] [] [] [] [] [] [] []]. Qed.

Lemma pretty_N_go_digits x s :
  forallb number_char (chars s) = true → forallb number_char (chars (pretty_N_go x s)) = true.
Proof.
  revert s. induction (N.lt_wf_0 x) as [x _ IH]. intros s Hs.
  destruct (decide (x = 0)%N) as [->|Hx]; [by rewrite pretty_N_go_0|].
  rewrite pretty_N_go_step by lia. apply IH; [apply N.div_lt; lia|].
  simpl. rewrite Hs. unfold pretty_N_char. by repeat case_match.
Qed.

Lemma pretty_Z_number (n : Z) : forallb number_char (chars (pretty n)) = true.
Proof.
  assert (∀ x : N, forallb number_char (chars (pretty x)) = true) as HN.
  { intros x. unfold pretty, pretty_N. case_decide; [done|]. by apply pretty_N_go_digits. }
  destruct n as [|p|p]; [done|apply (HN (Npos p))|apply (HN (Npos p))].
Qed.

Lemma pretty_Z_nonempty (n : Z) : ∃ c l, chars (pretty n) = c :: l.
Proof.
  assert (∀ x : N, ∃ c l, chars (pretty x) = c :: l) as HN.
  { intros x. destruct (chars (pretty x)) as [|c l] eqn:E; [exfalso|by eauto].
    assert (pretty x = EmptyString) as E' by (by destruct (pretty x)).
    revert E'. unfold pretty, pretty_N. case_decide as Hx; [done|].
    assert (∀ y s, s ≠ EmptyString → pretty_N_go y s ≠ EmptyString) as Hne.
    { intros y. induction (N.lt_wf_0 y) as [y _ IH]. intros s Hs.
      destruct (decide (y = 0)%N) as [->|Hy]; [by rewrite pretty_N_go_0|].
      rewrite pretty_N_go_step by lia. apply IH; [apply N.div_lt; lia|done]. }
    rewrite pretty_N_go_step by lia. by apply Hne. }
  destruct n as [|p|p]; [by eexists _, _|apply (HN (Npos p))|by eexists _, _].
Qed.

(** A number ends where its digits do. *)
Lemma number_prefix a b r1 r2 :
  forallb number_char a = true → forallb number_char b = true → delimited r1 → delimited r2 →
  a ++ r1 = b ++ r2 → a = b ∧ r1 = r2.
Proof.
  revert b. induction a as [|c a IH]; intros [|d b] Ha Hb D1 D2 H; simpl in *; [done| | |].
  - subst r1. apply andb_true_iff in Hb as [Hd%number_not_closing _]. simpl in D1. congruence.
  - subst r2. apply andb_true_iff in Ha as [Hc%number_not_closing _]. simpl in D2. congruence.
  - injection H as -> H. apply andb_true_iff in Ha as [_ Ha]. apply andb_true_iff in Hb as [_ Hb].
    by destruct (IH b Ha Hb D1 D2 H) as [-> ->].
Qed.

(** Texts that end where their value does. *)
Section prefix.
Context {A : Type} (f : A → list ascii) (close : ascii).
Hypothesis close_closing : closing close = true.
Hypothesis starts : ∀ x, ∃ c l, f x = c :: l ∧ closing c = false.

Definition ends_itself (x : A) : Prop :=
  ∀ y r1 r2, delimited r1 → delimited r2 → f x ++ r1 = f y ++ r2 → x = y ∧ r1 = r2.

(** What follows the elements still to come. *)
Definition tail_text (l : list A) (r : list ascii) : list ascii :=
  concat (map (λ x, ","%char :: f x) l) ++ close :: r.

Lemma tail_delimited l r : delimited (tail_text l r).
Proof using close_closing. by destruct l. Qed.

Lemma join_tail x l r : join_comma (map f (x :: l)) ++ close :: r = f x ++ tail_text l r.
Proof using Type.
  revert x. induction l as [|y l IH]; intros x; [done|].
  change (join_comma (map f (x :: y :: l))) with (f x ++ ","%char :: join_comma (map f (y :: l))).
  rewrite <- app_assoc. f_equal. rewrite <- app_comm_cons, IH.
  unfold tail_text. simpl. by rewrite <- app_assoc.
Qed.

Lemma tail_prefix l1 l2 r1 r2 :
  (∀ x, x ∈ l1 → ends_itself x) → close ≠ ","%char →
  tail_text l1 r1 = tail_text l2 r2 → l1 = l2 ∧ r1 = r2.
Proof using close_closing.
  intros Hl Hc. revert l2. induction l1 as [|x l1 IH]; intros [|y l2] H; unfold tail_text in H; simpl in H.
  - by injection H.
  - injection H as H _. done.
  - injection H as H _. by symmetry in H.
  - injection H as H. rewrite <- !app_assoc in H.
    apply (Hl x ltac:(left)) in H as [-> H]; [|apply tail_delimited..].
    destruct (IH ltac:(intros; apply Hl; by right) l2 H) as [-> ->]. done.
Qed.

Lemma join_prefix l1 l2 r1 r2 :
  (∀ x, x ∈ l1 → ends_itself x) → close ≠ ","%char →
  join_comma (map f l1) ++ close :: r1 = join_comma (map f l2) ++ close :: r2 → l1 = l2 ∧ r1 = r2.
Proof using close_closing starts.
  intros Hl Hc H. destruct l1 as [|x l1], l2 as [|y l2].
  - by injection H.
  - rewrite join_tail in H. destruct (starts y) as (c & t & E & Hcl). rewrite E in H. simpl in H. injection H as -> _. congruence.
  - rewrite join_tail in H. destruct (starts x) as (c & t & E & Hcl). rewrite E in H. simpl in H. injection H as <- _. congruence.
  - rewrite !join_tail in H.
    apply (Hl x ltac:(left)) in H as [-> H]; [|apply tail_delimited..].
    apply tail_prefix in H as [-> ->]; [done| |done]. intros z Hz. apply Hl. by right.
Qed.
End prefix.

Lemma json_raw_starts v : ∃ c l, json_raw v = c :: l ∧ closing c = false.
Proof.
  destruct v as [|b|n|s|l|l]; simpl; try (eexists _, _; split; [reflexivity|reflexivity]).
  - destruct b; eexists _, _; split; reflexivity.
  - destruct (pretty_Z_nonempty n) as (c & l & E). exists c, l. split; [done|].
    pose proof (pretty_Z_number n) as H. rewrite E in H. simpl in H.
    apply andb_true_iff in H as [H _]. by apply number_not_closing.
Qed.

(** The first character tells the kind of a value. *)
Definition json_kind (c : ascii) : nat :=
  if Ascii.eqb c "n" then 0 else if Ascii.eqb c "t" then 1 else if Ascii.eqb c "f" then 2
  else if Ascii.eqb c quote_char then 3 else if Ascii.eqb c "[" then 4 else if Ascii.eqb c "{" then 5
  else 6.

Definition value_kind (v : json) : nat :=
  match v with
  | JNull => 0 | JBool true => 1 | JBool false => 2 | JStr _ => 3 | JArr _ => 4 | JObj _ => 5 | JInt _ => 6
  end.

Lemma number_kind c : number_char c = true → json_kind c = 6%nat.
Proof. by destruct c as [[] [] [] [] [] [] [] []]. Qed.

Lemma json_raw_kind v r : (json_kind <$> head (json_raw v ++ r)) = Some (value_kind v).
Proof.
  destruct v as [|[]|n|s|l|l]; try reflexivity. simpl.
  destruct (pretty_Z_nonempty n) as (c & l & E). pose proof (pretty_Z_number n) as H. rewrite E in *.
  simpl in *. apply andb_true_iff in H as [H _]. by rewrite number_kind.
Qed.

Lemma json_string_starts s r : ∃ c l, json_string s ++ r = c :: l ∧ closing c = false.
Proof. by eexists _, _. Qed.

#[local] Opaque json_string.

Lemma json_raw_prefix v : ends_itself json_raw v.
Proof.
  induction v as [v IH] using json_ind'. intros w r1 r2 D1 D2 H.
  assert (value_kind v = value_kind w) as K
    by (pose proof (json_raw_kind v r1) as E; rewrite H, json_raw_kind in E; congruence).
  destruct v as [|[]|n|s|l|l], w as [|[]|n'|s'|l'|l']; try discriminate K;
    try (by injection H as H).
  - simpl in H. apply number_prefix in H as [E ->]; [|apply pretty_Z_number..|done|done].
    split; [|done]. f_equal. apply (inj pretty).
    by rewrite <- (of_chars_chars (pretty n)), <- (of_chars_chars (pretty n')), E.
  - apply json_string_prefix in H as [-> ->]. done.
  - simpl in H. injection H as H. rewrite <- !app_assoc in H.
    apply join_prefix in H as [-> ->]; [done|done|apply json_raw_starts| |done].
    intros x Hx. apply IH. by apply json_size_arr.
  - simpl in H. injection H as H. rewrite <- !app_assoc in H.
    apply join_prefix in H as [-> ->]; [done|done| | |done].
    + intros p. apply json_string_starts.
    + intros [k x] Hp [k' y] t1 t2 T1 T2 E. cbn [fst snd] in E.
      rewrite <- (app_assoc (json_string k)), <- (app_assoc (json_string k')) in E.
      apply json_string_prefix in E as [-> E]. injection E as E.
      apply (IH x (json_size_obj (k', x) l Hp)) in E as [-> ->]; done.
Qed.

(** Two values have the same canonical text exactly when they are equal up to the order
    of the keys of their objects. *)
Theorem canonical_json_injective v w :
  canonical_json v = canonical_json w ↔ json_normal v = json_normal w.
Proof.
  split.
  - intros H. apply (f_equal chars) in H. unfold canonical_json in H. rewrite !chars_of_chars, !json_chars_normal in H.
    apply (f_equal (λ l, l ++ [])) in H. by apply json_raw_prefix in H as [-> _].
  - intros H. unfold canonical_json. by rewrite !json_chars_normal, H.
Qed.

Example canonical_json_sorts :
  canonical_json (JObj [("b", JArr [JInt (-7); JNull]); ("a", JBool true)])%string =
  of_chars (chars "{" ++ json_string "a" ++ chars ":true," ++ json_string "b" ++ chars ":[-7,null]}").
Proof. vm_compute. reflexivity. Qed.
