(* ===== verification/FeatureRows.v ===== *)
(** * Rows of the feature store

    [storage/features.py]: the envelope of a snapshot the writer accepts, its row, the
    checks a row passes when it is read back, the filter of a scan and the orders of
    rows.  A row has the types of [FEATURE_PARQUET_SCHEMA]; its timestamps are instants.
    SHA-256, the JSON payload of a pydantic model and the validation of one are
    parameters, with what the store relies on as [PayloadLaws]. *)

From S2P Require Import Prelude PyDecimal PyFloat PyTime Models Availability FeatureModels CrossSelect FeatureRuntime Fingerprint.
From stdpp Require Import pretty.
From Stdlib Require Import Ascii.
Open Scope Z_scope.

(** [__version__]. *)
Definition package_version : string := "0.3.1".

(** ** Fields both snapshot models have *)

Definition either {A} (f : FeatureSnapshot → A) (g : CrossVenueFeatureSnapshot → A)
    (s : PersistableFeatureSnapshot) : A :=
  match s with OSingle s => f s | OCross s => g s end.

Definition snapshot_meta := either fs_meta cvs_meta.
Definition snapshot_id := either feature_snapshot_id cvs_feature_snapshot_id.
Definition snapshot_strategy := either fs_strategy_version cvs_strategy_version.
Definition snapshot_calculation := either fs_calculation_timestamp cvs_calculation_timestamp.
Definition snapshot_window := either fs_window_seconds cvs_window_seconds.
Definition snapshot_event_count := either source_event_count cvs_source_event_count.
Definition snapshot_oldest := either oldest_source_timestamp cvs_oldest_source_timestamp.
Definition snapshot_age := either fs_data_age_ms cvs_data_age_ms.
Definition snapshot_warm := either fs_is_warm cvs_is_warm.
Definition snapshot_healthy := either fs_is_healthy cvs_is_healthy.
Definition snapshot_exchange (s : PersistableFeatureSnapshot) : Exchange := exchange (snapshot_meta s).
Definition snapshot_symbol (s : PersistableFeatureSnapshot) : string := symbol (snapshot_meta s).
(** [schema_version: Literal[1]]. *)
Definition snapshot_schema_version (s : PersistableFeatureSnapshot) : Z := 1.

(** [str(uuid)] of a UUID given by its [hex]. *)
Definition uuid_text (u : UUID) : string :=
  let l := chars u in
  of_chars (take 8 l ++ "-"%char :: take 4 (drop 8 l) ++ "-"%char :: take 4 (drop 12 l) ++
            "-"%char :: take 4 (drop 16 l) ++ "-"%char :: drop 20 l).

Definition code_value (c : FeatureUnavailableCode) : string :=
  match c with
  | NOT_WARM => "NOT_WARM" | NO_TRADES => "NO_TRADES"
  | BOOK_UNSYNCHRONIZED => "BOOK_UNSYNCHRONIZED"
  | BOOK_GENERATION_WARMUP => "BOOK_GENERATION_WARMUP"
  | OPEN_INTEREST_MISSING => "OPEN_INTEREST_MISSING"
  | OPEN_INTEREST_STALE => "OPEN_INTEREST_STALE"
  | HEALTH_BLOCKED => "HEALTH_BLOCKED" | PIPELINE_BACKLOG => "PIPELINE_BACKLOG"
  | EVENT_GAP => "EVENT_GAP" | TIME_ALIGNMENT => "TIME_ALIGNMENT"
  | MISSING_BINANCE_SNAPSHOT => "MISSING_BINANCE_SNAPSHOT"
  | MISSING_OKX_SNAPSHOT => "MISSING_OKX_SNAPSHOT"
  | FUTURE_BINANCE_SNAPSHOT => "FUTURE_BINANCE_SNAPSHOT"
  | FUTURE_OKX_SNAPSHOT => "FUTURE_OKX_SNAPSHOT"
  | STALE_BINANCE_SNAPSHOT => "STALE_BINANCE_SNAPSHOT"
  | STALE_OKX_SNAPSHOT => "STALE_OKX_SNAPSHOT"
  | BINANCE_UNHEALTHY => "BINANCE_UNHEALTHY" | OKX_UNHEALTHY => "OKX_UNHEALTHY"
  | BINANCE_NOT_WARM => "BINANCE_NOT_WARM" | OKX_NOT_WARM => "OKX_NOT_WARM"
  | FEATURE_INPUT_MISSING => "FEATURE_INPUT_MISSING"
  | ZERO_DENOMINATOR => "ZERO_DENOMINATOR" | INSUFFICIENT_HISTORY => "INSUFFICIENT_HISTORY"
  | LEAD_LAG_INSUFFICIENT => "LEAD_LAG_INSUFFICIENT"
  end.

Definition seq_text (s : seq_id) : string :=
  match s with SeqInt n => pretty n | SeqStr s => s end.

Definition source_ids (s : PersistableFeatureSnapshot) : list string :=
  match s with OSingle _ => [] | OCross c => map uuid_text (source_snapshot_ids c) end.
Definition reason_codes (s : PersistableFeatureSnapshot) : list string :=
  map (λ r, code_value (reason_code r)) (snapshot_reasons s).
Definition expected_source_sequence (s : PersistableFeatureSnapshot) : option string :=
  match s with OCross _ => None | OSingle f => seq_text <$> source_sequence_id f end.
Definition row_book_generation (s : PersistableFeatureSnapshot) : option Z :=
  match s with OCross _ => None | OSingle f => Some (fs_book_generation f) end.
Definition row_binance_generation (s : PersistableFeatureSnapshot) : option Z :=
  match s with OCross c => binance_book_generation c | OSingle _ => None end.
Definition row_okx_generation (s : PersistableFeatureSnapshot) : option Z :=
  match s with OCross c => okx_book_generation c | OSingle _ => None end.

(** ** Envelopes and rows *)

Record FeatureEnvelope := {
  env_snapshot : PersistableFeatureSnapshot;
  env_code_version : string;
  env_config_hash : string;
  env_payload_json : string;
  env_payload_sha256 : string }.

Definition content_identity (e : FeatureEnvelope) : string * string * string :=
  (env_payload_sha256 e, env_code_version e, env_config_hash e).

Record Row := {
  r_schema_version : Z;
  r_snapshot_id : string;
  r_scope : string;
  r_symbol : string;
  r_window_seconds : Z;
  r_decision_timestamp : Z;
  r_calculation_timestamp : Z;
  r_exchange_timestamp : Z;
  r_local_receive_timestamp : Z;
  r_normalization_timestamp : Z;
  r_strategy_version : string;
  r_code_version : string;
  r_config_hash : string;
  r_sequence_id : option string;
  r_raw_payload_reference : option string;
  r_source_snapshot_ids : list string;
  r_source_sequence_id : option string;
  r_source_event_count : Z;
  r_oldest_source_timestamp : option Z;
  r_newest_source_timestamp : option Z;
  r_data_age_ms : option float;
  r_is_warm : bool;
  r_is_healthy : bool;
  r_unavailable_reason_codes : list string;
  r_book_generation : option Z;
  r_binance_book_generation : option Z;
  r_okx_book_generation : option Z;
  r_payload_sha256 : string;
  r_payload_json : string }.

Definition row (e : FeatureEnvelope) : Row :=
  let s := env_snapshot e in
  {| r_schema_version := 1;
     r_snapshot_id := uuid_text (snapshot_id s);
     r_scope := exchange_value (snapshot_exchange s);
     r_symbol := snapshot_symbol s;
     r_window_seconds := snapshot_window s;
     r_decision_timestamp := snapshot_decision s;
     r_calculation_timestamp := snapshot_calculation s;
     r_exchange_timestamp := exchange_timestamp (snapshot_meta s);
     r_local_receive_timestamp := local_receive_timestamp (snapshot_meta s);
     r_normalization_timestamp := normalization_timestamp (snapshot_meta s);
     r_strategy_version := snapshot_strategy s;
     r_code_version := env_code_version e;
     r_config_hash := env_config_hash e;
     r_sequence_id := seq_text <$> sequence_id (snapshot_meta s);
     r_raw_payload_reference := raw_payload_reference (snapshot_meta s);
     r_source_snapshot_ids := source_ids s;
     r_source_sequence_id := expected_source_sequence s;
     r_source_event_count := snapshot_event_count s;
     r_oldest_source_timestamp := snapshot_oldest s;
     r_newest_source_timestamp := snapshot_newest s;
     r_data_age_ms := snapshot_age s;
     r_is_warm := snapshot_warm s;
     r_is_healthy := snapshot_healthy s;
     r_unavailable_reason_codes := reason_codes s;
     r_book_generation := row_book_generation s;
     r_binance_book_generation := row_binance_generation s;
     r_okx_book_generation := row_okx_generation s;
     r_payload_sha256 := env_payload_sha256 e;
     r_payload_json := env_payload_json e |}.

(** ** Paths

    An absolute path without symbolic links ([resolve()]), by its components. *)
Abbreviation path := (list string).

Definition SCHEMA_DIRECTORY : string := "feature_schema=v1".
Definition INDEX_FILENAME : string := ".feature-deduplication-v1.sqlite3".
Definition ROOT_CLAIM_FILENAME : string := ".feature-writer-v1.lock".

Definition path_parent (p : path) : path := take (length p - 1) p.
Definition schema_root (root : path) : path :=
  if bool_decide (last root = Some SCHEMA_DIRECTORY) then root else root ++ [SCHEMA_DIRECTORY].
Definition index_base (root : path) : path :=
  if bool_decide (last root = Some SCHEMA_DIRECTORY) then path_parent root else root.
Definition index_path (root : path) : path := index_base root ++ [INDEX_FILENAME].
Definition claim_path (root : path) : path := index_base root ++ [ROOT_CLAIM_FILENAME].

(** [urllib.parse.quote(value, safe="-_.")] of text of code points below 128. *)
Definition unreserved (c : ascii) : bool :=
  let n := N_of_ascii c in
  is_digit c || ((65 <=? n) && (n <=? 90))%N || ((97 <=? n) && (n <=? 122))%N ||
  bool_decide (c ∈ ["-"%char; "_"%char; "."%char; "~"%char]).
Definition quote_byte (c : ascii) : list ascii :=
  if unreserved c then [c] else "%"%char :: map upper_char (fixed_digits 16 2 (Z.of_N (N_of_ascii c))).
Definition partition_value (value : string) : string := of_chars (concat (map quote_byte (chars value))).

Definition feature_partition (s : PersistableFeatureSnapshot) : string * string * string :=
  (iso_date (snapshot_decision s), snapshot_symbol s, exchange_value (snapshot_exchange s)).
Definition partition_directory (root : path) (p : string * string * string) : path :=
  schema_root root ++ ["date=" +:+ partition_value p.1.1; "symbol=" +:+ partition_value p.1.2;
                       "scope=" +:+ partition_value p.2].

(** ** Records *)

Record PersistedFeatureRecord := {
  rec_snapshot : PersistableFeatureSnapshot;
  rec_code_version : string;
  rec_config_hash : string;
  rec_payload_sha256 : string;
  source_file : path }.

Definition rec_id (r : PersistedFeatureRecord) : UUID := snapshot_id (rec_snapshot r).
Definition rec_scope (r : PersistedFeatureRecord) : Exchange := snapshot_exchange (rec_snapshot r).
Definition rec_identity (r : PersistedFeatureRecord) : string * string * string :=
  (rec_payload_sha256 r, rec_code_version r, rec_config_hash r).

(** [Exchange(value)]. *)
Definition exchange_of_value (v : string) : res Exchange :=
  if bool_decide (v = "BINANCE"%string) then Ok BINANCE
  else if bool_decide (v = "OKX"%string) then Ok OKX
  else if bool_decide (v = "CROSS_VENUE"%string) then Ok CROSS_VENUE
  else if bool_decide (v = "SIMULATED"%string) then Ok SIMULATED
  else Err (ValueError "not a valid Exchange").

Definition optional_float_eq (a b : option float) : bool :=
  match a, b with
  | Some a, Some b => feqb a b
  | None, None => true
  | _, _ => false
  end.

(** [model_payload_json], [sha256_text] and [model_validate_json] of the two models. *)
Class FeatureCodec := {
  model_payload_json : PersistableFeatureSnapshot → string;
  sha256_text : string → string;
  validate_single_json : string → res FeatureSnapshot;
  validate_cross_json : string → res CrossVenueFeatureSnapshot }.

Section rows.
Context {Codec : FeatureCodec}.

Definition model_from_payload (payload_json : string) (scope : Exchange)
    : res PersistableFeatureSnapshot :=
  match scope with
  | CROSS_VENUE => OCross <$> validate_cross_json payload_json
  | BINANCE | OKX => OSingle <$> validate_single_json payload_json
  | SIMULATED => Err (ValueError "unsupported persisted feature scope")
  end.

(** The columns that repeat what the payload says. *)
Definition metadata_matches (r : Row) (scope : Exchange) (s : PersistableFeatureSnapshot) : bool :=
  let m := snapshot_meta s in
  forallb id
    [bool_decide (r_snapshot_id r = uuid_text (snapshot_id s));
     bool_decide (scope = exchange m);
     bool_decide (r_symbol r = symbol m);
     r_window_seconds r =? snapshot_window s;
     r_decision_timestamp r =? snapshot_decision s;
     r_calculation_timestamp r =? snapshot_calculation s;
     r_exchange_timestamp r =? exchange_timestamp m;
     r_local_receive_timestamp r =? local_receive_timestamp m;
     r_normalization_timestamp r =? normalization_timestamp m;
     bool_decide (r_strategy_version r = snapshot_strategy s);
     bool_decide (r_sequence_id r = seq_text <$> sequence_id m);
     bool_decide (r_raw_payload_reference r = raw_payload_reference m);
     bool_decide (r_source_snapshot_ids r = source_ids s);
     bool_decide (r_source_sequence_id r = expected_source_sequence s);
     r_source_event_count r =? snapshot_event_count s;
     bool_decide (r_oldest_source_timestamp r = snapshot_oldest s);
     bool_decide (r_newest_source_timestamp r = snapshot_newest s);
     optional_float_eq (r_data_age_ms r) (snapshot_age s);
     Bool.eqb (r_is_warm r) (snapshot_warm s);
     Bool.eqb (r_is_healthy r) (snapshot_healthy s);
     bool_decide (r_unavailable_reason_codes r = reason_codes s);
     bool_decide (r_book_generation r = row_book_generation s);
     bool_decide (r_binance_book_generation r = row_binance_generation s);
     bool_decide (r_okx_book_generation r = row_okx_generation s)].

Definition record_from_row (r : Row) (p root : path) : res PersistedFeatureRecord :=
  _ ← require (r_schema_version r =? 1) (ValueError "unsupported feature schema version");
  _ ← require (bool_decide (sha256_text (r_payload_json r) = r_payload_sha256 r))
        (ValueError "feature payload digest mismatch");
  scope ← exchange_of_value (r_scope r);
  s ← model_from_payload (r_payload_json r) scope;
  _ ← require (bool_decide (model_payload_json s = r_payload_json r))
        (ValueError "feature payload is not canonical");
  _ ← require (negb (bool_decide (r_code_version r = EmptyString)))
        (ValueError "empty feature code version");
  _ ← require (sha256_pattern (r_config_hash r)) (ValueError "invalid feature config hash");
  _ ← match s with
      | OCross c =>
        _ ← require (bool_decide (cvs_code_version c = r_code_version r))
              (ValueError "cross-venue code-version lineage mismatch");
        require (bool_decide (cvs_config_hash c = r_config_hash r))
          (ValueError "cross-venue config lineage mismatch")
      | OSingle _ => Ok tt
      end;
  _ ← require (bool_decide (path_parent p = partition_directory root (feature_partition s)))
        (ValueError "feature row/partition mismatch");
  _ ← require (metadata_matches r scope s) (ValueError "feature metadata/payload lineage mismatch");
  Ok {| rec_snapshot := s; rec_code_version := r_code_version r; rec_config_hash := r_config_hash r;
        rec_payload_sha256 := r_payload_sha256 r; source_file := p |}.

(** ** The envelope of a snapshot *)

(** [config_hash] of the settings and [settings.app.strategy_version]. *)
Context (config_hash strategy_version : string).

Definition envelope (s : PersistableFeatureSnapshot) : res FeatureEnvelope :=
  _ ← require (bool_decide (snapshot_event_type s = MARKET_FEATURE))
        (FeatureParquetError "only market feature snapshots can be persisted");
  _ ← match s with
      | OCross c =>
        _ ← require (bool_decide (exchange (cvs_meta c) = CROSS_VENUE))
              (FeatureParquetError "cross-venue snapshot has an invalid scope");
        _ ← require (bool_decide (cvs_code_version c = package_version))
              (FeatureParquetError "cross-venue code version differs from the writer");
        require (bool_decide (cvs_config_hash c = config_hash))
          (FeatureParquetError "cross-venue config hash differs from the writer")
      | OSingle f =>
        require (bool_decide (exchange (fs_meta f) ∈ [BINANCE; OKX]))
          (FeatureParquetError "single-venue feature scope must be Binance or OKX")
      end;
  _ ← require (bool_decide (snapshot_strategy s = strategy_version))
        (FeatureParquetError "snapshot strategy version differs from the writer");
  let payload := model_payload_json s in
  Ok {| env_snapshot := s; env_code_version := package_version; env_config_hash := config_hash;
        env_payload_json := payload; env_payload_sha256 := sha256_text payload |}.
End rows.

(** ** Orders *)

(** Lexicographic comparison of tuples. *)
Definition lex (c d : comparison) : comparison := match c with Eq => d | c => c end.
Definition leb_of (c : comparison) : bool := match c with Gt => false | _ => true end.

Definition stable_compare (a b : PersistableFeatureSnapshot) : comparison :=
  lex (Z.compare (snapshot_decision a) (snapshot_decision b))
  (lex (String.compare (snapshot_symbol a) (snapshot_symbol b))
  (lex (Z.compare (snapshot_window a) (snapshot_window b))
  (lex (String.compare (exchange_value (snapshot_exchange a)) (exchange_value (snapshot_exchange b)))
       (String.compare (snapshot_id a) (snapshot_id b))))).
(** [stable_key(a) <= stable_key(b)]. *)
Definition stable_leb (a b : PersistedFeatureRecord) : bool :=
  leb_of (stable_compare (rec_snapshot a) (rec_snapshot b)).

(** The order of a partition file. *)
Definition file_compare (a b : PersistableFeatureSnapshot) : comparison :=
  lex (Z.compare (snapshot_decision a) (snapshot_decision b))
  (lex (Z.compare (snapshot_window a) (snapshot_window b))
       (String.compare (snapshot_id a) (snapshot_id b))).
Definition file_leb (a b : FeatureEnvelope) : bool :=
  leb_of (file_compare (env_snapshot a) (env_snapshot b)).

(** ** Filters of a scan *)

Record FeatureScanFilter := {
  ff_start : option Z;
  ff_end : option Z;
  ff_scopes : option (list Exchange);
  ff_symbols : option (list string);
  ff_windows : option (list Z);
  ff_schema_versions : option (list Z);
  ff_snapshot_ids : option (list UUID);
  ff_unavailable_codes : option (list FeatureUnavailableCode);
  ff_is_warm : option bool;
  ff_is_healthy : option bool }.

Definition no_filter : FeatureScanFilter :=
  {| ff_start := None; ff_end := None; ff_scopes := None; ff_symbols := None; ff_windows := None;
     ff_schema_versions := None; ff_snapshot_ids := None; ff_unavailable_codes := None;
     ff_is_warm := None; ff_is_healthy := None |}.

(** [x is None or test(x)]. *)
Definition given {A} (o : option A) (test : A → bool) : bool :=
  match o with Some a => test a | None => true end.

(** [FeatureScanFilter.__post_init__]: the other fields are those of [f]. *)
Definition mk_filter (start stop : option datetime) (f : FeatureScanFilter) : res FeatureScanFilter :=
  start ← as_utc_opt "feature scan timestamps must be timezone-aware" start;
  stop ← as_utc_opt "feature scan timestamps must be timezone-aware" stop;
  let f := {| f with ff_start := start; ff_end := stop |} in
  _ ← require (match ff_start f, ff_end f with Some s, Some e => s <=? e | _, _ => true end)
        (ValueError "feature scan end cannot precede start");
  _ ← require (given (ff_scopes f) (forallb (λ e, bool_decide (e ∈ [BINANCE; OKX; CROSS_VENUE]))))
        (ValueError "feature scan scopes must be feature-producing scopes");
  _ ← mapR (λ s, validate_canonical_symbol s false) (default [] (ff_symbols f));
  _ ← require (given (ff_windows f) (forallb (λ w, 1 <=? w)))
        (ValueError "feature scan windows must be positive");
  _ ← require (given (ff_schema_versions f) (forallb (λ v, 1 <=? v)))
        (ValueError "feature scan schema versions must be positive");
  Ok f.

(** [FeatureParquetReader._matches]. *)
Definition matches (f : FeatureScanFilter) (r : PersistedFeatureRecord) : bool :=
  let s := rec_snapshot r in
  given (ff_start f) (λ t, t <=? snapshot_decision s) &&
  given (ff_end f) (λ t, snapshot_decision s <=? t) &&
  given (ff_scopes f) (λ l, bool_decide (snapshot_exchange s ∈ l)) &&
  given (ff_symbols f) (λ l, bool_decide (snapshot_symbol s ∈ l)) &&
  given (ff_windows f) (λ l, bool_decide (snapshot_window s ∈ l)) &&
  given (ff_schema_versions f) (λ l, bool_decide (snapshot_schema_version s ∈ l)) &&
  given (ff_snapshot_ids f) (λ l, bool_decide (snapshot_id s ∈ l)) &&
  given (ff_unavailable_codes f) (λ l,
    existsb (λ x, bool_decide (reason_code x ∈ l)) (snapshot_reasons s)) &&
  given (ff_is_warm f) (Bool.eqb (snapshot_warm s)) &&
  given (ff_is_healthy f) (Bool.eqb (snapshot_healthy s)).

(** ** The order of records *)

Lemma lex_eq c d : lex c d = Eq ↔ c = Eq ∧ d = Eq.
Proof. by destruct c; simpl; split; (intros H; split) || intros []. Qed.

(** A comparison that behaves as one. *)
Record ordering {A} (cmp : A → A → comparison) : Prop := {
  ord_sym a b : cmp b a = CompOpp (cmp a b);
  ord_eq a b c : cmp a b = Eq → cmp b c = cmp a c;
  ord_lt a b c : cmp a b = Lt → cmp b c = Lt → cmp a c = Lt }.

Lemma ordering_on {A B} (cmp : B → B → comparison) (f : A → B) :
  ordering cmp → ordering (λ a b, cmp (f a) (f b)).
Proof. intros [H1 H2 H3]. split; intros; eauto. Qed.

Lemma ordering_lex {A} (c d : A → A → comparison) :
  ordering c → ordering d → ordering (λ a b, lex (c a b) (d a b)).
Proof.
  intros [C1 C2 C3] [D1 D2 D3].
  assert (∀ x y z, c x y = Lt → c y z = Eq → c x z = Lt) as C4.
  { intros x y z H1 H2. assert (c z y = Eq) as H3 by (by rewrite C1, H2).
    assert (c y x = Gt) as H4 by (by rewrite C1, H1). rewrite (C2 z y x H3) in H4. by rewrite C1, H4. }
  split.
  - intros x y. rewrite C1, D1. by destruct (c x y).
  - intros x y z [Hc Hd]%lex_eq. by rewrite (C2 x y z Hc), (D2 x y z Hd).
  - intros x y z. destruct (c x y) eqn:Exy; simpl; [|intros _|done].
    + intros Hd. rewrite (C2 x y z Exy). destruct (c x z); simpl; eauto.
    + destruct (c y z) eqn:Eyz; simpl; [|intros _|done].
      * intros _. by rewrite (C4 x y z).
      * by rewrite (C3 x y z).
Qed.

Lemma ordering_Z : ordering Z.compare.
Proof.
  split.
  - intros a b. by rewrite Z.compare_antisym.
  - intros a b c ->%Z.compare_eq. done.
  - intros a b c. rewrite !Z.compare_lt_iff. lia.
Qed.

Lemma string_compare_refl a : String.compare a a = Eq.
Proof. pose proof (String.compare_antisym a a) as H. by destruct (String.compare a a). Qed.

Lemma string_compare_lt a b : String.compare a b = Lt ↔ String.leb a b = true ∧ a ≠ b.
Proof.
  unfold String.leb. destruct (String.compare a b) eqn:E; split; try done; try by intros [].
  - intros [_ N]. by apply String.compare_eq_iff in E.
  - intros _. split; [done|]. intros ->. by rewrite string_compare_refl in E.
Qed.

Lemma ordering_string : ordering String.compare.
Proof.
  split.
  - intros a b. by rewrite String.compare_antisym.
  - by intros a b c ->%String.compare_eq_iff.
  - intros a b c. rewrite !string_compare_lt. intros [L1 N1] [L2 N2].
    split; [by eapply CrossSelect.leb_trans|]. intros ->. by apply N1, CrossSelect.leb_antisym.
Qed.

Lemma stable_ordering : ordering stable_compare.
Proof.
  unfold stable_compare.
  apply ordering_lex; [apply (ordering_on _ snapshot_decision), ordering_Z|].
  apply ordering_lex; [apply (ordering_on _ snapshot_symbol), ordering_string|].
  apply ordering_lex; [apply (ordering_on _ snapshot_window), ordering_Z|].
  apply ordering_lex; [apply (ordering_on _ (λ s, exchange_value (snapshot_exchange s))), ordering_string|].
  apply (ordering_on _ snapshot_id), ordering_string.
Qed.

Lemma ordering_total {A} (cmp : A → A → comparison) a b :
  ordering cmp → leb_of (cmp a b) = true ∨ leb_of (cmp b a) = true.
Proof. intros [Hs _ _]. rewrite (Hs a b). destruct (cmp a b); simpl; auto. Qed.

Lemma ordering_trans {A} (cmp : A → A → comparison) a b c :
  ordering cmp → leb_of (cmp a b) = true → leb_of (cmp b c) = true → leb_of (cmp a c) = true.
Proof.
  intros [H1 H2 H3] Hab Hbc. destruct (cmp a b) eqn:Eab; [by rewrite <- (H2 a b c Eab)| |done].
  destruct (cmp b c) eqn:Ebc; [|by rewrite (H3 a b c)|done].
  assert (cmp c b = Eq) as Ecb by (by rewrite H1, Ebc).
  assert (cmp b a = Gt) as Eba by (by rewrite H1, Eab).
  rewrite (H2 c b a Ecb) in Eba. by rewrite H1, Eba.
Qed.

Lemma stable_eq_id a b : stable_compare a b = Eq → snapshot_id a = snapshot_id b.
Proof.
  unfold stable_compare. rewrite !lex_eq. intros (_ & _ & _ & _ & H). by apply String.compare_eq_iff.
Qed.

Lemma stable_leb_antisym a b : stable_leb a b = true → stable_leb b a = true → rec_id a = rec_id b.
Proof.
  unfold stable_leb. pose proof (ord_sym _ stable_ordering (rec_snapshot a) (rec_snapshot b)) as ->.
  destruct (stable_compare _ _) eqn:E; simpl; [|done|done]. intros _ _. by apply stable_eq_id.
Qed.

(** In one partition the order of the file is the stable order. *)
Lemma file_order_stable a b :
  feature_partition a = feature_partition b → file_compare a b = stable_compare a b.
Proof.
  intros E. pose proof (f_equal (λ p, p.1.2) E) as Es. pose proof (f_equal snd E) as Ee.
  cbn [feature_partition fst snd] in Es, Ee. unfold file_compare, stable_compare.
  rewrite Es, Ee. destruct (Z.compare _ _); simpl; [|done|done].
  by rewrite !string_compare_refl.
Qed.

(** ** Rows are read back *)

(** What the store relies on: a valid model is the validation of its own JSON. *)
Class PayloadLaws `{!FeatureCodec} : Prop := {
  payload_single f : validate_feature_snapshot f = Ok f →
    validate_single_json (model_payload_json (OSingle f)) = Ok f;
  payload_cross c : validate_cross_snapshot c = Ok c →
    validate_cross_json (model_payload_json (OCross c)) = Ok c }.

Definition valid_snapshot (s : PersistableFeatureSnapshot) : Prop :=
  match s with
  | OSingle f => validate_feature_snapshot f = Ok f
  | OCross c => validate_cross_snapshot c = Ok c
  end.

Lemma exchange_of_value_spec e : exchange_of_value (exchange_value e) = Ok e.
Proof. by destruct e. Qed.

Lemma feqb_refl f : is_finite f = true → feqb f f = true.
Proof.
  destruct f as [s|s| |s m e]; try done; intros _; unfold feqb, SFeqb; simpl.
  by destruct s; rewrite Z.compare_refl, ?Pos.compare_cont_refl.
Qed.

Lemma valid_age_finite s : valid_snapshot s → optional_float_eq (snapshot_age s) (snapshot_age s) = true.
Proof.
  assert (∀ o u, finite_fields [o] = Ok u → optional_float_eq o o = true) as Hf.
  { intros [f|] u; [|done]. unfold finite_fields. simpl. rewrite andb_true_r.
    intros H%require_Ok. by apply feqb_refl. }
  destruct s as [f|c]; simpl; intros H; unfold validate_feature_snapshot, validate_cross_snapshot in H; inv_res; eauto.
Qed.

Section round_trip.
Context {Codec : FeatureCodec} {Laws : PayloadLaws}.
Context (config_hash strategy_version : string).

(** The record an envelope's row is read back as. *)
Definition record_of (p : path) (e : FeatureEnvelope) : PersistedFeatureRecord :=
  {| rec_snapshot := env_snapshot e; rec_code_version := env_code_version e;
     rec_config_hash := env_config_hash e; rec_payload_sha256 := env_payload_sha256 e;
     source_file := p |}.

Lemma envelope_Ok s e :
  envelope config_hash strategy_version s = Ok e →
  e = {| env_snapshot := s; env_code_version := package_version; env_config_hash := config_hash;
         env_payload_json := model_payload_json s;
         env_payload_sha256 := sha256_text (model_payload_json s) |} ∧
  (match s with
   | OCross c => exchange (cvs_meta c) = CROSS_VENUE ∧ cvs_code_version c = package_version ∧
                 cvs_config_hash c = config_hash
   | OSingle f => exchange (fs_meta f) = BINANCE ∨ exchange (fs_meta f) = OKX
   end) ∧ snapshot_strategy s = strategy_version.
Proof.
  unfold envelope. intros He. inv_res. subst e. split; [done|].
  split; [|by eapply bool_decide_eq_true_1].
  destruct s as [f|c]; inv_res; repeat match goal with H : bool_decide _ = true |- _ => apply bool_decide_eq_true_1 in H end.
  - rewrite elem_of_cons, list_elem_of_singleton in *. done.
  - done.
Qed.

Lemma metadata_of_row e :
  optional_float_eq (snapshot_age (env_snapshot e)) (snapshot_age (env_snapshot e)) = true →
  metadata_matches (row e) (snapshot_exchange (env_snapshot e)) (env_snapshot e) = true.
Proof.
  intros Ha. unfold metadata_matches, row. cbn -[uuid_text bool_decide snapshot_id].
  rewrite !bool_decide_eq_true_2 by done. rewrite !Z.eqb_refl, !eqb_reflx, Ha. done.
Qed.

(** What the writer accepts is read back as it was, from the file of its partition. *)
Lemma row_round_trip s e p root :
  valid_snapshot s → sha256_pattern config_hash = true → envelope config_hash strategy_version s = Ok e →
  path_parent p = partition_directory root (feature_partition s) →
  record_from_row (row e) p root = Ok (record_of p e).
Proof using Laws.
  intros Hv Hc He Hp. pose proof (valid_age_finite s Hv) as Ha.
  apply envelope_Ok in He as (-> & Hs & _).
  set (e := {| env_snapshot := s |}) in *. unfold record_from_row.
  assert (model_from_payload (r_payload_json (row e)) (snapshot_exchange s)
          = Ok s) as Hm.
  { destruct s as [f|c]; unfold snapshot_exchange; cbn [snapshot_meta either r_payload_json row e env_payload_json].
    - destruct Hs as [-> | ->]; simpl; by rewrite (payload_single f Hv).
    - destruct Hs as (-> & _). simpl. by rewrite (payload_cross c Hv). }
  apply bind_Ok; exists tt; split; [done|].
  apply bind_Ok; exists tt; split; [by apply require_Ok, bool_decide_eq_true_2|].
  apply bind_Ok; exists (snapshot_exchange s); split; [apply exchange_of_value_spec|].
  apply bind_Ok; exists s; split; [done|].
  apply bind_Ok; exists tt; split; [by apply require_Ok, bool_decide_eq_true_2|].
  apply bind_Ok; exists tt; split; [done|].
  apply bind_Ok; exists tt; split; [by apply require_Ok|].
  apply bind_Ok; exists tt; split.
  { destruct s as [f|c]; [done|]. destruct Hs as (_ & Hv1 & Hv2).
    apply bind_Ok; exists tt; split; by apply require_Ok, bool_decide_eq_true_2. }
  apply bind_Ok; exists tt; split; [by apply require_Ok, bool_decide_eq_true_2|].
  apply bind_Ok; exists tt; split; [|done].
  apply require_Ok. by apply (metadata_of_row e).
Qed.

(** The envelope a record was read from. *)
Definition envelope_of (r : PersistedFeatureRecord) : FeatureEnvelope :=
  {| env_snapshot := rec_snapshot r; env_code_version := rec_code_version r;
     env_config_hash := rec_config_hash r; env_payload_json := model_payload_json (rec_snapshot r);
     env_payload_sha256 := rec_payload_sha256 r |}.

Lemma metadata_row_eq r scope e :
  metadata_matches r scope (env_snapshot e) = true → r_schema_version r = 1 →
  r_scope r = exchange_value scope → r_code_version r = env_code_version e →
  r_config_hash r = env_config_hash e → r_payload_sha256 r = env_payload_sha256 e →
  r_payload_json r = env_payload_json e →
  scope = snapshot_exchange (env_snapshot e) ∧
  {| r with r_data_age_ms := snapshot_age (env_snapshot e) |} = row e ∧
  optional_float_eq (r_data_age_ms r) (snapshot_age (env_snapshot e)) = true.
Proof.
  intros H H1 H2 H3 H4 H5 H6. unfold metadata_matches in H. cbn [forallb id] in H.
  repeat match goal with
  | H : _ && _ = true |- _ => apply andb_true_iff in H as [? ?]
  | H : bool_decide _ = true |- _ => apply bool_decide_eq_true_1 in H
  | H : (_ =? _) = true |- _ => apply Z.eqb_eq in H
  | H : Bool.eqb _ _ = true |- _ => apply eqb_prop in H
  end.
  split; [done|]. split; [|done]. subst scope. unfold row.
  destruct r; cbn [r_schema_version r_snapshot_id r_scope r_symbol r_window_seconds r_decision_timestamp
    r_calculation_timestamp r_exchange_timestamp r_local_receive_timestamp r_normalization_timestamp
    r_strategy_version r_code_version r_config_hash r_sequence_id r_raw_payload_reference
    r_source_snapshot_ids r_source_sequence_id r_source_event_count r_oldest_source_timestamp
    r_newest_source_timestamp r_data_age_ms r_is_warm r_is_healthy r_unavailable_reason_codes
    r_book_generation r_binance_book_generation r_okx_book_generation r_payload_sha256 r_payload_json] in *.
  by subst.
Qed.

Lemma exchange_of_value_inv v e : exchange_of_value v = Ok e → v = exchange_value e.
Proof.
  unfold exchange_of_value. repeat (case_bool_decide; [by intros [= <-]|]). done.
Qed.

(** A row that is read is the row of the record, up to the sign of a zero age, with the
    payload its digest is of, in the directory of its partition. *)
Lemma row_checked r p root rec :
  record_from_row r p root = Ok rec →
  {| r with r_data_age_ms := snapshot_age (rec_snapshot rec) |} = row (envelope_of rec) ∧
  optional_float_eq (r_data_age_ms r) (snapshot_age (rec_snapshot rec)) = true ∧
  rec_payload_sha256 rec = sha256_text (model_payload_json (rec_snapshot rec)) ∧
  source_file rec = p ∧ path_parent p = partition_directory root (feature_partition (rec_snapshot rec)).
Proof.
  unfold record_from_row. intros Hr. inv_res. subst rec. cbn [rec_snapshot rec_payload_sha256 source_file].
  repeat match goal with
  | H : bool_decide _ = true |- _ => apply bool_decide_eq_true_1 in H
  | H : (_ =? _) = true |- _ => apply Z.eqb_eq in H
  | H : exchange_of_value _ = Ok _ |- _ => apply exchange_of_value_inv in H
  end.
  match goal with H : metadata_matches r ?sc ?s = true |- _ =>
    destruct (metadata_row_eq r sc (envelope_of {| rec_snapshot := s; rec_code_version := r_code_version r;
      rec_config_hash := r_config_hash r; rec_payload_sha256 := r_payload_sha256 r; source_file := p |}) H)
      as (_ & ? & ?); [done..|] end.
  split; [done|]. split; [done|]. split; [congruence|done].
Qed.
End round_trip.

Lemma stable_leb_total a b : stable_leb a b = true ∨ stable_leb b a = true.
Proof. apply ordering_total, stable_ordering. Qed.
Lemma stable_leb_trans a b c : stable_leb a b = true → stable_leb b c = true → stable_leb a c = true.
Proof. apply ordering_trans, stable_ordering. Qed.

(** ** Texts of identifiers and names *)

Lemma uuid_pieces {A} (l : list A) :
  l = take 8 l ++ take 4 (drop 8 l) ++ take 4 (drop 12 l) ++ take 4 (drop 16 l) ++ drop 20 l.
Proof.
  rewrite <- (take_drop 8 l) at 1. f_equal. rewrite <- (take_drop 4 (drop 8 l)) at 1.
  rewrite drop_drop. f_equal. rewrite <- (take_drop 4 (drop (8 + 4) l)) at 1. rewrite drop_drop. f_equal.
  rewrite <- (take_drop 4 (drop (8 + 4 + 4) l)) at 1. by rewrite drop_drop.
Qed.

#[export] Instance uuid_text_inj : Inj (=) (=) uuid_text.
Proof.
  intros u v H. unfold uuid_text in H. apply (f_equal chars) in H. rewrite !chars_of_chars in H.
  rewrite <- (of_chars_chars u), <- (of_chars_chars v). f_equal.
  generalize dependent (chars v). generalize (chars u). intros a b H.
  assert (length a = length b) as Hl.
  { pose proof (f_equal length H) as E. repeat first [rewrite length_app in E|rewrite length_cons in E|rewrite length_take in E|rewrite length_drop in E].
    lia. }
  apply app_inj_1 in H as [H1 H]; [|rewrite !length_take; lia]. injection H as H.
  apply app_inj_1 in H as [H2 H]; [|rewrite !length_take, !length_drop; lia]. injection H as H.
  apply app_inj_1 in H as [H3 H]; [|rewrite !length_take, !length_drop; lia]. injection H as H.
  apply app_inj_1 in H as [H4 H5]; [|rewrite !length_take, !length_drop; lia]. injection H5 as H5.
  rewrite (uuid_pieces a), (uuid_pieces b). congruence.
Qed.

Lemma partition_value_plain s : forallb unreserved (chars s) = true → partition_value s = s.
Proof.
  intros H. unfold partition_value. rewrite <- (of_chars_chars s) at 2. f_equal.
  induction (chars s) as [|c l IH]; [done|]. simpl in *. apply andb_true_iff in H as [Hc Hl].
  rewrite IH by done. unfold quote_byte. by rewrite Hc.
Qed.
