(* ===== verification/FeatureTree.v ===== *)
(** * The tree of the feature store

    [storage/features.py]: the layout of a store on disk, the writing of one partition
    file, the reader (one generator per file, merged and checked), the rebuild of the
    deduplication index and the audits of a tree.  The file system is the list of the
    paths below its root in the order a listing gives them; an operation on it either
    takes effect or raises.  A generator is what it yields and how it ends. *)

From S2P Require Import Prelude Effects PyDecimal PyFloat Models Availability FeatureModels FeatureRuntime Fingerprint FeatureRows.
From stdpp Require Import pretty.
From Stdlib Require Import Ascii.
Open Scope Z_scope.

(** ** Files *)

(** A Parquet file: whether its schema is [FEATURE_PARQUET_SCHEMA], and its rows. *)
Record ParquetFile := { schema_matches : bool; pq_rows : list Row }.
(** A directory, or a file that may be readable as Parquet. *)
Inductive node := Directory | File (content : option ParquetFile).
Abbreviation filesystem := (list (path * node)).

Definition path_exists (p : path) (f : filesystem) : bool := negb (is_none (dict_get p f)).
Definition is_dir (p : path) (f : filesystem) : bool :=
  match dict_get p f with Some Directory => true | _ => false end.
Definition is_relative_to (p q : path) : bool := bool_decide (take (length q) p = q).

Definition ends_with (suffix s : string) : bool :=
  bool_decide (drop (String.length s - String.length suffix) (chars s) = chars suffix).
(** [rglob("*.parquet")] and [rglob("feature_schema=*")]. *)
Definition rglob (test : string → bool) (root : path) (f : filesystem) : list path :=
  filter (λ p, is_relative_to p root = true ∧ p ≠ root ∧ default false (test <$> last p) = true) (map fst f).
Definition parquet_name : string → bool := ends_with ".parquet".
Definition schema_name : string → bool := String.prefix "feature_schema=".

(** [mkdir(parents=True, exist_ok=True)]. *)
Definition make_one (p : path) : M filesystem unit :=
  f ← getM;
  match dict_get p f with
  | None => modifyM (dict_set p Directory)
  | Some Directory => mret tt
  | Some (File _) => raiseM (OSError "file exists")
  end.
Definition mkdir (p : path) : M filesystem unit :=
  forM make_one (map (λ n, take n p) (seq 1 (length p))).

(** [try: m finally: c]. *)
Definition finallyM {S A} (m : M S A) (c : S → S) : M S A :=
  λ s, let '(s, r) := m s in (c s, r).

(** [_validate_feature_tree_layout]. *)
Definition validate_layout (root : path) (allow_uninitialized : bool) (f : filesystem)
    : res (path * Z) :=
  let sr := schema_root root in
  if negb (path_exists root f) then
    if allow_uninitialized then Ok (sr, 0) else Err (ValueError "feature tree does not exist")
  else
  _ ← require (is_dir root f) (ValueError "feature tree root is not a directory");
  if negb (path_exists sr f) then
    if allow_uninitialized then Ok (sr, 0) else Err (ValueError "feature tree is missing its schema")
  else
  _ ← require (is_dir sr f) (ValueError "feature schema root is not a directory");
  _ ← require (forallb (λ p, negb (is_dir p f && negb (bool_decide (p = sr)))) (rglob schema_name root f))
        (ValueError "unknown feature schema directory");
  let files := rglob parquet_name root f in
  _ ← require (forallb (λ p, is_relative_to p sr) files)
        (ValueError "feature Parquet exists outside schema tree");
  let count := Z.of_nat (length files) in
  _ ← require (negb ((count =? 0) && negb allow_uninitialized))
        (ValueError "feature tree contains no Parquet data");
  Ok (sr, count).

(** ** Writing a partition file *)

(** Integers of the schema's widths ([int32] and [int64] columns). *)
Definition fits (bits n : Z) : bool := (- 2 ^ (bits - 1) <=? n) && (n <? 2 ^ (bits - 1)).
Definition row_fits (r : Row) : bool :=
  fits 32 (r_window_seconds r) && fits 64 (r_source_event_count r) &&
  forallb (λ g, given g (fits 64)) [r_book_generation r; r_binance_book_generation r; r_okx_book_generation r].

Inductive write_fault := MkdirFails | WriteFails | ReplaceFails.
#[export] Instance write_fault_eq_dec : EqDecision write_fault.
Proof. solve_decision. Defined.

Definition os_error : exn := OSError "input/output error".
Definition fault_point (fault : option write_fault) (at_point : write_fault) : M filesystem unit :=
  requireM (negb (bool_decide (fault = Some at_point))) os_error.

(** [os.replace]. *)
Definition replace_file (a b : path) : M filesystem unit :=
  f ← getM;
  match dict_get a f, dict_get b f with
  | None, _ => raiseM (OSError "no such file")
  | Some _, Some Directory => raiseM (OSError "is a directory")
  | Some n, _ => modifyM (λ f, dict_set b n (dict_pop a f))
  end.

(** ** The index's table *)

Inductive persistence := PENDING | COMMITTED.
#[export] Instance persistence_eq_dec : EqDecision persistence.
Proof. solve_decision. Defined.
Record IndexRow := { ix_identity : string * string * string; ix_state : persistence }.
#[export] Instance IndexRow_eq_dec : EqDecision IndexRow.
Proof. solve_decision. Defined.
(** The table, by its primary key. *)
Abbreviation index_table := (gmap string IndexRow).

Section tree.
Context {Codec : FeatureCodec}.

Definition content_entry (e : FeatureEnvelope) : json :=
  JObj [("id", JStr (snapshot_id (env_snapshot e))); ("payload_sha256", JStr (env_payload_sha256 e));
        ("config_hash", JStr (env_config_hash e)); ("code_version", JStr (env_code_version e))]%string.
Definition content_key (ordered : list FeatureEnvelope) : string :=
  sha256_text (canonical_json (JArr (map content_entry ordered))).

Definition part_filename (ordered : list FeatureEnvelope) : res string :=
  match head ordered, last ordered with
  | Some first, Some last =>
    Ok ("part-" +:+ compact_timestamp (snapshot_decision (env_snapshot first)) +:+ "-" +:+
        compact_timestamp (snapshot_decision (env_snapshot last)) +:+ "-" +:+
        String.substring 0 16 (content_key ordered) +:+ ".parquet")
  | _, _ => Err IndexError
  end.

Definition partition_file (ordered : list FeatureEnvelope) : ParquetFile :=
  {| schema_matches := true; pq_rows := map row ordered |}.

(** [pq.write_table]: a fault leaves an unreadable file. *)
Definition write_table (temporary : path) (content : ParquetFile) (fault : option write_fault)
    : M filesystem unit :=
  f ← getM;
  _ ← requireM (negb (is_dir temporary f)) (OSError "is a directory");
  _ ← modifyM (dict_set temporary (File None));
  _ ← fault_point fault WriteFails;
  modifyM (dict_set temporary (File (Some content))).

(** [_write_partition_file]; [nonce] is the hex text of [uuid4()]. *)
Definition write_partition_file (nonce : string) (fault : option write_fault) (root : path)
    (part : string * string * string) (envelopes : list FeatureEnvelope) : M filesystem path :=
  let ordered := py_sorted file_leb envelopes in
  let directory := partition_directory root part in
  _ ← fault_point fault MkdirFails;
  _ ← mkdir directory;
  filename ← liftM (part_filename ordered);
  let destination := directory ++ [filename] in
  let temporary := directory ++ ["." +:+ filename +:+ "." +:+ nonce +:+ ".tmp"] in
  _ ← requireM (forallb (λ e, row_fits (row e)) ordered) (ValueError "value too large for its column");
  _ ← finallyM
        (_ ← write_table temporary (partition_file ordered) fault;
         _ ← fault_point fault ReplaceFails;
         replace_file temporary destination)
        (λ f, if path_exists temporary f then dict_pop temporary f else f);
  mret destination.

(** ** Generators *)

Record stream (A : Type) := { items : list A; failure : option exn }.
#[global] Arguments items {A} _.
#[global] Arguments failure {A} _.
#[global] Arguments Build_stream {A} _ _.
Definition yields {A} (x : A) (s : stream A) : stream A :=
  {| items := x :: items s; failure := failure s |}.
Definition finished {A} : stream A := {| items := []; failure := None |}.
Definition raises {A} (e : exn) : stream A := {| items := []; failure := Some e |}.
(** [list(generator)]. *)
Definition exhaust {A} (s : stream A) : res (list A) :=
  match failure s with None => Ok (items s) | Some e => Err e end.

(** Consecutive runs of [n] elements, the last one shorter. *)
Fixpoint chunks_of {A} (fuel n : nat) (l : list A) : list (list A) :=
  match fuel, l with
  | O, _ | _, [] => []
  | S fuel, _ => take n l :: chunks_of fuel n (drop n l)
  end.
Definition chunks {A} (n : nat) (l : list A) : list (list A) := chunks_of (length l) n l.

(** ** The records of a file *)

(** The records of one batch, then the rest of the file. *)
Fixpoint yield_records (filters : FeatureScanFilter) (previous : option PersistedFeatureRecord)
    (records : list PersistedFeatureRecord)
    (rest : option PersistedFeatureRecord → stream PersistedFeatureRecord)
    : stream PersistedFeatureRecord :=
  match records with
  | [] => rest previous
  | r :: records =>
    if given previous (λ q, stable_leb q r) then
      let s := yield_records filters (Some r) records rest in
      if matches filters r then yields r s else s
    else raises (ValueError "feature Parquet file is not monotonically ordered")
  end.

Fixpoint file_batches (p sr : path) (filters : FeatureScanFilter) (batches : list (list Row))
    (previous : option PersistedFeatureRecord) : stream PersistedFeatureRecord :=
  match batches with
  | [] => finished
  | batch :: batches =>
    match mapR (λ r, record_from_row r p sr) batch with
    | Err e => raises e
    | Ok records => yield_records filters previous records (file_batches p sr filters batches)
    end
  end.

(** [pq.ParquetFile(path)]. *)
Definition open_parquet (p : path) (f : filesystem) : res ParquetFile :=
  match dict_get p f with
  | Some (File (Some content)) => Ok content
  | Some (File None) => Err (ValueError "not a Parquet file")
  | _ => Err (OSError "cannot open file")
  end.
Definition open_feature_file (p : path) (f : filesystem) : res ParquetFile :=
  content ← open_parquet p f;
  _ ← require (schema_matches content) (ValueError "feature Parquet schema mismatch");
  Ok content.

Record FeatureParquetReader := { rd_root : path; rd_schema_root : path; rd_batch_size : nat }.
Definition mk_reader (root : path) (batch_size : Z) : res FeatureParquetReader :=
  _ ← require (1 <=? batch_size) (ValueError "feature reader batch_size must be positive");
  Ok {| rd_root := root; rd_schema_root := schema_root root; rd_batch_size := Z.to_nat batch_size |}.

Definition file_records (r : FeatureParquetReader) (p : path) (filters : FeatureScanFilter)
    (f : filesystem) : stream PersistedFeatureRecord :=
  match open_feature_file p f with
  | Err e => raises e
  | Ok content =>
    file_batches p (rd_schema_root r) filters (chunks (rd_batch_size r) (pq_rows content)) None
  end.

(** ** The merged scan *)

(** [heapq.merge]: the smallest head first, the earlier generator on equal keys. *)
Fixpoint pick {A} (leb : A → A → bool) (heads : list (A * stream A))
    : option (list (A * stream A) * (A * stream A) * list (A * stream A)) :=
  match heads with
  | [] => None
  | h :: heads =>
    match pick leb heads with
    | None => Some ([], h, heads)
    | Some (before, m, after) =>
      if leb h.1 m.1 then Some ([], h, heads) else Some (h :: before, m, after)
    end
  end.

(** [next(generator)] of a generator: a new head, no more, or an exception. *)
Definition advance {A} (s : stream A) : res (option (A * stream A)) :=
  match items s, failure s with
  | x :: l, e => Ok (Some (x, {| items := l; failure := e |}))
  | [], None => Ok None
  | [], Some e => Err e
  end.

Fixpoint merge_loop {A} (leb : A → A → bool) (fuel : nat) (heads : list (A * stream A)) : stream A :=
  match fuel with
  | O => finished
  | S fuel =>
    match pick leb heads with
    | None => finished
    | Some (before, (x, s), after) =>
      yields x
        (match advance s with
         | Err e => raises e
         | Ok None => merge_loop leb fuel (before ++ after)
         | Ok (Some h) => merge_loop leb fuel (before ++ h :: after)
         end)
    end
  end.

Definition stream_size {A} (l : list (A * stream A)) : nat :=
  list_sum (map (λ h, S (length (items h.2))) l).
Definition merge {A} (leb : A → A → bool) (streams : list (stream A)) : stream A :=
  match mapR advance streams with
  | Err e => raises e
  | Ok heads => let heads := omap id heads in merge_loop leb (stream_size heads) heads
  end.

(** The generator [checked]. *)
Fixpoint check_unique (seen : gset UUID) (records : list PersistedFeatureRecord) (e : option exn)
    : stream PersistedFeatureRecord :=
  match records with
  | [] => {| items := []; failure := e |}
  | r :: records =>
    if bool_decide (rec_id r ∈ seen) then raises (ValueError "duplicate persisted feature_snapshot_id")
    else yields r (check_unique ({[ rec_id r ]} ∪ seen) records e)
  end.

(** [a <= b] of paths. *)
Fixpoint path_leb (a b : path) : bool :=
  match a, b with
  | [], _ => true
  | _, [] => false
  | x :: a, y :: b =>
    match String.compare x y with Lt => true | Eq => path_leb a b | Gt => false end
  end.

Definition iter_records (r : FeatureParquetReader) (filters : FeatureScanFilter) (f : filesystem)
    : res (stream PersistedFeatureRecord) :=
  layout ← validate_layout (rd_root r) false f;
  let files := py_sorted path_leb (rglob parquet_name layout.1 f) in
  contents ← mapR (λ p, open_feature_file p f) files;
  _ ← require (negb (Z.of_nat (list_sum (map (λ c, length (pq_rows c)) contents)) =? 0))
        (ValueError "feature tree contains no feature rows");
  let merged := merge stable_leb (map (λ p, file_records r p filters f) files) in
  Ok (check_unique ∅ (items merged) (failure merged)).

(** ** The deduplication index *)

Definition index_record (table : index_table) (r : PersistedFeatureRecord) : res index_table :=
  let key := uuid_text (rec_id r) in
  match table !! key with
  | Some _ => Err (ValueError "duplicate persisted feature_snapshot_id")
  | None => Ok (<[key := {| ix_identity := rec_identity r; ix_state := COMMITTED |}]> table)
  end.

Fixpoint index_records (table : index_table) (l : list PersistedFeatureRecord) : res index_table :=
  match l with
  | [] => Ok table
  | r :: l => table ← index_record table r; index_records table l
  end.

Fixpoint index_streams (table : index_table) (l : list (stream PersistedFeatureRecord))
    : res index_table :=
  match l with
  | [] => Ok table
  | s :: l =>
    table ← index_records table (items s);
    match failure s with Some e => Err e | None => index_streams table l end
  end.

Definition default_batch_size : Z := 65536.

(** [_rebuild_feature_index]: the table that replaces the index. *)
Definition rebuild_feature_index (root : path) (f : filesystem) : res index_table :=
  layout ← validate_layout root true f;
  if layout.2 =? 0 then Ok ∅
  else
    reader ← mk_reader root default_batch_size;
    table ← index_streams ∅
      (map (λ p, file_records reader p no_filter f) (rglob parquet_name layout.1 f));
    _ ← require (negb (bool_decide (table = ∅))) (ValueError "feature tree contains no feature rows");
    Ok table.
End tree.
