(* ===== verification/FeatureScan.v ===== *)
(** * Scans of the feature store

    What the generators of [FeatureTree] yield: a file's records in its order, the merge
    of sorted generators, and a whole scan against the rows of the tree. *)

From S2P Require Import Prelude Effects PyDecimal PyFloat Models FeatureModels FeatureRuntime Fingerprint FeatureRows FeatureTree.
Open Scope Z_scope.

(** ** The merge *)

Section merge.
Context {A : Type} (leb : A → A → bool).
Hypothesis leb_total : ∀ a b, leb a b = true ∨ leb b a = true.
Hypothesis leb_trans : ∀ a b c, leb a b = true → leb b c = true → leb a c = true.
Abbreviation head_items := (λ h : A * stream A, h.1 :: items h.2).
Abbreviation sorted := (StronglySorted (λ a b, leb a b = true)).

Lemma pick_None heads : pick leb heads = None → heads = [].
Proof using Type. destruct heads as [|h heads]; [done|]. simpl. by destruct (pick leb heads) as [[[? ?] ?]|]; [destruct (leb _ _)|]. Qed.

Lemma pick_split heads before m after :
  pick leb heads = Some (before, m, after) → heads = before ++ m :: after.
Proof using Type.
  revert before. induction heads as [|h heads IH]; intros before; simpl; [done|].
  destruct (pick leb heads) as [[[b m'] a]|] eqn:E.
  - destruct (leb h.1 m'.1); intros [= <- <- <-]; [done|]. by rewrite (IH b eq_refl).
  - by intros [= <- <- <-].
Qed.

Lemma pick_least heads before m after :
  pick leb heads = Some (before, m, after) → ∀ h, h ∈ heads → leb m.1 h.1 = true.
Proof using leb_total leb_trans.
  revert before m after. induction heads as [|h heads IH]; intros before m after; simpl; [done|].
  assert (∀ x, leb x x = true) as Hrefl by (intros x; by destruct (leb_total x x)).
  destruct (pick leb heads) as [[[b m'] a]|] eqn:E.
  - specialize (IH b m' a eq_refl). destruct (leb h.1 m'.1) eqn:Eh; intros [= <- <- <-] x [->|Hx]%elem_of_cons; auto.
    + by eapply leb_trans, IH.
    + destruct (leb_total h.1 m'.1) as [Hl|Hl]; congruence.
  - intros [= <- <- <-] x [->|Hx]%elem_of_cons; [done|].
    by rewrite (pick_None _ E) in Hx; apply elem_of_nil in Hx.
Qed.

Lemma stream_size_app l1 l2 : stream_size (A := A) (l1 ++ l2) = (stream_size l1 + stream_size l2)%nat.
Proof using Type. unfold stream_size. by rewrite map_app, list_sum_app. Qed.

(** The merge of generators that end gives their elements, in order. *)
Lemma merge_loop_spec fuel heads :
  (stream_size heads ≤ fuel)%nat → Forall (λ h, failure h.2 = None ∧ sorted (head_items h)) heads →
  ∃ l, merge_loop leb fuel heads = {| items := l; failure := None |} ∧
    l ≡ₚ concat (map head_items heads) ∧ sorted l.
Proof using leb_total leb_trans.
  revert heads. induction fuel as [|fuel IH]; intros heads Hf Hh.
  { destruct heads as [|h heads]; [|unfold stream_size in Hf; simpl in Hf; lia].
    exists []. repeat split; constructor. }
  simpl. destruct (pick leb heads) as [[[before [x s]] after]|] eqn:E.
  2: { rewrite (pick_None _ E). exists []. repeat split; constructor. }
  pose proof (pick_split _ _ _ _ E) as Hs. pose proof (pick_least _ _ _ _ E) as Hl. simpl in Hl.
  rewrite Hs in Hf, Hh. rewrite stream_size_app in Hf. unfold stream_size in Hf at 2. simpl in Hf. fold (stream_size after) in Hf.
  apply Forall_app in Hh as [Hb [[Hsn Hsx] Ha]%Forall_cons]. simpl in Hsn, Hsx.
  apply StronglySorted_inv in Hsx as [Hsi Hxi].
  assert (∃ l, match advance s with
    | Err e => raises e
    | Ok None => merge_loop leb fuel (before ++ after)
    | Ok (Some h) => merge_loop leb fuel (before ++ h :: after)
    end = {| items := l; failure := None |} ∧ l ≡ₚ concat (map head_items (before ++ after)) ++ items s ∧ sorted l)
    as (l & -> & Hp & Hsl).
  { destruct s as [[|y l] fl]; simpl in *; subst fl; unfold advance; simpl.
    - destruct (IH (before ++ after)) as (l & -> & Hp & Hsl).
      { rewrite stream_size_app. lia. } { by apply Forall_app. }
      exists l. split; [done|]. rewrite app_nil_r. by split.
    - destruct (IH (before ++ (y, Build_stream l None) :: after)) as (l2 & -> & Hp & Hsl).
      { rewrite stream_size_app. unfold stream_size at 2. simpl. fold (stream_size after). lia. }
      { apply Forall_app. split; [done|]. by constructor. }
      exists l2. split; [done|]. split; [|done]. rewrite Hp, !map_app, !concat_app. simpl.
      rewrite <- app_assoc. f_equiv. by rewrite (Permutation_app_comm _ (y :: l)). }
  exists (x :: l). split; [done|]. split.
  - rewrite Hp, Hs, !map_app, !concat_app. simpl. rewrite <- app_assoc, (Permutation_app_comm (concat _) (items s)).
    by rewrite Permutation_middle.
  - constructor; [done|]. apply Forall_forall. intros z Hz. rewrite Hp in Hz.
    apply elem_of_app in Hz as [Hz|Hz]; [|rewrite Forall_forall in Hxi; by apply Hxi].
    apply list_elem_of_In, in_concat in Hz as (t & Ht & Hz). apply in_map_iff in Ht as (h & <- & Hh).
    apply list_elem_of_In in Hh, Hz. assert (leb x h.1 = true) as Hxh.
    { apply Hl. rewrite Hs. rewrite elem_of_app, elem_of_cons. apply elem_of_app in Hh as [?|?]; auto. }
    apply elem_of_cons in Hz as [->|Hz]; [done|]. eapply leb_trans; [exact Hxh|].
    assert (sorted (head_items h)) as Hhs.
    { assert (Forall (λ h, failure h.2 = None ∧ sorted (head_items h)) (before ++ after)) as HF by by apply Forall_app.
      rewrite Forall_forall in HF. by apply HF. }
    apply StronglySorted_inv in Hhs as [_ Hall]. rewrite Forall_forall in Hall. by apply Hall.
Qed.

Lemma merge_loop_fails fuel heads :
  (stream_size heads ≤ fuel)%nat → Exists (λ h, failure h.2 ≠ None) heads →
  failure (merge_loop leb fuel heads) ≠ None.
Proof using Type.
  revert heads. induction fuel as [|fuel IH]; intros heads Hf Hh.
  { destruct heads as [|h heads]; [by apply Exists_nil in Hh|unfold stream_size in Hf; simpl in Hf; lia]. }
  simpl. destruct (pick leb heads) as [[[before [x s]] after]|] eqn:E.
  2: { rewrite (pick_None _ E) in Hh. by apply Exists_nil in Hh. }
  rewrite (pick_split _ _ _ _ E) in Hf, Hh. rewrite stream_size_app in Hf.
  unfold stream_size in Hf at 2. simpl in Hf. fold (stream_size after) in Hf.
  destruct s as [[|y l] [e|]]; unfold advance; simpl in *; try done; apply IH;
    rewrite ?stream_size_app; try (unfold stream_size at 2; simpl; fold (stream_size after)); try lia.
  - apply Exists_app. apply Exists_app in Hh as [?|[?|?]%Exists_cons]; auto; done.
  - apply Exists_app. apply Exists_app in Hh as [?|[?|?]%Exists_cons]; [by left|right..]; by constructor.
  - apply Exists_app. apply Exists_app in Hh as [?|[?|?]%Exists_cons]; [by left|right..]; by constructor.
Qed.

Lemma advance_heads streams heads :
  mapR advance streams = Ok heads →
  concat (map head_items (omap id heads)) = concat (map items streams) ∧
  (Forall (λ s, failure s = None) streams ↔ Forall (λ h, failure h.2 = None) (omap id heads)) ∧
  (Forall (λ s, sorted (items s)) streams → Forall (λ h, sorted (head_items h)) (omap id heads)).
Proof using Type.
  revert heads. induction streams as [|s streams IH]; intros heads H; simpl in H.
  - injection H as <-. split; [done|]. split; [by split; constructor|constructor].
  - apply bind_Ok in H as (h & Hh & H). apply bind_Ok in H as (hs & Hhs & [= <-]).
    destruct (IH hs Hhs) as (IH1 & IH2 & IH3).
    destruct s as [[|x l] fl]; unfold advance in Hh; simpl in Hh.
    + destruct fl as [e|]; [done|]. injection Hh as <-. change (omap id (None :: hs)) with (omap id hs).
      split; [done|]. rewrite !Forall_cons. split; [rewrite <- IH2; by split; [intros [_ ?]|]|].
      intros [_ ?]. auto.
    + injection Hh as <-.
      match goal with |- context [omap id (Some ?h :: hs)] =>
        change (omap id (Some h :: hs)) with (h :: omap id hs) end.
      cbn [map concat fst snd items]. rewrite IH1, !Forall_cons. cbn [fst snd failure items].
      split; [done|]. split; [by rewrite IH2|]. intros [? ?]. auto.
Qed.

(** A merge that ends is one of generators that all end. *)
Lemma merge_complete streams l :
  exhaust (merge leb streams) = Ok l → Forall (λ s, failure s = None) streams.
Proof using Type.
  unfold merge. destruct (mapR advance streams) as [heads|e] eqn:E; [|done]. intros Hl.
  destruct (advance_heads _ _ E) as (_ & Hf & _). apply Hf.
  destruct (decide (Forall (λ h, failure h.2 = None) (omap id heads))) as [?|Hn]; [done|].
  apply not_Forall_Exists in Hn; [|intros h; apply _]. exfalso.
  apply (merge_loop_fails (stream_size (omap id heads)) _ ltac:(done)) in Hn.
  unfold exhaust in Hl. by destruct (failure _).
Qed.

(** The merge of sorted generators that end has their elements in order. *)
Lemma merge_spec streams :
  Forall (λ s, sorted (items s)) streams → Forall (λ s, failure s = None) streams →
  ∃ l, merge leb streams = {| items := l; failure := None |} ∧ l ≡ₚ concat (map items streams) ∧ sorted l.
Proof using leb_total leb_trans.
  intros Hs Hn. unfold merge. destruct (mapR advance streams) as [heads|e] eqn:E.
  - destruct (advance_heads _ _ E) as (Hc & Hf & Hso).
    destruct (merge_loop_spec (stream_size (omap id heads)) (omap id heads)) as (l & -> & Hp & Hsl); [done| |].
    { apply Forall_and. split; [by apply Hf|by apply Hso]. }
    exists l. split; [done|]. by rewrite <- Hc.
  - exfalso. clear Hs. revert e E. induction Hn as [|s streams Hs _ IH]; intros e E; simpl in E; [done|].
    destruct s as [[|x l] fl]; simpl in Hs; subst fl; unfold advance in E; simpl in E;
      destruct (mapR _ streams) as [hs|e'] eqn:E'; try discriminate; by eapply IH.
Qed.
End merge.

(** ** The records of a file *)

Abbreviation stable_sorted := (StronglySorted (λ a b, stable_leb a b = true)).

Lemma exhaust_yields {A} (x : A) s l :
  exhaust (yields x s) = Ok l ↔ ∃ l', l = x :: l' ∧ exhaust s = Ok l'.
Proof.
  destruct s as [its [e|]]; unfold exhaust; simpl; split; try by intros (? & _ & ?).
  - done.
  - intros [= <-]. eauto.
  - by intros (? & -> & [= <-]).
Qed.

Lemma chunks_of_concat {A} fuel n (l : list A) :
  (0 < n)%nat → (length l ≤ fuel)%nat → concat (chunks_of fuel n l) = l.
Proof.
  intros Hn. revert l. induction fuel as [|fuel IH]; intros l Hl.
  - by destruct l; [|simpl in Hl; lia].
  - destruct l as [|x l]; [done|]. cbn [chunks_of concat]. rewrite IH; [apply take_drop|].
    rewrite length_drop. simpl in *. lia.
Qed.

Lemma chunks_concat {A} n (l : list A) : (0 < n)%nat → concat (chunks n l) = l.
Proof. intros. by apply chunks_of_concat. Qed.

(** Each record is not before the one read before it. *)
Fixpoint chain (previous : option PersistedFeatureRecord) (l : list PersistedFeatureRecord) : Prop :=
  match l with
  | [] => True
  | r :: l => given previous (λ q, stable_leb q r) = true ∧ chain (Some r) l
  end.
Definition final (previous : option PersistedFeatureRecord) (l : list PersistedFeatureRecord) :=
  match last l with Some r => Some r | None => previous end.

Lemma final_cons p r l : final p (r :: l) = final (Some r) l.
Proof. unfold final. by rewrite last_cons; destruct (last l). Qed.

Lemma chain_app p l1 l2 : chain p (l1 ++ l2) ↔ chain p l1 ∧ chain (final p l1) l2.
Proof.
  revert p. induction l1 as [|r l1 IH]; intros p; simpl; [by split; [|intros []]|].
  by rewrite IH, final_cons, (assoc and).
Qed.

Lemma chain_sorted l : chain None l ↔ stable_sorted l.
Proof.
  split.
  - intros H. apply Sorted_StronglySorted; [intros a b c; apply stable_leb_trans|].
    destruct l as [|r l]; [constructor|]. destruct H as [_ H]. revert r H.
    induction l as [|s l IH]; intros r H; [by repeat constructor|]. destruct H as [Hs H].
    constructor; [by apply IH|by constructor].
  - intros H. destruct l as [|r l]; [done|]. split; [done|]. revert r H.
    induction l as [|s l IH]; intros r H; [done|]. apply StronglySorted_inv in H as [H [Hr _]%Forall_cons].
    split; [done|by apply IH].
Qed.

Abbreviation matching flt := (filter (λ r, matches flt r = true)).

Lemma yield_records_spec flt p l rest out :
  exhaust (yield_records flt p l rest) = Ok out ↔
  ∃ out', chain p l ∧ exhaust (rest (final p l)) = Ok out' ∧ out = matching flt l ++ out'.
Proof.
  revert p out. induction l as [|r l IH]; intros p out; simpl.
  - split; [by exists out|]. by intros (? & _ & ? & ->).
  - rewrite final_cons, filter_cons. destruct (given p _); [|split; [done|by intros (? & [? _] & _)]].
    destruct (matches flt r) eqn:Em.
    + rewrite decide_True by done. rewrite exhaust_yields. setoid_rewrite IH. split.
      * intros (? & -> & out' & ? & ? & ->). by exists out'.
      * intros (out' & [_ ?] & ? & ->). eexists. split; [done|]. by exists out'.
    + rewrite decide_False by done. rewrite IH. split.
      * intros (out' & ? & ? & ->). by exists out'.
      * intros (out' & [_ ?] & ? & ->). by exists out'.
Qed.

Section scan.
Context {Codec : FeatureCodec}.

Lemma file_batches_spec p sr flt batches previous out :
  exhaust (file_batches p sr flt batches previous) = Ok out ↔
  ∃ l, mapR (λ r, record_from_row r p sr) (concat batches) = Ok l ∧ chain previous l ∧ out = matching flt l.
Proof.
  revert previous out. induction batches as [|b batches IH]; intros previous out.
  - simpl. unfold exhaust. simpl. split; [intros [= <-]; by exists []|]. by intros (l & [= <-] & _ & ->).
  - cbn [file_batches concat]. setoid_rewrite mapR_Ok. destruct (mapR _ b) as [l|e] eqn:E.
    + apply mapR_Ok in E. rewrite yield_records_spec. setoid_rewrite IH. split.
      * intros (out' & Hl & (l2 & Hl2%mapR_Ok & Hc & ->) & ->). exists (l ++ l2).
        split; [by apply Forall2_app|]. split; [by apply chain_app|]. by rewrite filter_app.
      * intros (l0 & (l1 & l2 & H1 & H2 & ->)%Forall2_app_inv_l & [Hc1 Hc2]%chain_app & ->).
        assert (l1 = l) as ->.
        { apply mapR_Ok in E, H1. congruence. }
        exists (matching flt l2). split; [done|]. split; [|by rewrite filter_app].
        exists l2. split; [by apply mapR_Ok|done].
    + split; [done|]. intros (l0 & (l1 & l2 & H1 & H2 & ->)%Forall2_app_inv_l & _).
      apply mapR_Ok in H1. congruence.
Qed.

(** The rows of a file, read. *)
Definition read_file (sr p : path) (f : filesystem) : res (list PersistedFeatureRecord) :=
  content ← open_feature_file p f; mapR (λ r, record_from_row r p sr) (pq_rows content).

Lemma file_records_spec rd p flt f out :
  (0 < rd_batch_size rd)%nat →
  exhaust (file_records rd p flt f) = Ok out ↔
  ∃ l, read_file (rd_schema_root rd) p f = Ok l ∧ stable_sorted l ∧ out = matching flt l.
Proof.
  intros Hn. unfold file_records, read_file. destruct (open_feature_file p f) as [c|e]; simpl.
  - rewrite file_batches_spec, chunks_concat by done. by setoid_rewrite chain_sorted.
  - split; [done|]. by intros (? & ? & _).
Qed.

(** ** A whole scan *)

Lemma check_unique_spec seen l e out :
  exhaust (check_unique seen l e) = Ok out ↔
  e = None ∧ out = l ∧ NoDup (map rec_id l) ∧ ∀ r, r ∈ l → rec_id r ∉ seen.
Proof.
  revert seen out. induction l as [|r l IH]; intros seen out; simpl.
  - unfold exhaust. simpl. destruct e; split; [done|by intros []| |].
    + intros [= <-]. split; [done|]. split; [done|]. split; [constructor|by intros ? ?%elem_of_nil].
    + by intros (_ & -> & _).
  - case_bool_decide as Hs.
    + split; [done|]. intros (_ & _ & _ & H). by destruct (H r ltac:(left)).
    + rewrite exhaust_yields. setoid_rewrite IH. rewrite NoDup_cons. split.
      * intros (l' & -> & -> & -> & Hn & Hl). split; [done|]. split; [done|]. split.
        { split; [|done]. intros (x & Ex & Hx)%list_elem_of_fmap. apply (Hl x Hx). rewrite Ex.
          apply elem_of_union_l. by apply elem_of_singleton. }
        intros x [->|Hx]%elem_of_cons; [done|]. intros Hin. apply (Hl x Hx). by apply elem_of_union_r.
      * intros (-> & -> & [Hr Hn] & Hl). exists l. split; [done|]. split; [done|]. split; [done|]. split; [done|].
        intros x Hx [Ex%elem_of_singleton|Hin]%elem_of_union; [|by apply (Hl x); [right|]].
        apply Hr. rewrite <- Ex. by apply (list_elem_of_fmap_2 rec_id).
Qed.

Definition tree_files (root : path) (f : filesystem) : list path :=
  py_sorted path_leb (rglob parquet_name (schema_root root) f).
(** The records of each file of a tree. *)
Definition read_tree (root : path) (f : filesystem) : res (list (list PersistedFeatureRecord)) :=
  mapR (λ p, read_file (schema_root root) p f) (tree_files root f).

(** [list(reader.iter_records(filters=...))]. *)
Definition scan (rd : FeatureParquetReader) (flt : FeatureScanFilter) (f : filesystem)
    : res (list PersistedFeatureRecord) :=
  s ← iter_records rd flt f; exhaust s.

Lemma layout_root root b f r : validate_layout root b f = Ok r → r.1 = schema_root root.
Proof.
  unfold validate_layout. destruct (path_exists root f); simpl.
  2: { destruct b; [by intros [= <-]|done]. }
  intros (_ & _ & H)%bind_Ok. destruct (path_exists (schema_root root) f); simpl in H.
  2: { destruct b; [by injection H as <-|done]. }
  apply bind_Ok in H as (_ & _ & H). apply bind_Ok in H as (_ & _ & H). apply bind_Ok in H as (_ & _ & H).
  by apply bind_Ok in H as (_ & _ & [= <-]).
Qed.

Lemma sorted_unique l1 l2 :
  l1 ≡ₚ l2 → NoDup (map rec_id l2) → stable_sorted l1 → l1 = py_sorted stable_leb l2.
Proof.
  intros Hp Hn Hs. assert (NoDup l2) as Hn2 by (eapply NoDup_fmap_1; exact Hn).
  apply (StronglySorted_leb_eq stable_leb); [|done| | | |].
  - intros a b Ha Hb H1 H2. rewrite Hp in Ha, Hb. pose proof (stable_leb_antisym a b H1 H2) as E.
    apply list_elem_of_lookup in Ha as [i Hi], Hb as [j Hj].
    assert (i = j) as ->; [|congruence].
    apply (NoDup_lookup (map rec_id l2) i j (rec_id a)); [done| |]; rewrite list_lookup_fmap, ?Hi, ?Hj; simpl; congruence.
  - apply py_sorted_sorted; [|intros; by eapply stable_leb_trans].
    intros a b H. destruct (stable_leb_total a b); congruence.
  - by rewrite Hp.
  - by rewrite py_sorted_perm.
  - intros x. by rewrite py_sorted_elem, Hp.
Qed.

Lemma read_file_rows sr p f l :
  read_file sr p f = Ok l → ∃ c, open_feature_file p f = Ok c ∧ length (pq_rows c) = length l.
Proof. unfold read_file. intros (c & Hc & H)%bind_Ok. exists c. split; [done|]. by apply mapR_length in H. Qed.

Lemma list_sum_zero l : list_sum l = 0%nat ↔ Forall (λ n, n = 0%nat) l.
Proof.
  induction l as [|n l IH]; simpl; [by split; [constructor|]|]. rewrite Forall_cons, <- IH. lia.
Qed.

Lemma total_rows sr f files contents rss :
  mapR (λ p, open_feature_file p f) files = Ok contents → mapR (λ p, read_file sr p f) files = Ok rss →
  (list_sum (map (λ c, length (pq_rows c)) contents) = 0)%nat ↔ concat rss = [].
Proof.
  revert contents rss. induction files as [|p files IH]; intros contents rss H1 H2; simpl in *.
  - injection H1 as <-. by injection H2 as <-.
  - apply bind_Ok in H1 as (c & Hc & H1). apply bind_Ok in H1 as (cs & Hcs & [= <-]).
    apply bind_Ok in H2 as (l & Hl & H2). apply bind_Ok in H2 as (ls & Hls & [= <-]). simpl.
    destruct (read_file_rows _ _ _ _ Hl) as (c' & Hc' & Hn). rewrite Hc in Hc'. injection Hc' as <-.
    rewrite Hn. specialize (IH cs ls Hcs Hls). destruct l as [|x l]; simpl; [exact IH|]. by split; [lia|].
Qed.

Lemma read_files_open sr f files rss :
  mapR (λ p, read_file sr p f) files = Ok rss → ∃ contents, mapR (λ p, open_feature_file p f) files = Ok contents.
Proof.
  revert rss. induction files as [|p files IH]; intros rss H; simpl in *; [eauto|].
  apply bind_Ok in H as (l & Hl & H). apply bind_Ok in H as (ls & Hls & _).
  destruct (read_file_rows _ _ _ _ Hl) as (c & -> & _). destruct (IH ls Hls) as (cs & ->). simpl. eauto.
Qed.

(** The generators of the files against the rows of the tree. *)
Lemma file_streams rd flt f files rss :
  (0 < rd_batch_size rd)%nat →
  mapR (λ p, read_file (rd_schema_root rd) p f) files = Ok rss → Forall stable_sorted rss →
  let streams := map (λ p, file_records rd p flt f) files in
  Forall (λ s, failure s = None) streams ∧ Forall (λ s, stable_sorted (items s)) streams ∧
  concat (map items streams) = matching flt (concat rss).
Proof.
  intros Hn. revert rss. induction files as [|p files IH]; intros rss H Hs; simpl in *.
  - injection H as <-. by repeat split.
  - apply bind_Ok in H as (l & Hl & H). apply bind_Ok in H as (ls & Hls & [= <-]).
    apply Forall_cons in Hs as [Hsl Hs]. destruct (IH ls Hls Hs) as (IH1 & IH2 & IH3).
    assert (exhaust (file_records rd p flt f) = Ok (matching flt l)) as He by (apply file_records_spec; eauto).
    unfold exhaust in He. destruct (failure (file_records rd p flt f)) eqn:Ef; [done|]. injection He as He.
    rewrite He, IH3. simpl. rewrite filter_app. split; [by constructor|]. split; [|done].
    constructor; [|done]. rewrite He. by apply StronglySorted_filter.
Qed.

Lemma streams_files rd flt f files :
  (0 < rd_batch_size rd)%nat → Forall (λ s, failure s = None) (map (λ p, file_records rd p flt f) files) →
  ∃ rss, mapR (λ p, read_file (rd_schema_root rd) p f) files = Ok rss ∧ Forall stable_sorted rss.
Proof.
  intros Hn. induction files as [|p files IH]; intros H; simpl in *; [by exists []|].
  apply Forall_cons in H as [Hp H]. destruct (IH H) as (rss & -> & Hs).
  assert (exhaust (file_records rd p flt f) = Ok (items (file_records rd p flt f))) as He
    by (unfold exhaust; by rewrite Hp).
  apply file_records_spec in He as (l & -> & Hl & _); [|done]. simpl. exists (l :: rss). split; [done|by constructor].
Qed.

(** A scan ends exactly when the layout is sound, every file can be read and is in order,
    there is a row and no identifier matches twice; it then gives the records that match,
    in the stable order. *)
Lemma scan_exact root n rd flt f out :
  mk_reader root n = Ok rd →
  scan rd flt f = Ok out ↔
  is_ok (validate_layout root false f) = true ∧
  ∃ rss, read_tree root f = Ok rss ∧ Forall stable_sorted rss ∧ concat rss ≠ [] ∧
    NoDup (map rec_id (matching flt (concat rss))) ∧
    out = py_sorted stable_leb (matching flt (concat rss)).
Proof.
  unfold mk_reader. intros (_ & Hn%require_Ok & [= <-])%bind_Ok. apply Z.leb_le in Hn.
  set (rd := {| rd_root := root |}). assert (0 < rd_batch_size rd)%nat as Hb by (simpl; lia).
  unfold scan, iter_records. cbn [rd_root rd]. destruct (validate_layout root false f) as [lay|e] eqn:Hlay.
  2: { simpl. by split; [|intros []]. }
  cbn [mbind res_bind is_ok]. rewrite (layout_root _ _ _ _ Hlay). fold (tree_files root f).
  assert (∀ rss, read_tree root f = Ok rss → ∃ cs, mapR (λ p, open_feature_file p f) (tree_files root f) = Ok cs) as Hopen
    by (intros rss Hr; by eapply read_files_open).
  split.
  - intros (s & (cs & Hcs & (_ & Hr%require_Ok & [= <-])%bind_Ok)%bind_Ok & Hout)%bind_Ok. split; [done|].
    apply check_unique_spec in Hout as (Hf & -> & Hnd & _).
    assert (exhaust (merge stable_leb (map (λ p, file_records rd p flt f) (tree_files root f))) =
            Ok (items (merge stable_leb (map (λ p, file_records rd p flt f) (tree_files root f))))) as Hx
      by (unfold exhaust; by rewrite Hf).
    apply merge_complete, streams_files in Hx as (rss & Hrss & Hs); [|done].
    destruct (file_streams rd flt f _ rss Hb Hrss Hs) as (F1 & F2 & F3).
    destruct (merge_spec stable_leb stable_leb_total stable_leb_trans _ F2 F1) as (l & El & Hp & Hsl).
    rewrite El in Hnd |- *. cbn [items] in Hnd |- *. rewrite F3 in Hp.
    exists rss. split; [done|]. split; [done|]. split.
    { intros E. apply (total_rows _ _ _ _ _ Hcs Hrss) in E. by rewrite E in Hr. }
    assert (NoDup (map rec_id (matching flt (concat rss)))) as Hnd2.
    { by rewrite <- (fmap_Permutation rec_id _ _ Hp). }
    split; [done|]. by apply sorted_unique.
  - intros (_ & rss & Hrss & Hs & Hne & Hnd & ->). destruct (Hopen rss Hrss) as (cs & Hcs).
    rewrite Hcs. cbn [mbind res_bind].
    destruct (file_streams rd flt f _ rss Hb Hrss Hs) as (F1 & F2 & F3).
    destruct (merge_spec stable_leb stable_leb_total stable_leb_trans _ F2 F1) as (l & El & Hp & Hsl).
    rewrite F3 in Hp. rewrite El. cbn [items failure].
    assert (negb (Z.of_nat (list_sum (map (λ c, length (pq_rows c)) cs)) =? 0) = true) as Hrows.
    { apply negb_true_iff, Z.eqb_neq. intros E. apply Hne, (total_rows _ _ _ _ _ Hcs Hrss). lia. }
    rewrite Hrows. cbn [require mbind res_bind]. apply check_unique_spec. split; [done|].
    split; [symmetry; by apply sorted_unique|]. split; [|intros r _; apply not_elem_of_empty].
    by rewrite (fmap_Permutation rec_id _ _ Hp).
Qed.

(** Filtering a scan is scanning with the filter. *)
Lemma scan_filter root n rd flt f out :
  mk_reader root n = Ok rd → scan rd no_filter f = Ok out →
  scan rd flt f = Ok (matching flt out).
Proof.
  intros Hrd (Hl & rss & Hr & Hs & Hne & Hnd & ->)%(scan_exact root n); [|done].
  apply (scan_exact root n); [done|]. split; [done|]. exists rss. split; [done|]. split; [done|]. split; [done|].
  assert (matching no_filter (concat rss) = concat rss) as E.
  { apply list_filter_all, Forall_forall. by intros x _. }
  rewrite E in *. split.
  - eapply sublist_NoDup; [exact Hnd|]. apply (fmap_sublist rec_id), sublist_filter.
  - rewrite py_sorted_filter; [done| |intros a b c; apply stable_leb_trans].
    intros a b H. destruct (stable_leb_total a b); congruence.
Qed.

(** ** A scan against a plain one *)

(** The tree read whole, then checked, filtered and sorted. *)
Definition reference_scan (root : path) (flt : FeatureScanFilter) (f : filesystem)
    : option (list PersistedFeatureRecord) :=
  match validate_layout root false f, read_tree root f with
  | Ok _, Ok rss =>
    let out := matching flt (concat rss) in
    if bool_decide (Forall stable_sorted rss) && bool_decide (concat rss ≠ []) && bool_decide (NoDup (map rec_id out))
    then Some (py_sorted stable_leb out) else None
  | _, _ => None
  end.

(** C26. The streaming scan, which reads batches of any size and merges the files as it
    goes, gives a result exactly when reading the whole tree, checking that every file is
    in order, that there is a row and that no identifier matches twice would, and then
    the same one: what matches, in the stable order. *)
Theorem scan_refines_reference root n rd flt f out :
  mk_reader root n = Ok rd → scan rd flt f = Ok out ↔ reference_scan root flt f = Some out.
Proof.
  intros Hrd. rewrite (scan_exact root n) by done. unfold reference_scan.
  destruct (validate_layout root false f) as [lay|e]; [|by split; [intros []|]].
  destruct (read_tree root f) as [rss|e]; [|by split; [intros (_ & ? & ? & _)|]]. split.
  - intros (_ & ? & [= <-] & H1 & H2 & H3 & ->). by rewrite !bool_decide_eq_true_2.
  - destruct (bool_decide_reflect (Forall stable_sorted rss)); [|done].
    destruct (bool_decide_reflect (concat rss ≠ [])); [|done].
    destruct (bool_decide_reflect (NoDup (map rec_id (matching flt (concat rss))))); [|done].
    intros [= <-]. split; [done|]. by exists rss.
Qed.
End scan.
