(* ===== verification/FeatureAudit.v ===== *)
(** * Audits of the feature store

    [storage/features.py: audit_feature_tree, compare_feature_audits,
    compare_feature_trees]: the summary of a scan and the comparison of two. *)

From S2P Require Import Prelude PyDecimal PyFloat Models FeatureModels FeatureRuntime Fingerprint FeatureRows FeatureTree FeatureScan.
From Stdlib Require Import Ascii.
Open Scope Z_scope.

Record FeatureAudit := {
  fa_rows : Z;
  fa_files : Z;
  unique_snapshot_ids : Z;
  fa_partitions : Z;
  content_digest : string;
  fa_scopes : list string;
  fa_code_versions : list string;
  fa_config_hashes : list string;
  unavailable_reason_counts : list (string * Z);
  fa_unavailable_snapshots : Z;
  earliest_decision_timestamp : option Z;
  latest_decision_timestamp : option Z }.

(** The variables of the loop. *)
Record AuditState := {
  au_digest : Z;
  au_ids : gset UUID;
  au_files : gset path;
  au_partitions : gset (string * string * string);
  au_scopes : gset string;
  au_code_versions : gset string;
  au_config_hashes : gset string;
  au_reasons : gmap string Z;
  au_unavailable : Z;
  au_decisions : list Z;
  au_rows : Z }.

Definition audit_init : AuditState :=
  {| au_digest := 0; au_ids := ∅; au_files := ∅; au_partitions := ∅; au_scopes := ∅;
     au_code_versions := ∅; au_config_hashes := ∅; au_reasons := ∅; au_unavailable := 0;
     au_decisions := []; au_rows := 0 |}.

(** [counter.update(keys)]. *)
Definition counter_update (counter : gmap string Z) (keys : list string) : gmap string Z :=
  foldl (λ c k, <[k := default 0 (c !! k) + 1]> c) counter keys.

Definition sorted_texts (s : gset string) : list string := py_sorted String.leb (elements s).
Definition min_of (l : list Z) : option Z :=
  match l with [] => None | x :: l => Some (foldl Z.min x l) end.
Definition max_of (l : list Z) : option Z :=
  match l with [] => None | x :: l => Some (foldl Z.max x l) end.

Definition DIGEST_MODULUS : Z := 2 ^ 256.

Section audit.
Context {Codec : FeatureCodec}.

Definition digest_input (r : PersistedFeatureRecord) : string :=
  canonical_json (JObj [("payload_sha256", JStr (rec_payload_sha256 r));
    ("code_version", JStr (rec_code_version r)); ("config_hash", JStr (rec_config_hash r))]%string).

Definition audit_record (a : AuditState) (r : PersistedFeatureRecord) : AuditState :=
  let s := rec_snapshot r in
  let unavailable := negb (bool_decide (snapshot_reasons s = [])) in
  {| au_ids := {[ snapshot_id s ]} ∪ au_ids a;
     au_files := {[ source_file r ]} ∪ au_files a;
     au_partitions := {[ feature_partition s ]} ∪ au_partitions a;
     au_scopes := {[ exchange_value (snapshot_exchange s) ]} ∪ au_scopes a;
     au_code_versions := {[ rec_code_version r ]} ∪ au_code_versions a;
     au_config_hashes := {[ rec_config_hash r ]} ∪ au_config_hashes a;
     au_unavailable := if unavailable then au_unavailable a + 1 else au_unavailable a;
     au_reasons := if unavailable then counter_update (au_reasons a) (reason_codes s) else au_reasons a;
     au_decisions := au_decisions a ++ [snapshot_decision s];
     au_rows := au_rows a + 1;
     au_digest := (au_digest a + hex_number (sha256_text (digest_input r))) mod DIGEST_MODULUS |}.

Definition audit_summary (a : AuditState) : FeatureAudit :=
  {| fa_rows := au_rows a;
     fa_files := Z.of_nat (size (au_files a));
     unique_snapshot_ids := Z.of_nat (size (au_ids a));
     fa_partitions := Z.of_nat (size (au_partitions a));
     content_digest := of_chars (fixed_digits 16 64 (au_digest a));
     fa_scopes := sorted_texts (au_scopes a);
     fa_code_versions := sorted_texts (au_code_versions a);
     fa_config_hashes := sorted_texts (au_config_hashes a);
     unavailable_reason_counts := py_sorted key_leb (map_to_list (au_reasons a));
     fa_unavailable_snapshots := au_unavailable a;
     earliest_decision_timestamp := min_of (au_decisions a);
     latest_decision_timestamp := max_of (au_decisions a) |}.

Definition audit_records (l : list PersistedFeatureRecord) : FeatureAudit :=
  audit_summary (foldl audit_record audit_init l).

Definition audit_feature_tree (root : path) (flt : FeatureScanFilter) (f : filesystem)
    : res FeatureAudit :=
  rd ← mk_reader root default_batch_size;
  records ← scan rd flt f;
  Ok (audit_records records).

Record FeatureConsistencyReport := {
  left_path : path; right_path : path; cr_left : FeatureAudit; cr_right : FeatureAudit; identical : bool }.

Definition compare_feature_audits (left_path right_path : path) (left right : FeatureAudit)
    : FeatureConsistencyReport :=
  {| left_path := left_path; right_path := right_path; cr_left := left; cr_right := right;
     identical :=
       (fa_rows left =? fa_rows right) &&
       (unique_snapshot_ids left =? unique_snapshot_ids right) &&
       (fa_partitions left =? fa_partitions right) &&
       bool_decide (content_digest left = content_digest right) &&
       bool_decide (fa_scopes left = fa_scopes right) &&
       bool_decide (fa_code_versions left = fa_code_versions right) &&
       bool_decide (fa_config_hashes left = fa_config_hashes right) &&
       bool_decide (earliest_decision_timestamp left = earliest_decision_timestamp right) &&
       bool_decide (latest_decision_timestamp left = latest_decision_timestamp right) |}.

Definition compare_feature_trees (left_path right_path : path) (flt : FeatureScanFilter)
    (f : filesystem) : res FeatureConsistencyReport :=
  left ← audit_feature_tree left_path flt f;
  right ← audit_feature_tree right_path flt f;
  Ok (compare_feature_audits left_path right_path left right).

(** ** The same content in other files *)

(** A record without the file it was read from. *)
Definition logical (r : PersistedFeatureRecord)
    : PersistableFeatureSnapshot * (string * string * string) := (rec_snapshot r, rec_identity r).

Definition without_files (a : AuditState) : AuditState := {| a with au_files := ∅ |}.

Lemma audit_logical a b r s :
  logical r = logical s → without_files a = without_files b →
  without_files (audit_record a r) = without_files (audit_record b s).
Proof.
  destruct a, b. unfold without_files, logical, rec_identity, audit_record, digest_input. simpl.
  intros [= -> -> -> ->] [= -> -> -> -> -> -> -> -> -> ->]. done.
Qed.

Lemma audits_logical l1 l2 :
  map logical l1 = map logical l2 →
  without_files (foldl audit_record audit_init l1) = without_files (foldl audit_record audit_init l2).
Proof.
  assert (∀ a b, without_files a = without_files b → map logical l1 = map logical l2 →
    without_files (foldl audit_record a l1) = without_files (foldl audit_record b l2)) as H; [|by apply H].
  revert l2. induction l1 as [|r l1 IH]; intros [|s l2] a b Hab Hl; try done.
  pose proof (f_equal tail Hl) as Ht. cbn [map foldl tail] in *.
  apply IH; [|done]. apply audit_logical; [|done]. congruence.
Qed.

Lemma audits_identical p q l1 l2 :
  map logical l1 = map logical l2 →
  identical (compare_feature_audits p q (audit_records l1) (audit_records l2)) = true.
Proof.
  intros H%audits_logical. unfold audit_records.
  generalize dependent (foldl audit_record audit_init l1). intros a.
  generalize (foldl audit_record audit_init l2). intros b Hab.
  destruct a, b. injection Hab as -> -> -> -> -> -> -> -> -> ->.
  unfold compare_feature_audits, audit_summary. cbn [identical fa_rows unique_snapshot_ids fa_partitions content_digest
    fa_scopes fa_code_versions fa_config_hashes earliest_decision_timestamp latest_decision_timestamp
    au_rows au_ids au_partitions au_digest au_scopes au_code_versions au_config_hashes au_decisions].
  rewrite !bool_decide_eq_true_2, !Z.eqb_refl by done. done.
Qed.

Definition logical_leb (a b : PersistableFeatureSnapshot * (string * string * string)) : bool :=
  leb_of (stable_compare a.1 b.1).
Definition logical_matches (flt : FeatureScanFilter)
    (a : PersistableFeatureSnapshot * (string * string * string)) : bool :=
  matches flt {| rec_snapshot := a.1; rec_payload_sha256 := a.2.1.1; rec_code_version := a.2.1.2;
                 rec_config_hash := a.2.2; source_file := [] |}.

Lemma logical_sorted l : map logical (py_sorted stable_leb l) = py_sorted logical_leb (map logical l).
Proof. symmetry. apply (py_sorted_map logical logical_leb). Qed.

Lemma logical_matching flt l :
  map logical (matching flt l) = filter (λ a, logical_matches flt a = true) (map logical l).
Proof.
  induction l as [|r l IH]; [done|]. cbn [map]. rewrite !filter_cons. unfold logical_matches at 1.
  change (matches flt {| rec_snapshot := (logical r).1 |}) with (matches flt r).
  by destruct (decide (matches flt r = true)); simpl; rewrite IH.
Qed.

(** Sorting by the stable order forgets the order of entries with distinct identifiers. *)
Lemma logical_order_unique m1 m2 :
  m1 ≡ₚ m2 → NoDup (map (λ a, snapshot_id a.1) m1) → py_sorted logical_leb m1 = py_sorted logical_leb m2.
Proof.
  intros Hp Hn. assert (NoDup m1) as N1 by (by eapply (NoDup_fmap_1 (λ a, snapshot_id a.1))).
  assert (∀ m, StronglySorted (λ a b, logical_leb a b = true) (py_sorted logical_leb m)) as Hs.
  { intros m. apply py_sorted_sorted.
    - intros a b H. unfold logical_leb in *. destruct (ordering_total _ a.1 b.1 stable_ordering); congruence.
    - intros a b c. by apply (ordering_trans _ a.1 b.1 c.1 stable_ordering). }
  apply (StronglySorted_leb_eq logical_leb); [|done|done| | |].
  - intros a b Ha Hb H1 H2. rewrite py_sorted_elem in Ha, Hb.
    assert (snapshot_id a.1 = snapshot_id b.1) as E.
    { unfold logical_leb in *. rewrite (ord_sym _ stable_ordering a.1 b.1) in H2.
      destruct (stable_compare a.1 b.1) eqn:Ec; [by apply stable_eq_id|done|done]. }
    apply list_elem_of_lookup in Ha as [i Hi], Hb as [j Hj].
    assert (i = j) as ->; [|congruence].
    apply (NoDup_lookup _ i j (snapshot_id a.1) Hn); rewrite list_lookup_fmap, ?Hi, ?Hj; simpl; congruence.
  - by rewrite py_sorted_perm.
  - by rewrite py_sorted_perm, <- Hp.
  - intros x. by rewrite !py_sorted_elem, Hp.
Qed.

End audit.
