(* ===== verification/FeatureDisk.v ===== *)
(** * Sound trees

    What the writer keeps true of the disk, the operations that leave it alone, what the
    writing of a partition file adds, and the index rebuilt from it. *)

From S2P Require Import Prelude Effects PyDecimal PyFloat Models FeatureModels FeatureRuntime Fingerprint FeatureRows FeatureTree FeatureScan.
From Stdlib Require Import Ascii.
Open Scope Z_scope.

(** ** Names *)

Lemma chars_app a b : chars (a +:+ b) = chars a ++ chars b.
Proof. induction a as [|c a IH]; [done|]. change (c :: chars (a +:+ b) = c :: chars a ++ chars b). by rewrite IH. Qed.

Lemma parquet_name_last s : parquet_name s = true → last (chars s) = Some "t"%char.
Proof.
  unfold parquet_name, ends_with. intros H%bool_decide_eq_true_1.
  rewrite <- (take_drop (String.length s - String.length ".parquet") (chars s)), H. by rewrite last_app.
Qed.

Lemma parquet_name_app a b : parquet_name b = true → parquet_name (a +:+ b) = true.
Proof.
  unfold parquet_name, ends_with. intros H%bool_decide_eq_true_1. apply bool_decide_eq_true_2.
  rewrite <- !Lineage.chars_length, chars_app, length_app in *.
  assert (8 ≤ length (chars b))%nat as Hl.
  { apply (f_equal length) in H. rewrite length_drop in H. simpl in *. lia. }
  change (length (chars ".parquet")) with 8%nat in *.
  rewrite drop_app_ge by lia. by replace (length (chars a) + length (chars b) - 8 - length (chars a))%nat
    with (length (chars b) - 8)%nat by lia.
Qed.

(** A name that neither pattern matches. *)
Definition plain_name (n : string) : bool := negb (parquet_name n) && negb (schema_name n).

Lemma plain_last n c : last (chars n) = Some c → c ≠ "t"%char → schema_name n = false → plain_name n = true.
Proof.
  intros Hl Hc Hs. unfold plain_name. rewrite Hs, andb_true_r. apply negb_true_iff.
  destruct (parquet_name n) eqn:E; [|done]. apply parquet_name_last in E. congruence.
Qed.

Lemma hex_digit_decimal n : unreserved (hex_digit (n mod 10)) = true ∧ hex_digit (n mod 10) ≠ "t"%char.
Proof.
  assert (0 ≤ n mod 10 < 10) as H by (apply Z.mod_pos_bound; lia). revert H. generalize (n mod 10). intros d Hd.
  assert (d = 0 ∨ d = 1 ∨ d = 2 ∨ d = 3 ∨ d = 4 ∨ d = 5 ∨ d = 6 ∨ d = 7 ∨ d = 8 ∨ d = 9) as Hc by lia.
  destruct_or! Hc; subst d; by split.
Qed.

Lemma digits_unreserved w n : forallb unreserved (fixed_digits 10 w n) = true.
Proof.
  revert n. induction w as [|w IH]; intros n; [done|]. simpl. rewrite forallb_app, IH. simpl.
  by rewrite (proj1 (hex_digit_decimal n)).
Qed.

Lemma date_plain us : plain_name ("date=" +:+ partition_value (iso_date us)) = true.
Proof.
  rewrite partition_value_plain.
  2: { unfold iso_date. destruct (civil_of_day _) as [[y m] d]. rewrite chars_of_chars, !forallb_app, !digits_unreserved. done. }
  unfold iso_date. destruct (civil_of_day _) as [[y m] d].
  eapply (plain_last _ (hex_digit (d mod 10))); [|apply hex_digit_decimal|reflexivity].
  rewrite chars_app, chars_of_chars, !app_assoc. change (fixed_digits 10 2 d) with ((fixed_digits 10 1 (d / 10)) ++ [hex_digit (d mod 10)]).
  by rewrite app_assoc, last_snoc.
Qed.

Lemma symbol_char_unreserved c : symbol_char c = true → unreserved c = true.
Proof. by destruct c as [[] [] [] [] [] [] [] []]. Qed.

Lemma symbol_plain s :
  canonical_perpetual s = true → plain_name ("symbol=" +:+ partition_value s) = true.
Proof.
  intros H. rewrite partition_value_plain.
  2: { apply forallb_forall. intros c Hc%list_elem_of_In. apply symbol_char_unreserved.
       apply canonical_chars in H. rewrite Forall_forall in H. by apply H. }
  destruct (last (chars ("symbol=" +:+ s))) as [c|] eqn:E.
  2: { apply last_None in E. done. }
  apply (plain_last _ c); [done| |reflexivity].
  rewrite chars_app, last_app in E. destruct (last (chars s)) as [d|] eqn:Ed; [|by simpl in E; injection E as <-].
  injection E as <-. apply canonical_chars in H. rewrite Forall_forall in H.
  intros ->. assert ("t"%char ∈ chars s) as Hin.
  { apply last_Some in Ed as [l ->]. apply elem_of_app. right. left. }
  by apply H in Hin.
Qed.

Lemma scope_plain e : plain_name ("scope=" +:+ partition_value (exchange_value e)) = true.
Proof. by destruct e; vm_compute. Qed.

(** ** Paths that no scan looks at *)

Definition special (root p : path) : bool :=
  is_relative_to p root && negb (bool_decide (p = root)) &&
  match last p with Some n => parquet_name n || schema_name n | None => false end.
Definition harmless (root p : path) : Prop :=
  special root p = false ∧ p ≠ root ∧ p ≠ schema_root root.

Lemma schema_root_extends root : ∃ l, schema_root root = root ++ l.
Proof. unfold schema_root. case_bool_decide; [by exists []; rewrite app_nil_r|eauto]. Qed.

Lemma relative_app root l : is_relative_to (root ++ l) root = true.
Proof. unfold is_relative_to. apply bool_decide_eq_true_2. by rewrite take_app_length. Qed.

Lemma relative_schema root p : is_relative_to p (schema_root root) = true → is_relative_to p root = true.
Proof.
  destruct (schema_root_extends root) as [l ->]. unfold is_relative_to. intros H%bool_decide_eq_true_1.
  apply bool_decide_eq_true_2. rewrite <- (take_drop (length (root ++ l)) p), H, take_app_le by (rewrite length_app; lia).
  by rewrite take_app_length.
Qed.

Lemma relative_length p q : is_relative_to p q = true → (length q ≤ length p)%nat.
Proof. unfold is_relative_to. intros H%bool_decide_eq_true_1. rewrite <- H, length_take. lia. Qed.

(** The files a scan looks at, in both. *)
Definition agrees (root : path) (f f' : filesystem) : Prop :=
  dict_wf f' ∧
  (∀ p, special root p = true ∨ p = root ∨ p = schema_root root → dict_get p f' = dict_get p f) ∧
  filter (λ p, special root p = true) (map fst f') = filter (λ p, special root p = true) (map fst f).

Lemma agrees_refl root f : dict_wf f → agrees root f f.
Proof. intros ?. by split. Qed.
Lemma agrees_trans root f g h : agrees root f g → agrees root g h → agrees root f h.
Proof.
  intros (_ & G2 & G3) (H1 & H2 & H3). split; [done|]. split; [|by rewrite H3].
  intros p Hp. by rewrite H2, G2.
Qed.

Lemma harmless_get root x p :
  harmless root x → special root p = true ∨ p = root ∨ p = schema_root root → pyeq p x = false.
Proof.
  intros (H1 & H2 & H3) Hp. unfold pyeq, pyeq_of_eqdec. apply bool_decide_eq_false_2.
  intros ->. destruct Hp as [Hp|[Hp|Hp]]; congruence.
Qed.

Lemma dict_set_fst {V} (x : path) (v : V) d :
  map fst (dict_set x v d) = match dict_get x d with Some _ => map fst d | None => map fst d ++ [x] end.
Proof.
  destruct (dict_get x d) eqn:E; [by eapply dict_set_keys|]. rewrite dict_set_snoc by done. by rewrite map_app.
Qed.

Lemma agrees_set root x n f : dict_wf f → harmless root x → agrees root f (dict_set x n f).
Proof.
  intros Hf Hx. split; [by apply dict_wf_set|]. split.
  - intros p Hp. apply dict_get_set_ne. by eapply harmless_get.
  - rewrite dict_set_fst. destruct (dict_get x f); [done|].
    rewrite filter_app, filter_cons. destruct Hx as [Hx _]. rewrite decide_False by congruence. by rewrite app_nil_r.
Qed.

Lemma filter_dict_pop (P : path → Prop) `{∀ p, Decision (P p)} (x : path) (d : filesystem) :
  ¬ P x → filter P (map fst (dict_pop x d)) = filter P (map fst d).
Proof.
  intros Hx. induction d as [|[p n] d IH]; [done|]. simpl.
  destruct (pyeq x p) eqn:E; simpl.
  - apply bool_decide_eq_true_1 in E as <-. rewrite filter_cons, decide_False by done. done.
  - by rewrite !filter_cons, IH.
Qed.

Lemma agrees_pop root x f : dict_wf f → harmless root x → agrees root f (dict_pop x f).
Proof.
  intros Hf Hx. split; [by apply dict_wf_pop|]. split.
  - intros p Hp. apply dict_get_pop_ne. by eapply harmless_get.
  - apply filter_dict_pop. destruct Hx as [Hx _]. congruence.
Qed.

(** Making directories agrees, where the roots are directories. *)
Lemma keeps_make_one root f0 p :
  is_dir root f0 = true → is_dir (schema_root root) f0 = true →
  harmless root p ∨ p = root ∨ p = schema_root root →
  keepsM (agrees root f0) (make_one p) (λ _, True).
Proof.
  intros Hr Hs Hp f f' r Hf. unfold make_one, mbind, M_bind, getM.
  destruct (dict_get p f) as [[|c]|] eqn:E.
  - by intros [= <- <-].
  - by intros [= <- <-].
  - intros [= <- <-]. split; [|done]. destruct Hf as (W & G & L).
    assert (∀ q, is_dir q f0 = true → q = root ∨ q = schema_root root → dict_get q f ≠ None) as Hd.
    { intros q Hq Hq2. rewrite G by auto. unfold is_dir in Hq. by destruct (dict_get q f0). }
    destruct Hp as [Hp|[->| ->]].
    + eapply agrees_trans; [by split|]. by apply agrees_set.
    + by destruct (Hd root Hr ltac:(auto)).
    + by destruct (Hd _ Hs ltac:(auto)).
Qed.

Lemma short_harmless root p :
  (length p < length root)%nat → harmless root p.
Proof.
  intros Hl. destruct (schema_root_extends root) as [l E]. repeat split.
  - unfold special. destruct (is_relative_to p root) eqn:Er; [|done]. apply relative_length in Er. lia.
  - intros ->. lia.
  - rewrite E. intros ->. rewrite length_app in Hl. lia.
Qed.

Lemma schema_prefixes root n :
  let p := take n (schema_root root) in harmless root p ∨ p = root ∨ p = schema_root root.
Proof.
  cbn zeta. destruct (decide (n < length root)%nat) as [Hn|Hn].
  { left. apply short_harmless. rewrite length_take. lia. }
  right. unfold schema_root. case_bool_decide as E; [left; by rewrite take_ge by lia|].
  rewrite take_app_ge by lia. destruct (decide (n = length root)) as [->|].
  - left. by rewrite Nat.sub_diag, app_nil_r.
  - right. f_equal. rewrite take_ge; [done|simpl; lia].
Qed.

Lemma below_harmless root names n :
  names ≠ [] → last names = Some n → plain_name n = true → harmless root (schema_root root ++ names).
Proof.
  intros Hne Hl Hn. unfold plain_name in Hn. apply andb_true_iff in Hn as [Hp%negb_true_iff Hs%negb_true_iff].
  assert (last (schema_root root ++ names) = Some n) as Hlast by by rewrite last_app, Hl.
  split; [|split].
  - unfold special. rewrite Hlast, Hp, Hs. by rewrite andb_false_r.
  - destruct (schema_root_extends root) as [l ->]. intros E. apply (f_equal length) in E.
    rewrite !length_app in E. destruct names; [done|simpl in E; lia].
  - intros E. apply (f_equal length) in E. rewrite length_app in E. destruct names; [done|simpl in E; lia].
Qed.

(** A directory of plain names below the schema root. *)
Lemma keeps_mkdir root f0 names :
  is_dir root f0 = true → is_dir (schema_root root) f0 = true → Forall (λ n, plain_name n = true) names →
  keepsM (agrees root f0) (mkdir (schema_root root ++ names)) (λ _, True).
Proof.
  intros Hr Hs Hn. apply keeps_forM. intros p Hp. apply list_elem_of_fmap in Hp as (n & -> & _).
  apply keeps_make_one; [done|done|].
  destruct (decide (n ≤ length (schema_root root))%nat) as [Hle|Hle].
  - rewrite take_app_le by done. apply schema_prefixes.
  - rewrite take_app_ge by lia. destruct names as [|y names].
    { right. right. by rewrite take_nil, app_nil_r. }
    destruct (n - length (schema_root root))%nat as [|k'] eqn:Ek; [lia|]. rewrite <- Ek. set (k := (n - _)%nat) in *.
    remember (y :: names) as l eqn:El.
    left. destruct (last (take k l)) as [x|] eqn:E.
    + apply (below_harmless _ _ x); [by intros E0; rewrite E0 in E|done|].
      rewrite Forall_forall in Hn. apply Hn. apply last_Some in E as [l' E].
      eapply elem_of_sublist; [|apply (sublist_take l k)]. rewrite E. apply elem_of_app. right. left.
    + apply last_None in E. rewrite El, Ek in E. done.
Qed.

(** ** Writing a file *)

Definition partition_names (p : string * string * string) : path :=
  ["date=" +:+ partition_value p.1.1; "symbol=" +:+ partition_value p.1.2; "scope=" +:+ partition_value p.2].
Definition plain_partition (p : string * string * string) : Prop :=
  Forall (λ n, plain_name n = true) (partition_names p).

Lemma snapshot_partition_plain s :
  canonical_perpetual (snapshot_symbol s) = true → plain_partition (feature_partition s).
Proof.
  intros H. repeat constructor; unfold feature_partition; simpl fst; simpl snd;
    [apply date_plain|by apply symbol_plain|apply scope_plain].
Qed.

Definition temporary_name (filename nonce : string) : string := "." +:+ filename +:+ "." +:+ nonce +:+ ".tmp".

Lemma temporary_plain filename nonce : plain_name (temporary_name filename nonce) = true.
Proof.
  apply (plain_last _ "p"); [|done|reflexivity]. unfold temporary_name. rewrite !chars_app, !app_assoc. by rewrite last_app.
Qed.

Lemma keeps_agrees_modify root f0 x n :
  harmless root x → keepsM (agrees root f0) (modifyM (dict_set x n)) (λ _, True).
Proof.
  intros Hx. apply keeps_modify. intros f Hf. eapply agrees_trans; [exact Hf|]. apply agrees_set; [apply Hf|done].
Qed.

Lemma keeps_fault {P : filesystem → Prop} fault p : keepsM P (fault_point fault p) (λ _, True).
Proof. eapply keeps_mono; [apply keeps_require|done]. Qed.

Lemma keeps_write_table root f0 x content fault :
  harmless root x → keepsM (agrees root f0) (write_table x content fault) (λ _, True).
Proof.
  intros Hx. apply keeps_bind with (Q := λ _, True); [eapply keeps_mono; [apply keeps_get|done]|intros f _].
  apply keeps_bind with (Q := λ _, True); [eapply keeps_mono; [apply keeps_require|done]|intros _ _].
  apply keeps_bind with (Q := λ _, True); [by apply keeps_agrees_modify|intros _ _].
  apply keeps_bind with (Q := λ _, True); [apply keeps_fault|intros _ _]. by apply keeps_agrees_modify.
Qed.

Section write.
Context {Codec : FeatureCodec}.

Lemma filename_parquet ordered name : part_filename ordered = Ok name → parquet_name name = true.
Proof.
  unfold part_filename. destruct (head ordered), (last ordered); try done. intros [= <-].
  by repeat apply parquet_name_app.
Qed.

Lemma special_file root names name :
  parquet_name name = true → special root ((schema_root root ++ names) ++ [name]) = true.
Proof.
  intros H. unfold special. rewrite last_snoc, H. rewrite andb_true_r.
  destruct (schema_root_extends root) as [l ->]. rewrite <- !app_assoc, relative_app. simpl.
  rewrite bool_decide_eq_false_2; [done|]. intros E. apply (f_equal length) in E.
  rewrite !length_app in E. simpl in E. lia.
Qed.

(** The two renames of a write: it replaces the destination, or leaves nothing a scan
    would see. *)
Lemma place_spec root f0 f temporary destination content fault g r :
  agrees root f0 f → harmless root temporary → special root destination = true →
  (_ ← write_table temporary content fault;
   _ ← fault_point fault ReplaceFails;
   replace_file temporary destination) f = (g, r) →
  match r with
  | Err _ => agrees root f0 g
  | Ok _ => ∃ h, agrees root f0 h ∧ g = dict_set destination (File (Some content)) h ∧ dict_get temporary g = None
  end.
Proof.
  intros Hf Ht Hd H. destruct r as [[]|e].
  - apply bindM_Ok in H as (f1 & [] & Hw & H). apply bindM_Ok in H as (f2 & [] & Hfault & H).
    apply requireM_Ok in Hfault as [_ ->].
    assert (agrees root f0 f1) as Hf1 by (by eapply (keeps_write_table root f0 temporary content fault Ht) in Hw as [? _]).
    unfold write_table in Hw. inv_M. unfold replace_file in H. apply bindM_Ok in H as (f3 & f4 & [= <- <-] & H).
    rewrite dict_get_set_eq in H by apply pyeq_refl. destruct (dict_get destination _) as [[|c]|]; [done|..];
      injection H as <-; eexists; (split; [|split; [done|]]).
    1, 3: eapply agrees_trans; [exact Hf1|by apply agrees_pop, Ht; apply Hf1].
    all: rewrite dict_get_set_ne; [apply dict_get_pop_eq; [apply Hf1|apply pyeq_refl]|].
    all: apply bool_decide_eq_false_2; intros ->; destruct Ht as [Ht _]; congruence.
  - apply bindM_Err in H as [Hw|(f1 & [] & Hw & H)]; (eapply (keeps_write_table root f0) in Hw as [Hf1 _]; [|done|done]).
    + done.
    + apply bindM_Err in H as [Hfault|(f2 & [] & Hfault & H)].
      * unfold fault_point, requireM, liftM in Hfault. by injection Hfault as <- _.
      * apply requireM_Ok in Hfault as [_ ->]. unfold replace_file, mbind, M_bind, getM in H.
        destruct (dict_get temporary f1), (dict_get destination f1) as [[|c]|]; by injection H as <-.
Qed.

Lemma finallyM_run {S A} (m : M S A) c s s' r :
  finallyM m c s = (s', r) → ∃ s1, m s = (s1, r) ∧ s' = c s1.
Proof. unfold finallyM. destruct (m s) as [s1 r1]. intros [= <- <-]. eauto. Qed.

(** [_write_partition_file]: on an exception a scan sees what it saw before; otherwise the
    file of its name holds the rows in order. *)
Lemma write_file_spec nonce fault root part l f f' r :
  dict_wf f → is_dir root f = true → is_dir (schema_root root) f = true → plain_partition part →
  write_partition_file nonce fault root part l f = (f', r) →
  match r with
  | Err _ => agrees root f f'
  | Ok dest => ∃ name g, part_filename (py_sorted file_leb l) = Ok name ∧
      dest = partition_directory root part ++ [name] ∧ agrees root f g ∧
      f' = dict_set dest (File (Some (partition_file (py_sorted file_leb l)))) g
  end.
Proof.
  intros Hwf Hr Hs Hp H. unfold write_partition_file in H. set (ordered := py_sorted file_leb l) in *.
  change (partition_directory root part) with (schema_root root ++ partition_names part) in *.
  assert (agrees root f f) as Hf by by apply agrees_refl.
  destruct r as [dest|e].
  - apply bindM_Ok in H as (f1 & [] & [_ ->]%requireM_Ok & H).
    apply bindM_Ok in H as (f2 & [] & Hmk & H).
    apply (keeps_mkdir root f _ Hr Hs Hp) in Hmk as [Hf2 _]; [|done].
    apply bindM_Ok in H as (f3 & name & [Hname ->]%liftM_Ok & H). cbn zeta in H.
    apply bindM_Ok in H as (f4 & [] & [_ ->]%requireM_Ok & H).
    apply bindM_Ok in H as (f5 & [] & Hfin & [= <- <-]).
    apply finallyM_run in Hfin as (g & Hg & ->).
    eapply (place_spec root f) in Hg as (h & Hh & -> & Ht); [| | |].
    + exists name, h. split; [done|]. split; [done|]. split; [done|].
      unfold path_exists. by rewrite Ht.
    + done.
    + rewrite <- app_assoc. apply (below_harmless _ _ (temporary_name name nonce)); [done|by rewrite last_snoc|apply temporary_plain].
    + apply special_file. by eapply filename_parquet.
  - apply bindM_Err in H as [H|(f1 & [] & [_ ->]%requireM_Ok & H)].
    { unfold fault_point, requireM, liftM in H. by injection H as <- _. }
    apply bindM_Err in H as [H|(f2 & [] & Hmk & H)].
    { by apply (keeps_mkdir root f _ Hr Hs Hp) in H as [? _]. }
    apply (keeps_mkdir root f _ Hr Hs Hp) in Hmk as [Hf2 _]; [|done].
    apply bindM_Err in H as [H|(f3 & name & [Hname ->]%liftM_Ok & H)].
    { unfold liftM in H. by injection H as <- _. }
    cbn zeta in H. apply bindM_Err in H as [H|(f4 & [] & [_ ->]%requireM_Ok & H)].
    { unfold requireM, liftM in H. by injection H as <- _. }
    apply bindM_Err in H as [Hfin|(f5 & [] & Hfin & H)]; [|discriminate H].
    assert (harmless root ((schema_root root ++ partition_names part) ++ [temporary_name name nonce])) as Hh.
    { rewrite <- app_assoc. apply (below_harmless _ _ (temporary_name name nonce)); [done|by rewrite last_snoc|apply temporary_plain]. }
    apply finallyM_run in Hfin as (g & Hg & ->).
    eapply (place_spec root f) in Hg; [|done|exact Hh|apply special_file; by eapply filename_parquet].
    destruct (path_exists _ g); [|done]. eapply agrees_trans; [exact Hg|]. apply agrees_pop; [apply Hg|exact Hh].
Qed.
End write.

(** ** Sound trees *)

Lemma filter_of_filter {A} (P Q : A → Prop) `{∀ x, Decision (P x), ∀ x, Decision (Q x)} (l : list A) :
  (∀ x, P x → Q x) → filter P (filter Q l) = filter P l.
Proof.
  intros HPQ. induction l as [|x l IH]; [done|]. rewrite (filter_cons Q), (filter_cons P).
  destruct (decide (Q x)), (decide (P x)); rewrite ?filter_cons, ?IH; try by rewrite ?decide_True, ?decide_False by done.
  exfalso. auto.
Qed.

Lemma special_intro root p t :
  is_relative_to p root = true → p ≠ root → default false (t <$> last p) = true →
  (∀ n, t n = true → parquet_name n || schema_name n = true) → special root p = true.
Proof.
  intros H1 H2 H3 Ht. unfold special. rewrite H1, bool_decide_eq_false_2 by done. simpl.
  destruct (last p) as [n|]; [|done]. by apply Ht.
Qed.

Lemma agrees_rglob root f f' base t :
  agrees root f f' → base = root ∨ base = schema_root root →
  (∀ n, t n = true → parquet_name n || schema_name n = true) →
  rglob t base f' = rglob t base f ∧ (∀ p, p ∈ rglob t base f → dict_get p f' = dict_get p f).
Proof.
  intros (_ & Hg & Hl) Hb Ht.
  assert (∀ p, is_relative_to p base = true ∧ p ≠ base ∧ default false (t <$> last p) = true → special root p = true) as Hsp.
  { intros p (H1 & H2 & H3). destruct Hb as [-> | ->]; [by eapply special_intro|].
    eapply special_intro; [by apply relative_schema| |exact H3|exact Ht]. intros ->.
    apply relative_length in H1 as Hn. destruct (schema_root_extends root) as [l E]. rewrite E in *.
    destruct l as [|x l]; [by rewrite app_nil_r in H2|]. rewrite length_app in Hn. simpl in Hn. lia. }
  unfold rglob. split.
  - rewrite <- (filter_of_filter _ (λ p, special root p = true) (map fst f')) by exact Hsp.
    rewrite Hl. by apply filter_of_filter.
  - intros p [Hp _]%list_elem_of_filter. apply Hg. left. by apply Hsp.
Qed.

Section sound.
Context {Codec : FeatureCodec}.

(** The tree is as the writer leaves it, and holds [recs]. *)
Record sound (root : path) (f : filesystem) (recs : list PersistedFeatureRecord) : Prop := {
  so_wf : dict_wf f;
  so_root : is_dir root f = true;
  so_schema : is_dir (schema_root root) f = true;
  so_dirs : ∀ p, p ∈ rglob schema_name root f → is_dir p f = true → p = schema_root root;
  so_files : ∀ p, p ∈ rglob parquet_name root f → is_relative_to p (schema_root root) = true;
  so_rows : ∃ rss, mapR (λ p, read_file (schema_root root) p f) (rglob parquet_name (schema_root root) f) = Ok rss ∧
    Forall (λ rs, rs ≠ [] ∧ stable_sorted rs) rss ∧ recs = concat rss;
  so_ids : NoDup (map rec_id recs) }.

Lemma sound_agrees root f f' recs : sound root f recs → agrees root f f' → sound root f' recs.
Proof.
  intros [W R S D F (rss & Hrss & Hall & E) N] A.
  assert (∀ n, schema_name n = true → parquet_name n || schema_name n = true) as Ts by (intros n ->; apply orb_true_r).
  assert (∀ n, parquet_name n = true → parquet_name n || schema_name n = true) as Tp by by intros n ->.
  destruct (agrees_rglob root f f' root schema_name A ltac:(auto) Ts) as [E1 G1].
  destruct (agrees_rglob root f f' root parquet_name A ltac:(auto) Tp) as [E2 G2].
  destruct (agrees_rglob root f f' (schema_root root) parquet_name A ltac:(auto) Tp) as [E3 G3].
  destruct A as (W' & G & _). split.
  - done.
  - unfold is_dir in *. by rewrite G by auto.
  - unfold is_dir in *. by rewrite G by auto.
  - intros p Hp Hd. rewrite E1 in Hp. apply D; [done|]. unfold is_dir in *. by rewrite <- G1.
  - intros p Hp. rewrite E2 in Hp. by apply F.
  - exists rss. split; [|done]. rewrite E3. rewrite <- Hrss. apply mapR_ext. intros p Hp.
    unfold read_file, open_feature_file, open_parquet. by rewrite G3.
  - done.
Qed.

Lemma rglob_add t base x n f :
  dict_get x f = None →
  rglob t base (dict_set x n f) =
  rglob t base f ++ filter (λ p, is_relative_to p base = true ∧ p ≠ base ∧ default false (t <$> last p) = true) [x].
Proof. intros H. unfold rglob. by rewrite dict_set_fst, H, filter_app. Qed.

(** A file of sorted rows that read back adds its records. *)
Lemma sound_add root f recs names name content rs :
  sound root f recs → parquet_name name = true → schema_name name = false →
  let dest := (schema_root root ++ names) ++ [name] in
  dict_get dest f = None → schema_matches content = true →
  mapR (λ r, record_from_row r dest (schema_root root)) (pq_rows content) = Ok rs →
  rs ≠ [] → stable_sorted rs → NoDup (map rec_id (recs ++ rs)) →
  sound root (dict_set dest (File (Some content)) f) (recs ++ rs).
Proof.
  intros [W R S D F (rss & Hrss & Hall & E) N] Hp Hsn dest Hd Hm Hr Hne Hs Hn.
  assert (∀ p, dict_get p f ≠ None → dict_get p (dict_set dest (File (Some content)) f) = dict_get p f) as Hget.
  { intros p Hx. apply dict_get_set_ne. apply bool_decide_eq_false_2. congruence. }
  assert (∀ p, is_dir p f = true → is_dir p (dict_set dest (File (Some content)) f) = true) as Hdir.
  { intros p Hx. unfold is_dir in *. rewrite Hget; [done|]. by destruct (dict_get p f). }
  assert (is_relative_to dest (schema_root root) = true) as Hrel by (unfold dest; rewrite <- app_assoc; apply relative_app).
  assert (∀ t base p, p ∈ rglob t base f → dict_get p f ≠ None) as Hin.
  { intros t base p [_ Hpf]%list_elem_of_filter Hx. apply list_elem_of_fmap in Hpf as ([q n] & -> & Hq). simpl in Hx.
    apply (proj1 (dict_get_None_elem _ _) Hx) in Hq. by rewrite pyeq_refl in Hq. }
  split.
  - by apply dict_wf_set.
  - auto.
  - auto.
  - intros p Hpin Hpd. rewrite rglob_add in Hpin by done. apply elem_of_app in Hpin as [Hpin|Hpin].
    + apply D; [done|]. unfold is_dir in *. by rewrite <- Hget by by eapply Hin.
    + apply list_elem_of_filter in Hpin as [(_ & _ & Ht) ->%list_elem_of_singleton].
      unfold dest in Ht. rewrite last_snoc in Ht. simpl in Ht. congruence.
  - intros p Hpin. rewrite rglob_add in Hpin by done. apply elem_of_app in Hpin as [Hpin|Hpin]; [by apply F|].
    by apply list_elem_of_filter in Hpin as [_ ->%list_elem_of_singleton].
  - exists (rss ++ [rs]). rewrite rglob_add by done. rewrite concat_app. simpl. rewrite app_nil_r, E. split; [|split; [|done]].
    + apply mapR_app.
      * rewrite <- Hrss. apply mapR_ext. intros p Hpin. unfold read_file, open_feature_file, open_parquet.
        by rewrite Hget by by eapply Hin.
      * rewrite filter_cons, decide_True; [|split; [done|]; split].
        -- simpl. unfold read_file, open_feature_file, open_parquet. rewrite dict_get_set_eq by apply pyeq_refl.
           simpl. rewrite Hm. simpl. by rewrite Hr.
        -- unfold dest. intros Eq. apply (f_equal length) in Eq. rewrite !length_app in Eq. simpl in Eq. lia.
        -- unfold dest. by rewrite last_snoc.
    + apply Forall_app. split; [done|]. by constructor.
  - done.
Qed.
End sound.

(** ** What a written partition adds *)

Lemma schema_root_idem root : schema_root (schema_root root) = schema_root root.
Proof.
  unfold schema_root at 1. rewrite bool_decide_eq_true_2; [done|]. unfold schema_root.
  case_bool_decide as E; [done|]. by rewrite last_snoc.
Qed.

Lemma path_parent_snoc (p : path) n : path_parent (p ++ [n]) = p.
Proof. unfold path_parent. rewrite length_app. simpl. rewrite Nat.add_sub. apply take_app_length. Qed.

Section written.
Context {Codec : FeatureCodec} {Laws : PayloadLaws}.
Context (config_hash strategy_version : string) (Hconfig : sha256_pattern config_hash = true).

(** An envelope of a valid snapshot of a canonical symbol. *)
Definition storable (e : FeatureEnvelope) : Prop :=
  valid_snapshot (env_snapshot e) ∧ canonical_perpetual (snapshot_symbol (env_snapshot e)) = true ∧
  envelope config_hash strategy_version (env_snapshot e) = Ok e.

Abbreviation env_id := (λ e, snapshot_id (env_snapshot e)).

Lemma sorted_partition p part l :
  Forall (λ e, feature_partition (env_snapshot e) = part) l →
  map (record_of p) (py_sorted file_leb l) = py_sorted stable_leb (map (record_of p) l).
Proof using Type.
  intros Hp. rewrite Forall_forall in Hp. rewrite py_sorted_map. f_equal. apply py_sorted_ext. intros x y Hx Hy.
  unfold file_leb, stable_leb. cbn [rec_snapshot record_of]. f_equal. apply file_order_stable.
  by rewrite (Hp x Hx), (Hp y Hy).
Qed.

Lemma stable_leb_false x y : stable_leb x y = false → stable_leb y x = true.
Proof using Type. destruct (stable_leb_total x y); congruence. Qed.

Lemma sound_write root f recs nonce fault part l f' dest :
  sound root f recs → l ≠ [] → Forall storable l →
  Forall (λ e, feature_partition (env_snapshot e) = part) l →
  write_partition_file nonce fault root part l f = (f', Ok dest) →
  dict_get dest f = None → NoDup (map rec_id recs ++ map env_id l) →
  sound root f' (recs ++ map (record_of dest) (py_sorted file_leb l)).
Proof using Laws Hconfig.
  intros So Hne Hst Hpart Hw Hfresh Hn.
  assert (plain_partition part) as Hplain.
  { destruct l as [|e l]; [done|]. apply Forall_cons in Hst as [(_ & Hc & _) _]. apply Forall_cons in Hpart as [<- _].
    by apply snapshot_partition_plain. }
  apply write_file_spec in Hw as (name & g & Hname & -> & Hg & ->); [|apply So..|done].
  change (partition_directory root part) with (schema_root root ++ partition_names part) in *.
  assert (parquet_name name = true) as Hpn by by eapply filename_parquet.
  apply sound_add; [by eapply sound_agrees|done| | |done| | | |].
  - unfold part_filename in Hname. destruct (head (py_sorted file_leb l)); [|done].
    destruct (last (py_sorted file_leb l)); [|done]. by injection Hname as <-.
  - destruct Hg as (_ & Hg & _). rewrite Hg; [done|]. left. by apply special_file.
  - cbn [partition_file pq_rows]. rewrite mapR_Ok, Forall2_fmap_l, Forall2_fmap_r. apply Forall_Forall2_diag. apply Forall_forall. intros e He. rewrite py_sorted_elem in He.
    rewrite Forall_forall in Hst, Hpart. destruct (Hst e He) as (Hv & _ & Hen).
    apply (row_round_trip config_hash strategy_version (env_snapshot e)); [done|done|done|].
    rewrite path_parent_snoc, (Hpart e He). unfold partition_directory. by rewrite schema_root_idem.
  - intros E%(f_equal length). rewrite length_map, (Permutation_length (py_sorted_perm _ l)) in E. by destruct l.
  - rewrite (sorted_partition _ part) by done. apply py_sorted_sorted; [apply stable_leb_false|apply stable_leb_trans].
  - rewrite map_app, map_map. cbn [rec_id rec_snapshot record_of].
    assert (map (λ e, snapshot_id (env_snapshot e)) (py_sorted file_leb l) ≡ₚ map env_id l) as Hp
      by (apply fmap_Permutation, py_sorted_perm).
    change (map (λ x, rec_id (record_of _ x)) ?m) with (map env_id m). by rewrite Hp.
Qed.
End written.

(** ** The index as a set of entries *)

Abbreviation entry := (UUID * (string * string * string) * persistence)%type.

(** The table has exactly these entries, one for an identifier. *)
Definition represents (t : index_table) (l : list entry) : Prop :=
  NoDup (map (λ x, x.1.1) l) ∧
  ∀ k r, t !! k = Some r ↔ ∃ id, k = uuid_text id ∧ (id, ix_identity r, ix_state r) ∈ l.

Lemma represents_lookup t l id r :
  represents t l → t !! uuid_text id = Some r ↔ (id, ix_identity r, ix_state r) ∈ l.
Proof. intros [_ H]. rewrite H. split; [|by eauto]. by intros (id' & ->%(inj uuid_text) & Hin). Qed.

Lemma represents_unique l id i1 s1 i2 s2 :
  NoDup (map (λ x : entry, x.1.1) l) → (id, i1, s1) ∈ l → (id, i2, s2) ∈ l → i1 = i2 ∧ s1 = s2.
Proof.
  intros Hn H1 H2. apply list_elem_of_lookup in H1 as [i Hi], H2 as [j Hj].
  assert (i = j) as ->; [|rewrite Hi in Hj; by injection Hj].
  apply (NoDup_lookup _ i j id Hn); by rewrite list_lookup_fmap, ?Hi, ?Hj.
Qed.

Lemma represents_None t l id :
  represents t l → t !! uuid_text id = None ↔ id ∉ map (λ x, x.1.1) l.
Proof.
  intros [Hn H]. split.
  - intros E Hin. apply list_elem_of_fmap in Hin as ([[id' i] s] & E1 & Hin). simpl in E1. subst id'.
    assert (t !! uuid_text id = Some {| ix_identity := i; ix_state := s |}) as E2 by (apply H; by exists id). congruence.
  - intros Hid. destruct (t !! uuid_text id) as [r|] eqn:E; [|done]. apply H in E as (id' & ->%(inj uuid_text) & Hin).
    exfalso. apply Hid. by apply (list_elem_of_fmap_2 (λ x : entry, x.1.1)) in Hin.
Qed.

Lemma represents_perm t l1 l2 : l1 ≡ₚ l2 → represents t l1 → represents t l2.
Proof. intros Hp [Hn H]. split; [by rewrite <- Hp|]. intros k r. rewrite H. by setoid_rewrite Hp. Qed.

Lemma represents_empty : represents ∅ [].
Proof. split; [constructor|]. intros k r. rewrite lookup_empty. split; [done|]. by intros (? & _ & ?%elem_of_nil). Qed.

Lemma represents_insert t l id i s :
  represents t l → id ∉ map (λ x, x.1.1) l →
  represents (<[uuid_text id := {| ix_identity := i; ix_state := s |}]> t) ((id, i, s) :: l).
Proof.
  intros [Hn H] Hid. split; [by constructor|]. intros k r. destruct (decide (uuid_text id = k)) as [<-|Hk].
  - rewrite lookup_insert_eq. split.
    + intros [= <-]. exists id. split; [done|left].
    + intros (id' & ->%(inj uuid_text) & Hin). apply elem_of_cons in Hin as [[= <- <-]|Hin]; [by destruct r|].
      exfalso. apply Hid. by apply (list_elem_of_fmap_2 (λ x : entry, x.1.1)) in Hin.
  - rewrite lookup_insert_ne, H by done. split.
    + intros (id' & -> & Hin). exists id'. split; [done|by right].
    + intros (id' & -> & [[= -> _ _]|Hin]%elem_of_cons); [done|eauto].
Qed.

(** Entries leave the table together. *)
Lemma represents_filter t l (P : entry → Prop) `{∀ x, Decision (P x)} t' :
  represents t l →
  (∀ id i s, (id, i, s) ∈ l → t' !! uuid_text id = if decide (P (id, i, s)) then Some {| ix_identity := i; ix_state := s |} else None) →
  (∀ k, t !! k = None → t' !! k = None) →
  represents t' (filter P l).
Proof.
  intros [Hn Ht] H1 H2. split.
  { eapply sublist_NoDup; [exact Hn|]. apply (fmap_sublist (λ x : entry, x.1.1)), sublist_filter. }
  intros k r. split.
  - intros E. destruct (t !! k) as [r0|] eqn:Ek; [|by rewrite H2 in E]. apply Ht in Ek as (id & -> & Hin).
    rewrite (H1 _ _ _ Hin) in E. case_decide as HP; [|done]. injection E as <-. exists id. split; [done|].
    apply list_elem_of_filter. by split.
  - intros (id & -> & [HP Hin]%list_elem_of_filter). rewrite (H1 _ _ _ Hin), decide_True by done. by destruct r.
Qed.

Section rebuild.
Context {Codec : FeatureCodec}.

Definition committed_entries (l : list PersistedFeatureRecord) : list entry :=
  map (λ r, (rec_id r, rec_identity r, COMMITTED)) l.

Lemma committed_ids l : map (λ x : entry, x.1.1) (committed_entries l) = map rec_id l.
Proof. unfold committed_entries. by rewrite map_map. Qed.

Lemma index_records_spec t l0 l :
  represents t l0 → NoDup (map (λ x : entry, x.1.1) l0 ++ map rec_id l) →
  ∃ t', index_records t l = Ok t' ∧ represents t' (l0 ++ committed_entries l).
Proof.
  revert t l0. induction l as [|r l IH]; intros t l0 Ht Hn.
  - exists t. split; [done|]. simpl. by rewrite app_nil_r.
  - cbn [map] in Hn. apply NoDup_app in Hn as (N1 & N2 & N3). apply NoDup_cons in N3 as [N3 N4].
    assert (rec_id r ∉ map (λ x : entry, x.1.1) l0) as Hr by (intros Hin; apply (N2 _ Hin); left).
    cbn [index_records]. unfold index_record. rewrite (proj2 (represents_None t l0 (rec_id r) Ht) Hr).
    destruct (IH _ _ (represents_insert t l0 (rec_id r) (rec_identity r) COMMITTED Ht Hr)) as (t' & Ht' & Hrep).
    { cbn [map fst]. rewrite <- app_comm_cons. constructor; [rewrite elem_of_app; by intros [?|?]|].
      apply NoDup_app. split; [done|]. split; [|done]. intros x Hx Hx2. apply (N2 x Hx). by right. }
    exists t'. split; [done|]. eapply represents_perm; [|exact Hrep].
    rewrite <- app_comm_cons. by rewrite Permutation_middle.
Qed.

Lemma index_streams_spec root rd f files rss t l0 :
  rd_schema_root rd = schema_root root → (0 < rd_batch_size rd)%nat →
  mapR (λ p, read_file (schema_root root) p f) files = Ok rss → Forall stable_sorted rss →
  represents t l0 → NoDup (map (λ x : entry, x.1.1) l0 ++ map rec_id (concat rss)) →
  ∃ t', index_streams t (map (λ p, file_records rd p no_filter f) files) = Ok t' ∧
    represents t' (l0 ++ committed_entries (concat rss)).
Proof.
  intros Hrd Hb. revert rss t l0. induction files as [|p files IH]; intros rss t l0 Hr Hs Ht Hn.
  - injection Hr as <-. exists t. split; [done|]. simpl. by rewrite app_nil_r.
  - cbn [mapR] in Hr. apply bind_Ok in Hr as (rs & Hrs & Hr). apply bind_Ok in Hr as (rss' & Hr & [= <-]).
    apply Forall_cons in Hs as [Hs1 Hs]. cbn [concat] in Hn. rewrite map_app, app_assoc in Hn.
    assert (exhaust (file_records rd p no_filter f) = Ok (matching no_filter rs)) as He
      by (apply file_records_spec; [done|]; rewrite Hrd; eauto).
    rewrite list_filter_all in He by (by apply Forall_forall).
    unfold exhaust in He. destruct (failure _) eqn:Ef; [done|]. injection He as He.
    cbn [map index_streams]. rewrite He, Ef.
    destruct (index_records_spec t l0 rs Ht) as (t1 & -> & Ht1); [by apply NoDup_app in Hn as [? _]|].
    cbn [mbind res_bind]. destruct (IH rss' t1 (l0 ++ committed_entries rs) Hr Hs Ht1) as (t' & Ht' & Hrep).
    { by rewrite map_app, committed_ids. }
    exists t'. split; [done|]. cbn [concat]. unfold committed_entries in *. by rewrite map_app, app_assoc.
Qed.

Lemma sound_layout root f recs b :
  sound root f recs → (b = false → rglob parquet_name root f ≠ []) →
  ∃ n, validate_layout root b f = Ok (schema_root root, n) ∧ n = Z.of_nat (length (rglob parquet_name root f)).
Proof.
  intros [W R S D F _ _] Hb. unfold validate_layout.
  assert (∀ p, is_dir p f = true → path_exists p f = true) as Hd.
  { intros p. unfold is_dir, path_exists. by destruct (dict_get p f). }
  rewrite !Hd by done. cbn [negb]. rewrite R, S. cbn [require mbind res_bind].
  assert (forallb (λ p, negb (is_dir p f && negb (bool_decide (p = schema_root root)))) (rglob schema_name root f) = true) as ->.
  { apply forallb_forall. intros p Hp%list_elem_of_In. destruct (is_dir p f) eqn:E; [|done]. simpl.
    by rewrite bool_decide_eq_true_2 by by apply D. }
  assert (forallb (λ p, is_relative_to p (schema_root root)) (rglob parquet_name root f) = true) as ->
    by (apply forallb_forall; intros p Hp%list_elem_of_In; by apply F).
  cbn [require mbind res_bind].
  destruct (rglob parquet_name root f) as [|p l] eqn:E; [|by eexists].
  destruct b; [by eexists|]. by destruct (Hb eq_refl).
Qed.

Lemma sound_files root f recs p :
  sound root f recs → p ∈ rglob parquet_name root f ↔ p ∈ rglob parquet_name (schema_root root) f.
Proof.
  intros [_ _ S _ F _ _]. unfold rglob in *. rewrite !list_elem_of_filter. split.
  - intros [(H1 & H2 & H3) Hp]. split; [|done]. split; [apply F, list_elem_of_filter; by split|]. split; [|done].
    intros ->. clear H1. unfold schema_root in H2, H3.
    case_bool_decide; [by destruct H2|]. by rewrite last_snoc in H3.
  - intros [(H1 & H2 & H3) Hp]. split; [|done]. split; [by apply relative_schema|]. split; [|done].
    intros ->. apply relative_length in H1. destruct (schema_root_extends root) as [l E]. rewrite E in *.
    rewrite length_app in H1. destruct l; [by rewrite app_nil_r in H2|simpl in H1; lia].
Qed.

(** The rebuilt index has the rows of the tree, committed. *)
Lemma rebuild_spec root f recs :
  sound root f recs →
  ∃ t, rebuild_feature_index root f = Ok t ∧ represents t (committed_entries recs).
Proof.
  intros So. destruct (sound_layout root f recs true So ltac:(done)) as (n & Hl & Hn).
  unfold rebuild_feature_index. rewrite Hl. cbn [mbind res_bind snd fst].
  pose proof So as [W R S D F (rss & Hrss & Hall & ->) N].
  destruct (Z.eqb_spec n 0) as [E|E].
  - assert (rglob parquet_name (schema_root root) f = []) as E2.
    { destruct (rglob parquet_name (schema_root root) f) as [|p l] eqn:E3; [done|].
      assert (p ∈ rglob parquet_name root f) as Hp by (apply (sound_files root f _ p So); rewrite E3; left).
      destruct (rglob parquet_name root f); [by apply elem_of_nil in Hp|simpl in Hn; lia]. }
    rewrite E2 in Hrss. injection Hrss as <-. exists ∅. split; [done|]. apply represents_empty.
  - assert (∃ rd, mk_reader root default_batch_size = Ok rd ∧ rd_schema_root rd = schema_root root ∧
              (0 < rd_batch_size rd)%nat) as (rd & Hmk & Hrd & Hb)
      by (eexists; split; [reflexivity|]; split; [done|]; unfold default_batch_size; cbn [rd_batch_size]; lia).
    rewrite Hmk. cbn [mbind res_bind].
    destruct (index_streams_spec root rd f (rglob parquet_name (schema_root root) f) rss ∅ []) as (t & Ht & Hrep);
      [done|done|done|by eapply Forall_impl; [exact Hall|]; intros ? []|apply represents_empty|done|].
    simpl app in Hrep. rewrite Ht. cbn [mbind res_bind]. exists t. split; [|done].
    rewrite bool_decide_eq_false_2; [done|]. intros ->.
    destruct rss as [|rs rss].
    { destruct (rglob parquet_name (schema_root root) f) as [|p l] eqn:E3.
      - destruct (rglob parquet_name root f) as [|p l] eqn:E4; [simpl in Hn; lia|].
        assert (p ∈ rglob parquet_name (schema_root root) f) as Hp by (apply (sound_files root f _ p So); rewrite E4; left).
        rewrite E3 in Hp. by apply elem_of_nil in Hp.
      - apply mapR_length in Hrss. done. }
    apply Forall_cons in Hall as [[Hne _] _]. destruct rs as [|r rs]; [done|].
    assert ((∅ : index_table) !! uuid_text (rec_id r) = Some {| ix_identity := rec_identity r; ix_state := COMMITTED |}) as E3.
    { apply (represents_lookup _ _ _ {| ix_identity := rec_identity r; ix_state := COMMITTED |} Hrep). left. }
    by rewrite lookup_empty in E3.
Qed.

Lemma Forall_concat_perm {A} (P : list A → Prop) l1 l2 : l1 ≡ₚ l2 → Forall P l1 → Forall P l2.
Proof. by intros ->. Qed.

Lemma concat_perm {A} (l1 l2 : list (list A)) : l1 ≡ₚ l2 → concat l1 ≡ₚ concat l2.
Proof.
  induction 1 as [|x l1 l2 _ IH|x y l|]; simpl; [done|by rewrite IH| |by etransitivity].
  rewrite !app_assoc. f_equiv. apply Permutation_app_comm.
Qed.

(** A scan of a sound tree gives its records, in the stable order. *)
Lemma sound_scan root f recs n rd :
  sound root f recs → recs ≠ [] → mk_reader root n = Ok rd →
  scan rd no_filter f = Ok (py_sorted stable_leb recs).
Proof.
  intros So Hne Hrd. pose proof So as [W R S D F (rss & Hrss & Hall & ->) N].
  assert (rglob parquet_name root f ≠ []) as Hfiles.
  { intros E. destruct rss as [|rs rss]; [done|]. apply mapR_length in Hrss.
    destruct (rglob parquet_name (schema_root root) f) as [|p l] eqn:E2; [done|].
    assert (p ∈ rglob parquet_name root f) as Hp by (apply (sound_files root f _ p So); rewrite E2; left).
    rewrite E in Hp. by apply elem_of_nil in Hp. }
  destruct (sound_layout root f _ false So ltac:(done)) as (k & Hl & _).
  destruct (mapR_perm _ _ (tree_files root f) rss Hrss) as (rss' & Hrss' & Hp).
  { unfold tree_files. symmetry. apply py_sorted_perm. }
  apply (scan_exact root n _ _ _ _ Hrd). rewrite Hl. split; [done|]. exists rss'.
  pose proof (concat_perm _ _ Hp) as Hc.
  assert (matching no_filter (concat rss') = concat rss') as Em by by apply list_filter_all, Forall_forall.
  rewrite Em. split; [done|]. split.
  { apply (Forall_concat_perm _ _ _ Hp). eapply Forall_impl; [exact Hall|]. by intros ? []. }
  split; [intros E; by rewrite E, Permutation_nil_r in Hc|].
  split; [by rewrite <- Hc|]. 
  apply sorted_unique; [by rewrite py_sorted_perm|by rewrite <- Hc|].
  apply py_sorted_sorted; [apply stable_leb_false|apply stable_leb_trans].
Qed.
End rebuild.
