(* ===== verification/FeatureWriter.v ===== *)
(** * The writer of the feature store

    [storage/features.py: AsyncFeatureParquetWriter] with the disk and the claims on
    roots it works on.  Each operation is the code between two suspension points of the
    event loop, and [step] runs them in any order the locks and the queue allow: callers
    of [write] one at a time, the worker between its awaits, the close.  The timers of
    the worker are steps of their own; a process may be killed at any point.  SQLite is a
    table that does not fail; the database and the lock file are not entries of the
    disk. *)

From S2P Require Import Prelude Effects PyDecimal PyFloat PyTime Models FeatureModels FeatureRuntime Fingerprint FeatureRows FeatureTree.
From Stdlib Require Import Ascii.
Open Scope Z_scope.

Abbreviation partition_key := (string * string * string)%type.

(** ** State *)

Inductive FeatureWriteStatus := ACCEPTED | DEDUPLICATED.
Inductive queue_item := Submission (e : FeatureEnvelope) | STOP.

(** The task [_run]: waiting for an item, flushing (the partitions to do, the file just
    placed for the first of them, whether it is the last flush), or done. *)
Inductive worker_task :=
| NotStarted
| Collecting (batch : list FeatureEnvelope)
| Flushing (todo : list (partition_key * list FeatureEnvelope)) (placed : option path) (final : bool)
| Returned
| Died (e : exn).

(** The task [_close_lifecycle]: not created, waiting for the locks, waiting for the
    worker, done. *)
Inductive close_stage := NotClosing | CloseRequested | CloseWaiting | CloseDone (r : res unit).

Record WriterSettings := {
  ws_root : path;
  ws_batch_rows : Z;
  ws_queue_capacity : Z;
  ws_deduplication_capacity : Z;
  ws_config_hash : string;
  ws_strategy_version : string;
  ws_on_backpressure : option (PersistableFeatureSnapshot → res unit) }.

Record AsyncFeatureParquetWriter := {
  queue : list queue_item;
  task : worker_task;
  stage : close_stage;
  w_closed : bool;
  putting : option queue_item;
  accepted_count : Z;
  deduplicated_count : Z;
  written_count : Z;
  written_files : Z;
  flush_count : Z;
  backpressure_events : Z;
  last_file : option path;
  last_error : option exn;
  deduplication : list (UUID * (string * string * string));
  index : option index_table;
  root_claim : bool }.

(** The files, the claimed roots of the host, and the writer. *)
Record Store := { disk : filesystem; claims : gset path; wr : AsyncFeatureParquetWriter }.

Definition writer_init : AsyncFeatureParquetWriter :=
  {| queue := []; task := NotStarted; stage := NotClosing; w_closed := false; putting := None;
     accepted_count := 0; deduplicated_count := 0; written_count := 0; written_files := 0;
     flush_count := 0; backpressure_events := 0; last_file := None; last_error := None;
     deduplication := []; index := None; root_claim := false |}.

(** [__init__]. *)
Definition mk_writer (c : WriterSettings) (flush_seconds : float) : res AsyncFeatureParquetWriter :=
  _ ← require (1 <=? ws_batch_rows c) (ValueError "feature batch_rows must be positive");
  _ ← require (negb (fleb flush_seconds f0)) (ValueError "feature flush_seconds must be positive");
  _ ← require (1 <=? ws_queue_capacity c) (ValueError "feature queue_capacity must be positive");
  _ ← require (1 <=? ws_deduplication_capacity c)
        (ValueError "feature deduplication_capacity must be positive");
  Ok writer_init.

(** ** The index *)

Definition INDEX_TRANSACTION_ROWS : nat := 1000%nat.

(** [UPDATE ... SET 'COMMITTED' WHERE ... AND 'PENDING'] of one row. *)
Definition commit_row (t : index_table) (e : FeatureEnvelope) : res index_table :=
  let key := uuid_text (snapshot_id (env_snapshot e)) in
  _ ← require (bool_decide (t !! key = Some {| ix_identity := content_identity e; ix_state := PENDING |}))
        (FeatureParquetError "feature deduplication reservation disappeared before commit");
  Ok (<[key := {| ix_identity := content_identity e; ix_state := COMMITTED |}]> t).
Fixpoint commit_rows (t : index_table) (l : list FeatureEnvelope) : res index_table :=
  match l with
  | [] => Ok t
  | e :: l => t ← commit_row t e; commit_rows t l
  end.
(** A transaction for each chunk: one that fails is rolled back. *)
Fixpoint commit_chunks (l : list (list FeatureEnvelope)) : M index_table unit :=
  match l with
  | [] => mret tt
  | chunk :: l =>
    t ← getM;
    t ← liftM (commit_rows t chunk);
    _ ← modifyM (λ _, t);
    commit_chunks l
  end.

Definition pending_keys (t : index_table) : list string :=
  map fst (filter (λ x, ix_state x.2 = PENDING) (map_to_list t)).
Definition delete_keys (keys : list string) (t : index_table) : index_table :=
  foldl (λ t k, delete k t) t keys.
(** [DELETE ... LIMIT 1000] until fewer rows go. *)
Fixpoint delete_pending (fuel : nat) (t : index_table) : index_table :=
  match fuel with
  | O => t
  | S fuel =>
    let keys := take INDEX_TRANSACTION_ROWS (pending_keys t) in
    let t := delete_keys keys t in
    if (length keys =? INDEX_TRANSACTION_ROWS)%nat then delete_pending fuel t else t
  end.

(** [grouped] and [sorted(grouped)]. *)
Definition add_to_group : list (partition_key * list FeatureEnvelope) → FeatureEnvelope →
    list (partition_key * list FeatureEnvelope) :=
  group_step (λ e, feature_partition (env_snapshot e)).
Definition partition_compare (a b : partition_key) : comparison :=
  lex (String.compare a.1.1 b.1.1) (lex (String.compare a.1.2 b.1.2) (String.compare a.2 b.2)).
Definition groups (l : list FeatureEnvelope) : list (partition_key * list FeatureEnvelope) :=
  py_sorted (λ a b, leb_of (partition_compare a.1 b.1)) (foldl add_to_group [] l).

Section writer.
Context {Codec : FeatureCodec} (c : WriterSettings).

Abbreviation SM := (M Store).
Definition getW : SM AsyncFeatureParquetWriter := s ← getM; mret (wr s).
Definition modifyW (f : AsyncFeatureParquetWriter → AsyncFeatureParquetWriter) : SM unit :=
  modifyM (λ s, {| s with wr := f (wr s) |}).
Definition on_disk {A} (m : M filesystem A) : SM A := zoomM disk (λ f s, {| s with disk := f |}) m.

Definition full (w : AsyncFeatureParquetWriter) : bool :=
  ws_queue_capacity c <=? Z.of_nat (length (queue w)).
Definition worker_done (w : AsyncFeatureParquetWriter) : bool :=
  match task w with Returned | Died _ => true | _ => false end.

Definition not_closing (w : AsyncFeatureParquetWriter) : bool :=
  match stage w with NotClosing => true | _ => false end.
Definition has_task (w : AsyncFeatureParquetWriter) : bool :=
  match task w with NotStarted => false | _ => true end.

(** ** Life of the index and of the claim *)

Definition close_index : SM unit := modifyW (λ w, {| w with index := None |}).
Definition release_root_claim : SM unit :=
  w ← getW;
  _ ← modifyW (λ w, {| w with root_claim := false |});
  if root_claim w then modifyM (λ s, {| s with claims := claims s ∖ {[ claim_path (ws_root c) ]} |})
  else mret tt.
Definition acquire_root_claim : SM unit :=
  s ← getM;
  _ ← requireM (negb (bool_decide (claim_path (ws_root c) ∈ claims s)))
        (FeatureParquetError "feature dataset root is already claimed");
  _ ← modifyM (λ s, {| s with claims := {[ claim_path (ws_root c) ]} ∪ claims s |});
  modifyW (λ w, {| w with root_claim := true |}).

Definition require_index : SM index_table :=
  w ← getW;
  match index w with
  | Some t => mret t
  | None => raiseM (FeatureParquetError "feature deduplication index is not open")
  end.
Definition set_index (t : index_table) : SM unit := modifyW (λ w, {| w with index := Some t |}).

Definition rollback_all_pending : SM unit :=
  w ← getW;
  match index w with
  | None => mret tt
  | Some t => set_index (delete_pending (S (size t)) t)
  end.

(** [try: m except Exception: c; raise wrapped]. *)
Definition on_exception {A} (m : SM A) (wrap : exn → exn) (cleanup : SM unit) : SM A :=
  λ s, match m s with
       | (s, Ok a) => (s, Ok a)
       | (s, Err e) => match cleanup s with
                       | (s, Ok _) => (s, Err (wrap e))
                       | (s, Err e) => (s, Err e)
                       end
       end.

(** [start], of which nothing else of this writer runs meanwhile. *)
Definition writer_start_all : SM unit :=
  w ← getW;
  _ ← requireM (negb (w_closed w)) (FeatureParquetError "cannot restart a closed feature writer");
  _ ← requireM (not_closing w)
        (FeatureParquetError "cannot start a closing feature writer");
  match task w with
  | NotStarted =>
    on_exception
      (_ ← on_disk (mkdir (index_base (ws_root c)));
       _ ← acquire_root_claim;
       _ ← on_disk (mkdir (schema_root (ws_root c)));
       s ← getM;
       t ← liftM (rebuild_feature_index (ws_root c) (disk s));
       _ ← set_index t;
       modifyW (λ w, {| w with task := Collecting [] |}))
      (λ _, FeatureParquetError "cannot initialize feature writer")
      (_ ← close_index; release_root_claim)
  | _ => mret tt
  end.

(** ** Reservations *)

Definition remember_identity (id : UUID) (identity : string * string * string) : SM unit :=
  modifyW (λ w, {| w with deduplication :=
    lastn (Z.to_nat (ws_deduplication_capacity c)) (dict_pop id (deduplication w) ++ [(id, identity)]) |}).

(** [_reserve]: whether the snapshot is new. *)
Definition reserve (e : FeatureEnvelope) : SM bool :=
  let id := snapshot_id (env_snapshot e) in
  let identity := content_identity e in
  w ← getW;
  existing ← match dict_get id (deduplication w) with
             | Some known => mret (Some known)
             | None =>
               t ← require_index;
               match t !! uuid_text id with
               | Some r => mret (Some (ix_identity r))
               | None =>
                 _ ← set_index (<[uuid_text id := {| ix_identity := identity; ix_state := PENDING |}]> t);
                 mret None
               end
             end;
  match existing with
  | Some known =>
    _ ← requireM (bool_decide (known = identity))
          (FeatureParquetError "duplicate feature_snapshot_id has different content");
    _ ← remember_identity id identity;
    mret false
  | None => _ ← remember_identity id identity; mret true
  end.

Definition rollback_reservation (e : FeatureEnvelope) : SM unit :=
  let id := snapshot_id (env_snapshot e) in
  t ← require_index;
  _ ← set_index (match t !! uuid_text id with
                 | Some r => if bool_decide (ix_state r = PENDING) then delete (uuid_text id) t else t
                 | None => t
                 end);
  modifyW (λ w, if bool_decide (dict_get id (deduplication w) = Some (content_identity e))
                then {| w with deduplication := dict_pop id (deduplication w) |} else w).

Definition mark_committed (l : list FeatureEnvelope) : SM unit :=
  t ← require_index;
  match commit_chunks (chunks INDEX_TRANSACTION_ROWS l) t with
  | (t, r) => _ ← set_index t; liftM r
  end.

(** ** Putting items *)

Definition raise_worker_failure : SM unit :=
  w ← getW;
  match task w with
  | Died _ => raiseM (FeatureParquetError "feature writer failed")
  | _ => mret tt
  end.

Definition enqueue (item : queue_item) : SM unit :=
  modifyW (λ w, {| w with queue := queue w ++ [item] |}).

(** [_put_or_worker_failure] up to its wait: whether the item is in the queue. *)
Definition begin_put (item : queue_item) : SM bool :=
  w ← getW;
  match task w with
  | NotStarted => raiseM (FeatureParquetError "feature writer is not running")
  | _ =>
    if full w then _ ← modifyW (λ w, {| w with putting := Some item |}); mret false
    else _ ← enqueue item; mret true
  end.

(** ** [write] *)

Definition count_accepted : SM unit :=
  modifyW (λ w, {| w with accepted_count := accepted_count w + 1 |}).

Definition writable (w : AsyncFeatureParquetWriter) : SM unit :=
  _ ← requireM (negb (w_closed w)) (FeatureParquetError "cannot write after close");
  _ ← requireM (not_closing w) (FeatureParquetError "cannot write after close begins");
  requireM (has_task w)
    (FeatureParquetError "start the feature writer before writing").

Definition note_backpressure (s : PersistableFeatureSnapshot) : SM unit :=
  w ← getW;
  if full w then
    _ ← modifyW (λ w, {| w with backpressure_events := backpressure_events w + 1 |});
    match ws_on_backpressure c with
    | None => mret tt
    | Some callback =>
      match callback s with
      | Ok _ => mret tt
      | Err _ => raiseM (FeatureParquetError "feature backpressure callback failed")
      end
    end
  else mret tt.

(** A call of [write] that holds the lock, up to its return or its wait in the queue
    ([None]). *)
Definition write (s : PersistableFeatureSnapshot) : SM (option FeatureWriteStatus) :=
  w ← getW;
  _ ← writable w;
  _ ← raise_worker_failure;
  e ← liftM (envelope (ws_config_hash c) (ws_strategy_version c) s);
  fresh ← reserve e;
  if negb fresh then
    _ ← modifyW (λ w, {| w with deduplicated_count := deduplicated_count w + 1 |});
    mret (Some DEDUPLICATED)
  else
    queued ← on_exception (_ ← note_backpressure s; begin_put (Submission e)) id (rollback_reservation e);
    if queued : bool then _ ← count_accepted; mret (Some ACCEPTED) else mret None.

(** The end of a wait in the queue: there is room, or the worker is done. *)
Definition resume_put : SM (option FeatureWriteStatus) :=
  w ← getW;
  match putting w with
  | None => mret None
  | Some item =>
    _ ← modifyW (λ w, {| w with putting := None |});
    if negb (full w) then
      _ ← enqueue item;
      _ ← match item with Submission _ => count_accepted | STOP => mret tt end;
      _ ← raise_worker_failure;
      mret (Some ACCEPTED)
    else
      _ ← match item with Submission e => rollback_reservation e | STOP => mret tt end;
      _ ← raise_worker_failure;
      raiseM (FeatureParquetError "feature writer stopped unexpectedly")
  end.

(** A caller cancelled while it waits. *)
Definition cancel_put : SM (option FeatureWriteStatus) :=
  w ← getW;
  match putting w with
  | Some (Submission e) =>
    _ ← modifyW (λ w, {| w with putting := None |});
    _ ← rollback_reservation e;
    raiseM CancelledError
  | _ => mret None
  end.

(** ** The worker *)

Definition set_task (t : worker_task) : SM unit := modifyW (λ w, {| w with task := t |}).

(** [except BaseException] of [_run]. *)
Definition worker_dies (e : exn) : SM unit :=
  _ ← modifyW (λ w, {| w with last_error := Some e |});
  _ ← rollback_all_pending;
  set_task (Died e).

Definition after_flush (final : bool) : SM unit := set_task (if final then Returned else Collecting []).

Definition begin_flush (batch : list FeatureEnvelope) (final : bool) : SM unit :=
  match batch with
  | [] => after_flush final
  | _ => set_task (Flushing (groups batch) None final)
  end.

Definition worker_get : SM unit :=
  w ← getW;
  match task w, queue w with
  | Collecting batch, item :: q =>
    _ ← modifyW (λ w, {| w with queue := q |});
    match item with
    | STOP => begin_flush batch true
    | Submission e =>
      let batch := batch ++ [e] in
      if ws_batch_rows c <=? Z.of_nat (length batch) then begin_flush batch false
      else set_task (Collecting batch)
    end
  | _, _ => mret tt
  end.

Definition worker_timeout : SM unit :=
  w ← getW;
  match task w with Collecting batch => begin_flush batch false | _ => mret tt end.

(** The thread that writes the next partition. *)
Definition worker_place (nonce : string) (fault : option write_fault) : SM unit :=
  w ← getW;
  match task w with
  | Flushing ((part, l) :: todo) None final =>
    r ← attempt (on_disk (write_partition_file nonce fault (ws_root c) part l));
    match r with
    | Ok p => set_task (Flushing ((part, l) :: todo) (Some p) final)
    | Err e => worker_dies e
    end
  | _ => mret tt
  end.

Definition count_written (p : path) (l : list FeatureEnvelope) : SM unit :=
  modifyW (λ w, {| w with last_file := Some p; written_files := written_files w + 1;
                          written_count := written_count w + Z.of_nat (length l) |}).

(** What follows the thread on the event loop. *)
Definition worker_commit : SM unit :=
  w ← getW;
  match task w with
  | Flushing ((part, l) :: todo) (Some p) final =>
    r ← attempt (mark_committed l);
    match r with
    | Err e => worker_dies e
    | Ok _ =>
      _ ← count_written p l;
      match todo with
      | [] => _ ← modifyW (λ w, {| w with flush_count := flush_count w + 1 |}); after_flush final
      | _ => set_task (Flushing todo None final)
      end
    end
  | _ => mret tt
  end.

(** ** [close] *)

Definition close_begin : SM unit :=
  modifyW (λ w, {| w with stage := match stage w with NotClosing => CloseRequested | st => st end |}).

Definition finish_close (r : res unit) : SM unit :=
  _ ← rollback_all_pending;
  _ ← close_index;
  _ ← release_root_claim;
  modifyW (λ w, {| w with w_closed := true; stage := CloseDone r |}).

(** [_close_lifecycle] once it has the locks. *)
Definition close_enter : SM unit :=
  w ← getW;
  match task w with
  | NotStarted =>
    _ ← close_index;
    _ ← release_root_claim;
    modifyW (λ w, {| w with w_closed := true; stage := CloseDone (Ok tt) |})
  | Died _ => finish_close (Err (FeatureParquetError "feature writer failed"))
  | _ =>
    _ ← begin_put STOP;
    modifyW (λ w, {| w with stage := CloseWaiting |})
  end.

(** The worker awaited by the close is done. *)
Definition close_finish : SM unit :=
  w ← getW;
  match task w with
  | Returned => finish_close (Ok tt)
  | _ => finish_close (Err (FeatureParquetError "feature writer failed"))
  end.

(** ** Steps *)

(** A killed process leaves the disk, perhaps with an unfinished temporary file; its
    claim on the root goes with it.  A new writer is made. *)
Definition interrupted_write (nonce : string) (w : AsyncFeatureParquetWriter) (f : filesystem)
    : filesystem :=
  match task w with
  | Flushing ((part, l) :: _) None _ =>
    let directory := partition_directory (ws_root c) part in
    match part_filename (py_sorted file_leb l) with
    | Ok filename =>
      ((_ ← mkdir directory;
        write_table (directory ++ ["." +:+ filename +:+ "." +:+ nonce +:+ ".tmp"])
          (partition_file (py_sorted file_leb l)) (Some WriteFails)) f).1
    | Err _ => f
    end
  | _ => f
  end.

Definition crash (interrupted : option string) : SM unit :=
  s ← getM;
  let f := match interrupted with Some nonce => interrupted_write nonce (wr s) (disk s) | None => disk s end in
  modifyM (λ s, {| disk := f;
                   claims := if root_claim (wr s) then claims s ∖ {[ claim_path (ws_root c) ]} else claims s;
                   wr := writer_init |}).

Inductive label :=
| LStart
| LWrite (s : PersistableFeatureSnapshot)
| LResume
| LCancel
| LGet
| LTimeout
| LPlace (nonce : string) (fault : option write_fault)
| LCommit
| LClose
| LCloseEnter
| LCloseFinish
| LCrash (interrupted : option string).

Definition ignore {A} (m : SM A) : SM (option FeatureWriteStatus) := _ ← m; mret None.

Definition run_label (l : label) : SM (option FeatureWriteStatus) :=
  match l with
  | LStart => ignore writer_start_all
  | LWrite s => write s
  | LResume => resume_put
  | LCancel => cancel_put
  | LGet => ignore worker_get
  | LTimeout => ignore worker_timeout
  | LPlace nonce fault => ignore (worker_place nonce fault)
  | LCommit => ignore worker_commit
  | LClose => ignore close_begin
  | LCloseEnter => ignore close_enter
  | LCloseFinish => ignore close_finish
  | LCrash interrupted => ignore (crash interrupted)
  end.

(** When the locks and the queue let a step happen. *)
Definition enabled (l : label) (s : Store) : bool :=
  let w := wr s in
  match l with
  | LStart => true
  | LWrite _ => is_none (putting w) || w_closed w || negb (not_closing w) || negb (has_task w)
  | LResume => negb (is_none (putting w)) && (negb (full w) || worker_done w)
  | LCancel => match putting w with Some (Submission _) => true | _ => false end
  | LGet => match task w, queue w with Collecting _, _ :: _ => true | _, _ => false end
  | LTimeout => match task w with Collecting _ => true | _ => false end
  | LPlace _ _ => match task w with Flushing (_ :: _) None _ => true | _ => false end
  | LCommit => match task w with Flushing (_ :: _) (Some _) _ => true | _ => false end
  | LClose | LCrash _ => true
  | LCloseEnter => is_none (putting w) && match stage w with CloseRequested => true | _ => false end
  | LCloseFinish => worker_done w && is_none (putting w) && match stage w with CloseWaiting => true | _ => false end
  end.

Inductive step (s : Store) (l : label) : Store → Prop :=
| step_label : enabled l s = true → step s l (run_label l s).1.

(** The file a step would write is not there already: names end in 64 bits of the SHA-256
    of their content, and a name that is taken is replaced with what it held. *)
Definition fresh_target (s : Store) (l : label) : bool :=
  match l, task (wr s) with
  | LPlace _ _, Flushing ((part, e) :: _) None _ =>
    match part_filename (py_sorted file_leb e) with
    | Ok name => is_none (dict_get (partition_directory (ws_root c) part ++ [name]) (disk s))
    | Err _ => true
    end
  | _, _ => true
  end.
End writer.
