(* ===== verification/FeatureStore.v ===== *)
(** * The feature store keeps its promises

    The invariant of the writer of [FeatureWriter] over any interleaving of its steps,
    and what follows from it: what was accepted is on disk or on its way there, once;
    what the disk holds after a crash is what a restart takes as known; and [write] does
    not depend on what its cache has forgotten. *)

From S2P Require Import Prelude Effects PyDecimal PyFloat Models FeatureModels FeatureRuntime Fingerprint FeatureRows FeatureTree FeatureScan FeatureAudit FeatureDisk FeatureWriter.
Open Scope Z_scope.

(** ** The transactions of the index *)

Lemma delete_keys_lookup keys t k :
  delete_keys keys t !! k = if bool_decide (k ∈ keys) then None else t !! k.
Proof.
  unfold delete_keys. revert t. induction keys as [|x keys IH]; intros t; [done|]. simpl. rewrite IH.
  destruct (decide (k = x)) as [->|Hk].
  - rewrite lookup_delete_eq, (bool_decide_eq_true_2 (x ∈ x :: keys)) by left. by case_bool_decide.
  - rewrite lookup_delete_ne by done. rewrite (bool_decide_ext (k ∈ x :: keys) (k ∈ keys)); [done|].
    rewrite elem_of_cons. split; [by intros [?|?]|by right].
Qed.

Lemma pending_keys_spec t k :
  k ∈ pending_keys t ↔ ∃ r, t !! k = Some r ∧ ix_state r = PENDING.
Proof.
  unfold pending_keys. rewrite list_elem_of_fmap. split.
  - intros ([k' r] & -> & [Hp Hin]%list_elem_of_filter). exists r. split; [|done]. by apply elem_of_map_to_list.
  - intros (r & Hr & Hp). exists (k, r). split; [done|]. apply list_elem_of_filter. split; [done|]. by apply elem_of_map_to_list.
Qed.

Lemma pending_keys_NoDup t : NoDup (pending_keys t).
Proof.
  unfold pending_keys. eapply sublist_NoDup; [apply (NoDup_fst_map_to_list t)|]. apply (fmap_sublist fst), sublist_filter.
Qed.

Lemma pending_keys_size t : (length (pending_keys t) ≤ size t)%nat.
Proof.
  unfold pending_keys. rewrite length_map. etransitivity; [apply length_filter|]. by rewrite length_map_to_list.
Qed.

(** The loop ends with every pending row, and no other, gone. *)
Lemma delete_pending_spec fuel t :
  (length (pending_keys t) < fuel)%nat →
  ∀ k, delete_pending fuel t !! k =
    match t !! k with Some r => if bool_decide (ix_state r = PENDING) then None else Some r | None => None end.
Proof.
  revert t. induction fuel as [|fuel IH]; intros t Hf k; [lia|]. cbn [delete_pending].
  set (keys := take INDEX_TRANSACTION_ROWS (pending_keys t)). set (t' := delete_keys keys t).
  assert (∀ k, t' !! k = if bool_decide (k ∈ keys) then None else t !! k) as Ht' by apply delete_keys_lookup.
  assert (∀ k, k ∈ keys → ∃ r, t !! k = Some r ∧ ix_state r = PENDING) as Hkeys.
  { intros x Hx. apply pending_keys_spec. eapply elem_of_sublist; [exact Hx|apply sublist_take]. }
  destruct (Nat.eqb_spec (length keys) INDEX_TRANSACTION_ROWS) as [Hl|Hl].
  - rewrite IH.
    + rewrite Ht'. case_bool_decide as Hk; [|done]. destruct (Hkeys k Hk) as (r & -> & Hr). by rewrite bool_decide_eq_true_2.
    + assert (pending_keys t' ⊆+ drop INDEX_TRANSACTION_ROWS (pending_keys t)) as Hsub%submseteq_length.
      { apply NoDup_submseteq; [apply pending_keys_NoDup|]. intros x (r & Hr & Hp)%pending_keys_spec. rewrite Ht' in Hr.
        case_bool_decide as Hx; [done|]. assert (x ∈ pending_keys t) as Hin by (apply pending_keys_spec; eauto).
        rewrite <- (take_drop INDEX_TRANSACTION_ROWS (pending_keys t)) in Hin. by apply elem_of_app in Hin as [?|?]. }
      rewrite length_drop in Hsub. unfold keys in Hl. rewrite length_take in Hl. unfold INDEX_TRANSACTION_ROWS in *. lia.
  - rewrite Ht'. assert (keys = pending_keys t) as Ek.
    { apply take_ge. unfold keys in Hl. rewrite length_take in Hl. lia. }
    rewrite Ek. case_bool_decide as Hk.
    + apply pending_keys_spec in Hk as (r & -> & Hr). by rewrite bool_decide_eq_true_2.
    + destruct (t !! k) as [r|] eqn:E; [|done]. rewrite bool_decide_eq_false_2; [done|]. intros Hr.
      apply Hk, pending_keys_spec. eauto.
Qed.

(** ** Entries *)

(** A snapshot with its content identity, as the index sees it. *)
Abbreviation item := (PersistableFeatureSnapshot * (string * string * string))%type.
Definition env_item (e : FeatureEnvelope) : item := (env_snapshot e, content_identity e).
Definition committed (x : item) : entry := (snapshot_id x.1, x.2, COMMITTED).
Definition pending (e : FeatureEnvelope) : entry := (snapshot_id (env_snapshot e), content_identity e, PENDING).
Abbreviation entry_id := (λ x : entry, x.1.1).
Abbreviation env_id := (λ e, snapshot_id (env_snapshot e)).

Lemma pending_ids l : map entry_id (map pending l) = map env_id l.
Proof. by rewrite map_map. Qed.
Lemma committed_item_ids l : map entry_id (map committed l) = map (λ x : item, snapshot_id x.1) l.
Proof. by rewrite map_map. Qed.

(** A reserved row is committed. *)
Lemma represents_commit t l1 l2 e :
  represents t (l1 ++ pending e :: l2) →
  ∃ t', commit_row t e = Ok t' ∧ represents t' (l1 ++ committed (env_item e) :: l2).
Proof.
  intros Ht. set (l := l1 ++ pending e :: l2) in *.
  assert (t !! uuid_text (env_id e) = Some {| ix_identity := content_identity e; ix_state := PENDING |}) as Hl.
  { apply (represents_lookup t l (env_id e) {| ix_identity := content_identity e; ix_state := PENDING |} Ht).
    apply elem_of_app. right. left. }
  unfold commit_row. rewrite bool_decide_eq_true_2 by done. eexists. split; [reflexivity|].
  destruct Ht as [Hn Ht]. unfold l in *.
  assert (map entry_id (l1 ++ committed (env_item e) :: l2) = map entry_id (l1 ++ pending e :: l2)) as Eids by (rewrite !map_app; done).
  split; [by rewrite Eids|]. intros k r. destruct (decide (uuid_text (env_id e) = k)) as [<-|Hk].
  - rewrite lookup_insert_eq. split.
    + intros [= <-]. exists (env_id e). split; [done|]. apply elem_of_app. right. left.
    + intros (id & <-%(inj uuid_text) & Hin).
      assert (committed (env_item e) ∈ l1 ++ committed (env_item e) :: l2) as Hc by (apply elem_of_app; right; left).
      destruct (represents_unique _ _ _ _ _ _ ltac:(by rewrite Eids) Hin Hc) as [E1 E2].
      destruct r. simpl in E1, E2. by subst.
  - rewrite lookup_insert_ne, Ht by done. split; intros (id & -> & Hin); exists id; (split; [done|]);
      apply elem_of_app in Hin as [Hin|[[= -> _ _]|Hin]%elem_of_cons]; try done; apply elem_of_app; (by left) || (by right; right).
Qed.

Lemma represents_commits t l1 l l2 :
  represents t (l1 ++ map pending l ++ l2) →
  ∃ t', commit_rows t l = Ok t' ∧ represents t' (l1 ++ map (λ e, committed (env_item e)) l ++ l2).
Proof.
  revert t l1. induction l as [|e l IH]; intros t l1 Ht; [by exists t|]. cbn [commit_rows map app] in *.
  destruct (represents_commit t l1 _ e Ht) as (t1 & -> & Ht1). cbn [mbind res_bind].
  destruct (IH t1 (l1 ++ [committed (env_item e)])) as (t' & -> & Ht'); [by rewrite <- app_assoc|].
  exists t'. split; [done|]. by rewrite <- app_assoc in Ht'.
Qed.

(** Chunk by chunk. *)
Lemma commit_chunks_spec t l1 chunks l2 :
  represents t (l1 ++ map pending (concat chunks) ++ l2) →
  ∃ t', commit_chunks chunks t = (t', Ok tt) ∧
    represents t' (l1 ++ map (λ e, committed (env_item e)) (concat chunks) ++ l2).
Proof.
  revert t l1. induction chunks as [|ch chunks IH]; intros t l1 Ht; [by exists t|].
  cbn [concat] in *. rewrite map_app, <- app_assoc in Ht.
  destruct (represents_commits t l1 ch _ Ht) as (t1 & E1 & Ht1).
  destruct (IH t1 (l1 ++ map (λ e, committed (env_item e)) ch)) as (t' & E' & Ht'); [by rewrite <- app_assoc|].
  exists t'. split.
  - cbn [commit_chunks]. unfold mbind, M_bind, getM, liftM, modifyM. by rewrite E1.
  - rewrite map_app, <- app_assoc. by rewrite <- app_assoc in Ht'.
Qed.

(** ** The invariant of a session, without the control state

    [P]: the envelopes of the file just placed; [M]: those accepted and in memory; [R]:
    the one that waits for room in the queue.  [C] is what the disk held before [P]. *)
Section store.
Context {Codec : FeatureCodec} {Laws : PayloadLaws} (c : WriterSettings).
Hypothesis Hconfig : sha256_pattern (ws_config_hash c) = true.

Abbreviation store_able := (storable (ws_config_hash c) (ws_strategy_version c)).
Abbreviation root := (ws_root c).
Abbreviation dedup_cache := (list (UUID * (string * string * string))).

Definition entries (C : list item) (l : list FeatureEnvelope) : list entry :=
  map committed C ++ map pending l.

(** The cache knows nothing the index does not. *)
Definition cache_sound (d : dedup_cache) (E : list entry) : Prop :=
  dict_wf d ∧ ∀ id i, dict_get id d = Some i → ∃ st, (id, i, st) ∈ E.

Record core (f : filesystem) (t : index_table) (d : dedup_cache) (P M R : list FeatureEnvelope)
    (base : list item) (adm : list FeatureEnvelope) : Prop := {
  co_tree : ∃ recs C, sound root f recs ∧ map logical recs ≡ₚ C ++ map env_item P ∧
    represents t (entries C (P ++ M ++ R)) ∧ map logical recs ++ map env_item M ≡ₚ base ++ map env_item adm ∧
    cache_sound d (entries C (P ++ M ++ R));
  co_storable : Forall store_able (P ++ M ++ R) }.

Lemma cache_sound_mono d E E' : (∀ x, x ∈ E → ∃ st, (x.1.1, x.1.2, st) ∈ E') → cache_sound d E → cache_sound d E'.
Proof using Type.
  intros Hsub [W H]. split; [done|]. intros id i Hd. destruct (H id i Hd) as (st & Hin).
  destruct (Hsub _ Hin) as (st' & Hin'). by exists st'.
Qed.

Lemma entries_perm C l l' : l ≡ₚ l' → entries C l ≡ₚ entries C l'.
Proof using Type. intros Hp. unfold entries. by rewrite Hp. Qed.

Lemma cache_sound_perm d E E' : E ≡ₚ E' → cache_sound d E → cache_sound d E'.
Proof using Type. intros Hp. apply cache_sound_mono. intros [[id i] st] Hin. exists st. by rewrite <- Hp. Qed.

Lemma core_perm f t d P M M' R base adm :
  M ≡ₚ M' → core f t d P M R base adm → core f t d P M' R base adm.
Proof using Type.
  intros Hp [(recs & C & So & H1 & H2 & H3 & H4) St]. split.
  - exists recs, C. assert (entries C (P ++ M ++ R) ≡ₚ entries C (P ++ M' ++ R)) as He by (apply entries_perm; by rewrite Hp).
    split; [done|]. split; [done|]. split; [by eapply represents_perm|].
    split; [by rewrite <- Hp|by eapply cache_sound_perm].
  - by rewrite <- Hp.
Qed.

Lemma core_disk f f' t d P M R base adm :
  agrees root f f' → core f t d P M R base adm → core f' t d P M R base adm.
Proof using Type.
  intros Ha [(recs & C & So & H) St]. split; [|done]. exists recs, C. split; [by eapply sound_agrees|done].
Qed.

(** The cache forgets. *)
Lemma lastn_sublist_dict (d : dedup_cache) n : dict_wf d → dict_wf (lastn n d).
Proof using Type. apply dict_wf_sublist, lastn_sublist. Qed.

Lemma dict_get_sublist (d1 d2 : dedup_cache) id i :
  sublist d1 d2 → dict_wf d2 → dict_get id d1 = Some i → dict_get id d2 = Some i.
Proof using Type.
  intros Hs Hw Hg. apply dict_get_elem in Hg as (k & Hin & E). apply bool_decide_eq_true_1 in E as <-.
  apply elem_dict_get; [done|]. by eapply elem_of_sublist.
Qed.

Definition remembered (id : UUID) (i : string * string * string) (d : dedup_cache) : dedup_cache :=
  lastn (Z.to_nat (ws_deduplication_capacity c)) (dict_pop id d ++ [(id, i)]).

Lemma cache_remember d E id i st :
  (id, i, st) ∈ E → cache_sound d E → cache_sound (remembered id i d) E.
Proof using Type.
  intros Hin [W H]. assert (dict_wf (dict_pop id d ++ [(id, i)])) as W2.
  { apply dict_wf_snoc; [by apply dict_wf_pop|]. apply dict_get_pop_eq; [done|apply pyeq_refl]. }
  split; [by apply lastn_sublist_dict|]. intros id' i' Hg.
  eapply dict_get_sublist in Hg; [|apply lastn_sublist|done].
  apply dict_get_elem in Hg as (k & Hk & E'). apply bool_decide_eq_true_1 in E' as <-.
  apply elem_of_app in Hk as [Hk|Hk%list_elem_of_singleton]; [|injection Hk as -> ->; eauto].
  apply H. apply elem_dict_get; [done|]. by eapply dict_pop_sub.
Qed.

Lemma core_remember f t d P M R base adm id i :
  core f t d P M R base adm → (∃ st, t !! uuid_text id = Some {| ix_identity := i; ix_state := st |}) →
  core f t (remembered id i d) P M R base adm.
Proof using Type.
  intros [(recs & C' & So & H1 & H2 & H3 & H4) St] (st & Ht). split; [|done]. exists recs, C'.
  split; [done|]. split; [done|]. split; [done|]. split; [done|].
  apply (cache_remember _ _ id i st); [|done].
  by apply (represents_lookup _ _ id {| ix_identity := i; ix_state := st |} H2).
Qed.

(** What the cache remembers, the table has. *)
Lemma core_cached f t d P M R base adm id i :
  core f t d P M R base adm → dict_get id d = Some i →
  ∃ st, t !! uuid_text id = Some {| ix_identity := i; ix_state := st |}.
Proof using Type.
  intros [(recs & C' & So & H1 & H2 & H3 & [_ H4]) St] Hd. destruct (H4 id i Hd) as (st & Hin).
  exists st. by apply (represents_lookup _ _ id {| ix_identity := i; ix_state := st |} H2).
Qed.

Lemma core_reserve f t d P M base adm e :
  core f t d P M [] base adm → store_able e → t !! uuid_text (env_id e) = None →
  core f (<[uuid_text (env_id e) := {| ix_identity := content_identity e; ix_state := PENDING |}]> t) d P M [e] base adm.
Proof using Type.
  intros [(recs & C & So & H1 & H2 & H3 & H4) St] He Ht. rewrite app_nil_r in *.
  apply (represents_None _ _ _ H2) in Ht.
  assert (pending e :: entries C (P ++ M) ≡ₚ entries C (P ++ M ++ [e])) as Hp.
  { unfold entries. rewrite (app_assoc P), (map_app pending (P ++ M)), app_assoc. apply Permutation_cons_append. }
  split.
  - exists recs, C. split; [done|]. split; [done|]. split; [|split; [done|]].
    + eapply represents_perm; [exact Hp|]. by apply represents_insert.
    + eapply cache_sound_perm; [exact Hp|]. eapply cache_sound_mono; [|exact H4].
      intros [[id i] st] Hin. exists st. by right.
  - rewrite app_assoc. apply Forall_app. split; [done|by constructor].
Qed.

Definition unreserved_row (e : FeatureEnvelope) (t : index_table) : index_table :=
  match t !! uuid_text (env_id e) with
  | Some r => if bool_decide (ix_state r = PENDING) then delete (uuid_text (env_id e)) t else t
  | None => t
  end.
Definition forgotten (e : FeatureEnvelope) (d : dedup_cache) : dedup_cache :=
  if bool_decide (dict_get (env_id e) d = Some (content_identity e)) then dict_pop (env_id e) d else d.

Lemma core_unreserve f t d P M base adm e :
  core f t d P M [e] base adm → core f (unreserved_row e t) (forgotten e d) P M [] base adm.
Proof using Type.
  intros [(recs & C & So & H1 & H2 & H3 & [W H4]) St]. rewrite (app_assoc P) in *.
  assert (entries C ((P ++ M) ++ [e]) = entries C (P ++ M) ++ [pending e]) as Ee by (unfold entries; by rewrite map_app, app_assoc).
  rewrite Ee in *. set (E := entries C (P ++ M)) in *.
  assert (t !! uuid_text (env_id e) = Some {| ix_identity := content_identity e; ix_state := PENDING |}) as Ht.
  { apply (represents_lookup _ _ _ {| ix_identity := content_identity e; ix_state := PENDING |} H2). apply elem_of_app. right. left. }
  assert (∀ x, x ∈ E → x.1.1 ≠ env_id e) as Hne.
  { intros x Hx Ex. destruct H2 as [Hn _]. rewrite map_app in Hn. apply NoDup_app in Hn as (_ & Hd & _).
    apply (Hd (x.1.1)); [by apply (list_elem_of_fmap_2 entry_id)|]. rewrite Ex. left. }
  assert (represents (unreserved_row e t) E) as Hrep.
  { unfold unreserved_row. rewrite Ht. cbn [ix_state]. rewrite bool_decide_eq_true_2 by done.
    assert (E = filter (λ x : entry, x.1.1 ≠ env_id e) (E ++ [pending e])) as ->.
    { rewrite filter_app, filter_cons, decide_False by (intros []; done). simpl. rewrite app_nil_r.
      rewrite list_filter_all; [done|]. by apply Forall_forall. }
    eapply represents_filter; [exact H2| |].
    - intros id i s Hin. cbn [fst]. destruct (decide (id ≠ env_id e)) as [Hid|Hid].
      + rewrite lookup_delete_ne by (intros Ek%(inj uuid_text); congruence).
        by apply (represents_lookup _ _ id {| ix_identity := i; ix_state := s |} H2).
      + apply dec_stable in Hid as ->. by rewrite lookup_delete_eq.
    - intros k Hk. by rewrite lookup_delete_None; right. }
  split.
  - exists recs, C. rewrite app_nil_r. fold E. split; [done|]. split; [done|]. split; [done|]. split; [done|].
    unfold forgotten. split; [case_bool_decide; [by apply dict_wf_pop|done]|]. intros id i Hg.
    assert (id ≠ env_id e ∧ dict_get id d = Some i) as [Hid Hd].
    { case_bool_decide as Hc.
      - destruct (pyeq id (env_id e)) eqn:Ep.
        + rewrite dict_get_pop_eq in Hg by done. done.
        + rewrite dict_get_pop_ne in Hg by done. split; [|done]. by apply bool_decide_eq_false_1 in Ep.
      - split; [|done]. intros ->. destruct (H4 _ _ Hg) as (st & Hin).
        assert (pending e ∈ E ++ [pending e]) as Hp by (apply elem_of_app; right; left).
        destruct (represents_unique _ _ _ _ _ _ (proj1 H2) Hin Hp) as [-> _]. done. }
    destruct (H4 _ _ Hd) as (st & Hin). exists st. apply elem_of_app in Hin as [?|[= -> _ _]%list_elem_of_singleton]; [done|].
    by destruct Hid.
  - rewrite app_nil_r. by apply Forall_app in St as [? _].
Qed.

Lemma core_accept f t d P M base adm e :
  core f t d P M [e] base adm → core f t d P (M ++ [e]) [] base (adm ++ [e]).
Proof using Type.
  intros [(recs & C & So & H1 & H2 & H3 & H4) St]. split; [|by rewrite app_nil_r].
  exists recs, C. rewrite app_nil_r. split; [done|]. split; [done|]. split; [done|]. split; [|done].
  by rewrite !map_app, !app_assoc, H3.
Qed.

Lemma record_items p l : map logical (map (record_of p) l) = map env_item l.
Proof using Type. by rewrite map_map. Qed.

Lemma logical_ids recs : map rec_id recs = map (λ x : item, snapshot_id x.1) (map logical recs).
Proof using Type. by rewrite map_map. Qed.

Lemma core_place nonce fault part f f' dest t d l M R base adm :
  core f t d [] (l ++ M) R base adm → l ≠ [] → Forall (λ e, feature_partition (env_snapshot e) = part) l →
  write_partition_file nonce fault root part l f = (f', Ok dest) → dict_get dest f = None →
  core f' t d l M R base adm.
Proof using Laws Hconfig.
  intros [(recs & C & So & H1 & H2 & H3 & H4) St] Hne Hpart Hw Hfresh. simpl in *. rewrite app_nil_r in H1.
  rewrite <- app_assoc in *. split; [|done].
  exists (recs ++ map (record_of dest) (py_sorted file_leb l)), C.
  assert (map env_item (py_sorted file_leb l) ≡ₚ map env_item l) as Hp by (apply fmap_Permutation, py_sorted_perm).
  split.
  - eapply (sound_write _ _ Hconfig); [done|done| |done|exact Hw|done|].
    + by apply Forall_app in St as [? _].
    + rewrite logical_ids, H1. destruct H2 as [Hn _]. unfold entries in Hn.
      rewrite !map_app, committed_item_ids, pending_ids in Hn. rewrite app_assoc in Hn.
      by apply NoDup_app in Hn as [? _].
  - rewrite !map_app, record_items, Hp, H1. split; [done|]. split; [done|]. split; [|done].
    rewrite <- H3, map_app, H1. by rewrite <- app_assoc.
Qed.

Lemma core_commit f t d l M R base adm :
  core f t d l M R base adm →
  ∃ t', commit_chunks (chunks INDEX_TRANSACTION_ROWS l) t = (t', Ok tt) ∧ core f t' d [] M R base adm.
Proof using Type.
  intros [(recs & C & So & H1 & H2 & H3 & H4) St].
  assert (entries C (l ++ M ++ R) = map committed C ++ map pending l ++ map pending (M ++ R)) as Ee
    by (unfold entries; by rewrite map_app).
  assert (map committed C ++ map (λ e, committed (env_item e)) l ++ map pending (M ++ R) = entries (C ++ map env_item l) (M ++ R)) as Ef.
  { unfold entries. by rewrite (map_app committed), map_map, <- app_assoc. }
  rewrite Ee in *.
  assert (concat (chunks INDEX_TRANSACTION_ROWS l) = l) as Hc by (apply chunks_concat; unfold INDEX_TRANSACTION_ROWS; lia).
  destruct (commit_chunks_spec t (map committed C) (chunks INDEX_TRANSACTION_ROWS l) (map pending (M ++ R)))
    as (t' & E' & Ht'); [by rewrite Hc|]. rewrite Hc, Ef in Ht'. exists t'. split; [done|]. split.
  - exists recs, (C ++ map env_item l). simpl. rewrite app_nil_r. split; [done|]. split; [done|]. split; [done|].
    split; [done|]. eapply cache_sound_mono; [|exact H4]. rewrite <- Ef. intros [[id i] st] Hin. cbn [fst snd].
    apply elem_of_app in Hin as [Hin|Hin]; [exists st; apply elem_of_app; by left|].
    apply elem_of_app in Hin as [Hin|Hin]; [|exists st; rewrite !elem_of_app; by right; right].
    apply list_elem_of_fmap in Hin as (e & [= -> -> ->] & He). exists COMMITTED. rewrite !elem_of_app. right. left.
    by apply (list_elem_of_fmap_2 (λ e, committed (env_item e))).
  - by apply Forall_app in St as [_ ?].
Qed.

(** Without a placed file, rolling back leaves the rows of the disk. *)
Lemma core_rollback f t d M R base adm :
  core f t d [] M R base adm →
  ∃ recs, sound root f recs ∧ map logical recs ++ map env_item M ≡ₚ base ++ map env_item adm ∧
    represents (delete_pending (S (size t)) t) (map committed (map logical recs)).
Proof using Type.
  intros [(recs & C & So & H1 & H2 & H3 & H4) St]. exists recs. split; [done|]. split; [done|]. simpl in *.
  rewrite app_nil_r in H1. assert (map committed C ≡ₚ map committed (map logical recs)) as Hp by (by apply fmap_Permutation).
  eapply represents_perm; [exact Hp|].
  assert (∀ k, delete_pending (S (size t)) t !! k = match t !! k with Some r => if bool_decide (ix_state r = PENDING) then None else Some r | None => None end) as Hd.
  { apply delete_pending_spec. pose proof (pending_keys_size t). lia. }
  assert (map committed C = filter (λ x : entry, x.2 = COMMITTED) (entries C (M ++ R))) as ->.
  { unfold entries. rewrite filter_app, list_filter_all, list_filter_none; [by rewrite app_nil_r|..];
      rewrite Forall_map; by apply Forall_forall. }
  eapply represents_filter; [exact H2| |].
  - intros id i st Hin. rewrite Hd.
    rewrite (proj2 (represents_lookup _ _ id {| ix_identity := i; ix_state := st |} H2) Hin). simpl. by destruct st.
  - intros k Hk. by rewrite Hd, Hk.
Qed.

(** ** The groups of a flush *)

Lemma groups_spec l :
  Forall (λ g, g.2 ≠ [] ∧ Forall (λ e, feature_partition (env_snapshot e) = g.1) g.2) (groups l) ∧
  concat (map snd (groups l)) ≡ₚ l.
Proof using Type.
  destruct (group_fold_spec (λ e, feature_partition (env_snapshot e)) l [] ltac:(constructor)) as [H1 H2].
  unfold groups, add_to_group. split.
  - by rewrite py_sorted_perm.
  - etransitivity; [|exact H2]. apply concat_perm, (fmap_Permutation snd), py_sorted_perm.
Qed.

(** ** The control state *)

Definition submission (i : queue_item) : option FeatureEnvelope :=
  match i with Submission e => Some e | STOP => None end.
Definition queued (w : AsyncFeatureParquetWriter) : list FeatureEnvelope := omap submission (queue w).
Definition waiting (w : AsyncFeatureParquetWriter) : list FeatureEnvelope :=
  match putting w with Some (Submission e) => [e] | _ => [] end.
Definition placed_now (t : worker_task) : list FeatureEnvelope :=
  match t with Flushing ((_, l) :: _) (Some _) _ => l | _ => [] end.
Definition to_place (t : worker_task) : list FeatureEnvelope :=
  match t with
  | Collecting batch => batch
  | Flushing todo None _ => concat (map snd todo)
  | Flushing todo (Some _) _ => concat (map snd (tail todo))
  | _ => []
  end.
(** Accepted, and not yet in a file. *)
Definition in_memory (w : AsyncFeatureParquetWriter) : list FeatureEnvelope := queued w ++ to_place (task w).

Definition only_submissions (w : AsyncFeatureParquetWriter) : Prop := ∃ l, queue w = map Submission l.
(** The marker of the close comes last, and nothing after it. *)
Definition control (w : AsyncFeatureParquetWriter) : Prop :=
  match stage w, task w with
  | (NotClosing | CloseRequested), (Collecting _ | Flushing _ _ false) =>
    only_submissions w ∧ putting w ≠ Some STOP
  | CloseWaiting, (Collecting _ | Flushing _ _ false) =>
    putting w = Some STOP ∧ only_submissions w ∨ putting w = None ∧ ∃ l, queue w = map Submission l ++ [STOP]
  | CloseWaiting, (Flushing _ _ true | Returned) => putting w = None ∧ queue w = []
  | _, _ => False
  end.
Definition groups_ok (t : worker_task) : Prop :=
  match t with
  | Flushing todo _ _ => todo ≠ [] ∧
      Forall (λ g, g.2 ≠ [] ∧ Forall (λ e, feature_partition (env_snapshot e) = g.1) g.2) todo
  | _ => True
  end.

(** A writer at work. *)
Record live (s : Store) (t : index_table) (base : list item) (adm : list FeatureEnvelope) : Prop := {
  lv_index : index (wr s) = Some t;
  lv_closed : w_closed (wr s) = false;
  lv_core : core (disk s) t (deduplication (wr s)) (placed_now (task (wr s))) (in_memory (wr s))
              (waiting (wr s)) base adm;
  lv_control : control (wr s);
  lv_groups : groups_ok (task (wr s));
  lv_accepted : accepted_count (wr s) = Z.of_nat (length adm);
  lv_written : accepted_count (wr s) =
    written_count (wr s) + Z.of_nat (length (placed_now (task (wr s)) ++ in_memory (wr s))) }.

(** The tree holds what was there and part of what was accepted. *)
Definition holds (f : filesystem) (base : list item) (adm : list FeatureEnvelope) (lost : list item) : Prop :=
  ∃ recs, sound root f recs ∧ map logical recs ++ lost ≡ₚ base ++ map env_item adm.

Definition fresh (s : Store) (base : list item) (adm : list FeatureEnvelope) : Prop :=
  holds (disk s) base [] [] ∧ adm = [] ∧
  ∃ st, stage (wr s) = st ∧ (st = NotClosing ∨ st = CloseRequested) ∧
    wr s = {| writer_init with stage := st |}.
Definition dead (s : Store) (base : list item) (adm : list FeatureEnvelope) : Prop :=
  (∃ lost, holds (disk s) base adm lost) ∧ (∃ e, task (wr s) = Died e) ∧ is_Some (index (wr s)) ∧
  match stage (wr s) with CloseDone _ => False | _ => True end ∧ w_closed (wr s) = false.
Definition closed (s : Store) (base : list item) (adm : list FeatureEnvelope) : Prop :=
  ∃ r lost, holds (disk s) base adm lost ∧ stage (wr s) = CloseDone r ∧ (r = Ok tt → lost = []) ∧
    w_closed (wr s) = true ∧ putting (wr s) = None ∧
    match task (wr s) with NotStarted | Returned | Died _ => True | _ => False end.

Definition inv (s : Store) (base : list item) (adm : list FeatureEnvelope) : Prop :=
  fresh s base adm ∨ (∃ t, live s t base adm) ∨ dead s base adm ∨ closed s base adm.

Lemma live_holds s t base adm : live s t base adm → holds (disk s) base adm (map env_item (in_memory (wr s))).
Proof using Type. intros []. destruct lv_core0 as [(recs & C & So & _ & _ & H & _) _]. by exists recs. Qed.

(** ** The writer's steps keep it *)

Definition flush_task (batch : list FeatureEnvelope) (final : bool) : worker_task :=
  match batch with
  | [] => if final then Returned else Collecting []
  | _ => Flushing (groups batch) None final
  end.
Definition with_task (t : worker_task) (s : Store) : Store := {| s with wr := let w := wr s in {| w with task := t |} |}.

Lemma begin_flush_run batch final s : begin_flush batch final s = (with_task (flush_task batch final) s, Ok tt).
Proof using Type. by destruct batch, final. Qed.

Lemma flush_task_spec batch final :
  placed_now (flush_task batch final) = [] ∧ to_place (flush_task batch final) ≡ₚ batch ∧
  groups_ok (flush_task batch final).
Proof using Type.
  destruct batch as [|e batch]; [by destruct final|]. cbn [flush_task placed_now to_place groups_ok].
  destruct (groups_spec (e :: batch)) as [H1 H2]. split; [by destruct (groups _) as [|[]]|]. split; [done|].
  split; [|done]. intros E. rewrite E in H2. simpl in H2. by apply Permutation_nil_cons in H2.
Qed.

(** The worker moves on with what is in memory. *)
Definition with_work (q : list queue_item) (t : worker_task) (s : Store) : Store :=
  {| s with wr := let w := wr s in {| w with queue := q; task := t |} |}.

Lemma live_moves s t base adm q T :
  live s t base adm → placed_now (task (wr s)) = [] → placed_now T = [] →
  omap submission q ++ to_place T ≡ₚ in_memory (wr s) →
  control (wr (with_work q T s)) → groups_ok T → live (with_work q T s) t base adm.
Proof using Type.
  intros [L1 L2 L3 L4 L5 L6 L7] Hp HT Hm Hc Hg. rewrite Hp in *. unfold with_work in *.
  split; cbn [wr disk index w_closed deduplication task accepted_count written_count] in *; try done.
  - rewrite HT. eapply core_perm; [|exact L3]. symmetry. exact Hm.
  - rewrite HT, L7. do 2 f_equal. symmetry. by apply Permutation_length.
Qed.

Lemma with_task_work t s : with_task t s = with_work (queue (wr s)) t s.
Proof using Type. by destruct s as [f k []]. Qed.

Lemma control_collecting w b :
  task w = Collecting b → control w → (∃ l, queue w = map Submission l) ∨
    stage w = CloseWaiting ∧ putting w = None ∧ ∃ l, queue w = map Submission l ++ [STOP].
Proof using Type. unfold control. intros ->. destruct (stage w); tauto || by intros []. Qed.

Lemma control_batch w b q item :
  task w = Collecting b → control w → queue w = Submission item :: q →
  ∀ T, (match T with Collecting _ | Flushing _ _ false => True | _ => False end) →
  control {| w with queue := q; task := T |}.
Proof using Type.
  intros Ht Hc Hq T HT. unfold control, only_submissions in *. rewrite Ht in Hc. cbn [stage task putting queue].
  assert (∀ l, queue w = map Submission l → q = map Submission (tail l)) as H1.
  { intros l Hl. rewrite Hq in Hl. destruct l; [done|]. by injection Hl as _ ->. }
  assert (∀ l, queue w = map Submission l ++ [STOP] → q = map Submission (tail l) ++ [STOP]) as H2.
  { intros l Hl. rewrite Hq in Hl. destruct l; [done|]. by injection Hl as _ ->. }
  destruct (stage w); [| | |done]; destruct T as [| |? ? []| |]; try done.
  all: try (destruct Hc as [[l Hl] ?]; split; [eauto|done]).
  all: destruct Hc as [[? [l Hl]]|[? [l Hl]]]; [left|right]; split; eauto.
Qed.

Lemma live_get s t base adm :
  live s t base adm → enabled c LGet s = true → live (run_label c LGet s).1 t base adm.
Proof using Type.
  intros L He. pose proof L as [L1 L2 L3 L4 L5 L6 L7]. cbn [enabled] in He.
  destruct (task (wr s)) as [|b| | |] eqn:Ht; try done. destruct (queue (wr s)) as [|i q] eqn:Hq; [done|].
  unfold run_label, ignore, worker_get, getW, modifyW, set_task, modifyM, getM, mbind, M_bind, mret, M_ret.
  rewrite Ht, Hq. 
  assert (∀ T, with_task T {| s with wr := let w := wr s in {| w with queue := q |} |} = with_work q T s) as Ew by by destruct s as [f k []].
  destruct i as [e|].
  - assert (∀ T, placed_now T = [] → to_place T ≡ₚ b ++ [e] → groups_ok T →
      (match T with Collecting _ | Flushing _ _ false => True | _ => False end) → live (with_work q T s) t base adm) as Hgo.
    { intros T T1 T2 T3 T4. apply live_moves; [done|by rewrite Ht|done| |by eapply control_batch|done].
      unfold in_memory, queued. rewrite Hq, Ht, T2. cbn [omap list_omap submission to_place].
      rewrite app_assoc. etransitivity; [symmetry; apply Permutation_cons_append|]. done. }
    destruct (ws_batch_rows c <=? _).
    + rewrite begin_flush_run. cbn [fst]. rewrite Ew. destruct (flush_task_spec (b ++ [e]) false) as (F1 & F2 & F3).
      apply Hgo; [done|done|done|]. by destruct b.
    + cbn [fst wr]. apply (Hgo (Collecting (b ++ [e]))); done.
  - assert (q = [] ∧ putting (wr s) = None ∧ stage (wr s) = CloseWaiting) as (-> & Hput & Hst).
    { destruct (control_collecting _ _ Ht L4) as [[l Hl]|(Hst & Hp & l & Hl)]; rewrite Hq in Hl;
        destruct l; simpl in Hl; try done. by injection Hl as ->. }
    rewrite begin_flush_run. cbn [fst]. rewrite Ew. destruct (flush_task_spec b true) as (F1 & F2 & F3).
    apply live_moves; [done|by rewrite Ht|done| | |done].
    + unfold in_memory, queued. by rewrite Hq, Ht.
    + unfold control. cbn [wr with_work stage task putting queue]. rewrite Hst, Hput. by destruct b.
Qed.

Lemma live_timeout s t base adm :
  live s t base adm → enabled c LTimeout s = true → live (run_label c LTimeout s).1 t base adm.
Proof using Type.
  intros L He. pose proof L as [L1 L2 L3 L4 L5 L6 L7]. cbn [enabled] in He.
  destruct (task (wr s)) as [|b| | |] eqn:Ht; try done.
  unfold run_label, ignore, worker_timeout, getW, modifyM, getM, mbind, M_bind, mret, M_ret. rewrite Ht.
  rewrite begin_flush_run. cbn [fst]. rewrite with_task_work. destruct (flush_task_spec b false) as (F1 & F2 & F3).
  apply live_moves; [done|by rewrite Ht|done| | |done].
  - unfold in_memory, queued. by rewrite Ht, F2.
  - unfold control, only_submissions in *. cbn [wr with_work stage task putting queue]. rewrite Ht in L4.
    by destruct b.
Qed.

Lemma core_plain f t d P M R base adm part l :
  core f t d P M R base adm → l ≠ [] → Forall (λ e, feature_partition (env_snapshot e) = part) l →
  (∀ e, e ∈ l → e ∈ M) → plain_partition part.
Proof using Type.
  intros [_ St] Hne Hp Hin. destruct l as [|e l]; [done|]. apply Forall_cons in Hp as [<- _].
  rewrite !Forall_app, !Forall_forall in St. destruct St as (_ & St & _).
  destruct (St e (Hin e ltac:(left))) as (_ & Hc & _). by apply snapshot_partition_plain.
Qed.

Lemma worker_dies_run e s t :
  index (wr s) = Some t →
  worker_dies e s = ({| s with wr := let w := wr s in {| w with last_error := Some e;
    index := Some (delete_pending (S (size t)) t); task := Died e |} |}, Ok tt).
Proof using Type.
  intros Hi. unfold worker_dies, rollback_all_pending, getW, modifyW, set_index, set_task, modifyM, getM, mbind, M_bind, mret, M_ret.
  cbn [wr index]. by rewrite Hi.
Qed.

Lemma live_place s t base adm nonce fault :
  live s t base adm → enabled c (LPlace nonce fault) s = true → fresh_target c s (LPlace nonce fault) = true →
  (live (run_label c (LPlace nonce fault) s).1 t base adm) ∨ dead (run_label c (LPlace nonce fault) s).1 base adm.
Proof using Laws Hconfig.
  intros L He Hf. pose proof L as [L1 L2 L3 L4 L5 L6 L7]. cbn [enabled] in He. unfold fresh_target in Hf.
  destruct (task (wr s)) as [| |[|[part l] todo] [|] final| |] eqn:Ht; try done.
  destruct L5 as [_ [[Hne Hpart] Hgs]%Forall_cons]. cbn [fst snd] in Hne, Hpart.
  assert (in_memory (wr s) ≡ₚ l ++ queued (wr s) ++ concat (map snd todo)) as Hm.
  { unfold in_memory. rewrite Ht. cbn [to_place map snd concat]. rewrite !app_assoc. f_equiv. apply Permutation_app_comm. }
  cbn [placed_now] in L3, L7. eapply core_perm in L3; [|exact Hm].
  assert (plain_partition part) as Hplain.
  { eapply core_plain; [exact L3|exact Hne|done|]. intros e H. apply elem_of_app. by left. }
  pose proof L3 as [(recs & C & So & _ & _ & Hperm & _) _].
  unfold run_label, ignore, worker_place, getW, attempt, on_disk, zoomM, getM, mbind, M_bind, mret, M_ret. rewrite Ht.
  destruct (write_partition_file nonce fault root part l (disk s)) as [f' r] eqn:Hw.
  pose proof (write_file_spec _ _ _ _ _ _ _ _ (so_wf _ _ _ So) (so_root _ _ _ So) (so_schema _ _ _ So) Hplain Hw) as Hspec.
  destruct r as [p|e].
  - left. destruct Hspec as (name & g & Hname & -> & _ & _). rewrite Hname in Hf.
    unfold set_task, modifyW, modifyM. cbn [fst].
    split; cbn [wr disk index w_closed deduplication task accepted_count written_count]; try done.
    + cbn [placed_now]. eapply core_perm; [|eapply core_place; [exact L3|exact Hne|exact Hpart|exact Hw|]].
      * unfold in_memory. cbn [task to_place tail]. done.
      * by destruct (dict_get _ (disk s)).
    + unfold control, only_submissions in *. rewrite Ht in L4. cbn [stage task putting queue]. done.
    + split; [done|]. by constructor.
    + rewrite L7. do 2 f_equal. apply Permutation_length. simpl. rewrite Hm. unfold in_memory. by cbn [task to_place tail].
  - right. rewrite (worker_dies_run e _ t) by done. cbn [fst]. split; cbn [disk wr task index stage w_closed].
    + exists (map env_item (l ++ queued (wr s) ++ concat (map snd todo))). exists recs. split; [by eapply sound_agrees|done].
    + split; [eauto|]. split; [eauto|]. split; [|done]. unfold control in L4. by destruct (stage (wr s)).
Qed.

Lemma live_commit s t base adm :
  live s t base adm → enabled c LCommit s = true → ∃ t', live (run_label c LCommit s).1 t' base adm.
Proof using Type.
  intros L He. pose proof L as [L1 L2 L3 L4 L5 L6 L7]. cbn [enabled] in He.
  destruct (task (wr s)) as [| |[|[part l] todo] [p|] final| |] eqn:Ht; try done.
  cbn [placed_now] in L3, L7. destruct L5 as [_ [_ Hgs]%Forall_cons].
  destruct (core_commit _ _ _ _ _ _ _ _ L3) as (t' & Ec & Hcore). exists t'.
  assert (in_memory (wr s) = queued (wr s) ++ concat (map snd todo)) as Hm by (unfold in_memory; by rewrite Ht).
  unfold run_label, ignore, worker_commit, getW, attempt, mark_committed, require_index, set_index, liftM, modifyW, modifyM, getM, mbind, M_bind, mret, M_ret.
  rewrite Ht. unfold getW, getM, mbind, M_bind, mret, M_ret. rewrite L1, Ec.
  unfold count_written, after_flush, set_task, modifyW, modifyM, mbind, M_bind.
  set (T := match todo with [] => if final then Returned else Collecting [] | _ => Flushing todo None final end).
  assert (placed_now T = [] ∧ to_place T = concat (map snd todo) ∧ groups_ok T) as (T1 & T2 & T3).
  { subst T. destruct todo as [|g todo]; [by destruct final|]. cbn [placed_now to_place groups_ok].
    split; [by destruct g|]. split; [done|]. by split. }
  assert (control (let w := wr s in {| w with task := T |})) as Hc.
  { unfold control, only_submissions in *. rewrite Ht in L4. cbn [stage task putting queue] in *. subst T.
    by destruct todo, final, (stage (wr s)). }
  assert (∀ w', w_closed w' = w_closed (wr s) → deduplication w' = deduplication (wr s) →
    queue w' = queue (wr s) → putting w' = putting (wr s) → stage w' = stage (wr s) → task w' = T →
    index w' = Some t' → accepted_count w' = accepted_count (wr s) →
    written_count w' = written_count (wr s) + Z.of_nat (length l) →
    live {| disk := disk s; claims := claims s; wr := w' |} t' base adm) as Hlive.
  { intros w' E1 E2 E3 E4 E5 E6 E7 E8 E9.
    assert (in_memory w' = in_memory (wr s)) as Em by (rewrite Hm; unfold in_memory, queued; by rewrite E3, E6, T2).
    split; cbn [disk wr]; [done|congruence| | |by rewrite E6|congruence|].
    - rewrite E2, E6, T1, Em. unfold waiting. rewrite E4. exact Hcore.
    - unfold control, only_submissions in *. cbn [stage task putting queue] in Hc. by rewrite E3, E4, E5, E6.
    - rewrite E8, E9, E6, T1, Em, L7, length_app. simpl. lia. }
  destruct todo as [|g todo]; cbn [fst]; by apply Hlive.
Qed.

(** ** The callers' steps *)

Definition with_books (t : index_table) (d : dedup_cache) (s : Store) : Store :=
  {| s with wr := let w := wr s in {| w with index := Some t; deduplication := d |} |}.
Definition reserved_row (e : FeatureEnvelope) : IndexRow :=
  {| ix_identity := content_identity e; ix_state := PENDING |}.

(** [_reserve] looks at the table only: what the cache has forgotten does not matter. *)
Lemma reserve_run s t base adm e :
  live s t base adm →
  reserve c e s =
  match t !! uuid_text (env_id e) with
  | Some r =>
    if bool_decide (ix_identity r = content_identity e)
    then (with_books t (remembered (env_id e) (content_identity e) (deduplication (wr s))) s, Ok false)
    else (s, Err (FeatureParquetError "duplicate feature_snapshot_id has different content"))
  | None =>
    (with_books (<[uuid_text (env_id e) := reserved_row e]> t)
       (remembered (env_id e) (content_identity e) (deduplication (wr s))) s, Ok true)
  end.
Proof using Type.
  intros [L1 _ L3 _ _ _ _].
  unfold reserve, remember_identity, require_index, set_index, getW, modifyW, modifyM, getM, requireM, liftM, mbind, M_bind, mret, M_ret.
  destruct (dict_get (env_id e) (deduplication (wr s))) as [known|] eqn:Hd.
  - destruct (core_cached _ _ _ _ _ _ _ _ _ _ L3 Hd) as (st & ->). cbn [ix_identity].
    destruct (bool_decide (known = content_identity e)); cbn [require]; [|by destruct s].
    unfold with_books. do 2 f_equal. by rewrite <- L1; destruct s as [f k []].
  - rewrite L1. destruct (t !! uuid_text (env_id e)) as [r|]; [|done].
    destruct (bool_decide (ix_identity r = content_identity e)); cbn [require]; [|by destruct s].
    unfold with_books. do 2 f_equal. by rewrite <- L1; destruct s as [f k []].
Qed.

Lemma rollback_run s t e :
  index (wr s) = Some t →
  rollback_reservation e s = (with_books (unreserved_row e t) (forgotten e (deduplication (wr s))) s, Ok tt).
Proof using Type.
  intros Hi. unfold rollback_reservation, require_index, set_index, getW, modifyW, modifyM, getM, mbind, M_bind, mret, M_ret.
  rewrite Hi. cbn [wr deduplication index]. unfold with_books, unreserved_row, forgotten. cbn [wr].
  by destruct (bool_decide (dict_get _ _ = _)).
Qed.

(** The state between a reservation and its outcome. *)
Record reserved (s : Store) (t : index_table) (e : FeatureEnvelope) (base : list item) (adm : list FeatureEnvelope) : Prop := {
  rv_index : index (wr s) = Some t;
  rv_closed : w_closed (wr s) = false;
  rv_core : core (disk s) t (deduplication (wr s)) (placed_now (task (wr s))) (in_memory (wr s)) [e] base adm;
  rv_putting : putting (wr s) = None;
  rv_control : control (wr s);
  rv_stage : stage (wr s) = NotClosing;
  rv_groups : groups_ok (task (wr s));
  rv_accepted : accepted_count (wr s) = Z.of_nat (length adm);
  rv_written : accepted_count (wr s) =
    written_count (wr s) + Z.of_nat (length (placed_now (task (wr s)) ++ in_memory (wr s))) }.

Lemma live_reserved s t base adm e :
  live s t base adm → putting (wr s) = None → stage (wr s) = NotClosing → store_able e →
  t !! uuid_text (env_id e) = None →
  reserved (with_books (<[uuid_text (env_id e) := reserved_row e]> t)
      (remembered (env_id e) (content_identity e) (deduplication (wr s))) s)
    (<[uuid_text (env_id e) := reserved_row e]> t) e base adm.
Proof using Type.
  intros [L1 L2 L3 L4 L5 L6 L7] Hp Hst He Ht. unfold with_books. split; cbn [wr disk index w_closed putting stage task accepted_count written_count]; try done.
  cbn [deduplication]. unfold waiting in L3. rewrite Hp in L3.
  eapply core_remember; [by apply core_reserve|]. exists PENDING. by rewrite lookup_insert_eq.
Qed.

Lemma reserved_rollback s t e base adm :
  reserved s t e base adm →
  live (with_books (unreserved_row e t) (forgotten e (deduplication (wr s))) s) (unreserved_row e t) base adm.
Proof using Type.
  intros [L1 L2 L3 L3' L4 L4' L5 L6 L7]. unfold with_books. split; cbn [wr disk index w_closed putting stage task accepted_count written_count]; try done.
  cbn [deduplication]. unfold waiting. cbn [putting]. rewrite L3'. by apply core_unreserve.
Qed.

Lemma control_enqueue w e :
  control w → stage w = NotClosing → control {| w with queue := queue w ++ [Submission e] |}.
Proof using Type.
  unfold control, only_submissions. cbn [stage task putting queue]. intros H E. rewrite E in *.
  assert (∀ l, queue w = map Submission l → queue w ++ [Submission e] = map Submission (l ++ [e])) as Hq by (intros l ->; by rewrite map_app).
  destruct (task w) as [| |? ? []| |]; try done; destruct H as [[l Hl] ?]; split; eauto.
Qed.

(** Room in the queue: the envelope is accepted. *)
Lemma reserved_accept s t e base adm :
  reserved s t e base adm →
  live {| s with wr := let w := wr s in {| w with queue := queue w ++ [Submission e];
                                                  accepted_count := accepted_count w + 1 |} |} t base (adm ++ [e]).
Proof using Type.
  intros [L1 L2 L3 L3' L4 L4' L5 L6 L7].
  assert (in_memory (wr s) ++ [e] ≡ₚ in_memory (let w := wr s in {| w with queue := queue w ++ [Submission e]; accepted_count := accepted_count w + 1 |})) as Hm.
  { unfold in_memory, queued. cbn [queue task]. rewrite omap_app. simpl. rewrite <- !app_assoc. f_equiv. apply Permutation_app_comm. }
  split; cbn [wr disk index w_closed deduplication task accepted_count written_count]; try done.
  - unfold waiting. cbn [putting]. rewrite L3'. eapply core_perm; [exact Hm|]. by apply core_accept.
  - by apply (control_enqueue (wr s)).
  - rewrite L6, length_app. simpl. lia.
  - rewrite length_app. pose proof (Permutation_length Hm) as Hl. rewrite length_app in Hl, L7. simpl in Hl.
    cbn zeta in Hl. lia.
Qed.

(** No room: the caller waits. *)
Lemma reserved_wait s t e base adm :
  reserved s t e base adm →
  live {| s with wr := let w := wr s in {| w with putting := Some (Submission e) |} |} t base adm.
Proof using Type.
  intros [L1 L2 L3 L3' L4 L4' L5 L6 L7]. split; cbn [wr disk index w_closed deduplication task accepted_count written_count]; try done.
  unfold control, only_submissions in *. cbn [stage task putting queue]. rewrite L4' in *.
  destruct (task (wr s)) as [| |? ? []| |]; try done; by destruct L4.
Qed.

Lemma live_task s t base adm : live s t base adm → has_task (wr s) = true ∧ (∀ e, task (wr s) ≠ Died e).
Proof using Type.
  intros [_ _ _ L4 _ _ _]. unfold control, has_task in *. by destruct (stage (wr s)), (task (wr s)).
Qed.

Lemma write_refused s t base adm x :
  live s t base adm → not_closing (wr s) = false →
  write c x s = (s, Err (FeatureParquetError "cannot write after close begins")).
Proof using Type.
  intros [_ L2 _ _ _ _ _] Hst. unfold write, writable, getW, getM, requireM, liftM, mbind, M_bind, mret, M_ret.
  by rewrite L2, Hst.
Qed.

Definition with_backpressure (s : Store) : Store :=
  {| s with wr := let w := wr s in {| w with backpressure_events := backpressure_events w + 1 |} |}.
Definition with_deduplicated (s : Store) : Store :=
  {| s with wr := let w := wr s in {| w with deduplicated_count := deduplicated_count w + 1 |} |}.
Definition with_waiting (e : FeatureEnvelope) (s : Store) : Store :=
  {| s with wr := let w := wr s in {| w with putting := Some (Submission e) |} |}.
Definition with_accepted (e : FeatureEnvelope) (s : Store) : Store :=
  {| s with wr := let w := wr s in {| w with queue := queue w ++ [Submission e]; accepted_count := accepted_count w + 1 |} |}.

(** What a call of [write] does, by what the index says of the identifier. *)
Definition write_outcome (t : index_table) (x : PersistableFeatureSnapshot) (s : Store)
    : Store * res (option FeatureWriteStatus) :=
  match envelope (ws_config_hash c) (ws_strategy_version c) x with
  | Err e => (s, Err e)
  | Ok e =>
    let d := remembered (env_id e) (content_identity e) (deduplication (wr s)) in
    match t !! uuid_text (env_id e) with
    | Some r =>
      if bool_decide (ix_identity r = content_identity e)
      then (with_deduplicated (with_books t d s), Ok (Some DEDUPLICATED))
      else (s, Err (FeatureParquetError "duplicate feature_snapshot_id has different content"))
    | None =>
      let s1 := with_books (<[uuid_text (env_id e) := reserved_row e]> t) d s in
      if full c (wr s) then
        let s2 := with_backpressure s1 in
        match ws_on_backpressure c with
        | Some f => match f x with
                    | Ok _ => (with_waiting e s2, Ok None)
                    | Err _ => (with_books (unreserved_row e (<[uuid_text (env_id e) := reserved_row e]> t))
                                  (forgotten e d) s2,
                                Err (FeatureParquetError "feature backpressure callback failed"))
                    end
        | None => (with_waiting e s2, Ok None)
        end
      else (with_accepted e s1, Ok (Some ACCEPTED))
    end
  end.

Lemma no_failure s t base adm : live s t base adm → raise_worker_failure s = (s, Ok tt).
Proof using Type.
  intros L. destruct (live_task _ _ _ _ L) as [_ Hd]. unfold raise_worker_failure, getW, getM, mbind, M_bind, mret, M_ret.
  destruct (task (wr s)) eqn:E; try done. by destruct (Hd e).
Qed.

(** The part of [write] after a reservation. *)
Lemma submit_run s e x t base adm :
  reserved s t e base adm →
  (on_exception (_ ← note_backpressure c x; begin_put c (Submission e)) id (rollback_reservation e)) s =
  (if full c (wr s) then
     let s2 := with_backpressure s in
     match ws_on_backpressure c with
     | Some f => match f x with
                 | Ok _ => (with_waiting e s2, Ok false)
                 | Err _ => (with_books (unreserved_row e t) (forgotten e (deduplication (wr s))) s2,
                             Err (FeatureParquetError "feature backpressure callback failed"))
                 end
     | None => (with_waiting e s2, Ok false)
     end
   else ({| s with wr := let w := wr s in {| w with queue := queue w ++ [Submission e] |} |}, Ok true)).
Proof using Type.
  intros [L1 L2 L3 L3' L4 L4' L5 L6 L7].
  assert (∀ w, task w = task (wr s) → queue w = queue (wr s) → (∀ f k, begin_put c (Submission e) {| disk := f; claims := k; wr := w |} =
    if full c (wr s) then ({| disk := f; claims := k; wr := {| w with putting := Some (Submission e) |} |}, Ok false)
    else ({| disk := f; claims := k; wr := {| w with queue := queue w ++ [Submission e] |} |}, Ok true))) as Hput.
  { intros w Ew Eq f k. unfold begin_put, enqueue, getW, modifyW, modifyM, getM, mbind, M_bind, mret, M_ret. cbn [wr].
    assert (full c w = full c (wr s)) as <- by (unfold full; by rewrite Eq).
    unfold control in L4. rewrite L4', <- Ew in L4. destruct w as [q tk]. cbn [task wr] in *.
    destruct tk; try done; by destruct (full c _). }
  unfold on_exception. unfold note_backpressure, getW, modifyW, modifyM, getM, mbind, M_bind, mret, M_ret, raiseM.
  destruct (full c (wr s)) eqn:Ef.
  - destruct (ws_on_backpressure c) as [f|]; [destruct (f x) as [?|er]|].
    + by rewrite Hput.
    + rewrite (rollback_run _ t) by done. done.
    + by rewrite Hput.
  - destruct s as [f k w]. by rewrite Hput.
Qed.

Lemma write_run s t base adm x :
  live s t base adm → putting (wr s) = None → not_closing (wr s) = true →
  (∀ e, envelope (ws_config_hash c) (ws_strategy_version c) x = Ok e → store_able e) →
  write c x s = write_outcome t x s.
Proof using Type.
  intros L Hput Hst Hx. pose proof L as [L1 L2 L3 L4 L5 L6 L7]. destruct (live_task _ _ _ _ L) as [Htask _].
  unfold write, write_outcome. rewrite (run_bind _ _ _ s (wr s)) by done.
  rewrite (run_bind _ _ _ s tt) by (unfold writable, requireM, liftM, mbind, M_bind; by rewrite L2, Hst, Htask).
  rewrite (run_bind _ _ _ _ _ (no_failure _ _ _ _ L)).
  destruct (envelope _ _ x) as [e|er] eqn:He; [|done].
  rewrite (run_bind _ _ _ s e) by done. pose proof (reserve_run s t base adm e L) as Hr.
  destruct (t !! uuid_text (env_id e)) as [r|] eqn:Ht.
  - destruct (bool_decide _); [by rewrite (run_bind _ _ _ _ _ Hr)|by rewrite (run_bind_fail _ _ _ _ _ Hr)].
  - rewrite (run_bind _ _ _ _ _ Hr). cbn [negb].
    assert (stage (wr s) = NotClosing) as Hst2 by (unfold not_closing in Hst; by destruct (stage (wr s))).
    pose proof (live_reserved s t base adm e L Hput Hst2 (Hx e eq_refl) Ht) as Rv.
    pose proof (submit_run _ e x _ _ _ Rv) as Hs.
    change (full c (wr (with_books (<[uuid_text (env_id e):=reserved_row e]> t)
      (remembered (env_id e) (content_identity e) (deduplication (wr s))) s))) with (full c (wr s)) in Hs.
    destruct (full c (wr s)).
    + cbn zeta in *. destruct (ws_on_backpressure c) as [f|]; [destruct (f x)|].
      * by rewrite (run_bind _ _ _ _ _ Hs).
      * by rewrite (run_bind_fail _ _ _ _ _ Hs).
      * by rewrite (run_bind _ _ _ _ _ Hs).
    + by rewrite (run_bind _ _ _ _ _ Hs).
Qed.

Definition storable_snapshot (x : PersistableFeatureSnapshot) : Prop :=
  valid_snapshot x ∧ canonical_perpetual (snapshot_symbol x) = true.

Lemma envelope_storable x e :
  storable_snapshot x → envelope (ws_config_hash c) (ws_strategy_version c) x = Ok e → store_able e.
Proof using Type.
  intros [Hv Hc] He. pose proof He as (-> & _)%envelope_Ok. by split.
Qed.

(** The envelopes a step puts in the queue. *)
Definition admits (l : label) (s : Store) : list FeatureEnvelope :=
  match l with
  | LWrite x =>
    match (write c x s).2, envelope (ws_config_hash c) (ws_strategy_version c) x with
    | Ok (Some ACCEPTED), Ok e => [e]
    | _, _ => []
    end
  | LResume =>
    match putting (wr s) with
    | Some (Submission e) => if full c (wr s) then [] else [e]
    | _ => []
    end
  | _ => []
  end.

Lemma live_write s t base adm x :
  live s t base adm → enabled c (LWrite x) s = true → storable_snapshot x →
  ∃ t', live (run_label c (LWrite x) s).1 t' base (adm ++ admits (LWrite x) s).
Proof using Type.
  intros L He Hx. pose proof L as [L1 L2 L3 L4 L5 L6 L7]. destruct (live_task _ _ _ _ L) as [Htask _].
  unfold admits, run_label. destruct (not_closing (wr s)) eqn:Hst.
  2: { rewrite (write_refused s t base adm x L Hst). cbn [fst snd]. exists t. by rewrite app_nil_r. }
  assert (putting (wr s) = None) as Hput.
  { cbn [enabled] in He. rewrite L2, Hst, Htask in He. by destruct (putting (wr s)). }
  assert (stage (wr s) = NotClosing) as Hst2 by (unfold not_closing in Hst; by destruct (stage (wr s))).
  rewrite (write_run s t base adm x L Hput Hst (λ e, envelope_storable x e Hx)). unfold write_outcome.
  destruct (envelope _ _ x) as [e|er] eqn:Hen; [|exists t; by rewrite app_nil_r].
  destruct (t !! uuid_text (env_id e)) as [r|] eqn:Ht.
  - case_bool_decide as Hid; cbn [fst snd]; exists t; rewrite app_nil_r; [|done].
    destruct L. split; try done. eapply core_remember; [done|]. exists (ix_state r). rewrite Ht, <- Hid. by destruct r.
  - pose proof (live_reserved s t base adm e L Hput Hst2 (envelope_storable x e Hx Hen) Ht) as Rv.
    destruct (full c (wr s)).
    + assert (∀ t2 s2, live s2 t2 base adm → live (with_backpressure s2) t2 base adm) as Hbp.
      { intros t2 s2 []. by split. }
      pose proof (reserved_wait _ _ _ _ _ Rv) as Hwait%Hbp. pose proof (reserved_rollback _ _ _ _ _ Rv) as Hroll%Hbp.
      cbn zeta. destruct (ws_on_backpressure c) as [f|]; [destruct (f x)|]; cbn [fst snd]; rewrite app_nil_r; eexists;
        [exact Hwait|exact Hroll|exact Hwait].
    + cbn [fst snd]. eexists. exact (reserved_accept _ _ _ _ _ Rv).
Qed.

Lemma control_waiting w e :
  control w → putting w = Some (Submission e) →
  (stage w = NotClosing ∨ stage w = CloseRequested) ∧ only_submissions w ∧
  (match task w with Collecting _ | Flushing _ _ false => True | _ => False end).
Proof using Type.
  unfold control. intros H Hp. rewrite Hp in H.
  destruct (stage w); [| |exfalso|done]; destruct (task w) as [| |? ? []| |]; try done;
    first [by destruct H as [[? _]|[? _]]|by destruct H as [? _]|destruct H as [H _]; auto].
Qed.

Lemma live_resume s t base adm :
  live s t base adm → enabled c LResume s = true →
  live (run_label c LResume s).1 t base (adm ++ admits LResume s).
Proof using Type.
  intros L He. pose proof L as [L1 L2 L3 L4 L5 L6 L7]. cbn [enabled] in He. apply andb_true_iff in He as [Hp He].
  destruct (putting (wr s)) as [i|] eqn:Hput; [|done].
  assert (full c (wr s) = false) as Hfull.
  { destruct (full c (wr s)); [|done]. simpl in He. unfold worker_done in He. exfalso. revert L4. unfold control. rewrite Hput.
    destruct (task (wr s)); try done; by destruct (stage (wr s)) as [| | |]; try done; intros []. }
  unfold admits. rewrite Hput, Hfull. unfold run_label, resume_put.
  rewrite (run_bind _ _ _ s (wr s)) by done. rewrite Hput.
  rewrite (run_bind _ _ _ ({| s with wr := let w := wr s in {| w with putting := None |} |}) tt) by done.
  change (full c _) with (full c (wr s)). rewrite Hfull. cbn [negb].
  destruct i as [e|].
  - destruct (control_waiting _ e L4 Hput) as (Hst & [q Hq] & Ht).
    assert (live {| s with wr := let w := wr s in {| w with putting := None; queue := queue w ++ [Submission e];
      accepted_count := accepted_count w + 1 |} |} t base (adm ++ [e])) as Hl.
    { assert (in_memory (wr s) ++ [e] ≡ₚ in_memory (let w := wr s in {| w with putting := None; queue := queue w ++ [Submission e]; accepted_count := accepted_count w + 1 |})) as Hm.
      { unfold in_memory, queued. cbn [queue task]. rewrite omap_app. simpl. rewrite <- !app_assoc. f_equiv. apply Permutation_app_comm. }
      split; cbn [wr disk index w_closed deduplication task accepted_count written_count]; try done.
      - unfold waiting in *. cbn [putting]. rewrite Hput in L3. eapply core_perm; [exact Hm|]. by apply core_accept.
      - unfold control, only_submissions. cbn [stage task putting queue].
        assert (queue (wr s) ++ [Submission e] = map Submission (q ++ [e])) as Hq2 by (rewrite Hq; by rewrite map_app).
        destruct Hst as [-> | ->], (task (wr s)) as [| |? ? []| |]; try done; split; eauto.
      - rewrite L6, length_app. simpl. lia.
      - rewrite length_app. pose proof (Permutation_length Hm) as Hl. rewrite length_app in Hl, L7. simpl in Hl.
        cbn zeta in Hl. lia. }
    pose proof (no_failure _ _ _ _ Hl) as Hn.
    erewrite run_bind; [|reflexivity]. erewrite run_bind; [|reflexivity].
    erewrite run_bind; [|exact Hn]. exact Hl.
  - rewrite app_nil_r.
    assert (live {| s with wr := let w := wr s in {| w with putting := None; queue := queue w ++ [STOP] |} |} t base adm) as Hl.
    { assert (omap submission (queue (wr s) ++ [STOP]) = omap submission (queue (wr s))) as Hm
        by (rewrite omap_app; simpl; by rewrite app_nil_r).
      split; cbn [wr disk index w_closed deduplication task accepted_count written_count]; try done.
      - unfold waiting, in_memory, queued in *. cbn [putting task queue]. rewrite Hm. by rewrite Hput in L3.
      - unfold control, only_submissions in *. cbn [stage task putting queue]. rewrite Hput in L4.
        destruct (stage (wr s)), (task (wr s)) as [| |? ? []| |]; try done; try by destruct L4.
        all: destruct L4 as [[_ [l ->]]|[? _]]; [right; split; eauto|done].
      - unfold in_memory, queued in *. cbn [task queue]. by rewrite Hm. }
    pose proof (no_failure _ _ _ _ Hl) as Hn.
    erewrite run_bind; [|reflexivity]. erewrite run_bind; [|reflexivity].
    erewrite run_bind; [|exact Hn]. exact Hl.
Qed.

Lemma live_cancel s t base adm :
  live s t base adm → enabled c LCancel s = true → ∃ t', live (run_label c LCancel s).1 t' base adm.
Proof using Type.
  intros L He. pose proof L as [L1 L2 L3 L4 L5 L6 L7]. cbn [enabled] in He.
  destruct (putting (wr s)) as [[e|]|] eqn:Hput; try done.
  unfold run_label, cancel_put. rewrite (run_bind _ _ _ s (wr s)) by done. rewrite Hput.
  erewrite run_bind; [|reflexivity].
  erewrite run_bind; [|apply rollback_run; exact L1]. cbn [raiseM fst]. exists (unreserved_row e t).
  unfold with_books. split; cbn [wr disk index w_closed deduplication task accepted_count written_count]; try done.
  - unfold waiting in *. cbn [putting]. rewrite Hput in L3. by apply core_unreserve.
  - destruct (control_waiting _ e L4 Hput) as (Hst & [q Hq] & Ht). unfold control, only_submissions.
    cbn [stage task putting queue]. destruct Hst as [-> | ->], (task (wr s)) as [| |? ? []| |]; try done; split; eauto.
Qed.

Lemma live_close s t base adm : live s t base adm → live (run_label c LClose s).1 t base adm.
Proof using Type.
  intros [L1 L2 L3 L4 L5 L6 L7]. split; try done. unfold control, only_submissions in *.
  unfold run_label, ignore, close_begin, modifyW, modifyM, mbind, M_bind, mret, M_ret.
  cbn [fst wr stage task putting queue]. by destruct (stage (wr s)).
Qed.

Lemma begin_put_run w f k item :
  task w ≠ NotStarted →
  begin_put c item {| disk := f; claims := k; wr := w |} =
  if full c w then ({| disk := f; claims := k; wr := {| w with putting := Some item |} |}, Ok false)
  else ({| disk := f; claims := k; wr := {| w with queue := queue w ++ [item] |} |}, Ok true).
Proof using Type.
  intros Hw. unfold begin_put, enqueue, getW, modifyW, modifyM, getM, mbind, M_bind, mret, M_ret. cbn [wr].
  destruct w as [q tk]. cbn [task wr] in *. destruct tk; try done; by destruct (full c _).
Qed.

Lemma live_close_enter s t base adm :
  live s t base adm → enabled c LCloseEnter s = true → live (run_label c LCloseEnter s).1 t base adm.
Proof using Type.
  intros L He. pose proof L as [L1 L2 L3 L4 L5 L6 L7]. destruct (live_task _ _ _ _ L) as [Htask Hd]. cbn [enabled] in He.
  apply andb_true_iff in He as [Hp Hst]. destruct (putting (wr s)) eqn:Hput; [done|].
  destruct (stage (wr s)) eqn:Est; try done.
  assert (∀ w', queue w' = queue (wr s) ++ [STOP] ∧ putting w' = None ∨ queue w' = queue (wr s) ∧ putting w' = Some STOP →
    task w' = task (wr s) → index w' = Some t → deduplication w' = deduplication (wr s) → w_closed w' = false →
    accepted_count w' = accepted_count (wr s) → written_count w' = written_count (wr s) → stage w' = CloseWaiting →
    live {| disk := disk s; claims := claims s; wr := w' |} t base adm) as Hl.
  { intros w' Hq E1 E2 E3 E4 E5 E6 E7.
    assert (omap submission (queue w') = omap submission (queue (wr s))) as Hm.
    { destruct Hq as [[-> _]|[-> _]]; [|done]. rewrite omap_app. simpl. by rewrite app_nil_r. }
    assert (in_memory w' = in_memory (wr s)) as Em by (unfold in_memory, queued; by rewrite Hm, E1).
    split; cbn [wr disk].
    - done.
    - done.
    - rewrite E3, E1, Em. unfold waiting in *. rewrite Hput in L3. destruct Hq as [[_ ->]|[_ ->]]; done.
    - unfold control, only_submissions in *. rewrite E7, E1. rewrite Est in L4.
      destruct (task (wr s)) as [| |? ? []| |]; try done; destruct L4 as [[l Hl] _];
        (destruct Hq as [[-> ->]|[-> ->]]; [right|left]; (split; [done|]); exists l; by rewrite ?Hl).
    - by rewrite E1.
    - congruence.
    - rewrite E5, E6, E1, Em. done. }
  destruct s as [f k w]. cbn [wr disk claims] in *.
  assert (task w ≠ NotStarted) as Hns by (unfold has_task in Htask; intros E; by rewrite E in Htask).
  pose proof (begin_put_run w f k STOP Hns) as Hput2.
  assert (close_enter c {| disk := f; claims := k; wr := w |} =
    (_ ← begin_put c STOP; modifyW (λ w, {| w with stage := CloseWaiting |})) {| disk := f; claims := k; wr := w |}) as Hc.
  { unfold close_enter. rewrite (run_bind _ _ _ {| disk := f; claims := k; wr := w |} w) by done.
    destruct (task w) as [|b|todo pl fin| |e] eqn:E; try done. by destruct (Hd e). }
  unfold run_label, ignore, mbind, M_bind. rewrite Hc. unfold modifyW, modifyM, mbind, M_bind. rewrite Hput2.
  destruct (full c w); apply Hl; cbn [queue putting task index deduplication w_closed accepted_count written_count stage]; auto.
Qed.

(** Closing what is done. *)
Definition same_work (s s' : Store) : Prop :=
  disk s' = disk s ∧ putting (wr s') = putting (wr s) ∧ task (wr s') = task (wr s) ∧
  stage (wr s') = stage (wr s) ∧ w_closed (wr s') = w_closed (wr s).

Lemma rollback_all_run s : ∃ s', rollback_all_pending s = (s', Ok tt) ∧ same_work s s'.
Proof using Type.
  unfold rollback_all_pending, set_index, getW, modifyW, modifyM, getM, mbind, M_bind, mret, M_ret.
  destruct (index (wr s)); by eexists.
Qed.
Lemma close_index_run s : ∃ s', close_index s = (s', Ok tt) ∧ same_work s s'.
Proof using Type. by eexists. Qed.
Lemma release_run s : ∃ s', release_root_claim c s = (s', Ok tt) ∧ same_work s s'.
Proof using Type.
  unfold release_root_claim, getW, modifyW, modifyM, getM, mbind, M_bind, mret, M_ret.
  destruct (root_claim (wr s)); by eexists.
Qed.

Lemma finish_close_run s r :
  ∃ s', finish_close c r s = (s', Ok tt) ∧ disk s' = disk s ∧
    stage (wr s') = CloseDone r ∧ w_closed (wr s') = true ∧ putting (wr s') = putting (wr s) ∧
    task (wr s') = task (wr s).
Proof using Type.
  destruct (rollback_all_run s) as (s1 & E1 & D1 & P1 & T1 & _).
  destruct (close_index_run s1) as (s2 & E2 & D2 & P2 & T2 & _).
  destruct (release_run s2) as (s3 & E3 & D3 & P3 & T3 & _).
  unfold finish_close. rewrite (run_bind _ _ _ _ _ E1), (run_bind _ _ _ _ _ E2), (run_bind _ _ _ _ _ E3).
  eexists. split; [reflexivity|]. cbn [disk wr stage w_closed putting task]. split; [congruence|].
  split; [done|]. split; [done|]. split; congruence.
Qed.

Lemma live_close_finish s t base adm :
  live s t base adm → enabled c LCloseFinish s = true → closed (run_label c LCloseFinish s).1 base adm.
Proof using Type.
  intros L He. pose proof L as [L1 L2 L3 L4 L5 L6 L7]. cbn [enabled] in He.
  apply andb_true_iff in He as [[Hd Hp]%andb_true_iff Hst]. destruct (putting (wr s)) eqn:Hput; [done|].
  destruct (stage (wr s)) eqn:Est; try done. destruct (live_task _ _ _ _ L) as [_ Hdied].
  unfold worker_done in Hd. destruct (task (wr s)) as [| | | |e] eqn:Ht; try done; [|by destruct (Hdied e)].
  assert (queue (wr s) = []) as Hq by (unfold control in L4; rewrite Est, Ht in L4; by destruct L4).
  destruct (finish_close_run s (Ok tt)) as (s' & E & E0 & E1 & E2 & E3 & E4).
  unfold run_label, ignore, close_finish. erewrite run_bind; [cbn [mret M_ret fst]|].
  2: { erewrite run_bind; [|reflexivity]. rewrite Ht. exact E. }
  exists (Ok tt), []. rewrite E0. apply live_holds in L. unfold in_memory, queued in L. rewrite Hq, Ht in L.
  split; [exact L|]. split; [done|]. split; [done|]. split; [done|]. rewrite E3, E4, Ht. done.
Qed.

Lemma live_start s t base adm : live s t base adm → (run_label c LStart s).1 = s.
Proof using Type.
  intros L. destruct (live_task _ _ _ _ L) as [Ht _]. destruct L as [_ L2 _ _ _ _ _].
  unfold run_label, ignore, writer_start_all, getW, getM, requireM, liftM, mbind, M_bind, mret, M_ret. rewrite L2. cbn [negb require].
  destruct (not_closing (wr s)); [|done]. cbn [require]. unfold has_task in Ht. by destruct (task (wr s)).
Qed.

(** ** A writer whose worker has died *)

Lemma dead_refuses s base adm x : dead s base adm → ∃ e, write c x s = (s, Err e).
Proof using Type.
  intros (_ & [e He] & _ & _ & Hc). unfold write, writable, raise_worker_failure, has_task, getW, getM, requireM, liftM, mbind, M_bind, mret, M_ret, raiseM.
  rewrite Hc. cbn [negb require]. destruct (not_closing (wr s)); cbn [require]; [|by eexists].
  rewrite He. cbn [require]. by eexists.
Qed.

Lemma dead_mono s s' base adm adm' e :
  dead s base adm → (∃ new, adm' = adm ++ new) → disk s' = disk s → task (wr s') = Died e → is_Some (index (wr s')) →
  stage (wr s') = stage (wr s) ∨ stage (wr s') = CloseRequested → w_closed (wr s') = w_closed (wr s) →
  dead s' base adm'.
Proof using Type.
  intros ((lost & recs & So & Hp) & _ & _ & Hst & Hc) [new ->] Hd Ht Hi Hst2 Hc2. rewrite <- Hd in So.
  split; [|split; [eauto|split; [done|split; [|congruence]]]].
  - exists (lost ++ map env_item new), recs. split; [done|]. by rewrite map_app, !app_assoc, Hp.
  - destruct Hst2 as [-> | ->]; done.
Qed.

Lemma dead_raises s e :
  task (wr s) = Died e → raise_worker_failure s = (s, Err (FeatureParquetError "feature writer failed")).
Proof using Type. intros E. unfold raise_worker_failure. rewrite (run_bind _ _ _ s (wr s)) by done. by rewrite E. Qed.

Lemma dead_resume s base adm :
  dead s base adm → dead (run_label c LResume s).1 base (adm ++ admits LResume s).
Proof using Type.
  intros D. pose proof D as (_ & [e He] & [t Ht] & _). unfold run_label, resume_put, admits.
  rewrite (run_bind _ _ _ s (wr s)) by done.
  destruct (putting (wr s)) as [i|]; [|by rewrite app_nil_r].
  erewrite run_bind; [|reflexivity]. change (full c _) with (full c (wr s)).
  destruct (full c (wr s)); cbn [negb].
  - destruct i as [e'|].
    + rewrite app_nil_r. erewrite run_bind; [|apply rollback_run; exact Ht].
      erewrite run_bind_fail; [|apply (dead_raises _ e); exact He]. cbn [fst].
      eapply (dead_mono s); [done|by exists []; rewrite app_nil_r|done|exact He|by eexists|by left|done].
    + rewrite app_nil_r. erewrite run_bind; [|reflexivity].
      erewrite run_bind_fail; [|apply (dead_raises _ e); exact He]. cbn [fst].
      eapply (dead_mono s); [done|by exists []; rewrite app_nil_r|done|exact He|by eexists|by left|done].
  - erewrite run_bind; [|reflexivity].
    destruct i as [e'|]; (erewrite run_bind; [|reflexivity]);
      (erewrite run_bind_fail; [|apply (dead_raises _ e); exact He]); cbn [fst];
      (eapply (dead_mono s); [done| |done|exact He|by eexists|by left|done]); eauto.
Qed.

Lemma dead_cancel s base adm :
  dead s base adm → enabled c LCancel s = true → dead (run_label c LCancel s).1 base adm.
Proof using Type.
  intros D H. pose proof D as (_ & [e He] & [t Ht] & _). cbn [enabled] in H. unfold run_label, cancel_put.
  rewrite (run_bind _ _ _ s (wr s)) by done. destruct (putting (wr s)) as [[e'|]|]; try done.
  erewrite run_bind; [|reflexivity]. erewrite run_bind; [|apply rollback_run; exact Ht]. cbn [raiseM fst].
  eapply (dead_mono s); [done|by exists []; rewrite app_nil_r|done|exact He|by eexists|by left|done].
Qed.

Lemma dead_finishes s base adm r :
  dead s base adm → r ≠ Ok tt → putting (wr s) = None → closed (finish_close c r s).1 base adm.
Proof using Type.
  intros ([lost Hl] & [e He] & _) Hr Hp. destruct (finish_close_run s r) as (s' & -> & E0 & E1 & E2 & E3 & E4).
  exists r, lost. cbn [fst]. rewrite E0, E1, E2, E3, E4, He. split; [done|]. split; [done|]. split; [done|]. done.
Qed.

Lemma dead_step s base adm l :
  dead s base adm → enabled c l s = true → (∀ i, l ≠ LCrash i) →
  dead (run_label c l s).1 base (adm ++ admits l s) ∨ closed (run_label c l s).1 base (adm ++ admits l s).
Proof using Type.
  intros D H Hl. pose proof D as (_ & [e He] & [t Ht] & Hst & Hc).
  destruct l; try (unfold admits; rewrite app_nil_r).
  - left. unfold run_label, ignore, writer_start_all, getW, getM, requireM, liftM, mbind, M_bind, mret, M_ret.
    rewrite Hc. cbn [negb require]. destruct (not_closing (wr s)); cbn [require]; [|done]. by rewrite He.
  - left. destruct (dead_refuses s base adm s0 D) as [x Hx]. unfold run_label, admits. rewrite Hx. cbn [fst snd]. by rewrite app_nil_r.
  - left. by apply dead_resume.
  - left. by apply dead_cancel.
  - cbn [enabled] in H. by rewrite He in H.
  - cbn [enabled] in H. by rewrite He in H.
  - cbn [enabled] in H. by rewrite He in H.
  - cbn [enabled] in H. by rewrite He in H.
  - left. eapply (dead_mono s); [done|by exists []; rewrite app_nil_r|done|exact He|by eexists| |done].
    unfold run_label, ignore, close_begin, modifyW, modifyM, mbind, M_bind, mret, M_ret. cbn [fst wr stage].
    destruct (stage (wr s)); auto.
  - right. cbn [enabled] in H. apply andb_true_iff in H as [Hp _]. destruct (putting (wr s)) eqn:Hput; [done|].
    unfold run_label, ignore, mbind, M_bind.
    assert (close_enter c s = finish_close c (Err (FeatureParquetError "feature writer failed")) s) as ->.
    { unfold close_enter. rewrite (run_bind _ _ _ s (wr s)) by done. by rewrite He. }
    pose proof (dead_finishes s base adm (Err (FeatureParquetError "feature writer failed")) D ltac:(done) Hput) as Hf.
    by destruct (finish_close _ _ s) as [s' [?|?]].
  - right. cbn [enabled] in H. apply andb_true_iff in H as [[_ Hp]%andb_true_iff _]. destruct (putting (wr s)) eqn:Hput; [done|].
    unfold run_label, ignore, mbind, M_bind.
    assert (close_finish c s = finish_close c (Err (FeatureParquetError "feature writer failed")) s) as ->.
    { unfold close_finish. rewrite (run_bind _ _ _ s (wr s)) by done. by rewrite He. }
    pose proof (dead_finishes s base adm (Err (FeatureParquetError "feature writer failed")) D ltac:(done) Hput) as Hf.
    by destruct (finish_close _ _ s) as [s' [?|?]].
  - by destruct (Hl interrupted).
Qed.

Lemma closed_step s base adm l :
  closed s base adm → enabled c l s = true → (∀ i, l ≠ LCrash i) →
  closed (run_label c l s).1 base (adm ++ admits l s).
Proof using Type.
  intros Cl H Hl. pose proof Cl as (r & lost & Hh & Hst & Hr & Hc & Hput & Ht).
  destruct l; try (unfold admits; rewrite app_nil_r); cbn [enabled] in H; rewrite ?Hput, ?Hst in H; try done.
  - unfold run_label, ignore, writer_start_all, getW, getM, requireM, liftM, mbind, M_bind, mret, M_ret. by rewrite Hc.
  - assert (write c s0 s = (s, Err (FeatureParquetError "cannot write after close"))) as Hw.
    { unfold write, writable, getW, getM, requireM, liftM, mbind, M_bind, mret, M_ret. by rewrite Hc. }
    unfold run_label, admits. rewrite Hw. cbn [fst snd]. by rewrite app_nil_r.
  - by destruct (task (wr s)).
  - by destruct (task (wr s)).
  - by destruct (task (wr s)).
  - by destruct (task (wr s)).
  - exists r, lost. unfold run_label, ignore, close_begin, modifyW, modifyM, mbind, M_bind, mret, M_ret.
    cbn [fst wr stage disk w_closed putting task]. by rewrite Hst.
  - by rewrite andb_false_r in H.
  - by destruct (Hl interrupted).
Qed.

(** ** Start *)

(** During a start: the tree is as it was, the writer new but for its index and claim. *)
Definition starting (f0 : filesystem) (s : Store) : Prop :=
  agrees root f0 (disk s) ∧ ∃ ix rc, wr s = {| writer_init with index := ix; root_claim := rc |}.

Lemma keeps_starting_mkdir f0 p :
  is_dir root f0 = true → is_dir (schema_root root) f0 = true →
  (∀ n, harmless root (take n p) ∨ take n p = root ∨ take n p = schema_root root) →
  keepsM (starting f0) (on_disk (mkdir p)) (λ _, True).
Proof using Type.
  intros Hr Hs Hp. eapply (keeps_zoom _ _ _ _ (agrees root f0)).
  - by intros s [].
  - intros f s [_ H] Hf. by split.
  - apply keeps_forM. intros q Hq. apply list_elem_of_fmap in Hq as (n & -> & _). by apply keeps_make_one.
Qed.

Lemma root_prefixes n : harmless root (take n root) ∨ take n root = root ∨ take n root = schema_root root.
Proof using Type.
  destruct (decide (n < length root)%nat).
  - left. apply short_harmless. rewrite length_take. lia.
  - right. left. apply take_ge. lia.
Qed.

Lemma base_prefixes n :
  let p := take n (index_base root) in harmless root p ∨ p = root ∨ p = schema_root root.
Proof using Type.
  cbn zeta. unfold index_base. case_bool_decide; [|apply root_prefixes]. unfold path_parent. rewrite take_take.
  apply root_prefixes.
Qed.

Lemma keeps_acquire f0 : keepsM (starting f0) (acquire_root_claim c) (λ _, True).
Proof using Type.
  apply keeps_bind with (Q := λ _, True); [eapply keeps_mono; [apply keeps_get|done]|intros s _].
  apply keeps_bind with (Q := λ _, True); [eapply keeps_mono; [apply keeps_require|done]|intros _ _].
  apply keeps_bind with (Q := λ _, True).
  - apply keeps_modify. intros s' [H1 H2]. by split.
  - intros _ _. apply keeps_modify. intros s' [H1 (ix & rc & H2)]. split; [done|]. cbn [wr]. rewrite H2. by exists ix, true.
Qed.

Lemma cleanup_run f0 s :
  starting f0 s → ∃ s', (_ ← close_index; release_root_claim c) s = (s', Ok tt) ∧
    agrees root f0 (disk s') ∧ wr s' = writer_init.
Proof using Type.
  intros [Ha (ix & rc & Hw)]. unfold close_index, release_root_claim, modifyW, modifyM, getW, getM, mbind, M_bind, mret, M_ret.
  cbn [wr root_claim]. rewrite Hw. cbn [root_claim].
  destruct rc; eexists; (split; [reflexivity|]); cbn [disk wr]; done.
Qed.

Lemma holds_agrees f f' base adm lost : holds f base adm lost → agrees root f f' → holds f' base adm lost.
Proof using Type. intros (recs & So & Hp) Ha. exists recs. split; [by eapply sound_agrees|done]. Qed.

Lemma started_live s t recs base :
  sound root (disk s) recs → map logical recs ≡ₚ base → represents t (committed_entries recs) →
  wr s = {| writer_init with index := Some t; root_claim := true; task := Collecting [] |} →
  live s t base [].
Proof using Type.
  intros So Hp Ht Hw. split; rewrite Hw; try done.
  - change (core (disk s) t [] [] [] [] base []). split; [|constructor].
    exists recs, (map logical recs). simpl. rewrite !app_nil_r. split; [done|]. split; [done|].
    assert (entries (map logical recs) [] = committed_entries recs) as ->.
    { unfold entries, committed_entries. rewrite map_map. simpl. by rewrite app_nil_r. }
    split; [done|]. split; [done|]. by split.
  - split; [by exists []|done].
Qed.

(** Starting a new writer on a sound tree: it is at work, or nothing has happened. *)
Lemma fresh_start s base adm :
  fresh s base adm → (∃ t, live (run_label c LStart s).1 t base adm) ∨ fresh (run_label c LStart s).1 base adm.
Proof using Type.
  intros (Hh & -> & st & _ & Hst & Hw). unfold run_label.
  destruct Hst as [-> | ->].
  2: { right. unfold ignore, writer_start_all, getW, getM, requireM, liftM, mbind, M_bind, mret, M_ret. rewrite Hw. cbn.
       split; [done|]. split; [done|]. exists CloseRequested. rewrite Hw. auto. }
  assert (starting (disk s) s) as Hs0.
  { destruct Hh as (recs & So & _). split; [apply agrees_refl, So|]. rewrite Hw. by exists None, false. }
  pose proof Hh as (recs & So & Hp). rewrite app_nil_r in Hp. simpl in Hp. rewrite app_nil_r in Hp.
  set (body := (_ ← on_disk (mkdir (index_base root)); _ ← acquire_root_claim c;
    _ ← on_disk (mkdir (schema_root root)); s ← getM;
    t ← liftM (rebuild_feature_index root (disk s)); _ ← set_index t;
    modifyW (λ w, {| w with task := Collecting [] |})) : M Store unit).
  assert (∀ s' r, body s = (s', r) →
    match r with
    | Ok _ => ∃ t, live s' t base []
    | Err _ => ∃ s2, (_ ← close_index; release_root_claim c) s' = (s2, Ok tt) ∧ fresh s2 base []
    end) as Hbody.
  { intros s' r Hrun. destruct r as [[]|e].
    - unfold body in Hrun. apply bindM_Ok in Hrun as (s1 & [] & H1 & Hrun).
      eapply keeps_starting_mkdir in H1 as [K1 _]; [|apply So|apply So|apply base_prefixes|exact Hs0].
      apply bindM_Ok in Hrun as (s2 & [] & H2 & Hrun). 
      assert (root_claim (wr s2) = true) as Hrc.
      { unfold acquire_root_claim, modifyW in H2. inv_M. reflexivity. }
      apply keeps_acquire with (f0 := disk s) in H2 as [K2 _]; [|done].
      apply bindM_Ok in Hrun as (s3 & [] & H3 & Hrun). pose proof H3 as H3'.
      eapply keeps_starting_mkdir in H3 as [[A3 (ix & rc & W3)] _]; [|apply So|apply So|apply schema_prefixes|exact K2].
      apply zoomM_Ok in H3' as (f3 & _ & E3). rewrite E3 in W3. cbn [wr] in W3.
      apply bindM_Ok in Hrun as (s4 & s4' & [= <- <-] & Hrun). apply bindM_Ok in Hrun as (s5 & t & [Ht ->]%liftM_Ok & Hrun).
      destruct (rebuild_spec root (disk s3) recs) as (t' & Ht' & Hrep); [by eapply sound_agrees|].
      rewrite Ht in Ht'. injection Ht' as ->.
      apply bindM_Ok in Hrun as (s6 & [] & [= <-] & [= <-]). exists t'.
      eapply (started_live _ _ recs); [by eapply sound_agrees| done|done|].
      rewrite E3. cbn [wr]. rewrite W3. rewrite W3 in Hrc. cbn [root_claim] in Hrc. by rewrite Hrc.
    - assert (starting (disk s) s') as Hs'.
      { revert Hrun. unfold body. intros Hrun.
        apply bindM_Err in Hrun as [Hrun|(s1 & [] & H1 & Hrun)].
        { eapply keeps_starting_mkdir in Hrun as [? _]; [done|apply So|apply So|apply base_prefixes|exact Hs0]. }
        eapply keeps_starting_mkdir in H1 as [K1 _]; [|apply So|apply So|apply base_prefixes|exact Hs0].
        apply bindM_Err in Hrun as [Hrun|(s2 & [] & H2 & Hrun)].
        { by apply keeps_acquire with (f0 := disk s) in Hrun as [? _]. }
        apply keeps_acquire with (f0 := disk s) in H2 as [K2 _]; [|done].
        apply bindM_Err in Hrun as [Hrun|(s3 & [] & H3 & Hrun)].
        { eapply keeps_starting_mkdir in Hrun as [? _]; [done|apply So|apply So|apply schema_prefixes|exact K2]. }
        eapply keeps_starting_mkdir in H3 as [K3 _]; [|apply So|apply So|apply schema_prefixes|exact K2].
        apply bindM_Err in Hrun as [Hrun|(s4 & s4' & [= <- <-] & Hrun)]; [done|].
        apply bindM_Err in Hrun as [Hrun|(s5 & t & [Ht ->]%liftM_Ok & Hrun)].
        { unfold liftM in Hrun. by injection Hrun as <- _. }
        apply bindM_Err in Hrun as [Hrun|(s6 & [] & _ & Hrun)]; discriminate Hrun. }
      destruct (cleanup_run _ _ Hs') as (s2 & E2 & A2 & W2). exists s2. split; [done|].
      split; [by eapply holds_agrees|]. split; [done|]. exists NotClosing. rewrite W2. auto. }
  assert (writer_start_all c s = on_exception body (λ _, FeatureParquetError "cannot initialize feature writer")
    (_ ← close_index; release_root_claim c) s) as Hrun.
  { unfold writer_start_all. rewrite (run_bind _ _ _ s (wr s)) by done. rewrite Hw.
    erewrite run_bind; [|reflexivity]. by erewrite run_bind; [|reflexivity]. }
  assert (∀ o : Store * res (option FeatureWriteStatus), o = ignore (writer_start_all c) s → o.1 = (writer_start_all c s).1) as Hig.
  { intros o ->. unfold ignore, mbind, M_bind. by destruct (writer_start_all c s) as [? [?|?]]. }
  rewrite (Hig _ eq_refl), Hrun. unfold on_exception. destruct (body s) as [s' [[]|e]] eqn:E.
  - left. exact (Hbody _ _ eq_refl).
  - right. destruct (Hbody _ _ eq_refl) as (s2 & E2 & Hf). by rewrite E2.
Qed.

Lemma fresh_step s base adm l :
  fresh s base adm → enabled c l s = true → (∀ i, l ≠ LCrash i) →
  inv (run_label c l s).1 base (adm ++ admits l s).
Proof using Type.
  intros F H Hl. pose proof F as (Hh & -> & st & _ & Hst & Hw).
  destruct l; try (unfold admits; rewrite app_nil_r); cbn [enabled] in H; rewrite ?Hw in H; try done.
  - destruct (fresh_start s base [] F) as [?|?]; [by right; left|by left].
  - left. assert (∃ e, write c s0 s = (s, Err e)) as [e Hw2].
    { unfold write, writable, has_task, getW, getM, requireM, liftM, mbind, M_bind, mret, M_ret. rewrite Hw.
      cbn [w_closed writer_init negb require task].
      destruct (not_closing _); cbn [require]; by eexists. }
    unfold run_label, admits. rewrite Hw2. exact F.
  - left. split; [done|]. split; [done|]. exists CloseRequested.
    unfold run_label, ignore, close_begin, modifyW, modifyM, mbind, M_bind, mret, M_ret. cbn [fst wr]. rewrite Hw.
    cbn [stage writer_init]. destruct Hst as [-> | ->]; auto.
  - right. right. right. assert (∃ s', close_enter c s = (s', Ok tt) ∧ disk s' = disk s ∧ stage (wr s') = CloseDone (Ok tt) ∧
      w_closed (wr s') = true ∧ putting (wr s') = None ∧ task (wr s') = NotStarted) as (s' & E & E1 & E2 & E3 & E4 & E5).
    { unfold close_enter. rewrite (run_bind _ _ _ s (wr s)) by done. rewrite Hw. cbn [task writer_init].
      unfold close_index, release_root_claim, modifyW, modifyM, getW, getM, mbind, M_bind, mret, M_ret.
      cbn [wr root_claim]. rewrite Hw. cbn [root_claim writer_init]. eexists. split; [reflexivity|].
      cbn [disk wr stage w_closed putting task]. done. }
    unfold run_label, ignore, mbind, M_bind. rewrite E. cbn [fst mret M_ret]. exists (Ok tt), []. rewrite E1, E2, E3, E4, E5.
    done.
  - by destruct (Hl interrupted).
Qed.

Lemma live_step s t base adm l :
  live s t base adm → enabled c l s = true → (∀ i, l ≠ LCrash i) → fresh_target c s l = true →
  (∀ x, l = LWrite x → storable_snapshot x) → inv (run_label c l s).1 base (adm ++ admits l s).
Proof using Laws Hconfig.
  intros L H Hl Hf Hx. destruct l; try (unfold admits; rewrite app_nil_r).
  - right. left. exists t. by rewrite (live_start s t base adm L).
  - right. left. apply (live_write s t base adm); [done|done|by apply Hx].
  - right. left. exists t. by apply live_resume.
  - right. left. by apply (live_cancel s t).
  - right. left. exists t. by apply live_get.
  - right. left. exists t. by apply live_timeout.
  - destruct (live_place s t base adm nonce fault L H Hf) as [?|?]; [by right; left; exists t|by right; right; left].
  - right. left. by apply (live_commit s t).
  - right. left. exists t. by apply live_close.
  - right. left. exists t. by apply live_close_enter.
  - right. right. right. by apply (live_close_finish s t).
  - by destruct (Hl interrupted).
Qed.

(** ** Sessions *)

(** The life of a writer: started on a sound tree that holds [base], it has taken any
    steps but a crash, and has put [adm] in its queue.  Every snapshot it was given is
    valid, and no file name was taken. *)
Inductive session : Store → list item → list FeatureEnvelope → Prop :=
| session_new s recs : sound root (disk s) recs → wr s = writer_init → session s (map logical recs) []
| session_step s s' base adm l :
    session s base adm → step c s l s' → (∀ i, l ≠ LCrash i) → fresh_target c s l = true →
    (∀ x, l = LWrite x → storable_snapshot x) → session s' base (adm ++ admits l s).

Lemma session_inv s base adm : session s base adm → inv s base adm.
Proof using Laws Hconfig.
  induction 1 as [s recs So Hw|s s' base adm l _ IH Hst Hl Hf Hx].
  - left. split; [exists recs; split; [done|]; by rewrite !app_nil_r|]. split; [done|]. exists NotClosing. rewrite Hw. auto.
  - destruct Hst as [He]. destruct IH as [F|[[t L]|[D|C]]].
    + by apply fresh_step.
    + by eapply live_step.
    + right. right. by apply dead_step.
    + right. right. right. by apply closed_step.
Qed.

Lemma inv_holds s base adm : inv s base adm → ∃ lost, holds (disk s) base adm lost.
Proof using Type.
  intros [(Hh & -> & _)|[[t L]|[(H & _)|(r & lost & H & _)]]]; [by eexists|eexists; by eapply live_holds|done|by exists lost].
Qed.
End store.
