(* ===== verification/FeatureStoreResult.v ===== *)
(** * What the feature store promises

    Accepted snapshots reach the disk once, a close that succeeds leaves them all there
    in the order a scan gives them, a crash at any point loses at most what was in memory
    and the next start knows exactly what is on disk, and [write] answers by what was
    accepted before and not by what its cache still remembers. *)

From S2P Require Import Prelude Effects PyDecimal PyFloat Models FeatureModels FeatureRuntime Fingerprint FeatureRows FeatureTree FeatureScan FeatureAudit FeatureDisk FeatureWriter FeatureStore.
Open Scope Z_scope.

Section result.
Context {Codec : FeatureCodec} {Laws : PayloadLaws} (c : WriterSettings).
Hypothesis Hconfig : sha256_pattern (ws_config_hash c) = true.

(** The worker runs. *)
Definition working (s : Store) : Prop :=
  match task (wr s) with Collecting _ | Flushing _ _ _ => True | _ => False end.

(** What the store has been given and took. *)
Definition taken (base : list item) (adm : list FeatureEnvelope) : list item := base ++ map env_item adm.

(** C23. Whatever the order of the steps of the callers, the worker and the close, the
    tree on disk is sound, no identifier is there twice, and what it holds together with
    what is missing is what it held at the start and what was accepted since; while the
    worker runs, what is missing is in the queue or in the batch; after a close that
    succeeded nothing is. *)
Theorem accepted_exactly_once s base adm :
  session c s base adm →
  ∃ recs missing, sound (ws_root c) (disk s) recs ∧ NoDup (map rec_id recs) ∧
    map logical recs ++ missing ≡ₚ taken base adm ∧
    (working s → missing = map env_item (in_memory (wr s))) ∧
    (stage (wr s) = CloseDone (Ok tt) → missing = []).
Proof using Laws Hconfig.
  intros S. destruct (session_inv c Hconfig s base adm S) as [F|[[t L]|[D|C]]].
  - destruct F as ((recs & So & Hp) & -> & st & Est & Hst & Hw). exists recs, [].
    split; [done|]. split; [apply So|]. split; [exact Hp|]. split; [|done]. unfold working. by rewrite Hw.
  - destruct (live_holds c s t base adm L) as (recs & So & Hp). exists recs, (map env_item (in_memory (wr s))).
    split; [done|]. split; [apply So|]. split; [exact Hp|]. split; [done|]. intros Hst.
    destruct L as [_ _ _ L4 _ _ _]. unfold control in L4. by rewrite Hst in L4.
  - destruct D as ((lost & recs & So & Hp) & [e He] & _ & Hst & _). exists recs, lost.
    split; [done|]. split; [apply So|]. split; [exact Hp|]. unfold working. rewrite He. split; [done|].
    intros E. by rewrite E in Hst.
  - destruct C as (r & lost & (recs & So & Hp) & Hst & Hr & _ & _ & Ht). exists recs, lost.
    split; [done|]. split; [apply So|]. split; [exact Hp|]. split.
    + unfold working. by destruct (task (wr s)).
    + intros E. rewrite E in Hst. injection Hst as <-. by apply Hr.
Qed.

Lemma session_closed s base adm :
  session c s base adm → stage (wr s) = CloseDone (Ok tt) → holds c (disk s) base adm [].
Proof using Laws Hconfig.
  intros S Hst. destruct (session_inv c Hconfig s base adm S) as [F|[[t L]|[D|C]]].
  - destruct F as (_ & _ & st & Est & Ho & Hw). rewrite Est in Hst. destruct Ho; congruence.
  - destruct L as [_ _ _ L4 _ _ _]. unfold control in L4. by rewrite Hst in L4.
  - destruct D as (_ & _ & _ & H & _). by rewrite Hst in H.
  - destruct C as (r & lost & H & E & Hr & _). rewrite Hst in E. injection E as <-. by rewrite Hr in H by done.
Qed.

(** C25. A close that succeeds delivers: a scan of the directory, with any batch size,
    then gives what it held before and every accepted snapshot, each once, with the
    content it was accepted with, by decision time, symbol, window, venue and
    identifier. *)
Theorem close_delivers s base adm n rd :
  session c s base adm → stage (wr s) = CloseDone (Ok tt) → taken base adm ≠ [] →
  mk_reader (ws_root c) n = Ok rd →
  ∃ out, scan rd no_filter (disk s) = Ok out ∧ map logical out = py_sorted logical_leb (taken base adm) ∧
    NoDup (map rec_id out).
Proof using Laws Hconfig.
  intros S Hst Hne Hrd. destruct (session_closed s base adm S Hst) as (recs & So & Hp). rewrite app_nil_r in Hp.
  fold (taken base adm) in Hp. pose proof (so_ids _ _ _ So) as Hn.
  assert (recs ≠ []) as Hr by (intros ->; simpl in Hp; symmetry in Hp; by apply Permutation_nil_r in Hp).
  exists (py_sorted stable_leb recs). split; [by apply (sound_scan (ws_root c) _ _ n)|]. split.
  - rewrite logical_sorted. apply logical_order_unique; [done|]. rewrite map_map. exact Hn.
  - assert (map rec_id (py_sorted stable_leb recs) ≡ₚ map rec_id recs) as -> by (apply fmap_Permutation, py_sorted_perm). done.
Qed.

(** ** Crashes *)

Lemma interrupted_agrees s t base adm nonce :
  live c s t base adm → agrees (ws_root c) (disk s) (interrupted_write c nonce (wr s) (disk s)).
Proof using Type.
  intros [_ _ L3 _ L5 _ _]. pose proof L3 as [(recs & C & So & _) _].
  assert (agrees (ws_root c) (disk s) (disk s)) as Hrefl by apply agrees_refl, So.
  unfold interrupted_write. destruct (task (wr s)) as [| |[|[part l] todo] [|] final| |] eqn:Ht; try done.
  destruct L5 as [_ [[Hne Hpart] _]%Forall_cons]. cbn [fst snd] in *.
  assert (plain_partition part) as Hplain.
  { eapply core_plain; [exact L3|exact Hne|exact Hpart|]. intros e He. unfold in_memory. rewrite Ht.
    cbn [to_place map snd concat]. apply elem_of_app. right. apply elem_of_app. by left. }
  destruct (part_filename _) as [name|]; [|done].
  change (partition_directory (ws_root c) part) with (schema_root (ws_root c) ++ partition_names part).
  destruct ((_ ← mkdir (schema_root (ws_root c) ++ partition_names part); write_table _ _ _) (disk s)) as [f r] eqn:E.
  eapply (keeps_bind (agrees (ws_root c) (disk s)) _ _ (λ _, True) (λ _, True)) in E as [H _]; [exact H| | |done].
  - apply keeps_mkdir; [apply So|apply So|exact Hplain].
  - intros _ _. apply keeps_write_table. rewrite <- app_assoc.
    by apply (below_harmless _ _ (temporary_name name nonce)), temporary_plain.
Qed.

(** C24. A process killed at any point leaves a sound tree, even in the middle of a file:
    it holds only what was there or was accepted, at most what was in memory is missing,
    the index a restart rebuilds knows exactly the identifiers that are there, all
    committed, and a new writer starts its session on them. *)
Theorem crash_consistent s base adm interrupted :
  session c s base adm →
  let s' := (run_label c (LCrash interrupted) s).1 in
  ∃ recs missing t, sound (ws_root c) (disk s') recs ∧
    map logical recs ++ missing ≡ₚ taken base adm ∧
    (working s → missing = map env_item (in_memory (wr s))) ∧
    rebuild_feature_index (ws_root c) (disk s') = Ok t ∧
    (∀ id r, t !! uuid_text id = Some r ↔ (id, ix_identity r, ix_state r) ∈ committed_entries recs) ∧
    session c s' (map logical recs) [].
Proof using Laws Hconfig.
  intros S s'.
  assert (wr s' = writer_init) as Hw' by done.
  assert (∃ recs missing, sound (ws_root c) (disk s') recs ∧ map logical recs ++ missing ≡ₚ taken base adm ∧
    (working s → missing = map env_item (in_memory (wr s)))) as (recs & missing & So & Hp & Hm).
  { assert (disk s' = match interrupted with Some n => interrupted_write c n (wr s) (disk s) | None => disk s end) as -> by done.
    assert (∀ f : filesystem, f = match interrupted with Some n => interrupted_write c n (wr s) (disk s) | None => disk s end →
      ¬ working s → f = disk s) as Hidle.
    { intros f -> Hn. destruct interrupted; [|done]. unfold interrupted_write, working in *. by destruct (task (wr s)) as [| |[|[? ?] ?] [|] ?| |]. }
    destruct (session_inv c Hconfig s base adm S) as [F|[[t L]|[D|C]]].
    - destruct F as ((recs & So & Hp) & -> & st & Est & Hst & Hw).
      assert (¬ working s) as Hn by (unfold working; rewrite Hw; by intros []). rewrite (Hidle _ eq_refl Hn). by exists recs, [].
    - destruct (live_holds c s t base adm L) as (recs & So & Hp). exists recs, (map env_item (in_memory (wr s))).
      split; [|done]. destruct interrupted as [n|]; [|done]. eapply sound_agrees; [exact So|]. by eapply interrupted_agrees.
    - destruct D as ((lost & recs & So & Hp) & [e He] & _).
      assert (¬ working s) as Hn by (unfold working; rewrite He; by intros []). rewrite (Hidle _ eq_refl Hn). by exists recs, lost.
    - destruct C as (r & lost & (recs & So & Hp) & _ & _ & _ & _ & Ht).
      assert (¬ working s) as Hn by (unfold working; intros Hn; by destruct (task (wr s))). rewrite (Hidle _ eq_refl Hn). by exists recs, lost. }
  destruct (rebuild_spec _ _ _ So) as (t & Ht & Hrep). exists recs, missing, t.
  split; [done|]. split; [done|]. split; [done|]. split; [done|]. split; [|by apply session_new].
  intros id r. by apply represents_lookup.
Qed.

(** ** What [write] answers *)

(** The identity an identifier was taken with. *)
Definition taken_with (known : list item) (id : UUID) (i : string * string * string) : Prop :=
  ∃ x, (x, i) ∈ known ∧ snapshot_id x = id.

Lemma live_known s t base adm id :
  live c s t base adm → putting (wr s) = None →
  (∀ r, t !! uuid_text id = Some r → taken_with (taken base adm) id (ix_identity r)) ∧
  (∀ i, taken_with (taken base adm) id i → ∃ r, t !! uuid_text id = Some r ∧ ix_identity r = i).
Proof using Type.
  intros [_ _ L3 _ _ _ _] Hput. destruct L3 as [(recs & C & So & H1 & H2 & H3 & _) _].
  unfold waiting in H2. rewrite Hput, app_nil_r in H2. fold (taken base adm) in H3.
  rewrite H1 in H3. set (P := placed_now _) in *. set (Mm := in_memory _) in *.
  assert (∀ x i, (x, i) ∈ taken base adm ↔ (x, i) ∈ C ∨ ∃ e, e ∈ P ++ Mm ∧ env_item e = (x, i)) as Hin.
  { intros x i. rewrite <- H3, !elem_of_app. setoid_rewrite elem_of_app. rewrite !list_elem_of_fmap. split.
    - intros [[?|(e & -> & ?)]|(e & -> & ?)]; [by left|right; exists e; auto..].
    - intros [?|(e & [?|?] & <-)]; [by left; left|left; right; eauto|right; eauto]. }
  split.
  - intros r Hr. apply (represents_lookup _ _ _ _ H2) in Hr. unfold entries in Hr. apply elem_of_app in Hr as [Hr|Hr].
    + apply list_elem_of_fmap in Hr as ([x i] & [= -> -> _] & Hx). exists x. split; [|done]. apply Hin. by left.
    + apply list_elem_of_fmap in Hr as (e & [= -> -> _] & Hx). exists (env_snapshot e). split; [|done]. apply Hin. right. by exists e.
  - intros i (x & Hx & <-). apply Hin in Hx as [Hx|(e & He & [= <- <-])].
    + exists {| ix_identity := i; ix_state := COMMITTED |}. split; [|done]. apply (represents_lookup _ _ _ _ H2).
      apply elem_of_app. left. apply list_elem_of_fmap. by exists (x, i).
    + exists (reserved_row e). split; [|done]. apply (represents_lookup _ _ _ _ H2).
      apply elem_of_app. right. apply list_elem_of_fmap. by exists e.
Qed.

(** Deduplication does not depend on the cache: while the writer works, a call of
    [write] is answered by what was on disk at the start and what was accepted since,
    however little the cache of identities remembers.  A new identifier is accepted or
    waits for room; a known one with the same content is deduplicated; with other content
    it is refused, and neither touches what the store holds. *)
Theorem write_decides s base adm x e :
  session c s base adm → working s → stage (wr s) = NotClosing → putting (wr s) = None →
  storable_snapshot x → envelope (ws_config_hash c) (ws_strategy_version c) x = Ok e →
  let '(s', r) := write c x s in
  (taken_with (taken base adm) (snapshot_id x) (content_identity e) →
     r = Ok (Some DEDUPLICATED) ∧ disk s' = disk s ∧ queue (wr s') = queue (wr s)) ∧
  (∀ i, taken_with (taken base adm) (snapshot_id x) i → i ≠ content_identity e →
     s' = s ∧ r = Err (FeatureParquetError "duplicate feature_snapshot_id has different content")) ∧
  ((∀ i, ¬ taken_with (taken base adm) (snapshot_id x) i) →
     if full c (wr s)
     then (∀ f, ws_on_backpressure c = Some f → is_ok (f x) = true) → r = Ok None ∧ putting (wr s') = Some (Submission e)
     else r = Ok (Some ACCEPTED) ∧ queue (wr s') = queue (wr s) ++ [Submission e]).
Proof using Laws Hconfig.
  intros S Hwk Hst Hput Hx He.
  assert (∃ t, live c s t base adm) as [t L].
  { unfold working in Hwk. destruct (session_inv c Hconfig s base adm S) as [F|[?|[D|C]]]; [|done|..].
    - destruct F as (_ & _ & st & _ & _ & Hw). by rewrite Hw in Hwk.
    - destruct D as (_ & [e' He'] & _). by rewrite He' in Hwk.
    - destruct C as (_ & _ & _ & _ & _ & _ & _ & Ht). by destruct (task (wr s)). }
  assert (not_closing (wr s) = true) as Hnc by (unfold not_closing; by rewrite Hst).
  rewrite (write_run c s t base adm x L Hput Hnc (λ e', envelope_storable c x e' Hx)). unfold write_outcome. rewrite He.
  pose proof He as (Ee & _)%envelope_Ok. assert (env_snapshot e = x) as Hsx by by rewrite Ee.
  rewrite Hsx. destruct (live_known s t base adm (snapshot_id x) L Hput) as [K1 K2].
  destruct (t !! uuid_text (snapshot_id x)) as [r|] eqn:Hr.
  - assert (∀ i, taken_with (taken base adm) (snapshot_id x) i → ix_identity r = i) as Hone.
    { intros i Hi. destruct (K2 i Hi) as (r' & [= ->] & ?). done. }
    pose proof (K1 r eq_refl) as Hk. destruct (bool_decide_reflect (ix_identity r = content_identity e)) as [E|E].
    + split; [done|]. split; [|intros Hno; by apply Hno in Hk]. intros i Hi Hd. by rewrite <- (Hone i Hi) in Hd.
    + split; [|split; [done|intros Hno; by apply Hno in Hk]]. intros Hi. by destruct (E (Hone _ Hi)).
  - assert (∀ i, ¬ taken_with (taken base adm) (snapshot_id x) i) as Hno by (intros i Hi; by destruct (K2 i Hi) as (? & ? & _)).
    destruct (full c (wr s)); [destruct (ws_on_backpressure c) as [f|] eqn:Hf; [destruct (f x) eqn:Hfx|]|].
    all: split; [intros Hi; by destruct (Hno _ Hi)|split; [intros i Hi; by destruct (Hno _ Hi)|]].
    all: intros _; try done.
    intros Hok. specialize (Hok f eq_refl). by rewrite Hfx in Hok.
Qed.
End result.
