(* ===== verification/FeatureWire.v ===== *)
(** * A concrete payload codec

    The store takes the text of a snapshot as a parameter and relies on one fact about it:
    a valid snapshot is what validating its text gives.  This file gives a codec with that
    property, so that the theorems about the store can be evaluated: every field in
    declaration order, numbers in binary, lists and strings with a continuation mark. *)

From Stdlib Require Import Ascii.
From S2P Require Import Prelude PyDecimal PyFloat Models Availability FeatureModels FeatureRuntime FeatureRows.
Open Scope Z_scope.

(** A value written before a rest, and read back from it. *)
Class Wire (A : Type) := {
  put : A → string → string;
  get : string → option (A * string);
  get_put a rest : get (put a rest) = Some (a, rest) }.

#[export] Instance wire_bool : Wire bool.
Proof.
  refine {|
  put (b : bool) (rest : string) := String (if b then "1" else "0")%char rest;
  get (s : string) := match s with
           | String "1" rest => Some (true, rest)
           | String "0" rest => Some (false, rest)
           | _ => None
           end|}.
 by intros [].
Defined.

#[export] Instance wire_unit : Wire unit.
Proof.
  refine {|  put (_ : unit) (rest : string) := rest; get (s : string) := Some (tt, s)|}.
 by intros [].
Defined.

#[export] Instance wire_prod {A B} `{Wire A, Wire B} : Wire (A * B).
Proof.
  refine {|
  put (p : A * B) (rest : string) := put p.1 (put p.2 rest);
  get (s : string) := match get s with
           | Some (a, s) => match get s with Some (b, s) => Some ((a, b), s) | None => None end
           | None => None
           end|}.
 intros [a b] rest.  by rewrite !get_put.
Defined.

(** A type written as another. *)
Definition wire_via {A B} `{Wire B} (to : A → B) (from : B → option A)
    (Hto : ∀ a, from (to a) = Some a) : Wire A.
Proof.
  refine {|
  put (a : A) (rest : string) := put (to a) rest;
  get (s : string) := match get s with
           | Some (b, s) => match from b with Some a => Some (a, s) | None => None end
           | None => None
           end |}.
  intros a rest. by rewrite get_put, Hto.
Defined.

#[export] Instance wire_option {A} `{Wire A} : Wire (option A).
Proof.
  refine {|
  put (o : option A) (rest : string) := match o with Some a => put true (put a rest) | None => put false rest end;
  get (s : string) := match get s with
           | Some (true, s) => match get s with Some (a, s) => Some (Some a, s) | None => None end
           | Some (false, s) => Some (None, s)
           | None => None
           end|}.
 intros [a|] rest; cbv beta iota; by rewrite !get_put.
Defined.

(** Lists, with fuel: a mark before each element, so the text is longer than the list. *)
Fixpoint get_list {A} `{Wire A} (fuel : nat) (s : string) : option (list A * string) :=
  match fuel with
  | O => None
  | S n =>
    match get s with
    | Some (true, s) =>
      match get s with
      | Some (a, s) => match get_list n s with Some (l, s) => Some (a :: l, s) | None => None end
      | None => None
      end
    | Some (false, s) => Some ([], s)
    | None => None
    end
  end.
Definition put_list {A} `{Wire A} (l : list A) (rest : string) : string :=
  foldr (λ a s, put true (put a s)) (put false rest) l.

Lemma get_put_list {A} `{Wire A} (l : list A) n rest :
  (length l < n)%nat → get_list n (put_list l rest) = Some (l, rest).
Proof.
  revert n. induction l as [|a l IH]; intros [|n] Hn; simpl in Hn; try lia; simpl; [done|].
  rewrite get_put. fold (put_list l rest). by rewrite IH by lia.
Qed.

(** The number of elements goes first, and is the fuel. *)
Fixpoint get_positive (s : string) : option (BinNums.positive * string) :=
  match s with
  | String "." rest => Some (xH, rest)
  | String "0" rest => match get_positive rest with Some (p, s) => Some (xO p, s) | None => None end
  | String "1" rest => match get_positive rest with Some (p, s) => Some (xI p, s) | None => None end
  | _ => None
  end.
Fixpoint put_positive (p : BinNums.positive) (rest : string) : string :=
  match p with
  | xH => String "." rest
  | xO p => String "0" (put_positive p rest)
  | xI p => String "1" (put_positive p rest)
  end.

#[export] Instance wire_positive : Wire BinNums.positive.
Proof.
  refine {|  put := put_positive; get := get_positive|}.
 intros p rest. induction p as [p IH|p IH|]; simpl; by rewrite ?IH.
Defined.

#[export] Instance wire_Z : Wire Z.
Proof.
  refine (wire_via (B := option (bool * BinNums.positive))
    (λ z, match z with Z0 => None | Zpos p => Some (true, p) | Zneg p => Some (false, p) end)
    (λ o, Some (match o with None => Z0 | Some (true, p) => Zpos p | Some (false, p) => Zneg p end)) _).
  by intros [].
Defined.

#[export] Instance wire_list {A} `{Wire A} : Wire (list A).
Proof.
  refine {|
  put (l : list A) (rest : string) := put (Z.of_nat (length l)) (put_list l rest);
  get (s : string) := match get s with Some (n, s) => get_list (S (Z.to_nat n)) s | None => None end|}.
 intros l rest.  rewrite get_put, Nat2Z.id. apply get_put_list. lia.
Defined.

Fixpoint get_string (s : string) : option (string * string) :=
  match s with
  | String "0" rest => Some (EmptyString, rest)
  | String "1" (String c rest) =>
    match get_string rest with Some (t, s) => Some (String c t, s) | None => None end
  | _ => None
  end.
Fixpoint put_string (t rest : string) : string :=
  match t with
  | EmptyString => String "0" rest
  | String c t => String "1" (String c (put_string t rest))
  end.

#[export] Instance wire_string : Wire string.
Proof.
  refine {|  put := put_string; get := get_string|}.
 intros t rest. induction t as [|c t IH]; simpl; by rewrite ?IH.
Defined.

#[export] Instance wire_float : Wire float.
Proof.
  refine (wire_via (B := option bool * (option bool * option (bool * (BinNums.positive * Z))))
    (λ x, match x with
          | S754_zero s => (Some s, (None, None))
          | S754_infinity s => (None, (Some s, None))
          | S754_nan => (None, (None, None))
          | S754_finite s m e => (None, (None, Some (s, (m, e))))
          end)
    (λ x, Some match x with
          | (Some s, _) => S754_zero s
          | (_, (Some s, _)) => S754_infinity s
          | (_, (_, Some (s, (m, e)))) => S754_finite s m e
          | _ => S754_nan
          end) _).
  by intros [].
Defined.

(** ** The enumerations and the records of the snapshots *)

#[export] Instance wire_Exchange : Wire Exchange.
Proof.
  refine (wire_via (B := Z)
    (λ x, match x with BINANCE => 0 | OKX => 1 | CROSS_VENUE => 2 | SIMULATED => 3 end)
    (λ n, match n with 0 => Some BINANCE | 1 => Some OKX | 2 => Some CROSS_VENUE | 3 => Some SIMULATED | _ => None end) _).
  by intros [].
Defined.

#[export] Instance wire_seq_id : Wire seq_id.
Proof.
  refine (wire_via (B := option Z * option string)
    (λ x, match x with SeqInt n => (Some n, None) | SeqStr s => (None, Some s) end)
    (λ x, match x with (Some n, _) => Some (SeqInt n) | (_, Some s) => Some (SeqStr s) | _ => None end) _).
  by intros [].
Defined.

#[export] Instance wire_metadata : Wire metadata.
Proof.
  refine (wire_via (B := Exchange * (string * (Z * (Z * (Z * (option seq_id * (option string)))))))
    (λ r, (exchange r, (symbol r, (exchange_timestamp r, (local_receive_timestamp r, (normalization_timestamp r, (sequence_id r, raw_payload_reference r)))))))
    (λ '(x0, (x1, (x2, (x3, (x4, (x5, x6)))))), Some {| exchange := x0; symbol := x1; exchange_timestamp := x2; local_receive_timestamp := x3; normalization_timestamp := x4; sequence_id := x5; raw_payload_reference := x6 |}) _).
  by intros [].
Defined.

#[export] Instance wire_FeatureUnavailableCode : Wire FeatureUnavailableCode.
Proof.
  refine (wire_via (B := Z)
    (λ x, match x with NOT_WARM => 0 | NO_TRADES => 1 | BOOK_UNSYNCHRONIZED => 2 | BOOK_GENERATION_WARMUP => 3 | OPEN_INTEREST_MISSING => 4 | OPEN_INTEREST_STALE => 5 | HEALTH_BLOCKED => 6 | PIPELINE_BACKLOG => 7 | EVENT_GAP => 8 | TIME_ALIGNMENT => 9 | MISSING_BINANCE_SNAPSHOT => 10 | MISSING_OKX_SNAPSHOT => 11 | FUTURE_BINANCE_SNAPSHOT => 12 | FUTURE_OKX_SNAPSHOT => 13 | STALE_BINANCE_SNAPSHOT => 14 | STALE_OKX_SNAPSHOT => 15 | BINANCE_UNHEALTHY => 16 | OKX_UNHEALTHY => 17 | BINANCE_NOT_WARM => 18 | OKX_NOT_WARM => 19 | FEATURE_INPUT_MISSING => 20 | ZERO_DENOMINATOR => 21 | INSUFFICIENT_HISTORY => 22 | LEAD_LAG_INSUFFICIENT => 23 end)
    (λ n, match n with 0 => Some NOT_WARM | 1 => Some NO_TRADES | 2 => Some BOOK_UNSYNCHRONIZED | 3 => Some BOOK_GENERATION_WARMUP | 4 => Some OPEN_INTEREST_MISSING | 5 => Some OPEN_INTEREST_STALE | 6 => Some HEALTH_BLOCKED | 7 => Some PIPELINE_BACKLOG | 8 => Some EVENT_GAP | 9 => Some TIME_ALIGNMENT | 10 => Some MISSING_BINANCE_SNAPSHOT | 11 => Some MISSING_OKX_SNAPSHOT | 12 => Some FUTURE_BINANCE_SNAPSHOT | 13 => Some FUTURE_OKX_SNAPSHOT | 14 => Some STALE_BINANCE_SNAPSHOT | 15 => Some STALE_OKX_SNAPSHOT | 16 => Some BINANCE_UNHEALTHY | 17 => Some OKX_UNHEALTHY | 18 => Some BINANCE_NOT_WARM | 19 => Some OKX_NOT_WARM | 20 => Some FEATURE_INPUT_MISSING | 21 => Some ZERO_DENOMINATOR | 22 => Some INSUFFICIENT_HISTORY | 23 => Some LEAD_LAG_INSUFFICIENT | _ => None end) _).
  by intros [].
Defined.

#[export] Instance wire_FeatureUnavailableReason : Wire FeatureUnavailableReason.
Proof.
  refine (wire_via (B := FeatureUnavailableCode * (string * (option string)))
    (λ r, (reason_code r, (reason_detail r, reason_channel r)))
    (λ '(x0, (x1, x2)), Some {| reason_code := x0; reason_detail := x1; reason_channel := x2 |}) _).
  by intros [].
Defined.

#[export] Instance wire_decimal : Wire decimal.
Proof.
  refine (wire_via (B := Z * (Z))
    (λ r, (dcoef r, dexp r))
    (λ '(x0, x1), Some {| dcoef := x0; dexp := x1 |}) _).
  by intros [].
Defined.

#[export] Instance wire_TradeFlowFeatureValues : Wire TradeFlowFeatureValues.
Proof.
  refine (wire_via (B := option decimal * (option decimal * (option float * (option float * (option float * (option float * (option decimal * (option float))))))))
    (λ r, (aggressive_buy_notional r, (aggressive_sell_notional r, (taker_imbalance r, (taker_imbalance_zscore r, (trade_notional_impulse r, (trade_count_impulse r, (average_trade_notional r, large_trade_share r))))))))
    (λ '(x0, (x1, (x2, (x3, (x4, (x5, (x6, x7))))))), Some {| aggressive_buy_notional := x0; aggressive_sell_notional := x1; taker_imbalance := x2; taker_imbalance_zscore := x3; trade_notional_impulse := x4; trade_count_impulse := x5; average_trade_notional := x6; large_trade_share := x7 |}) _).
  by intros [].
Defined.

#[export] Instance wire_OrderBookFeatureValues : Wire OrderBookFeatureValues.
Proof.
  refine (wire_via (B := option decimal * (option decimal * (option decimal * (option decimal * (option decimal * (option decimal * (option float * (option float * (option decimal * (option float * (option decimal * (option decimal * (option float * (option float * (option float * (option float))))))))))))))))
    (λ r, (weighted_bid_depth r, (weighted_ask_depth r, (bid_liquidity_change r, (ask_liquidity_change r, (added_liquidity_quantity r, (removed_liquidity_quantity r, (liquidity_recovery_quantity_per_second r, (depth_imbalance r, (spread r, (relative_spread r, (book_mid_price r, (microprice r, (buy_slippage_bps r, (sell_slippage_bps r, (book_order_flow_imbalance r, order_flow_imbalance_zscore r))))))))))))))))
    (λ '(x0, (x1, (x2, (x3, (x4, (x5, (x6, (x7, (x8, (x9, (x10, (x11, (x12, (x13, (x14, x15))))))))))))))), Some {| weighted_bid_depth := x0; weighted_ask_depth := x1; bid_liquidity_change := x2; ask_liquidity_change := x3; added_liquidity_quantity := x4; removed_liquidity_quantity := x5; liquidity_recovery_quantity_per_second := x6; depth_imbalance := x7; spread := x8; relative_spread := x9; book_mid_price := x10; microprice := x11; buy_slippage_bps := x12; sell_slippage_bps := x13; book_order_flow_imbalance := x14; order_flow_imbalance_zscore := x15 |}) _).
  by intros [].
Defined.

#[export] Instance wire_PriceFeatureValues : Wire PriceFeatureValues.
Proof.
  refine (wire_via (B := option float * (option float * (option float * (option decimal * (option decimal * (option decimal * (option float * (option bool))))))))
    (λ r, (return_value r, (impulse_zscore r, (realized_volatility r, (atr_1m r, (trailing_high r, (trailing_low r, (recent_move_atr r, abnormal_jump r))))))))
    (λ '(x0, (x1, (x2, (x3, (x4, (x5, (x6, x7))))))), Some {| return_value := x0; impulse_zscore := x1; realized_volatility := x2; atr_1m := x3; trailing_high := x4; trailing_low := x5; recent_move_atr := x6; abnormal_jump := x7 |}) _).
  by intros [].
Defined.

#[export] Instance wire_PriceOpenInterestState : Wire PriceOpenInterestState.
Proof.
  refine (wire_via (B := Z)
    (λ x, match x with PRICE_UP_OI_UP => 0 | PRICE_UP_OI_DOWN => 1 | PRICE_DOWN_OI_UP => 2 | PRICE_DOWN_OI_DOWN => 3 | PriceOpenInterestState_FLAT => 4 end)
    (λ n, match n with 0 => Some PRICE_UP_OI_UP | 1 => Some PRICE_UP_OI_DOWN | 2 => Some PRICE_DOWN_OI_UP | 3 => Some PRICE_DOWN_OI_DOWN | 4 => Some PriceOpenInterestState_FLAT | _ => None end) _).
  by intros [].
Defined.

#[export] Instance wire_OpenInterestFeatureValues : Wire OpenInterestFeatureValues.
Proof.
  refine (wire_via (B := option decimal * (option float * (option float * (option float * (option PriceOpenInterestState)))))
    (λ r, (oi_value_change r, (percentage_change r, (oi_zscore r, (oi_data_age_ms r, price_oi_state r)))))
    (λ '(x0, (x1, (x2, (x3, x4)))), Some {| oi_value_change := x0; percentage_change := x1; oi_zscore := x2; oi_data_age_ms := x3; price_oi_state := x4 |}) _).
  by intros [].
Defined.

#[export] Instance wire_CrowdingState : Wire CrowdingState.
Proof.
  refine (wire_via (B := Z)
    (λ x, match x with CROWDED_LONG => 0 | CROWDED_SHORT => 1 | CrowdingState_MIXED => 2 end)
    (λ n, match n with 0 => Some CROWDED_LONG | 1 => Some CROWDED_SHORT | 2 => Some CrowdingState_MIXED | _ => None end) _).
  by intros [].
Defined.

#[export] Instance wire_CrowdingFeatureValues : Wire CrowdingFeatureValues.
Proof.
  refine (wire_via (B := option decimal * (option float * (option float * (option float * (option float * (option CrowdingState))))))
    (λ r, (crowding_funding_rate r, (funding_zscore r, (mark_index_premium r, (premium_zscore r, (taker_bias r, joint_state r))))))
    (λ '(x0, (x1, (x2, (x3, (x4, x5))))), Some {| crowding_funding_rate := x0; funding_zscore := x1; mark_index_premium := x2; premium_zscore := x3; taker_bias := x4; joint_state := x5 |}) _).
  by intros [].
Defined.

#[export] Instance wire_LiquidationFeatureValues : Wire LiquidationFeatureValues.
Proof.
  refine (wire_via (B := option decimal * (option decimal * (option float * (option bool))))
    (λ r, (public_sample_long_notional r, (public_sample_short_notional r, (public_sample_activity_zscore r, activity_with_oi_decline r))))
    (λ '(x0, (x1, (x2, x3))), Some {| public_sample_long_notional := x0; public_sample_short_notional := x1; public_sample_activity_zscore := x2; activity_with_oi_decline := x3 |}) _).
  by intros [].
Defined.

#[export] Instance wire_FeatureSnapshot : Wire FeatureSnapshot.
Proof.
  refine (wire_via (B := metadata * (UUID * (string * (Z * (Z * (Z * (Z * (option seq_id * (Z * (option Z * (option Z * (option float * (bool * (bool * (list FeatureUnavailableReason * (option TradeFlowFeatureValues * (option OrderBookFeatureValues * (option PriceFeatureValues * (option OpenInterestFeatureValues * (option CrowdingFeatureValues * (option LiquidationFeatureValues)))))))))))))))))))))
    (λ r, (fs_meta r, (feature_snapshot_id r, (fs_strategy_version r, (fs_calculation_timestamp r, (fs_decision_timestamp r, (fs_window_seconds r, (fs_book_generation r, (source_sequence_id r, (source_event_count r, (oldest_source_timestamp r, (newest_source_timestamp r, (fs_data_age_ms r, (fs_is_warm r, (fs_is_healthy r, (fs_unavailable_reasons r, (fs_trade_flow r, (fs_order_book r, (fs_price r, (fs_open_interest r, (fs_crowding r, fs_liquidation r)))))))))))))))))))))
    (λ '(x0, (x1, (x2, (x3, (x4, (x5, (x6, (x7, (x8, (x9, (x10, (x11, (x12, (x13, (x14, (x15, (x16, (x17, (x18, (x19, x20)))))))))))))))))))), Some {| fs_meta := x0; feature_snapshot_id := x1; fs_strategy_version := x2; fs_calculation_timestamp := x3; fs_decision_timestamp := x4; fs_window_seconds := x5; fs_book_generation := x6; source_sequence_id := x7; source_event_count := x8; oldest_source_timestamp := x9; newest_source_timestamp := x10; fs_data_age_ms := x11; fs_is_warm := x12; fs_is_healthy := x13; fs_unavailable_reasons := x14; fs_trade_flow := x15; fs_order_book := x16; fs_price := x17; fs_open_interest := x18; fs_crowding := x19; fs_liquidation := x20 |}) _).
  by intros [].
Defined.

#[export] Instance wire_AlignmentStatus : Wire AlignmentStatus.
Proof.
  refine (wire_via (B := Z)
    (λ x, match x with AlignmentStatus_ALIGNED => 0 | AlignmentStatus_DEGRADED => 1 | AlignmentStatus_STALE_BINANCE => 2 | AlignmentStatus_STALE_OKX => 3 | AlignmentStatus_UNAVAILABLE => 4 end)
    (λ n, match n with 0 => Some AlignmentStatus_ALIGNED | 1 => Some AlignmentStatus_DEGRADED | 2 => Some AlignmentStatus_STALE_BINANCE | 3 => Some AlignmentStatus_STALE_OKX | 4 => Some AlignmentStatus_UNAVAILABLE | _ => None end) _).
  by intros [].
Defined.

#[export] Instance wire_CrossVenueAlignmentResult : Wire CrossVenueAlignmentResult.
Proof.
  refine (wire_via (B := Z * (option UUID * (option UUID * (option Z * (option Z * (option float * (option float * (option float * (option float * (AlignmentStatus * (float * (list FeatureUnavailableReason))))))))))))
    (λ r, (align_decision_timestamp r, (binance_snapshot_id r, (okx_snapshot_id r, (binance_source_timestamp r, (okx_source_timestamp r, (binance_data_age_ms r, (okx_data_age_ms r, (data_age_difference_ms r, (snapshot_time_difference_ms r, (align_status r, (quality r, align_unavailable_reasons r))))))))))))
    (λ '(x0, (x1, (x2, (x3, (x4, (x5, (x6, (x7, (x8, (x9, (x10, x11))))))))))), Some {| align_decision_timestamp := x0; binance_snapshot_id := x1; okx_snapshot_id := x2; binance_source_timestamp := x3; okx_source_timestamp := x4; binance_data_age_ms := x5; okx_data_age_ms := x6; data_age_difference_ms := x7; snapshot_time_difference_ms := x8; align_status := x9; quality := x10; align_unavailable_reasons := x11 |}) _).
  by intros [].
Defined.

#[export] Instance wire_DirectionAgreement : Wire DirectionAgreement.
Proof.
  refine (wire_via (B := Z)
    (λ x, match x with DirectionAgreement_BOTH_POSITIVE => 0 | DirectionAgreement_BOTH_NEGATIVE => 1 | DirectionAgreement_BOTH_FLAT => 2 | DirectionAgreement_DIVERGENT => 3 | DirectionAgreement_UNAVAILABLE => 4 end)
    (λ n, match n with 0 => Some DirectionAgreement_BOTH_POSITIVE | 1 => Some DirectionAgreement_BOTH_NEGATIVE | 2 => Some DirectionAgreement_BOTH_FLAT | 3 => Some DirectionAgreement_DIVERGENT | 4 => Some DirectionAgreement_UNAVAILABLE | _ => None end) _).
  by intros [].
Defined.

#[export] Instance wire_CrossVenuePriceFeatureValues : Wire CrossVenuePriceFeatureValues.
Proof.
  refine (wire_via (B := option decimal * (option decimal * (option decimal * (option decimal * (option decimal * (option float * (option float * (DirectionAgreement * (DirectionAgreement * (option float * (option float * (option float))))))))))))
    (λ r, (binance_mid_price r, (okx_mid_price r, (mid_price_difference r, (mid_price_absolute_spread r, (percentage_spread_denominator r, (mid_price_percentage_spread r, (mid_price_spread_zscore r, (return_direction_agreement r, (price_impulse_direction_agreement r, (price_impulse_strength_difference r, (realized_volatility_difference r, relative_spread_divergence r))))))))))))
    (λ '(x0, (x1, (x2, (x3, (x4, (x5, (x6, (x7, (x8, (x9, (x10, x11))))))))))), Some {| binance_mid_price := x0; okx_mid_price := x1; mid_price_difference := x2; mid_price_absolute_spread := x3; percentage_spread_denominator := x4; mid_price_percentage_spread := x5; mid_price_spread_zscore := x6; return_direction_agreement := x7; price_impulse_direction_agreement := x8; price_impulse_strength_difference := x9; realized_volatility_difference := x10; relative_spread_divergence := x11 |}) _).
  by intros [].
Defined.

#[export] Instance wire_StrengthAgreement : Wire StrengthAgreement.
Proof.
  refine (wire_via (B := Z)
    (λ x, match x with StrengthAgreement_CONSISTENT => 0 | StrengthAgreement_DIVERGENT => 1 | StrengthAgreement_UNAVAILABLE => 2 end)
    (λ n, match n with 0 => Some StrengthAgreement_CONSISTENT | 1 => Some StrengthAgreement_DIVERGENT | 2 => Some StrengthAgreement_UNAVAILABLE | _ => None end) _).
  by intros [].
Defined.

#[export] Instance wire_LiquidityDivergenceStatus : Wire LiquidityDivergenceStatus.
Proof.
  refine (wire_via (B := Z)
    (λ x, match x with LiquidityDivergenceStatus_CONFIRMED_ADDITION => 0 | LiquidityDivergenceStatus_CONFIRMED_REMOVAL => 1 | LiquidityDivergenceStatus_NEUTRAL => 2 | LiquidityDivergenceStatus_DIVERGENT => 3 | LiquidityDivergenceStatus_UNAVAILABLE => 4 end)
    (λ n, match n with 0 => Some LiquidityDivergenceStatus_CONFIRMED_ADDITION | 1 => Some LiquidityDivergenceStatus_CONFIRMED_REMOVAL | 2 => Some LiquidityDivergenceStatus_NEUTRAL | 3 => Some LiquidityDivergenceStatus_DIVERGENT | 4 => Some LiquidityDivergenceStatus_UNAVAILABLE | _ => None end) _).
  by intros [].
Defined.

#[export] Instance wire_CrossVenueOrderFlowFeatureValues : Wire CrossVenueOrderFlowFeatureValues.
Proof.
  refine (wire_via (B := DirectionAgreement * (option float * (StrengthAgreement * (DirectionAgreement * (option float * (option float * (option decimal * (option decimal * (option float * (LiquidityDivergenceStatus))))))))))
    (λ r, (taker_flow_direction_agreement r, (taker_imbalance_difference r, (taker_imbalance_strength_agreement r, (ofi_direction_agreement r, (ofi_difference r, (depth_imbalance_difference r, (liquidity_addition_difference r, (liquidity_removal_difference r, (order_book_recovery_speed_difference r, liquidity_divergence_status r))))))))))
    (λ '(x0, (x1, (x2, (x3, (x4, (x5, (x6, (x7, (x8, x9))))))))), Some {| taker_flow_direction_agreement := x0; taker_imbalance_difference := x1; taker_imbalance_strength_agreement := x2; ofi_direction_agreement := x3; ofi_difference := x4; depth_imbalance_difference := x5; liquidity_addition_difference := x6; liquidity_removal_difference := x7; order_book_recovery_speed_difference := x8; liquidity_divergence_status := x9 |}) _).
  by intros [].
Defined.

#[export] Instance wire_ContextAgreement : Wire ContextAgreement.
Proof.
  refine (wire_via (B := Z)
    (λ x, match x with ContextAgreement_MATCHED => 0 | ContextAgreement_CONFLICT => 1 | ContextAgreement_UNAVAILABLE => 2 end)
    (λ n, match n with 0 => Some ContextAgreement_MATCHED | 1 => Some ContextAgreement_CONFLICT | 2 => Some ContextAgreement_UNAVAILABLE | _ => None end) _).
  by intros [].
Defined.

#[export] Instance wire_DirectionState : Wire DirectionState.
Proof.
  refine (wire_via (B := Z)
    (λ x, match x with DirectionState_POSITIVE => 0 | DirectionState_NEGATIVE => 1 | DirectionState_FLAT => 2 | DirectionState_UNAVAILABLE => 3 end)
    (λ n, match n with 0 => Some DirectionState_POSITIVE | 1 => Some DirectionState_NEGATIVE | 2 => Some DirectionState_FLAT | 3 => Some DirectionState_UNAVAILABLE | _ => None end) _).
  by intros [].
Defined.

#[export] Instance wire_CrowdingAgreement : Wire CrowdingAgreement.
Proof.
  refine (wire_via (B := Z)
    (λ x, match x with CrowdingAgreement_BOTH_LONG => 0 | CrowdingAgreement_BOTH_SHORT => 1 | CrowdingAgreement_BOTH_MIXED => 2 | CrowdingAgreement_ONE_SIDED => 3 | CrowdingAgreement_DIVERGENT => 4 | CrowdingAgreement_UNAVAILABLE => 5 end)
    (λ n, match n with 0 => Some CrowdingAgreement_BOTH_LONG | 1 => Some CrowdingAgreement_BOTH_SHORT | 2 => Some CrowdingAgreement_BOTH_MIXED | 3 => Some CrowdingAgreement_ONE_SIDED | 4 => Some CrowdingAgreement_DIVERGENT | 5 => Some CrowdingAgreement_UNAVAILABLE | _ => None end) _).
  by intros [].
Defined.

#[export] Instance wire_ActivityAgreement : Wire ActivityAgreement.
Proof.
  refine (wire_via (B := Z)
    (λ x, match x with ActivityAgreement_BOTH_ELEVATED => 0 | ActivityAgreement_BOTH_NORMAL => 1 | ActivityAgreement_ONE_SIDED => 2 | ActivityAgreement_DIVERGENT => 3 | ActivityAgreement_UNAVAILABLE => 4 end)
    (λ n, match n with 0 => Some ActivityAgreement_BOTH_ELEVATED | 1 => Some ActivityAgreement_BOTH_NORMAL | 2 => Some ActivityAgreement_ONE_SIDED | 3 => Some ActivityAgreement_DIVERGENT | 4 => Some ActivityAgreement_UNAVAILABLE | _ => None end) _).
  by intros [].
Defined.

#[export] Instance wire_CrossVenuePositioningFeatureValues : Wire CrossVenuePositioningFeatureValues.
Proof.
  refine (wire_via (B := ContextAgreement * (DirectionState * (DirectionState * (option bool * (DirectionAgreement * (option float * (option float * (option float * (option float * (CrowdingAgreement * (option bool * (ActivityAgreement))))))))))))
    (λ r, (price_oi_state_agreement r, (binance_oi_change_direction r, (okx_oi_change_direction r, (oi_context_conflict r, (funding_direction_agreement r, (binance_funding_abnormality r, (okx_funding_abnormality r, (funding_abnormality_difference r, (mark_index_premium_difference r, (crowding_direction_agreement r, (one_sided_crowding_unconfirmed r, liquidation_activity_agreement r))))))))))))
    (λ '(x0, (x1, (x2, (x3, (x4, (x5, (x6, (x7, (x8, (x9, (x10, x11))))))))))), Some {| price_oi_state_agreement := x0; binance_oi_change_direction := x1; okx_oi_change_direction := x2; oi_context_conflict := x3; funding_direction_agreement := x4; binance_funding_abnormality := x5; okx_funding_abnormality := x6; funding_abnormality_difference := x7; mark_index_premium_difference := x8; crowding_direction_agreement := x9; one_sided_crowding_unconfirmed := x10; liquidation_activity_agreement := x11 |}) _).
  by intros [].
Defined.

#[export] Instance wire_CrossVenueConfirmationFeatureValues : Wire CrossVenueConfirmationFeatureValues.
Proof.
  refine (wire_via (B := DirectionAgreement * (DirectionAgreement * (DirectionAgreement * (DirectionAgreement * (option bool * (CrowdingAgreement * (ActivityAgreement * (option float * (option float * (float))))))))))
    (λ r, (conf_price_direction_agreement r, (conf_price_impulse_agreement r, (conf_taker_flow_agreement r, (conf_ofi_agreement r, (conf_oi_context_conflict r, (conf_crowding_agreement r, (conf_liquidation_activity_agreement r, (cross_venue_confirmation r, (divergence_penalty_input r, conf_alignment_quality r))))))))))
    (λ '(x0, (x1, (x2, (x3, (x4, (x5, (x6, (x7, (x8, x9))))))))), Some {| conf_price_direction_agreement := x0; conf_price_impulse_agreement := x1; conf_taker_flow_agreement := x2; conf_ofi_agreement := x3; conf_oi_context_conflict := x4; conf_crowding_agreement := x5; conf_liquidation_activity_agreement := x6; cross_venue_confirmation := x7; divergence_penalty_input := x8; conf_alignment_quality := x9 |}) _).
  by intros [].
Defined.

#[export] Instance wire_LeadLagStatus : Wire LeadLagStatus.
Proof.
  refine (wire_via (B := Z)
    (λ x, match x with LeadLagStatus_BINANCE_LEADS => 0 | LeadLagStatus_OKX_LEADS => 1 | LeadLagStatus_SIMULTANEOUS => 2 | LeadLagStatus_UNAVAILABLE => 3 end)
    (λ n, match n with 0 => Some LeadLagStatus_BINANCE_LEADS | 1 => Some LeadLagStatus_OKX_LEADS | 2 => Some LeadLagStatus_SIMULTANEOUS | 3 => Some LeadLagStatus_UNAVAILABLE | _ => None end) _).
  by intros [].
Defined.

#[export] Instance wire_LeadLagResearchFeatureValues : Wire LeadLagResearchFeatureValues.
Proof.
  refine (wire_via (B := LeadLagStatus * (LeadLagStatus * (LeadLagStatus * (float * (list FeatureUnavailableReason)))))
    (λ r, (price_impulse_status r, (taker_flow_status r, (ofi_status r, (lead_lag_alignment_quality r, lead_lag_unavailable_reasons r)))))
    (λ '(x0, (x1, (x2, (x3, x4)))), Some {| price_impulse_status := x0; taker_flow_status := x1; ofi_status := x2; lead_lag_alignment_quality := x3; lead_lag_unavailable_reasons := x4 |}) _).
  by intros [].
Defined.

#[export] Instance wire_CrossVenueFeatureSnapshot : Wire CrossVenueFeatureSnapshot.
Proof.
  refine (wire_via (B := metadata * (UUID * (string * (string * (string * (Z * (Z * (Z * (option Z * (option Z * (list UUID * (Z * (option string * (Z * (option Z * (option Z * (option float * (bool * (bool * (CrossVenueAlignmentResult * (list FeatureUnavailableReason * (option CrossVenuePriceFeatureValues * (option CrossVenueOrderFlowFeatureValues * (option CrossVenuePositioningFeatureValues * (option CrossVenueConfirmationFeatureValues * (LeadLagResearchFeatureValues))))))))))))))))))))))))))
    (λ r, (cvs_meta r, (cvs_feature_snapshot_id r, (cvs_strategy_version r, (cvs_code_version r, (cvs_config_hash r, (cvs_calculation_timestamp r, (cvs_decision_timestamp r, (cvs_window_seconds r, (binance_book_generation r, (okx_book_generation r, (source_snapshot_ids r, (spread_history_pair_count r, (spread_history_sha256 r, (cvs_source_event_count r, (cvs_oldest_source_timestamp r, (cvs_newest_source_timestamp r, (cvs_data_age_ms r, (cvs_is_warm r, (cvs_is_healthy r, (alignment r, (cvs_unavailable_reasons r, (cvs_price r, (cvs_order_flow r, (cvs_positioning r, (cvs_confirmation r, lead_lag r))))))))))))))))))))))))))
    (λ '(x0, (x1, (x2, (x3, (x4, (x5, (x6, (x7, (x8, (x9, (x10, (x11, (x12, (x13, (x14, (x15, (x16, (x17, (x18, (x19, (x20, (x21, (x22, (x23, (x24, x25))))))))))))))))))))))))), Some {| cvs_meta := x0; cvs_feature_snapshot_id := x1; cvs_strategy_version := x2; cvs_code_version := x3; cvs_config_hash := x4; cvs_calculation_timestamp := x5; cvs_decision_timestamp := x6; cvs_window_seconds := x7; binance_book_generation := x8; okx_book_generation := x9; source_snapshot_ids := x10; spread_history_pair_count := x11; spread_history_sha256 := x12; cvs_source_event_count := x13; cvs_oldest_source_timestamp := x14; cvs_newest_source_timestamp := x15; cvs_data_age_ms := x16; cvs_is_warm := x17; cvs_is_healthy := x18; alignment := x19; cvs_unavailable_reasons := x20; cvs_price := x21; cvs_order_flow := x22; cvs_positioning := x23; cvs_confirmation := x24; lead_lag := x25 |}) _).
  by intros [].
Defined.

(** ** The codec *)

Definition read_as {A} `{Wire A} (s : string) : res A :=
  match get s with Some (a, EmptyString) => Ok a | _ => Err (ValueError "invalid payload") end.

Lemma read_as_put {A} `{Wire A} (a : A) : read_as (put a EmptyString) = Ok a.
Proof. unfold read_as. by rewrite get_put. Qed.

(** A validating reader, over any digest of the text. *)
Definition wire_codec (sha256 : string → string) : FeatureCodec := {|
  model_payload_json s := match s with OSingle f => put f EmptyString | OCross f => put f EmptyString end;
  sha256_text := sha256;
  validate_single_json s := f ← read_as s; validate_feature_snapshot f;
  validate_cross_json s := f ← read_as s; validate_cross_snapshot f |}.

Lemma read_then {A B} `{Wire A} (check : A → res B) (a : A) r :
  check a = r → (f ← read_as (put a EmptyString); check f) = r.
Proof. intros Hr. rewrite read_as_put. exact Hr. Qed.

Lemma wire_laws sha256 : @PayloadLaws (wire_codec sha256).
Proof.
  split; intros x Hx.
  - exact (read_then validate_feature_snapshot x (Ok x) Hx).
  - exact (read_then validate_cross_snapshot x (Ok x) Hx).
Qed.
