(* ===== verification/FeatureStoreDemo.v ===== *)
(** * The feature store evaluated

    Two snapshots of the single-venue engine are given to a writer of an empty tree, a
    batch is flushed, one snapshot comes again, and the writer is closed or killed: the
    theorems of [FeatureStoreResult] at the states of this session. *)

From S2P Require Import Prelude Effects PyDecimal PyFloat PyTime Models FeatureModels FeatureRuntime SingleVenue SingleDemo Fingerprint FeatureRows FeatureTree FeatureScan FeatureAudit FeatureDisk FeatureWriter FeatureStore FeatureStoreResult FeatureWire.
Open Scope Z_scope.

(** ** A session from a list of steps *)

Section runs.
Context {Codec : FeatureCodec} {Laws : PayloadLaws} (c : WriterSettings).

Definition after_step (l : label) (s : Store) : Store := (run_label c l s).1.
Definition after_steps (ls : list label) (s : Store) : Store := foldl (λ s l, after_step l s) s ls.
Fixpoint admitted (ls : list label) (s : Store) : list FeatureEnvelope :=
  match ls with
  | [] => []
  | l :: ls => admits c l s ++ admitted ls (after_step l s)
  end.
Definition allowed (l : label) (s : Store) : bool :=
  enabled c l s && fresh_target c s l && match l with LCrash _ => false | _ => true end.
Fixpoint all_allowed (ls : list label) (s : Store) : bool :=
  match ls with
  | [] => true
  | l :: ls => allowed l s && all_allowed ls (after_step l s)
  end.

Definition writes_storable (l : label) : Prop :=
  match l with LWrite x => storable_snapshot x | _ => True end.

Lemma session_steps ls s base adm :
  session c s base adm → all_allowed ls s = true → Forall writes_storable ls →
  session c (after_steps ls s) base (adm ++ admitted ls s).
Proof using Type.
  revert s adm. induction ls as [|l ls IH]; intros s adm Hs Ha Hx; cbn [after_steps foldl admitted all_allowed] in *.
  - by rewrite app_nil_r.
  - apply andb_prop in Ha as [Hl Ha]. unfold allowed in Hl. apply andb_prop in Hl as [[He Hf]%andb_prop Hc].
    apply Forall_cons in Hx as [Hx Hxs]. rewrite app_assoc. apply (IH (after_step l s)); [|exact Ha|exact Hxs].
    apply (session_step c s); [exact Hs|by apply step_label|by intros i ->|exact Hf|by intros x ->].
Qed.
End runs.

(** ** The demonstration *)

#[export] Instance store_codec : FeatureCodec := wire_codec (λ _, SingleDemo.demo_digest 0 (ETrade (demo_trade 0 1 1 BUY))).
#[export] Instance store_laws : PayloadLaws := wire_laws _.

Definition store_settings : WriterSettings :=
  {| ws_root := ["data"%string]; ws_batch_rows := 2; ws_queue_capacity := 1; ws_deduplication_capacity := 1;
     ws_config_hash := "0000000000000000000000000000000000000000000000000000000000000000";
     ws_strategy_version := "1"; ws_on_backpressure := None |}.
Definition store_tree : filesystem :=
  [(ws_root store_settings, Directory); (schema_root (ws_root store_settings), Directory)].
Definition store_fresh : Store := {| disk := store_tree; claims := ∅; wr := writer_init |}.

Definition store_okx := Eval vm_compute in OSingle demo_okx_snapshot.
Definition store_binance := Eval vm_compute in OSingle demo_binance_snapshot.

(** Both snapshots are accepted and the first is in a batch. *)
Definition store_filling : list label := [LStart; LWrite store_okx; LGet; LWrite store_binance].
Definition store_flushing : list label := store_filling ++ [LGet; LPlace "1" None; LCommit].
Definition store_closing : list label :=
  store_flushing ++ [LPlace "2" None; LCommit; LWrite store_okx; LClose; LCloseEnter; LGet; LCloseFinish].

Lemma store_sound : sound (ws_root store_settings) store_tree [].
Proof.
  assert (∀ p, p ∈ rglob schema_name (ws_root store_settings) store_tree → is_dir p store_tree = true →
    p = schema_root (ws_root store_settings)) as Hd.
  { intros p Hp _. assert (p ∈ [schema_root (ws_root store_settings)]) as Hin by exact Hp. by apply list_elem_of_singleton in Hin. }
  split; try done.
  - intros p Hp. assert (p ∈ []) as Hin by exact Hp. by apply elem_of_nil in Hin.
  - by exists [].
  - constructor.
Qed.

Lemma store_storable : storable_snapshot store_okx ∧ storable_snapshot store_binance.
Proof. by repeat split; vm_compute. Qed.

Lemma store_session ls :
  all_allowed store_settings ls store_fresh = true → Forall writes_storable ls →
  session store_settings (after_steps store_settings ls store_fresh) [] (admitted store_settings ls store_fresh).
Proof.
  intros Ha Hx. apply (session_steps store_settings ls store_fresh [] []); [|exact Ha|exact Hx].
  by apply (session_new store_settings store_fresh [] store_sound).
Qed.

Ltac store_run := apply store_session; [by vm_compute|repeat constructor; apply store_storable].

Definition filling := after_steps store_settings store_filling store_fresh.
Definition flushing := after_steps store_settings store_flushing store_fresh.
Definition closing := after_steps store_settings store_closing store_fresh.

Lemma filling_session : session store_settings filling [] (admitted store_settings store_filling store_fresh).
Proof. store_run. Qed.
Lemma flushing_session : session store_settings flushing [] (admitted store_settings store_flushing store_fresh).
Proof. store_run. Qed.
Lemma closing_session : session store_settings closing [] (admitted store_settings store_closing store_fresh).
Proof. store_run. Qed.
Lemma store_hash : sha256_pattern (ws_config_hash store_settings) = true.
Proof. by vm_compute. Qed.

(** In the middle of a flush: one snapshot on disk, the other in memory. *)
Lemma accepted_exactly_once_witness :
  ∃ recs missing, sound (ws_root store_settings) (disk flushing) recs ∧ NoDup (map rec_id recs) ∧
    map logical recs ++ missing ≡ₚ taken [] (admitted store_settings store_flushing store_fresh) ∧
    length missing = 1%nat.
Proof.
  destruct (accepted_exactly_once store_settings store_hash flushing [] _ flushing_session)
    as (recs & missing & H1 & H2 & H3 & H4 & _).
  exists recs, missing. split; [exact H1|]. split; [exact H2|]. split; [exact H3|].
  rewrite H4 by (vm_compute; exact I). by vm_compute.
Defined.

Definition store_reader : FeatureParquetReader :=
  {| rd_root := ws_root store_settings; rd_schema_root := schema_root (ws_root store_settings); rd_batch_size := 1 |}.

Lemma close_delivers_witness :
  ∃ out, scan store_reader no_filter (disk closing) = Ok out ∧
    map logical out = py_sorted logical_leb (taken [] (admitted store_settings store_closing store_fresh)) ∧
    NoDup (map rec_id out).
Proof.
  apply (close_delivers store_settings store_hash closing [] _ 1).
  - exact closing_session.
  - by vm_compute.
  - intros E. apply (f_equal length) in E. by vm_compute in E.
  - reflexivity.
Defined.

(** Killed while it writes the second file. *)
Lemma crash_consistent_witness :
  let s' := (run_label store_settings (LCrash (Some "2"%string)) flushing).1 in
  ∃ recs t, sound (ws_root store_settings) (disk s') recs ∧ length recs = 1%nat ∧
    rebuild_feature_index (ws_root store_settings) (disk s') = Ok t ∧
    session store_settings s' (map logical recs) [].
Proof.
  destruct (crash_consistent store_settings store_hash flushing [] _ (Some "2"%string) flushing_session)
    as (recs & missing & t & H1 & H2 & H3 & H4 & _ & H6).
  exists recs, t. split; [exact H1|]. split; [|split; [exact H4|exact H6]].
  apply Permutation_length in H2. rewrite length_app, length_map in H2.
  assert (length missing = 1%nat) as E by (rewrite H3 by (vm_compute; exact I); by vm_compute).
  assert (length (taken [] (admitted store_settings store_flushing store_fresh)) = 2%nat) as E2 by by vm_compute.
  rewrite E, E2 in H2. lia.
Defined.

(** The cache holds one identity, the other snapshot's: the first is still recognized. *)
Lemma write_decides_witness :
  ∃ e, envelope (ws_config_hash store_settings) (ws_strategy_version store_settings) store_okx = Ok e ∧
    dict_get (snapshot_id store_okx) (deduplication (wr flushing)) = None ∧
    (write store_settings store_okx flushing).2 = Ok (Some DEDUPLICATED).
Proof.
  assert (is_ok (envelope (ws_config_hash store_settings) (ws_strategy_version store_settings) store_okx) = true) as Hok
    by by vm_compute.
  exists (get_ok _ Hok). pose proof (get_ok_spec _ Hok) as He. split; [exact He|]. split; [by vm_compute|].
  assert (working flushing) as Hw by (vm_compute; exact I).
  assert (stage (wr flushing) = NotClosing) as Hst by (vm_compute; reflexivity).
  assert (putting (wr flushing) = None) as Hput by (vm_compute; reflexivity).
  pose proof (write_decides store_settings store_hash flushing [] _ store_okx (get_ok _ Hok) flushing_session
    Hw Hst Hput (proj1 store_storable) He) as H.
  assert (taken_with (taken [] (admitted store_settings store_flushing store_fresh)) (snapshot_id store_okx)
    (content_identity (get_ok _ Hok))) as Hknown.
  { exists store_okx. split; [|reflexivity]. vm_compute. left. }
  rewrite (surjective_pairing (write store_settings store_okx flushing)) in H. destruct H as (H & _).
  exact (proj1 (H Hknown)).
Defined.

Lemma scan_refines_reference_witness :
  ∃ out, scan store_reader no_filter (disk closing) = Ok out ∧
    reference_scan (ws_root store_settings) no_filter (disk closing) = Some out ∧ length out = 2%nat.
Proof.
  assert (is_ok (scan store_reader no_filter (disk closing)) = true) as Hok by by vm_compute.
  exists (get_ok _ Hok). split; [apply get_ok_spec|]. split; [|by vm_compute].
  apply (scan_refines_reference (ws_root store_settings) 1 store_reader); [reflexivity|apply get_ok_spec].
Defined.

(** The same snapshots elsewhere, in a batch each. *)
Definition other_settings : WriterSettings := {| store_settings with ws_root := ["other"%string] |}.
Definition other_fresh : Store :=
  {| disk := [(ws_root other_settings, Directory); (schema_root (ws_root other_settings), Directory)];
     claims := ∅; wr := writer_init |}.
Definition other_closing : Store := after_steps other_settings
  [LStart; LWrite store_okx; LGet; LTimeout; LPlace "3" None; LCommit; LWrite store_binance; LClose; LGet; LCloseEnter;
   LGet; LPlace "4" None; LCommit; LCloseFinish] other_fresh.

