(* ===== verification/RawRecords.v ===== *)
(** * Raw records and their order

    [storage/raw.py], [replay/ordering.py] and the reading half of [replay/raw_reader.py]:
    the record of one public payload, the journal records that hold a normalized event or
    the end of the feature timeline, the replay order, and the external sort of a tree of
    partition files.  A file is the list of its rows; SQLite's temporary table is a list
    sorted by its primary key. *)

From S2P Require Import Prelude Effects PyDecimal PyTime Models FeatureModels Fingerprint FeatureRows FeatureTree FeatureScan.
From Stdlib Require Import Ascii.
Open Scope Z_scope.

Definition NORMALIZED_EVENT_JOURNAL_CHANNEL : string := "_normalized_event".
Definition FEATURE_TIMELINE_END_MESSAGE_KIND : string := "feature_timeline_end".

(** ** Raw records *)

Inductive Transport := Websocket | Rest | Internal.
#[export] Instance Transport_eq_dec : EqDecision Transport.
Proof. solve_decision. Defined.

Definition transport_value (t : Transport) : string :=
  match t with Websocket => "websocket" | Rest => "rest" | Internal => "internal" end.
Definition transport_of_value (v : string) : res Transport :=
  if bool_decide (v = "websocket"%string) then Ok Websocket
  else if bool_decide (v = "rest"%string) then Ok Rest
  else if bool_decide (v = "internal"%string) then Ok Internal
  else Err (ValueError "not a transport").

Record RawMarketRecord := {
  record_id : UUID;
  rr_exchange : Exchange;
  rr_symbol : string;
  channel : string;
  message_kind : string;
  transport : Transport;
  rr_exchange_timestamp : option Z;
  rr_local_receive_timestamp : Z;
  rr_normalization_timestamp : option Z;
  rr_sequence_id : option seq_id;
  connection_generation : Z;
  raw_payload : string }.

Definition raw_payload_ref (r : RawMarketRecord) : string := "raw://" +:+ uuid_text (record_id r).

(** The constructor with its validators. *)
Definition mk_raw_record (id : UUID) (e : Exchange) (sym chan kind : string) (t : Transport)
    (exchange_ts : option datetime) (local_ts : datetime) (norm_ts : option datetime)
    (seq : option seq_id) (generation : Z) (payload : string) : res RawMarketRecord :=
  let msg := "raw record timestamps must be timezone-aware"%string in
  sym ← validate_canonical_symbol sym true;
  _ ← require (negb (blank chan)) (ValueError "raw record routing fields cannot be empty");
  _ ← require (negb (blank kind)) (ValueError "raw record routing fields cannot be empty");
  ets ← as_utc_opt msg exchange_ts; lts ← as_utc msg local_ts; nts ← as_utc_opt msg norm_ts;
  _ ← require (0 <=? generation) (ValueError "greater than or equal to 0");
  Ok {| record_id := id; rr_exchange := e; rr_symbol := sym; channel := chan; message_kind := kind;
        transport := t; rr_exchange_timestamp := ets; rr_local_receive_timestamp := lts;
        rr_normalization_timestamp := nts; rr_sequence_id := seq;
        connection_generation := generation; raw_payload := payload |}.

(** ** The journal *)

(** [getattr(event, "generation", 0)]. *)
Definition event_generation (e : event) : Z :=
  match e with
  | EBookSnapshot s => snapshot_generation s
  | EBookUpdate u => update_generation u
  | _ => 0
  end.

(** The JSON of an event and of an end marker, and their validation. *)
Class JournalCodec := {
  event_json : event → string;
  validate_event_json : string → res event;
  marker_json : Z → string;
  validate_marker_json : string → res Z }.

Section journal.
Context {Codec : JournalCodec}.

Definition normalized_event_journal_record (id : UUID) (e : event) : res RawMarketRecord :=
  let m := event_meta e in
  mk_raw_record id (exchange m) (symbol m) NORMALIZED_EVENT_JOURNAL_CHANNEL "normalized_event" Internal
    (Some (utc (exchange_timestamp m))) (utc (local_receive_timestamp m))
    (Some (utc (normalization_timestamp m))) (sequence_id m) (event_generation e) (event_json e).

Definition feature_timeline_end_journal_record (id : UUID) (through : datetime) : res RawMarketRecord :=
  t ← as_utc "feature timeline end timestamp must be timezone-aware" through;
  mk_raw_record id BINANCE "*" NORMALIZED_EVENT_JOURNAL_CHANNEL FEATURE_TIMELINE_END_MESSAGE_KIND Internal
    None (utc t) (Some (utc t)) None 0 (marker_json t).

Definition feature_timeline_end_timestamp (r : RawMarketRecord) : res (option Z) :=
  if negb (bool_decide (message_kind r = FEATURE_TIMELINE_END_MESSAGE_KIND)) then Ok None
  else
  _ ← require (bool_decide (channel r = NORMALIZED_EVENT_JOURNAL_CHANNEL) &&
               bool_decide (transport r = Internal) && bool_decide (rr_symbol r = "*"%string) &&
               bool_decide (rr_exchange r = BINANCE) && is_none (rr_exchange_timestamp r) &&
               is_none (rr_sequence_id r) && (connection_generation r =? 0))
        (ValueError "invalid feature-timeline end routing");
  through ← validate_marker_json (raw_payload r);
  _ ← require ((rr_local_receive_timestamp r =? through) &&
               bool_decide (rr_normalization_timestamp r = Some through))
        (ValueError "feature-timeline end metadata mismatch");
  Ok (Some through).
End journal.

(** ** The replay order *)

Inductive ReplayOrder := EVENT_TIME | RECEIVE_TIME.
#[export] Instance ReplayOrder_eq_dec : EqDecision ReplayOrder.
Proof. solve_decision. Defined.

Definition replay_timestamp (r : RawMarketRecord) (order : ReplayOrder) : Z :=
  match order, rr_exchange_timestamp r with
  | EVENT_TIME, Some t => t
  | _, _ => rr_local_receive_timestamp r
  end.

Definition record_priority (r : RawMarketRecord) : Z :=
  if bool_decide (channel r = "instrument_metadata"%string) then 0
  else if bool_decide (message_kind r = FEATURE_TIMELINE_END_MESSAGE_KIND) then 2
  else 1.

Abbreviation record_key := (Z * (Z * (Z * (Z * (string * (string * (string * (string * string))))))))%type.
Definition stable_record_key (r : RawMarketRecord) (order : ReplayOrder) : record_key :=
  (record_priority r, (replay_timestamp r order, (rr_local_receive_timestamp r, (connection_generation r,
    (exchange_value (rr_exchange r), (rr_symbol r, (channel r,
      (from_option seq_text EmptyString (rr_sequence_id r), uuid_text (record_id r))))))))).
Definition record_key_leb : record_key → record_key → bool :=
  lex_leb Z.leb (lex_leb Z.leb (lex_leb Z.leb (lex_leb Z.leb (lex_leb String.leb (lex_leb String.leb
    (lex_leb String.leb (lex_leb String.leb String.leb))))))).
Definition record_leb (order : ReplayOrder) (a b : RawMarketRecord) : bool :=
  record_key_leb (stable_record_key a order) (stable_record_key b order).

Lemma record_key_leb_total : total_leb record_key_leb.
Proof. unfold record_key_leb. auto 20 with cvf_order. Qed.

(** ** Rows *)

Record RawRow := {
  rw_schema_version : Z;
  rw_record_id : string;
  rw_raw_payload_reference : string;
  rw_exchange : string;
  rw_symbol : string;
  rw_channel : string;
  rw_message_kind : string;
  rw_transport : string;
  rw_exchange_timestamp : option Z;
  rw_local_receive_timestamp : Z;
  rw_normalization_timestamp : option Z;
  rw_sequence_id : option string;
  rw_connection_generation : Z;
  rw_raw_payload : string }.
#[export] Instance RawRow_eq_dec : EqDecision RawRow.
Proof. solve_decision. Defined.

(** [storage/parquet.py: _row]. *)
Definition raw_row (r : RawMarketRecord) : RawRow :=
  {| rw_schema_version := 1; rw_record_id := uuid_text (record_id r);
     rw_raw_payload_reference := raw_payload_ref r; rw_exchange := exchange_value (rr_exchange r);
     rw_symbol := rr_symbol r; rw_channel := channel r; rw_message_kind := message_kind r;
     rw_transport := transport_value (transport r); rw_exchange_timestamp := rr_exchange_timestamp r;
     rw_local_receive_timestamp := rr_local_receive_timestamp r;
     rw_normalization_timestamp := rr_normalization_timestamp r;
     rw_sequence_id := seq_text <$> rr_sequence_id r;
     rw_connection_generation := connection_generation r; rw_raw_payload := raw_payload r |}.

(** [UUID(text).hex], without the prefixes, braces and signs that [UUID] also reads. *)
Definition hex_char (c : ascii) : bool := bool_decide (c ∈ chars "0123456789abcdef").
Definition lower_hex (c : ascii) : ascii :=
  let n := N_of_ascii c in if ((65 <=? n) && (n <=? 70))%N then ascii_of_N (n + 32) else c.
Definition uuid_of_text (s : string) : res UUID :=
  let hex := map lower_hex (filter (λ c, c ≠ "-"%char) (chars s)) in
  _ ← require ((length hex =? 32)%nat && forallb hex_char hex)
        (ValueError "badly formed hexadecimal UUID string");
  Ok (of_chars hex).
Definition is_uuid (u : UUID) : bool := (length (chars u) =? 32)%nat && forallb hex_char (chars u).

Definition record_of_row (row : RawRow) : res RawMarketRecord :=
  id ← uuid_of_text (rw_record_id row);
  e ← exchange_of_value (rw_exchange row);
  t ← transport_of_value (rw_transport row);
  mk_raw_record id e (rw_symbol row) (rw_channel row) (rw_message_kind row) t
    (utc <$> rw_exchange_timestamp row) (utc (rw_local_receive_timestamp row))
    (utc <$> rw_normalization_timestamp row) (SeqStr <$> rw_sequence_id row)
    (rw_connection_generation row) (rw_raw_payload row).

(** ** Filters *)

Record RawScanFilter := {
  rf_start : option Z;
  rf_end : option Z;
  rf_exchanges : option (list Exchange);
  rf_symbols : option (list string);
  rf_channels : option (list string);
  rf_excluded_channels : list string }.

Definition no_raw_filter : RawScanFilter :=
  {| rf_start := None; rf_end := None; rf_exchanges := None; rf_symbols := None; rf_channels := None;
     rf_excluded_channels := [] |}.

(** [__post_init__]. *)
Definition mk_raw_filter (start stop : option datetime) (f : RawScanFilter) : res RawScanFilter :=
  let msg := "raw scan timestamps must be timezone-aware"%string in
  s ← as_utc_opt msg start; e ← as_utc_opt msg stop;
  _ ← require (match s, e with Some s, Some e => s <=? e | _, _ => true end)
        (ValueError "raw scan end cannot precede start");
  _ ← require (given (rf_channels f) (forallb (λ c, negb (bool_decide (c ∈ rf_excluded_channels f)))))
        (ValueError "raw scan channels and excluded_channels overlap");
  Ok {| rf_start := s; rf_end := e; rf_exchanges := rf_exchanges f; rf_symbols := rf_symbols f;
        rf_channels := rf_channels f; rf_excluded_channels := rf_excluded_channels f |}.

Definition raw_matches (f : RawScanFilter) (r : RawMarketRecord) : bool :=
  let timestamp := rr_local_receive_timestamp r in
  given (rf_start f) (λ s, s <=? timestamp) && given (rf_end f) (λ e, timestamp <=? e) &&
  given (rf_exchanges f) (λ l, bool_decide (rr_exchange r ∈ l)) &&
  given (rf_symbols f) (λ l, bool_decide (rr_symbol r ∈ l)) &&
  negb (bool_decide (channel r ∈ rf_excluded_channels f)) &&
  given (rf_channels f) (λ l, bool_decide (channel r ∈ l)).

(** ** The external sort *)

Record RawParquetFile := { raw_schema_matches : bool; raw_rows : list RawRow }.
Abbreviation raw_tree := (list (path * RawParquetFile)).

(** A row of the temporary table. *)
Record SortRow := {
  so_key : record_key;
  source_ordinal : Z;
  so_message_kind : string;
  so_transport : string;
  so_exchange_timestamp : option Z;
  so_normalization_timestamp : option Z;
  so_sequence_id : option string;
  so_raw_payload : string }.

Definition sort_row (order : ReplayOrder) (r : RawMarketRecord) (ordinal : Z) : SortRow :=
  {| so_key := stable_record_key r order; source_ordinal := ordinal; so_message_kind := message_kind r;
     so_transport := transport_value (transport r); so_exchange_timestamp := rr_exchange_timestamp r;
     so_normalization_timestamp := rr_normalization_timestamp r;
     so_sequence_id := seq_text <$> rr_sequence_id r; so_raw_payload := raw_payload r |}.

(** [ORDER BY] the primary key. *)
Definition sort_row_leb (a b : SortRow) : bool :=
  lex_leb record_key_leb Z.leb (so_key a, source_ordinal a) (so_key b, source_ordinal b).

(** The record of a selected row; the columns of the key hold the rest. *)
Definition record_of_sort_row (s : SortRow) : res RawMarketRecord :=
  let '(_, (_, (receive, (generation, (e, (sym, (chan, (_, id)))))))) := so_key s in
  id ← uuid_of_text id;
  e ← exchange_of_value e;
  t ← transport_of_value (so_transport s);
  mk_raw_record id e sym chan (so_message_kind s) t (utc <$> so_exchange_timestamp s) (utc receive)
    (utc <$> so_normalization_timestamp s) (SeqStr <$> so_sequence_id s) generation (so_raw_payload s).

Section reader.
Context (batch_size : nat) (filters : RawScanFilter) (order : ReplayOrder).

Definition read_row (row : RawRow) : res RawMarketRecord :=
  _ ← require (rw_schema_version row =? 1) (ValueError "unsupported raw Parquet schema version");
  record_of_row row.
Definition read_batch (rows : list RawRow) : res (list RawMarketRecord) :=
  l ← mapR read_row rows; Ok (filter (λ r, raw_matches filters r = true) l).
Definition read_raw_file (f : path * RawParquetFile) : res (list RawMarketRecord) :=
  _ ← require (raw_schema_matches f.2) (ValueError "raw Parquet schema mismatch");
  ls ← mapR read_batch (chunks batch_size (raw_rows f.2)); Ok (concat ls).

(** [ordinal += 1] for each matching row of the sorted files. *)
Definition number (l : list RawMarketRecord) : list SortRow :=
  imap (λ i r, sort_row order r (Z.of_nat i + 1)) l.

Definition raw_file_leb (a b : path * RawParquetFile) : bool := path_leb a.1 b.1.

(** [iter_records]: every row is read before the first record is given. *)
Definition iter_raw_records (files : raw_tree) : res (list RawMarketRecord) :=
  ls ← mapR read_raw_file (py_sorted raw_file_leb files);
  mapR record_of_sort_row (py_sorted sort_row_leb (number (concat ls))).
End reader.

(** ** Well-formed records

    What the constructor establishes, given a UUID: such a record is rebuilt unchanged from
    its own row. *)

Definition raw_wf (r : RawMarketRecord) : Prop :=
  is_uuid (record_id r) = true ∧ validate_canonical_symbol (rr_symbol r) true = Ok (rr_symbol r) ∧
  blank (channel r) = false ∧ blank (message_kind r) = false ∧ 0 ≤ connection_generation r.

Lemma as_utc_opt_utc msg (o : option Z) : as_utc_opt msg (utc <$> o) = Ok o.
Proof. destruct o as [t|]; [|done].
  change (Some <$> as_utc msg (utc t) = Ok (Some t)). by rewrite as_utc_utc. Qed.

Lemma mk_raw_record_spec id e sym chan kind t ets lts nts seq g payload r :
  mk_raw_record id e sym chan kind t ets lts nts seq g payload = Ok r →
  (is_uuid id = true → raw_wf r) ∧ record_id r = id ∧ rr_exchange r = e ∧ channel r = chan ∧
  message_kind r = kind ∧ transport r = t ∧ rr_sequence_id r = seq ∧ connection_generation r = g ∧
  raw_payload r = payload.
Proof.
  unfold mk_raw_record. intros H. inv_res. subst r. cbn [record_id].
  repeat match goal with H : negb _ = true |- _ => apply negb_true_iff in H end.
  split; [|done]. intros Hid. split; [done|]. cbn [rr_symbol channel message_kind connection_generation].
  match goal with H : validate_canonical_symbol _ _ = Ok _ |- _ => apply validated_symbol_fixed in H as [_ H] end.
  match goal with H : (0 <=? _) = true |- _ => apply Z.leb_le in H end. done.
Qed.

Lemma mk_raw_record_wf r seq :
  raw_wf r →
  mk_raw_record (record_id r) (rr_exchange r) (rr_symbol r) (channel r) (message_kind r) (transport r)
    (utc <$> rr_exchange_timestamp r) (utc (rr_local_receive_timestamp r))
    (utc <$> rr_normalization_timestamp r) seq (connection_generation r) (raw_payload r) =
  Ok {| r with rr_sequence_id := seq |}.
Proof.
  intros (Hid & Hs & Hc & Hk & Hg%Z.leb_le). unfold mk_raw_record.
  rewrite Hs. cbn [mbind res_bind]. rewrite Hc, Hk. cbn [negb require mbind res_bind].
  rewrite !as_utc_opt_utc, as_utc_utc, Hg. by destruct r.
Qed.

(** ** Identifiers *)

Lemma uuid_char_inert c : hex_char c = true → c ≠ "-"%char ∧ lower_hex c = c.
Proof. by destruct c as [[] [] [] [] [] [] [] []]; vm_compute. Qed.

Lemma hex_inert l :
  forallb hex_char l = true → filter (λ c, c ≠ "-"%char) l = l ∧ map lower_hex l = l.
Proof.
  induction l as [|c l IH]; [done|]. simpl. intros [Hc Hl]%andb_prop. destruct (IH Hl) as [IH1 IH2].
  destruct (uuid_char_inert c Hc) as [H1 H2]. rewrite filter_cons, decide_True by done. by rewrite IH1, IH2, H2.
Qed.

Lemma uuid_of_uuid_text u : is_uuid u = true → uuid_of_text (uuid_text u) = Ok u.
Proof.
  unfold is_uuid, uuid_of_text, uuid_text. intros Hu. rewrite chars_of_chars.
  apply andb_prop in Hu as [Hlen Hhex].
  set (l := chars u) in *.
  assert (filter (λ c, c ≠ "-"%char) (take 8 l ++ "-"%char :: take 4 (drop 8 l) ++ "-"%char :: take 4 (drop 12 l) ++
    "-"%char :: take 4 (drop 16 l) ++ "-"%char :: drop 20 l) = filter (λ c, c ≠ "-"%char) l) as ->.
  { rewrite (uuid_pieces l) at 6. repeat (rewrite filter_app || rewrite filter_cons).
    by rewrite !decide_False by (intros H; by apply H). }
  destruct (hex_inert l Hhex) as [-> ->]. rewrite Hlen, Hhex. cbn [andb require mbind res_bind].
  f_equal. apply of_chars_chars.
Qed.

Lemma uuid_of_text_uuid s u : uuid_of_text s = Ok u → is_uuid u = true.
Proof. unfold uuid_of_text, is_uuid. intros H. inv_res. subst u. by rewrite chars_of_chars. Qed.

Lemma transport_of_value_spec t : transport_of_value (transport_value t) = Ok t.
Proof. by destruct t. Qed.

(** ** The sort *)

(** What a row keeps of a sequence: its text. *)
Definition as_read (r : RawMarketRecord) : RawMarketRecord :=
  {| r with rr_sequence_id := SeqStr <$> (seq_text <$> rr_sequence_id r) |}.

Lemma record_of_raw_row r : raw_wf r → record_of_row (raw_row r) = Ok (as_read r).
Proof.
  intros Hw. pose proof Hw as [Hid _]. unfold record_of_row, raw_row.
  cbn [rw_record_id rw_exchange rw_transport rw_symbol rw_channel rw_message_kind rw_exchange_timestamp
    rw_local_receive_timestamp rw_normalization_timestamp rw_sequence_id rw_connection_generation rw_raw_payload].
  rewrite uuid_of_uuid_text, exchange_of_value_spec, transport_of_value_spec by done. cbn [mbind res_bind].
  by apply mk_raw_record_wf.
Qed.

Lemma record_of_sort_row_spec order r n :
  raw_wf r → record_of_sort_row (sort_row order r n) = Ok (as_read r).
Proof.
  intros Hw. pose proof Hw as [Hid _]. unfold record_of_sort_row, sort_row, stable_record_key.
  cbn [so_key so_message_kind so_transport so_exchange_timestamp so_normalization_timestamp so_sequence_id so_raw_payload].
  rewrite uuid_of_uuid_text, exchange_of_value_spec, transport_of_value_spec by done. cbn [mbind res_bind].
  by apply mk_raw_record_wf.
Qed.

(** A record read from a row is what it reads as. *)
Definition read_record (r : RawMarketRecord) : Prop := raw_wf r ∧ as_read r = r.

Lemma record_of_row_read row r : record_of_row row = Ok r → read_record r.
Proof.
  unfold record_of_row. intros (id & Hid%uuid_of_text_uuid & H)%bind_Ok. inv_res.
  match goal with H : mk_raw_record _ _ _ _ _ _ _ _ _ _ _ _ = Ok _ |- _ =>
    apply mk_raw_record_spec in H as (Hw & _ & _ & _ & _ & _ & Hs & _) end.
  split; [by apply Hw|]. unfold as_read. destruct r as [? ? ? ? ? ? ? ? ? s ? ?]. cbn in *. subst s.
  by destruct (rw_sequence_id row).
Qed.

(** Inserting numbered rows keeps the order of equal keys. *)
Lemma py_insert_map {A B} (f : A → B) (la : A → A → bool) (lb : B → B → bool) x l :
  (∀ y, y ∈ l → la x y = lb (f x) (f y)) → map f (py_insert la x l) = py_insert lb (f x) (map f l).
Proof.
  induction l as [|y l IH]; intros H; [done|]. simpl. rewrite <- (H y) by left.
  destruct (la x y); [done|]. simpl. f_equal. apply IH. intros z Hz. apply H. by right.
Qed.

Section sorting.
Context (order : ReplayOrder).

Definition numbered (from : Z) (l : list RawMarketRecord) : list (Z * RawMarketRecord) :=
  imap (λ i r, (Z.of_nat i + from, r)) l.
Definition numbered_leb (a b : Z * RawMarketRecord) : bool :=
  sort_row_leb (sort_row order a.2 a.1) (sort_row order b.2 b.1).

Lemma numbered_cons from r l : numbered from (r :: l) = (from, r) :: numbered (from + 1) l.
Proof.
  unfold numbered. simpl. f_equal. apply imap_ext. intros i x _. unfold compose. f_equal. lia.
Qed.

Lemma numbered_from from l : Forall (λ x, from ≤ x.1) (numbered from l).
Proof.
  revert from. induction l as [|r l IH]; intros from; [constructor|]. rewrite numbered_cons.
  constructor; [simpl; lia|]. eapply Forall_impl; [apply IH|]. simpl. intros. lia.
Qed.

Lemma numbered_sorted from l :
  map snd (py_sorted numbered_leb (numbered from l)) = py_sorted (record_leb order) l.
Proof.
  revert from. induction l as [|r l IH]; intros from; [done|].
  rewrite numbered_cons. cbn [py_sorted foldr]. fold (py_sorted numbered_leb (numbered (from + 1) l)).
  fold (py_sorted (record_leb order) l). rewrite <- (IH (from + 1)).
  apply (py_insert_map snd). intros [j y] Hy. apply py_sorted_elem in Hy.
  pose proof (numbered_from (from + 1) l) as Hf. rewrite Forall_forall in Hf. specialize (Hf _ Hy). simpl in Hf.
  unfold numbered_leb, sort_row_leb, record_leb, lex_leb, sort_row. cbn [fst snd so_key source_ordinal].
  destruct (decide _) as [E|E]; [|done]. rewrite E. destruct record_key_leb_total as [Ht _ _].
  destruct (record_key_leb _ _) eqn:Ek; [by apply Z.leb_le; lia|]. by rewrite (Ht _ _ Ek) in Ek.
Qed.

Lemma sorted_rows l :
  Forall read_record l →
  mapR record_of_sort_row (py_sorted sort_row_leb (number order l)) = Ok (py_sorted (record_leb order) l).
Proof.
  intros Hl.
  assert (number order l = map (λ x, sort_row order x.2 x.1) (numbered 1 l)) as ->.
  { unfold number, numbered. symmetry. apply (fmap_imap (λ i r, (Z.of_nat i + 1, r)) (λ x, sort_row order x.2 x.1) l). }
  rewrite py_sorted_map. rewrite <- (numbered_sorted 1).
  change (py_sorted (λ x y, sort_row_leb (sort_row order x.2 x.1) (sort_row order y.2 y.1)) (numbered 1 l))
    with (py_sorted numbered_leb (numbered 1 l)).
  assert (∀ x, x ∈ py_sorted numbered_leb (numbered 1 l) → read_record x.2) as Hx.
  { intros x Hx%py_sorted_elem. unfold numbered in Hx. apply list_elem_of_lookup in Hx as (i & Hi).
    rewrite list_lookup_imap in Hi. destruct (l !! i) as [r|] eqn:Hr; [|done]. injection Hi as <-.
    rewrite Forall_forall in Hl. apply Hl. by eapply list_elem_of_lookup_2. }
  induction (py_sorted numbered_leb (numbered 1 l)) as [|x m IH]; [done|]. cbn [map mapR].
  destruct (Hx x ltac:(left)) as [Hw Hr]. rewrite record_of_sort_row_spec, Hr by done. cbn [mbind res_bind].
  rewrite IH by (intros y Hy; apply Hx; by right). done.
Qed.
End sorting.

(** ** What a scan of raw files gives *)

Section scan.
Context (batch_size : nat) (filters : RawScanFilter) (order : ReplayOrder).
Hypothesis batch_positive : (0 < batch_size)%nat.

Abbreviation matching := (filter (λ r, raw_matches filters r = true)).

Lemma concat_matching ls : concat (map matching ls) = matching (concat ls).
Proof using Type. induction ls as [|l ls IH]; [done|]. simpl. by rewrite filter_app, IH. Qed.

Lemma read_batches rows :
  (ls ← mapR (read_batch filters) (chunks batch_size rows); Ok (concat ls)) =
  (l ← mapR read_row rows; Ok (matching l)).
Proof using batch_positive.
  rewrite <- (chunks_concat batch_size rows) at 2 by done. rewrite mapR_concat.
  generalize (chunks batch_size rows). intros lss.
  rewrite (mapR_then _ (mapR read_row) matching) by done.
  destruct (mapR (mapR read_row) lss) as [ls|e]; [|done]. simpl. by rewrite concat_matching.
Qed.

Lemma read_row_read row r : read_row row = Ok r → read_record r.
Proof. unfold read_row. intros (_ & _ & H)%bind_Ok. by eapply record_of_row_read. Qed.

(** The rows of a tree, all of which can be read. *)
Definition read_raw_tree (files : raw_tree) : res (list (list RawMarketRecord)) :=
  mapR (λ f, _ ← require (raw_schema_matches f.2) (ValueError "raw Parquet schema mismatch");
             mapR read_row (raw_rows f.2)) (py_sorted raw_file_leb files).

Lemma iter_raw_records_spec files :
  iter_raw_records batch_size filters order files =
  (rss ← read_raw_tree files; Ok (py_sorted (record_leb order) (matching (concat rss)))).
Proof using batch_positive.
  unfold iter_raw_records, read_raw_tree. generalize (py_sorted raw_file_leb files). clear files. intros files.
  set (whole := λ f : path * RawParquetFile,
    _ ← require (raw_schema_matches f.2) (ValueError "raw Parquet schema mismatch"); mapR read_row (raw_rows f.2)).
  rewrite (mapR_then _ whole matching).
  2: { intros f. unfold read_raw_file, whole. destruct (require _ _); [|reflexivity]. apply read_batches. }
  destruct (mapR whole files) as [rss|e] eqn:E; [|done]. cbn [mbind res_bind]. rewrite concat_matching.
  apply sorted_rows. apply Forall_forall. intros r [_ Hr]%list_elem_of_filter.
  apply list_elem_of_In, in_concat in Hr as (l & Hl%list_elem_of_In & Hr%list_elem_of_In).
  assert (Forall (Forall read_record) rss) as Hall.
  { eapply mapR_Forall; [|exact E]. intros f rs (_ & _ & Hf)%bind_Ok. eapply mapR_Forall; [|exact Hf].
    intros row. apply read_row_read. }
  rewrite Forall_forall in Hall. specialize (Hall l Hl). rewrite Forall_forall in Hall. by apply Hall.
Qed.
End scan.

(** Records told apart by their identifiers are told apart by their keys. *)
Lemma stable_record_key_id order a b :
  stable_record_key a order = stable_record_key b order → record_id a = record_id b.
Proof. unfold stable_record_key. intros H. injection H as _ _ _ _ _ _ _ _ H. by apply uuid_text_inj. Qed.

Lemma record_leb_sorted order l : StronglySorted (λ a b, record_leb order a b = true) (py_sorted (record_leb order) l).
Proof.
  destruct record_key_leb_total as [Ht Hq _]. apply py_sorted_sorted; unfold record_leb.
  - intros a b. apply Ht.
  - intros a b d. apply Hq.
Qed.

Lemma replay_order_unique order l1 l2 :
  NoDup (map record_id l1) → l1 ≡ₚ l2 → py_sorted (record_leb order) l1 = py_sorted (record_leb order) l2.
Proof.
  intros Hn Hp. assert (NoDup l1) as N1 by (by eapply NoDup_fmap_1).
  apply (StronglySorted_leb_eq (record_leb order)); [|apply record_leb_sorted..| | |].
  - intros a b Ha%py_sorted_elem Hb%py_sorted_elem H1 H2. destruct record_key_leb_total as [_ _ Hanti].
    pose proof (stable_record_key_id order a b (Hanti _ _ H1 H2)) as E.
    apply list_elem_of_lookup in Ha as [i Hi], Hb as [j Hj].
    assert (i = j) as <-; [|congruence].
    apply (NoDup_lookup _ i j (record_id a) Hn); rewrite list_lookup_fmap; [by rewrite Hi|by rewrite Hj, E].
  - by rewrite py_sorted_perm.
  - by rewrite py_sorted_perm, <- Hp.
  - intros x. by rewrite !py_sorted_elem, Hp.
Qed.

(** ** Records on disk *)

(** Partition files of any layout that hold the rows of these records. *)
Definition stored (files : raw_tree) (l : list RawMarketRecord) : Prop :=
  Forall (λ f : path * RawParquetFile, raw_schema_matches f.2 = true) files ∧
  concat (map (λ f : path * RawParquetFile, raw_rows f.2) files) ≡ₚ map raw_row l.

Lemma stored_read files l :
  stored files l → Forall raw_wf l → ∃ rss, read_raw_tree files = Ok rss ∧ concat rss ≡ₚ map as_read l.
Proof.
  intros [Hs Hp] Hl.
  assert (mapR read_row (map raw_row l) = Ok (map as_read l)) as Hr.
  { rewrite mapR_map. apply mapR_total. intros r Hr. rewrite Forall_forall in Hl.
    exact (record_of_raw_row r (Hl r Hr)). }
  set (sorted := py_sorted raw_file_leb files).
  assert (concat (map (λ f, raw_rows f.2) sorted) ≡ₚ map raw_row l) as Hps.
  { rewrite <- Hp. unfold sorted. rewrite <- !flat_map_concat_map. apply Permutation_flat_map, py_sorted_perm. }
  symmetry in Hps. destruct (mapR_perm read_row _ _ _ Hr Hps) as (ys & Hy & Hyp).
  rewrite mapR_concat in Hy. apply bind_Ok in Hy as (rss & Hrss & [= <-]). exists rss. split; [|by symmetry].
  unfold read_raw_tree. fold sorted. rewrite mapR_map in Hrss. rewrite <- Hrss. apply mapR_ext.
  intros f Hf. apply py_sorted_elem in Hf. rewrite Forall_forall in Hs. by rewrite (Hs f Hf).
Qed.

(** A scan does not depend on the layout of the files. *)
Lemma stored_scan n filt order files l :
  (0 < n)%nat → stored files l → Forall raw_wf l → NoDup (map record_id l) →
  iter_raw_records n filt order files =
    Ok (py_sorted (record_leb order) (filter (λ r, raw_matches filt r = true) (map as_read l))).
Proof.
  intros Hn Hst Hl Hd. destruct (stored_read files l Hst Hl) as (rss & Hr & Hp).
  rewrite iter_raw_records_spec by done. rewrite Hr. cbn [mbind res_bind]. f_equal.
  assert (filter (λ r, raw_matches filt r = true) (concat rss) ≡ₚ
    filter (λ r, raw_matches filt r = true) (map as_read l)) as Hf by by rewrite Hp.
  apply replay_order_unique; [|exact Hf]. rewrite Hf.
  assert (map record_id (map as_read l) = map record_id l) as E by by rewrite map_map.
  rewrite <- E in Hd. clear -Hd. induction (map as_read l) as [|x m IH]; [constructor|].
  cbn [map] in Hd. apply NoDup_cons in Hd as [Hx Hd]. rewrite filter_cons. case_decide; [|by apply IH].
  cbn [map]. apply NoDup_cons. split; [|by apply IH]. intros (y & E & [_ Hy]%list_elem_of_filter)%list_elem_of_fmap.
  apply Hx. rewrite E. by apply list_elem_of_fmap_2.
Qed.

(** The rows of the journal. *)
Definition journal_filter : RawScanFilter :=
  {| no_raw_filter with rf_channels := Some [NORMALIZED_EVENT_JOURNAL_CHANNEL] |}.

Lemma journal_matches r : raw_matches journal_filter (as_read r) = bool_decide (channel r = NORMALIZED_EVENT_JOURNAL_CHANNEL).
Proof.
  unfold raw_matches, journal_filter. cbn [rf_start rf_end rf_exchanges rf_symbols rf_channels rf_excluded_channels no_raw_filter
    given as_read channel andb]. rewrite bool_decide_false by apply not_elem_of_nil. cbn [negb andb].
  apply bool_decide_ext. by rewrite list_elem_of_singleton.
Qed.

Lemma record_leb_priority order a b : record_leb order a b = true → record_priority a ≤ record_priority b.
Proof.
  unfold record_leb, record_key_leb, stable_record_key. unfold lex_leb at 1. cbn [fst snd].
  destruct (decide _) as [->|]; [lia|]. by intros ?%Z.leb_le.
Qed.
Lemma record_leb_time a b :
  record_leb RECEIVE_TIME a b = true → record_priority a = record_priority b →
  rr_local_receive_timestamp a ≤ rr_local_receive_timestamp b.
Proof.
  unfold record_leb, record_key_leb, stable_record_key. unfold lex_leb at 1. cbn [fst snd replay_timestamp].
  intros H E. rewrite decide_True in H by done. unfold lex_leb at 1 in H. cbn [fst snd] in H.
  destruct (decide _) as [->|]; [lia|]. by apply Z.leb_le.
Qed.

