(* ===== verification/RawTree.v ===== *)
(** * The tree of a collection

    A collection directory: its Parquet files in the order of a listing, its directories,
    unfinished temporary files, the manifest and the mark of a compaction under way.
    [storage/parquet.py: _write_partition_file] and [storage/compact.py: _write_rows]
    place files in it.  An operation on the disk takes effect or raises. *)

From S2P Require Import Prelude Effects PyDecimal PyFloat PyTime Models Fingerprint FeatureModels FeatureRows FeatureTree RawRecords.
From Stdlib Require Import Ascii.
Open Scope Z_scope.

(** Paths are those below the root. *)
Record collection_tree := {
  ct_exists : bool;
  ct_directories : list path;
  ct_files : raw_tree;
  ct_temporaries : list path;
  ct_manifest : option string;
  ct_sentinel : bool }.

Definition no_tree : collection_tree :=
  {| ct_exists := false; ct_directories := []; ct_files := []; ct_temporaries := []; ct_manifest := None;
     ct_sentinel := false |}.
(** [iterdir]. *)
Definition tree_is_empty (t : collection_tree) : bool :=
  match ct_directories t, ct_files t, ct_temporaries t with [], [], [] => true | _, _, _ => false end &&
  is_none (ct_manifest t) && negb (ct_sentinel t).

Abbreviation raw_partition := (string * string * string * string)%type.

Definition raw_directory (p : raw_partition) : path :=
  let '(date, e, sym, chan) := p in
  ["date=" +:+ partition_value date; "exchange=" +:+ partition_value e;
   "symbol=" +:+ partition_value sym; "channel=" +:+ partition_value chan].

(** [mkdir(parents=True, exist_ok=True)] below the root. *)
Definition make_directories (p : path) (t : collection_tree) : collection_tree :=
  {| t with ct_exists := true;
            ct_directories := foldl (λ ds d, if bool_decide (d ∈ ds) then ds else ds ++ [d]) (ct_directories t)
              (map (λ n, take n p) (seq 1 (length p))) |}.

Abbreviation TM := (M collection_tree).

Definition set_files (f : raw_tree) (t : collection_tree) : collection_tree := {| t with ct_files := f |}.
Definition tree_fault (fault : option write_fault) (at_point : write_fault) : TM unit :=
  requireM (negb (bool_decide (fault = Some at_point))) os_error.

(** [RAW_PARQUET_SCHEMA]: the columns that are narrower than their values. *)
Definition raw_row_fits (r : RawRow) : bool :=
  fits 16 (rw_schema_version r) && fits 64 (rw_connection_generation r).

(** [write_table] to a temporary name and [os.replace]; the temporary file is removed
    whatever happens. *)
Definition place_file (fault : option write_fault) (destination : path) (rows : list RawRow) : TM unit :=
  _ ← requireM (forallb raw_row_fits rows) (ValueError "value too large for its column");
  _ ← tree_fault fault WriteFails;
  _ ← tree_fault fault ReplaceFails;
  modifyM (λ t, set_files (dict_set destination {| raw_schema_matches := true; raw_rows := rows |} (ct_files t)) t).

Definition temporary_path (directory : path) (filename : string) : path :=
  directory ++ ["." +:+ filename +:+ ".tmp"].

(** [_write_partition_file]; [nonce] is the text of [uuid4().hex]. *)
Definition raw_filename (nonce : string) (records : list RawMarketRecord) : res string :=
  match records with
  | [] => Err IndexError
  | r :: _ => Ok ("part-" +:+ compact_timestamp (rr_local_receive_timestamp r) +:+ "-" +:+
                  String.substring 0 16 nonce +:+ ".parquet")
  end.

Definition write_raw_partition (nonce : string) (fault : option write_fault) (part : raw_partition)
    (records : list RawMarketRecord) : TM path :=
  let directory := raw_directory part in
  _ ← tree_fault fault MkdirFails;
  _ ← modifyM (make_directories directory);
  filename ← liftM (raw_filename nonce records);
  let destination := directory ++ [filename] in
  _ ← place_file fault destination (map raw_row records);
  mret destination.

(** [_write_rows] of the compaction. *)
Definition compact_filename (nonce : string) : string := "part-compact-" +:+ nonce +:+ ".parquet".
Definition write_compact_rows (nonce : string) (fault : option write_fault) (part : raw_partition)
    (rows : list RawRow) : TM unit :=
  let directory := raw_directory part in
  _ ← tree_fault fault MkdirFails;
  _ ← modifyM (make_directories directory);
  place_file fault (directory ++ [compact_filename nonce]) rows.

(** ** What placing a file does *)

(** The rows of a tree's files. *)
Definition rows_of (f : raw_tree) : list RawRow := concat (map (λ x, raw_rows x.2) f).

Definition row_partition (r : RawRow) : raw_partition :=
  (iso_date (rw_local_receive_timestamp r), rw_exchange r, rw_symbol r, rw_channel r).

(** Files as the writers leave them: of the schema, in the directory of their rows. *)
Definition file_in_place (directories : list path) (x : path * RawParquetFile) : Prop :=
  raw_schema_matches x.2 = true ∧ removelast x.1 ∈ directories ∧
  Forall (λ r, removelast x.1 = raw_directory (row_partition r)) (raw_rows x.2).
Definition files_in_place (t : collection_tree) : Prop := Forall (file_in_place (ct_directories t)) (ct_files t).
(** The entries that the writing of files leaves alone. *)
Definition same_rest (t t' : collection_tree) : Prop :=
  ct_temporaries t' = ct_temporaries t ∧ ct_manifest t' = ct_manifest t ∧ ct_sentinel t' = ct_sentinel t.

Lemma same_rest_trans t u v : same_rest t u → same_rest u v → same_rest t v.
Proof. intros (A1 & A2 & A3) (B1 & B2 & B3). unfold same_rest. by rewrite B1, B2, B3. Qed.

Lemma rows_of_app f g : rows_of (f ++ g) = rows_of f ++ rows_of g.
Proof. unfold rows_of. by rewrite map_app, concat_app. Qed.

Lemma rows_of_perm f g : f ≡ₚ g → rows_of f ≡ₚ rows_of g.
Proof. intros H. unfold rows_of. rewrite <- !flat_map_concat_map. by apply Permutation_flat_map. Qed.

Definition placed (d : path) (rows : list RawRow) (f : raw_tree) : raw_tree :=
  f ++ [(d, {| raw_schema_matches := true; raw_rows := rows |})].

Lemma placed_rows d rows f : rows_of (placed d rows f) = rows_of f ++ rows.
Proof. unfold placed. rewrite rows_of_app. unfold rows_of at 2. simpl. by rewrite app_nil_r. Qed.

Lemma make_directories_in p t d :
  d ∈ ct_directories (make_directories p t) ↔ d ∈ ct_directories t ∨ ∃ n, (0 < n ≤ length p)%nat ∧ d = take n p.
Proof.
  unfold make_directories. cbn [ct_directories].
  assert (∀ l ds, d ∈ foldl (λ ds d, if bool_decide (d ∈ ds) then ds else ds ++ [d]) ds l ↔ d ∈ ds ∨ d ∈ l) as Hf.
  { induction l as [|x l IH]; intros ds; simpl.
    - split; [by left|]. by intros [?|?%elem_of_nil].
    - rewrite IH, elem_of_cons. case_bool_decide as Hx.
      + split; [by intros [?|?]; auto|]. intros [?|[-> |?]]; auto.
      + rewrite elem_of_app, list_elem_of_singleton. split; [intros [[?|?]|?]; auto|intros [?|[?|?]]; auto]. }
  rewrite Hf. split; (intros [?|H]; [by left|right]).
  - apply list_elem_of_fmap in H as (n & -> & Hn). apply elem_of_seq in Hn. exists n. split; [lia|done].
  - destruct H as (n & Hn & ->). apply list_elem_of_fmap. exists n. split; [done|]. apply elem_of_seq. lia.
Qed.

Lemma make_directories_self p t : p ≠ [] → p ∈ ct_directories (make_directories p t).
Proof.
  intros Hp. apply make_directories_in. right. exists (length p). rewrite firstn_all. split; [|done].
  destruct p; [done|simpl; lia].
Qed.

Lemma raw_directory_cons p : raw_directory p ≠ [].
Proof. by destruct p as [[[? ?] ?] ?]. Qed.

Lemma files_in_place_sub f ds ds' :
  (∀ d, d ∈ ds → d ∈ ds') → Forall (file_in_place ds) f → Forall (file_in_place ds') f.
Proof. intros H Hf. eapply Forall_impl; [exact Hf|]. intros x (H1 & H2 & H3). split_and!; auto. Qed.

(** A file of the rows of a partition in its directory. *)
Lemma placed_in_place part name rows f ds :
  Forall (file_in_place ds) f → raw_directory part ∈ ds → Forall (λ r, row_partition r = part) rows →
  Forall (file_in_place ds) (placed (raw_directory part ++ [name]) rows f).
Proof.
  intros Hf Hd Hr. apply Forall_app. split; [done|]. constructor; [|done].
  split; [done|]. cbn [fst snd raw_rows]. rewrite removelast_last. split; [done|].
  eapply Forall_impl; [exact Hr|]. by intros r <-.
Qed.

Lemma place_file_spec fault d rows t t' r :
  place_file fault d rows t = (t', r) →
  match r with
  | Ok _ => forallb raw_row_fits rows = true ∧ fault ≠ Some WriteFails ∧ fault ≠ Some ReplaceFails ∧
      t' = set_files (dict_set d {| raw_schema_matches := true; raw_rows := rows |} (ct_files t)) t
  | Err _ => t' = t ∧ (forallb raw_row_fits rows = false ∨ is_Some fault)
  end.
Proof.
  unfold place_file, tree_fault. unfold mbind, M_bind, requireM, liftM.
  destruct (forallb raw_row_fits rows); cbn [require]; [|intros [= <- <-]; split; [done|by left]].
  destruct fault as [[]|]; cbn; intros [= <- <-]; try (split; [done|right; eauto]); done.
Qed.

(** What every step of the writing of a file keeps. *)
Definition grows (t t' : collection_tree) : Prop :=
  same_rest t t' ∧ ∀ d, d ∈ ct_directories t → d ∈ ct_directories t'.

Lemma make_directories_grows p t : grows t (make_directories p t) ∧ ct_files (make_directories p t) = ct_files t.
Proof. split; [|done]. split; [done|]. intros d Hd. apply make_directories_in. by left. Qed.

Lemma write_raw_partition_spec nonce fault part l t t' r :
  write_raw_partition nonce fault part l t = (t', r) →
  grows t t' ∧
  match r with
  | Err _ => ct_files t' = ct_files t
  | Ok d => ∃ name, raw_filename nonce l = Ok name ∧ d = raw_directory part ++ [name] ∧
      raw_directory part ∈ ct_directories t' ∧
      (dict_get d (ct_files t) = None → ct_files t' = placed d (map raw_row l) (ct_files t))
  end.
Proof.
  intros H. unfold write_raw_partition in H. destruct (make_directories_grows (raw_directory part) t) as [Hg Hf].
  destruct r as [d|e].
  - apply bindM_Ok in H as (t1 & [] & [_ ->]%requireM_Ok & H).
    apply bindM_Ok in H as (t2 & [] & [= <-] & H).
    apply bindM_Ok in H as (t3 & name & [Hname ->]%liftM_Ok & H). cbn zeta in H.
    apply bindM_Ok in H as (t4 & [] & Hp & [= <- <-]). apply place_file_spec in Hp as (_ & _ & _ & ->).
    split; [exact Hg|]. exists name. split; [done|]. split; [done|].
    split; [apply (make_directories_self _ t), raw_directory_cons|]. intros Hd. cbn [ct_files set_files make_directories].
    by rewrite dict_set_snoc.
  - apply bindM_Err in H as [H|(t1 & [] & [_ ->]%requireM_Ok & H)].
    { unfold tree_fault, requireM, liftM in H. injection H as <- _. by split. }
    apply bindM_Err in H as [H|(t2 & [] & [= <-] & H)]; [done|].
    apply bindM_Err in H as [H|(t3 & name & [Hname ->]%liftM_Ok & H)].
    { unfold liftM in H. by injection H as <- _. }
    cbn zeta in H. apply bindM_Err in H as [H|(t4 & [] & _ & H)]; [|discriminate H].
    by apply place_file_spec in H as [-> _].
Qed.

Lemma write_compact_rows_spec nonce fault part rows t t' r :
  write_compact_rows nonce fault part rows t = (t', r) →
  match r with
  | Err _ => forallb raw_row_fits rows = false ∨ is_Some fault
  | Ok _ => grows t t' ∧ ct_exists t' = true ∧ raw_directory part ∈ ct_directories t' ∧
      (dict_get (raw_directory part ++ [compact_filename nonce]) (ct_files t) = None →
       ct_files t' = placed (raw_directory part ++ [compact_filename nonce]) rows (ct_files t))
  end.
Proof.
  intros H. unfold write_compact_rows in H. cbv zeta in H.
  destruct (make_directories_grows (raw_directory part) t) as [Hg Hf]. destruct r as [[]|e].
  - apply bindM_Ok in H as (t1 & [] & [_ ->]%requireM_Ok & H).
    apply bindM_Ok in H as (t2 & [] & [= <-] & H). apply place_file_spec in H as (_ & _ & _ & ->).
    split; [exact Hg|]. split; [done|]. split; [apply (make_directories_self _ t), raw_directory_cons|]. intros Hd.
    cbn [ct_files set_files make_directories]. by rewrite dict_set_snoc.
  - apply bindM_Err in H as [H|(t1 & [] & _ & H)].
    { right. unfold tree_fault, requireM, liftM in H. destruct fault; [by eexists|]. discriminate H. }
    apply bindM_Err in H as [H|(t2 & [] & [= <-] & H)]; [done|]. by apply place_file_spec in H as [_ ?].
Qed.
