(* ===== verification/RawWriter.v ===== *)
(** * The writer of raw records

    [storage/parquet.py: AsyncPartitionedParquetWriter].  Each operation is the code between
    two suspension points of the event loop, and [run_raw] runs any of them that can go on:
    the calls of [write], of which any number may wait for room in the queue, the worker, and the
    task of the close.  The timer of the worker is a step of its own; the process may be
    killed at any point. *)

From S2P Require Import Prelude Effects PyDecimal PyFloat PyTime Models Fingerprint FeatureModels FeatureRows FeatureTree RawRecords RawTree.
Open Scope Z_scope.

Definition ParquetWriterError (message : string) : exn := RuntimeError message.

Inductive raw_item := RawSubmission (r : RawMarketRecord) | RAW_STOP.

(** The task [_run]: waiting for an item, flushing (the partitions to write), or done. *)
Inductive raw_task :=
| RawNotStarted
| RawCollecting (batch : list RawMarketRecord)
| RawFlushing (todo : list (raw_partition * list RawMarketRecord)) (final : bool)
| RawReturned
| RawDied (e : exn).

(** The task [_close_lifecycle]: not created, created, waiting for room (whether the stop is
    in the queue), waiting for the worker, done. *)
Inductive raw_close :=
| RawOpen | RawCloseCreated | RawStopping (queued : bool) | RawJoining | RawCloseDone (r : res unit).

(** A call of [write] that waits: its record, and whether it is in the queue. *)
Record waiting_write := { ww_record : RawMarketRecord; ww_enqueued : bool }.

Record RawWriterSettings := {
  rs_batch_rows : Z;
  rs_queue_capacity : Z;
  rs_on_backpressure : option (RawMarketRecord → res unit) }.

Record AsyncPartitionedParquetWriter := {
  pw_queue : list raw_item;
  pw_task : raw_task;
  pw_close : raw_close;
  pw_closed : bool;
  pw_waiting : list waiting_write;
  accepted_records : Z;
  written_records : Z;
  pw_written_files : Z;
  pw_flush_count : Z;
  pw_backpressure_events : Z;
  pw_last_file : option path;
  pw_last_error : option exn }.

Definition raw_writer_init : AsyncPartitionedParquetWriter :=
  {| pw_queue := []; pw_task := RawNotStarted; pw_close := RawOpen; pw_closed := false; pw_waiting := [];
     accepted_records := 0; written_records := 0; pw_written_files := 0; pw_flush_count := 0;
     pw_backpressure_events := 0; pw_last_file := None; pw_last_error := None |}.

(** [__init__]. *)
Definition mk_raw_writer (c : RawWriterSettings) (flush_seconds : float) : res AsyncPartitionedParquetWriter :=
  _ ← require (1 <=? rs_batch_rows c) (ValueError "batch_rows must be positive");
  _ ← require (negb (fleb flush_seconds f0)) (ValueError "flush_seconds must be positive");
  _ ← require (1 <=? rs_queue_capacity c) (ValueError "queue_capacity must be positive");
  Ok raw_writer_init.

Record RawStore := { tree : collection_tree; rwr : AsyncPartitionedParquetWriter }.

(** [grouped]. *)
Definition record_partition (r : RawMarketRecord) : raw_partition :=
  (iso_date (rr_local_receive_timestamp r), exchange_value (rr_exchange r), rr_symbol r, channel r).
Definition raw_groups : list RawMarketRecord → list (raw_partition * list RawMarketRecord) :=
  foldl (group_step record_partition) [].

Section writer.
Context (c : RawWriterSettings).

Abbreviation SM := (M RawStore).
Definition getRW : SM AsyncPartitionedParquetWriter := s ← getM; mret (rwr s).
Definition modifyRW (f : AsyncPartitionedParquetWriter → AsyncPartitionedParquetWriter) : SM unit :=
  modifyM (λ s, {| s with rwr := f (rwr s) |}).
Definition on_tree {A} (m : M collection_tree A) : SM A := zoomM tree (λ t s, {| s with tree := t |}) m.

Definition queue_full (w : AsyncPartitionedParquetWriter) : bool :=
  rs_queue_capacity c <=? Z.of_nat (length (pw_queue w)).
Definition task_ended (w : AsyncPartitionedParquetWriter) : bool :=
  match pw_task w with RawReturned | RawDied _ => true | _ => false end.
Definition raw_open (w : AsyncPartitionedParquetWriter) : bool :=
  match pw_close w with RawOpen => true | _ => false end.

Definition raw_start : SM unit :=
  w ← getRW;
  _ ← requireM (negb (pw_closed w)) (ParquetWriterError "cannot restart a closed Parquet writer");
  _ ← requireM (raw_open w) (ParquetWriterError "cannot start a closing Parquet writer");
  match pw_task w with
  | RawNotStarted =>
    _ ← on_tree (modifyM (λ t, {| t with ct_exists := true |}));
    modifyRW (λ w, {| w with pw_task := RawCollecting [] |})
  | _ => mret tt
  end.

Definition raw_worker_failure : SM unit :=
  w ← getRW;
  match pw_task w with
  | RawDied _ => raiseM (ParquetWriterError "Parquet worker failed")
  | _ => mret tt
  end.

Definition raw_enqueue (item : raw_item) : SM unit :=
  modifyRW (λ w, {| w with pw_queue := pw_queue w ++ [item] |}).
Definition raw_accepted : SM unit := modifyRW (λ w, {| w with accepted_records := accepted_records w + 1 |}).

(** ** [write] *)

Definition raw_backpressure (r : RawMarketRecord) : SM unit :=
  w ← getRW;
  if queue_full w then
    _ ← modifyRW (λ w, {| w with pw_backpressure_events := pw_backpressure_events w + 1 |});
    match rs_on_backpressure c with Some callback => liftM (callback r) | None => mret tt end
  else mret tt.

(** Up to its return (the record) or its wait ([None]). *)
Definition raw_write (r : RawMarketRecord) : SM (option RawMarketRecord) :=
  w ← getRW;
  _ ← requireM (negb (pw_closed w)) (ParquetWriterError "cannot write after close");
  _ ← requireM (raw_open w) (ParquetWriterError "cannot write after close begins");
  _ ← requireM (match pw_task w with RawNotStarted => false | _ => true end)
        (ParquetWriterError "start the Parquet writer before writing");
  _ ← raw_worker_failure;
  _ ← raw_backpressure r;
  if negb (queue_full w) then
    _ ← raw_enqueue (RawSubmission r); _ ← raw_accepted; mret (Some r)
  else
    _ ← modifyRW (λ w, {| w with pw_waiting := pw_waiting w ++ [{| ww_record := r; ww_enqueued := false |}] |});
    mret None.

(** The put of a waiting call finds room. *)
Definition raw_put (i : nat) : SM (option RawMarketRecord) :=
  w ← getRW;
  match pw_waiting w !! i with
  | Some x =>
    if ww_enqueued x || queue_full w then mret None
    else
      _ ← raw_enqueue (RawSubmission (ww_record x));
      _ ← modifyRW (λ w, {| w with pw_waiting := <[i := {| x with ww_enqueued := true |}]> (pw_waiting w) |});
      mret None
  | None => mret None
  end.

(** The caller resumes, with the put or the worker done. *)
Definition raw_resume (i : nat) : SM (option RawMarketRecord) :=
  w ← getRW;
  match pw_waiting w !! i with
  | Some x =>
    _ ← modifyRW (λ w, {| w with pw_waiting := delete i (pw_waiting w) |});
    _ ← if ww_enqueued x then raw_accepted else mret tt;
    if task_ended w then
      _ ← raw_worker_failure;
      raiseM (ParquetWriterError "Parquet worker stopped unexpectedly")
    else mret (Some (ww_record x))
  | None => mret None
  end.

(** The caller is cancelled while it waits. *)
Definition raw_cancel (i : nat) : SM (option RawMarketRecord) :=
  w ← getRW;
  match pw_waiting w !! i with
  | Some x =>
    _ ← modifyRW (λ w, {| w with pw_waiting := delete i (pw_waiting w) |});
    _ ← if ww_enqueued x then raw_accepted else mret tt;
    raiseM CancelledError
  | None => mret None
  end.

(** ** The worker *)

Definition set_raw_task (t : raw_task) : SM unit := modifyRW (λ w, {| w with pw_task := t |}).
Definition raw_after_flush (final : bool) : SM unit := set_raw_task (if final then RawReturned else RawCollecting []).
Definition raw_begin_flush (batch : list RawMarketRecord) (final : bool) : SM unit :=
  match batch with
  | [] => raw_after_flush final
  | _ => set_raw_task (RawFlushing (raw_groups batch) final)
  end.

Definition raw_get : SM unit :=
  w ← getRW;
  match pw_task w, pw_queue w with
  | RawCollecting batch, item :: q =>
    _ ← modifyRW (λ w, {| w with pw_queue := q |});
    match item with
    | RAW_STOP => raw_begin_flush batch true
    | RawSubmission r =>
      let batch := batch ++ [r] in
      if rs_batch_rows c <=? Z.of_nat (length batch) then raw_begin_flush batch false
      else set_raw_task (RawCollecting batch)
    end
  | _, _ => mret tt
  end.

Definition raw_timeout : SM unit :=
  w ← getRW;
  match pw_task w with RawCollecting batch => raw_begin_flush batch false | _ => mret tt end.

Definition raw_count_written (p : path) (l : list RawMarketRecord) : SM unit :=
  modifyRW (λ w, {| w with pw_last_file := Some p; pw_written_files := pw_written_files w + 1;
                           written_records := written_records w + Z.of_nat (length l) |}).

(** The thread writes the next partition, and the loop counts it. *)
Definition raw_place (nonce : string) (fault : option write_fault) : SM unit :=
  w ← getRW;
  match pw_task w with
  | RawFlushing ((part, l) :: todo) final =>
    r ← attempt (on_tree (write_raw_partition nonce fault part l));
    match r with
    | Ok p =>
      _ ← raw_count_written p l;
      match todo with
      | [] => _ ← modifyRW (λ w, {| w with pw_flush_count := pw_flush_count w + 1 |}); raw_after_flush final
      | _ => set_raw_task (RawFlushing todo final)
      end
    | Err e => modifyRW (λ w, {| w with pw_last_error := Some e; pw_task := RawDied e |})
    end
  | _ => mret tt
  end.

(** ** [close] *)

Definition raw_close_begin : SM unit :=
  modifyRW (λ w, {| w with pw_close := match pw_close w with RawOpen => RawCloseCreated | st => st end |}).

Definition raw_close_end (r : res unit) : SM unit :=
  modifyRW (λ w, {| w with pw_closed := true; pw_close := RawCloseDone r |}).
Definition set_raw_close (st : raw_close) : SM unit := modifyRW (λ w, {| w with pw_close := st |}).

(** [_close_lifecycle] up to its wait. *)
Definition raw_close_run : SM unit :=
  w ← getRW;
  match pw_task w with
  | RawNotStarted => raw_close_end (Ok tt)
  | RawDied _ => raw_close_end (Err (ParquetWriterError "Parquet worker failed"))
  | _ =>
    if queue_full w then set_raw_close (RawStopping false)
    else _ ← raw_enqueue RAW_STOP; set_raw_close RawJoining
  end.

Definition raw_close_put : SM unit :=
  w ← getRW;
  match pw_close w with
  | RawStopping false =>
    if queue_full w then mret tt else _ ← raw_enqueue RAW_STOP; set_raw_close (RawStopping true)
  | _ => mret tt
  end.

(** The put of the stop or the worker is done. *)
Definition raw_close_resume : SM unit :=
  w ← getRW;
  match pw_close w with
  | RawStopping queued =>
    match pw_task w with
    | RawDied _ => raw_close_end (Err (ParquetWriterError "Parquet worker failed"))
    | RawReturned => if queued then raw_close_end (Ok tt)
                     else raw_close_end (Err (ParquetWriterError "Parquet worker stopped unexpectedly"))
    | _ => set_raw_close RawJoining
    end
  | _ => mret tt
  end.

Definition raw_close_join : SM unit :=
  w ← getRW;
  match pw_task w with
  | RawDied _ => raw_close_end (Err (ParquetWriterError "Parquet worker failed"))
  | _ => raw_close_end (Ok tt)
  end.

(** ** Steps *)

(** A killed process leaves the tree, perhaps with a temporary file. *)
Definition raw_crash (interrupted : option string) : SM unit :=
  s ← getM;
  let t := match interrupted, pw_task (rwr s) with
           | Some nonce, RawFlushing ((part, l) :: _) _ =>
             match raw_filename nonce l with
             | Ok name =>
               let t := make_directories (raw_directory part) (tree s) in
               {| t with ct_temporaries := ct_temporaries t ++ [temporary_path (raw_directory part) name] |}
             | Err _ => tree s
             end
           | _, _ => tree s
           end in
  modifyM (λ _, {| tree := t; rwr := raw_writer_init |}).

Inductive raw_label :=
| RStart
| RWrite (r : RawMarketRecord)
| RPut (i : nat)
| RResume (i : nat)
| RCancel (i : nat)
| RGet
| RTimeout
| RPlace (nonce : string) (fault : option write_fault)
| RClose
| RCloseRun
| RClosePut
| RCloseResume
| RCloseJoin
| RCrash (interrupted : option string).

Definition no_record (m : SM unit) : SM (option RawMarketRecord) := _ ← m; mret None.

Definition run_raw (l : raw_label) : SM (option RawMarketRecord) :=
  match l with
  | RStart => no_record raw_start
  | RWrite r => raw_write r
  | RPut i => raw_put i
  | RResume i => raw_resume i
  | RCancel i => raw_cancel i
  | RGet => no_record raw_get
  | RTimeout => no_record raw_timeout
  | RPlace nonce fault => no_record (raw_place nonce fault)
  | RClose => no_record raw_close_begin
  | RCloseRun => no_record raw_close_run
  | RClosePut => no_record raw_close_put
  | RCloseResume => no_record raw_close_resume
  | RCloseJoin => no_record raw_close_join
  | RCrash interrupted => no_record (raw_crash interrupted)
  end.

(** When a step can happen. *)
Definition raw_enabled (l : raw_label) (s : RawStore) : bool :=
  let w := rwr s in
  match l with
  | RStart | RWrite _ | RClose | RCrash _ => true
  | RPut i => match pw_waiting w !! i with Some x => negb (ww_enqueued x) && negb (queue_full w) | None => false end
  | RResume i => match pw_waiting w !! i with Some x => ww_enqueued x || task_ended w | None => false end
  | RCancel i => match pw_waiting w !! i with Some _ => true | None => false end
  | RGet => match pw_task w, pw_queue w with RawCollecting _, _ :: _ => true | _, _ => false end
  | RTimeout => match pw_task w with RawCollecting _ => true | _ => false end
  | RPlace _ _ => match pw_task w with RawFlushing (_ :: _) _ => true | _ => false end
  | RCloseRun => match pw_close w with RawCloseCreated => true | _ => false end
  | RClosePut => match pw_close w with RawStopping false => negb (queue_full w) | _ => false end
  | RCloseResume => match pw_close w with RawStopping queued => queued || task_ended w | _ => false end
  | RCloseJoin => match pw_close w with RawJoining => task_ended w | _ => false end
  end.

Inductive raw_step (s : RawStore) (l : raw_label) : RawStore → Prop :=
| raw_step_label : raw_enabled l s = true → raw_step s l (run_raw l s).1.

(** The name of the next file is not taken: it has 64 random bits. *)
Definition raw_fresh (s : RawStore) (l : raw_label) : bool :=
  match l, pw_task (rwr s) with
  | RPlace nonce _, RawFlushing ((part, records) :: _) _ =>
    match raw_filename nonce records with
    | Ok name => is_none (dict_get (raw_directory part ++ [name]) (ct_files (tree s)))
    | Err _ => true
    end
  | _, _ => true
  end.
End writer.
