(* ===== verification/RawAudits.v ===== *)
(** * The audit of raw trees

    [storage/compact.py: audit_raw_tree].  The audit reads every row of a tree in batches
    and accumulates what does not depend on their order nor on the files they are in.  The
    SHA-256 of a row is a parameter. *)

From S2P Require Import Prelude Effects PyDecimal PyFloat PyTime Models Fingerprint FeatureModels FeatureRows FeatureTree FeatureScan RawRecords RawTree.
From stdpp Require Import gmap strings.
From Stdlib Require Import Ascii.
Open Scope Z_scope.

Record RawAudit := {
  ra_rows : Z;
  ra_files : Z;
  ra_unique_record_ids : Z;
  ra_content_digest : string;
  ra_payload_bytes : Z;
  ra_partitions : Z }.

Definition RAW_MODULUS : Z := Z.shiftl 1 256.

(** What the audit accumulates. *)
Record audit_state := {
  au_rows : Z; au_digest : Z; au_payload_bytes : Z; au_partitions : list raw_partition; au_ids : list string }.
Definition audit_init : audit_state :=
  {| au_rows := 0; au_digest := 0; au_payload_bytes := 0; au_partitions := []; au_ids := [] |}.

Section audit.
Context (row_hash : RawRow → Z).

(** [set.add]. *)
Definition add_partition (p : raw_partition) (l : list raw_partition) : list raw_partition :=
  if bool_decide (p ∈ l) then l else p :: l.

Definition audit_row (parent : path) (a : audit_state) (row : RawRow) : res audit_state :=
  _ ← require (rw_schema_version row =? 1) (ValueError "unsupported raw schema version");
  _ ← require (bool_decide (rw_raw_payload_reference row = "raw://" +:+ rw_record_id row))
        (ValueError "raw payload lineage mismatch");
  _ ← require (negb (bool_decide (rw_raw_payload row = ""%string))) (ValueError "empty raw payload");
  let partition := row_partition row in
  _ ← require (bool_decide (parent = raw_directory partition)) (ValueError "row/partition mismatch");
  Ok {| au_rows := au_rows a + 1; au_digest := (au_digest a + row_hash row) mod RAW_MODULUS;
        au_payload_bytes := au_payload_bytes a + Z.of_nat (String.length (rw_raw_payload row));
        au_partitions := add_partition partition (au_partitions a); au_ids := au_ids a |}.

Fixpoint audit_rows (parent : path) (rows : list RawRow) (a : audit_state) : res audit_state :=
  match rows with
  | [] => Ok a
  | row :: rows => a ← audit_row parent a row; audit_rows parent rows a
  end.

(** [INSERT OR IGNORE], and the number of rows inserted. *)
Fixpoint insert_ids (ids known : list string) : list string * Z :=
  match ids with
  | [] => (known, 0)
  | id :: ids =>
    if bool_decide (id ∈ known) then insert_ids ids known
    else let '(known, n) := insert_ids ids (id :: known) in (known, n + 1)
  end.

Definition audit_batch (parent : path) (a : audit_state) (rows : list RawRow) : res audit_state :=
  a ← audit_rows parent rows a;
  let '(known, inserted) := insert_ids (map rw_record_id rows) (au_ids a) in
  _ ← require (inserted =? Z.of_nat (length rows)) (ValueError "duplicate raw record_id");
  Ok {| a with au_ids := known |}.

Fixpoint audit_batches (parent : path) (batches : list (list RawRow)) (a : audit_state) : res audit_state :=
  match batches with
  | [] => Ok a
  | b :: batches => a ← audit_batch parent a b; audit_batches parent batches a
  end.

Definition AUDIT_BATCH : nat := Z.to_nat 65536.

Definition audit_file (a : audit_state) (f : path * RawParquetFile) : res audit_state :=
  _ ← require (raw_schema_matches f.2) (ValueError "raw Parquet schema mismatch");
  audit_batches (removelast f.1) (chunks AUDIT_BATCH (raw_rows f.2)) a.
Fixpoint audit_files (files : raw_tree) (a : audit_state) : res audit_state :=
  match files with
  | [] => Ok a
  | f :: files => a ← audit_file a f; audit_files files a
  end.

(** [f"{n:064x}"]. *)
Definition hex_digest (n : Z) : string := of_chars (fixed_digits 16 64 n).

Definition audit_raw_tree (t : collection_tree) : res RawAudit :=
  let files := py_sorted raw_file_leb (ct_files t) in
  a ← audit_files files audit_init;
  Ok {| ra_rows := au_rows a; ra_files := Z.of_nat (length files); ra_unique_record_ids := au_rows a;
        ra_content_digest := hex_digest (au_digest a); ra_payload_bytes := au_payload_bytes a;
        ra_partitions := Z.of_nat (length (au_partitions a)) |}.
End audit.


Lemma AUDIT_BATCH_pos : (0 < AUDIT_BATCH)%nat.
Proof. unfold AUDIT_BATCH. lia. Qed.

(** ** What it computes *)

Section spec.
Context (row_hash : RawRow → Z).

Definition row_sum (f : RawRow → Z) (rows : list RawRow) : Z := foldr (λ r n, f r + n) 0 rows.
Definition payload_bytes (r : RawRow) : Z := Z.of_nat (String.length (rw_raw_payload r)).

Definition audit_of (files : Z) (rows : list RawRow) : RawAudit :=
  {| ra_rows := Z.of_nat (length rows); ra_files := files; ra_unique_record_ids := Z.of_nat (length rows);
     ra_content_digest := hex_digest (row_sum row_hash rows mod RAW_MODULUS);
     ra_payload_bytes := row_sum payload_bytes rows;
     ra_partitions := Z.of_nat (size (list_to_set (map row_partition rows) : gset raw_partition)) |}.

(** A row in its place. *)
Definition row_sound (parent : path) (r : RawRow) : Prop :=
  rw_schema_version r = 1 ∧ rw_raw_payload_reference r = ("raw://" +:+ rw_record_id r)%string ∧
  rw_raw_payload r ≠ ""%string ∧ parent = raw_directory (row_partition r).
Definition files_sound (f : raw_tree) : Prop :=
  Forall (λ x : path * RawParquetFile, raw_schema_matches x.2 = true ∧ Forall (row_sound (removelast x.1)) (raw_rows x.2)) f.

Lemma row_sum_app f a b : row_sum f (a ++ b) = row_sum f a + row_sum f b.
Proof using Type. induction a as [|x a IH]; [done|]. simpl. fold (row_sum f (a ++ b)). fold (row_sum f a). rewrite IH. lia. Qed.
Lemma row_sum_perm f a b : a ≡ₚ b → row_sum f a = row_sum f b.
Proof using Type. unfold row_sum. induction 1; simpl; lia. Qed.

Lemma audit_of_perm n a b : a ≡ₚ b → audit_of n a = audit_of n b.
Proof using Type.
  intros H. unfold audit_of. rewrite (row_sum_perm row_hash a b H), (row_sum_perm payload_bytes a b H), (Permutation_length H).
  do 3 f_equal. apply set_eq. intros p. by rewrite !elem_of_list_to_set, H.
Qed.

(** The accumulated state of some rows. *)
Record audited (rows : list RawRow) (a : audit_state) : Prop := {
  ad_rows : au_rows a = Z.of_nat (length rows);
  ad_digest : au_digest a = row_sum row_hash rows mod RAW_MODULUS;
  ad_payload : au_payload_bytes a = row_sum payload_bytes rows;
  ad_nodup : NoDup (au_partitions a);
  ad_partitions : ∀ p, p ∈ au_partitions a ↔ p ∈ map row_partition rows }.

Lemma audited_of rows a n :
  audited rows a →
  {| ra_rows := au_rows a; ra_files := n; ra_unique_record_ids := au_rows a; ra_content_digest := hex_digest (au_digest a);
     ra_payload_bytes := au_payload_bytes a; ra_partitions := Z.of_nat (length (au_partitions a)) |} = audit_of n rows.
Proof using Type.
  intros [H1 H2 H3 H4 H5]. unfold audit_of. rewrite H1, H2, H3. do 2 f_equal.
  rewrite <- (size_list_to_set (C := gset raw_partition)) by done. f_equal.
  apply set_eq. intros p. rewrite !elem_of_list_to_set. apply H5.
Qed.

Lemma audit_row_ok parent rows a row b :
  audited rows a → audit_row row_hash parent a row = Ok b →
  row_sound parent row ∧ audited (rows ++ [row]) b ∧ au_ids b = au_ids a.
Proof using Type.
  intros [H1 H2 H3 H4 H5] H. unfold audit_row in H. inv_res. subst b.
  repeat match goal with H : bool_decide _ = true |- _ => apply bool_decide_eq_true_1 in H
    | H : negb _ = true |- _ => apply negb_true_iff in H; apply bool_decide_eq_false_1 in H
    | H : (_ =? _) = true |- _ => apply Z.eqb_eq in H end.
  split; [done|]. split; [|done].
  split; cbn [au_rows au_digest au_payload_bytes au_partitions].
  - rewrite length_app, H1. simpl. lia.
  - rewrite H2, row_sum_app. simpl. rewrite Z.add_0_r. apply Zplus_mod_idemp_l.
  - rewrite H3, row_sum_app. unfold payload_bytes at 3. simpl. lia.
  - unfold add_partition. case_bool_decide; [done|by constructor].
  - intros p. rewrite map_app, elem_of_app. cbn [map]. rewrite list_elem_of_singleton, <- H5. unfold add_partition. case_bool_decide as Hin.
    + split; [by left|]. by intros [?| ->].
    + rewrite elem_of_cons. tauto.
Qed.

Lemma audit_row_total parent a row :
  row_sound parent row → ∃ b, audit_row row_hash parent a row = Ok b.
Proof using Type.
  intros (H1 & H2 & H3 & H4). unfold audit_row. rewrite H1, (bool_decide_eq_true_2 _ H2), (bool_decide_eq_false_2 _ H3), (bool_decide_eq_true_2 _ H4).
  eexists. reflexivity.
Qed.

(** With the identifiers of the batches before. *)
Definition audited_ids (rows : list RawRow) (a : audit_state) : Prop :=
  audited rows a ∧ NoDup (au_ids a) ∧ au_ids a ≡ₚ map rw_record_id rows.

Lemma audit_rows_ok parent l rows a b :
  audited rows a → audit_rows row_hash parent l a = Ok b →
  Forall (row_sound parent) l ∧ audited (rows ++ l) b ∧ au_ids b = au_ids a.
Proof using Type.
  revert rows a. induction l as [|r l IH]; intros rows a Ha H.
  - injection H as <-. by rewrite app_nil_r.
  - cbn [audit_rows] in H. apply bind_Ok in H as (a1 & H1 & H2).
    destruct (audit_row_ok _ _ _ _ _ Ha H1) as (R1 & A1 & E1). destruct (IH _ _ A1 H2) as (R2 & A2 & E2).
    rewrite <- app_assoc in A2. split; [by constructor|]. split; [done|congruence].
Qed.

Lemma audit_rows_total parent l a : Forall (row_sound parent) l → ∃ b, audit_rows row_hash parent l a = Ok b.
Proof using Type.
  intros H. revert a. induction H as [|r l Hr _ IH]; intros a; [by eexists|]. cbn [audit_rows].
  destruct (audit_row_total parent a r Hr) as [a1 ->]. apply IH.
Qed.

Lemma insert_ids_spec ids known :
  let '(k, n) := insert_ids ids known in
  n ≤ Z.of_nat (length ids) ∧
  (n = Z.of_nat (length ids) → k ≡ₚ ids ++ known ∧ (NoDup known → NoDup k)) ∧
  (NoDup (ids ++ known) → n = Z.of_nat (length ids)).
Proof using Type.
  revert known. induction ids as [|x ids IH]; intros known; [done|]. cbn [insert_ids].
  case_bool_decide as Hx.
  - specialize (IH known). destruct (insert_ids ids known) as [k n]. destruct IH as (I1 & I2 & I3).
    cbn [length]. split; [lia|]. split; [lia|]. intros Hn. exfalso. simpl in Hn. apply NoDup_cons in Hn as [Hn _].
    apply Hn, elem_of_app. by right.
  - specialize (IH (x :: known)). destruct (insert_ids ids (x :: known)) as [k n]. destruct IH as (I1 & I2 & I3).
    cbn [length]. split; [lia|]. split.
    + intros E. destruct I2 as [I2 I4]; [lia|]. split; [rewrite I2; simpl; by rewrite Permutation_middle|].
      intros Hk. apply I4. by constructor.
    + intros Hn. rewrite I3; [lia|]. by rewrite <- Permutation_middle.
Qed.

Lemma audit_batch_ok parent l rows a b :
  audited_ids rows a → audit_batch row_hash parent a l = Ok b → Forall (row_sound parent) l ∧ audited_ids (rows ++ l) b.
Proof using Type.
  intros (Ha & Hn & Hp) H. unfold audit_batch in H. apply bind_Ok in H as (a1 & H1 & H).
  destruct (audit_rows_ok _ _ _ _ _ Ha H1) as (R1 & A1 & E1). pose proof (insert_ids_spec (map rw_record_id l) (au_ids a1)) as Hi.
  destruct (insert_ids _ _) as [k n]. destruct Hi as (_ & Hi & _). inv_res. subst b.
  match goal with H : (_ =? _) = true |- _ => apply Z.eqb_eq in H; rewrite length_map in Hi; destruct (Hi H) as [I1 I2] end.
  split; [done|]. split; [by destruct A1|]. cbn [au_ids]. rewrite E1 in *. split; [by apply I2|].
  rewrite I1, Hp, map_app. apply Permutation_app_comm.
Qed.

Lemma audit_batch_total parent l rows a :
  audited_ids rows a → Forall (row_sound parent) l → NoDup (map rw_record_id (rows ++ l)) →
  ∃ b, audit_batch row_hash parent a l = Ok b.
Proof using Type.
  intros (Ha & Hn & Hp) Hl Hd. unfold audit_batch. destruct (audit_rows_total parent l a Hl) as [a1 H1].
  destruct (audit_rows_ok _ _ _ _ _ Ha H1) as (_ & _ & E1). rewrite H1. cbn [mbind res_bind].
  pose proof (insert_ids_spec (map rw_record_id l) (au_ids a1)) as Hi.
  destruct (insert_ids _ _) as [k n]. destruct Hi as (_ & _ & Hi). rewrite length_map in Hi.
  rewrite Hi.
  - rewrite Z.eqb_refl. cbn [require mbind res_bind]. by eexists.
  - rewrite E1, Hp. rewrite map_app in Hd. by rewrite Permutation_app_comm.
Qed.

Lemma audit_batches_ok parent ls rows a b :
  audited_ids rows a → audit_batches row_hash parent ls a = Ok b →
  Forall (row_sound parent) (concat ls) ∧ audited_ids (rows ++ concat ls) b.
Proof using Type.
  revert rows a. induction ls as [|l ls IH]; intros rows a Ha H.
  - injection H as <-. by rewrite app_nil_r.
  - cbn [audit_batches] in H. apply bind_Ok in H as (a1 & H1 & H2).
    destruct (audit_batch_ok _ _ _ _ _ Ha H1) as [R1 A1]. destruct (IH _ _ A1 H2) as [R2 A2].
    rewrite <- app_assoc in A2. split; [by apply Forall_app|done].
Qed.

Lemma audit_batches_total parent ls rows a :
  audited_ids rows a → Forall (row_sound parent) (concat ls) → NoDup (map rw_record_id (rows ++ concat ls)) →
  ∃ b, audit_batches row_hash parent ls a = Ok b.
Proof using Type.
  revert rows a. induction ls as [|l ls IH]; intros rows a Ha Hl Hn; [by eexists|].
  cbn [concat] in *. apply Forall_app in Hl as [Hl1 Hl2]. cbn [audit_batches]. rewrite app_assoc in Hn.
  destruct (audit_batch_total parent l rows a Ha Hl1) as [a1 H1].
  { rewrite map_app in Hn. by apply NoDup_app in Hn as [Hn _]. }
  rewrite H1. cbn [mbind res_bind]. apply (IH (rows ++ l)); [|done..]. by eapply audit_batch_ok.
Qed.

Lemma audit_files_ok f rows a b :
  audited_ids rows a → audit_files row_hash f a = Ok b → files_sound f ∧ audited_ids (rows ++ rows_of f) b.
Proof using Type.
  revert rows a. induction f as [|x f IH]; intros rows a Ha H.
  - injection H as <-. split; [constructor|]. unfold rows_of. simpl. by rewrite app_nil_r.
  - cbn [audit_files] in H. apply bind_Ok in H as (a1 & H1 & H2). unfold audit_file in H1. apply bind_Ok in H1 as (? & Hs & H1).
    apply require_Ok in Hs. destruct (audit_batches_ok _ _ _ _ _ Ha H1) as [R1 A1].
    rewrite chunks_concat in * by (exact AUDIT_BATCH_pos). destruct (IH _ _ A1 H2) as [R2 A2].
    split; [by constructor|]. by rewrite <- app_assoc in A2.
Qed.

Lemma audit_files_total f rows a :
  audited_ids rows a → files_sound f → NoDup (map rw_record_id (rows ++ rows_of f)) →
  ∃ b, audit_files row_hash f a = Ok b.
Proof using Type.
  revert rows a. induction f as [|x f IH]; intros rows a Ha Hf Hn; [by eexists|].
  apply Forall_cons in Hf as [[Hs Hx] Hf]. cbn [audit_files]. unfold audit_file at 1. rewrite Hs. cbn [require mbind res_bind].
  unfold rows_of in Hn. cbn [map concat] in Hn. fold (rows_of f) in Hn. rewrite app_assoc in Hn.
  assert (concat (chunks AUDIT_BATCH (raw_rows x.2)) = raw_rows x.2) as Hch by (apply chunks_concat; exact AUDIT_BATCH_pos).
  destruct (audit_batches_total (removelast x.1) (chunks AUDIT_BATCH (raw_rows x.2)) rows a Ha) as [a1 H1].
  - by rewrite Hch.
  - rewrite Hch. rewrite map_app in Hn. by apply NoDup_app in Hn as [Hn _].
  - rewrite H1. cbn [mbind res_bind]. apply (IH (rows ++ raw_rows x.2)); [|done..].
    rewrite <- Hch. by eapply audit_batches_ok.
Qed.

Lemma audit_init_ids : audited_ids [] audit_init.
Proof using Type. split; [split; [done..|constructor|done]|split; [constructor|done]]. Qed.

(** The audit of a tree succeeds exactly when its files and rows are in order and no
    identifier occurs twice, with a result that only looks at the rows and the number of files. *)
Lemma audit_raw_tree_spec t a :
  audit_raw_tree row_hash t = Ok a ↔
  files_sound (ct_files t) ∧ NoDup (map rw_record_id (rows_of (ct_files t))) ∧
  a = audit_of (Z.of_nat (length (ct_files t))) (rows_of (ct_files t)).
Proof using Type.
  set (files := py_sorted raw_file_leb (ct_files t)).
  assert (files ≡ₚ ct_files t) as Hp by apply py_sorted_perm.
  assert (rows_of files ≡ₚ rows_of (ct_files t)) as Hr by by apply rows_of_perm.
  assert (files_sound files ↔ files_sound (ct_files t)) as Hf by (unfold files_sound; by rewrite Hp).
  assert (length files = length (ct_files t)) as Hl by by rewrite Hp.
  unfold audit_raw_tree. fold files. rewrite <- Hf, <- Hl, <- (audit_of_perm _ _ _ Hr), <- (fmap_Permutation rw_record_id _ _ Hr).
  split.
  - intros (b & Hb & [= <-])%bind_Ok. destruct (audit_files_ok _ _ _ _ audit_init_ids Hb) as [H1 (H2 & H3 & H4)].
    split; [done|]. split; [by rewrite <- H4|]. by apply audited_of.
  - intros (H1 & H2 & ->). destruct (audit_files_total files [] audit_init audit_init_ids H1 H2) as [b Hb].
    rewrite Hb. cbn [mbind res_bind]. f_equal. apply audited_of.
    by destruct (audit_files_ok _ _ _ _ audit_init_ids Hb) as [_ [? _]].
Qed.
End spec.
