(* ===== verification/RawStore.v ===== *)
(** * What the raw writer promises

    Sessions of the writer, the account of the records it was given, and the delivery of
    every accepted record by a close that no waiting call overlaps. *)

From S2P Require Import Prelude Effects PyDecimal PyFloat PyTime Models Fingerprint FeatureModels FeatureRows FeatureTree RawRecords RawTree RawWriter.
Open Scope Z_scope.

(** ** The account *)

Definition queue_records (q : list raw_item) : list RawMarketRecord :=
  omap (λ i, match i with RawSubmission r => Some r | RAW_STOP => None end) q.
Definition task_records (t : raw_task) : list RawMarketRecord :=
  match t with RawCollecting batch => batch | RawFlushing todo _ => concat (map snd todo) | _ => [] end.
(** The waiting calls whose record is in the queue already. *)
Definition enqueued (l : list waiting_write) : list RawMarketRecord :=
  omap (λ x, if ww_enqueued x then Some (ww_record x) else None) l.

Definition returned (r : res (option RawMarketRecord)) : list RawMarketRecord :=
  match r with Ok (Some r) => [r] | _ => [] end.
Definition given_to (l : raw_label) : list RawMarketRecord := match l with RWrite r => [r] | _ => [] end.

Section session.
Context (c : RawWriterSettings) (allowed : raw_label → RawStore → bool) (start : collection_tree).

(** A new writer on a tree, and its steps: the records given to [write], those of the
    calls that returned. *)
Inductive raw_session : RawStore → list RawMarketRecord → list RawMarketRecord → Prop :=
| raw_session_init : raw_session {| tree := start; rwr := raw_writer_init |} [] []
| raw_session_step s given acc l :
    raw_session s given acc → raw_enabled c l s = true → raw_fresh s l = true → allowed l s = true →
    raw_session (run_raw c l s).1 (given ++ given_to l) (acc ++ returned (run_raw c l s).2).
End session.

(** No crash. *)
Definition no_crash (l : raw_label) (s : RawStore) : bool := match l with RCrash _ => false | _ => true end.
(** No crash, and no call waits when the writer is closed. *)
Definition quiet (l : raw_label) (s : RawStore) : bool :=
  match l with RCrash _ => false | RClose => match pw_waiting (rwr s) with [] => true | _ => false end | _ => true end.

Lemma session_weaken c (P Q : raw_label → RawStore → bool) start s given acc :
  (∀ l s, P l s = true → Q l s = true) → raw_session c P start s given acc → raw_session c Q start s given acc.
Proof. intros H. induction 1; [constructor|]. constructor; auto. Qed.

Section account.
Context (start : collection_tree).

(** [orphans] entered the queue though their calls raised, [refused] never did. *)
Record raw_inv (s : RawStore) (given acc orphans refused written lost : list RawMarketRecord) : Prop := {
  ri_files : files_in_place (tree s) ∧ same_rest start (tree s);
  ri_rows : rows_of (ct_files (tree s)) ≡ₚ rows_of (ct_files start) ++ map raw_row written;
  ri_account : acc ++ orphans ++ enqueued (pw_waiting (rwr s)) ≡ₚ
    written ++ lost ++ task_records (pw_task (rwr s)) ++ queue_records (pw_queue (rwr s));
  ri_given : given ≡ₚ acc ++ orphans ++ map ww_record (pw_waiting (rwr s)) ++ refused;
  ri_accepted : accepted_records (rwr s) = Z.of_nat (length (acc ++ orphans));
  ri_written : written_records (rwr s) = Z.of_nat (length written);
  ri_lost : lost = [] ∨ ∃ e, pw_task (rwr s) = RawDied e;
  ri_todo : match pw_task (rwr s) with RawFlushing todo _ => todo ≠ [] ∧ grouped record_partition todo | _ => True end }.

Definition raw_accounted (s : RawStore) (given acc : list RawMarketRecord) : Prop :=
  ∃ orphans refused written lost, raw_inv s given acc orphans refused written lost.
End account.

(** The steps, computed. *)
Ltac raw_run :=
  unfold run_raw, no_record, raw_start, raw_write, raw_put, raw_resume, raw_cancel, raw_get, raw_timeout,
    raw_close_begin, raw_close_run, raw_close_put, raw_close_resume, raw_close_join, raw_close_end, set_raw_close,
    raw_worker_failure, raw_backpressure, raw_begin_flush, raw_after_flush, set_raw_task, raw_enqueue, raw_accepted,
    on_tree, zoomM, modifyRW, getRW, requireM, raiseM, liftM, modifyM, getM, mbind, M_bind, mret, M_ret;
  cbn [fst snd tree rwr].

Lemma raw_groups_spec l :
  l ≠ [] → (raw_groups l ≠ [] ∧ grouped record_partition (raw_groups l)) ∧ concat (map snd (raw_groups l)) ≡ₚ l.
Proof.
  intros Hl. destruct (group_fold_spec record_partition l [] ltac:(constructor)) as [Hg H]. simpl in H.
  fold (raw_groups l) in H, Hg. split; [|done]. split; [|done]. intros E. rewrite E in H. simpl in H. by apply Permutation_nil_l in H as <-.
Qed.

Lemma enqueued_app a b : enqueued (a ++ b) = enqueued a ++ enqueued b.
Proof. apply omap_app. Qed.
Lemma queue_records_app a b : queue_records (a ++ b) = queue_records a ++ queue_records b.
Proof. apply omap_app. Qed.

(** The waiting call of an index. *)
Lemma waiting_split l i (x : waiting_write) :
  l !! i = Some x → ∃ a b, l = a ++ x :: b ∧ i = length a ∧ delete i l = a ++ b ∧ (∀ y, <[i := y]> l = a ++ y :: b).
Proof.
  intros H. exists (take i l), (drop (S i) l). pose proof (lookup_lt_Some _ _ _ H) as Hlt.
  assert (l = take i l ++ x :: drop (S i) l) as E by (symmetry; by apply take_drop_middle).
  split; [done|]. split; [rewrite length_take; lia|]. split; [apply delete_take_drop|].
  intros y. by rewrite insert_take_drop.
Qed.

Section steps.
Context (c : RawWriterSettings) (start : collection_tree).
Abbreviation inv := (raw_inv start).

(** What the account looks at. *)
Definition same_account (s s' : RawStore) : Prop :=
  tree s' = tree s ∧ pw_queue (rwr s') = pw_queue (rwr s) ∧ pw_task (rwr s') = pw_task (rwr s) ∧
  pw_waiting (rwr s') = pw_waiting (rwr s) ∧ accepted_records (rwr s') = accepted_records (rwr s) ∧
  written_records (rwr s') = written_records (rwr s).

Lemma inv_same s s' given acc o f w l : same_account s s' → inv s given acc o f w l → inv s' given acc o f w l.
Proof.
  intros (E1 & E2 & E3 & E4 & E5 & E6) [? ? ? ? ? ? ? ?]. split; rewrite ?E1, ?E2, ?E3, ?E4, ?E5, ?E6; done.
Qed.

(** A step that returns no record. *)
Definition keeps_account (l : raw_label) (s : RawStore) : Prop :=
  ∀ given acc, raw_accounted start s given acc →
    raw_accounted start (run_raw c l s).1 (given ++ given_to l) (acc ++ returned (run_raw c l s).2).

Lemma same_keeps l s :
  same_account s (run_raw c l s).1 → given_to l = [] → returned (run_raw c l s).2 = [] → keeps_account l s.
Proof.
  intros H1 H2 H3 given acc (o & f & w & lo & H). rewrite H2, H3, !app_nil_r. exists o, f, w, lo. by apply (inv_same s).
Qed.

Lemma start_keeps s : keeps_account RStart s.
Proof.
  intros given acc (o & f & w & lo & H). cbn [given_to]. rewrite app_nil_r.
  assert (returned (run_raw c RStart s).2 = []) as ->.
  { raw_run. destruct (pw_closed _), (raw_open _), (pw_task _); done. }
  rewrite app_nil_r. exists o, f, w, lo. raw_run.
  destruct (pw_closed (rwr s)); [done|]. cbn [negb require fst snd]. destruct (raw_open (rwr s)); [|done].
  cbn [require fst snd]. destruct (pw_task (rwr s)) eqn:Et; try done. cbn [fst snd].
  destruct H as [H1 H2 H3 H4 H5 H6 H7 H8]. rewrite Et in *.
  split; cbn [tree rwr ct_files pw_queue pw_task pw_waiting accepted_records written_records]; try done.
  destruct H7 as [H7|[e He]]; [by left|congruence].
Qed.

Lemma close_keeps l s :
  match l with RClose | RCloseRun | RClosePut | RCloseResume | RCloseJoin => True | _ => False end →
  raw_enabled c l s = true → keeps_account l s.
Proof.
  assert (∀ s, queue_records (pw_queue (rwr s) ++ [RAW_STOP]) = queue_records (pw_queue (rwr s))) as Hq
    by (intros; by rewrite queue_records_app, (app_nil_r (queue_records _))).
  assert (∀ s given acc st, raw_accounted start s given acc →
    raw_accounted start {| tree := tree s; rwr := let w := rwr s in
      {| w with pw_queue := pw_queue w ++ [RAW_STOP]; pw_close := st |} |} given acc) as Hstop.
  { intros s0 given acc st (o & f & w & lo & [? ? ? ? ? ? ? ?]). exists o, f, w, lo.
    split; cbn [tree rwr pw_queue pw_task pw_waiting accepted_records written_records]; rewrite ?Hq; try done. }
  intros Hl He. destruct l; try done.
  - by apply same_keeps.
  - intros given acc H. cbn [given_to]. rewrite app_nil_r. revert H. raw_run.
    destruct (pw_task (rwr s)) eqn:Et; cbn [fst snd returned]; rewrite ?app_nil_r;
      intros (o & f & w & lo & H).
    1, 5: exists o, f, w, lo; by apply (inv_same s).
    all: destruct (queue_full c (rwr s)); cbn [fst snd returned]; rewrite ?app_nil_r.
    1, 3, 5: exists o, f, w, lo; by apply (inv_same s).
    all: apply (Hstop s given acc RawJoining); by exists o, f, w, lo.
  - intros given acc H. cbn [given_to]. rewrite app_nil_r. revert H. raw_run. cbn [raw_enabled] in He.
    destruct (pw_close (rwr s)) as [| |[]| |] eqn:Ec; cbn [fst snd returned]; rewrite ?app_nil_r; try done.
    destruct (queue_full c (rwr s)); cbn [fst snd returned]; rewrite ?app_nil_r; [done|].
    by apply (Hstop s given acc (RawStopping true)).
  - intros given acc H. cbn [given_to]. rewrite app_nil_r. revert H. raw_run.
    destruct (pw_close (rwr s)) as [| |[]| |] eqn:Ec; cbn [fst snd returned]; rewrite ?app_nil_r; try done;
      destruct (pw_task (rwr s)) eqn:Et; cbn [fst snd returned]; rewrite ?app_nil_r;
      intros (o & f & w & lo & H); exists o, f, w, lo; by apply (inv_same s).
  - intros given acc H. cbn [given_to]. rewrite app_nil_r. revert H. raw_run.
    destruct (pw_task (rwr s)) eqn:Et; cbn [fst snd returned]; rewrite ?app_nil_r;
      intros (o & f & w & lo & H); exists o, f, w, lo; by apply (inv_same s).
Qed.

(** ** The worker *)

Definition raw_flush_task (batch : list RawMarketRecord) (final : bool) : raw_task :=
  match batch with
  | [] => if final then RawReturned else RawCollecting []
  | _ => RawFlushing (raw_groups batch) final
  end.
Lemma raw_begin_flush_eq batch final : raw_begin_flush batch final = set_raw_task (raw_flush_task batch final).
Proof using Type. by destruct batch, final. Qed.

Lemma flush_records batch final :
  task_records (raw_flush_task batch final) ≡ₚ batch ∧
  match raw_flush_task batch final with RawFlushing todo _ => todo ≠ [] ∧ grouped record_partition todo | _ => True end.
Proof using Type.
  destruct batch as [|r batch]; [by destruct final|].
  destruct (raw_groups_spec (r :: batch) ltac:(done)) as [H1 H2]. by split.
Qed.

(** The batch with the records of [q] goes to a task [t]. *)
Lemma inv_task s given acc o f w lo t q :
  inv s given acc o f w lo → (∀ e, pw_task (rwr s) ≠ RawDied e) →
  task_records t ++ queue_records q ≡ₚ task_records (pw_task (rwr s)) ++ queue_records (pw_queue (rwr s)) →
  match t with RawFlushing todo _ => todo ≠ [] ∧ grouped record_partition todo | _ => True end →
  inv {| tree := tree s; rwr := let x := rwr s in {| x with pw_queue := q; pw_task := t |} |} given acc o f w lo.
Proof.
  intros [? ? Ha ? ? ? Hl ?] Hd Hp Ht.
  split; cbn [tree rwr pw_queue pw_task pw_waiting accepted_records written_records]; try done.
  - by rewrite Hp.
  - destruct Hl as [Hl|[e He]]; [by left|by destruct (Hd e)].
Qed.

Lemma get_keeps s : raw_enabled c RGet s = true → keeps_account RGet s.
Proof.
  intros He given acc (o & f & w & lo & H). cbn [given_to raw_enabled] in *. rewrite app_nil_r.
  destruct (pw_task (rwr s)) as [|batch| | |] eqn:Et; try done.
  destruct (pw_queue (rwr s)) as [|item q] eqn:Eq; [done|].
  assert (∀ t, task_records t ++ queue_records q ≡ₚ batch ++ queue_records (item :: q) →
    match t with RawFlushing todo _ => todo ≠ [] ∧ grouped record_partition todo | _ => True end →
    inv {| tree := tree s; rwr := let x := rwr s in {| x with pw_queue := q; pw_task := t |} |} given acc o f w lo) as Hi.
  { intros t Hp Ht. apply inv_task; [done|by rewrite Et| |done]. by rewrite Et, Eq. }
  unfold run_raw, no_record, raw_get. rewrite (run_bind (B := option RawMarketRecord) _ _ s
    {| tree := tree s; rwr := let x := rwr s in {| x with pw_queue := q; pw_task :=
      match item with
      | RAW_STOP => raw_flush_task batch true
      | RawSubmission r => if rs_batch_rows c <=? Z.of_nat (length (batch ++ [r])) then raw_flush_task (batch ++ [r]) false
                           else RawCollecting (batch ++ [r])
      end |} |} tt).
  - cbn [fst snd mret M_ret returned]. rewrite app_nil_r. exists o, f, w, lo. destruct item as [r|].
    + apply Hi; destruct (_ <=? _).
      * rewrite (proj1 (flush_records _ _)). simpl. by rewrite <- app_assoc.
      * simpl. by rewrite <- app_assoc.
      * apply flush_records.
      * done.
    + apply Hi; [|apply flush_records]. by rewrite (proj1 (flush_records _ _)).
  - unfold getRW, modifyRW, getM, modifyM, mbind, M_bind, mret, M_ret. cbn [fst snd]. rewrite Et, Eq. cbv zeta.
    destruct item as [r|]; [destruct (_ <=? _)|]; rewrite ?raw_begin_flush_eq; done.
Qed.

Lemma timeout_keeps s : keeps_account RTimeout s.
Proof.
  intros given acc (o & f & w & lo & H). cbn [given_to]. rewrite app_nil_r.
  unfold run_raw, no_record, raw_timeout, getRW, getM, mbind, M_bind, mret, M_ret. cbn [fst snd].
  destruct (pw_task (rwr s)) as [|batch| | |] eqn:Et; try (cbn [returned fst snd]; rewrite app_nil_r; by exists o, f, w, lo).
  rewrite raw_begin_flush_eq. cbn [returned fst snd set_raw_task modifyRW modifyM]. rewrite app_nil_r. exists o, f, w, lo.
  assert (pw_queue (rwr s) = pw_queue (rwr s)) as Hq by done.
  eapply inv_same; [|eapply (inv_task s given acc o f w lo (raw_flush_task batch false) (pw_queue (rwr s)) H)];
    [by repeat split|by rewrite Et| |apply flush_records].
  rewrite (proj1 (flush_records _ _)), Et. done.
Qed.

Lemma place_keeps nonce fault s :
  raw_enabled c (RPlace nonce fault) s = true → raw_fresh s (RPlace nonce fault) = true →
  keeps_account (RPlace nonce fault) s.
Proof.
  intros He Hf given acc (o & f & w & lo & H). cbn [given_to raw_enabled raw_fresh] in *. rewrite app_nil_r.
  destruct (pw_task (rwr s)) as [| |[|[part l] todo] final| |] eqn:Et; try done.
  unfold run_raw, no_record, raw_place, attempt, on_tree, zoomM, getRW, getM, mbind, M_bind, mret, M_ret.
  cbn [fst snd]. rewrite Et. cbn [fst snd].
  destruct H as [H1 H2 H3 H4 H5 H6 H7 H8]. rewrite Et in *. destruct H8 as [_ Hg], H1 as [H1 Hr].
  apply Forall_cons in Hg as [[_ Hl] Hg]. cbn [fst snd] in Hl.
  destruct (write_raw_partition nonce fault part l (tree s)) as [t [d|e]] eqn:Ew;
    apply write_raw_partition_spec in Ew as [[Hrest Hds] Ew].
  - destruct Ew as (name & Hn & -> & Hd & Ew). rewrite Hn in Hf. cbn [fst snd].
    specialize (Ew ltac:(by destruct (dict_get _ (ct_files (tree s))))).
    assert (∀ x, pw_task x = match todo with [] => if final then RawReturned else RawCollecting [] | _ => RawFlushing todo final end →
      pw_queue x = pw_queue (rwr s) → pw_waiting x = pw_waiting (rwr s) →
      accepted_records x = accepted_records (rwr s) →
      written_records x = written_records (rwr s) + Z.of_nat (length l) →
      inv {| tree := t; rwr := x |} given acc o f (w ++ l) lo) as Hi.
    { intros x X1 X2 X3 X4 X5. split; cbn [tree rwr]; rewrite ?X1, ?X2, ?X3, ?X4, ?X5; try done.
      - split; [|by eapply same_rest_trans]. unfold files_in_place. rewrite Ew. apply placed_in_place; [|done|].
        + by eapply files_in_place_sub.
        + apply List.Forall_map. eapply Forall_impl; [exact Hl|]. by intros r <-.
      - rewrite Ew, placed_rows, H2, map_app, app_assoc. done.
      - assert (task_records (match todo with [] => if final then RawReturned else RawCollecting [] | _ => RawFlushing todo final end) =
          concat (map snd todo)) as -> by by destruct todo; [destruct final|].
        rewrite H3. cbn [task_records map concat snd]. solve_Permutation.
      - rewrite length_app, H6. lia.
      - destruct H7 as [H7|[e He']]; [by left|done].
      - by destruct todo; [destruct final|]. }
    destruct todo as [|g todo]; cbn; rewrite app_nil_r; exists o, f, (w ++ l), lo; by apply Hi.
  - cbn. rewrite app_nil_r. exists o, f, w, (lo ++ l ++ concat (map snd todo)).
    split; cbn; rewrite ?Ew; try done.
    + split; [|by eapply same_rest_trans]. unfold files_in_place. rewrite Ew. by eapply files_in_place_sub.
    + rewrite H3. cbn [task_records map concat snd]. by rewrite <- !app_assoc.
    + right. eauto.
Qed.

(** ** The calls of [write] *)

Lemma getRW_Ok s s' w : getRW s = (s', Ok w) → s' = s ∧ w = rwr s.
Proof using Type. by intros [= <- <-]. Qed.

Lemma worker_failure_Ok s s' u : raw_worker_failure s = (s', Ok u) → s' = s.
Proof using Type. raw_run. by destruct (pw_task (rwr s)); intros [= <- _]. Qed.

Lemma backpressure_same r s s' u : raw_backpressure c r s = (s', u) → same_account s s'.
Proof using Type.
  raw_run. destruct (queue_full c (rwr s)); [|by intros [= <- _]]. cbn [fst snd].
  destruct (rs_on_backpressure c); by intros [= <- _].
Qed.

Lemma write_keeps r s : keeps_account (RWrite r) s.
Proof.
  intros given acc (o & f & w & lo & H). cbn [given_to].
  assert (raw_accounted start s (given ++ [r]) acc) as Hrefused.
  { exists o, (f ++ [r]), w, lo. destruct H as [H1 H2 H3 H4 H5 H6 H7 H8]. split; try done. rewrite H4. solve_Permutation. }
  assert (∀ s', same_account s s' → raw_accounted start s' (given ++ [r]) acc) as Hsame.
  { intros s' Hs. destruct Hrefused as (o' & f' & w' & lo' & H'). exists o', f', w', lo'. by apply (inv_same s). }
  assert (∀ s', same_account s s' → raw_accounted start
    {| tree := tree s'; rwr := let x := rwr s' in {| x with pw_queue := pw_queue x ++ [RawSubmission r];
         accepted_records := accepted_records x + 1 |} |} (given ++ [r]) (acc ++ [r])) as Htaken.
  { intros s' Hs. exists o, f, w, lo. apply (inv_same _ _ _ _ _ _ _ _ Hs) in H.
    destruct H as [H1 H2 H3 H4 H5 H6 H7 H8]. split; cbn; try done.
    - rewrite queue_records_app. simpl. transitivity ([r] ++ (acc ++ o ++ enqueued (pw_waiting (rwr s')))); [solve_Permutation|].
      rewrite H3. solve_Permutation.
    - rewrite H4. solve_Permutation.
    - rewrite H5, !length_app. simpl. lia. }
  assert (∀ s', same_account s s' → raw_accounted start
    {| tree := tree s'; rwr := let x := rwr s' in
         {| x with pw_waiting := pw_waiting x ++ [{| ww_record := r; ww_enqueued := false |}] |} |} (given ++ [r]) acc) as Hwait.
  { intros s' Hs. exists o, f, w, lo. apply (inv_same _ _ _ _ _ _ _ _ Hs) in H.
    destruct H as [H1 H2 H3 H4 H5 H6 H7 H8]. split; cbn; try done.
    - rewrite enqueued_app. cbn. by rewrite (app_nil_r (enqueued _)).
    - rewrite H4, map_app. cbn. solve_Permutation. }
  destruct (run_raw c (RWrite r) s) as [s' [x|e]] eqn:E; cbn [fst snd returned].
  - unfold run_raw, raw_write in E. apply bindM_Ok in E as (s0 & w0 & [-> ->]%getRW_Ok & E).
    do 3 apply bindM_Ok in E as (s0 & [] & [_ ->]%requireM_Ok & E).
    apply bindM_Ok in E as (s1 & [] & E1%worker_failure_Ok & E). subst s1.
    apply bindM_Ok in E as (s1 & [] & Hs%backpressure_same & E).
    destruct (negb (queue_full c (rwr s))); unfold raw_enqueue, raw_accepted, modifyRW, modifyM, mbind, M_bind, mret, M_ret in E;
      injection E as <- <-; cbn [returned]; rewrite ?app_nil_r; [by apply Htaken|by apply Hwait].
  - rewrite app_nil_r. apply Hsame. unfold run_raw, raw_write in E.
    apply bindM_Err in E as [E|(s0 & w0 & [-> ->]%getRW_Ok & E)]; [done|].
    do 3 (apply bindM_Err in E as [E|(s0 & [] & [_ ->]%requireM_Ok & E)];
      [unfold requireM, liftM in E; injection E as <- _; done|]).
    apply bindM_Err in E as [E|(s1 & [] & E1%worker_failure_Ok & E)].
    { revert E. raw_run. by destruct (pw_task (rwr s)); intros [= <- _]. }
    subst s1. apply bindM_Err in E as [E%backpressure_same|(s1 & [] & Hs%backpressure_same & E)]; [done|].
    by destruct (negb (queue_full c (rwr s))).
Qed.

Lemma put_keeps i s : raw_enabled c (RPut i) s = true → keeps_account (RPut i) s.
Proof.
  intros He given acc (o & f & w & lo & [H1 H2 H3 H4 H5 H6 H7 H8]). cbn [given_to raw_enabled] in *. rewrite app_nil_r.
  destruct (pw_waiting (rwr s) !! i) as [x|] eqn:Ei; [|done]. apply andb_prop in He as [Hx Hf].
  apply negb_true_iff in Hx, Hf. raw_run. rewrite Ei, Hx, Hf. cbn [orb fst snd returned]. rewrite app_nil_r.
  destruct (waiting_split _ _ _ Ei) as (a & b & Ew & -> & _ & Hi). exists o, f, w, lo.
  split; cbn; rewrite ?Hi; try done.
  - rewrite queue_records_app. rewrite Ew in H3. rewrite enqueued_app in *. cbn in *. rewrite Hx in H3.
    transitivity ([ww_record x] ++ (acc ++ o ++ enqueued a ++ enqueued b)); [solve_Permutation|]. rewrite H3. solve_Permutation.
  - rewrite H4, Ew, !map_app. done.
Qed.

(** A waiting call ends: its record has entered or not, and it returns or raises. *)
Lemma leave_keeps s i x given acc out :
  pw_waiting (rwr s) !! i = Some x → (out = true → ww_enqueued x = true) →
  raw_accounted start s given acc →
  raw_accounted start {| tree := tree s; rwr := let w := rwr s in
      {| w with pw_waiting := delete i (pw_waiting w);
                accepted_records := if ww_enqueued x then accepted_records w + 1 else accepted_records w |} |}
    given (acc ++ if out then [ww_record x] else []).
Proof.
  intros Ei Hout (o & f & w & lo & [H1 H2 H3 H4 H5 H6 H7 H8]).
  destruct (waiting_split _ _ _ Ei) as (a & b & Ew & -> & Hd & _). rewrite Ew in H3, H4.
  rewrite enqueued_app in H3. rewrite map_app in H4. cbn in H3, H4.
  exists (o ++ if out then [] else if ww_enqueued x then [ww_record x] else []),
    (f ++ if ww_enqueued x then [] else [ww_record x]), w, lo.
  split; cbn [tree rwr pw_queue pw_task pw_waiting accepted_records written_records]; rewrite ?Hd; try done.
  - rewrite enqueued_app. rewrite <- H3. destruct out; [rewrite Hout by done|destruct (ww_enqueued x)]; solve_Permutation.
  - rewrite H4, map_app. destruct out; [rewrite Hout by done|destruct (ww_enqueued x)]; solve_Permutation.
  - rewrite H5, !length_app. destruct out; [rewrite Hout by done|destruct (ww_enqueued x)]; simpl; lia.
Qed.

Lemma resume_keeps i s : raw_enabled c (RResume i) s = true → keeps_account (RResume i) s.
Proof.
  intros He given acc H. cbn [given_to raw_enabled] in *. rewrite app_nil_r.
  destruct (pw_waiting (rwr s) !! i) as [x|] eqn:Ei; [|done].
  pose proof (leave_keeps s i x given acc (negb (task_ended (rwr s)) && ww_enqueued x) Ei) as Hl.
  specialize (Hl ltac:(by intros [_ ?]%andb_prop) H). revert Hl He.
  raw_run. rewrite Ei. unfold task_ended. cbn [pw_task].
  destruct (ww_enqueued x), (pw_task (rwr s)); cbn; intros Hl; done.
Qed.

Lemma cancel_keeps i s : raw_enabled c (RCancel i) s = true → keeps_account (RCancel i) s.
Proof.
  intros He given acc H. cbn [given_to raw_enabled] in *. rewrite app_nil_r.
  destruct (pw_waiting (rwr s) !! i) as [x|] eqn:Ei; [|done].
  pose proof (leave_keeps s i x given acc false Ei ltac:(done) H) as Hl. revert Hl.
  raw_run. rewrite Ei. destruct (ww_enqueued x); cbn; intros Hl; done.
Qed.

Lemma step_keeps l s :
  raw_enabled c l s = true → raw_fresh s l = true → no_crash l s = true → keeps_account l s.
Proof.
  intros He Hf Hn. destruct l; try done;
    auto using start_keeps, write_keeps, put_keeps, resume_keeps, cancel_keeps, get_keeps, timeout_keeps, place_keeps.
  all: by apply close_keeps.
Qed.
End steps.

Lemma session_accounted c start s given acc :
  files_in_place start → raw_session c no_crash start s given acc →
  raw_accounted start s given acc.
Proof.
  intros Hs. induction 1 as [|s given acc l _ IH He Hf Hn].
  - exists [], [], [], []. split; cbn; try done; [by rewrite (app_nil_r (rows_of _))|by left].
  - by apply step_keeps.
Qed.

(** ** The close *)

(** After the close has begun with no call waiting: where the stop is, and that nothing follows it. *)
Definition stop_pending (w : AsyncPartitionedParquetWriter) : Prop :=
  (∃ l, pw_queue w = map RawSubmission l ++ [RAW_STOP]) ∧
    match pw_task w with RawCollecting _ | RawFlushing _ false | RawDied _ => True | _ => False end ∨
  pw_queue w = [] ∧ match pw_task w with RawFlushing _ true | RawReturned => True | _ => False end ∨
  ∃ e, pw_task w = RawDied e.
Definition no_stop (w : AsyncPartitionedParquetWriter) : Prop :=
  (∃ l, pw_queue w = map RawSubmission l) ∧
  match pw_task w with RawFlushing _ true | RawReturned => False | _ => True end.
Definition quiet_close (w : AsyncPartitionedParquetWriter) : Prop :=
  match pw_close w with
  | RawOpen => no_stop w
  | RawCloseCreated => no_stop w ∧ pw_waiting w = []
  | RawStopping false => (no_stop w ∧ pw_waiting w = []) ∧ pw_task w ≠ RawNotStarted
  | RawStopping true | RawJoining => stop_pending w ∧ pw_waiting w = []
  | RawCloseDone (Ok _) => pw_waiting w = [] ∧
      (pw_task w = RawNotStarted ∨ pw_task w = RawReturned ∧ pw_queue w = [])
  | RawCloseDone (Err _) => True
  end.
Definition idle_empty (w : AsyncPartitionedParquetWriter) : Prop :=
  pw_task w = RawNotStarted → pw_queue w = [] ∧ pw_waiting w = [].
Definition quiet_inv (w : AsyncPartitionedParquetWriter) : Prop := quiet_close w ∧ idle_empty w.

Section close.
Context (c : RawWriterSettings).

(** The task after the last await of a flush. *)
Lemma no_stop_task w q t l :
  q = map RawSubmission l → match t with RawFlushing _ true | RawReturned => False | _ => True end →
  no_stop {| w with pw_queue := q; pw_task := t |}.
Proof. intros -> Hm. split; [by exists l|done]. Qed.

Lemma flush_task_false batch :
  raw_flush_task batch false ≠ RawNotStarted ∧
  match raw_flush_task batch false with RawFlushing _ true | RawReturned => False | _ => True end.
Proof. by destruct batch. Qed.

(** Steps of the worker: the queue and the task change, the close and the calls stay. *)
Definition worker_step (w w' : AsyncPartitionedParquetWriter) : Prop :=
  pw_close w' = pw_close w ∧ pw_waiting w' = pw_waiting w ∧ (no_stop w → no_stop w') ∧ (stop_pending w → stop_pending w') ∧
  (pw_task w = RawNotStarted ∨ pw_task w = RawReturned → w' = w) ∧ (pw_task w' = RawNotStarted → w' = w).

Lemma worker_quiet w w' : worker_step w w' → quiet_inv w → quiet_inv w'.
Proof.
  intros (E1 & E2 & H1 & H2 & H3 & H4) [Hq Hi]. split.
  - revert Hq. unfold quiet_close. rewrite E1, E2. destruct (pw_close w) as [| |[]| |[]]; try tauto.
    { intros [[Hs Hw] Hn]. split; [by auto|]. intros Ht. by rewrite (H4 Ht) in Ht. }
    intros [Hw Ht]. rewrite H3; [done|]. destruct Ht as [|[]]; auto.
  - intros Ht. specialize (H4 Ht). subst w'. by apply Hi.
Qed.

Lemma worker_step_refl w : worker_step w w.
Proof. by split_and!. Qed.

Lemma get_worker s : raw_enabled c RGet s = true → worker_step (rwr s) (rwr (run_raw c RGet s).1).
Proof.
  intros He. cbn [raw_enabled] in He. destruct (pw_task (rwr s)) as [|batch| | |] eqn:Et; try done.
  destruct (pw_queue (rwr s)) as [|item q] eqn:Eq; [done|].
  assert (rwr (run_raw c RGet s).1 = let x := rwr s in {| x with pw_queue := q; pw_task :=
      match item with
      | RAW_STOP => raw_flush_task batch true
      | RawSubmission r => if rs_batch_rows c <=? Z.of_nat (length (batch ++ [r])) then raw_flush_task (batch ++ [r]) false
                           else RawCollecting (batch ++ [r])
      end |}) as ->.
  { unfold run_raw, no_record, raw_get, getRW, modifyRW, getM, modifyM, mbind, M_bind, mret, M_ret. cbn [fst snd].
    rewrite Et, Eq. cbv zeta. destruct item as [r|]; [destruct (_ <=? _)|]; rewrite ?raw_begin_flush_eq; done. }
  cbv zeta. split; [done|]. split; [done|]. split; [|split; [|split]].
  - intros [(l & El) _]. rewrite Eq in El. destruct l as [|r l]; [done|]. injection El as -> ->.
    eapply no_stop_task; [done|]. destruct (_ <=? _); [apply flush_task_false|done].
  - intros [[(l & El) Ht]|[[El _]|[e Ht]]]; [|congruence..]. rewrite Eq in El. destruct l as [|r l]; injection El as -> ->.
    + right. left. split; [done|]. cbn [pw_task]. by destruct batch.
    + left. split; [by exists l|]. cbn [pw_task]. destruct (_ <=? _); [|done]. by destruct batch.
  - rewrite Et. by intros [].
  - cbn [pw_task]. destruct item; [destruct (_ <=? _); [|done]|]; intros H; by destruct batch.
Qed.

Lemma timeout_worker s : worker_step (rwr s) (rwr (run_raw c RTimeout s).1).
Proof.
  unfold run_raw, no_record, raw_timeout, getRW, getM, mbind, M_bind, mret, M_ret. cbn [fst snd].
  destruct (pw_task (rwr s)) as [|batch| | |] eqn:Et; try exact (worker_step_refl _).
  rewrite raw_begin_flush_eq. cbn [fst snd set_raw_task modifyRW modifyM rwr]. split; [done|]. split; [done|].
  split; [|split; [|split]].
  - intros [(l & El) _]. rewrite El. eapply no_stop_task; [done|]. apply flush_task_false.
  - unfold stop_pending. rewrite Et. cbn [pw_queue pw_task].
    intros [[(l & El) _]|[[_ []]|[e Ht]]]; [|congruence]. left. split; [by exists l|]. by destruct batch.
  - rewrite Et. by intros [].
  - cbn [pw_task]. intros H. by destruct batch.
Qed.

Lemma place_worker nonce fault s :
  raw_enabled c (RPlace nonce fault) s = true → worker_step (rwr s) (rwr (run_raw c (RPlace nonce fault) s).1).
Proof.
  intros He. cbn [raw_enabled] in He. destruct (pw_task (rwr s)) as [| |[|[part l] todo] final| |] eqn:Et; try done.
  unfold run_raw, no_record, raw_place, attempt, on_tree, zoomM, getRW, getM, mbind, M_bind, mret, M_ret.
  cbn [fst snd]. rewrite Et. cbn [fst snd].
  assert (∀ x t, pw_close x = pw_close (rwr s) → pw_waiting x = pw_waiting (rwr s) → pw_queue x = pw_queue (rwr s) →
    pw_task x = t → t = (if final then RawReturned else RawCollecting []) ∨ (∃ g, t = RawFlushing g final) ∨ (∃ e, t = RawDied e) →
    worker_step (rwr s) x) as Hw.
  { intros x t X1 X2 X3 X4 Ht. split; [done|]. split; [done|]. rewrite Et. split; [|split; [|split; [by intros []|]]].
    - unfold no_stop. rewrite X3, X4, Et. intros [Hq Hf]. destruct final; [done|].
      split; [done|]. by destruct Ht as [->|[[? ->]|[? ->]]].
    - unfold stop_pending. rewrite X3, X4, Et. intros [[Hq Hf]|[[Hq Hf]|[e He']]]; [| |done].
      + destruct final; [done|]. left. split; [done|]. by destruct Ht as [->|[[? ->]|[? ->]]].
      + destruct final; [|done]. destruct Ht as [->|[[? ->]|[? ->]]]; [by right; left..|]. right. right. eauto.
    - rewrite X4. destruct Ht as [->|[[? ->]|[? ->]]]; [by destruct final|done..]. }
  destruct (write_raw_partition nonce fault part l (tree s)) as [t [d|e]]; cbn [fst snd];
    [destruct todo as [|g todo]|]; eapply Hw; try reflexivity; eauto.
Qed.


(** The calls: they wait only while the writer is open, or after a close that raised. *)
Lemma quiet_call w w' :
  pw_close w' = pw_close w → pw_task w' = pw_task w →
  pw_task w ≠ RawNotStarted → pw_waiting w ≠ [] ∨ pw_close w = RawOpen →
  (∃ l, pw_queue w' = pw_queue w ++ map RawSubmission l) → quiet_inv w → quiet_inv w'.
Proof.
  intros E1 E2 Hn Hw (l & El) [Hq _]. split; [|intros Ht; congruence]. revert Hq.
  unfold quiet_close, no_stop. rewrite E1, E2, El.
  destruct (pw_close w) as [| |[]| |[]]; destruct Hw as [Hw|Hw]; try done; try (by intros [_ ?]); try (by intros [? _]); try (by intros [[_ ?] _]).
  all: intros [(m & Em) Ht]; split; [|done]; exists (m ++ l); by rewrite Em, map_app.
Qed.

Lemma waiting_quiet l i s x :
  l = RPut i ∨ l = RResume i ∨ l = RCancel i → pw_waiting (rwr s) !! i = Some x → raw_enabled c l s = true →
  quiet_inv (rwr s) → quiet_inv (rwr (run_raw c l s).1).
Proof.
  intros Hl Ei He Hq. assert (pw_waiting (rwr s) ≠ []) as Hw by (intros E; by rewrite E in Ei).
  assert (pw_task (rwr s) ≠ RawNotStarted) as Hn by (intros E; by destruct (proj2 Hq E)).
  assert (∀ w', pw_close w' = pw_close (rwr s) → pw_task w' = pw_task (rwr s) → pw_queue w' = pw_queue (rwr s) ∨
    (∃ r, pw_queue w' = pw_queue (rwr s) ++ [RawSubmission r]) → quiet_inv w') as Hc.
  { intros w' W1 W2 W3. apply (quiet_call (rwr s)); auto. destruct W3 as [->|[r ->]]; [exists []; by rewrite app_nil_r|by exists [r]]. }
  destruct Hl as [-> |[-> | ->]]; cbn [raw_enabled] in He; rewrite Ei in He.
  - apply andb_prop in He as [Hx%negb_true_iff Hf%negb_true_iff]. raw_run. rewrite Ei, Hx, Hf. apply Hc; cbn; eauto.
  - raw_run. rewrite Ei. destruct (ww_enqueued x); unfold task_ended; cbn; destruct (pw_task (rwr s)) eqn:Et; cbn; apply Hc; cbn; auto.
  - raw_run. rewrite Ei. destruct (ww_enqueued x); cbn; apply Hc; cbn; auto.
Qed.

Lemma write_quiet r s : quiet_inv (rwr s) → quiet_inv (rwr (run_raw c (RWrite r) s).1).
Proof.
  intros Hq. raw_run. destruct (pw_closed (rwr s)); cbn [negb require fst snd]; [done|].
  unfold raw_open. destruct (pw_close (rwr s)) eqn:Ec; cbn [require fst snd]; try done.
  assert (∀ w', pw_close w' = RawOpen → pw_task w' = pw_task (rwr s) → pw_task (rwr s) ≠ RawNotStarted →
    pw_queue w' = pw_queue (rwr s) ∨ pw_queue w' = pw_queue (rwr s) ++ [RawSubmission r] → quiet_inv w') as Hc.
  { intros w' W1 W2 Hn W3. apply (quiet_call (rwr s)); auto; [congruence|].
    destruct W3 as [->| ->]; [exists []; by rewrite app_nil_r|by exists [r]]. }
  destruct (pw_task (rwr s)) eqn:Et; cbn [negb require fst snd]; try done.
  all: destruct (queue_full c (rwr s)) eqn:Ef; cbn [fst snd].
  1, 3, 5: destruct (rs_on_backpressure c) as [callback|]; [destruct (callback r) as [[]|]|]; cbn [fst snd].
  all: try (destruct (negb (queue_full c _)); cbn [fst snd rwr]); apply Hc; cbn; auto.
Qed.

Lemma start_quiet s : quiet_inv (rwr s) → quiet_inv (rwr (run_raw c RStart s).1).
Proof.
  intros Hq. raw_run. destruct (pw_closed (rwr s)); [done|]. unfold raw_open. cbn [negb require fst snd].
  destruct (pw_close (rwr s)) eqn:Ec; try done. cbn [require fst snd].
  destruct (pw_task (rwr s)) eqn:Et; try done. revert Hq. unfold quiet_inv, quiet_close, idle_empty, no_stop. cbn. rewrite Ec.
  intros [[Hm _] _]. by split.
Qed.

(** The close without the rest of the writer. *)
Lemma close_moves w w' :
  pw_queue w' = pw_queue w ∨ pw_queue w' = pw_queue w ++ [RAW_STOP] →
  pw_task w' = pw_task w → pw_waiting w' = pw_waiting w → pw_task w ≠ RawNotStarted →
  quiet_close w' → quiet_inv w'.
Proof. intros E1 E2 E3 Hn Hq. split; [done|]. intros Ht. congruence. Qed.

Lemma stop_queued w st :
  no_stop w → pw_task w ≠ RawNotStarted →
  stop_pending {| w with pw_queue := pw_queue w ++ [RAW_STOP]; pw_close := st |}.
Proof.
  intros [[m Em] Ht] Hn. unfold stop_pending. cbn [pw_queue pw_task].
  destruct (pw_task w) as [| |todo []| |e]; try done; [left|left|right; right; eauto]; (split; [exists m; by rewrite Em|done]).
Qed.

Lemma stop_pending_task w :
  stop_pending w → pw_task w ≠ RawNotStarted ∧ (pw_task w = RawReturned → pw_queue w = []).
Proof.
  intros [[_ Ht]|[[Hq Ht]|[e ->]]]; [| |done]; (split; [intros E; by rewrite E in Ht|]); [|done].
  intros E. by rewrite E in Ht.
Qed.

Lemma close_quiet l s :
  match l with RClose | RCloseRun | RClosePut | RCloseResume | RCloseJoin => True | _ => False end →
  raw_enabled c l s = true → quiet l s = true → quiet_inv (rwr s) → quiet_inv (rwr (run_raw c l s).1).
Proof.
  intros Hl He Hq [Hc Hi]. unfold quiet_close in Hc.
  destruct l; try done; cbn [raw_enabled quiet] in *; raw_run.
  - split; [|exact Hi]. unfold quiet_close. cbn.
    destruct (pw_close (rwr s)); try done. by destruct (pw_waiting (rwr s)).
  - destruct (pw_close (rwr s)); try done. destruct Hc as [Hc Hw].
    destruct (pw_task (rwr s)) eqn:Et; cbn.
    1: by split; [split; [|left]|].
    all: destruct (queue_full c (rwr s)); cbn.
    all: try (eapply close_moves; cbn; [..|]; first [by left|by right|done|by rewrite Et|idtac]).
    all: first [split; [split; [exact Hc|done]|cbn; congruence]|split; [apply (stop_queued (rwr s)); [done|by rewrite Et]|done]].
  - destruct (pw_close (rwr s)) as [| |[]| |]; try done. apply negb_true_iff in He. rewrite He. destruct Hc as [[Hc Hw] Hn].
    eapply close_moves; cbn; [by right|done..|]. split; [|done]. by apply (stop_queued (rwr s)).
  - destruct (pw_close (rwr s)) as [| |[]| |] eqn:Ec; try done; cbn [orb] in He.
    + destruct Hc as [Hc Hw]. destruct (stop_pending_task _ Hc) as [Hn Hr].
      destruct (pw_task (rwr s)) eqn:Et; cbn; (split; [|unfold idle_empty; cbn; congruence]); unfold quiet_close; cbn; auto.
    + destruct Hc as [[[_ Hc] Hw] Hn]. unfold task_ended in He. destruct (pw_task (rwr s)) eqn:Et; done.
  - destruct (pw_close (rwr s)) eqn:Ec; try done. unfold task_ended in He. destruct Hc as [Hc Hw].
    destruct (stop_pending_task _ Hc) as [Hn Hr].
    destruct (pw_task (rwr s)) eqn:Et; try done; (split; [|unfold idle_empty; cbn; congruence]); unfold quiet_close; cbn; auto.
Qed.

Lemma quiet_step l s :
  raw_enabled c l s = true → quiet l s = true → quiet_inv (rwr s) → quiet_inv (rwr (run_raw c l s).1).
Proof.
  intros He Hq Hi. destruct l as [|r|i|i|i| | | | | | | | |]; try (by apply close_quiet); [by apply start_quiet|by apply write_quiet|..].
  1-3: pose proof He as Hx; cbn [raw_enabled] in Hx; destruct (pw_waiting (rwr s) !! i) as [x|] eqn:Ei; [|done];
    eapply waiting_quiet; eauto.
  - eapply worker_quiet; [by apply get_worker|done].
  - eapply worker_quiet; [apply timeout_worker|done].
  - eapply worker_quiet; [by apply place_worker|done].
Qed.
End close.

Lemma session_quiet c start s given acc : raw_session c quiet start s given acc → quiet_inv (rwr s).
Proof.
  induction 1 as [|s given acc l _ IH He _ Hq]; [|by apply quiet_step].
  split; [|done]. split; [by exists []|done].
Qed.

(** What a writer with nothing left in memory has put on disk. *)
Lemma session_delivered c start s given acc :
  files_in_place start → raw_session c quiet start s given acc → pw_close (rwr s) = RawCloseDone (Ok tt) →
  ∃ orphans refused, given ≡ₚ acc ++ orphans ++ refused ∧ files_in_place (tree s) ∧ same_rest start (tree s) ∧
    rows_of (ct_files (tree s)) ≡ₚ rows_of (ct_files start) ++ map raw_row (acc ++ orphans) ∧
    accepted_records (rwr s) = Z.of_nat (length (acc ++ orphans)) ∧
    written_records (rwr s) = accepted_records (rwr s) ∧ pw_queue (rwr s) = [] ∧ pw_waiting (rwr s) = [].
Proof.
  intros Hs Hses Hc. destruct (session_quiet _ _ _ _ _ Hses) as [Hq Hidle]. unfold quiet_close in Hq. rewrite Hc in Hq.
  apply (session_weaken _ _ no_crash) in Hses; [|by intros []].
  destruct (session_accounted _ _ _ _ _ Hs Hses) as (o & f & w & lo & [H1 H2 H3 H4 H5 H6 H7 H8]).
  destruct Hq as [Hw Ht]. assert (pw_queue (rwr s) = []) as Hqe by (destruct Ht as [Ht|[_ ?]]; [by apply Hidle|done]).
  assert (task_records (pw_task (rwr s)) = []) as Htr by by destruct Ht as [-> |[-> _]].
  rewrite Hw, Hqe, Htr in *. cbn in H3, H4. rewrite (app_nil_r o) in H3.
  assert (lo = []) as -> by (destruct H7 as [?|[e He]]; [done|rewrite He in Ht; by destruct Ht as [|[]]]).
  change ([] ++ []) with (@nil RawMarketRecord) in H3. rewrite (app_nil_r w) in H3.
  destruct H1 as [H1 H1']. exists o, f. split; [by rewrite H4|]. split; [done|]. split; [done|].
  split; [by rewrite H2, H3|]. split; [done|]. split; [by rewrite H6, H5, H3|done].
Qed.

(** C20. A session without a crash in which no call of [write] waits when the writer is closed,
    and whose close returned: every record whose call returned is on disk exactly once,
    with those of calls cancelled after their record had entered the queue; nothing else
    was added, nothing is left in memory and the counters agree. *)
Theorem raw_close_delivers c start s given acc :
  files_in_place start → raw_session c quiet start s given acc → pw_close (rwr s) = RawCloseDone (Ok tt) →
  ∃ cancelled refused, given ≡ₚ acc ++ cancelled ++ refused ∧ files_in_place (tree s) ∧ same_rest start (tree s) ∧
    rows_of (ct_files (tree s)) ≡ₚ rows_of (ct_files start) ++ map raw_row (acc ++ cancelled) ∧
    accepted_records (rwr s) = Z.of_nat (length (acc ++ cancelled)) ∧
    written_records (rwr s) = accepted_records (rwr s) ∧ pw_queue (rwr s) = [].
Proof.
  intros Hs Hses Hc. destruct (session_delivered c start s given acc Hs Hses Hc) as (o & f & H1 & H2 & H2' & H3 & H4 & H5 & H6 & _).
  by exists o, f.
Qed.

(** ** A close that overtakes a waiting call

    The room the worker makes is given to the stop first; the waiting record enters behind
    it, before the worker has reached the stop. *)

Definition store_record (id : UUID) (t : Z) : RawMarketRecord :=
  {| record_id := id; rr_exchange := OKX; rr_symbol := "BTC-USDT-PERP"; channel := "trades"; message_kind := "market_data";
     transport := Websocket; rr_exchange_timestamp := None; rr_local_receive_timestamp := t;
     rr_normalization_timestamp := None; rr_sequence_id := None; connection_generation := 1; raw_payload := "{}" |}.
Definition store_records : list RawMarketRecord :=
  map (λ x : UUID * Z, store_record x.1 x.2)
    [("00000000000040008000000000000001", 1); ("00000000000040008000000000000002", 2);
     ("00000000000040008000000000000003", 3); ("00000000000040008000000000000004", 4);
     ("00000000000040008000000000000005", 5)]%string.

Definition two_settings : RawWriterSettings :=
  {| rs_batch_rows := 2; rs_queue_capacity := 2; rs_on_backpressure := None |}.

(** A run of labels, where each step can happen; the calls given to [write] and those that returned. *)
Definition session_state : Type := RawStore * list RawMarketRecord * list RawMarketRecord.
Definition session_step (c : RawWriterSettings) (allowed : raw_label → RawStore → bool) (p : option session_state) (l : raw_label)
    : option session_state :=
  match p with
  | Some (s, given, acc) =>
    if raw_enabled c l s && raw_fresh s l && allowed l s
    then Some ((run_raw c l s).1, given ++ given_to l, acc ++ returned (run_raw c l s).2) else None
  | None => None
  end.
Definition session_run c allowed (start : collection_tree) (ls : list raw_label) : option session_state :=
  foldl (session_step c allowed) (Some ({| tree := start; rwr := raw_writer_init |}, [], [])) ls.

Lemma session_run_session c allowed start ls s given acc :
  session_run c allowed start ls = Some (s, given, acc) → raw_session c allowed start s given acc.
Proof.
  unfold session_run. revert s given acc. induction ls as [|l ls IH] using rev_ind; intros s given acc.
  - intros [= <- <- <-]. constructor.
  - rewrite foldl_snoc. unfold session_step at 1. destruct (foldl _ _ ls) as [[[s0 g0] a0]|]; [|done].
    destruct (raw_enabled c l s0) eqn:E1; [|done]. destruct (raw_fresh s0 l) eqn:E2; [|done].
    destruct (allowed l s0) eqn:E3; [|done]. cbn [andb]. intros [= <- <- <-]. constructor; auto.
Qed.

Definition overtaken : list raw_label :=
  [RStart; RWrite (store_record "00000000000040008000000000000001" 1); RWrite (store_record "00000000000040008000000000000002" 2);
   RGet; RGet; RWrite (store_record "00000000000040008000000000000003" 3); RWrite (store_record "00000000000040008000000000000004" 4);
   RWrite (store_record "00000000000040008000000000000005" 5); RClose; RPlace "0000000000000001" None; RGet; RGet;
   RCloseRun; RPut 0; RResume 0; RPlace "0000000000000002" None; RGet; RCloseJoin].

(** [close] returned and so did every call of [write], but the record of the call that
    waited when the writer was closed is not on disk: it is in the queue behind the stop. *)
Lemma overtaken_write_lost :
  ∃ s acc r, raw_session two_settings no_crash no_tree s acc acc ∧ pw_close (rwr s) = RawCloseDone (Ok tt) ∧
    r ∈ acc ∧ ¬ (raw_row r ∈ rows_of (ct_files (tree s))) ∧ pw_queue (rwr s) = [RawSubmission r] ∧
    accepted_records (rwr s) = written_records (rwr s) + 1.
Proof.
  destruct (session_run two_settings no_crash no_tree overtaken) as [[[s given] acc]|] eqn:E; [|by vm_compute in E].
  exists s, acc, (store_record "00000000000040008000000000000005" 5).
  pose proof (session_run_session _ _ _ _ _ _ _ E) as H. vm_compute in E. injection E as <- <- <-.
  split; [exact H|]. split; [done|]. split; [do 4 right; left|].
  split; [apply (bool_decide_unpack _); by vm_compute|]. by vm_compute.
Qed.
