(* ===== verification/Replay.v ===== *)
(** * Replay

    [replay/normalizer.py] and [replay/runner.py]: raw records are normalized again, or
    read back from the journal, and given in order to the event bus or to the receive-time
    driver, under the virtual clock. *)

From S2P Require Import Prelude Effects PyDecimal PyFloat PyTime Models Symbols FeatureModels Fingerprint FeatureRows FeatureTree Clock RawRecords NormBinance NormOkx.
From Stdlib Require Import Ascii.
Open Scope Z_scope.

(** ** The normalizer *)

(** [json.loads] and the payload models of the venues. *)
Class ReplayCodec := {
  replay_journal :: JournalCodec;
  json_loads : string → res json;
  binance_validate : Binance.model_name → list (string * json) → res Binance.payload;
  okx_validate : Okx.model_name → list (string * json) → res Okx.payload }.

Section normalizer.
Context {Codec : ReplayCodec}.

(** [self._okx_specifications]; the venue normalizers hold nothing else. *)
Record RawRecordNormalizer := { okx_specifications : list (string * ContractSpecification) }.
Definition normalizer_init : RawRecordNormalizer := {| okx_specifications := [] |}.

Definition journal_metadata_matches (r : RawMarketRecord) (e : event) : bool :=
  let m := event_meta e in
  bool_decide (exchange m = rr_exchange r) && bool_decide (symbol m = rr_symbol r) &&
  bool_decide (Some (exchange_timestamp m) = rr_exchange_timestamp r) &&
  (local_receive_timestamp m =? rr_local_receive_timestamp r) &&
  bool_decide (Some (normalization_timestamp m) = rr_normalization_timestamp r) &&
  bool_decide (seq_text <$> sequence_id m = seq_text <$> rr_sequence_id r) &&
  (event_generation e =? connection_generation r).

(** The branch of the journal channel. *)
Definition journal_events (r : RawMarketRecord) : res (list event) :=
  if bool_decide (message_kind r = FEATURE_TIMELINE_END_MESSAGE_KIND) then
    _ ← feature_timeline_end_timestamp r; Ok []
  else
    _ ← require (bool_decide (message_kind r = "normalized_event"%string) && bool_decide (transport r = Internal))
          (ValueError "invalid normalized-event journal routing");
    e ← validate_event_json (raw_payload r);
    _ ← require (journal_metadata_matches r e) (ValueError "normalized-event journal metadata mismatch");
    Ok [e].

Definition NON_MARKET_CHANNELS : list string := ["_unparsed"; "server_time"]%string.

(** The liquidations of instruments with a specification; nothing left is [None]. *)
Definition configured_item (specifications : list (string * ContractSpecification)) (item : json) : bool :=
  match item with
  | JObj o => match jget "instId" o with
              | Some (JStr s) => negb (is_none (dict_get (str_upper s) specifications))
              | _ => false
              end
  | _ => false
  end.
Definition configured_liquidations (specifications : list (string * ContractSpecification))
    (payload : json) : option json :=
  match payload with
  | JObj o =>
    match jget "data" o with
    | Some (JList data) =>
      match filter (λ i, configured_item specifications i = true) data with
      | [] => None
      | configured => Some (JObj (dict_set "data"%string (JList configured) o))
      end
    | _ => Some payload
    end
  | _ => Some payload
  end.

Definition record_context (r : RawMarketRecord) : res NormalizationContext :=
  mk_context (utc (rr_local_receive_timestamp r))
    (utc (default (rr_local_receive_timestamp r) (rr_normalization_timestamp r)))
    (Some (raw_payload_ref r))
    (if bool_decide (rr_symbol r = "*"%string) then None else Some (rr_symbol r)).

Definition normalize_record (r : RawMarketRecord) : M RawRecordNormalizer (list event) :=
  if bool_decide (channel r = NORMALIZED_EVENT_JOURNAL_CHANNEL) then liftM (journal_events r)
  else if negb (bool_decide (message_kind r = "market_data"%string)) || bool_decide (transport r = Internal) ||
          bool_decide (channel r ∈ NON_MARKET_CHANNELS) then mret []
  else
    payload ← liftM (json_loads (raw_payload r));
    ctx ← liftM (record_context r);
    match rr_exchange r with
    | BINANCE => liftM (Binance.normalize binance_validate ctx payload)
    | OKX =>
      if bool_decide (channel r = "instrument_metadata"%string) then
        specs ← liftM (Okx.contract_specifications_from_response okx_validate payload);
        _ ← modifyM (λ n, {| okx_specifications :=
              foldl (λ d x, dict_set x.1 x.2 d) (okx_specifications n) specs |});
        mret []
      else
        n ← getM;
        match (if bool_decide (channel r = "liquidation-orders"%string)
               then configured_liquidations (okx_specifications n) payload else Some payload) with
        | None => mret []
        | Some payload => liftM (Okx.normalize (okx_specifications n) okx_validate ctx payload)
        end
    | _ => mret []
    end.

(** ** The runner *)

(** The bus and the sinks of a run. *)
Record ReplaySinks (E : Type) := {
  rs_start : M E unit;
  rs_close : M E unit;
  rs_drain : M E unit;
  rs_publish : event → M E unit;
  rs_tick : option (DecisionTick → M E unit);
  rs_event : option (event → M E unit);
  rs_finish : option (option Z → M E unit) }.
#[global] Arguments rs_start {E}. #[global] Arguments rs_close {E}. #[global] Arguments rs_drain {E}.
#[global] Arguments rs_publish {E}. #[global] Arguments rs_tick {E}. #[global] Arguments rs_event {E}.
#[global] Arguments rs_finish {E}.

Record ReplaySummary := {
  raw_records : Z;
  normalized_events : Z;
  skipped_records : Z;
  event_counts : list (string * Z);
  connection_generations : list (string * Z);
  started_at : option Z;
  finished_at : option Z;
  feature_timeline_end_at : option Z;
  feature_timeline_end_records : Z }.

(** What the runner keeps from one run to the next, and the variables of a run. *)
Record ReplayRunner := {
  run_normalizer : RawRecordNormalizer;
  run_scheduler : option DecisionScheduler;
  raw_count : Z;
  normalized_count : Z;
  skipped_count : Z;
  run_event_counts : list (string * Z);
  generations : list (string * Z);
  run_started_at : option Z;
  run_finished_at : option Z;
  normalized_started_at : option Z;
  normalized_finished_at : option Z;
  end_at : option Z;
  end_records : Z;
  run_clock : option Z;
  previous_timestamp : option Z }.

Definition runner_begin (n : RawRecordNormalizer) (s : option DecisionScheduler) : ReplayRunner :=
  {| run_normalizer := n; run_scheduler := s; raw_count := 0; normalized_count := 0; skipped_count := 0;
     run_event_counts := []; generations := []; run_started_at := None; run_finished_at := None;
     normalized_started_at := None; normalized_finished_at := None; end_at := None; end_records := 0;
     run_clock := None; previous_timestamp := None |}.

(** [__init__]. *)
Definition mk_runner {E} (k : ReplaySinks E) (scheduler : option DecisionScheduler) (speed : float) : res ReplayRunner :=
  _ ← require (negb (fltb speed f0)) (ValueError "replay speed cannot be negative");
  _ ← require (is_none (rs_finish k) || negb (is_none (rs_event k)))
        (ValueError "replay finish_sink requires an event_sink");
  _ ← require (is_none (rs_event k) || is_none scheduler && is_none (rs_tick k))
        (ValueError "external replay event timeline cannot use runner tick scheduling");
  Ok (runner_begin normalizer_init scheduler).

Section runner.
Context {E : Type} (k : ReplaySinks E) (order : ReplayOrder).

Abbreviation RM := (M (ReplayRunner * E)).
Definition getR : RM ReplayRunner := p ← getM; mret p.1.
Definition modifyR (f : ReplayRunner → ReplayRunner) : RM unit := modifyM (λ p, (f p.1, p.2)).
Definition outside {A} (m : M E A) : RM A := zoomM snd (λ e p, (p.1, e)) m.

Definition emit_ticks (target : Z) : RM unit :=
  d ← getR;
  match run_scheduler d with
  | None => mret tt
  | Some s =>
    due ← liftM (has_due_tick s (utc target));
    if negb due then mret tt
    else
      _ ← outside (rs_drain k);
      '(s, ticks) ← liftM (scheduler_advance_to s (utc target));
      _ ← modifyR (λ d, {| d with run_scheduler := Some s |});
      forM (λ t, match rs_tick k with Some sink => outside (sink t) | None => mret tt end) ticks
  end.

Definition generation_key (r : RawMarketRecord) : string :=
  exchange_value (rr_exchange r) +:+ ":" +:+ channel r +:+ ":" +:+ rr_symbol r.
Definition count_raw (r : RawMarketRecord) : RM unit :=
  modifyR (λ d, {| d with raw_count := raw_count d + 1;
    generations := dict_set (generation_key r) (connection_generation r) (generations d) |}).
Definition count_skipped : RM unit := modifyR (λ d, {| d with skipped_count := skipped_count d + 1 |}).

Definition earliest (a : option Z) (b : Z) : option Z := Some (match a with None => b | Some a => Z.min a b end).
Definition newest (a : option Z) (b : Z) : option Z := Some (match a with None => b | Some a => Z.max a b end).

(** The body of the loop over the events of a record. *)
Definition replay_event (e : event) : RM unit :=
  let normalized_at := local_receive_timestamp (event_meta e) in
  _ ← modifyR (λ d, {| d with
        normalized_started_at := earliest (normalized_started_at d) normalized_at;
        normalized_finished_at := newest (normalized_finished_at d) normalized_at |});
  _ ← outside (match rs_event k with None => rs_publish k e | Some sink => sink e end);
  let name := event_type_value (event_type e) in
  modifyR (λ d, {| d with normalized_count := normalized_count d + 1;
    run_event_counts := dict_set name (default 0 (dict_get name (run_event_counts d)) + 1) (run_event_counts d) |}).

Definition normalize_in_run (r : RawMarketRecord) : RM (list event) :=
  zoomM (λ p, run_normalizer p.1) (λ n p, let d := p.1 in ({| d with run_normalizer := n |}, p.2)) (normalize_record r).

(** The clock before a market record, with the ticks due before it. *)
Definition advance_clock (timestamp : Z) : RM unit :=
  d ← getR;
  current ← match run_clock d with
            | None =>
              clock ← liftM (ReplayClock.init (utc timestamp));
              _ ← modifyR (λ d, {| d with run_started_at := Some timestamp |});
              mret clock
            | Some clock =>
              _ ← match previous_timestamp d with
                  | Some p => if p <? timestamp then emit_ticks (timestamp - 1) else mret tt
                  | None => mret tt
                  end;
              mret clock
            end;
  clock ← liftM (ReplayClock.advance_to current (utc timestamp));
  modifyR (λ d, {| d with run_clock := Some clock; previous_timestamp := Some timestamp;
                          run_finished_at := Some timestamp |}).

(** The body of the loop over the records. *)
Definition replay_record (r : RawMarketRecord) : RM unit :=
  d ← getR;
  _ ← requireM (is_none (end_at d) || bool_decide (message_kind r = FEATURE_TIMELINE_END_MESSAGE_KIND))
        (ValueError "raw record appears after the feature-timeline end marker");
  if bool_decide (channel r = "instrument_metadata"%string) then
    _ ← count_raw r; _ ← normalize_in_run r; count_skipped
  else
    marker ← liftM (feature_timeline_end_timestamp r);
    match marker with
    | Some t =>
      _ ← count_raw r;
      _ ← modifyR (λ d, {| d with end_records := end_records d + 1 |});
      d ← getR;
      _ ← requireM (end_records d <=? 1)
            (ValueError "replay input contains multiple feature-timeline end markers");
      _ ← modifyR (λ d, {| d with end_at := Some t |});
      count_skipped
    | None =>
      _ ← advance_clock (replay_timestamp r order);
      _ ← count_raw r;
      events ← normalize_in_run r;
      _ ← match events with [] => count_skipped | _ => mret tt end;
      forM replay_event events
    end.

(** What follows the last record. *)
Definition replay_finish : RM unit :=
  d ← getR;
  _ ← match previous_timestamp d with Some t => emit_ticks t | None => mret tt end;
  d ← getR;
  _ ← requireM (match end_at d, normalized_finished_at d with Some e, Some n => n <=? e | _, _ => true end)
        (ValueError "normalized journal event exceeds its feature-timeline end marker");
  match rs_finish k with Some sink => outside (sink (end_at d)) | None => mret tt end.

(** The records an iterator gives, and how it ends. *)
Definition replay_body (records : stream RawMarketRecord) : RM unit :=
  _ ← outside (rs_start k);
  _ ← forM replay_record (items records);
  _ ← liftM (match failure records with None => Ok tt | Some e => Err e end);
  replay_finish.

Definition summary (d : ReplayRunner) : ReplaySummary :=
  {| raw_records := raw_count d; normalized_events := normalized_count d; skipped_records := skipped_count d;
     event_counts := run_event_counts d; connection_generations := generations d;
     started_at := match rs_event k with Some _ => normalized_started_at d | None => run_started_at d end;
     finished_at := match rs_event k with
                    | Some _ => match end_at d with Some t => Some t | None => normalized_finished_at d end
                    | None => run_finished_at d
                    end;
     feature_timeline_end_at := end_at d; feature_timeline_end_records := end_records d |}.

(** A result, the exception that ended the run, or the group of it and of those of the
    cleanup; closing the iterator does not raise, and the bus raises exceptions of its own. *)
Inductive replay_outcome := Summary (s : ReplaySummary) | Raised (e : exn) | RaisedGroup (l : list exn).

(** [run]. *)
Definition replay_run (records : stream RawMarketRecord) : ReplayRunner * E → (ReplayRunner * E) * replay_outcome := λ p,
  let '(p, r) := replay_body records (runner_begin (run_normalizer p.1) (run_scheduler p.1), p.2) in
  let '(p, closed) := outside (rs_close k) p in
  (p, match r, closed with
      | Ok _, Ok _ => Summary (summary p.1)
      | Err e, Ok _ | Ok _, Err e => Raised e
      | Err e, Err e' => RaisedGroup [e; e']
      end).
End runner.
End normalizer.
