(* ===== verification/Journal.v ===== *)
(** * Journal records

    An event the models accept survives the journal: its record is valid, is read back
    from its row, and is normalized to the event alone.  The same for the end marker. *)

From S2P Require Import Prelude Effects PyDecimal PyFloat PyTime Models FeatureModels FeatureRows FeatureTree RawRecords NormBinance NormOkx Replay.
Open Scope Z_scope.

(** ** Validation of an event

    The constructors applied to the fields of an instance: it is unchanged exactly when
    its validators accept it. *)

Definition validate_meta (t : EventType) (m : metadata) : res metadata :=
  mk_metadata t (exchange m) (symbol m) (utc (exchange_timestamp m)) (utc (local_receive_timestamp m))
    (utc (normalization_timestamp m)) (sequence_id m) (raw_payload_reference m).
Definition validate_levels : list OrderBookLevel → res (list OrderBookLevel) :=
  mapR (λ l, mk_level (level_price l) (level_quantity l)).

Definition validate_event (e : event) : res event :=
  m ← validate_meta (event_type e) (event_meta e);
  match e with
  | ETrade t => ETrade <$> mk_trade m (trade_id t) (trade_price t) (trade_quantity t)
                  (trade_contract_quantity t) (aggressor_side t)
  | EBookSnapshot s =>
    bids ← validate_levels (snapshot_bids s); asks ← validate_levels (snapshot_asks s);
    EBookSnapshot <$> mk_snapshot m bids asks (snapshot_depth s) (snapshot_checksum s) (snapshot_generation s)
  | EBookUpdate u =>
    bids ← validate_levels (update_bids u); asks ← validate_levels (update_asks u);
    EBookUpdate <$> mk_update m bids asks (previous_sequence_id u) (update_checksum u) (update_generation u)
  | EBestBidAsk q => EBestBidAsk <$> mk_best_bid_ask m (bid_price q) (bid_quantity q) (ask_price q) (ask_quantity q)
  | EOpenInterest o => EOpenInterest <$> mk_open_interest m (open_interest_contracts o) (open_interest_base o) (open_interest_quote o)
  | EFundingRate f => EFundingRate <$> mk_funding_rate m (funding_rate f) (utc <$> next_funding_timestamp f)
  | EMarkPrice p => EMarkPrice <$> mk_mark_price m (mark_price p)
  | EIndexPrice p => EIndexPrice <$> mk_index_price m (index_price p)
  | ELiquidation l => ELiquidation <$> mk_liquidation m (liquidation_id l) (position_side l) (liquidation_price l)
                        (liquidation_quantity l) (liquidation_contract_quantity l)
  | EHealth h => EHealth <$> validate_health {| h with health_meta := m |}
  end.
Definition model_event (e : event) : Prop := validate_event e = Ok e.

(** What the journal relies on: a valid event, and a marker, is the validation of its own JSON. *)
Class JournalLaws `{!JournalCodec} : Prop := {
  event_round_trip e : model_event e → validate_event_json (event_json e) = Ok e;
  marker_round_trip t : validate_marker_json (marker_json t) = Ok t }.

Lemma validate_meta_spec t m :
  validate_meta t m = Ok m → validate_canonical_symbol (symbol m) true = Ok (symbol m).
Proof.
  unfold validate_meta, mk_metadata. rewrite !as_utc_utc. intros (sym & Hs & H)%bind_Ok. inv_res.
  match goal with H : _ = m |- _ => apply (f_equal symbol) in H; cbn [symbol] in H; rewrite <- H at 2 end.
  done.
Qed.

(** The constructor's result is the model it was given the fields of. *)
Ltac same_model meta :=
  inv_res; try match goal with H : (0 <=? ?g) = true |- _ => apply Z.leb_le in H end;
  match goal with H : _ = ?y |- event_meta (_ ?y) = _ ∧ _ =>
    apply (f_equal meta) in H; cbn [event_meta event_generation meta] in *; split; [congruence|lia] end.

Lemma model_event_meta e :
  model_event e →
  validate_canonical_symbol (symbol (event_meta e)) true = Ok (symbol (event_meta e)) ∧ 0 ≤ event_generation e.
Proof.
  unfold model_event, validate_event. intros (m & Hm & H)%bind_Ok.
  assert (event_meta e = m ∧ 0 ≤ event_generation e) as [<- Hg]; [|split; [by eapply validate_meta_spec|done]].
  clear Hm. destruct e.
  all: inv_res; match goal with H : _ <$> _ = Ok _ |- _ => apply fmap_Ok in H as (y & Hy & E) end.
  all: injection E as E; subst.
  - unfold mk_trade in Hy. same_model trade_meta.
  - unfold mk_snapshot in Hy. destruct x as [|]; [done|]. destruct x0 as [|]; [done|]. same_model Models.snapshot_meta.
  - unfold mk_update in Hy. same_model update_meta.
  - unfold mk_best_bid_ask in Hy. same_model bba_meta.
  - unfold mk_open_interest in Hy. same_model oi_meta.
  - unfold mk_funding_rate in Hy. same_model funding_meta.
  - unfold mk_mark_price in Hy. same_model mark_meta.
  - unfold mk_index_price in Hy. same_model index_meta.
  - unfold mk_liquidation in Hy. same_model liquidation_meta.
  - unfold validate_health in Hy. same_model health_meta.
Qed.

(** ** Journal records *)

Section journal.
Context {Codec : ReplayCodec} {Laws : JournalLaws}.

Definition event_entry (id : UUID) (e : event) : RawMarketRecord :=
  let m := event_meta e in
  {| record_id := id; rr_exchange := exchange m; rr_symbol := symbol m;
     channel := NORMALIZED_EVENT_JOURNAL_CHANNEL; message_kind := "normalized_event"; transport := Internal;
     rr_exchange_timestamp := Some (exchange_timestamp m); rr_local_receive_timestamp := local_receive_timestamp m;
     rr_normalization_timestamp := Some (normalization_timestamp m); rr_sequence_id := sequence_id m;
     connection_generation := event_generation e; raw_payload := event_json e |}.
Definition marker_entry (id : UUID) (t : Z) : RawMarketRecord :=
  {| record_id := id; rr_exchange := BINANCE; rr_symbol := "*";
     channel := NORMALIZED_EVENT_JOURNAL_CHANNEL; message_kind := FEATURE_TIMELINE_END_MESSAGE_KIND;
     transport := Internal; rr_exchange_timestamp := None; rr_local_receive_timestamp := t;
     rr_normalization_timestamp := Some t; rr_sequence_id := None; connection_generation := 0;
     raw_payload := marker_json t |}.

Lemma event_entry_record id e :
  model_event e → normalized_event_journal_record id e = Ok (event_entry id e).
Proof.
  intros [Hs Hg%Z.leb_le]%model_event_meta. unfold normalized_event_journal_record, mk_raw_record.
  rewrite Hs. cbn [mbind res_bind].
  change (as_utc_opt ?m (Some (utc ?t))) with (as_utc_opt m (utc <$> Some t)).
  rewrite !as_utc_opt_utc, as_utc_utc. cbn [mbind res_bind]. by rewrite Hg.
Qed.

Lemma marker_entry_record id t : feature_timeline_end_journal_record id (utc t) = Ok (marker_entry id t).
Proof.
  unfold feature_timeline_end_journal_record, mk_raw_record. rewrite !as_utc_utc. cbn [mbind res_bind as_utc_opt].
  rewrite !as_utc_utc. reflexivity.
Qed.

Lemma event_entry_wf id e : is_uuid id = true → model_event e → raw_wf (event_entry id e).
Proof. intros Hid [Hs Hg]%model_event_meta. by repeat split. Qed.
Lemma marker_entry_wf id t : is_uuid id = true → raw_wf (marker_entry id t).
Proof. intros Hid. by repeat split. Qed.

Lemma event_entry_events id e : model_event e → journal_events (as_read (event_entry id e)) = Ok [e].
Proof using Laws.
  intros He. unfold journal_events, as_read, event_entry, journal_metadata_matches.
  cbn [channel message_kind transport raw_payload rr_exchange rr_symbol rr_exchange_timestamp
    rr_local_receive_timestamp rr_normalization_timestamp rr_sequence_id connection_generation].
  rewrite bool_decide_false by done. cbn [require bool_decide andb mbind res_bind].
  rewrite event_round_trip by done. cbn [mbind res_bind].
  rewrite !bool_decide_true, !Z.eqb_refl by done.
  rewrite bool_decide_true by by destruct (sequence_id (event_meta e)). done.
Qed.

Lemma marker_entry_end id t : feature_timeline_end_timestamp (as_read (marker_entry id t)) = Ok (Some t).
Proof using Laws.
  unfold feature_timeline_end_timestamp, as_read, marker_entry.
  cbn [channel message_kind transport raw_payload rr_exchange rr_symbol rr_exchange_timestamp
    rr_local_receive_timestamp rr_normalization_timestamp rr_sequence_id connection_generation fmap option_fmap option_map].
  rewrite !bool_decide_true by done. cbn [negb andb is_none require mbind res_bind].
  rewrite Z.eqb_refl. cbn [require mbind res_bind]. rewrite marker_round_trip. cbn [mbind res_bind].
  by rewrite Z.eqb_refl, bool_decide_true.
Qed.
End journal.
