(* ===== verification/Collection.v ===== *)
(** * Clean collections

    [storage/collection_manifest.py] and [replay/source.py]: the manifest a collection
    writes when it begins and replaces when it has ended and been audited, the validation
    of a tree against it, and the choice of what a replay reads.  The JSON of a manifest is
    a parameter. *)

From S2P Require Import Prelude Effects PyDecimal PyFloat PyTime Models Clock Fingerprint FeatureModels FeatureRows FeatureTree FeatureScan RawRecords RawTree RawAudits NormBinance NormOkx Replay.
From Stdlib Require Import Ascii.
Open Scope Z_scope.

(** [CollectionManifestError]. *)
Definition CollectionManifestError (message : string) : exn := ValueError message.

Inductive CollectionTerminal := IN_PROGRESS | CLEAN_END.
#[export] Instance CollectionTerminal_eq_dec : EqDecision CollectionTerminal.
Proof. solve_decision. Defined.

(** ** Models *)

Record RawLogicalAudit := {
  la_rows : Z; la_unique_record_ids : Z; la_content_digest : string; la_payload_bytes : Z; la_partitions : Z }.
#[export] Instance RawLogicalAudit_eq_dec : EqDecision RawLogicalAudit.
Proof. solve_decision. Defined.

Definition mk_logical_audit (a : RawLogicalAudit) : res RawLogicalAudit :=
  _ ← require (forallb (Z.leb 0) [la_rows a; la_unique_record_ids a; la_payload_bytes a; la_partitions a])
        (ValueError "greater than or equal to 0");
  _ ← require (sha256_pattern (la_content_digest a)) (ValueError "string should match pattern");
  Ok a.
Definition from_raw_audit (a : RawAudit) : res RawLogicalAudit :=
  mk_logical_audit {| la_rows := ra_rows a; la_unique_record_ids := ra_unique_record_ids a;
    la_content_digest := ra_content_digest a; la_payload_bytes := ra_payload_bytes a; la_partitions := ra_partitions a |}.

(** The timestamps in UTC; [claim_scope] and [schema_version] have one value. *)
Record CollectionManifest := {
  run_id : UUID;
  cm_started_at : Z;
  terminal : CollectionTerminal;
  terminal_at : option Z;
  cm_feature_timeline_end_at : option Z;
  code_version : string;
  code_sha256 : string;
  strategy_version : string;
  settings_sha256 : string;
  normalized_event_count : option Z;
  raw_audit : option RawLogicalAudit }.

(** The field bounds and [lifecycle_fields_match_terminal]; the timestamps are checked where
    they come in. *)
Definition validate_manifest (m : CollectionManifest) : res CollectionManifest :=
  _ ← require (negb (blank (code_version m))) (ValueError "collection manifest versions cannot be empty");
  _ ← require (sha256_pattern (code_sha256 m)) (ValueError "string should match pattern");
  _ ← require (negb (blank (strategy_version m))) (ValueError "collection manifest versions cannot be empty");
  _ ← require (sha256_pattern (settings_sha256 m)) (ValueError "string should match pattern");
  _ ← require (given (normalized_event_count m) (Z.leb 0)) (ValueError "greater than or equal to 0");
  _ ← match raw_audit m with Some a => _ ← mk_logical_audit a; Ok tt | None => Ok tt end;
  match terminal m with
  | IN_PROGRESS =>
    _ ← require (is_none (terminal_at m) && is_none (cm_feature_timeline_end_at m) &&
                 is_none (normalized_event_count m) && is_none (raw_audit m))
          (ValueError "IN_PROGRESS collection manifest cannot contain terminal evidence");
    Ok m
  | CLEAN_END =>
    match terminal_at m, cm_feature_timeline_end_at m, normalized_event_count m, raw_audit m with
    | Some t, Some e, Some _, Some _ =>
      _ ← require (cm_started_at m <=? t) (ValueError "collection terminal precedes collection start");
      _ ← require (cm_started_at m <=? e) (ValueError "feature timeline end precedes collection start");
      _ ← require (e <=? t) (ValueError "feature timeline end follows collection terminal");
      Ok m
    | _, _, _, _ => Err (ValueError "CLEAN_END collection manifest requires complete terminal evidence")
    end
  end.

Definition manifest_utc : datetime → res Z := as_utc "collection manifest timestamps must be timezone-aware".

Record CollectionEvidence := { ev_journal : bool; ev_manifest : bool; ev_incomplete : bool }.
Definition any_evidence (e : CollectionEvidence) : bool := ev_journal e || ev_manifest e || ev_incomplete e.

Record NormalizedJournalAudit := { ja_event_count : Z; ja_marker_count : Z; ja_marker_at : Z }.
Record CleanCollectionValidation := {
  cv_manifest : CollectionManifest; cv_raw_audit : RawAudit; cv_event_count : Z; cv_marker_count : Z }.

(** The JSON of a manifest and its validation. *)
Class ManifestCodec := {
  manifest_json : CollectionManifest → string;
  validate_manifest_json : string → res CollectionManifest }.
Class ManifestLaws `{!ManifestCodec} : Prop := {
  manifest_round_trip m : validate_manifest m = Ok m → validate_manifest_json (manifest_json m) = Ok m;
  manifest_validated text m : validate_manifest_json text = Ok m → validate_manifest m = Ok m }.

(** ** The tree *)

Definition journal_directory_name : string := "channel=" +:+ partition_value NORMALIZED_EVENT_JOURNAL_CHANNEL.
(** [RawParquetReader.has_channel]. *)
Definition has_channel (chan : string) (t : collection_tree) : bool :=
  existsb (λ d, bool_decide (last d = Some ("channel=" +:+ partition_value chan)%string)) (ct_directories t).

Definition COLLECTION_MANIFEST_FILENAME : string := "_collection_manifest.json".
(** [glob(".{name}.*.tmp")]: in the root itself. *)
Definition manifest_temporary (p : path) : bool :=
  match p with
  | [name] => String.prefix ("." +:+ COLLECTION_MANIFEST_FILENAME +:+ ".") name && ends_with ".tmp" name
  | _ => false
  end.

Definition inspect_collection_evidence (t : collection_tree) : CollectionEvidence :=
  if negb (ct_exists t) then {| ev_journal := false; ev_manifest := false; ev_incomplete := false |}
  else {| ev_journal := has_channel NORMALIZED_EVENT_JOURNAL_CHANNEL t;
          ev_manifest := negb (is_none (ct_manifest t)) || existsb manifest_temporary (ct_temporaries t);
          ev_incomplete := ct_sentinel t |}.

Section manifest.
Context {MC : ManifestCodec}.

(** [_atomic_write_manifest]: on a fault the temporary file goes and the manifest stays. *)
Definition atomic_write_manifest (fault : option write_fault) (m : CollectionManifest) : TM unit :=
  _ ← tree_fault fault MkdirFails;
  _ ← modifyM (λ t, {| t with ct_exists := true |});
  _ ← tree_fault fault WriteFails;
  _ ← tree_fault fault ReplaceFails;
  modifyM (λ t, {| t with ct_manifest := Some (manifest_json m +:+ of_chars [ascii_of_nat 10]) |}).

(** [_claim_collection_manifest]: a failed write leaves an empty manifest. *)
Definition claim_collection_manifest (fault : option write_fault) (m : CollectionManifest) : TM unit :=
  _ ← tree_fault fault MkdirFails;
  _ ← modifyM (λ t, {| t with ct_exists := true |});
  t ← getM;
  _ ← requireM (tree_is_empty t) (CollectionManifestError "collection output is not empty");
  _ ← modifyM (λ t, {| t with ct_manifest := Some EmptyString |});
  _ ← tree_fault fault WriteFails;
  modifyM (λ t, {| t with ct_manifest := Some (manifest_json m +:+ of_chars [ascii_of_nat 10]) |}).

Definition begin_collection_manifest (fault : option write_fault) (id : UUID) (started : datetime)
    (code_version strategy_version settings_sha256 code_sha256 : string) : TM CollectionManifest :=
  started ← liftM (manifest_utc started);
  m ← liftM (validate_manifest {| run_id := id; cm_started_at := started; terminal := IN_PROGRESS; terminal_at := None;
        cm_feature_timeline_end_at := None; code_version := code_version; code_sha256 := code_sha256;
        strategy_version := strategy_version; settings_sha256 := settings_sha256;
        normalized_event_count := None; raw_audit := None |});
  _ ← claim_collection_manifest fault m;
  mret m.

(** [model_validate_json] ignores the line feed that ends the file. *)
Definition strip_line_feed (s : string) : string :=
  match last (chars s) with
  | Some c => if bool_decide (c = ascii_of_nat 10) then of_chars (removelast (chars s)) else s
  | None => s
  end.

Definition read_collection_manifest (t : collection_tree) : res CollectionManifest :=
  _ ← require (negb (ct_sentinel t)) (CollectionManifestError "raw compaction did not reach audited completion");
  match ct_manifest t with
  | None => Err (CollectionManifestError "collection manifest is missing")
  | Some text =>
    match validate_manifest_json (strip_line_feed text) with
    | Ok m => Ok m
    | Err _ => Err (CollectionManifestError "collection manifest is corrupt")
    end
  end.

Definition complete_collection_manifest (fault : option write_fault) (expected_run_id : UUID)
    (end_at timeline_end : datetime) (count : Z) (audit : RawAudit) : TM CollectionManifest :=
  t ← getM;
  current ← liftM (read_collection_manifest t);
  _ ← requireM (bool_decide (run_id current = expected_run_id))
        (CollectionManifestError "collection manifest run_id changed during capture");
  _ ← requireM (bool_decide (terminal current = IN_PROGRESS))
        (CollectionManifestError "collection manifest is not in the IN_PROGRESS state");
  logical ← liftM (from_raw_audit audit);
  end_at ← liftM (manifest_utc end_at);
  timeline_end ← liftM (manifest_utc timeline_end);
  clean ← liftM (validate_manifest {| current with terminal := CLEAN_END; terminal_at := Some end_at;
        cm_feature_timeline_end_at := Some timeline_end; normalized_event_count := Some count;
        raw_audit := Some logical |});
  _ ← atomic_write_manifest fault clean;
  mret clean.

Definition preserve_clean_collection_manifest (fault : option write_fault) (m : CollectionManifest) (audit : RawAudit) : TM unit :=
  _ ← requireM (bool_decide (terminal m = CLEAN_END)) (CollectionManifestError "only a CLEAN_END manifest can be preserved");
  logical ← liftM (from_raw_audit audit);
  _ ← requireM (bool_decide (raw_audit m = Some logical))
        (CollectionManifestError "compacted raw logical audit does not match the clean manifest");
  atomic_write_manifest fault m.
End manifest.

(** ** The audit of a journal *)

Definition READER_BATCH : nat := Z.to_nat 4096.

Lemma READER_BATCH_pos : (0 < READER_BATCH)%nat.
Proof. unfold READER_BATCH. lia. Qed.

(** The variables of the loop. *)
Record journal_state := { jo_events : Z; jo_markers : Z; jo_marker_at : option Z; jo_latest : option Z }.

Section journal.
Context {Codec : ReplayCodec}.

Definition journal_step (r : RawMarketRecord) : M (RawRecordNormalizer * journal_state) unit :=
  p ← getM;
  let j := p.2 in
  if bool_decide (message_kind r = FEATURE_TIMELINE_END_MESSAGE_KIND) then
    _ ← modifyM (λ p, let j := p.2 in (p.1, {| j with jo_markers := jo_markers j + 1 |}));
    _ ← requireM (jo_markers j + 1 <=? 1)
          (CollectionManifestError "normalized journal requires exactly one terminal marker");
    t ← liftM (feature_timeline_end_timestamp r);
    modifyM (λ p, let j := p.2 in (p.1, {| j with jo_marker_at := t |}))
  else
    _ ← requireM (jo_markers j =? 0)
          (CollectionManifestError "normalized journal contains a record after its terminal marker");
    outcome ← attempt (zoomM fst (λ n p, (n, p.2)) (normalize_record r));
    match outcome with
    | Err _ => raiseM (CollectionManifestError "normalized journal contains an invalid event record")
    | Ok [e] =>
      modifyM (λ p, let j := p.2 in (p.1, {| j with
        jo_latest := newest (jo_latest j) (local_receive_timestamp (event_meta e)); jo_events := jo_events j + 1 |}))
    | Ok _ => raiseM (CollectionManifestError "each normalized journal row must contain exactly one event")
    end.

(** [audit_normalized_journal]. *)
Definition audit_normalized_journal (require_events : bool) (t : collection_tree) : res NormalizedJournalAudit :=
  _ ← require (has_channel NORMALIZED_EVENT_JOURNAL_CHANNEL t)
        (CollectionManifestError "collection manifest exists but normalized journal is missing");
  records ← iter_raw_records READER_BATCH journal_filter RECEIVE_TIME (ct_files t);
  p ← execM (forM journal_step records)
        (normalizer_init, {| jo_events := 0; jo_markers := 0; jo_marker_at := None; jo_latest := None |});
  let j := p.2 in
  _ ← require (negb (require_events && (jo_events j =? 0))) (CollectionManifestError "normalized journal is empty");
  match jo_marker_at j with
  | Some at_ =>
    _ ← require (jo_markers j =? 1) (CollectionManifestError "normalized journal requires exactly one terminal marker");
    _ ← require (given (jo_latest j) (λ l, l <=? at_))
          (CollectionManifestError "normalized journal event exceeds its terminal watermark");
    Ok {| ja_event_count := jo_events j; ja_marker_count := jo_markers j; ja_marker_at := at_ |}
  | None => Err (CollectionManifestError "normalized journal requires exactly one terminal marker")
  end.

(** ** Validation *)

Context {MC : ManifestCodec} (row_hash : RawRow → Z).

(** [validate_clean_collection]; [given_audit] is [raw_audit]. *)
Definition validate_clean_collection (given_audit : option RawAudit) (t : collection_tree) : res CleanCollectionValidation :=
  _ ← require (match ct_temporaries t with [] => true | _ => false end)
        (CollectionManifestError "collection contains unfinished temporary files");
  m ← read_collection_manifest t;
  _ ← require (bool_decide (terminal m = CLEAN_END)) (CollectionManifestError "collection manifest has no CLEAN_END terminal");
  audited ← match given_audit with Some a => Ok a | None => audit_raw_tree row_hash t end;
  logical ← from_raw_audit audited;
  _ ← require (bool_decide (raw_audit m = Some logical)) (CollectionManifestError "collection manifest raw logical audit mismatch");
  journal ← audit_normalized_journal true t;
  _ ← require (bool_decide (normalized_event_count m = Some (ja_event_count journal)))
        (CollectionManifestError "collection manifest normalized journal count mismatch");
  _ ← require (bool_decide (cm_feature_timeline_end_at m = Some (ja_marker_at journal)))
        (CollectionManifestError "collection manifest terminal marker timestamp mismatch");
  Ok {| cv_manifest := m; cv_raw_audit := audited; cv_event_count := ja_event_count journal;
        cv_marker_count := ja_marker_count journal |}.

(** ** The source of a replay *)

Inductive ReplaySourceMode := AUTO | RAW | JOURNAL.
#[global] Instance ReplaySourceMode_eq_dec : EqDecision ReplaySourceMode.
Proof. solve_decision. Defined.

Record ReplaySourceResolution := { sr_mode : ReplaySourceMode; sr_clean_collection : option CleanCollectionValidation }.
Record ReplayRuntimeLineage := {
  rl_code_version : string; rl_code_sha256 : string; rl_strategy_version : string; rl_settings_sha256 : string }.

Definition validate_replay_capture_lineage (r : ReplaySourceResolution) (runtime : ReplayRuntimeLineage) : res unit :=
  match sr_clean_collection r with
  | None => Ok tt
  | Some v =>
    let capture := cv_manifest v in
    require (bool_decide (code_version capture = rl_code_version runtime) &&
             bool_decide (code_sha256 capture = rl_code_sha256 runtime) &&
             bool_decide (strategy_version capture = rl_strategy_version runtime) &&
             bool_decide (settings_sha256 capture = rl_settings_sha256 runtime))
      (RuntimeError "journal capture lineage differs from the replay runtime")
  end.

Definition resolve_replay_source (requested : ReplaySourceMode) (t : collection_tree) : res ReplaySourceResolution :=
  let evidence := inspect_collection_evidence t in
  if bool_decide (requested = RAW) then Ok {| sr_mode := RAW; sr_clean_collection := None |}
  else if bool_decide (requested = AUTO) && negb (any_evidence evidence)
  then Ok {| sr_mode := RAW; sr_clean_collection := None |}
  else
    v ← validate_clean_collection None t;
    Ok {| sr_mode := JOURNAL; sr_clean_collection := Some v |}.

(** The filter of [main.py: run_replay]; [None] of a list is an option not given. *)
Definition replay_filter (mode : ReplaySourceMode) (start stop : option datetime) (exchanges : option (list Exchange))
    (symbols channels : option (list string)) : res RawScanFilter :=
  let some {A} (l : option (list A)) := match l with Some (_ :: _) => l | _ => None end in
  match mode with
  | JOURNAL =>
    _ ← require (is_none start && is_none stop && is_none (some exchanges) && is_none (some symbols) && is_none (some channels))
          (ValueError "exact journal replay requires the complete unfiltered collection run");
    mk_raw_filter None None journal_filter
  | _ =>
    _ ← require (negb (match some channels with Some l => bool_decide (NORMALIZED_EVENT_JOURNAL_CHANNEL ∈ l) | None => false end))
          (ValueError "normalized-journal rows require --source-mode journal");
    mk_raw_filter start stop {| rf_start := None; rf_end := None; rf_exchanges := some exchanges; rf_symbols := some symbols;
      rf_channels := some channels; rf_excluded_channels := [NORMALIZED_EVENT_JOURNAL_CHANNEL] |}
  end.
End journal.
