(* ===== verification/RawCompact.v ===== *)
(** * Compaction of raw trees

    [storage/compact.py: compact_raw_tree]: the rows are copied to larger files of a new
    tree, the audits of the two compared, and the manifest of a clean collection carried over. *)

From S2P Require Import Prelude Effects PyDecimal PyFloat PyTime Models Fingerprint FeatureModels FeatureRows FeatureTree FeatureScan FeatureDisk RawRecords RawTree RawAudits NormBinance NormOkx Replay Collection.
From Stdlib Require Import Ascii.
Open Scope Z_scope.

Record CompactionReport := { cr_input_path : path; cr_output_path : path; cr_before : RawAudit; cr_after : RawAudit }.

(** The loop's variables, the output tree, and the [uuid4().hex] and the faults of the
    files still to come. *)
Record compact_state := {
  co_partition : option raw_partition;
  co_buffer : list RawRow;
  co_writes : list (string * option write_fault);
  co_output : collection_tree }.

Section loop.
Context (target_rows : Z).

Abbreviation CM := (M compact_state).

(** [_write_rows(output, p, buffer); buffer.clear()]. *)
Definition compact_write (p : raw_partition) : CM unit :=
  s ← getM;
  match co_writes s with
  | [] => raiseM os_error
  | (nonce, fault) :: writes =>
    _ ← modifyM (λ s, {| s with co_writes := writes |});
    _ ← zoomM co_output (λ t s, {| s with co_output := t |}) (write_compact_rows nonce fault p (co_buffer s));
    modifyM (λ s, {| s with co_buffer := [] |})
  end.

Definition compact_row (row : RawRow) : CM unit :=
  let partition := row_partition row in
  s ← getM;
  _ ← match co_partition s, co_buffer s with
      | Some current, _ :: _ => if bool_decide (partition = current) then mret tt else compact_write current
      | _, _ => mret tt
      end;
  _ ← modifyM (λ s, {| s with co_partition := Some partition; co_buffer := co_buffer s ++ [row] |});
  s ← getM;
  if target_rows <=? Z.of_nat (length (co_buffer s)) then compact_write partition else mret tt.

Definition compact_loop (files : raw_tree) : CM unit :=
  _ ← forM (λ f : path * RawParquetFile, forM compact_row (raw_rows f.2)) (py_sorted raw_file_leb files);
  s ← getM;
  match co_partition s, co_buffer s with
  | Some p, _ :: _ => compact_write p
  | _, _ => mret tt
  end.
End loop.

Section compact.
Context {Codec : ReplayCodec} {MC : ManifestCodec} (row_hash : RawRow → Z).

Definition same_audit (before after : RawAudit) : bool :=
  (ra_rows before =? ra_rows after) && (ra_unique_record_ids before =? ra_unique_record_ids after) &&
  bool_decide (ra_content_digest before = ra_content_digest after) &&
  (ra_payload_bytes before =? ra_payload_bytes after) && (ra_partitions before =? ra_partitions after).

Definition set_sentinel (b : bool) : TM unit := modifyM (λ t, {| t with ct_sentinel := b |}).

(** [compact_raw_tree]: [source_tree] is the input, the state the output; [sentinel_fault] and
    [manifest_fault] are the faults of the writing of the two small files. *)
Definition compact_raw_tree (target_rows : Z) (source output : path) (sentinel_fault manifest_fault : option write_fault)
    (writes : list (string * option write_fault)) (source_tree : collection_tree) : TM CompactionReport :=
  _ ← requireM (1 <=? target_rows) (ValueError "target_rows must be positive");
  _ ← requireM (negb (is_relative_to source output || is_relative_to output source))
        (ValueError "input and output trees must be disjoint");
  _ ← requireM (ct_exists source_tree) (ValueError "raw input directory does not exist");
  out ← getM;
  _ ← requireM (negb (ct_exists out && negb (tree_is_empty out))) (ValueError "compaction output directory must be empty");
  clean ← liftM (if any_evidence (inspect_collection_evidence source_tree)
                 then Some <$> validate_clean_collection row_hash None source_tree else Ok None);
  before ← liftM (match clean with Some v => Ok (cv_raw_audit v) | None => audit_raw_tree row_hash source_tree end);
  _ ← modifyM (λ t, {| t with ct_exists := true |});
  _ ← set_sentinel true;
  _ ← tree_fault sentinel_fault WriteFails;
  _ ← (λ t, let '(s, r) := compact_loop target_rows (ct_files source_tree)
                 {| co_partition := None; co_buffer := []; co_writes := writes; co_output := t |} in (co_output s, r));
  out ← getM;
  after ← liftM (audit_raw_tree row_hash out);
  _ ← requireM (same_audit before after) (RuntimeError "raw compaction audit mismatch");
  _ ← match clean with
      | Some v =>
        _ ← preserve_clean_collection_manifest manifest_fault (cv_manifest v) after;
        _ ← set_sentinel false;
        out ← getM;
        _ ← liftM (validate_clean_collection row_hash (Some after) out);
        mret tt
      | None => set_sentinel false
      end;
  mret {| cr_input_path := source; cr_output_path := output; cr_before := before; cr_after := after |}.
End compact.

(** ** The loop *)

Lemma forallb_Exists {A} (f : A → bool) l : forallb f l = false → Exists (λ x, f x = false) l.
Proof. induction l as [|x l IH]; [done|]. cbn [forallb]. destruct (f x) eqn:E; [by right; apply IH|by left]. Qed.

Lemma forM_concat {S A} (f : A → M S unit) ls s : forM (forM f) ls s = forM f (concat ls) s.
Proof.
  revert s. induction ls as [|l ls IH]; intros s; [done|]. cbn [forM concat].
  revert s. induction l as [|x l IHl]; intros s; [apply IH|]. cbn [forM app]. unfold mbind, M_bind in *.
  destruct (f x s) as [s1 [[]|e]]; [apply IHl|done].
Qed.

Lemma forM_map {S A B} (f : B → M S unit) (g : A → B) l : forM (λ x, f (g x)) l = forM f (map g l).
Proof. induction l as [|x l IH]; [done|]. cbn [forM map]. by rewrite IH. Qed.

Lemma compact_filename_inj a b : compact_filename a = compact_filename b → a = b.
Proof.
  unfold compact_filename. intros H. apply (f_equal chars) in H. rewrite !chars_app in H.
  apply app_inv_head, app_inv_tail in H. apply (f_equal of_chars) in H. by rewrite !of_chars_chars in H.
Qed.

Section loop_proof.
Context (target_rows : Z) (start : collection_tree) (trouble : Prop).

(** No file of the output carries the name of one to come. *)
Definition names_left (files : raw_tree) (writes : list (string * option write_fault)) : Prop :=
  ∀ d n, is_Some (dict_get d files) → n ∈ map fst writes → last d ≠ Some (compact_filename n).

(** Rows written, then buffered, then to come; [trouble] is what stops the loop. *)
Record compacting (before rest : list RawRow) (s : compact_state) : Prop := {
  cg_files : files_in_place (co_output s) ∧ same_rest start (co_output s) ∧ ct_exists (co_output s) = true;
  cg_rows : rows_of (ct_files (co_output s)) ++ co_buffer s = before;
  cg_buffer : match co_partition s with
    | Some p => Forall (λ r, row_partition r = p) (co_buffer s) | None => co_buffer s = [] end;
  cg_names : NoDup (map fst (co_writes s)) ∧ names_left (ct_files (co_output s)) (co_writes s);
  cg_fault : Exists (λ w, is_Some w.2) (co_writes s) → trouble;
  cg_fits : Exists (λ r, raw_row_fits r = false) (co_buffer s ++ rest) → trouble;
  cg_enough : (length (co_writes s) < length (co_buffer s ++ rest))%nat → trouble }.

Lemma dict_get_snoc_Some {V} (d k : path) (v : V) m : is_Some (dict_get d (m ++ [(k, v)])) → is_Some (dict_get d m) ∨ d = k.
Proof using Type.
  induction m as [|[k0 v0] m IH]; cbn [app dict_get].
  - destruct (pyeq d k) eqn:E; [|by intros []]. intros _. right. by apply bool_decide_eq_true_1 in E.
  - destruct (pyeq d k0); [by left|exact IH].
Qed.

Lemma fresh_name p nonce fault writes files :
  names_left files ((nonce, fault) :: writes) → dict_get (p ++ [compact_filename nonce]) files = None.
Proof using Type.
  intros H. destruct (dict_get _ files) eqn:E; [|done]. exfalso.
  apply (H (p ++ [compact_filename nonce]) nonce); [by eexists|by left|apply last_snoc].
Qed.

Lemma compact_write_spec before rest s s' r p :
  compacting before rest s → Forall (λ x, row_partition x = p) (co_buffer s) → co_buffer s ≠ [] →
  compact_write p s = (s', r) →
  match r with
  | Ok _ => compacting before rest s' ∧ co_buffer s' = [] ∧ co_partition s' = co_partition s
  | Err _ => trouble
  end.
Proof using Type.
  intros [[H1 [H2 H0]] H3 H4 [H5 H6] H7 H8 H9] Hb Hne H. unfold compact_write in H. rewrite (run_bind _ _ _ s s eq_refl) in H.
  destruct (co_writes s) as [|[nonce fault] writes] eqn:Ew.
  { injection H as <- <-. apply H9. rewrite length_app. destruct (co_buffer s); [done|simpl; lia]. }
  erewrite run_bind in H by reflexivity. cbv beta in H.
  destruct r as [[]|e].
  - apply bindM_Ok in H as (s2 & [] & (t & Et & ->)%zoomM_Ok & [= <-]). cbn [co_output co_buffer co_partition] in *.
    apply write_compact_rows_spec in Et as ([Hrest Hdirs] & Hx & Hd & Hf). split; [|done].
    apply NoDup_cons in H5 as [H5' H5]. specialize (Hf (fresh_name _ _ _ _ _ H6)).
    split; cbn [co_output co_buffer co_partition co_writes].
    + split; [|split; [by eapply same_rest_trans|done]]. unfold files_in_place. rewrite Hf.
      apply placed_in_place; [by apply (files_in_place_sub _ (ct_directories (co_output s)))|done|done].
    + by rewrite Hf, placed_rows, app_nil_r.
    + by destruct (co_partition s).
    + split; [done|]. rewrite Hf. intros d n [Hin| ->]%dict_get_snoc_Some Hn.
      * apply (H6 d n Hin). by right.
      * rewrite last_snoc. intros E. assert (nonce = n) as -> by (apply compact_filename_inj; congruence). done.
    + intros Hw. apply H7. by right.
    + intros Hw. apply H8. apply Exists_app. by right.
    + intros Hl. apply H9. rewrite length_app in *. destruct (co_buffer s); [done|]. simpl in *. lia.
  - apply bindM_Err in H as [H|(s2 & [] & _ & H)]; [|discriminate H]. unfold zoomM in H. cbn [co_output] in H.
    destruct (write_compact_rows _ _ _ _ _) as [t [[]|e']] eqn:Et; [discriminate H|].
    apply write_compact_rows_spec in Et as [Et|Et]; [|apply H7; by left].
    apply H8, Exists_app. left. by apply forallb_Exists.
Qed.

Lemma compact_row_spec before row rest s s' r :
  compacting before (row :: rest) s → compact_row target_rows row s = (s', r) →
  match r with Ok _ => compacting (before ++ [row]) rest s' | Err _ => trouble end.
Proof using Type.
  intros Hs H. unfold compact_row in H. cbv zeta in H. rewrite (run_bind _ _ _ s s eq_refl) in H.
  set (first := match co_partition s with Some _ => _ | None => _ end) in H.
  assert (∀ s1 r1, first s = (s1, r1) → match r1 with
    | Ok _ => compacting before (row :: rest) s1 ∧ Forall (λ x, row_partition x = row_partition row) (co_buffer s1)
    | Err _ => trouble end) as Hfirst.
  { intros s1 r1. unfold first. pose proof (cg_buffer _ _ _ Hs) as Hb. destruct (co_partition s) as [p|] eqn:Ep.
    - destruct (co_buffer s) as [|x b] eqn:Eb; [intros [= <- <-]; rewrite Eb; by split|].
      case_bool_decide as E; [intros [= <- <-]; rewrite Eb, E; by split|]. intros Hw.
      pose proof (compact_write_spec before (row :: rest) s s1 r1 p Hs) as W. rewrite Eb in W.
      specialize (W Hb ltac:(done) Hw). destruct r1; [|done]. destruct W as (W1 & W2 & _). rewrite W2. by split.
    - intros [= <- <-]. rewrite Hb. by split. }
  destruct (first s) as [s1 [[]|e]] eqn:E1; specialize (Hfirst _ _ eq_refl).
  2: { rewrite (run_bind_fail _ _ _ _ _ E1) in H. by injection H as <- <-. }
  rewrite (run_bind _ _ _ _ _ E1) in H. clear first E1 Hs. destruct Hfirst as [[H1 H2 H3 H4 H5 H6 H7] Hb].
  erewrite run_bind in H by reflexivity. cbv beta in H. erewrite run_bind in H by reflexivity. cbn [co_buffer] in H.
  assert (compacting (before ++ [row]) rest
    {| co_partition := Some (row_partition row); co_buffer := co_buffer s1 ++ [row]; co_writes := co_writes s1;
       co_output := co_output s1 |}) as Hs2.
  { split; cbn [co_output co_buffer co_partition co_writes]; rewrite <- ?app_assoc; try done.
    - by rewrite <- H2, <- app_assoc.
    - apply Forall_app. split; [done|]. by constructor. }
  destruct (target_rows <=? _); [|by injection H as <- <-].
  eapply compact_write_spec in H; [|exact Hs2| |cbn [co_buffer]; by destruct (co_buffer s1)].
  - destruct r; [|done]. by destruct H.
  - exact (cg_buffer _ _ _ Hs2).
Qed.

Lemma compact_rows_spec before rows s s' r :
  compacting before rows s → forM (compact_row target_rows) rows s = (s', r) →
  match r with Ok _ => compacting (before ++ rows) [] s' | Err _ => trouble end.
Proof using Type.
  revert before s. induction rows as [|row rows IH]; intros before s Hs H.
  - injection H as <- <-. by rewrite app_nil_r.
  - cbn [forM] in H. destruct (compact_row target_rows row s) as [s1 [[]|e]] eqn:E;
      pose proof (compact_row_spec _ _ _ _ _ _ Hs E) as H1.
    + rewrite (run_bind _ _ _ _ _ E) in H. specialize (IH _ _ H1 H). by rewrite <- app_assoc in IH.
    + rewrite (run_bind_fail _ _ _ _ _ E) in H. by injection H as <- <-.
Qed.

Lemma compact_loop_spec before files s s' r :
  compacting before (rows_of (py_sorted raw_file_leb files)) s → compact_loop target_rows files s = (s', r) →
  match r with
  | Ok _ => compacting (before ++ rows_of (py_sorted raw_file_leb files)) [] s' ∧ co_buffer s' = []
  | Err _ => trouble
  end.
Proof using Type.
  intros Hs H. unfold compact_loop in H. rewrite forM_map in H.
  set (m := forM (compact_row target_rows) (rows_of (py_sorted raw_file_leb files))).
  destruct (m s) as [s1 o] eqn:E. pose proof (compact_rows_spec _ _ _ _ _ Hs E) as H1.
  unfold m, rows_of in E. rewrite <- forM_concat in E. unfold mbind at 1, M_bind at 1 in H. rewrite E in H.
  destruct o as [[]|e]; [|by injection H as <- <-].
  rewrite (run_bind _ _ _ s1 s1 eq_refl) in H.
  destruct (co_partition s1) as [p|] eqn:Ep.
  - pose proof (cg_buffer _ _ _ H1) as Hb. rewrite Ep in Hb.
    destruct (co_buffer s1) as [|x b] eqn:Eb; [by injection H as <- <-|]. rewrite <- Eb in *.
    eapply compact_write_spec in H; [|exact H1| |by rewrite Eb].
    + destruct r; [|done]. by destruct H as (? & ? & _).
    + exact Hb.
  - injection H as <- <-. pose proof (cg_buffer _ _ _ H1) as Hb. rewrite Ep in Hb. by split.
Qed.
End loop_proof.

(** ** The output *)

(** Rows in files of their directories are sound when the rows are. *)
Definition rows_sound (rows : list RawRow) : Prop := Forall (λ r, row_sound (raw_directory (row_partition r)) r) rows.

Lemma files_sound_rows f : files_sound f → rows_sound (rows_of f).
Proof.
  unfold rows_sound, rows_of. induction 1 as [|x f [_ Hx] _ IH]; [constructor|]. cbn [map concat]. apply Forall_app.
  split; [|exact IH]. eapply Forall_impl; [exact Hx|]. intros r (H1 & H2 & H3 & _). done.
Qed.

Lemma in_place_sound t : files_in_place t → rows_sound (rows_of (ct_files t)) → files_sound (ct_files t).
Proof.
  unfold files_in_place, rows_sound, rows_of. generalize (ct_directories t). intros ds.
  induction 1 as [|x f (Hs & _ & Hx) _ IH]; [constructor|]. cbn [map concat]. intros [H1 H2]%Forall_app.
  constructor; [|by apply IH]. split; [done|]. rewrite Forall_forall in Hx, H1 |- *.
  intros r Hr. destruct (H1 r Hr) as (A1 & A2 & A3 & _). split; [done|]. split; [done|]. split; [done|]. by apply Hx.
Qed.

Lemma rows_of_elem r f : r ∈ rows_of f ↔ ∃ x, x ∈ f ∧ r ∈ raw_rows x.2.
Proof.
  unfold rows_of. rewrite list_elem_of_In, in_concat. split.
  - intros (l & Hl%list_elem_of_In & Hr%list_elem_of_In). apply list_elem_of_fmap in Hl as (x & -> & Hx). by exists x.
  - intros (x & Hx & Hr). exists (raw_rows x.2). split; apply list_elem_of_In; [|done]. apply list_elem_of_fmap. by exists x.
Qed.

(** A row's channel has its directory. *)
Lemma in_place_channel t r : files_in_place t → r ∈ rows_of (ct_files t) → has_channel (rw_channel r) t = true.
Proof.
  intros Hf (x & Hx & Hr)%rows_of_elem. unfold files_in_place in Hf. rewrite Forall_forall in Hf.
  destruct (Hf x Hx) as (_ & Hd & Hp). rewrite Forall_forall in Hp. rewrite (Hp r Hr) in Hd.
  unfold has_channel. apply existsb_exists. exists (raw_directory (row_partition r)). split; [by apply list_elem_of_In|].
  by apply bool_decide_eq_true_2.
Qed.

Definition compaction_trouble (writes : list (string * option write_fault)) (rows : list RawRow) : Prop :=
  Exists (λ w, is_Some w.2) writes ∨ Exists (λ r, raw_row_fits r = false) rows ∨ (length writes < length rows)%nat.

Lemma compaction_trouble_perm writes a b : a ≡ₚ b → compaction_trouble writes a → compaction_trouble writes b.
Proof. unfold compaction_trouble. intros Hp. by rewrite Hp. Qed.

Definition compact_start (writes : list (string * option write_fault)) (out : collection_tree) : compact_state :=
  {| co_partition := None; co_buffer := []; co_writes := writes; co_output := out |}.

Lemma compact_output target_rows files writes out s r :
  ct_files out = [] → ct_exists out = true → NoDup (map fst writes) →
  compact_loop target_rows files (compact_start writes out) = (s, r) →
  match r with
  | Ok _ => rows_of (ct_files (co_output s)) ≡ₚ rows_of files ∧ files_in_place (co_output s) ∧ same_rest out (co_output s) ∧
      ct_exists (co_output s) = true
  | Err _ => compaction_trouble writes (rows_of files)
  end.
Proof.
  intros He Hx Hn H. set (sorted := py_sorted raw_file_leb files).
  assert (rows_of sorted ≡ₚ rows_of files) as Hp by apply rows_of_perm, py_sorted_perm.
  eapply (compact_loop_spec target_rows out (compaction_trouble writes (rows_of sorted)) []) in H.
  - destruct r as [?|?]; [|by eapply compaction_trouble_perm]. destruct H as [[(H1 & H2 & H3) H4 _ _ _ _ _] H5].
    rewrite H5, app_nil_r in H4. by rewrite H4, <- Hp.
  - split; cbn [co_output co_buffer co_partition co_writes compact_start]; unfold files_in_place, names_left; rewrite ?He; try done.
    + split; [done|]. by intros d n [].
    + intros Hw. by left.
    + intros Hw. right. by left.
    + intros Hw. right. by right.
Qed.

(** The next step of a run. *)
Ltac run_step := erewrite run_bind by reflexivity; cbv beta.

Section whole.
Context {Codec : ReplayCodec} {MC : ManifestCodec} (row_hash : RawRow → Z).
Abbreviation audit := (audit_raw_tree row_hash).
Abbreviation validate := (validate_clean_collection row_hash).

(** ** Validation *)

Record valid_collection (audited : RawAudit) (t : collection_tree) (v : CleanCollectionValidation) : Prop := {
  vc_temporaries : ct_temporaries t = [];
  vc_manifest : read_collection_manifest t = Ok (cv_manifest v);
  vc_terminal : terminal (cv_manifest v) = CLEAN_END;
  vc_audit : cv_raw_audit v = audited;
  vc_logical : ∃ logical, from_raw_audit audited = Ok logical ∧ raw_audit (cv_manifest v) = Some logical;
  vc_journal : ∃ j, audit_normalized_journal true t = Ok j ∧ normalized_event_count (cv_manifest v) = Some (ja_event_count j) ∧
    cm_feature_timeline_end_at (cv_manifest v) = Some (ja_marker_at j) ∧ cv_event_count v = ja_event_count j ∧
    cv_marker_count v = ja_marker_count j }.

Lemma validate_spec a t v : validate (Some a) t = Ok v ↔ valid_collection a t v.
Proof using Type.
  unfold validate_clean_collection. split.
  - intros H. inv_res. subst v.
    repeat match goal with H : bool_decide _ = true |- _ => apply bool_decide_eq_true_1 in H end.
    split; cbn [cv_manifest cv_raw_audit cv_event_count cv_marker_count]; subst; eauto 8.
    by destruct (ct_temporaries t).
  - intros [H1 H2 H3 H4 (lo & H5 & H6) (j & H7 & H8 & H9 & H10 & H11)].
    rewrite H1, H2. cbn [require mbind res_bind]. rewrite bool_decide_true by done. cbn [require mbind res_bind].
    rewrite H5. cbn [mbind res_bind]. rewrite bool_decide_true by done. cbn [require mbind res_bind].
    rewrite H7. cbn [mbind res_bind]. rewrite !bool_decide_true by done. cbn [require mbind res_bind].
    destruct v. simpl in *. by subst.
Qed.

Lemma validate_given a t : audit t = Ok a → validate None t = validate (Some a) t.
Proof using Type. intros H. unfold validate_clean_collection. by rewrite H. Qed.

Lemma validate_none t v : validate None t = Ok v ↔ ∃ a, audit t = Ok a ∧ valid_collection a t v.
Proof using Type.
  split.
  - intros H. destruct (audit t) as [a|e] eqn:E.
    + exists a. split; [done|]. apply validate_spec. by rewrite <- (validate_given a).
    + exfalso. unfold validate_clean_collection in H. rewrite E in H. inv_res.
  - intros (a & E & H). rewrite (validate_given a) by done. by apply validate_spec.
Qed.

Lemma strip_line_feed_app s : strip_line_feed (s +:+ of_chars [ascii_of_nat 10]) = s.
Proof using Type.
  unfold strip_line_feed. rewrite chars_app. change (chars (of_chars [ascii_of_nat 10])) with [ascii_of_nat 10].
  rewrite last_snoc, bool_decide_true, removelast_last by done. apply of_chars_chars.
Qed.

Lemma manifest_read `{!ManifestLaws} m t :
  validate_manifest m = Ok m → ct_sentinel t = false →
  ct_manifest t = Some (manifest_json m +:+ of_chars [ascii_of_nat 10]) → read_collection_manifest t = Ok m.
Proof using Type.
  intros Hm Hs Ht. unfold read_collection_manifest. rewrite Hs, Ht. cbn [negb require mbind res_bind].
  by rewrite strip_line_feed_app, manifest_round_trip.
Qed.

Lemma manifest_read_valid `{!ManifestLaws} m t : read_collection_manifest t = Ok m → validate_manifest m = Ok m.
Proof using Type.
  unfold read_collection_manifest. intros Hr. apply bind_Ok in Hr as (_ & _ & Hr). destruct (ct_manifest t) as [text|]; [|done].
  destruct (validate_manifest_json _) eqn:E; [|done]. injection Hr as <-. by eapply manifest_validated.
Qed.

(** The journal's audit looks at the directory of the channel and at what a scan gives. *)
Lemma journal_layout b t u :
  has_channel NORMALIZED_EVENT_JOURNAL_CHANNEL t = true → has_channel NORMALIZED_EVENT_JOURNAL_CHANNEL u = true →
  iter_raw_records READER_BATCH journal_filter RECEIVE_TIME (ct_files t) =
    iter_raw_records READER_BATCH journal_filter RECEIVE_TIME (ct_files u) →
  audit_normalized_journal b t = audit_normalized_journal b u.
Proof using Type. intros H1 H2 H. unfold audit_normalized_journal. by rewrite H1, H2, H. Qed.

Lemma journal_nonempty t j :
  audit_normalized_journal true t = Ok j → has_channel NORMALIZED_EVENT_JOURNAL_CHANNEL t = true ∧
  ∃ r rs, iter_raw_records READER_BATCH journal_filter RECEIVE_TIME (ct_files t) = Ok (r :: rs).
Proof using Type.
  unfold audit_normalized_journal. intros H. apply bind_Ok in H as (_ & Hc%require_Ok & H). split; [done|].
  apply bind_Ok in H as (rs & -> & H). destruct rs as [|r rs]; [|by eauto]. discriminate H.
Qed.

Lemma same_audit_of n m rows rows' : rows ≡ₚ rows' → same_audit (audit_of row_hash n rows) (audit_of row_hash m rows') = true.
Proof using Type.
  intros Hp. rewrite (audit_of_perm row_hash n rows rows' Hp). unfold same_audit, audit_of.
  cbn [ra_rows ra_unique_record_ids ra_content_digest ra_payload_bytes ra_partitions].
  by rewrite !Z.eqb_refl, bool_decide_true.
Qed.

Lemma from_audit_of n m rows rows' : rows ≡ₚ rows' → from_raw_audit (audit_of row_hash n rows) = from_raw_audit (audit_of row_hash m rows').
Proof using Type. intros Hp. by rewrite (audit_of_perm row_hash n rows rows' Hp). Qed.

(** ** Sound sources *)

Lemma row_ids l : map rw_record_id (map raw_row l) = map uuid_text (map record_id l).
Proof using Type. by rewrite !map_map. Qed.

Lemma empty_tree t : tree_is_empty t = true → ct_files t = [] ∧ ct_temporaries t = [] ∧ ct_manifest t = None ∧ ct_sentinel t = false.
Proof using Type.
  unfold tree_is_empty. destruct (ct_directories t), (ct_files t), (ct_temporaries t); try done.
  destruct (ct_manifest t), (ct_sentinel t); done.
Qed.

(** The output holds the records of the source. *)
Lemma compacted_stored src t a l :
  audit src = Ok a → stored (ct_files src) l → files_in_place t → rows_of (ct_files t) ≡ₚ rows_of (ct_files src) →
  stored (ct_files t) l ∧ NoDup (map record_id l) ∧
  ∃ n m, a = audit_of row_hash n (rows_of (ct_files src)) ∧ audit t = Ok (audit_of row_hash m (rows_of (ct_files t))).
Proof using Type.
  intros (Hf & Hn & Ha)%audit_raw_tree_spec [_ Hst] Ht Hp.
  change (rows_of (ct_files src) ≡ₚ map raw_row l) in Hst. split.
  - split; [|by rewrite <- Hst, <- Hp]. eapply Forall_impl; [exact Ht|]. by intros x (? & _).
  - split.
    + rewrite Hst, row_ids in Hn. by eapply NoDup_fmap_1.
    + eexists _, _. split; [exact Ha|]. apply audit_raw_tree_spec. split; [|split; [by rewrite Hp|reflexivity]].
      apply in_place_sound; [done|]. unfold rows_sound. rewrite Hp. by apply files_sound_rows.
Qed.

Lemma compacted_valid `{!ManifestLaws} src t l n m v :
  stored (ct_files src) l → stored (ct_files t) l → Forall raw_wf l → NoDup (map record_id l) → files_in_place t →
  let a := audit_of row_hash n (rows_of (ct_files src)) in
  let b := audit_of row_hash m (rows_of (ct_files t)) in
  rows_of (ct_files t) ≡ₚ rows_of (ct_files src) → valid_collection a src v →
  ct_temporaries t = [] → ct_sentinel t = false →
  ct_manifest t = Some (manifest_json (cv_manifest v) +:+ of_chars [ascii_of_nat 10]) →
  valid_collection b t {| cv_manifest := cv_manifest v; cv_raw_audit := b; cv_event_count := cv_event_count v;
                          cv_marker_count := cv_marker_count v |}.
Proof using Type.
  intros Hs Ht Hl Hd Hp a b Hr [H1 H2 H3 H4 (lo & H5 & H6) (j & H7 & H8)] Hte Hse Hm.
  split; cbn [cv_manifest cv_raw_audit cv_event_count cv_marker_count]; try done.
  - apply manifest_read; [|done..]. by eapply manifest_read_valid.
  - exists lo. split; [|done]. rewrite <- H5. by apply from_audit_of.
  - exists j. split; [|done]. rewrite <- H7. destruct (journal_nonempty _ _ H7) as (Hc & r & rs & Hi).
    pose proof (λ u, stored_scan READER_BATCH journal_filter RECEIVE_TIME (ct_files u) l READER_BATCH_pos) as Hscan.
    apply journal_layout; [|done|by rewrite !Hscan].
    rewrite Hscan in Hi by done. injection Hi as Hi.
    assert (r ∈ filter (λ r, raw_matches journal_filter r = true) (map as_read l)) as [Hc' Hin]%list_elem_of_filter.
    { apply (py_sorted_elem (record_leb RECEIVE_TIME)). rewrite Hi. left. }
    apply list_elem_of_fmap in Hin as (x & -> & Hx). rewrite journal_matches in Hc'. apply bool_decide_eq_true_1 in Hc'.
    rewrite <- Hc'. change (channel x) with (rw_channel (raw_row x)). apply in_place_channel; [done|].
    destruct Ht as [_ Ht]. fold (rows_of (ct_files t)) in Ht. rewrite Ht. by apply list_elem_of_fmap_2.
Qed.

(** C21. The compaction of a tree that audits, and that is valid when it is the tree of a
    collection, into an empty disjoint one, with no fault of the disk, rows that fit their
    columns and enough distinct file names: it returns, never with an audit mismatch; every
    scan of the output gives what it gives of the source, the two audits agree, and the
    output of a collection is valid with its manifest. *)
Theorem compaction_total `{!ManifestLaws} target_rows source output writes src out l a :
  1 ≤ target_rows → is_relative_to source output = false → is_relative_to output source = false →
  ct_exists src = true → tree_is_empty out = true →
  NoDup (map fst writes) → ¬ compaction_trouble writes (rows_of (ct_files src)) →
  stored (ct_files src) l → Forall raw_wf l → audit src = Ok a →
  (any_evidence (inspect_collection_evidence src) = true → is_ok (validate None src) = true) →
  ∃ t report,
    compact_raw_tree row_hash target_rows source output None None writes src out = (t, Ok report) ∧
    (∀ n filt order, iter_raw_records (S n) filt order (ct_files t) = iter_raw_records (S n) filt order (ct_files src)) ∧
    cr_before report = a ∧ audit t = Ok (cr_after report) ∧ from_raw_audit (cr_after report) = from_raw_audit a ∧
    (any_evidence (inspect_collection_evidence src) = true →
     ∃ v w, validate None src = Ok v ∧ validate None t = Ok w ∧ cv_manifest w = cv_manifest v ∧
       cv_event_count w = cv_event_count v).
Proof using Type.
  intros Hr Hd1 Hd2 Hx He Hn Htr Hst Hl Ha Hev.
  set (evidence := any_evidence (inspect_collection_evidence src)) in *.
  assert (∃ clean, (if evidence then Some <$> validate None src else Ok None) = Ok clean ∧
    match clean with Some v => evidence = true ∧ validate None src = Ok v | None => evidence = false end) as (clean & Ec & Hclean).
  { destruct evidence; [|by eexists]. specialize (Hev eq_refl). destruct (validate None src) as [v|]; [|done]. by exists (Some v). }
  assert ((match clean with Some v => Ok (cv_raw_audit v) | None => audit src end) = Ok a) as Hbefore.
  { destruct clean as [v|]; [|done]. destruct Hclean as [_ (b & Hb & [_ _ _ -> _ _])%validate_none]. congruence. }
  set (out1 := {| out with ct_exists := true; ct_sentinel := true |}).
  destruct (compact_loop target_rows (ct_files src) (compact_start writes out1)) as [s o] eqn:Eloop.
  pose proof (empty_tree out He) as (Hf & Hte & _ & _).
  pose proof (compact_output target_rows (ct_files src) writes out1 s o Hf eq_refl Hn Eloop) as Hout.
  destruct o as [[]|]; [|done]. destruct Hout as (Hp & Hin & (R1 & R2 & R3) & Hex).
  destruct (compacted_stored src (co_output s) a l Ha Hst Hin Hp) as (Hst' & Hid & n & m & -> & Hafter).
  set (b := audit_of row_hash m (rows_of (ct_files (co_output s)))) in *.
  set (a := audit_of row_hash n (rows_of (ct_files src))) in *.
  assert (∀ n filt order t, ct_files t = ct_files (co_output s) →
    iter_raw_records (S n) filt order (ct_files t) = iter_raw_records (S n) filt order (ct_files src)) as Hscan.
  { intros n' filt order t ->. rewrite !(stored_scan (S n') filt order _ l) by (done || lia). done. }
  assert (∀ t, ct_files t = ct_files (co_output s) → audit t = Ok b) as Haudit.
  { intros t Ht. rewrite <- Hafter. unfold audit_raw_tree. by rewrite Ht. }
  assert (from_raw_audit b = from_raw_audit a) as Hlog by by apply from_audit_of.
  assert ((1 <=? target_rows) = true) as Hr' by lia.
  unfold compact_raw_tree. rewrite Hd1, Hd2, Hr', Hx. cbn [orb negb]. do 4 run_step.
  rewrite He, andb_false_r. run_step. fold evidence. rewrite Ec. run_step. rewrite Hbefore. do 4 run_step.
  erewrite run_bind.
  2: { cbv beta. change (compact_loop _ _ _) with (compact_loop target_rows (ct_files src) (compact_start writes out1)).
       rewrite Eloop. reflexivity. }
  run_step. rewrite Hafter. run_step. assert (same_audit a b = true) as -> by by apply same_audit_of. run_step.
  destruct clean as [v|].
  - destruct Hclean as [Hev' (a' & Ha' & Hv)%validate_none]. assert (a' = a) as -> by congruence.
    pose proof Hv as [_ _ Hterm _ (lo & Hlo & Hra) _].
    set (t1 := let u := co_output s in {| u with ct_exists := true; ct_manifest := Some (manifest_json (cv_manifest v) +:+ of_chars [ascii_of_nat 10]) |}).
    assert (preserve_clean_collection_manifest None (cv_manifest v) b (co_output s) = (t1, Ok tt)) as Epre.
    { unfold preserve_clean_collection_manifest. rewrite bool_decide_true by done. run_step. rewrite Hlog, Hlo. run_step.
      rewrite bool_decide_true by done. run_step. reflexivity. }
    set (t2 := let u := t1 in {| u with ct_sentinel := false |}).
    pose proof (compacted_valid src t2 l n m v Hst Hst' Hl Hid Hin Hp Hv (eq_trans R1 Hte) eq_refl eq_refl) as Hw.
    cbv zeta in Hw. set (w := Build_CleanCollectionValidation _ _ _ _) in Hw. change (valid_collection b t2 w) in Hw.
    apply validate_spec in Hw. erewrite run_bind; [|erewrite run_bind by exact Epre; do 2 run_step].
    2: { change (Build_collection_tree _ _ _ _ _ _) with t2. rewrite Hw. run_step. reflexivity. }
    exists t2. eexists. split; [reflexivity|]. cbn [cr_before cr_after]. split; [intros; by apply Hscan|].
    split; [done|]. split; [by apply Haudit|]. split; [done|]. intros _. exists v, w.
    rewrite (validate_given b t2) by by apply Haudit. split; [|by rewrite Hw]. apply validate_none. by exists a.
  - run_step. eexists _, _. split; [reflexivity|]. cbn [cr_before cr_after]. split; [intros; by apply Hscan|].
    split; [done|]. split; [by apply Haudit|]. split; [done|]. rewrite Hclean. discriminate.
Qed.

(** ** Failures *)

(** The mark is there. *)
Definition marked (t : collection_tree) : Prop := ct_exists t = true ∧ ct_sentinel t = true.

Lemma marked_write nonce fault p rows : keepsM marked (write_compact_rows nonce fault p rows) (λ _, True).
Proof using Type.
  unfold write_compact_rows, place_file. apply keeps_bind with (Q := λ _, True); [apply keeps_any|]. intros _ _.
  apply keeps_bind with (Q := λ _, True).
  { intros t t' r [_ H] [= <- <-]. by split. }
  intros _ _. apply keeps_bind with (Q := λ _, True); [apply keeps_any|]. intros _ _.
  apply keeps_bind with (Q := λ _, True); [apply keeps_any|]. intros _ _.
  apply keeps_bind with (Q := λ _, True); [apply keeps_any|]. intros _ _ t t' r H [= <- <-]. by split.
Qed.

Lemma marked_compact_write p s s' r : marked (co_output s) → compact_write p s = (s', r) → marked (co_output s').
Proof using Type.
  intros Hs. unfold compact_write. rewrite (run_bind _ _ _ s s eq_refl). destruct (co_writes s) as [|[nonce fault] writes].
  { by intros [= <- <-]. }
  run_step. unfold mbind, M_bind. unfold zoomM at 1. cbn [co_output].
  destruct (write_compact_rows nonce fault p (co_buffer s) (co_output s)) as [t o] eqn:E.
  destruct (marked_write _ _ _ _ _ _ _ Hs E) as [Ht _]. destruct o; by intros [= <- <-].
Qed.

Lemma marked_row target_rows row s s' r :
  marked (co_output s) → compact_row target_rows row s = (s', r) → marked (co_output s').
Proof using Type.
  intros Hs. unfold compact_row. rewrite (run_bind _ _ _ s s eq_refl).
  set (first := match co_partition s with Some _ => _ | None => _ end).
  assert (∀ s1 r1, first s = (s1, r1) → marked (co_output s1)) as Hfirst.
  { intros s1 r1. unfold first. destruct (co_partition s), (co_buffer s); try by intros [= <- <-].
    case_bool_decide; [by intros [= <- <-]|]. by apply marked_compact_write. }
  clearbody first. unfold mbind at 1, M_bind at 1. destruct (first s) as [s1 [[]|e]]; specialize (Hfirst _ _ eq_refl).
  2: by intros [= <- <-].
  do 2 run_step. destruct (target_rows <=? _); [by apply marked_compact_write|by intros [= <- <-]].
Qed.

Lemma marked_loop target_rows files s s' r :
  marked (co_output s) → compact_loop target_rows files s = (s', r) → marked (co_output s').
Proof using Type.
  intros Hs. unfold compact_loop. rewrite (forM_map (forM (compact_row target_rows)) (λ f : path * RawParquetFile, raw_rows f.2)).
  set (m := forM _ _). unfold mbind at 1, M_bind at 1. destruct (m s) as [s1 o] eqn:E. unfold m in E. rewrite forM_concat in E.
  assert (marked (co_output s1)) as H1.
  { revert E. apply (forM_invariant _ (λ s, marked (co_output s))); [|done]. intros. by eapply marked_row. }
  destruct o; [|by intros [= <- <-]]. rewrite (run_bind _ _ _ s1 s1 eq_refl).
  destruct (co_partition s1), (co_buffer s1); try by intros [= <- <-]. by apply marked_compact_write.
Qed.

(** What a replay that does not ask for raw records makes of it. *)
Definition refused (t : collection_tree) : Prop :=
  ∀ mode, mode ≠ RAW → is_ok (resolve_replay_source row_hash mode t) = false.

Lemma invalid_refused t :
  any_evidence (inspect_collection_evidence t) = true → is_ok (validate None t) = false → refused t.
Proof using Type.
  intros He Hv mode Hm. unfold resolve_replay_source. rewrite bool_decide_false, He, andb_false_r by done.
  destruct (validate None t); [done|]. reflexivity.
Qed.

Lemma marked_refused t : marked t → refused t.
Proof using Type.
  intros [Hx Hs]. apply invalid_refused.
  - unfold inspect_collection_evidence. rewrite Hx. cbn [negb]. unfold any_evidence. cbn. by rewrite Hs, orb_true_r.
  - destruct (validate None t) as [v|] eqn:E; [|done]. apply validate_none in E as (a & _ & [_ H _ _ _ _]).
    unfold read_collection_manifest in H. by rewrite Hs in H.
Qed.

Lemma preserve_spec fault m a t t' :
  preserve_clean_collection_manifest fault m a t = (t', Ok tt) →
  ct_exists t' = true ∧ ct_files t' = ct_files t ∧ ct_manifest t' ≠ None.
Proof using Type.
  unfold preserve_clean_collection_manifest, atomic_write_manifest, tree_fault. intros H. by inv_M.
Qed.

Lemma preserve_marked fault m a : keepsM marked (preserve_clean_collection_manifest fault m a) (λ _, True).
Proof using Type.
  unfold preserve_clean_collection_manifest, atomic_write_manifest.
  do 3 (apply keeps_bind with (Q := λ _, True); [apply keeps_any|]; intros ? _).
  apply keeps_bind with (Q := λ _, True); [apply keeps_any|]. intros _ _.
  apply keeps_bind with (Q := λ _, True).
  { intros t t' r [_ H] [= <- <-]. by split. }
  intros _ _. do 2 (apply keeps_bind with (Q := λ _, True); [apply keeps_any|]; intros ? _).
  intros t t' r H [= <- <-]. by split.
Qed.

(** C22. A compaction that raises, whatever the source, the output and the faults: the output is
    as it was, or a tree that no replay takes for a collection nor, by itself, for raw records. *)
Theorem failed_compaction_refused target_rows source output sentinel_fault manifest_fault writes src out t e :
  compact_raw_tree row_hash target_rows source output sentinel_fault manifest_fault writes src out = (t, Err e) →
  t = out ∨ refused t.
Proof using Type.
  intros H. unfold compact_raw_tree in H.
  do 3 (apply bindM_Err in H as [H|(? & ? & [_ ->]%requireM_Ok & H)]; [left; by injection H|]).
  apply bindM_Err in H as [H|(? & ? & [= <- <-] & H)]; [done|].
  apply bindM_Err in H as [H|(? & ? & [_ ->]%requireM_Ok & H)]; [left; by injection H|].
  apply bindM_Err in H as [H|(? & clean & [_ ->]%liftM_Ok & H)]; [left; by injection H|].
  apply bindM_Err in H as [H|(? & before & [_ ->]%liftM_Ok & H)]; [left; by injection H|].
  right. do 2 (apply bindM_Err in H as [H|(? & ? & [= <- <-] & H)]; [done|]).
  set (out1 := Build_collection_tree _ _ _ _ _ _) in H. assert (marked out1) as H1 by done. clearbody out1.
  apply bindM_Err in H as [H|(? & ? & [_ ->]%requireM_Ok & H)]; [injection H as <- _; by apply marked_refused|].
  assert (∀ t2 o, (let '(s, r) := compact_loop target_rows (ct_files src) (compact_start writes out1) in (co_output s, r)) = (t2, o) →
    marked t2) as Hloop.
  { intros t2 o. destruct (compact_loop _ _ _) as [s r] eqn:E. intros [= <- <-]. eapply marked_loop in E; [exact E|done]. }
  apply bindM_Err in H as [H|(t2 & ? & H2%Hloop & H)]; [by apply marked_refused, (Hloop _ _ H)|].
  apply bindM_Err in H as [H|(? & ? & [= <- <-] & H)]; [done|].
  apply bindM_Err in H as [H|(? & after & [Ha ->]%liftM_Ok & H)]; [injection H as <- _; by apply marked_refused|].
  apply bindM_Err in H as [H|(? & ? & [_ ->]%requireM_Ok & H)]; [injection H as <- _; by apply marked_refused|].
  apply bindM_Err in H as [H|(? & ? & _ & H)]; [|discriminate H].
  destruct clean as [v|]; [|discriminate H].
  apply bindM_Err in H as [H|(t3 & [] & H3 & H)].
  { apply marked_refused. by eapply preserve_marked in H as [? _]. }
  apply preserve_spec in H3 as (Hx & Hf & Hm).
  do 2 (apply bindM_Err in H as [H|(? & ? & [= <- <-] & H)]; [done|]).
  apply bindM_Err in H as [H|(? & ? & _ & H)]; [|discriminate H].
  unfold liftM in H. injection H as <- Hv. apply invalid_refused.
  - unfold inspect_collection_evidence. cbn [ct_exists ct_manifest]. rewrite Hx. cbn [negb]. unfold any_evidence. cbn [ev_manifest ev_journal ev_incomplete].
    destruct (ct_manifest t3); [|done]. cbn [is_none negb orb]. by rewrite orb_true_r.
  - rewrite (validate_given after); [by rewrite Hv|]. rewrite <- Ha. unfold audit_raw_tree. cbn [ct_files]. by rewrite Hf.
Qed.
End whole.
