(* ===== verification/ReplayResult.v ===== *)
(** * A replayed journal gives what the live run gave

    The events a live run gave to its driver, journalled and stored in any partition
    files, read back in receive-time order and given to a new driver: the bus and the
    runtime get the calls they got live. *)

From S2P Require Import Prelude Effects PyDecimal PyFloat PyTime Models FeatureModels FeatureRows FeatureTree FeatureScan FeatureDisk Clock Timeline TimelineExact TimelineSink RawRecords NormBinance NormOkx Replay Journal.
Open Scope Z_scope.

Section wiring.
Context {E : Type} `{!FeatureSink E} (start close : M E unit).
Context (c : TimelineSettings) (content_identity : event → string).

(** [main.py: run_replay]: events go to the driver, the watermark finishes it. *)
Definition driver_sinks : ReplaySinks (ReceiveTimeFeatureDriver * E) :=
  {| rs_start := sink start; rs_close := sink close; rs_drain := sink bus_drain;
     rs_publish e := sink (bus_publish e); rs_tick := None;
     rs_event := Some (driver_publish c content_identity);
     rs_finish := Some (λ t, driver_finish c (utc <$> t)) |}.

Context {Codec : ReplayCodec} {Laws : JournalLaws}.

(** The variables of the runner between the records of a journal. *)
Record journal_run (d : ReplayRunner) : Prop := {
  jr_end : end_at d = None;
  jr_scheduler : run_scheduler d = None;
  jr_clock : run_clock d = previous_timestamp d }.

(** What a journal record of [e] makes of them. *)
Definition with_event (key : string) (e : event) (d : ReplayRunner) : ReplayRunner :=
  let name := event_type_value (event_type e) in
  {| run_normalizer := run_normalizer d; run_scheduler := run_scheduler d; raw_count := raw_count d + 1;
     normalized_count := normalized_count d + 1; skipped_count := skipped_count d;
     run_event_counts := dict_set name (default 0 (dict_get name (run_event_counts d)) + 1) (run_event_counts d);
     generations := dict_set key (event_generation e) (generations d);
     run_started_at := match run_clock d with None => Some (recv e) | Some _ => run_started_at d end;
     run_finished_at := Some (recv e);
     normalized_started_at := earliest (normalized_started_at d) (recv e);
     normalized_finished_at := newest (normalized_finished_at d) (recv e);
     end_at := end_at d; end_records := end_records d; run_clock := Some (recv e);
     previous_timestamp := Some (recv e) |}.

Lemma clock_run t d (p : ReceiveTimeFeatureDriver * E) :
  journal_run d → (∀ prev, previous_timestamp d = Some prev → prev ≤ t) →
  advance_clock driver_sinks t (d, p) =
    (({| d with run_clock := Some t; previous_timestamp := Some t; run_finished_at := Some t;
         run_started_at := match run_clock d with None => Some t | Some _ => run_started_at d end |}, p), Ok tt).
Proof.
  intros [J1 J2 J3] Hprev. unfold advance_clock.
  rewrite (run_bind getR _ (d, p) (d, p) d) by done.
  assert (∀ cur, cur ≤ t → ReplayClock.advance_to cur (utc t) = Ok t) as Hadv.
  { intros cur Hc. unfold ReplayClock.advance_to, ReplayClock.validated. rewrite as_utc_utc. cbn [mbind res_bind].
    by rewrite (proj2 (Z.ltb_ge t cur)). }
  destruct (run_clock d) as [cur|] eqn:Ec.
  - assert (cur ≤ t) as Hc by (apply Hprev; by rewrite <- J3).
    rewrite <- J3. rewrite (run_bind _ _ (d, p) (d, p) cur).
    + unfold mbind, M_bind, liftM. by rewrite Hadv.
    + unfold mbind, M_bind. destruct (cur <? t); [|done]. unfold emit_ticks, getR, getM, mbind, M_bind, mret, M_ret. cbn [fst].
      by rewrite J2.
  - unfold mbind, M_bind, liftM, ReplayClock.init, ReplayClock.validated. rewrite as_utc_utc. cbn [modifyR modifyM mret M_ret].
    unfold modifyR, modifyM, mret, M_ret. cbn [fst snd]. rewrite Hadv by lia. reflexivity.
Qed.

Lemma entry_run id e d p p' :
  journal_run d → (∀ prev, previous_timestamp d = Some prev → prev ≤ recv e) → model_event e →
  driver_publish c content_identity e p = (p', Ok tt) →
  replay_record driver_sinks RECEIVE_TIME (as_read (event_entry id e)) (d, p) =
    ((with_event (generation_key (event_entry id e)) e d, p'), Ok tt).
Proof using Laws.
  intros J Hprev He Hp. pose proof J as [J1 J2 J3]. unfold replay_record.
  rewrite (run_bind getR _ (d, p) (d, p) d) by done.
  rewrite (run_bind _ _ (d, p) (d, p) tt) by (by rewrite J1).
  rewrite bool_decide_false by done.
  rewrite (run_bind _ _ (d, p) (d, p) None) by done.
  change (replay_timestamp (as_read (event_entry id e)) RECEIVE_TIME) with (recv e).
  rewrite (run_bind _ _ _ _ _ (clock_run (recv e) d p J Hprev)).
  erewrite run_bind by reflexivity.
  erewrite (run_bind _ _ _ _ [e]).
  2: { unfold normalize_in_run, zoomM, normalize_record. rewrite bool_decide_true by done.
       unfold liftM. by rewrite event_entry_events. }
  erewrite run_bind by reflexivity.
  cbn [forM]. unfold replay_event. unfold mbind at 1, M_bind at 1.
  erewrite run_bind by reflexivity.
  erewrite (run_bind _ _ _ _ tt).
  2: { unfold outside, zoomM, driver_sinks. cbn [rs_event snd]. rewrite Hp. reflexivity. }
  unfold modifyR, modifyM, mret, M_ret. cbn [fst snd]. reflexivity.
Qed.

Lemma entries_run l d p p' :
  journal_run d → Forall (λ x, ∀ prev, previous_timestamp d = Some prev → prev ≤ recv x.2) l →
  StronglySorted (λ a b : UUID * event, recv a.2 ≤ recv b.2) l → Forall (λ x, model_event x.2) l →
  forM (driver_publish c content_identity) (map snd l) p = (p', Ok tt) →
  ∃ d', forM (replay_record driver_sinks RECEIVE_TIME) (map (λ x, as_read (event_entry x.1 x.2)) l) (d, p) =
      ((d', p'), Ok tt) ∧ journal_run d' ∧ end_records d' = end_records d ∧
    raw_count d' = raw_count d + Z.of_nat (length l) ∧
    normalized_count d' = normalized_count d + Z.of_nat (length l) ∧ skipped_count d' = skipped_count d ∧
    normalized_finished_at d' = foldl seen_step (normalized_finished_at d) (map snd l).
Proof using Laws.
  revert d p. induction l as [|[id e] l IH]; intros d p J Hprev Hs Hm Hp.
  - injection Hp as <-. exists d. simpl. rewrite !Z.add_0_r. done.
  - cbn [map snd forM] in Hp. apply bindM_Ok in Hp as (p1 & [] & Hp1 & Hp).
    apply Forall_cons in Hprev as [Hpe _], Hm as [He Hm]. inversion Hs as [|?? Hs' Hall]; subst. cbn [snd fst] in *.
    destruct (IH (with_event (generation_key (event_entry id e)) e d) p1) as (d' & Hrun & J' & H1 & H2 & H3 & H4 & H5); [| |done..|].
    + destruct J as [J1 J2 J3]. by split.
    + eapply Forall_impl; [exact Hall|]. intros x Hx prev [= <-]. exact Hx.
    + exists d'. split; [|split; [exact J'|]].
      * cbn [map forM]. by rewrite (run_bind _ _ _ _ _ (entry_run id e d p p1 J Hpe He Hp1)).
      * cbn [with_event end_records raw_count normalized_count skipped_count normalized_finished_at] in *.
        split; [exact H1|]. split; [rewrite H2; simpl length; lia|]. split; [rewrite H3; simpl length; lia|].
        split; [exact H4|]. exact H5.
Qed.

(** ** The end of a journal *)

Lemma marker_run id t d (p : ReceiveTimeFeatureDriver * E) :
  journal_run d → end_records d = 0 →
  ∃ d', replay_record driver_sinks RECEIVE_TIME (as_read (marker_entry id t)) (d, p) = ((d', p), Ok tt) ∧
    end_at d' = Some t ∧ end_records d' = 1 ∧ raw_count d' = raw_count d + 1 ∧
    normalized_count d' = normalized_count d ∧ skipped_count d' = skipped_count d + 1 ∧ run_scheduler d' = None ∧
    normalized_finished_at d' = normalized_finished_at d.
Proof using Laws.
  intros [J1 J2 J3] He. unfold replay_record.
  rewrite (run_bind getR _ (d, p) (d, p) d) by done.
  rewrite (run_bind _ _ (d, p) (d, p) tt) by (by rewrite J1).
  rewrite bool_decide_false by done.
  rewrite (run_bind _ _ (d, p) (d, p) (Some t)) by (unfold liftM; by rewrite marker_entry_end).
  do 2 erewrite run_bind by reflexivity. erewrite (run_bind getR) by reflexivity.
  erewrite (run_bind _ _ _ _ tt).
  2: { unfold requireM, liftM. cbn [fst end_records]. rewrite He. reflexivity. }
  erewrite run_bind by reflexivity. eexists. split; [reflexivity|].
  by repeat split.
Qed.

Lemma finish_replay t d p p' :
  end_at d = Some t → run_scheduler d = None →
  (∀ n, normalized_finished_at d = Some n → n ≤ t) → driver_finish c (Some (utc t)) p = (p', Ok tt) →
  replay_finish driver_sinks (d, p) = ((d, p'), Ok tt).
Proof.
  intros Ht Hs Hn Hp. unfold replay_finish.
  rewrite (run_bind getR _ (d, p) (d, p) d) by done.
  rewrite (run_bind _ _ (d, p) (d, p) tt).
  2: { destruct (previous_timestamp d); [|done]. unfold emit_ticks, getR, getM, mbind, M_bind, mret, M_ret. cbn [fst].
       by rewrite Hs. }
  rewrite (run_bind getR _ (d, p) (d, p) d) by done.
  rewrite (run_bind _ _ (d, p) (d, p) tt).
  2: { unfold requireM, liftM. rewrite Ht. destruct (normalized_finished_at d) as [n|]; [|done].
       by rewrite (proj2 (Z.leb_le n t) (Hn n eq_refl)). }
  unfold driver_sinks, outside, zoomM. cbn [rs_finish snd]. rewrite Ht. cbn [fmap option_fmap option_map].
  by rewrite Hp.
Qed.
End wiring.

(** ** Publishing in order of receipt *)

Section order.
Context (c : TimelineSettings) (content_identity : event → string).
Hypothesis settings_positive : ∀ k, 0 < interval_for c k.
Hypothesis reorder_positive : 0 < receive_time_reorder c.

Definition by_receipt (es : list event) : Prop := StronglySorted (λ a b, recv a ≤ recv b) es.
(** No span of the lateness holds more events than the buffer. *)
Definition within_capacity (es : list event) : Prop :=
  ∀ t, Z.of_nat (length (filter (λ e, t - receive_time_reorder c < recv e ≤ t) es)) ≤ consumer_queue_capacity c.

Lemma by_receipt_app pre es : by_receipt (pre ++ es) → ∀ a b, a ∈ pre → b ∈ es → recv a ≤ recv b.
Proof.
  unfold by_receipt. induction pre as [|x pre IH]; simpl; intros H a b Ha Hb; [by apply elem_of_nil in Ha|].
  inversion H as [|?? Hs Hall]; subst. apply elem_of_cons in Ha as [->|Ha]; [|by apply IH].
  rewrite Forall_forall in Hall. apply Hall, elem_of_app. by right.
Qed.

Lemma ordered_run es pre p :
  at_rest c content_identity pre p → dr_sealed p.1 = false →
  dr_watermark p.1 = (λ m, m - receive_time_reorder c) <$> maximum_received pre →
  by_receipt (pre ++ es) → within_capacity (pre ++ es) →
  ∃ p', forM (run_op c content_identity) (map Publish es) p = (p', Ok tt) ∧ at_rest c content_identity (pre ++ es) p' ∧
    dr_sealed p'.1 = false ∧
    dr_watermark p'.1 = (λ m, m - receive_time_reorder c) <$> maximum_received (pre ++ es).
Proof using settings_positive reorder_positive.
  revert pre p. induction es as [|e es IH]; intros pre p Hr Hs Hw Ho Hcap.
  - exists p. by rewrite (app_nil_r pre).
  - assert (∀ m, maximum_received pre = Some m → m ≤ recv e) as Hle.
    { intros m Hm. pose proof (maximum_received_max pre) as H. rewrite Hm in H. destruct H as [_ H].
      apply Exists_exists in H as (x & Hx & <-). apply (by_receipt_app pre (e :: es) Ho); [done|left]. }
    pose proof (publish_run c content_identity settings_positive pre p e Hr reorder_positive) as H.
    assert (watermark_after (dr_watermark p.1) (recv e - receive_time_reorder c) = recv e - receive_time_reorder c) as Hwa.
    { rewrite Hw. destruct (maximum_received pre) as [m|]; simpl; [|done]. specialize (Hle m eq_refl). lia. }
    assert (publish_error c pre p.1 e = None) as He.
    { unfold publish_error. rewrite Hs, decide_False.
      - rewrite Hwa, (proj2 (Z.leb_gt _ _)); [done|]. specialize (Hcap (recv e)).
        rewrite filter_app, filter_cons, decide_True, length_app in Hcap by lia.
        assert (filter (λ x, recv e - receive_time_reorder c < recv x ≤ recv e) pre =
          ahead (recv e - receive_time_reorder c) pre) as E.
        { unfold ahead. apply list_filter_ext. intros x Hx. simpl.
          pose proof (by_receipt_app pre (e :: es) Ho x e Hx ltac:(left)). lia. }
        rewrite E in Hcap. simpl in Hcap. lia.
      - rewrite Hw. destruct (maximum_received pre) as [m|]; simpl; [|tauto]. specialize (Hle m eq_refl). lia. }
    rewrite He in H. destruct H as (p1 & E & Hr1 & Hw1 & Hs1).
    replace (pre ++ e :: es) with ((pre ++ [e]) ++ es) in * by by rewrite <- app_assoc.
    assert (maximum_received (pre ++ [e]) = seen_step (maximum_received pre) e) as Hm by (unfold maximum_received; apply foldl_snoc).
    destruct (IH (pre ++ [e]) p1) as (p2 & E2 & H2); try done.
    + rewrite Hw1, Hwa, Hm. unfold seen_step. destruct (maximum_received pre) as [m|]; simpl; [|done].
      specialize (Hle m eq_refl). f_equal. lia.
    + exists p2. split; [|done]. cbn [map forM]. unfold mbind, M_bind. cbn [run_op run_op_on]. by rewrite E.
Qed.
End order.

(** ** The journal on disk *)

Section files.
Context {Codec : ReplayCodec}.
Abbreviation entry_read := (λ x : UUID * event, as_read (event_entry x.1 x.2)).

(** A scan of the journal gives the events in order of receipt, then the marker. *)
Lemma journal_scan n files entries id w others :
  Forall (λ x : UUID * event, is_uuid x.1 = true ∧ model_event x.2) entries → is_uuid id = true →
  Forall raw_wf others → Forall (λ r, channel r ≠ NORMALIZED_EVENT_JOURNAL_CHANNEL) others →
  stored files (map (λ x, event_entry x.1 x.2) entries ++ marker_entry id w :: others) →
  ∃ sorted, sorted ≡ₚ entries ∧ by_receipt (map snd sorted) ∧
    iter_raw_records (S n) journal_filter RECEIVE_TIME files =
      Ok (map entry_read sorted ++ [as_read (marker_entry id w)]).
Proof.
  intros He Hid Hw Hc Hst.
  destruct (stored_read files _ Hst) as (rss & Hrss & Hp).
  { apply Forall_app. split; [|constructor; [by apply marker_entry_wf|done]]. apply Forall_fmap.
    eapply Forall_impl; [exact He|]. intros x [H1 H2]. by apply event_entry_wf. }
  rewrite iter_raw_records_spec by lia. rewrite Hrss. cbn [mbind res_bind].
  set (L := filter _ (concat rss)).
  assert (L ≡ₚ map entry_read entries ++ [as_read (marker_entry id w)]) as HL.
  { unfold L. rewrite Hp. rewrite map_app, map_map. cbn [map]. rewrite filter_app, filter_cons, decide_True by by rewrite journal_matches.
    rewrite list_filter_all, list_filter_none; [done| |].
    - apply Forall_fmap. eapply Forall_impl; [exact Hc|]. intros r Hr. unfold compose. rewrite journal_matches.
      by rewrite bool_decide_false.
    - apply Forall_fmap. eapply Forall_impl; [exact He|]. intros x _. unfold compose. by rewrite journal_matches. }
  clearbody L. clear Hp Hrss rss Hst.
  set (recs := py_sorted (record_leb RECEIVE_TIME) L).
  assert (recs ≡ₚ map entry_read entries ++ [as_read (marker_entry id w)]) as Hrecs
    by (unfold recs; by rewrite py_sorted_perm).
  assert (as_read (marker_entry id w) ∈ recs) as Hin by (rewrite Hrecs; apply elem_of_app; right; left).
  apply list_elem_of_split in Hin as (a & b & Eab).
  assert (a ++ b ≡ₚ map entry_read entries) as Hab.
  { rewrite Eab in Hrecs. rewrite <- Permutation_middle, (Permutation_app_comm (map _ _)) in Hrecs. cbn [app] in Hrecs.
    by apply Permutation_cons_inv in Hrecs. }
  pose proof (record_leb_sorted RECEIVE_TIME L) as Hsort. fold recs in Hsort. rewrite Eab in Hsort.
  assert (b = []) as ->.
  { destruct b as [|r b]; [done|]. exfalso.
    assert (r ∈ map entry_read entries) as Hr by (rewrite <- Hab; apply elem_of_app; right; left).
    apply list_elem_of_fmap in Hr as (x & -> & _).
    apply StronglySorted_app_inv in Hsort as (_ & Hsb & _). inversion Hsb as [|?? _ Hall]; subst.
    apply Forall_cons in Hall as [H%record_leb_priority _]. by vm_compute in H. }
  rewrite app_nil_r in Hab. apply Permutation_map_inv in Hab as (sorted & Ea & Hp).
  exists sorted. split; [by symmetry|]. split; [|by rewrite Eab, Ea].
  apply StronglySorted_app_inv in Hsort as (Hsort & _). rewrite Ea in Hsort. clear -Hsort. unfold by_receipt.
  induction sorted as [|x l IH]; [constructor|]. cbn [map] in *. inversion Hsort as [|?? Hs Hall]; subst.
  constructor; [by apply IH|]. apply Forall_fmap. apply Forall_fmap in Hall. eapply Forall_impl; [exact Hall|].
  intros y Hy. unfold compose in *. by apply (record_leb_time _ _ Hy).
Qed.
End files.

(** ** The live run and the replay *)

Lemma within_capacity_perm c es es' : es ≡ₚ es' → within_capacity c es → within_capacity c es'.
Proof. intros Hp H t. by rewrite <- Hp. Qed.

Section result.
Context {E : Type} `{!FeatureSink E} (start close : M E unit).
Context (c : TimelineSettings) (content_identity : event → string).
Hypothesis settings_positive : ∀ k, 0 < interval_for c k.
Hypothesis reorder_positive : 0 < receive_time_reorder c.

Lemma sealed_calls es d tr w :
  at_rest c content_identity es (d, tr) → dr_sealed d = true → dr_watermark d = Some w →
  timeline_calls c content_identity es w = Ok (calls_of tr) ∧ Forall (λ e, recv e ≤ w) es.
Proof using settings_positive.
  intros Hr Hs Hw. destruct (rest_calls c content_identity settings_positive es d tr Hr) as (C & _).
  destruct (sealed_all c content_identity settings_positive es d tr Hr Hs) as [F _].
  pose proof (proj2 Hr Hs) as Hall. cbn [fst] in Hall. rewrite Hw in *. by rewrite F in C.
Qed.

(** Publishing in order of receipt and finishing at the watermark [w] of another run. *)
Lemma ordered_finish es w :
  by_receipt es → within_capacity c es → Forall (λ e, recv e ≤ w) es →
  ∃ d tr, forM (run_op c content_identity) (map Publish es ++ [Finish (Some (utc w))]) (driver_init, []) =
      ((d, tr), Ok tt) ∧
    at_rest c content_identity es (d, tr) ∧ dr_sealed d = true ∧ dr_watermark d = Some w.
Proof using settings_positive reorder_positive.
  intros Ho Hcap Hall.
  destruct (ordered_run c content_identity settings_positive reorder_positive es [] (driver_init, [])
    (at_rest_init c content_identity) eq_refl eq_refl Ho Hcap) as (p1 & E1 & Hr1 & Hs1 & Hw1).
  destruct (finish_run c content_identity settings_positive es p1 (Some (utc w)) (Some w) Hr1)
    as ([d tr] & E2 & Hr2 & Hs2 & Hw2); [by unfold timeline_utc; rewrite as_utc_utc|].
  exists d, tr. split.
  - apply forM_app. exists p1. split; [exact E1|]. cbn [forM run_op run_op_on]. by rewrite (run_bind _ _ _ _ _ E2).
  - split; [exact Hr2|]. split; [exact Hs2|]. cbn [fst] in Hw2. rewrite Hw2. unfold finish_watermark, finish_target.
    rewrite Hs1. cbn [app] in Hw1. rewrite Hw1. pose proof (maximum_received_max es) as Hm.
    destruct (maximum_received es) as [m|]; [|done]. destruct Hm as [_ Hm%Exists_exists].
    destruct Hm as (x & Hx & <-). rewrite Forall_forall in Hall. specialize (Hall x Hx). simpl in *. f_equal. lia.
Qed.

Context {Codec : ReplayCodec} {Laws : JournalLaws}.
Abbreviation sinks := (driver_sinks start close c content_identity).
Abbreviation entry_read := (λ x : UUID * event, as_read (event_entry x.1 x.2)).

(** The records of a journal in order, and what ends them. *)
Lemma journal_body l id w r e0 e e' d :
  start e0 = (e, Ok tt) → run_scheduler r = None → by_receipt (map snd l) → Forall (λ x, model_event x.2) l →
  Forall (λ x, recv x.2 ≤ w) l →
  forM (run_op_on c content_identity) (map Publish (map snd l) ++ [Finish (Some (utc w))]) (driver_init, e) =
    ((d, e'), Ok tt) →
  ∃ r', replay_body sinks RECEIVE_TIME {| items := map entry_read l ++ [as_read (marker_entry id w)]; failure := None |}
      (runner_begin (run_normalizer r) (run_scheduler r), (driver_init, e0)) = ((r', (d, e')), Ok tt) ∧
    normalized_count r' = Z.of_nat (length l) ∧ raw_count r' = Z.of_nat (length l) + 1 ∧ skipped_count r' = 1 ∧
    end_records r' = 1 ∧ end_at r' = Some w.
Proof using Laws.
  intros Hstart Hsch Ho Hm Hall Hrun. apply forM_app in Hrun as ([d1 e1] & Hpub & Hfin).
  cbn [forM run_op_on] in Hfin. apply bindM_Ok in Hfin as (p2 & [] & Hfin & [= ->]).
  assert (forM (driver_publish c content_identity) (map snd l) (driver_init, e) = ((d1, e1), Ok tt)) as Hpub'.
  { rewrite <- Hpub. clear. generalize (driver_init, e). induction l as [|x l IH]; intros p; [done|].
    cbn [map forM run_op_on]. unfold mbind, M_bind. destruct (driver_publish _ _ _ p) as [q [[]|]]; [apply IH|done]. }
  rewrite Hsch.
  destruct (entries_run start close c content_identity l (runner_begin (run_normalizer r) None) (driver_init, e) (d1, e1))
    as (r1 & E1 & J1 & H1 & H2 & H3 & H4 & H5); try done.
  - by apply Forall_true.
  - clear -Ho. unfold by_receipt in Ho. induction l as [|x l IH]; [constructor|]. cbn [map] in Ho.
    inversion Ho as [|?? Hs Hx]; subst. constructor; [by apply IH|]. exact (proj1 (List.Forall_map snd _ l) Hx).
  - destruct (marker_run start close c content_identity id w r1 (d1, e1) J1) as (r2 & E2 & M1 & M2 & M3 & M4 & M5 & M6 & M7);
      [by rewrite H1|].
    exists r2. split; [|rewrite M1, M2, M3, M4, M5, H2, H3, H4; simpl; by split_and!; [lia|lia| | |]].
    unfold replay_body. erewrite (run_bind _ _ _ _ tt).
    2: { unfold outside, zoomM, driver_sinks, sink. cbn [rs_start snd]. unfold zoomM. cbn [snd]. rewrite Hstart. reflexivity. }
    cbn [items failure fst]. erewrite (run_bind _ _ _ _ tt).
    2: { apply forM_app. eexists. split; [exact E1|]. cbn [forM]. rewrite (run_bind _ _ _ _ _ E2). reflexivity. }
    erewrite run_bind by reflexivity. eapply finish_replay; [exact M1|exact M6| |exact Hfin].
    intros n Hn. rewrite M7, H5 in Hn. cbn [normalized_finished_at runner_begin] in Hn.
    pose proof (maximum_received_max (map snd l)) as Hmax. unfold maximum_received in Hmax. rewrite Hn in Hmax.
    destruct Hmax as [_ (x & Hx & <-)%Exists_exists]. apply list_elem_of_fmap in Hx as (y & -> & Hy).
    rewrite Forall_forall in Hall. by apply Hall.
Qed.

(** A live run that finished, its events journalled with the end of its timeline and the
    journal stored among other raw records in any partition files: the live run and the
    replay of the journal, each on a started bus and runtime, both end and leave them in
    the same state, and the replay counts each event once. *)
Lemma journal_replay_same_state live d tr w entries id others files n calls_end e0 e e2 scheduler speed r :
  forM (run_op c content_identity) live (driver_init, []) = ((d, tr), Ok tt) →
  dr_sealed d = true → dr_watermark d = Some w →
  let es := omap op_event live in
  map snd entries = es →
  Forall (λ x : UUID * event, is_uuid x.1 = true ∧ model_event x.2) entries → is_uuid id = true →
  (∀ a b, a ∈ es → b ∈ es → event_key content_identity a = event_key content_identity b → a = b) →
  within_capacity c es →
  Forall raw_wf others → Forall (λ r, channel r ≠ NORMALIZED_EVENT_JOURNAL_CHANNEL) others →
  stored files (map (λ x, event_entry x.1 x.2) entries ++ marker_entry id w :: others) →
  bus_drain = mret tt → start e0 = (e, Ok tt) → forM call (calls_of tr) e = (calls_end, Ok tt) →
  close calls_end = (e2, Ok tt) → mk_runner sinks scheduler speed = Ok r →
  (∃ d1, forM (run_op_on c content_identity) live (driver_init, e) = ((d1, calls_end), Ok tt)) ∧
  ∃ records r' d' s,
    iter_raw_records (S n) journal_filter RECEIVE_TIME files = Ok records ∧
    replay_run sinks RECEIVE_TIME {| items := records; failure := None |} (r, (driver_init, e0)) =
      ((r', (d', e2)), Summary s) ∧
    normalized_events s = Z.of_nat (length es) ∧ raw_records s = Z.of_nat (length es) + 1 ∧ skipped_records s = 1 ∧
    feature_timeline_end_records s = 1 ∧ feature_timeline_end_at s = Some w.
Proof using settings_positive reorder_positive Laws.
  intros Hlive Hs Hw es Hentries Hent Hid Hk Hcap Hoth Hch Hst Hd Hstart Hcalls Hclose Hr.
  pose proof (run_ops_rest c content_identity settings_positive live [] _ _ reorder_positive
    (at_rest_init c content_identity) Hlive) as Hrest. change (omap op_event live) with es in Hrest. cbn [app] in Hrest.
  destruct (sealed_calls es d tr w Hrest Hs Hw) as [C Hall].
  rewrite (calls_of_run tr e Hd) in Hcalls. split.
  { exists d. by apply (sink_runs_the_trace c content_identity live d tr e calls_end Hlive). }
  destruct (journal_scan n files entries id w others Hent Hid Hoth Hch Hst) as (sorted & Hp & Ho & Hscan).
  assert (es ≡ₚ map snd sorted) as Hpe by (rewrite <- Hentries; by apply Permutation_map; symmetry).
  assert (Forall (λ e, recv e ≤ w) (map snd sorted)) as Hall' by by rewrite <- Hpe.
  destruct (ordered_finish (map snd sorted) w Ho (within_capacity_perm c _ _ Hpe Hcap) Hall')
    as (d' & tr' & Erun & Hr' & Hs' & Hw').
  destruct (sealed_calls _ d' tr' w Hr' Hs' Hw') as [C' _].
  rewrite <- (timeline_calls_perm c content_identity es _ w Hpe Hk), C in C'. injection C' as C'.
  pose proof (sink_runs_the_trace c content_identity _ d' tr' e calls_end Erun) as Hsink.
  rewrite <- (calls_of_run tr' e Hd), <- C', (calls_of_run tr e Hd) in Hsink. specialize (Hsink Hcalls).
  assert (run_scheduler r = None) as Hsch.
  { unfold mk_runner in Hr. inv_res. subst r. destruct scheduler; [discriminate|done]. }
  destruct (journal_body sorted id w r e0 e calls_end d') as (r' & Ebody & N1 & N2 & N3 & N4 & N5); try done.
  - rewrite Hp. eapply Forall_impl; [exact Hent|]. by intros x [].
  - exact (proj1 (List.Forall_map snd _ sorted) Hall').
  - exists (map entry_read sorted ++ [as_read (marker_entry id w)]), r', d', (summary sinks r').
    split; [exact Hscan|]. split.
    + unfold replay_run. cbn [fst snd]. rewrite Ebody. unfold outside, zoomM, driver_sinks, sink. cbn [rs_close snd fst].
      unfold zoomM. cbn [snd fst]. by rewrite Hclose.
    + assert (length es = length sorted) as -> by (rewrite Hpe; apply length_map).
      cbn [summary normalized_events raw_records skipped_records feature_timeline_end_records feature_timeline_end_at].
      by split_and!.
Qed.
End result.
