(* ===== verification/EventWire.v ===== *)
(** * A concrete journal codec

    The journal takes the text of an event and of an end marker as parameters and relies
    on their round trip.  This file gives a codec with that property, written like the
    payload codec of the snapshots, so that a replay can be evaluated. *)

From S2P Require Import Prelude PyDecimal PyFloat Models Timeline FeatureWire RawRecords NormBinance NormOkx Replay Journal.
Open Scope Z_scope.

#[export] Instance wire_AggressorSide : Wire AggressorSide.
Proof.
  refine (wire_via (B := Z)
    (λ x, match x with BUY => 0 | SELL => 1 end)
    (λ n, match n with 0 => Some BUY | 1 => Some SELL | _ => None end) _).
  by intros [].
Defined.

#[export] Instance wire_Trade : Wire Trade.
Proof.
  refine (wire_via (B := metadata * (string * (decimal * (decimal * (option decimal * (AggressorSide))))))
    (λ r, (trade_meta r, (trade_id r, (trade_price r, (trade_quantity r, (trade_contract_quantity r, aggressor_side r))))))
    (λ '(x0, (x1, (x2, (x3, (x4, x5))))), Some {| trade_meta := x0; trade_id := x1; trade_price := x2; trade_quantity := x3; trade_contract_quantity := x4; aggressor_side := x5 |}) _).
  by intros [].
Defined.

#[export] Instance wire_OrderBookLevel : Wire OrderBookLevel.
Proof.
  refine (wire_via (B := decimal * (decimal))
    (λ r, (level_price r, level_quantity r))
    (λ '(x0, x1), Some {| level_price := x0; level_quantity := x1 |}) _).
  by intros [].
Defined.

#[export] Instance wire_OrderBookSnapshot : Wire OrderBookSnapshot.
Proof.
  refine (wire_via (B := metadata * (list OrderBookLevel * (list OrderBookLevel * (Z * (option string * (Z))))))
    (λ r, (snapshot_meta r, (snapshot_bids r, (snapshot_asks r, (snapshot_depth r, (snapshot_checksum r, snapshot_generation r))))))
    (λ '(x0, (x1, (x2, (x3, (x4, x5))))), Some {| snapshot_meta := x0; snapshot_bids := x1; snapshot_asks := x2; snapshot_depth := x3; snapshot_checksum := x4; snapshot_generation := x5 |}) _).
  by intros [].
Defined.

#[export] Instance wire_OrderBookUpdate : Wire OrderBookUpdate.
Proof.
  refine (wire_via (B := metadata * (list OrderBookLevel * (list OrderBookLevel * (option seq_id * (option string * (Z))))))
    (λ r, (update_meta r, (update_bids r, (update_asks r, (previous_sequence_id r, (update_checksum r, update_generation r))))))
    (λ '(x0, (x1, (x2, (x3, (x4, x5))))), Some {| update_meta := x0; update_bids := x1; update_asks := x2; previous_sequence_id := x3; update_checksum := x4; update_generation := x5 |}) _).
  by intros [].
Defined.

#[export] Instance wire_BestBidAsk : Wire BestBidAsk.
Proof.
  refine (wire_via (B := metadata * (decimal * (decimal * (decimal * (decimal)))))
    (λ r, (bba_meta r, (bid_price r, (bid_quantity r, (ask_price r, ask_quantity r)))))
    (λ '(x0, (x1, (x2, (x3, x4)))), Some {| bba_meta := x0; bid_price := x1; bid_quantity := x2; ask_price := x3; ask_quantity := x4 |}) _).
  by intros [].
Defined.

#[export] Instance wire_OpenInterest : Wire OpenInterest.
Proof.
  refine (wire_via (B := metadata * (decimal * (option decimal * (option decimal))))
    (λ r, (oi_meta r, (open_interest_contracts r, (open_interest_base r, open_interest_quote r))))
    (λ '(x0, (x1, (x2, x3))), Some {| oi_meta := x0; open_interest_contracts := x1; open_interest_base := x2; open_interest_quote := x3 |}) _).
  by intros [].
Defined.

#[export] Instance wire_FundingRate : Wire FundingRate.
Proof.
  refine (wire_via (B := metadata * (decimal * (option Z)))
    (λ r, (funding_meta r, (funding_rate r, next_funding_timestamp r)))
    (λ '(x0, (x1, x2)), Some {| funding_meta := x0; funding_rate := x1; next_funding_timestamp := x2 |}) _).
  by intros [].
Defined.

#[export] Instance wire_MarkPrice : Wire MarkPrice.
Proof.
  refine (wire_via (B := metadata * (decimal))
    (λ r, (mark_meta r, mark_price r))
    (λ '(x0, x1), Some {| mark_meta := x0; mark_price := x1 |}) _).
  by intros [].
Defined.

#[export] Instance wire_IndexPrice : Wire IndexPrice.
Proof.
  refine (wire_via (B := metadata * (decimal))
    (λ r, (index_meta r, index_price r))
    (λ '(x0, x1), Some {| index_meta := x0; index_price := x1 |}) _).
  by intros [].
Defined.

#[export] Instance wire_LiquidatedPositionSide : Wire LiquidatedPositionSide.
Proof.
  refine (wire_via (B := Z)
    (λ x, match x with LONG => 0 | SHORT => 1 end)
    (λ n, match n with 0 => Some LONG | 1 => Some SHORT | _ => None end) _).
  by intros [].
Defined.

#[export] Instance wire_LiquidationEvent : Wire LiquidationEvent.
Proof.
  refine (wire_via (B := metadata * (option string * (LiquidatedPositionSide * (decimal * (decimal * (option decimal))))))
    (λ r, (liquidation_meta r, (liquidation_id r, (position_side r, (liquidation_price r, (liquidation_quantity r, liquidation_contract_quantity r))))))
    (λ '(x0, (x1, (x2, (x3, (x4, x5))))), Some {| liquidation_meta := x0; liquidation_id := x1; position_side := x2; liquidation_price := x3; liquidation_quantity := x4; liquidation_contract_quantity := x5 |}) _).
  by intros [].
Defined.

#[export] Instance wire_HealthStatus : Wire HealthStatus.
Proof.
  refine (wire_via (B := Z)
    (λ x, match x with CONNECTED => 0 | DEGRADED => 1 | STALE => 2 | RESYNCING => 3 | DISCONNECTED => 4 end)
    (λ n, match n with 0 => Some CONNECTED | 1 => Some DEGRADED | 2 => Some STALE | 3 => Some RESYNCING | 4 => Some DISCONNECTED | _ => None end) _).
  by intros [].
Defined.

#[export] Instance wire_ExchangeHealth : Wire ExchangeHealth.
Proof.
  refine (wire_via (B := metadata * (string * (HealthStatus * (bool * (option Z * (option float * (option float * (option float * (option float * (option float * (Z * (Z * (Z * (Z * (Z * (Z * (Z * (Z * (Z * (bool * (bool * (Z * (bool * (bool * (option string)))))))))))))))))))))))))
    (λ r, (health_meta r, (health_channel r, (health_status r, (health_is_connected r, (health_last_event_timestamp r, (health_last_latency_ms r, (health_average_latency_ms r, (health_maximum_latency_ms r, (health_last_normalization_latency_ms r, (health_clock_skew_ms r, (health_messages_received r, (health_duplicate_events r, (health_sequence_gaps r, (health_checksum_failures r, (health_reconnects r, (health_resubscriptions r, (health_parse_errors r, (health_dropped_events r, (health_backpressure_events r, (health_sequence_gap_detected r, (health_resyncing r, (health_book_generation r, (health_rest_healthy r, (health_open_interest_stale r, health_last_error r)))))))))))))))))))))))))
    (λ '(x0, (x1, (x2, (x3, (x4, (x5, (x6, (x7, (x8, (x9, (x10, (x11, (x12, (x13, (x14, (x15, (x16, (x17, (x18, (x19, (x20, (x21, (x22, (x23, x24)))))))))))))))))))))))), Some {| health_meta := x0; health_channel := x1; health_status := x2; health_is_connected := x3; health_last_event_timestamp := x4; health_last_latency_ms := x5; health_average_latency_ms := x6; health_maximum_latency_ms := x7; health_last_normalization_latency_ms := x8; health_clock_skew_ms := x9; health_messages_received := x10; health_duplicate_events := x11; health_sequence_gaps := x12; health_checksum_failures := x13; health_reconnects := x14; health_resubscriptions := x15; health_parse_errors := x16; health_dropped_events := x17; health_backpressure_events := x18; health_sequence_gap_detected := x19; health_resyncing := x20; health_book_generation := x21; health_rest_healthy := x22; health_open_interest_stale := x23; health_last_error := x24 |}) _).
  by intros [].
Defined.

#[export] Instance wire_event : Wire event.
Proof.
  refine {|
  put e rest := match e with
    | ETrade x => put 0 (put x rest)
    | EBookSnapshot x => put 1 (put x rest)
    | EBookUpdate x => put 2 (put x rest)
    | EBestBidAsk x => put 3 (put x rest)
    | EOpenInterest x => put 4 (put x rest)
    | EFundingRate x => put 5 (put x rest)
    | EMarkPrice x => put 6 (put x rest)
    | EIndexPrice x => put 7 (put x rest)
    | ELiquidation x => put 8 (put x rest)
    | EHealth x => put 9 (put x rest)
    end;
  get s := match get s with
    | Some (0, s) => match get (A := Trade) s with Some (x, s) => Some (ETrade x, s) | None => None end
    | Some (1, s) => match get (A := OrderBookSnapshot) s with Some (x, s) => Some (EBookSnapshot x, s) | None => None end
    | Some (2, s) => match get (A := OrderBookUpdate) s with Some (x, s) => Some (EBookUpdate x, s) | None => None end
    | Some (3, s) => match get (A := BestBidAsk) s with Some (x, s) => Some (EBestBidAsk x, s) | None => None end
    | Some (4, s) => match get (A := OpenInterest) s with Some (x, s) => Some (EOpenInterest x, s) | None => None end
    | Some (5, s) => match get (A := FundingRate) s with Some (x, s) => Some (EFundingRate x, s) | None => None end
    | Some (6, s) => match get (A := MarkPrice) s with Some (x, s) => Some (EMarkPrice x, s) | None => None end
    | Some (7, s) => match get (A := IndexPrice) s with Some (x, s) => Some (EIndexPrice x, s) | None => None end
    | Some (8, s) => match get (A := LiquidationEvent) s with Some (x, s) => Some (ELiquidation x, s) | None => None end
    | Some (9, s) => match get (A := ExchangeHealth) s with Some (x, s) => Some (EHealth x, s) | None => None end
    | _ => None
    end |}.
  intros [] rest; cbv beta iota; by rewrite !get_put.
Defined.

(** Reading validates what was read, as the models do. *)
#[export] Instance wire_journal : JournalCodec := {|
  event_json e := put e EmptyString;
  validate_event_json s := e ← read_as s; validate_event e;
  marker_json t := put t EmptyString;
  validate_marker_json s := read_as s |}.

Lemma wire_journal_laws : @JournalLaws wire_journal.
Proof.
  split; intros x.
  - intros Hx. exact (read_then validate_event x (Ok x) Hx).
  - exact (read_as_put x).
Qed.
