(* ===== verification/ReplayDemo.v ===== *)
(** * A replay evaluated

    The live run of three events on the runtime, and the records of its journal among a
    market record. *)

From S2P Require Import Prelude Effects PyDecimal PyFloat PyTime Models FeatureModels FeatureRows FeatureTree FeatureRuntime RuntimeResult Clock Timeline TimelineExact TimelineSink RuntimeDemo RawRecords NormBinance NormOkx Replay Journal EventWire ReplayResult.
Open Scope Z_scope.

#[export] Instance demo_replay : ReplayCodec := {|
  replay_journal := wire_journal;
  json_loads _ := Err (ValueError "no JSON");
  binance_validate _ _ := Err (ValueError "no payload");
  okx_validate _ _ := Err (ValueError "no payload") |}.
#[export] Instance demo_laws : @JournalLaws replay_journal := wire_journal_laws.

Definition live_ops : list driver_op := map Publish tl_order1 ++ [Finish None].
Definition live_end := Eval vm_compute in (forM (run_op tl_settings tl_identity) live_ops (driver_init, [])).1.

Lemma live_run : forM (run_op tl_settings tl_identity) live_ops (driver_init, []) = (live_end, Ok tt).
Proof. vm_compute. reflexivity. Qed.

Definition journal_entries : list (UUID * event) :=
  zip ["00000000000040008000000000000001"; "00000000000040008000000000000002";
       "00000000000040008000000000000003"]%string tl_order1.
Definition marker_id : UUID := "00000000000040008000000000000000".

Definition market_record : RawMarketRecord :=
  {| record_id := "00000000000040008000000000000004"; rr_exchange := OKX; rr_symbol := "BTC-USDT-PERP";
     channel := "mark-price"; message_kind := "market_data"; transport := Websocket;
     rr_exchange_timestamp := None; rr_local_receive_timestamp := 5000000; rr_normalization_timestamp := None;
     rr_sequence_id := None; connection_generation := 0; raw_payload := "{}" |}.

Definition journal_rows : list RawMarketRecord :=
  map (λ x : UUID * event, event_entry x.1 x.2) journal_entries ++ [marker_entry marker_id 5100000; market_record].

Lemma capacity_ok : within_capacity tl_settings tl_order1.
Proof. intros t. pose proof (length_filter (λ e, t - receive_time_reorder tl_settings < recv e ≤ t) tl_order1) as H. simpl in *. lia. Qed.

Definition no_bus : M (FeatureRuntime * list PersistableFeatureSnapshot) unit := mret tt.
Abbreviation demo_sinks := (driver_sinks no_bus no_bus tl_settings tl_identity).
