(* ===== verification/Collected.v ===== *)
(** * A collection that ended

    [collector.py: MarketDataCollector.run] after its shutdown: the tree is audited, the
    journal compared with the counts, and the manifest completed.  A collection whose
    writer was closed by the shutdown completes, validates and is replayed from its journal
    to the state the live run reached. *)

From S2P Require Import Prelude Effects PyDecimal PyFloat PyTime Models FeatureModels Fingerprint FeatureRows FeatureTree FeatureScan FeatureDisk Clock Timeline TimelineExact TimelineSink RawRecords RawTree RawWriter RawAudits RawStore NormBinance NormOkx Replay Journal Collection RawCompact ReplayResult.
From Stdlib Require Import Ascii.
Open Scope Z_scope.

(** ** Digests *)

Lemma hex_digit_lower n : lower_hex_char (hex_digit (n mod 16)) = true.
Proof.
  assert (0 ≤ n mod 16 < 16) as H by (apply Z.mod_pos_bound; lia). revert H. generalize (n mod 16). intros d Hd.
  assert (d = 0 ∨ d = 1 ∨ d = 2 ∨ d = 3 ∨ d = 4 ∨ d = 5 ∨ d = 6 ∨ d = 7 ∨ d = 8 ∨ d = 9 ∨ d = 10 ∨ d = 11 ∨ d = 12 ∨
    d = 13 ∨ d = 14 ∨ d = 15) as Hc by lia.
  destruct_or! Hc; subst d; reflexivity.
Qed.

Lemma hex_digest_pattern n : sha256_pattern (hex_digest n) = true.
Proof.
  unfold sha256_pattern, hex_digest. rewrite <- Lineage.chars_length, chars_of_chars, fixed_digits_length. cbn [Nat.eqb andb].
  generalize 64%nat. intros w. revert n. induction w as [|w IH]; intros n; [done|]. cbn [fixed_digits].
  rewrite forallb_app, IH. cbn [forallb andb]. by rewrite hex_digit_lower.
Qed.

Section complete.
Context {Codec : ReplayCodec} {Laws : JournalLaws} {MC : ManifestCodec} {MLaws : ManifestLaws} (row_hash : RawRow → Z).

(** ** Completion *)

(** [counted] is the sum of [_event_counts]. *)
Definition complete_collection (fault : option write_fault) (id : UUID) (counted : Z) (timeline_end finished : Z)
    : TM CollectionManifest :=
  t ← getM;
  audited ← liftM (audit_raw_tree row_hash t);
  journal ← liftM (audit_normalized_journal false t);
  _ ← requireM ((ja_event_count journal =? counted) && (ja_marker_at journal =? timeline_end))
        (RuntimeError "normalized journal did not reconcile collection completion");
  complete_collection_manifest fault id (utc finished) (utc timeline_end) counted audited.

Lemma logical_audit_of n rows : ∃ logical, from_raw_audit (audit_of row_hash n rows) = Ok logical ∧ mk_logical_audit logical = Ok logical.
Proof using Type.
  assert (0 ≤ row_sum payload_bytes rows) as Hb.
  { induction rows as [|r rows IH]; [done|]. simpl. fold (row_sum payload_bytes rows). unfold payload_bytes at 1. lia. }
  unfold from_raw_audit, audit_of. cbn [ra_rows ra_unique_record_ids ra_content_digest ra_payload_bytes ra_partitions].
  set (a := Build_RawLogicalAudit _ _ _ _ _). assert (mk_logical_audit a = Ok a) as H; [|by exists a].
  unfold mk_logical_audit, a. cbn [la_rows la_unique_record_ids la_payload_bytes la_partitions la_content_digest forallb].
  rewrite hex_digest_pattern. rewrite !(proj2 (Z.leb_le 0 _)) by lia. reflexivity.
Qed.

(** ** The journal's audit *)

Abbreviation entry_read := (λ x : UUID * event, as_read (event_entry x.1 x.2)).

Lemma journal_entries_run l m j w :
  Forall (λ x : UUID * event, model_event x.2) l → Forall (λ x : UUID * event, recv x.2 ≤ w) l →
  jo_markers j = 0 → given (jo_latest j) (λ l, l <=? w) = true →
  ∃ j', forM journal_step (map entry_read l) (m, j) = ((m, j'), Ok tt) ∧ jo_events j' = jo_events j + Z.of_nat (length l) ∧
    jo_markers j' = 0 ∧ jo_marker_at j' = jo_marker_at j ∧ given (jo_latest j') (λ l, l <=? w) = true.
Proof using Laws.
  intros Hm. revert j. induction Hm as [|x l Hx _ IH]; intros j Hw Hj Hlat.
  { exists j. simpl. rewrite Z.add_0_r. done. }
  apply Forall_cons in Hw as [Hxw Hw]. cbn [map forM].
  set (j1 := {| j with jo_latest := newest (jo_latest j) (recv x.2); jo_events := jo_events j + 1 |}).
  assert (journal_step (entry_read x) (m, j) = ((m, j1), Ok tt)) as Estep.
  { unfold journal_step. rewrite (run_bind getM _ (m, j) _ _ eq_refl). cbv beta. cbn [snd].
    rewrite bool_decide_false by discriminate. rewrite Hj. run_step.
    assert (normalize_record (entry_read x) m = (m, Ok [x.2])) as En.
    { unfold normalize_record. rewrite bool_decide_true by done. unfold liftM. by rewrite event_entry_events. }
    erewrite run_bind.
    2: { unfold attempt, zoomM. cbn [fst]. rewrite En. reflexivity. }
    reflexivity. }
  rewrite (run_bind _ _ _ _ _ Estep). destruct (IH j1 Hw Hj) as (j' & E1 & E2 & E3 & E4 & E5).
  { unfold j1, newest. cbn [jo_latest given]. apply Z.leb_le. destruct (jo_latest j) as [y|]; [|exact Hxw].
    apply Z.leb_le in Hlat. lia. }
  exists j'. rewrite E1, E2, E4. unfold j1. cbn [jo_events jo_marker_at length]. split; [done|]. split; [lia|done].
Qed.

Lemma journal_audited t entries id w b :
  has_channel NORMALIZED_EVENT_JOURNAL_CHANNEL t = true →
  (∃ sorted, sorted ≡ₚ entries ∧
    iter_raw_records READER_BATCH journal_filter RECEIVE_TIME (ct_files t) = Ok (map entry_read sorted ++ [as_read (marker_entry id w)])) →
  Forall (λ x : UUID * event, model_event x.2) entries → Forall (λ x : UUID * event, recv x.2 ≤ w) entries →
  (b = true → entries ≠ []) →
  audit_normalized_journal b t =
    Ok {| ja_event_count := Z.of_nat (length entries); ja_marker_count := 1; ja_marker_at := w |}.
Proof using Laws.
  intros Hc (sorted & Hp & Hi) Hm Hw Hb. unfold audit_normalized_journal. rewrite Hc, Hi. cbn [require mbind res_bind].
  rewrite <- Hp in Hm, Hw. set (j0 := Build_journal_state _ _ _ _).
  destruct (journal_entries_run sorted normalizer_init j0 w Hm Hw eq_refl eq_refl) as (j & E1 & E2 & E3 & E4 & E5).
  unfold execM.
  assert (forM journal_step (map entry_read sorted ++ [as_read (marker_entry id w)]) (normalizer_init, j0) =
    ((normalizer_init, {| j with jo_markers := 1; jo_marker_at := Some w |}), Ok tt)) as ->.
  { apply forM_app. exists (normalizer_init, j). split; [exact E1|]. cbn [forM]. erewrite run_bind; [reflexivity|].
    unfold journal_step. rewrite (run_bind getM _ (normalizer_init, j) _ _ eq_refl). cbv beta. cbn [snd].
    destruct j as [je jm ja jl]. cbn [jo_markers] in E3. subst jm.
    rewrite bool_decide_true by done. do 2 run_step. rewrite marker_entry_end. run_step. reflexivity. }
  cbn [mbind res_bind snd jo_events jo_markers jo_marker_at jo_latest]. rewrite E2, E5. unfold j0. cbn [jo_events].
  rewrite (Permutation_length Hp), Z.add_0_l. 
  destruct b; [|reflexivity]. destruct entries as [|x entries]; [by destruct (Hb eq_refl)|]. reflexivity.
Qed.

(** ** The whole collection *)

Lemma validate_manifest_same m m' : validate_manifest m = Ok m' → m = m'.
Proof using Type.
  unfold validate_manifest. intros H. inv_res. destruct (terminal m); [inv_res; congruence|].
  destruct (terminal_at m), (cm_feature_timeline_end_at m), (normalized_event_count m), (raw_audit m); inv_res; congruence.
Qed.

(** The raw tree of a collection: the first manifest in an empty tree, then a session of the
    writer in which every call of [write] returned and which its close ended. *)
Record ended (c : RawWriterSettings) (out t0 : collection_tree) (m0 : CollectionManifest) (s : RawStore)
    (acc : list RawMarketRecord) (started : Z) : Prop := {
  en_empty : tree_is_empty out = true;
  en_begun : begin_collection_manifest None (run_id m0) (utc started) (code_version m0) (strategy_version m0)
    (settings_sha256 m0) (code_sha256 m0) out = (t0, Ok m0);
  en_session : raw_session c quiet t0 s acc acc;
  en_closed : pw_close (rwr s) = RawCloseDone (Ok tt) }.

Lemma ended_tree c out t0 m0 s acc started :
  ended c out t0 m0 s acc started →
  terminal m0 = IN_PROGRESS ∧ cm_started_at m0 = started ∧ validate_manifest m0 = Ok m0 ∧
  files_in_place (tree s) ∧ rows_of (ct_files (tree s)) ≡ₚ map raw_row acc ∧ ct_temporaries (tree s) = [] ∧
  ct_sentinel (tree s) = false ∧ ct_manifest (tree s) = Some (manifest_json m0 +:+ of_chars [ascii_of_nat 10]).
Proof using Type.
  intros [H1 H2 H3 H4]. destruct (empty_tree out H1) as (E1 & E2 & E3 & E4).
  assert (ct_files t0 = [] ∧ ct_temporaries t0 = [] ∧ ct_sentinel t0 = false ∧
    ct_manifest t0 = Some (manifest_json m0 +:+ of_chars [ascii_of_nat 10]) ∧ validate_manifest m0 = Ok m0 ∧
    terminal m0 = IN_PROGRESS ∧ cm_started_at m0 = started) as (F1 & F2 & F3 & F4 & F5 & F6 & F7).
  { unfold begin_collection_manifest in H2. apply bindM_Ok in H2 as (? & st & [Hst ->]%liftM_Ok & H2).
    unfold manifest_utc in Hst. rewrite as_utc_utc in Hst. injection Hst as <-.
    apply bindM_Ok in H2 as (? & m & [Hm ->]%liftM_Ok & H2). apply bindM_Ok in H2 as (? & [] & Hcl & [= <- ->]).
    assert (validate_manifest m0 = Ok m0 ∧ terminal m0 = IN_PROGRESS ∧ cm_started_at m0 = started) as (G1 & G2 & G3).
    { pose proof (validate_manifest_same _ _ Hm) as H. rewrite H in Hm. split; [done|]. by rewrite <- H. }
    unfold claim_collection_manifest, tree_fault in Hcl. by inv_M. }
  assert (files_in_place t0) as Hs by (unfold files_in_place; by rewrite F1).
  destruct (session_delivered _ _ _ _ _ Hs H3 H4) as (o & f & Hg & Hf & (R1 & R2 & R3) & Hr & _).
  assert (o = []) as ->.
  { apply Permutation_length in Hg. rewrite !length_app in Hg. destruct o; [done|simpl in Hg; lia]. }
  rewrite app_nil_r, F1 in Hr. rewrite R1, R2, R3. done.
Qed.

Lemma session_audit t acc :
  files_in_place t → rows_of (ct_files t) ≡ₚ map raw_row acc → NoDup (map record_id acc) →
  Forall (λ r, raw_payload r ≠ ""%string) acc →
  audit_raw_tree row_hash t = Ok (audit_of row_hash (Z.of_nat (length (ct_files t))) (rows_of (ct_files t))).
Proof using Type.
  intros Hf Hr Hn Hp. apply audit_raw_tree_spec. split; [|split; [|done]].
  - apply in_place_sound; [done|]. unfold rows_sound. rewrite Hr. apply Forall_fmap. eapply Forall_impl; [exact Hp|].
    intros r H. by split_and!.
  - rewrite Hr, row_ids. apply (NoDup_fmap_2_strong uuid_text); [|done]. intros x y _ _. apply uuid_text_inj.
Qed.

Lemma clean_manifest_valid m0 finished w n lo :
  validate_manifest m0 = Ok m0 → 0 ≤ n → mk_logical_audit lo = Ok lo → cm_started_at m0 ≤ w ≤ finished →
  let m := {| m0 with terminal := CLEAN_END; terminal_at := Some finished; cm_feature_timeline_end_at := Some w;
    normalized_event_count := Some n; raw_audit := Some lo |} in
  validate_manifest m = Ok m.
Proof using Type.
  intros Hm Hn Hlo Hw m. destruct m0 as [r0 st0 te0 ta0 fe0 cv0 cs0 sv0 ss0 nc0 ra0]. unfold m, validate_manifest in *. clear m.
  cbn [code_version code_sha256 strategy_version settings_sha256 normalized_event_count raw_audit terminal terminal_at
    cm_feature_timeline_end_at cm_started_at given] in *.
  do 4 (apply bind_Ok in Hm as (? & ->%require_Ok & Hm)). cbn [require mbind res_bind].
  rewrite Hlo. cbn [mbind res_bind]. rewrite !(proj2 (Z.leb_le _ _)) by lia. done.
Qed.

Lemma collection_completes c out t0 m0 s acc started finished entries id w others :
  ended c out t0 m0 s acc started →
  acc ≡ₚ map (λ x : UUID * event, event_entry x.1 x.2) entries ++ marker_entry id w :: others →
  Forall (λ x : UUID * event, is_uuid x.1 = true ∧ model_event x.2) entries → is_uuid id = true → entries ≠ [] →
  Forall raw_wf others → Forall (λ r, channel r ≠ NORMALIZED_EVENT_JOURNAL_CHANNEL) others →
  Forall (λ x : UUID * event, recv x.2 ≤ w) entries → started ≤ w ≤ finished →
  NoDup (map record_id acc) → Forall (λ r, raw_payload r ≠ ""%string) acc →
  ∃ t m v,
    complete_collection None (run_id m0) (Z.of_nat (length entries)) w finished (tree s) = (t, Ok m) ∧
    stored (ct_files t) (map (λ x : UUID * event, event_entry x.1 x.2) entries ++ marker_entry id w :: others) ∧
    resolve_replay_source row_hash AUTO t = Ok {| sr_mode := JOURNAL; sr_clean_collection := Some v |} ∧
    cv_manifest v = m ∧ cv_event_count v = Z.of_nat (length entries) ∧
    (code_version m, code_sha256 m, strategy_version m, settings_sha256 m) =
      (code_version m0, code_sha256 m0, strategy_version m0, settings_sha256 m0).
Proof using Laws MLaws.
  intros Hend Hacc He Hid Hne How Hoc Hrec Hw Hnd Hpay.
  destruct (ended_tree _ _ _ _ _ _ _ Hend) as (M1 & M2 & M3 & Hf & Hrows & Hte & Hse & Hman).
  assert (Forall (λ x : UUID * event, model_event x.2) entries) as Hmod by (eapply Forall_impl; [exact He|]; by intros x []).
  set (l := map (λ x : UUID * event, event_entry x.1 x.2) entries ++ marker_entry id w :: others) in *.
  assert (stored (ct_files (tree s)) l) as Hst.
  { split; [|fold (rows_of (ct_files (tree s))); by rewrite Hrows, Hacc].
    eapply Forall_impl; [exact Hf|]. by intros x (? & _). }
  set (a := audit_of row_hash (Z.of_nat (length (ct_files (tree s)))) (rows_of (ct_files (tree s)))).
  assert (audit_raw_tree row_hash (tree s) = Ok a) as Haudit by by apply (session_audit (tree s) acc).
  destruct (logical_audit_of (Z.of_nat (length (ct_files (tree s)))) (rows_of (ct_files (tree s)))) as (lo & Hlo & Hlo').
  fold a in Hlo.
  assert (has_channel NORMALIZED_EVENT_JOURNAL_CHANNEL (tree s) = true) as Hch.
  { apply (in_place_channel _ (raw_row (marker_entry id w))); [done|]. rewrite Hrows. apply list_elem_of_fmap_2.
    rewrite Hacc. apply elem_of_app. right. left. }
  assert (∃ sorted, sorted ≡ₚ entries ∧ iter_raw_records READER_BATCH journal_filter RECEIVE_TIME (ct_files (tree s)) =
    Ok (map entry_read sorted ++ [as_read (marker_entry id w)])) as Hscan.
  { destruct (journal_scan (pred READER_BATCH) _ _ _ _ _ He Hid How Hoc Hst) as (sorted & P1 & _ & P2).
    exists sorted. rewrite Nat.succ_pred in P2 by (pose proof READER_BATCH_pos; lia). done. }
  set (m := {| m0 with terminal := CLEAN_END; terminal_at := Some finished; cm_feature_timeline_end_at := Some w;
    normalized_event_count := Some (Z.of_nat (length entries)); raw_audit := Some lo |}).
  assert (validate_manifest m = Ok m) as Hm by (apply clean_manifest_valid; try done; [lia|by rewrite M2]).
  set (t := let u := tree s in {| u with ct_exists := true;
    ct_manifest := Some (manifest_json m +:+ of_chars [ascii_of_nat 10]) |}).
  set (v := {| cv_manifest := m; cv_raw_audit := a; cv_event_count := Z.of_nat (length entries); cv_marker_count := 1 |}).
  exists t, m, v. split.
  { unfold complete_collection. rewrite (run_bind getM _ (tree s) _ _ eq_refl). rewrite Haudit. run_step.
    rewrite (journal_audited _ entries id w false) by done. run_step. cbn [ja_event_count ja_marker_at]. rewrite !Z.eqb_refl.
    run_step. unfold complete_collection_manifest. rewrite (run_bind getM _ (tree s) _ _ eq_refl).
    rewrite (manifest_read m0) by done. run_step. rewrite !bool_decide_true by done. do 2 run_step.
    rewrite Hlo. run_step. unfold manifest_utc. rewrite !as_utc_utc. do 2 run_step. fold m. rewrite Hm. run_step.
    reflexivity. }
  split; [exact Hst|]. split; [|done].
  assert (validate_clean_collection row_hash None t = Ok v) as Hv.
  { apply validate_none. exists a. split; [exact Haudit|]. split; try done.
    - by apply manifest_read.
    - by exists lo.
    - eexists. split; [by apply (journal_audited _ entries id w true)|done]. }
  unfold resolve_replay_source. rewrite Hv. unfold inspect_collection_evidence. cbn [ct_exists ct_manifest t negb is_none].
  unfold any_evidence. cbn [ev_journal ev_manifest ev_incomplete orb]. rewrite orb_true_r. reflexivity.
Qed.
End complete.

(** ** From the live run to the replay *)

Section replayed.
Context {Codec : ReplayCodec} {Laws : JournalLaws} {MC : ManifestCodec} {MLaws : ManifestLaws} (row_hash : RawRow → Z).
Context {E : Type} `{!FeatureSink E} (start close : M E unit).
Context (c : TimelineSettings) (content_identity : event → string).
Hypothesis settings_positive : ∀ k, 0 < interval_for c k.
Hypothesis reorder_positive : 0 < receive_time_reorder c.

End replayed.
