(* ===== verification/CollectedDemo.v ===== *)
(** * A collection evaluated

    The three events of the replayed run collected with a market record, the tree of the
    collection compacted, and both replayed. *)

From S2P Require Import Prelude Effects PyDecimal PyFloat PyTime Models FeatureModels FeatureRows FeatureTree FeatureRuntime RuntimeResult Clock Timeline TimelineExact TimelineSink RuntimeDemo FeatureWire RawRecords RawTree RawWriter RawAudits RawStore NormBinance NormOkx Replay Journal Collection RawCompact EventWire ReplayResult ReplayDemo Collected.
From Stdlib Require Import Ascii.
Open Scope Z_scope.

(** ** A codec of manifests *)

#[export] Instance wire_CollectionTerminal : Wire CollectionTerminal.
Proof.
  refine (wire_via (B := bool) (λ t, bool_decide (t = CLEAN_END)) (λ b, Some (if b then CLEAN_END else IN_PROGRESS)) _).
  by intros [].
Defined.

#[export] Instance wire_RawLogicalAudit : Wire RawLogicalAudit.
Proof.
  refine (wire_via (B := Z * (Z * (string * (Z * Z))))
    (λ a, (la_rows a, (la_unique_record_ids a, (la_content_digest a, (la_payload_bytes a, la_partitions a)))))
    (λ '(x0, (x1, (x2, (x3, x4)))), Some {| la_rows := x0; la_unique_record_ids := x1; la_content_digest := x2;
      la_payload_bytes := x3; la_partitions := x4 |}) _).
  by intros [].
Defined.

#[export] Instance wire_CollectionManifest : Wire CollectionManifest.
Proof.
  refine (wire_via (B := string * (Z * (CollectionTerminal * (option Z * (option Z * (string * (string * (string * (string *
      (option Z * option RawLogicalAudit))))))))))
    (λ m, (run_id m, (cm_started_at m, (terminal m, (terminal_at m, (cm_feature_timeline_end_at m, (code_version m,
      (code_sha256 m, (strategy_version m, (settings_sha256 m, (normalized_event_count m, raw_audit m)))))))))))
    (λ '(x0, (x1, (x2, (x3, (x4, (x5, (x6, (x7, (x8, (x9, x10)))))))))), Some {| run_id := x0; cm_started_at := x1; terminal := x2;
      terminal_at := x3; cm_feature_timeline_end_at := x4; code_version := x5; code_sha256 := x6; strategy_version := x7;
      settings_sha256 := x8; normalized_event_count := x9; raw_audit := x10 |}) _).
  by intros [].
Defined.

#[export] Instance demo_manifest : ManifestCodec := {|
  manifest_json m := put m EmptyString;
  validate_manifest_json s := m ← read_as s; validate_manifest m |}.

#[export] Instance demo_manifest_laws : ManifestLaws.
Proof.
  split.
  - intros m Hm. exact (read_then validate_manifest m (Ok m) Hm).
  - intros text m (m' & _ & H)%bind_Ok. pose proof (validate_manifest_same _ _ H) as <-. done.
Qed.

(** ** The session *)

Definition raw_settings : RawWriterSettings := {| rs_batch_rows := 10; rs_queue_capacity := 10; rs_on_backpressure := None |}.
Definition demo_sha : string := of_chars (replicate 64 "a"%char).
Definition begun_run := Eval vm_compute in
  begin_collection_manifest None "00000000000040008000000000000009" (utc 1) "0.1.0" "v1" demo_sha demo_sha no_tree.
Definition begun_manifest := Eval vm_compute in match begun_run.2 with Ok m => m | Err _ =>
  {| run_id := ""; cm_started_at := 0; terminal := IN_PROGRESS; terminal_at := None; cm_feature_timeline_end_at := None;
     code_version := ""; code_sha256 := ""; strategy_version := ""; settings_sha256 := ""; normalized_event_count := None;
     raw_audit := None |} end.

(** Every record in one batch; the close places the files of its three partitions. *)
Definition collect_labels : list raw_label :=
  RStart :: map RWrite journal_rows ++ replicate 5 RGet ++ [RClose; RCloseRun; RGet;
    RPlace "0000000000000001" None; RPlace "0000000000000002" None; RPlace "0000000000000003" None; RCloseJoin].
Definition collected_run := session_run raw_settings quiet begun_run.1 collect_labels.
Definition collected_store := Eval vm_compute in match collected_run with Some (s, _, _) => s | None =>
  {| tree := no_tree; rwr := raw_writer_init |} end.

Lemma collected_session : raw_session raw_settings quiet begun_run.1 collected_store journal_rows journal_rows.
Proof. apply (session_run_session _ _ _ collect_labels). vm_compute. reflexivity. Qed.

Lemma demo_ended : ended raw_settings no_tree begun_run.1 begun_manifest collected_store journal_rows 1.
Proof. split; [reflexivity|vm_compute; reflexivity|exact collected_session|reflexivity]. Qed.

Lemma raw_close_delivers_witness :
  rows_of (ct_files (tree collected_store)) ≡ₚ map raw_row journal_rows ∧ written_records (rwr collected_store) = 5.
Proof.
  destruct (raw_close_delivers raw_settings begun_run.1 collected_store journal_rows journal_rows)
    as (o & f & Hg & _ & _ & Hr & Ha & Hw & _).
  - constructor.
  - exact collected_session.
  - reflexivity.
  - assert (o = []) as ->.
    { apply Permutation_length in Hg. rewrite !length_app in Hg. destruct o; [done|simpl in Hg; lia]. }
    rewrite app_nil_r in Hr. split; [exact Hr|]. rewrite Hw, Ha. reflexivity.
Defined.

(** ** Its replay *)

(** Any hash of rows. *)
Definition demo_hash (r : RawRow) : Z := Z.of_nat (String.length (rw_record_id r +:+ rw_raw_payload r)).

Lemma journal_ids : NoDup (map record_id journal_rows).
Proof. apply (bool_decide_unpack _). vm_compute. exact I. Qed.
Lemma demo_payloads : Forall (λ r, raw_payload r ≠ ""%string) journal_rows.
Proof. apply (bool_decide_unpack _). vm_compute. exact I. Qed.
Lemma demo_entries : Forall (λ x : UUID * event, is_uuid x.1 = true ∧ model_event x.2) journal_entries.
Proof. repeat constructor; vm_compute; reflexivity. Qed.


(** ** Its compaction *)

Definition demo_writes : list (string * option write_fault) :=
  [("a", None); ("b", None); ("c", None); ("d", None); ("e", None)]%string.

Lemma journal_source_exists t v :
  resolve_replay_source demo_hash AUTO t = Ok {| sr_mode := JOURNAL; sr_clean_collection := Some v |} →
  ct_exists t = true ∧ validate_clean_collection demo_hash None t = Ok v.
Proof.
  unfold resolve_replay_source, inspect_collection_evidence. rewrite bool_decide_false by done.
  destruct (ct_exists t); cbn [negb]; [|done]. destruct (_ && _); [done|]. intros (w & Hw & [= ->])%bind_Ok. done.
Qed.

Lemma compaction_total_witness :
  ∃ t u report v w,
    compact_raw_tree demo_hash 2 ["raw"%string] ["compact"%string] None None demo_writes t no_tree = (u, Ok report) ∧
    iter_raw_records 3 no_raw_filter EVENT_TIME (ct_files u) = iter_raw_records 3 no_raw_filter EVENT_TIME (ct_files t) ∧
    validate_clean_collection demo_hash None t = Ok v ∧ validate_clean_collection demo_hash None u = Ok w ∧
    cv_manifest w = cv_manifest v ∧ cv_event_count w = 3.
Proof.
  destruct (collection_completes demo_hash raw_settings no_tree begun_run.1 begun_manifest collected_store journal_rows 1 6000000
    journal_entries marker_id 5100000 [market_record]) as (t & m & v & _ & Hst & Hr & _ & Hc & _).
  - exact demo_ended.
  - reflexivity.
  - exact demo_entries.
  - reflexivity.
  - discriminate.
  - by repeat constructor.
  - repeat constructor. discriminate.
  - by repeat constructor.
  - lia.
  - exact journal_ids.
  - exact demo_payloads.
  - pose proof (journal_source_exists _ _ Hr) as [Hx Hv]. pose proof Hv as (a & Ha & _)%validate_none.
    assert (rows_of (ct_files t) ≡ₚ map raw_row journal_rows) as Hp by exact (proj2 Hst).
    destruct (compaction_total demo_hash 2 ["raw"%string] ["compact"%string] demo_writes t no_tree journal_rows a)
      as (u & report & C1 & C2 & _ & _ & _ & C3).
    + lia.
    + reflexivity.
    + reflexivity.
    + exact Hx.
    + reflexivity.
    + apply (bool_decide_unpack _). vm_compute. exact I.
    + intros Ht. apply (compaction_trouble_perm _ _ _ Hp) in Ht as [Ht|[Ht|Ht]].
      * revert Ht. apply (bool_decide_unpack (¬ _)). vm_compute. exact I.
      * revert Ht. apply (bool_decide_unpack (¬ _)). vm_compute. exact I.
      * vm_compute in Ht. lia.
    + exact Hst.
    + apply Forall_app. split; [|by repeat constructor].
      apply Forall_fmap. eapply Forall_impl; [exact demo_entries|]. intros x [H1 H2]. by apply event_entry_wf.
    + exact Ha.
    + intros _. by rewrite Hv.
    + exists t, u, report. assert (any_evidence (inspect_collection_evidence t) = true) as Hev.
      { unfold resolve_replay_source in Hr. rewrite bool_decide_false in Hr by done. rewrite bool_decide_true in Hr by done.
        destruct (any_evidence _); [done|discriminate Hr]. }
      destruct (C3 Hev) as (v' & w & V1 & V2 & V3 & V4). assert (v' = v) as -> by congruence.
      exists v, w. split; [exact C1|]. split; [apply C2|]. split; [exact V1|]. split; [exact V2|]. split; [exact V3|].
      rewrite V4, Hc. reflexivity.
Defined.

(** The disk fails while the mark of the compaction is written. *)
Definition failed_compaction :=
  compact_raw_tree demo_hash 2 ["raw"%string] ["compact"%string] (Some WriteFails) None demo_writes
    {| no_tree with ct_exists := true |} no_tree.

Lemma failed_compaction_refused_witness :
  failed_compaction.2 = Err os_error ∧ refused demo_hash failed_compaction.1.
Proof.
  split; [reflexivity|].
  destruct (failed_compaction_refused demo_hash 2 ["raw"%string] ["compact"%string] (Some WriteFails) None demo_writes
    {| no_tree with ct_exists := true |} no_tree failed_compaction.1 os_error) as [H|H].
  - reflexivity.
  - discriminate H.
  - exact H.
Defined.
